(* ===== verification/_CoqProject ===== *)
-Q . S2P
Prelude.v
Collections.v
Float32.v
Float64.v
Text.v
Identity.v
Query.v
Vocabulary.v
Filters.v
Fusion.v
TextNormalizer.v
Health.v
ControlPlane.v
Sectionizer.v
Redaction.v
SearchMetadata.v
Coordinator.v
QueryScope.v
QueryRuntime.v
Embedding.v
Resident.v
WriterStore.v
WriterTransition.v
UpgradeCoordinator.v
VectorSnapshot.v
VectorPublication.v
VectorGc.v
ContactKeys.v
Classifier.v
ImportFile.v
ImportRun.v
ImportSchedule.v
ImportTermination.v
ImportDemo.v
