(* ===== verification/Prelude.v ===== *)
(** * resume-ir: a verification development

    resume-ir is a local-first resume search engine written in Rust.  A daemon
    imports files into a SQLite metadata store, publishes immutable search
    generations (a full-text and a vector snapshot with one projection of
    documents to resume versions), and answers keyword, semantic and hybrid
    queries over the published generation.  This library translates the core
    logic of that system into executable Rocq definitions and proves what makes
    it correct.  Source paths below are relative to src/crates/.

    ** Parts and files

    Shared material.
    - [Prelude] (this file): [result] and the [?] operator ([let?]), stateful
      fallible steps ([let!]), machine-integer bounds and byte encodings, the
      [resume] hint database, the tactics [bools], [invert_ok] and [peel],
      reachability of step relations.
    - [Collections]: the [Cmp]/[CmpLaws] classes (Rust's [Ord]), [BTreeSet] and
      [BTreeMap] as strictly sorted lists, the stable [sort_by].
    - [Float32], [Float64]: [f32] and [f64] as exact IEEE formats (SpecFloat), with
      widening and rounding between them.
    - [Text]: [char], [str] and UTF-8, the string functions the code uses, the
      [Unicode]/[UnicodeLaws] classes for the Unicode tables of the standard
      library.

    Components.
    - [Identity] (core-domain/src/lib.rs, content_identity.rs): stable ids, contact
      hashes, content digests, search projection digests, content-addressed ids.
      SHA-256 is a parameter ([Sha256]).
    - [Query] (core-domain query sets, search-planner): scanning and normalizing
      query sets, semantic bounds, buckets, [plan_search].  NFKC is a parameter.
    - [Vocabulary], [Filters], [Fusion] (rank-fusion/src/lib.rs): controlled
      vocabularies, profiles and filters, duplicate scores, candidate folding and
      reciprocal rank fusion.
    - [TextNormalizer] (text-normalizer): both normalizers, byte origins, ranges.
    - [Sectionizer] (sectionizer): heading sections and fallback chunks.
    - [Health] (daemon-contract/src/health.rs) and [ControlPlane]
      (daemon/src/ipc/runtime_state.rs, writer_health.rs): the health contract and
      the publisher state machine that keeps it visible to clients.
    - [SearchMetadata] (meta-store/src/search_snapshot.rs and its modules): the ready head, the
      projection audit, filter selections and hydration of one read transaction.
      SQLite is a parameter: [SearchConnection] has a field per SQL statement.
    - [Coordinator] (search-runtime/src/coordinator.rs): the cache of readers and
      the prepare/install/activate protocol of generations.  The index crates are
      the interface [SearchBackend]; what one call observes of the disk and the
      store is its [Env].
    - [QueryScope] (search-runtime/src/scope.rs): the bounded facade of a query.
    - [QueryRuntime] (daemon/src/query_runtime.rs, search_contract.rs): a whole
      search request.  The embedding client and the answers of cancellation and
      deadline are parameters.
    - [Embedding] (embedding-protocol/src/lib.rs) and [Resident] (embedder/src/resident.rs):
      the framed protocol of the embedding runtime, and the supervisor that queues
      batches for it.  Reads, clocks, clients and the child process are scripts.
    - [WriterStore], [WriterTransition] (meta-store/src/writer_transition_store.rs and the
      tables it touches): the writer authority, its latches, the transition between
      processing contracts, task insertion and claims, as transactions on [Db].
    - [UpgradeCoordinator] (daemon/src/upgrade_coordinator.rs): the startup barrier and the
      worker tick that drive the store to the contract of the build.
    - [VectorSnapshot], [VectorPublication] (index-vector/src/): documents, digests, updates,
      the encrypted snapshot and its publication through a staging directory.  A
      [World] scripts cancellation answers and the faults of system calls; serde_json
      and the cipher are the classes [SerdeJson] and [Aead].
    - [VectorGc] (index-vector/src/snapshot_gc.rs, snapshot_gc_candidates.rs, snapshot_root.rs):
      the leases of readers and the collector and retirement of generations over one
      shared root.  At every system call the [World] may fail it and the [turns] of the
      root let readers and a publisher move.
    - [Redaction] (privacy/src/redaction.rs): the guarded replacement of contact values.  The
      patterns are syntax with a meaning, the engine is the class [RegexEngine].
    - [ContactKeys] (privacy/src/lib.rs): the key of the contact hashes, its backups and the
      hashes.  A [Machine] holds files, failing system calls and random answers.
    - [Classifier] (resume-classifier/src/lib.rs, linear_promotion.rs): the admission rules
      and the linear model that may promote a borderline text, with the loading of its
      artifact.  [Libm] has the logarithm and the exponential, [ArtifactCodec] the JSON reader.
    - [ImportFile] (import-pipeline/src: file_processing and the parse worker): the
      metadata fast path, reading, parsing and triage of one file, inline and in a worker.
      Parsers, extraction and the file system are [ImportEngines] and [ImportWorld].
    - [ImportRun] (publication_coordinator.rs, source_dispositions.rs, orchestrator.rs,
      scan.rs): batches of staged documents, dispositions, progress and the commit
      of results in scan order.
    - [ImportSchedule], [ImportTermination] (scheduler.rs, parallel.rs): the coordinator and
      its worker threads over two bounded channels, one step per turn of a schedule.
      [ImportDemo] evaluates a run and holds the witnesses.

    ** How they interact

    A request reaches [QueryRuntime.execute], which runs one pass inside
    [Coordinator.with_query] or [with_lexical_query].  The coordinator opens a
    [SearchMetadata] transaction, makes sure its readers belong to the head's
    publication, and calls the pass on a [QueryScope].  Candidates come from the
    readers, are fused by [Fusion.fuse_hybrid_rrf] and hydrated by
    [SearchMetadata.hydrate_exact_hits]; file names pass through [Redaction].  The projection audit of the head uses the
    digests of [Identity].  [Query] plans the text that is searched, [Health] and
    [ControlPlane] decide whether search is offered at all.  On the import side
    [ImportSchedule] hands scanned files to workers that run [ImportFile]: the text goes
    through [TextNormalizer], [Classifier] and [Sectionizer], documents are named by
    [Identity] under the contract that [WriterStore] admits, and [ImportRun] commits the
    results in order; [Vocabulary]/[Filters] hold the profiles they are filtered by.  Embeddings come from
    [Resident], which speaks [Embedding] to its child; the vectors are published by
    [VectorSnapshot] under the projection digest of [Identity], and the readers of
    [Coordinator] open what was published, under the leases of [VectorGc].  [UpgradeCoordinator] calls [WriterStore], and
    [ControlPlane] publishes the health that its authority row describes.

    ** What the theorems show

    - Pinning: in every run of the coordinator queries see one publication
      ([queries_are_generation_pinned]); its projection is bound by its digest up
      to SHA-256 collisions of their own encodings ([audit_pinned_by_digest],
      [search_projection_digest_binding]); prepared generations are served exactly
      when published, and at most two generations are resident.
    - Results: [execute_spec] (no panic, hits bounded, ranked, one per document and
      current), [fuse_candidates_spec], [filtered_candidates_exact],
      [hydrate_exact_hits_iff], and the exact specification of fusion and folding.
    - A defect: [composite_query_fails_after_lexical].
    - Text: cleaning is traceable byte by byte to its source, both normalizers
      agree and are idempotent; sections and chunks have exact offsets, bounded
      sizes and lose no visible character.
    - Matching: filters decide their declarative meaning, vocabularies are fixed
      points, date ranges round-trip and overlap iff they share a month; duplicate
      scores are symmetric with a known range.
    - Control plane: every visible snapshot satisfies the client's validation, and
      a blocked publisher fences prepared snapshots.
    - Writers: the invariant of every reachable store
      ([writer_authority_reachable]), the claim fence during a transition, no task lost
      and every retired intent replaced ([target_commit_moves_intents]), completion in a
      quiet store ([quiet_store_commits], [tick_completes_transition]), and admission
      only under the desired contract ([barrier_admission_sound]).
    - Embeddings: frames round-trip and bound what is read; every accepted batch is
      answered once, with vectors of its own inputs, or dropped by a shutdown, which its
      client sees as [WorkerUnavailable]; a failed child serves nothing more, and queued
      batches make progress.
    - Vector generations: a written snapshot reads back bit for bit, whatever a reader
      accepts is consistent, publication is atomic under any cancellation and faults,
      disturbances never change what is delivered, and a valid publication succeeds;
      whatever is collected or retired, no reader loses the generation it reads
      ([readers_keep_their_generation]), and a collection or a retirement removes exactly
      what it says ([collection_outcome], [retirement_outcome]).
    - Imports: under every schedule of the workers a run commits what the sequential
      pipeline commits, in scan order ([parallel_run_refines_pipeline]), every source of
      a completed run is staged ([completed_run_stages_every_source]), a fair schedule
      ends ([parallel_run_terminates]), a worker decides like the inline path
      ([worker_path_matches_process_file]), dispositions of searchable documents wait for
      their flush, and the fast path only skips unchanged files ([fast_path_hit_sound]).
    - Admission: which texts are resumes, review or not ([admission_spec]), and a loaded
      model is the checked bundle it claims to be ([loaded_policy_sound]).
    - Privacy: the scans in front of the patterns never hide a match on ordinary text
      ([redaction_guards_exact]), a defect on long runs ([phone_after_long_rule_leaks]), a
      key that never changes under failures ([contact_key_stable]), backups that restore
      it ([backup_restores_key]), and a panic on damaged key files ([multibyte_key_panics]).
    - Queries: an accepted normalized query scans back to its terms within bounds,
      and planning clamps limits on every branch.

    ** Conventions, bounds and fuel

    Integers are [Z]; width shows where the code wraps, saturates, checks or uses a
    type's bounds, and [usize] is 64 bits wide.  A Rust panic (slice off a character
    boundary, crossed [clamp], [expect]) is an explicit [None], and the theorems
    show that it is not reached.  Errors are values of [result].  Loops that are not
    structural take fuel that is shown to suffice: the scan of logical terms has the
    length of its input, [dec_digits] 20 digits (a 64-bit number has at most 20),
    the binary search the length of the slice, a repetition in a pattern the rest of the
    text, [boundary_before] the byte offset,
    [write_chunks] the number of bytes (each chunk takes at least one), the loops of
    the import coordinator one step per turn of the schedule, which the termination
    theorem bounds by eight turns per file and one per worker.
    Hash functions, Unicode tables, NFKC, SQLite, index engines, the embedding
    worker and the clock are parameters; what the code relies on is a named
    hypothesis or class of laws, each with a concrete instance in a witness.

    ** Not modelled, and the plan

    Schema migrations and publication rows, the crawl and the artifact publication and
    recovery of imports, the parsers, field extraction, OCR, embedding inference, the
    daemon's threads and sockets, the command line and the desktop shell are outside
    the model: they are I/O, third-party engines, or not yet translated.  Next in the
    plan: generations of the full-text index (index-fulltext), OCR scheduling, field
    extraction rules. *)

From stdpp Require Import prelude.
From Stdlib Require Import ZArith.

(** Two given inputs that a function does not tell apart. *)
Definition collide {A B} (f : A → B) (x y : A) : Prop := x ≠ y ∧ f x = f y.

(** ** Results of fallible code

    Rust's [Result<A, E>]; the [?] operator is the bind below. *)

Inductive result (A E : Type) : Type :=
| Ok (a : A)
| Err (e : E).
Arguments Ok {A E} a.
Arguments Err {A E} e.

#[global] Instance result_eq_dec {A E} `{EqDecision A, EqDecision E} : EqDecision (result A E).
Proof. solve_decision. Defined.

Declare Scope result_scope.
Delimit Scope result_scope with result.
Open Scope result_scope.

Definition result_bind {A B E} (r : result A E) (k : A → result B E) : result B E :=
  match r with
  | Ok a => k a
  | Err e => Err e
  end.

Notation "'let?' x ':=' r 'in' k" := (result_bind r (λ x, k))
  (at level 10, x pattern, r at level 100, k at level 200) : result_scope.

(** A step of code that mutates its state and may fail: an error keeps the
    state reached and ends the caller. *)
Definition step_bind {S A B E} (r : S * result A E) (k : S → A → S * result B E)
    : S * result B E :=
  match r with
  | (s, Ok a) => k s a
  | (s, Err e) => (s, Err e)
  end.

Notation "'let!' s ':=' r 'in' k" := (step_bind r (λ s _, k))
  (at level 10, s name, r at level 100, k at level 200) : result_scope.

(** [Option::ok_or], [Result::map_err] and [Result::ok]. *)
Definition ok_or {A E} (o : option A) (e : E) : result A E :=
  match o with Some a => Ok a | None => Err e end.

Definition map_err {A E F} (f : E → F) (r : result A E) : result A F :=
  match r with Ok a => Ok a | Err e => Err (f e) end.

Definition result_ok {A E} (r : result A E) : option A :=
  match r with Ok a => Some a | Err _ => None end.

(** [Iterator::collect::<Result<Vec<_>, _>>]: stops at the first error. *)
Fixpoint collect_results {A B E} (f : A → result B E) (l : list A) : result (list B) E :=
  match l with
  | [] => Ok []
  | x :: l =>
      let? y := f x in
      let? ys := collect_results f l in
      Ok (y :: ys)
  end.

(** ** Machine integers

    Integers are [Z]; the width shows up where the source wraps, saturates or
    uses a type's bounds.  [usize] is 64 bits wide on every target the
    repository ships (aarch64-apple-darwin, x86_64-pc-windows-msvc). *)

Definition u32_MAX : Z := 2 ^ 32 - 1.
Definition u64_MAX : Z := 2 ^ 64 - 1.
Definition usize_MAX : Z := 2 ^ 64 - 1.
Definition i32_MIN : Z := - 2 ^ 31.
Definition i32_MAX : Z := 2 ^ 31 - 1.
Definition i64_MIN : Z := - 2 ^ 63.
Definition i64_MAX : Z := 2 ^ 63 - 1.

Definition u64_wrapping_mul (x y : Z) : Z := (x * y) `mod` 2 ^ 64.
Definition u64_saturating_add (x y : Z) : Z := Z.min (x + y) u64_MAX.
Definition usize_saturating_add (x y : Z) : Z := Z.min (x + y) usize_MAX.

(** Little-endian and big-endian byte strings of fixed width ([to_le_bytes],
    [to_be_bytes], [from_be_bytes]); bytes are integers in [0, 256). *)

Fixpoint to_le_bytes (n : nat) (x : Z) : list Z :=
  match n with
  | O => []
  | S n => Z.land x 255 :: to_le_bytes n (Z.shiftr x 8)
  end.

Definition to_be_bytes (n : nat) (x : Z) : list Z := reverse (to_le_bytes n x).

Definition from_be_bytes (bs : list Z) : Z :=
  fold_left (λ acc b, Z.lor (Z.shiftl acc 8) b) bs 0%Z.

Fixpoint from_le_bytes (bs : list Z) : Z :=
  match bs with
  | [] => 0
  | b :: bs => Z.lor b (Z.shiftl (from_le_bytes bs) 8)
  end.

Definition is_byte (b : Z) : Prop := (0 ≤ b < 256)%Z.

(** ** Automation *)

Create HintDb resume discriminated.
#[export] Hint Constants Opaque : resume.
#[export] Hint Variables Opaque : resume.

(** Boolean connectives in the context become propositional facts. *)
Ltac bools :=
  repeat match goal with
  | H : (_ && _)%bool = true |- _ => apply andb_prop in H as [? ?]
  | H : (_ || _)%bool = false |- _ => apply orb_false_elim in H as [? ?]
  | H : negb _ = true |- _ => apply negb_true_iff in H
  | H : negb _ = false |- _ => apply negb_false_iff in H
  | H : (_ <=? _)%Z = true |- _ => apply Z.leb_le in H
  | H : (_ <=? _)%Z = false |- _ => apply Z.leb_gt in H
  | H : (_ <? _)%Z = true |- _ => apply Z.ltb_lt in H
  | H : (_ <? _)%Z = false |- _ => apply Z.ltb_ge in H
  | H : (_ =? _)%Z = true |- _ => apply Z.eqb_eq in H
  | H : (_ =? _)%Z = false |- _ => apply Z.eqb_neq in H
  | H : (_ <=? _)%N = true |- _ => apply N.leb_le in H
  | H : (_ <=? _)%N = false |- _ => apply N.leb_gt in H
  | H : (_ <? _)%N = true |- _ => apply N.ltb_lt in H
  | H : (_ <? _)%N = false |- _ => apply N.ltb_ge in H
  | H : (_ =? _)%N = true |- _ => apply N.eqb_eq in H
  | H : (_ =? _)%N = false |- _ => apply N.eqb_neq in H
  | H : bool_decide _ = true |- _ => apply bool_decide_eq_true in H
  | H : bool_decide _ = false |- _ => apply bool_decide_eq_false in H
  end.

(** Invert a successful [result] computation step by step. *)
Ltac invert_ok :=
  repeat match goal with
  | H : result_bind ?r _ = Ok _ |- _ =>
      let E := fresh "E" in destruct r eqn:E; cbn [result_bind] in H; [|discriminate H]
  | H : Ok _ = Ok _ |- _ => injection H as H; subst
  | H : Err _ = Ok _ |- _ => discriminate H
  end.

(** Follow a successful computation through its fallible steps and guards, one
    at a time; the equation of each step is kept. *)
Ltac peel H :=
  match type of H with
  | result_bind (ok_or ?o _) _ = Ok _ =>
      let E := fresh "E" in destruct o eqn:E; cbn [ok_or result_bind] in H; [|discriminate H]
  | result_bind (map_err _ ?r) _ = Ok _ =>
      let E := fresh "E" in destruct r eqn:E; cbn [map_err result_bind] in H; [|discriminate H]
  | result_bind ?r _ = Ok _ =>
      let E := fresh "E" in destruct r eqn:E; cbn [result_bind] in H; [|discriminate H]
  | (if ?b then Err _ else _) = Ok _ =>
      let E := fresh "E" in destruct b eqn:E; [discriminate H|]
  end.

(** ** Generic lemmas *)

Section collect.
Context {A B E : Type} (f : A → result B E).

Lemma collect_results_Forall2 l ys :
  collect_results f l = Ok ys ↔ Forall2 (λ x y, f x = Ok y) l ys.
Proof.
  split.
  - revert ys; induction l as [|x l IH]; intros ys H; cbn in H.
    + injection H as <-. constructor.
    + invert_ok. constructor; auto.
  - induction 1 as [|x y l ys Hx _ IH]; cbn; [done|].
    by rewrite Hx; cbn; rewrite IH.
Qed.

Lemma collect_results_err l e :
  collect_results f l = Err e →
  ∃ l1 x l2, l = l1 ++ x :: l2 ∧ f x = Err e ∧ Forall (λ y, ∃ b, f y = Ok b) l1.
Proof.
  induction l as [|x l IH]; cbn; [done|].
  destruct (f x) as [b|e'] eqn:Hx; cbn.
  - destruct (collect_results f l) eqn:Hl; cbn; [done|]. intros [= ->].
    destruct (IH eq_refl) as (l1 & y & l2 & -> & Hy & Hl1).
    exists (x :: l1), y, l2. split_and!; [done|done|]. constructor; eauto.
  - intros [= ->]. exists [], x, l. split_and!; auto.
Qed.
End collect.

Lemma collect_results_ext {A B E} (f g : A → result B E) l :
  (∀ x, x ∈ l → f x = g x) → collect_results f l = collect_results g l.
Proof.
  induction l as [|x l IH]; intros H; cbn; [done|].
  rewrite (H x) by set_solver. destruct (g x); cbn; [|done].
  rewrite IH; [done|]. set_solver.
Qed.

Section bytes.
Local Open Scope Z_scope.

Lemma length_to_le_bytes n x : length (to_le_bytes n x) = n.
Proof. revert x; induction n; intros; cbn; auto. Qed.

Lemma to_le_bytes_is_byte n x : Forall is_byte (to_le_bytes n x).
Proof.
  revert x; induction n; intros x; cbn [to_le_bytes]; constructor; auto.
  unfold is_byte. change 255 with (Z.ones 8). rewrite Z.land_ones by lia.
  apply Z.mod_pos_bound. lia.
Qed.

Lemma land_lor_byte x b : is_byte b → Z.land (Z.lor b (Z.shiftl x 8)) 255 = b.
Proof.
  intros Hb. change 255 with (Z.ones 8). rewrite Z.land_lor_distr_l.
  rewrite !Z.land_ones by lia. rewrite Z.shiftl_mul_pow2 by lia.
  rewrite Z_mod_mult. rewrite Z.lor_0_r. apply Z.mod_small. done.
Qed.

Lemma shiftr_lor_byte x b : is_byte b → Z.shiftr (Z.lor b (Z.shiftl x 8)) 8 = x.
Proof.
  intros Hb. rewrite Z.shiftr_lor, Z.shiftr_shiftl_l by lia. cbn.
  rewrite Z.shiftr_div_pow2 by lia. rewrite Z.div_small by done. done.
Qed.

Lemma le_bytes_split x : x = Z.lor (Z.land x 255) (Z.shiftl (Z.shiftr x 8) 8).
Proof.
  apply Z.bits_inj'; intros i Hi.
  rewrite Z.lor_spec, Z.land_spec, Z.shiftl_spec by lia.
  change 255 with (Z.ones 8).
  destruct (decide (i < 8)) as [Hlt|Hge].
  - rewrite Z.ones_spec_low by lia. rewrite (Z.testbit_neg_r _ (i - 8)) by lia.
    by rewrite andb_true_r, orb_false_r.
  - rewrite Z.ones_spec_high by lia. rewrite Z.shiftr_spec by lia.
    rewrite andb_false_r. cbn. f_equal. lia.
Qed.

Lemma from_to_le_bytes n x :
  0 ≤ x < 2 ^ (8 * Z.of_nat n) → from_le_bytes (to_le_bytes n x) = x.
Proof.
  revert x; induction n as [|n IH]; intros x Hx; cbn [to_le_bytes from_le_bytes].
  - cbn in Hx. lia.
  - rewrite IH; [symmetry; apply le_bytes_split|].
    rewrite Z.shiftr_div_pow2 by lia. split; [apply Z.div_pos; lia|].
    apply Z.div_lt_upper_bound; [lia|]. rewrite <- Z.pow_add_r by lia.
    replace (8 + 8 * Z.of_nat n) with (8 * Z.of_nat (S n)) by lia. tauto.
Qed.

Lemma to_le_bytes_inj n x y :
  0 ≤ x < 2 ^ (8 * Z.of_nat n) → 0 ≤ y < 2 ^ (8 * Z.of_nat n) →
  to_le_bytes n x = to_le_bytes n y → x = y.
Proof.
  intros Hx Hy H. rewrite <- (from_to_le_bytes n x), <- (from_to_le_bytes n y) by done.
  by rewrite H.
Qed.

Lemma from_be_bytes_reverse bs : from_be_bytes (reverse bs) = from_le_bytes bs.
Proof.
  unfold from_be_bytes. induction bs as [|b bs IH]; [done|].
  rewrite reverse_cons, fold_left_app. cbn [fold_left from_le_bytes].
  by rewrite IH, Z.lor_comm.
Qed.

Lemma from_to_be_bytes n x :
  0 ≤ x < 2 ^ (8 * Z.of_nat n) → from_be_bytes (to_be_bytes n x) = x.
Proof.
  intros. unfold to_be_bytes. rewrite from_be_bytes_reverse. by apply from_to_le_bytes.
Qed.

Lemma length_to_be_bytes n x : length (to_be_bytes n x) = n.
Proof. unfold to_be_bytes. by rewrite length_reverse, length_to_le_bytes. Qed.
End bytes.

#[export] Hint Resolve length_to_le_bytes length_to_be_bytes to_le_bytes_is_byte : resume.

(** ** Reachability

    Reflexive-transitive closure of a step function's graph: the states a
    component can be driven to by any finite sequence of its operations. *)

Inductive reachable {S : Type} (step : S → S → Prop) (s0 : S) : S → Prop :=
| reachable_init : reachable step s0 s0
| reachable_step s s' : reachable step s0 s → step s s' → reachable step s0 s'.

Lemma reachable_invariant {S} (step : S → S → Prop) (s0 : S) (I : S → Prop) :
  I s0 → (∀ s s', I s → step s s' → I s') → ∀ s, reachable step s0 s → I s.
Proof. intros H0 Hstep s. induction 1; eauto. Qed.
