(* ===== verification/Collections.v ===== *)
(** * Ordered collections of the Rust standard library

    [Ord] as a comparison function with laws, [BTreeSet] and [BTreeMap] as
    strictly sorted lists (their iteration order is the list order, which is
    what the callers observe), and the stable [slice::sort_by]. *)

From stdpp Require Import prelude sorting.
From Stdlib Require Import ZArith.
From S2P Require Import Prelude.

(** ** Comparison *)

Class Cmp (A : Type) := cmp : A → A → comparison.

Class CmpLaws (A : Type) `{Cmp A} : Prop := {
  cmp_eq (x y : A) : cmp x y = Eq ↔ x = y;
  cmp_opp (x y : A) : cmp y x = CompOpp (cmp x y);
  cmp_lt_trans (x y z : A) : cmp x y = Lt → cmp y z = Lt → cmp x z = Lt;
}.

Definition cmp_lt {A} `{Cmp A} (x y : A) : Prop := cmp x y = Lt.

(** [Ordering::then_with]. *)
Definition then_with (c d : comparison) : comparison :=
  match c with Eq => d | _ => c end.

#[export] Instance N_cmp : Cmp N := N.compare.
#[export] Instance Z_cmp : Cmp Z := Z.compare.
#[export] Instance bool_cmp : Cmp bool := Bool.compare.

#[export] Instance N_cmp_laws : CmpLaws N.
Proof.
  split; unfold cmp, N_cmp; intros.
  - apply N.compare_eq_iff.
  - apply N.compare_antisym.
  - rewrite N.compare_lt_iff in *. lia.
Qed.

#[export] Instance Z_cmp_laws : CmpLaws Z.
Proof.
  split; unfold cmp, Z_cmp; intros.
  - apply Z.compare_eq_iff.
  - apply Z.compare_antisym.
  - rewrite Z.compare_lt_iff in *. lia.
Qed.

#[export] Instance bool_cmp_laws : CmpLaws bool.
Proof.
  split; [intros [] []|intros [] []|intros [] [] []]; unfold cmp; cbn; intuition congruence.
Qed.

(** Lexicographic order of sequences ([Ord for str], [Ord for Vec]). *)
Fixpoint list_compare {A} `{Cmp A} (l k : list A) : comparison :=
  match l, k with
  | [], [] => Eq
  | [], _ :: _ => Lt
  | _ :: _, [] => Gt
  | x :: l, y :: k => then_with (cmp x y) (list_compare l k)
  end.
#[export] Instance list_cmp {A} `{Cmp A} : Cmp (list A) := list_compare.

#[export] Instance list_cmp_laws `{CmpLaws A} : CmpLaws (list A).
Proof.
  split; unfold cmp at 1, list_cmp.
  - intros x. induction x as [|a x IH]; intros [|b y]; cbn; try done.
    destruct (cmp a b) eqn:E; cbn; split; intros Hxy; try done.
    + apply cmp_eq in E as ->. f_equal. by apply IH.
    + injection Hxy as -> ->. by apply IH.
    + injection Hxy as -> ->. pose proof (proj2 (cmp_eq b b) eq_refl). congruence.
    + injection Hxy as -> ->. pose proof (proj2 (cmp_eq b b) eq_refl). congruence.
  - unfold cmp, list_cmp. intros x. induction x as [|a x IH]; intros [|b y]; cbn; try done.
    rewrite (cmp_opp a b). destruct (cmp a b); cbn; auto.
  - unfold cmp, list_cmp. intros x. induction x as [|a x IH]; intros [|b y] [|c z]; cbn; try done.
    destruct (cmp a b) eqn:E1; destruct (cmp b c) eqn:E2; cbn; try done; intros;
      repeat match goal with E : cmp _ _ = Eq |- _ => apply cmp_eq in E; subst end.
    + rewrite (proj2 (cmp_eq c c) eq_refl); cbn; eauto.
    + by rewrite E2.
    + by rewrite E1.
    + by rewrite (cmp_lt_trans _ _ _ E1 E2).
Qed.

#[export] Instance prod_cmp {A B} `{Cmp A, Cmp B} : Cmp (A * B) :=
  λ x y, then_with (cmp x.1 y.1) (cmp x.2 y.2).

Lemma prod_cmp_unfold {A B} `{Cmp A, Cmp B} (a c : A) (b d : B) :
  cmp (a, b) (c, d) = then_with (cmp a c) (cmp b d).
Proof. done. Qed.

#[export] Instance prod_cmp_laws `{CmpLaws A, CmpLaws B} : CmpLaws (A * B).
Proof.
  split.
  - intros [a b] [c d]; rewrite prod_cmp_unfold. destruct (cmp a c) eqn:E; cbn; split; intros Hx; try done.
    + apply cmp_eq in E as ->. apply cmp_eq in Hx as ->. done.
    + injection Hx as -> ->. by apply cmp_eq.
    + injection Hx as -> ->. pose proof (proj2 (cmp_eq c c) eq_refl). congruence.
    + injection Hx as -> ->. pose proof (proj2 (cmp_eq c c) eq_refl). congruence.
  - intros [a b] [c d]; rewrite !prod_cmp_unfold. rewrite (cmp_opp a c), (cmp_opp b d).
    by destruct (cmp a c).
  - intros [a b] [c d] [e f]; rewrite !prod_cmp_unfold.
    destruct (cmp a c) eqn:E1; destruct (cmp c e) eqn:E2; cbn; try done; intros;
      repeat match goal with E : cmp _ _ = Eq |- _ => apply cmp_eq in E; subst end.
    + rewrite (proj2 (cmp_eq e e) eq_refl); cbn. by eapply cmp_lt_trans.
    + by rewrite E2.
    + by rewrite E1.
    + by rewrite (cmp_lt_trans _ _ _ E1 E2).
Qed.

(** [Option]: [None < Some _]. *)
#[export] Instance option_cmp {A} `{Cmp A} : Cmp (option A) :=
  λ x y, match x, y with
         | None, None => Eq
         | None, Some _ => Lt
         | Some _, None => Gt
         | Some a, Some b => cmp a b
         end.

#[export] Instance option_cmp_laws `{CmpLaws A} : CmpLaws (option A).
Proof.
  split.
  - intros [a|] [b|]; cbn; try done. change (cmp a b = Eq ↔ Some a = Some b).
    rewrite (cmp_eq a b). naive_solver.
  - intros [a|] [b|]; cbn; try done. apply (cmp_opp a b).
  - intros [a|] [b|] [c|]; cbn; try done. apply (cmp_lt_trans a b c).
Qed.

(** Field-less enums derive [Ord] from the declaration order: any injection
    into [N] that respects that order transports the laws. *)
Lemma cmp_laws_inj {A} (f : A → N) :
  (∀ x y, f x = f y → x = y) → @CmpLaws A (λ x y, N.compare (f x) (f y)).
Proof.
  intros Hf. split; unfold cmp; intros.
  - rewrite N.compare_eq_iff. split; [apply Hf|by intros ->].
  - apply N.compare_antisym.
  - rewrite N.compare_lt_iff in *. lia.
Qed.

Section order.
Context `{CmpLaws A}.
Implicit Types x y : A.

Lemma cmp_refl x : cmp x x = Eq.
Proof. by apply cmp_eq. Qed.

Lemma cmp_lt_irrefl x : ¬ cmp_lt x x.
Proof. unfold cmp_lt. by rewrite cmp_refl. Qed.

Lemma cmp_gt_lt x y : cmp x y = Gt ↔ cmp_lt y x.
Proof. unfold cmp_lt. rewrite (cmp_opp x y). by destruct (cmp x y). Qed.

#[export] Instance cmp_lt_transitive : Transitive (@cmp_lt A _).
Proof. intros x y z. apply cmp_lt_trans. Qed.

Lemma cmp_lt_asym x y : cmp_lt x y → ¬ cmp_lt y x.
Proof. unfold cmp_lt. rewrite (cmp_opp x y). by destruct (cmp x y). Qed.
End order.

(** ** Strictly sorted lists *)

Abbreviation ssorted := (StronglySorted cmp_lt).

Section ssorted.
Context `{CmpLaws A}.
Implicit Types (x y : A) (l k : list A).

Lemma ssorted_NoDup l : ssorted l → NoDup l.
Proof.
  induction 1 as [|x l Hl IH Hx]; constructor; [|done].
  intros Hin. rewrite Forall_forall in Hx. apply (cmp_lt_irrefl x). by apply Hx.
Qed.

Lemma ssorted_ext l k : ssorted l → ssorted k → (∀ x, x ∈ l ↔ x ∈ k) → l = k.
Proof.
  intros Hl. revert k. induction Hl as [|x l Hl IH Hx]; intros k Hk Hlk.
  - destruct k as [|y k]; [done|]. exfalso. apply (not_elem_of_nil y), Hlk. left.
  - destruct Hk as [|y k Hk Hy].
    { exfalso. apply (not_elem_of_nil x), Hlk. left. }
    rewrite Forall_forall in Hx, Hy.
    assert (x = y) as ->.
    { destruct (proj1 (elem_of_cons k x y) (proj1 (Hlk x) (list_elem_of_here x l))) as [->|Hxk]; [done|].
      destruct (proj1 (elem_of_cons l y x) (proj2 (Hlk y) (list_elem_of_here y k))) as [->|Hyl]; [done|].
      exfalso. apply (cmp_lt_asym x y); auto. }
    f_equal. apply IH; [done|]. intros z. specialize (Hlk z).
    rewrite !elem_of_cons in Hlk. split; intros Hz.
    + destruct (proj1 Hlk (or_intror Hz)) as [->|]; [|done].
      exfalso. by apply (cmp_lt_irrefl y), Hx.
    + destruct (proj2 Hlk (or_intror Hz)) as [->|]; [|done].
      exfalso. by apply (cmp_lt_irrefl y), Hy.
Qed.
End ssorted.

(** ** [BTreeSet] *)

Section bset.
Context {A : Type} `{Cmp A}.

Fixpoint bset_insert (x : A) (s : list A) : list A :=
  match s with
  | [] => [x]
  | y :: s' =>
      match cmp x y with
      | Lt => x :: s
      | Eq => s
      | Gt => y :: bset_insert x s'
      end
  end.

Fixpoint bset_contains (x : A) (s : list A) : bool :=
  match s with
  | [] => false
  | y :: s =>
      match cmp x y with
      | Lt => false
      | Eq => true
      | Gt => bset_contains x s
      end
  end.

(** [iter.collect::<BTreeSet<_>>()]. *)
Definition bset_collect (l : list A) : list A :=
  fold_left (λ s x, bset_insert x s) l [].

(** [a.intersection(&b).count()]. *)
Definition bset_intersection_count (s t : list A) : nat :=
  length (List.filter (λ x, bset_contains x t) s).
End bset.

Section bset_laws.
Context `{CmpLaws A}.
Implicit Types (x y : A) (s l : list A).

Lemma elem_of_bset_insert x y s : x ∈ bset_insert y s ↔ x = y ∨ x ∈ s.
Proof.
  induction s as [|z s IH]; cbn; [set_solver|].
  destruct (cmp y z) eqn:E; [apply cmp_eq in E as ->|..]; set_solver.
Qed.

Lemma bset_insert_sorted x s : ssorted s → ssorted (bset_insert x s).
Proof.
  induction 1 as [|y s Hs IH Hy]; cbn; [repeat constructor|].
  destruct (cmp x y) eqn:E.
  - by constructor.
  - constructor; [by constructor|]. constructor; [done|].
    eapply Forall_impl; [done|]. intros z Hz. by transitivity y.
  - constructor; [done|]. apply Forall_forall. intros z.
    rewrite elem_of_bset_insert. intros [->|Hz].
    + by apply cmp_gt_lt.
    + rewrite Forall_forall in Hy. by apply Hy.
Qed.

Lemma bset_contains_spec x s : ssorted s → bset_contains x s = true ↔ x ∈ s.
Proof.
  induction 1 as [|y s Hs IH Hy]; cbn; [set_solver|].
  rewrite Forall_forall in Hy. destruct (cmp x y) eqn:E.
  - apply cmp_eq in E as ->. set_solver.
  - rewrite elem_of_cons. split; [done|]. intros [->|Hx].
    + by rewrite cmp_refl in E.
    + exfalso. apply (cmp_lt_asym x y); auto.
  - rewrite IH, elem_of_cons. split; [auto|]. intros [->|]; [|done].
    by rewrite cmp_refl in E.
Qed.

Lemma bset_collect_acc l s :
  (ssorted s → ssorted (fold_left (λ s x, bset_insert x s) l s)) ∧
  ∀ x, x ∈ fold_left (λ s x, bset_insert x s) l s ↔ x ∈ l ∨ x ∈ s.
Proof.
  revert s. induction l as [|y l IH]; intros s; cbn; [set_solver|].
  destruct (IH (bset_insert y s)) as [IH1 IH2]. split.
  - intros. by apply IH1, bset_insert_sorted.
  - intros x. rewrite IH2, elem_of_bset_insert. set_solver.
Qed.

Lemma bset_collect_sorted l : ssorted (bset_collect l).
Proof. apply (bset_collect_acc l []). constructor. Qed.

Lemma elem_of_bset_collect x l : x ∈ bset_collect l ↔ x ∈ l.
Proof. unfold bset_collect. rewrite (proj2 (bset_collect_acc l [])). set_solver. Qed.

Lemma bset_collect_ext l k : (∀ x, x ∈ l ↔ x ∈ k) → bset_collect l = bset_collect k.
Proof.
  intros Hlk. apply ssorted_ext; [apply bset_collect_sorted..|].
  intros x. by rewrite !elem_of_bset_collect.
Qed.

Lemma bset_collect_id l : ssorted l → bset_collect l = l.
Proof.
  intros Hl. apply ssorted_ext; [apply bset_collect_sorted|done|].
  intros x. apply elem_of_bset_collect.
Qed.

Lemma bset_collect_NoDup l : NoDup (bset_collect l).
Proof. apply ssorted_NoDup, bset_collect_sorted. Qed.

Lemma bset_contains_collect x l : bset_contains x (bset_collect l) = true ↔ x ∈ l.
Proof. rewrite bset_contains_spec by apply bset_collect_sorted. apply elem_of_bset_collect. Qed.

(** Membership tests do not depend on the order the set was built in. *)
Lemma bset_contains_insert `{EqDecision A} x y s :
  ssorted s → bset_contains x (bset_insert y s) = bool_decide (x = y) || bset_contains x s.
Proof.
  intros Hs. apply eq_true_iff_eq. rewrite orb_true_iff, bool_decide_eq_true.
  rewrite !bset_contains_spec by auto using bset_insert_sorted.
  apply elem_of_bset_insert.
Qed.
End bset_laws.

(** ** [BTreeMap]

    An association list with strictly increasing keys. *)

Section bmap.
Context {K V : Type} `{Cmp K}.

Fixpoint bmap_lookup (k : K) (m : list (K * V)) : option V :=
  match m with
  | [] => None
  | (j, v) :: m =>
      match cmp k j with
      | Lt => None
      | Eq => Some v
      | Gt => bmap_lookup k m
      end
  end.

(** [*map.entry(k).or_insert(d) = f(..)]: [f] sees the previous value. *)
Fixpoint bmap_entry (k : K) (f : option V → V) (m : list (K * V)) : list (K * V) :=
  match m with
  | [] => [(k, f None)]
  | (j, v) :: m' =>
      match cmp k j with
      | Lt => (k, f None) :: m
      | Eq => (j, f (Some v)) :: m'
      | Gt => (j, v) :: bmap_entry k f m'
      end
  end.

(** [map.remove(&k)], the returned value being [bmap_lookup k]. *)
Fixpoint bmap_remove (k : K) (m : list (K * V)) : list (K * V) :=
  match m with
  | [] => []
  | (j, v) :: m' =>
      match cmp k j with
      | Lt => m
      | Eq => m'
      | Gt => (j, v) :: bmap_remove k m'
      end
  end.
End bmap.

Section bmap_laws.
Context `{CmpLaws K} {V : Type}.
Implicit Types (k j : K) (m : list (K * V)).

Lemma elem_of_bmap_entry_keys k j f m :
  j ∈ (bmap_entry k f m).*1 ↔ j = k ∨ j ∈ m.*1.
Proof.
  induction m as [|[i v] m IH]; cbn; [set_solver|].
  destruct (cmp k i) eqn:E; cbn; [apply cmp_eq in E as ->|..]; set_solver.
Qed.

Lemma bmap_entry_sorted k f m : ssorted m.*1 → ssorted (bmap_entry k f m).*1.
Proof.
  induction m as [|[i v] m IH]; cbn; intros Hm; [repeat constructor|].
  inversion Hm as [|?? Hm' Hi]; subst.
  destruct (cmp k i) eqn:E; cbn.
  - by constructor.
  - constructor; [done|]. constructor; [done|].
    eapply Forall_impl; [done|]. intros z Hz. by transitivity i.
  - constructor; [auto|]. apply Forall_forall. intros z.
    rewrite elem_of_bmap_entry_keys. intros [->|Hz].
    + by apply cmp_gt_lt.
    + rewrite Forall_forall in Hi. by apply Hi.
Qed.

Lemma bmap_lookup_entry k f m :
  ssorted m.*1 → bmap_lookup k (bmap_entry k f m) = Some (f (bmap_lookup k m)).
Proof.
  induction m as [|[i v] m IH]; cbn; intros Hm; [by rewrite cmp_refl|].
  inversion Hm as [|?? Hm' Hi]; subst.
  destruct (cmp k i) eqn:E; cbn; rewrite ?cmp_refl, ?E; auto.
Qed.

Lemma bmap_lookup_entry_ne k j f m :
  j ≠ k → bmap_lookup j (bmap_entry k f m) = bmap_lookup j m.
Proof.
  intros Hne. induction m as [|[i v] m IH]; cbn.
  - destruct (cmp j k) eqn:E; [by apply cmp_eq in E|done..].
  - destruct (cmp k i) eqn:E; cbn.
    + by apply cmp_eq in E as ->; destruct (cmp j i) eqn:Ej; [apply cmp_eq in Ej|..].
    + destruct (cmp j k) eqn:Ej; [by apply cmp_eq in Ej|..].
      * by rewrite (cmp_lt_trans _ _ _ Ej E).
      * done.
    + by rewrite IH.
Qed.

Lemma elem_of_bmap_lookup k v m :
  ssorted m.*1 → (k, v) ∈ m ↔ bmap_lookup k m = Some v.
Proof.
  induction m as [|[i w] m IH]; cbn; intros Hm; [set_solver|].
  inversion Hm as [|?? Hm' Hi]; subst. rewrite Forall_forall in Hi.
  rewrite elem_of_cons, IH by done. destruct (cmp k i) eqn:E.
  - apply cmp_eq in E as ->. split; [intros [[= ->]|Hl]; [done|]|naive_solver].
    exfalso. apply (cmp_lt_irrefl i), Hi. apply IH in Hl; [|done].
    apply list_elem_of_fmap. by exists (i, v).
  - split; [|done]. intros [[= -> ->]|Hl]; [by rewrite cmp_refl in E|].
    exfalso. apply (cmp_lt_asym k i); [done|]. apply Hi. apply IH in Hl; [|done].
    apply list_elem_of_fmap. by exists (k, v).
  - split; [|auto]. intros [[= -> ->]|Hl]; [by rewrite cmp_refl in E|done].
Qed.

Lemma bmap_lookup_is_Some k m :
  ssorted m.*1 → is_Some (bmap_lookup k m) ↔ k ∈ m.*1.
Proof.
  intros Hm. rewrite list_elem_of_fmap. split.
  - intros [v Hv]. exists (k, v). split; [done|]. by apply elem_of_bmap_lookup.
  - intros ([j v] & -> & Hjv). exists v. by apply elem_of_bmap_lookup.
Qed.

Lemma bmap_remove_keys k m j : j ∈ (bmap_remove k m).*1 → j ∈ m.*1.
Proof.
  induction m as [|[i w] m IH]; cbn; [done|]. destruct (cmp k i); cbn; set_solver.
Qed.

Lemma bmap_remove_sorted k m : ssorted m.*1 → ssorted (bmap_remove k m).*1.
Proof.
  induction m as [|[i w] m IH]; cbn; intros Hm; [done|].
  inversion Hm as [|?? Hm' Hi]; subst. destruct (cmp k i); [done|done|].
  cbn. constructor; [auto|]. rewrite Forall_forall in Hi |- *.
  intros j Hj%bmap_remove_keys. by apply Hi.
Qed.

Lemma bmap_lookup_remove_ne k j m :
  ssorted m.*1 → j ≠ k → bmap_lookup j (bmap_remove k m) = bmap_lookup j m.
Proof.
  intros Hm Hne. assert (∀ v, (j, v) ∈ bmap_remove k m ↔ (j, v) ∈ m) as Hel.
  { intros v. clear Hm. induction m as [|[i w] m IH]; cbn; [done|].
    destruct (cmp k i) eqn:E; [apply cmp_eq in E as ->; set_solver|done|].
    rewrite !elem_of_cons, IH. done. }
  apply option_eq. intros v. rewrite <- !elem_of_bmap_lookup by auto using bmap_remove_sorted.
  apply Hel.
Qed.
End bmap_laws.

(** ** [slice::sort_by]: a stable sort by a comparator

    The comparator need not be a lawful order (a NaN score compares as
    [Equal]); the lemmas ask for the laws only on the elements sorted. *)

Section sort_by.
Context {A : Type} (c : A → A → comparison).

Fixpoint sort_insert (x : A) (l : list A) : list A :=
  match l with
  | [] => [x]
  | y :: l' =>
      match c x y with
      | Gt => y :: sort_insert x l'
      | _ => x :: l
      end
  end.

Definition sort_by (l : list A) : list A := foldr sort_insert [] l.

Lemma sort_insert_perm x l : sort_insert x l ≡ₚ x :: l.
Proof.
  induction l as [|y l IH]; cbn; [done|]. destruct (c x y); [done..|].
  rewrite IH. constructor.
Qed.

Lemma sort_by_perm l : sort_by l ≡ₚ l.
Proof. induction l as [|x l IH]; cbn; [done|]. by rewrite sort_insert_perm, IH. Qed.

Definition sort_le (x y : A) : Prop := c x y ≠ Gt.

Variable P : A → Prop.
Hypothesis c_total : ∀ x y, P x → P y → c x y = Gt → sort_le y x.
Hypothesis c_trans : ∀ x y z, P x → P y → P z → sort_le x y → sort_le y z → sort_le x z.

Lemma sort_insert_sorted x l :
  P x → Forall P l → StronglySorted sort_le l → StronglySorted sort_le (sort_insert x l).
Proof using c_total c_trans.
  intros Hx HP Hl. induction Hl as [|y l Hl IH Hy]; cbn; [repeat constructor|].
  inversion HP as [|?? Py HPl]; subst.
  assert (∀ z, z ∈ l → P z) as HPl' by (by apply Forall_forall).
  rewrite Forall_forall in Hy.
  destruct (c x y) eqn:E; [..|].
  1,2: constructor; [by constructor; [|apply Forall_forall]|];
    apply Forall_forall; intros z [->|Hz]%elem_of_cons;
    [unfold sort_le; congruence|
     apply (c_trans x y z); auto; unfold sort_le; congruence].
  constructor; [auto|]. apply Forall_forall. intros z.
  rewrite (sort_insert_perm x l), elem_of_cons. intros [->|Hz]; auto.
Qed.

Lemma sort_by_sorted l : Forall P l → StronglySorted sort_le (sort_by l).
Proof using c_total c_trans.
  induction 1 as [|x l Hx Hl IH]; cbn; [constructor|].
  apply sort_insert_sorted; [done| |done]. by rewrite sort_by_perm.
Qed.
End sort_by.

(** Sorting by a lawful total order is canonical: it depends only on the
    multiset of elements. *)
Section sort_by_cmp.
Context `{CmpLaws A}.

#[local] Instance sort_le_cmp_antisymm : AntiSymm (=) (sort_le (cmp (A:=A))).
Proof.
  intros x y Hxy Hyx. unfold sort_le in *. rewrite (cmp_opp x y) in Hyx.
  apply cmp_eq. by destruct (cmp x y).
Qed.

Lemma sort_le_cmp_total (x y : A) : cmp x y = Gt → sort_le cmp y x.
Proof. intros Hxy. unfold sort_le. by rewrite (cmp_opp x y), Hxy. Qed.

Lemma sort_le_cmp_trans (x y z : A) : sort_le cmp x y → sort_le cmp y z → sort_le cmp x z.
Proof.
  intros Hxy Hyz Hxz. unfold sort_le in *. apply cmp_gt_lt in Hxz.
  destruct (cmp x y) eqn:E1; [|..|done].
  - apply cmp_eq in E1 as ->. by apply Hyz, cmp_gt_lt.
  - destruct (cmp y z) eqn:E2; [|..|done].
    + apply cmp_eq in E2 as ->. by apply (cmp_lt_asym x z).
    + apply (cmp_lt_asym z y); [by transitivity x|done].
Qed.

Lemma sort_by_cmp_sorted (l : list A) : StronglySorted (sort_le cmp) (sort_by cmp l).
Proof.
  apply (sort_by_sorted cmp (λ _, True)); [..|by apply Forall_forall];
    eauto using sort_le_cmp_total, sort_le_cmp_trans.
Qed.

Lemma sorted_cmp_unique (l k : list A) :
  StronglySorted (sort_le cmp) l → StronglySorted (sort_le cmp) k → l ≡ₚ k → l = k.
Proof. intros. by apply (StronglySorted_unique (sort_le cmp)). Qed.

Lemma sort_by_cmp_perm (l k : list A) : l ≡ₚ k → sort_by cmp l = sort_by cmp k.
Proof.
  intros Hlk. apply sorted_cmp_unique; [apply sort_by_cmp_sorted..|]. by rewrite !sort_by_perm.
Qed.
End sort_by_cmp.
