(* ===== verification/Float32.v ===== *)
(** * IEEE-754 binary32 ([f32])

    Rust's [f32] is modelled exactly by the executable specification of the
    Rocq core library with 24 bits of precision and maximal exponent 128;
    every operation rounds to nearest, ties to even, as the language does. *)

From stdpp Require Import prelude.
From Stdlib Require Import ZArith.
From Corelib Require Import SpecFloat.
From S2P Require Import Prelude Collections.

Local Open Scope Z_scope.

Abbreviation f32 := spec_float.

Definition f32_prec : Z := 24.
Definition f32_emax : Z := 128.

Definition f32_add (x y : f32) : f32 := SFadd f32_prec f32_emax x y.
Definition f32_mul (x y : f32) : f32 := SFmul f32_prec f32_emax x y.
Definition f32_div (x y : f32) : f32 := SFdiv f32_prec f32_emax x y.

(** [f32::partial_cmp] and [<], [>]; a NaN operand is unordered. *)
Definition f32_partial_cmp (x y : f32) : option comparison := SFcompare x y.
Definition f32_lt (x y : f32) : bool := SFltb x y.
Definition f32_gt (x y : f32) : bool := SFltb y x.
Definition f32_le (x y : f32) : bool := SFleb x y.

(** [n as f32] for an integer [n]. *)
Definition f32_of_Z (n : Z) : f32 := binary_normalize f32_prec f32_emax n 0 false.

(** The decimal literal [num / den]: one correctly rounded division of two
    integers that are exact in binary32. *)
Definition f32_lit (num den : Z) : f32 := f32_div (f32_of_Z num) (f32_of_Z den).

Definition f32_is_nan (x : f32) : bool :=
  match x with S754_nan => true | _ => false end.

Definition f32_is_finite (x : f32) : bool :=
  match x with S754_zero _ | S754_finite _ _ _ => true | _ => false end.

(** [f32::max] and [f32::min]: a NaN operand yields the other one. *)
Definition f32_max (x y : f32) : f32 :=
  match f32_partial_cmp x y with
  | Some Lt => y
  | Some _ => x
  | None => if f32_is_nan x then y else x
  end.

Definition f32_min (x y : f32) : f32 :=
  match f32_partial_cmp x y with
  | Some Gt => y
  | Some _ => x
  | None => if f32_is_nan x then y else x
  end.

#[export] Instance f32_eq_dec : EqDecision f32.
Proof. solve_decision. Defined.

(** Numbers that are neither NaN nor carry a minus sign. *)
Definition f32_nonneg (x : f32) : bool :=
  match x with
  | S754_nan => false
  | S754_zero s | S754_infinity s | S754_finite s _ _ => negb s
  end.

(** ** Rounding keeps the sign and never produces a NaN *)

Lemma shr_1_nonneg mrs : 0 ≤ shr_m mrs → 0 ≤ shr_m (shr_1 mrs).
Proof. destruct mrs as [[|[]|[]] r s]; cbn; lia. Qed.

Lemma iter_shr_1_nonneg p mrs : 0 ≤ shr_m mrs → 0 ≤ shr_m (iter_pos shr_1 p mrs).
Proof. revert mrs; induction p; intros mrs H; cbn; auto using shr_1_nonneg. Qed.

Lemma shr_nonneg mrs e n : 0 ≤ shr_m mrs → 0 ≤ shr_m (shr mrs e n).1.
Proof. destruct n; cbn; auto using iter_shr_1_nonneg. Qed.

Lemma shr_record_of_loc_m m l : shr_m (shr_record_of_loc m l) = m.
Proof. by destruct l as [|[]]. Qed.

Lemma shr_fexp_nonneg p em m e l : 0 ≤ m → 0 ≤ shr_m (shr_fexp p em m e l).1.
Proof. intros. apply shr_nonneg. by rewrite shr_record_of_loc_m. Qed.

Lemma round_nearest_even_nonneg m l : 0 ≤ m → 0 ≤ round_nearest_even m l.
Proof. destruct l as [|[]]; cbn; try lia. destruct (Z.even m); lia. Qed.

Lemma binary_round_aux_nonneg p em m e l :
  0 ≤ m → f32_nonneg (binary_round_aux p em false m e l) = true.
Proof.
  intros Hm. unfold binary_round_aux.
  pose proof (shr_fexp_nonneg p em m e l Hm) as H1.
  destruct (shr_fexp p em m e l) as [mrs1 e1]; cbn [fst] in H1.
  pose proof (shr_fexp_nonneg p em _ e1 loc_Exact
    (round_nearest_even_nonneg _ (loc_of_shr_record mrs1) H1)) as H2.
  destruct (shr_fexp _ _ _ e1 _) as [mrs2 e2]; cbn [fst] in H2.
  destruct (shr_m mrs2); [done| |lia]. by destruct (_ <=? _).
Qed.

Lemma binary_round_nonneg p em m e : f32_nonneg (binary_round p em false m e) = true.
Proof.
  unfold binary_round. destruct (shl_align _ _ _) as [mz ez].
  apply binary_round_aux_nonneg. lia.
Qed.

Lemma f32_of_Z_nonneg n : 0 ≤ n → f32_nonneg (f32_of_Z n) = true.
Proof. destruct n; [done| |lia]. intros _. apply binary_round_nonneg. Qed.

(** ** Closure of the non-negative numbers *)

Lemma f32_add_nonneg x y :
  f32_nonneg x = true → f32_nonneg y = true → f32_nonneg (f32_add x y) = true.
Proof.
  destruct x as [[]|[]| |[] mx ex]; try done; destruct y as [[]|[]| |[] my ey]; try done.
  intros _ _. apply binary_round_nonneg.
Qed.

Lemma SFdiv_core_binary_nonneg p em m1 e1 m2 e2 :
  0 ≤ m1 → 0 < m2 → 0 ≤ (SFdiv_core_binary p em m1 e1 m2 e2).1.1.
Proof.
  intros H1 H2. unfold SFdiv_core_binary.
  match goal with |- context [Z.div_eucl ?a m2] => assert (0 ≤ a) as Ha end.
  { destruct (_ - _ - _) eqn:E; try lia. apply Z.shiftl_nonneg. lia. }
  match goal with |- context [Z.div_eucl ?a m2] =>
    pose proof (Z_div_mod a m2 ltac:(lia)) as Hd; destruct (Z.div_eucl a m2) as [q r] eqn:Eq end.
  cbn. destruct Hd as [Hq Hr]. nia.
Qed.

(** [x / y] for a positive finite [x] and a non-negative [y]. *)
Lemma f32_div_nonneg m e y :
  f32_nonneg y = true → f32_nonneg (f32_div (S754_finite false m e) y) = true.
Proof.
  destruct y as [[]|[]| |[] my ey]; try done. intros _. unfold f32_div, SFdiv.
  pose proof (SFdiv_core_binary_nonneg f32_prec f32_emax (Zpos m) e (Zpos my) ey
    ltac:(lia) ltac:(lia)) as H.
  destruct (SFdiv_core_binary _ _ _ _ _ _) as [[mz ez] lz]; cbn [fst] in H.
  by apply binary_round_aux_nonneg.
Qed.

Lemma f32_nonneg_not_nan x : f32_nonneg x = true → f32_is_nan x = false.
Proof. by destruct x. Qed.

(** [f32::max] with a positive finite bound repairs any argument, NaN included. *)
Lemma f32_max_nonneg x m e : f32_nonneg (f32_max x (S754_finite false m e)) = true.
Proof.
  unfold f32_max, f32_partial_cmp.
  destruct x as [[]|[]| |[] mx ex]; cbn; try done. by repeat case_match.
Qed.

(** ** [partial_cmp] is a total preorder away from NaN *)

Lemma f32_cmp_total x y :
  f32_is_nan x = false → f32_is_nan y = false → ∃ c, f32_partial_cmp x y = Some c.
Proof. destruct x, y; cbn; eauto; done. Qed.

Lemma f32_cmp_opp x y :
  f32_partial_cmp y x = CompOpp <$> f32_partial_cmp x y.
Proof.
  unfold f32_partial_cmp.
  destruct x as [[]|[]| |[] mx ex]; destruct y as [[]|[]| |[] my ey]; cbn; try done;
    rewrite (Z.compare_antisym ex ey); destruct (ex ?= ey); cbn; try done;
    change (Pos.compare_cont Eq ?a ?b) with (Pos.compare a b);
    rewrite (Pos.compare_antisym mx my); by destruct (Pos.compare mx my).
Qed.

(** A numeric key whose lexicographic order is the float order. *)
Definition f32_key (x : f32) : Z * Z * Z :=
  match x with
  | S754_nan => (0, 0, 0)
  | S754_infinity true => (-2, 0, 0)
  | S754_infinity false => (2, 0, 0)
  | S754_zero _ => (0, 0, 0)
  | S754_finite false m e => (1, e, Zpos m)
  | S754_finite true m e => (-1, - e, - Zpos m)
  end.

Lemma f32_cmp_key x y :
  f32_is_nan x = false → f32_is_nan y = false →
  f32_partial_cmp x y = Some (cmp (f32_key x) (f32_key y)).
Proof.
  destruct x as [[]|[]| |[] mx ex]; destruct y as [[]|[]| |[] my ey]; try done;
    intros _ _; unfold f32_partial_cmp; cbn.
  - do 3 unfold cmp, prod_cmp, Z_cmp, then_with; cbn [fst snd]. rewrite Z.compare_refl.
    rewrite Z.compare_opp, (Z.compare_antisym ex ey).
    by destruct (ex ?= ey).
  - do 3 unfold cmp, prod_cmp, Z_cmp, then_with; cbn [fst snd]. rewrite Z.compare_refl.
    by destruct (ex ?= ey).
Qed.

(** Descending comparison of two scores with an unordered pair read as
    [Equal]: the comparator the ranking code sorts by. *)
Definition score_desc (x y : f32) : comparison :=
  default Eq (f32_partial_cmp y x).

Lemma score_desc_key x y :
  f32_is_nan x = false → f32_is_nan y = false →
  score_desc x y = cmp (f32_key y) (f32_key x).
Proof. intros. unfold score_desc. by rewrite f32_cmp_key. Qed.
