(* ===== verification/Float64.v ===== *)
(** * IEEE-754 binary64 ([f64]) as the target of [f32] values

    JSON numbers are [f64]; vectors are [f32].  [f64::from] widens a value and
    [as f32] rounds it to nearest, both as the executable specification of the core
    library defines them.  Widening is exact: narrowing a widened value gives it
    back. *)

From stdpp Require Import prelude.
From Stdlib Require Import ZArith.
From Corelib Require Import SpecFloat.
From S2P Require Import Prelude Float32.

Local Open Scope Z_scope.

Abbreviation f64 := spec_float.

Definition f64_prec : Z := 53.
Definition f64_emax : Z := 1024.

(** Round a value to another format. *)
Definition refloat (prec emax : Z) (x : spec_float) : spec_float :=
  match x with
  | S754_finite s m e => binary_round prec emax s m e
  | other => other
  end.

Definition f64_of_f32 (x : f32) : f64 := refloat f64_prec f64_emax x.
Definition f64_to_f32 (x : f64) : f32 := refloat f32_prec f32_emax x.

(** [n as f64] for an unsigned integer. *)
Definition f64_of_Z (n : Z) : f64 := binary_normalize f64_prec f64_emax n 0 false.

(** Arithmetic and comparisons of [f64]; a comparison with a NaN is false. *)
Definition f64_add (x y : f64) : f64 := SFadd f64_prec f64_emax x y.
Definition f64_mul (x y : f64) : f64 := SFmul f64_prec f64_emax x y.
Definition f64_div (x y : f64) : f64 := SFdiv f64_prec f64_emax x y.
Definition f64_sqrt (x : f64) : f64 := SFsqrt f64_prec f64_emax x.
Definition f64_neg (x : f64) : f64 := SFopp x.
Definition f64_lt (x y : f64) : bool := SFltb x y.
Definition f64_le (x y : f64) : bool := SFleb x y.
Definition f64_is_finite (x : f64) : bool :=
  match x with S754_zero _ | S754_finite _ _ _ => true | S754_infinity _ | S754_nan => false end.

(** The values a [f32] can hold. *)
Definition f32_valid (x : f32) : bool := valid_binary f32_prec f32_emax x.

Lemma iter_pos_succ {A} (f : A → A) n x : iter_pos f (Pos.succ n) x = f (iter_pos f n x).
Proof.
  assert (∀ k y, iter_pos f k (f y) = f (iter_pos f k y)) as Hc.
  { intros k; induction k as [k IH|k IH|]; intros y; cbn; [..|done]; by rewrite !IH. }
  revert x; induction n as [n IH|n IH|]; intros x.
  - change (Pos.succ (xI n)) with (xO (Pos.succ n)). cbn. by rewrite !IH, !Hc.
  - change (Pos.succ (xO n)) with (xI n). cbn. by rewrite !Hc.
  - done.
Qed.

Lemma digits_iter m d : Zpos (digits2_pos (Pos.iter xO m d)) = Zpos (digits2_pos m) + Zpos d.
Proof.
  induction d as [|d IH] using Pos.peano_ind; [cbn; lia|].
  rewrite Pos.iter_succ. cbn [digits2_pos]. lia.
Qed.

(** Shifting out the zeros that an alignment shifted in. *)
Lemma shr_aligned m d :
  iter_pos shr_1 d (Build_shr_record (Zpos (Pos.iter xO m d)) false false)
  = Build_shr_record (Zpos m) false false.
Proof.
  assert (∀ d k, iter_pos shr_1 d (Build_shr_record (Zpos (Pos.iter xO k d)) false false)
                 = Build_shr_record (Zpos k) false false) as Hd; [|apply Hd].
  intros d'. induction d' as [|d' IH] using Pos.peano_ind; intros k; [done|].
  rewrite iter_pos_succ, Pos.iter_succ_r, IH. done.
Qed.

(** A mantissa of the full precision, or a smaller one at the smallest exponent,
    rounds to itself. *)
Lemma round_aux_canonical prec emax s m e :
  fexp prec emax (Zpos (digits2_pos m) + e) = e → e ≤ emax - prec →
  binary_round_aux prec emax s (Zpos m) e loc_Exact = S754_finite s m e.
Proof.
  intros Hf He. unfold binary_round_aux, shr_fexp. cbn [Zdigits2 shr_record_of_loc].
  rewrite Hf, Z.sub_diag. cbn [shr shr_m loc_of_shr_record round_nearest_even Zdigits2].
  rewrite Hf, Z.sub_diag. cbn [shr shr_m]. by rewrite (proj2 (Z.leb_le _ _) He).
Qed.

Lemma f32_finite_bounds m e :
  bounded f32_prec f32_emax m e = true →
  fexp f32_prec f32_emax (Zpos (digits2_pos m) + e) = e ∧ e ≤ 104
  ∧ Zpos (digits2_pos m) ≤ 24 ∧ -149 ≤ e.
Proof.
  unfold bounded, canonical_mantissa. rewrite andb_true_iff, Z.eqb_eq, Z.leb_le.
  unfold fexp, emin, f32_prec, f32_emax. lia.
Qed.

Lemma f64_of_finite s m e :
  bounded f32_prec f32_emax m e = true →
  ∃ d, Zpos d = 53 - Zpos (digits2_pos m)
       ∧ f64_of_f32 (S754_finite s m e) = S754_finite s (Pos.iter xO m d) (e - Zpos d).
Proof.
  intros (Hc & Hmax & Hdig & Hmin)%f32_finite_bounds.
  exists (Z.to_pos (53 - Zpos (digits2_pos m))). set (d := Z.to_pos _).
  assert (Zpos d = 53 - Zpos (digits2_pos m)) as Hd by (subst d; rewrite Z2Pos.id; lia).
  split; [done|]. unfold f64_of_f32, refloat, binary_round, shl_align.
  assert (fexp f64_prec f64_emax (Zpos (digits2_pos m) + e) - e = Zneg d) as ->
    by (unfold fexp, emin, f64_prec, f64_emax; lia).
  assert (fexp f64_prec f64_emax (Zpos (digits2_pos m) + e) = e - Zpos d) as ->
    by (unfold fexp, emin, f64_prec, f64_emax; lia).
  apply round_aux_canonical; rewrite ?digits_iter; unfold fexp, emin, f64_prec, f64_emax; lia.
Qed.

(** Widening is exact. *)
Lemma f64_roundtrip x : f32_valid x = true → f64_to_f32 (f64_of_f32 x) = x.
Proof.
  destruct x as [s|s| |s m e]; try done. cbn [f32_valid valid_binary]. intros Hb.
  destruct (f64_of_finite s m e Hb) as (d & Hd & ->). apply f32_finite_bounds in Hb as (Hc & Hmax & Hdig & Hmin).
  unfold f64_to_f32, refloat, binary_round. rewrite digits_iter.
  assert (fexp f32_prec f32_emax (Zpos (digits2_pos m) + Zpos d + (e - Zpos d)) = e) as Hf.
  { rewrite <- Hc at 2. f_equal. lia. }
  rewrite Hf. unfold shl_align. replace (e - (e - Zpos d)) with (Zpos d) by lia. cbv iota.
  unfold binary_round_aux, shr_fexp at 1. cbn [Zdigits2 shr_record_of_loc]. rewrite digits_iter, Hf.
  replace (e - (e - Zpos d)) with (Zpos d) by lia. cbn [shr]. rewrite shr_aligned.
  replace (e - Zpos d + Zpos d) with e by lia. cbn [shr_m loc_of_shr_record round_nearest_even].
  unfold shr_fexp. cbn [Zdigits2 shr_record_of_loc]. rewrite Hc, Z.sub_diag. cbn [shr shr_m].
  rewrite (proj2 (Z.leb_le _ _)); [done|]. unfold f32_emax, f32_prec. lia.
Qed.

Lemma f64_finite x : f32_valid x = true → f32_is_finite x = true → f32_is_finite (f64_of_f32 x) = true.
Proof.
  destruct x as [s|s| |s m e]; try done. intros Hb _. by destruct (f64_of_finite s m e Hb) as (d & _ & ->).
Qed.
