(* ===== verification/Text.v ===== *)
(** * Text: Rust [char], [str] and [String]

    A [char] is a Unicode scalar value (an integer); a string is the list of
    its characters.  Byte lengths, byte offsets and byte slices are those of
    the UTF-8 encoding.  Character classes the language fixes by a short list
    (White_Space, control, the ASCII classes) are spelled out; the large
    Unicode tables (alphabetic, numeric, lower case) are the parameters of the
    class [Unicode]. *)

From Stdlib Require Import ZArith String Ascii.
From stdpp Require Import prelude.
From S2P Require Import Prelude Collections.

Local Open Scope Z_scope.

Abbreviation char := Z.
Abbreviation str := (list Z).

(** ** Characters *)

Definition valid_char (c : char) : Prop :=
  0 ≤ c < 0xD800 ∨ 0xE000 ≤ c < 0x110000.

(** [char::is_whitespace]: the White_Space property. *)
Definition is_whitespace (c : char) : bool :=
  ((9 <=? c) && (c <=? 13)) || (c =? 32) || (c =? 0x85) || (c =? 0xA0) || (c =? 0x1680)
  || ((0x2000 <=? c) && (c <=? 0x200A)) || (c =? 0x2028) || (c =? 0x2029)
  || (c =? 0x202F) || (c =? 0x205F) || (c =? 0x3000).

(** [char::is_control]: general category Cc. *)
Definition is_control (c : char) : bool :=
  (c <=? 31) || ((127 <=? c) && (c <=? 159)).

Definition is_ascii_digit (c : char) : bool := (48 <=? c) && (c <=? 57).
Definition is_ascii_uppercase (c : char) : bool := (65 <=? c) && (c <=? 90).
Definition is_ascii_lowercase (c : char) : bool := (97 <=? c) && (c <=? 122).
Definition is_ascii_alphabetic (c : char) : bool := is_ascii_uppercase c || is_ascii_lowercase c.
Definition is_ascii_alphanumeric (c : char) : bool := is_ascii_alphabetic c || is_ascii_digit c.
Definition is_ascii_hexdigit (c : char) : bool :=
  is_ascii_digit c || ((65 <=? c) && (c <=? 70)) || ((97 <=? c) && (c <=? 102)).
Definition is_ascii_punctuation (c : char) : bool :=
  ((33 <=? c) && (c <=? 47)) || ((58 <=? c) && (c <=? 64))
  || ((91 <=? c) && (c <=? 96)) || ((123 <=? c) && (c <=? 126)).

Definition char_to_ascii_lowercase (c : char) : char :=
  if is_ascii_uppercase c then c + 32 else c.

(** The Unicode tables behind [char::is_alphabetic], [char::is_numeric] and
    [str::to_lowercase]. *)
Class Unicode := {
  is_alphabetic : char → bool;
  is_numeric : char → bool;
  str_to_lowercase : str → str;
}.

Definition is_alphanumeric `{Unicode} (c : char) : bool := is_alphabetic c || is_numeric c.

(** What the standard library documents about those tables on ASCII. *)
Class UnicodeLaws `{Unicode} : Prop := {
  is_alphabetic_ascii c : 0 ≤ c < 128 → is_alphabetic c = is_ascii_alphabetic c;
  is_numeric_ascii c : 0 ≤ c < 128 → is_numeric c = is_ascii_digit c;
  str_to_lowercase_ascii s :
    Forall (λ c, 0 ≤ c < 128) s → str_to_lowercase s = map char_to_ascii_lowercase s;
}.

(** ** UTF-8 *)

Definition len_utf8 (c : char) : Z :=
  if c <? 0x80 then 1 else if c <? 0x800 then 2 else if c <? 0x10000 then 3 else 4.

Definition utf8_char (c : char) : list Z :=
  if c <? 0x80 then [c]
  else if c <? 0x800 then [0xC0 + c / 64; 0x80 + c `mod` 64]
  else if c <? 0x10000 then [0xE0 + c / 4096; 0x80 + (c / 64) `mod` 64; 0x80 + c `mod` 64]
  else [0xF0 + c / 262144; 0x80 + (c / 4096) `mod` 64; 0x80 + (c / 64) `mod` 64; 0x80 + c `mod` 64].

(** [str::as_bytes] and [str::len]. *)
Fixpoint utf8 (s : str) : list Z :=
  match s with
  | [] => []
  | c :: s => utf8_char c ++ utf8 s
  end.

Fixpoint str_len (s : str) : Z :=
  match s with
  | [] => 0
  | c :: s => len_utf8 c + str_len s
  end.

Fixpoint utf8_decode (bs : list Z) : str :=
  match bs with
  | [] => []
  | b0 :: r0 =>
      if b0 <? 0x80 then b0 :: utf8_decode r0
      else match r0 with
      | [] => []
      | b1 :: r1 =>
          if b0 <? 0xE0 then ((b0 - 0xC0) * 64 + (b1 - 0x80)) :: utf8_decode r1
          else match r1 with
          | [] => []
          | b2 :: r2 =>
              if b0 <? 0xF0 then
                ((b0 - 0xE0) * 4096 + (b1 - 0x80) * 64 + (b2 - 0x80)) :: utf8_decode r2
              else match r2 with
              | [] => []
              | b3 :: r3 =>
                  ((b0 - 0xF0) * 262144 + (b1 - 0x80) * 4096 + (b2 - 0x80) * 64 + (b3 - 0x80))
                  :: utf8_decode r3
              end
          end
      end
  end.

(** A Rust string literal. *)
Definition lit (s : string) : str :=
  utf8_decode (map (λ a, Z.of_N (N_of_ascii a)) (list_ascii_of_string s)).

(** ** String operations *)

Definition str_eqb (s t : str) : bool := bool_decide (s = t).

(** [matches!(s, "a" | "b" | ..)]. *)
Definition str_in (s : str) (alts : list str) : bool := existsb (str_eqb s) alts.

(** A [match] on string literals: the first arm one of whose patterns is [s]. *)
Fixpoint str_match {A} (s : str) (arms : list (list str * A)) : option A :=
  match arms with
  | [] => None
  | (pats, a) :: arms => if str_in s pats then Some a else str_match s arms
  end.

Definition to_ascii_lowercase (s : str) : str := map char_to_ascii_lowercase s.

Fixpoint starts_with (p s : str) : bool :=
  match p, s with
  | [], _ => true
  | _ :: _, [] => false
  | a :: p, b :: s => (a =? b) && starts_with p s
  end.

Definition ends_with (p s : str) : bool := starts_with (reverse p) (reverse s).

Definition strip_prefix (p s : str) : option str :=
  if starts_with p s then Some (drop (length p) s) else None.

Definition strip_suffix (p s : str) : option str :=
  if ends_with p s then Some (take (length s - length p) s) else None.

Fixpoint contains (needle s : str) : bool :=
  starts_with needle s ||
  match s with
  | [] => false
  | _ :: s => contains needle s
  end.

(** [str::trim_start_matches], [trim_matches] and [trim] for a predicate. *)
Fixpoint trim_start_matches (p : char → bool) (s : str) : str :=
  match s with
  | [] => []
  | c :: s' => if p c then trim_start_matches p s' else s
  end.

Definition trim_end_matches (p : char → bool) (s : str) : str :=
  reverse (trim_start_matches p (reverse s)).

Definition trim_matches (p : char → bool) (s : str) : str :=
  trim_end_matches p (trim_start_matches p s).

Definition trim (s : str) : str := trim_matches is_whitespace s.

(** [str::split] on a character predicate: always at least one piece. *)
Fixpoint split_on (p : char → bool) (s : str) : list str :=
  match s with
  | [] => [[]]
  | c :: s =>
      if p c then [] :: split_on p s
      else match split_on p s with
           | [] => [[c]]
           | w :: ws => (c :: w) :: ws
           end
  end.

Definition is_empty (s : str) : bool := match s with [] => true | _ => false end.
Definition non_empty (s : str) : bool := negb (is_empty s).

Definition split_whitespace (s : str) : list str :=
  List.filter non_empty (split_on is_whitespace s).

(** [[T]::join]. *)
Fixpoint join (sep : str) (ws : list str) : str :=
  match ws with
  | [] => []
  | [w] => w
  | w :: ws => w ++ sep ++ join sep ws
  end.

(** [str::split_once]: around the first occurrence of the pattern. *)
Fixpoint split_once (pat s : str) : option (str * str) :=
  if starts_with pat s then Some ([], drop (length pat) s)
  else match s with
       | [] => None
       | c :: s =>
           match split_once pat s with
           | Some (a, b) => Some (c :: a, b)
           | None => None
           end
       end.

(** [str::replace(&[char], "")]. *)
Definition remove_chars (cs : list char) (s : str) : str :=
  List.filter (λ c, negb (existsb (Z.eqb c) cs)) s.

(** Byte-offset slicing [&s[a..b]]: [None] is the out-of-range or
    not-a-character-boundary panic. *)
Fixpoint byte_skip (s : str) (n : Z) : option str :=
  if n =? 0 then Some s
  else match s with
       | [] => None
       | c :: s => if n <? len_utf8 c then None else byte_skip s (n - len_utf8 c)
       end.

Fixpoint byte_take (s : str) (n : Z) : option str :=
  if n =? 0 then Some []
  else match s with
       | [] => None
       | c :: s => if n <? len_utf8 c then None
                   else match byte_take s (n - len_utf8 c) with
                        | Some t => Some (c :: t)
                        | None => None
                        end
       end.

Definition byte_slice (s : str) (a b : Z) : option str :=
  match byte_skip s a with
  | Some t => byte_take t (b - a)
  | None => None
  end.

(** ** Numbers *)

Fixpoint digits_value (acc : Z) (s : str) : option Z :=
  match s with
  | [] => Some acc
  | c :: s => if is_ascii_digit c then digits_value (acc * 10 + (c - 48)) s else None
  end.

(** [str::parse::<i32>]: an optional sign, at least one digit, no overflow. *)
Definition parse_i32 (s : str) : option Z :=
  let '(neg, ds) :=
    match s with
    | 43 :: ds => (false, ds)
    | 45 :: ds => (true, ds)
    | ds => (false, ds)
    end in
  match ds with
  | [] => None
  | _ =>
      match digits_value 0 ds with
      | Some v =>
          let v := if neg : bool then - v else v in
          if (i32_MIN <=? v) && (v <=? i32_MAX) then Some v else None
      | None => None
      end
  end.

(** Decimal digits of a non-negative integer; 20 digits reach [u64::MAX]. *)
Fixpoint dec_digits_fuel (fuel : nat) (n : Z) (acc : str) : str :=
  match fuel with
  | O => acc
  | S fuel =>
      let acc := (48 + n `mod` 10) :: acc in
      if n <? 10 then acc else dec_digits_fuel fuel (n / 10) acc
  end.

Definition dec_digits (n : Z) : str := dec_digits_fuel 20 n [].

(** [format!("{n:0w}")] (sign-aware zero padding). *)
Definition fmt_zero_padded (w : nat) (n : Z) : str :=
  let ds := dec_digits (Z.abs n) in
  let sign := if n <? 0 then [45] else [] in
  sign ++ replicate (w - length sign - length ds) 48 ++ ds.

(** Lower-case hexadecimal: one nibble, [{:02x}] of a byte string, and
    [{:016x}] of a [u64]. *)
Definition hex_digit (n : Z) : char := if n <? 10 then 48 + n else 87 + n.

Definition hex_byte (b : Z) : str := [hex_digit (Z.shiftr b 4); hex_digit (Z.land b 15)].

Definition hex_bytes (bs : list Z) : str := concat (map hex_byte bs).

Definition fmt_016x (x : Z) : str := hex_bytes (to_be_bytes 8 x).

(** ** Lemmas: UTF-8 *)

Lemma len_utf8_bounds c : 1 ≤ len_utf8 c ≤ 4.
Proof. unfold len_utf8. repeat case_match; lia. Qed.

Lemma utf8_char_length c : Z.of_nat (length (utf8_char c)) = len_utf8 c.
Proof. unfold utf8_char, len_utf8. by repeat case_match. Qed.

Lemma utf8_length s : Z.of_nat (length (utf8 s)) = str_len s.
Proof.
  induction s as [|c s IH]; cbn [utf8 str_len]; [done|].
  rewrite length_app, <- utf8_char_length. lia.
Qed.

Lemma utf8_app s t : utf8 (s ++ t) = utf8 s ++ utf8 t.
Proof. induction s as [|c s IH]; cbn; [done|]. by rewrite IH, app_assoc. Qed.

Lemma str_len_app s t : str_len (s ++ t) = str_len s + str_len t.
Proof. induction s as [|c s IH]; cbn; lia. Qed.

Lemma str_len_nonneg s : 0 ≤ str_len s.
Proof. induction s as [|c s IH]; cbn; [lia|]. pose proof (len_utf8_bounds c). lia. Qed.

Lemma str_len_0 s : str_len s = 0 → s = [].
Proof.
  destruct s as [|c s]; cbn; [done|].
  pose proof (len_utf8_bounds c). pose proof (str_len_nonneg s). lia.
Qed.

Lemma length_le_str_len s : Z.of_nat (length s) ≤ str_len s.
Proof. induction s as [|c s IH]; cbn [length str_len]; [lia|]. pose proof (len_utf8_bounds c). lia. Qed.

Lemma utf8_decode_char c bs :
  valid_char c → utf8_decode (utf8_char c ++ bs) = c :: utf8_decode bs.
Proof.
  intros Hc. unfold valid_char in Hc.
  assert (0 ≤ c < 0x110000) as Hb by lia.
  unfold utf8_char.
  destruct (c <? 0x80) eqn:E1; bools; [cbn; by rewrite (proj2 (Z.ltb_lt c 0x80))|].
  pose proof (Z.mod_pos_bound c 64). pose proof (Z.mod_pos_bound (c / 64) 64).
  pose proof (Z.mod_pos_bound (c / 4096) 64).
  pose proof (Z.div_mod c 64). pose proof (Z.div_mod (c / 64) 64).
  pose proof (Z.div_mod (c / 4096) 64).
  assert (c / 4096 = c / 64 / 64) by (rewrite Z.div_div; [done|lia..]).
  assert (c / 262144 = c / 4096 / 64) by (rewrite Z.div_div; [done|lia..]).
  destruct (c <? 0x800) eqn:E2; [|destruct (c <? 0x10000) eqn:E3]; bools; cbn [app utf8_decode];
    repeat match goal with
    | |- context [if ?a <? ?b then _ else _] => destruct (Z.ltb_spec a b); [try lia|try lia]
    end; f_equal; lia.
Qed.

(** UTF-8 decoding inverts encoding, so [as_bytes] is injective. *)
Lemma utf8_decode_utf8 s : Forall valid_char s → utf8_decode (utf8 s) = s.
Proof.
  induction 1 as [|c s Hc Hs IH]; cbn [utf8]; [done|].
  by rewrite utf8_decode_char, IH.
Qed.

Lemma utf8_inj s t : Forall valid_char s → Forall valid_char t → utf8 s = utf8 t → s = t.
Proof.
  intros Hs Ht H. rewrite <- (utf8_decode_utf8 s), <- (utf8_decode_utf8 t) by done. by rewrite H.
Qed.

(** An ASCII-only predicate on bytes is the same predicate on characters. *)
Lemma forallb_utf8_ascii (p : Z → bool) s :
  (∀ b, p b = true → b < 0x80) → forallb p (utf8 s) = forallb p s.
Proof.
  intros Hp. induction s as [|c s IH]; cbn [utf8 forallb]; [done|].
  rewrite forallb_app, IH. f_equal. unfold utf8_char.
  destruct (c <? 0x80) eqn:E; bools; [cbn; by rewrite andb_true_r|].
  assert (p c = false) as ->.
  { destruct (p c) eqn:Epc; [|done]. apply Hp in Epc. lia. }
  assert (∀ b, 0x80 ≤ b → p b = false) as Hhigh.
  { intros b Hb. destruct (p b) eqn:Epb; [|done]. apply Hp in Epb. lia. }
  pose proof (Z.div_pos c 64). pose proof (Z.div_pos c 4096). pose proof (Z.div_pos c 262144).
  repeat case_match; cbn [forallb]; rewrite Hhigh by lia; done.
Qed.

(** ASCII strings, decidably. *)
Definition ascii_str (s : str) : bool := forallb (λ c, (0 <=? c) && (c <? 128)) s.

Lemma ascii_str_Forall s : ascii_str s = true ↔ Forall (λ c, 0 ≤ c < 128) s.
Proof.
  unfold ascii_str. rewrite forallb_forall, Forall_forall. setoid_rewrite <- list_elem_of_In.
  split; intros H c Hc; specialize (H c Hc); bools; [lia|].
  apply andb_true_iff; split; lia.
Qed.

Lemma ascii_str_valid s : ascii_str s = true → Forall valid_char s.
Proof.
  intros H%ascii_str_Forall. eapply Forall_impl; [done|]. intros c Hc. left. cbn in Hc. lia.
Qed.

(** ** Lemmas: slicing at the boundary of a known prefix *)

Lemma byte_skip_app s t : byte_skip (s ++ t) (str_len s) = Some t.
Proof.
  induction s as [|c s IH]; [by destruct t|].
  cbn [app str_len byte_skip]. pose proof (len_utf8_bounds c). pose proof (str_len_nonneg s).
  rewrite (proj2 (Z.eqb_neq _ _)), (proj2 (Z.ltb_ge _ _)) by lia.
  by replace (len_utf8 c + str_len s - len_utf8 c) with (str_len s) by lia.
Qed.

Lemma byte_take_app s t : byte_take (s ++ t) (str_len s) = Some s.
Proof.
  induction s as [|c s IH]; [by destruct t|].
  cbn [app str_len byte_take]. pose proof (len_utf8_bounds c). pose proof (str_len_nonneg s).
  rewrite (proj2 (Z.eqb_neq _ _)), (proj2 (Z.ltb_ge _ _)) by lia.
  replace (len_utf8 c + str_len s - len_utf8 c) with (str_len s) by lia. by rewrite IH.
Qed.

Lemma byte_slice_app s t u a b :
  a = str_len s → b = str_len s + str_len t → byte_slice (s ++ t ++ u) a b = Some t.
Proof.
  intros -> ->. unfold byte_slice. rewrite byte_skip_app.
  replace (str_len s + str_len t - str_len s) with (str_len t) by lia. apply byte_take_app.
Qed.

#[export] Hint Resolve str_len_nonneg : resume.

(** ** Lemmas: prefixes *)

Lemma forallb_take {A} (p : A → bool) n l : forallb p l = true → forallb p (take n l) = true.
Proof.
  rewrite !forallb_forall. intros Hp x Hx. apply Hp. apply list_elem_of_In.
  apply list_elem_of_In in Hx. by eapply subseteq_take.
Qed.

Lemma starts_with_app p s : starts_with p (p ++ s) = true.
Proof. induction p as [|a p IH]; cbn; [done|]. by rewrite Z.eqb_refl. Qed.

Lemma starts_with_spec p s : starts_with p s = true ↔ ∃ t, s = p ++ t.
Proof.
  split; [|by intros [t ->]; apply starts_with_app].
  revert s; induction p as [|a p IH]; intros s H; cbn in *; [by exists s|].
  destruct s as [|b s]; [done|]. bools. subst.
  destruct (IH s) as [t ->]; [done|]. by exists t.
Qed.

Lemma ends_with_spec p s : ends_with p s = true ↔ ∃ t, s = t ++ p.
Proof.
  unfold ends_with. rewrite starts_with_spec. split; intros [t Ht].
  - exists (reverse t). by rewrite <- (reverse_involutive s), Ht, reverse_app, reverse_involutive.
  - exists (reverse t). by rewrite Ht, reverse_app.
Qed.

Lemma str_eqb_eq s t : str_eqb s t = true ↔ s = t.
Proof. apply bool_decide_eq_true. Qed.

Lemma str_in_spec s alts : str_in s alts = true ↔ s ∈ alts.
Proof.
  unfold str_in. rewrite existsb_exists. setoid_rewrite str_eqb_eq.
  rewrite list_elem_of_In. naive_solver.
Qed.

(** ** Lemmas: hexadecimal *)

Lemma hex_digit_hexdigit n : 0 ≤ n < 16 → is_ascii_hexdigit (hex_digit n) = true.
Proof.
  intros Hn. unfold hex_digit, is_ascii_hexdigit, is_ascii_digit.
  destruct (n <? 10) eqn:E; bools; apply orb_true_iff; [left; apply orb_true_iff; left|right];
    apply andb_true_iff; split; lia.
Qed.

Lemma hex_digit_lower n : 0 ≤ n < 16 →
  is_ascii_digit (hex_digit n) = true ∨ 97 ≤ hex_digit n ≤ 102.
Proof.
  intros Hn. unfold hex_digit, is_ascii_digit. destruct (n <? 10) eqn:E; bools; [left|right; lia].
  apply andb_true_iff; split; lia.
Qed.

Lemma byte_nibbles b : is_byte b →
  (0 ≤ Z.shiftr b 4 < 16) ∧ (0 ≤ Z.land b 15 < 16) ∧ b = 16 * Z.shiftr b 4 + Z.land b 15.
Proof.
  intros Hb. unfold is_byte in Hb. change 15 with (Z.ones 4).
  rewrite Z.land_ones, Z.shiftr_div_pow2 by lia. change (2 ^ 4) with 16.
  pose proof (Z.mod_pos_bound b 16). pose proof (Z.div_mod b 16). lia.
Qed.

Lemma hex_bytes_hexdigit bs :
  Forall is_byte bs → forallb is_ascii_hexdigit (hex_bytes bs) = true.
Proof.
  induction 1 as [|b bs Hb Hbs IH]; [done|].
  destruct (byte_nibbles b Hb) as (H1 & H2 & _).
  change (hex_bytes (b :: bs)) with (hex_byte b ++ hex_bytes bs). cbn [app hex_byte forallb].
  by rewrite !hex_digit_hexdigit, IH.
Qed.

Lemma hex_bytes_length bs : length (hex_bytes bs) = (2 * length bs)%nat.
Proof. induction bs as [|b bs IH]; cbn; [done|]. unfold hex_bytes in IH. lia. Qed.

Lemma hex_digit_inj n m : 0 ≤ n < 16 → 0 ≤ m < 16 → hex_digit n = hex_digit m → n = m.
Proof. unfold hex_digit. intros. repeat case_match; bools; lia. Qed.

Lemma hex_bytes_inj bs cs :
  Forall is_byte bs → Forall is_byte cs → hex_bytes bs = hex_bytes cs → bs = cs.
Proof.
  intros Hbs. revert cs. induction Hbs as [|b bs Hb Hbs IH]; intros cs Hcs H.
  - by destruct Hcs.
  - destruct Hcs as [|c cs Hc Hcs]; [done|]. cbn in H.
    injection H as H1 H2 H3.
    destruct (byte_nibbles b Hb) as (Hb1 & Hb2 & Hb3), (byte_nibbles c Hc) as (Hc1 & Hc2 & Hc3).
    apply hex_digit_inj in H1; [|done..]. apply hex_digit_inj in H2; [|done..].
    f_equal; [lia|]. by apply IH.
Qed.

Lemma ascii_str_len s : forallb is_ascii_hexdigit s = true → str_len s = Z.of_nat (length s).
Proof.
  induction s as [|c s IH]; cbn [forallb str_len length]; intros H; [done|]. bools.
  rewrite IH by done. unfold len_utf8. rewrite (proj2 (Z.ltb_lt c 0x80)); [lia|].
  unfold is_ascii_hexdigit, is_ascii_digit in *.
  repeat match goal with H : (_ || _) = true |- _ => apply orb_true_iff in H as [H|H] end; bools; lia.
Qed.

Lemma is_ascii_hexdigit_ascii c : is_ascii_hexdigit c = true → c < 0x80.
Proof.
  unfold is_ascii_hexdigit, is_ascii_digit. intros H.
  repeat match goal with H : (_ || _) = true |- _ => apply orb_true_iff in H as [H|H] end; bools; lia.
Qed.

(** ** Lemmas: splitting and joining *)

Definition free_of (p : char → bool) (s : str) : Prop := Forall (λ c, p c = false) s.

Lemma free_of_app p s t : free_of p (s ++ t) ↔ free_of p s ∧ free_of p t.
Proof. apply Forall_app. Qed.

Lemma free_of_cons p c s : free_of p (c :: s) ↔ p c = false ∧ free_of p s.
Proof. unfold free_of. by rewrite Forall_cons. Qed.

Lemma free_of_reverse p s : free_of p (reverse s) ↔ free_of p s.
Proof. unfold free_of. by rewrite reverse_Permutation. Qed.

Lemma free_of_filter p f s : free_of p s → free_of p (List.filter f s).
Proof.
  unfold free_of. rewrite !Forall_forall. intros H c Hc.
  apply list_elem_of_In, filter_In in Hc as [Hc _]. by apply H, list_elem_of_In.
Qed.

Lemma split_on_nonempty p s : split_on p s ≠ [].
Proof. destruct s as [|c s]; cbn; [done|]. destruct (p c); [done|]. by destruct (split_on p s). Qed.

Lemma split_on_free p s : Forall (free_of p) (split_on p s).
Proof.
  induction s as [|c s IH]; cbn; [by repeat constructor|].
  destruct (p c) eqn:E; [constructor; [constructor|done]|].
  destruct (split_on p s) as [|w ws]; [by repeat constructor|].
  inversion IH; subst. by constructor; [constructor|].
Qed.

Lemma split_on_free_id p s : free_of p s → split_on p s = [s].
Proof.
  induction 1 as [|c s Hc Hs IH]; cbn; [done|]. by rewrite Hc, IH.
Qed.

Lemma split_on_app p w c s :
  free_of p w → p c = true → split_on p (w ++ c :: s) = w :: split_on p s.
Proof.
  intros Hw Hc. induction Hw as [|d w Hd Hw IH]; cbn; [by rewrite Hc|]. by rewrite Hd, IH.
Qed.

(** Splitting undoes joining when no word contains the separator. *)
Lemma split_on_join p c ws :
  p c = true → Forall (free_of p) ws → ws ≠ [] → split_on p (join [c] ws) = ws.
Proof.
  intros Hc Hws. induction Hws as [|w ws Hw Hws IH]; [done|]. intros _.
  destruct ws as [|w' ws]; [by apply split_on_free_id|].
  change (join [c] (w :: w' :: ws)) with (w ++ c :: join [c] (w' :: ws)).
  by rewrite split_on_app, IH.
Qed.

(** Joining undoes splitting on that one character. *)
Lemma join_split_on c s : join [c] (split_on (Z.eqb c) s) = s.
Proof.
  induction s as [|d s IH]; [done|]. cbn [split_on].
  destruct (Z.eqb_spec c d) as [->|Hne].
  - destruct (split_on (Z.eqb d) s) as [|w ws] eqn:E; [by apply split_on_nonempty in E|].
    change (join [d] ([] :: w :: ws)) with (d :: join [d] (w :: ws)). by rewrite IH.
  - destruct (split_on (Z.eqb c) s) as [|w ws] eqn:E; [by apply split_on_nonempty in E|].
    destruct ws as [|w' ws]; cbn in *; by rewrite IH.
Qed.

Lemma non_empty_spec s : non_empty s = true ↔ s ≠ [].
Proof. by destruct s. Qed.

(** The words of a string: non-empty and free of white space. *)
Definition word (w : str) : Prop := w ≠ [] ∧ free_of is_whitespace w.

Lemma split_whitespace_words s : Forall word (split_whitespace s).
Proof.
  unfold split_whitespace. apply Forall_forall. intros w Hw.
  apply list_elem_of_In, filter_In in Hw as [Hw He].
  split; [by apply non_empty_spec|].
  pose proof (split_on_free is_whitespace s) as HF. rewrite Forall_forall in HF.
  by apply HF, list_elem_of_In.
Qed.

Lemma filter_non_empty_words ws : Forall word ws → List.filter non_empty ws = ws.
Proof.
  induction 1 as [|w ws [Hw _] _ IH]; cbn; [done|].
  by rewrite (proj2 (non_empty_spec w) Hw), IH.
Qed.

Lemma split_whitespace_join ws : Forall word ws → split_whitespace (join [32] ws) = ws.
Proof.
  intros Hws. destruct ws as [|w ws]; [done|]. unfold split_whitespace.
  rewrite split_on_join; [by apply filter_non_empty_words|done| |done].
  eapply Forall_impl; [done|]. by intros ? [].
Qed.

Lemma split_whitespace_word w : word w → split_whitespace w = [w].
Proof. intros Hw. apply (split_whitespace_join [w]). by constructor. Qed.

(** Collapsing white space is idempotent. *)
Lemma collapse_whitespace_idemp s :
  split_whitespace (join [32] (split_whitespace s)) = split_whitespace s.
Proof. apply split_whitespace_join, split_whitespace_words. Qed.

Lemma elem_of_join c ws x : x ∈ join [c] ws → x = c ∨ ∃ w, w ∈ ws ∧ x ∈ w.
Proof.
  induction ws as [|w ws IH]; [cbn; set_solver|].
  destruct ws as [|w' ws]; [cbn; set_solver|].
  change (join [c] (w :: w' :: ws)) with (w ++ c :: join [c] (w' :: ws)).
  rewrite elem_of_app, elem_of_cons. intros [H|[->|H]]; [right|by left|].
  - exists w. set_solver.
  - destruct (IH H) as [->|(u & Hu & Hx)]; [by left|right; exists u; set_solver].
Qed.

Lemma split_on_elem p s w c : w ∈ split_on p s → c ∈ w → c ∈ s.
Proof.
  revert w. induction s as [|d s IH]; intros w; cbn.
  { intros ->%list_elem_of_singleton. done. }
  destruct (p d).
  { intros [->|Hw]%elem_of_cons Hc; [by apply elem_of_nil in Hc|]. right. by apply (IH w). }
  destruct (split_on p s) as [|w' ws].
  { intros ->%list_elem_of_singleton ->%list_elem_of_singleton. left. }
  intros [->|Hw]%elem_of_cons Hc.
  - apply elem_of_cons in Hc as [->|Hc]; [left|]. right. apply (IH w'); [left|done].
  - right. apply (IH w); [by right|done].
Qed.

(** ** Lemmas: trimming *)

Lemma trim_start_free p s : (∀ c t, s = c :: t → p c = false) → trim_start_matches p s = s.
Proof. destruct s as [|c s]; cbn; [done|]. intros H. by rewrite (H c s). Qed.

Lemma trim_start_head p s c t : trim_start_matches p s = c :: t → p c = false.
Proof.
  induction s as [|d s IH]; cbn; [done|]. destruct (p d) eqn:E; [auto|]. by intros [= <- _].
Qed.

Lemma trim_start_split p s :
  ∃ l, s = l ++ trim_start_matches p s ∧ Forall (λ c, p c = true) l.
Proof.
  induction s as [|d s (l & Hl & IH)]; cbn; [by exists []|]. destruct (p d) eqn:E.
  - exists (d :: l). cbn. split; [congruence|by constructor].
  - by exists [].
Qed.

Lemma trim_end_split p s :
  ∃ r, s = trim_end_matches p s ++ r ∧ Forall (λ c, p c = true) r.
Proof.
  unfold trim_end_matches. destruct (trim_start_split p (reverse s)) as (l & Hl & HF).
  exists (reverse l). split; [|by rewrite reverse_Permutation].
  by rewrite <- reverse_app, <- Hl, reverse_involutive.
Qed.

(** A string trims to itself when neither end matches. *)
Lemma trim_matches_id p s :
  (∀ c t, s = c :: t → p c = false) → (∀ c t, s = t ++ [c] → p c = false) →
  trim_matches p s = s.
Proof.
  intros H1 H2. unfold trim_matches, trim_end_matches. rewrite (trim_start_free p s H1).
  rewrite trim_start_free; [by rewrite reverse_involutive|].
  intros c t Ht. apply (H2 c (reverse t)). by rewrite <- reverse_cons, <- Ht, reverse_involutive.
Qed.

Lemma trim_matches_split p s :
  ∃ l r, s = l ++ trim_matches p s ++ r ∧
         Forall (λ c, p c = true) l ∧ Forall (λ c, p c = true) r.
Proof.
  unfold trim_matches. destruct (trim_start_split p s) as (l & Hl & Fl).
  destruct (trim_end_split p (trim_start_matches p s)) as (r & Hr & Fr).
  exists l, r. split_and!; [|done..]. congruence.
Qed.

Lemma trim_matches_elem p s c : c ∈ trim_matches p s → c ∈ s.
Proof. destruct (trim_matches_split p s) as (l & r & H & _). rewrite H at 2. set_solver. Qed.

Lemma trim_matches_nil p s : trim_matches p s = [] ↔ Forall (λ c, p c = true) s.
Proof.
  split.
  - intros H. destruct (trim_matches_split p s) as (l & r & Hs & Hl & Hr).
    rewrite H in Hs. rewrite Hs. by apply Forall_app.
  - intros Hs. unfold trim_matches. assert (trim_start_matches p s = []) as ->; [|done].
    induction Hs as [|c s Hc Hs IH]; cbn; [done|]. by rewrite Hc.
Qed.

(** Either a string matches throughout, or it is its trimmed core, which
    starts and ends with a character that does not match. *)
Lemma trim_core p s :
  (trim_matches p s = [] ∧ Forall (λ c, p c = true) s) ∨
  ∃ l r, s = l ++ trim_matches p s ++ r ∧
    Forall (λ c, p c = true) l ∧ Forall (λ c, p c = true) r ∧
    (∃ c t, trim_matches p s = c :: t ∧ p c = false) ∧
    (∃ d u, trim_matches p s = u ++ [d] ∧ p d = false).
Proof.
  destruct (trim_matches p s) as [|c t] eqn:E.
  { left. split; [done|]. by apply trim_matches_nil. }
  right. destruct (trim_matches_split p s) as (l & r & Hs & Hl & Hr).
  rewrite E in Hs. exists l, r. split_and!; [done..| |].
  - exists c, t. split; [done|]. revert E. unfold trim_matches, trim_end_matches.
    destruct (trim_start_matches p s) as [|d u] eqn:E; [done|].
    assert (p d = false) as Hd by by eapply trim_start_head.
    destruct (trim_end_split p (d :: u)) as (r' & Hr' & _).
    unfold trim_end_matches in Hr'. intros E'. rewrite E' in Hr'. by injection Hr' as -> _.
  - destruct (exists_last (l := c :: t)) as (u & d & Hud); [done|]. exists d, u. split; [done|].
    rewrite Hud in E. revert E. unfold trim_matches, trim_end_matches. intros E%(f_equal reverse).
    rewrite reverse_involutive, reverse_snoc in E. by eapply trim_start_head.
Qed.

(** A non-empty result of splitting on white space means a non-blank string. *)
Lemma split_whitespace_nil s : split_whitespace s = [] ↔ Forall (λ c, is_whitespace c = true) s.
Proof.
  unfold split_whitespace. induction s as [|c s IH]; cbn; [done|].
  destruct (is_whitespace c) eqn:E.
  - cbn. rewrite IH, Forall_cons. tauto.
  - split; [|inversion 1; congruence].
    by destruct (split_on is_whitespace s).
Qed.

(** ** Spans *)

(** The longest prefix without [p], and the rest. *)
Fixpoint span (p : char → bool) (s : str) : str * str :=
  match s with
  | [] => ([], [])
  | c :: s' => if p c then ([], s) else let '(a, b) := span p s' in (c :: a, b)
  end.

Lemma span_app p s : (span p s).1 ++ (span p s).2 = s.
Proof.
  induction s as [|c s IH]; cbn; [done|]. destruct (p c); [done|].
  destruct (span p s) as [a b]; cbn in *. by rewrite IH.
Qed.

Lemma span_free p s : free_of p (span p s).1.
Proof.
  induction s as [|c s IH]; cbn; [constructor|]. destruct (p c) eqn:E; [constructor|].
  destruct (span p s) as [a b]; cbn in *. by constructor.
Qed.

Lemma span_stop p w s :
  free_of p w → (∀ c t, s = c :: t → p c = true) → span p (w ++ s) = (w, s).
Proof.
  intros Hw Hs. induction Hw as [|c w Hc Hw IH]; cbn.
  - destruct s as [|c s]; cbn; [done|]. by rewrite (Hs c s).
  - by rewrite Hc, IH.
Qed.

Lemma span_length p s : (length (span p s).2 ≤ length s)%nat.
Proof. rewrite <- (span_app p s) at 2. rewrite length_app. lia. Qed.

(** ** ASCII case *)

Lemma char_to_ascii_lowercase_idemp c :
  char_to_ascii_lowercase (char_to_ascii_lowercase c) = char_to_ascii_lowercase c.
Proof.
  unfold char_to_ascii_lowercase, is_ascii_uppercase.
  destruct ((65 <=? c) && (c <=? 90)) eqn:E; [|by rewrite E].
  bools. rewrite (proj2 (Z.leb_gt (c + 32) 90)) by lia. by rewrite andb_false_r.
Qed.

Lemma to_ascii_lowercase_idemp s : to_ascii_lowercase (to_ascii_lowercase s) = to_ascii_lowercase s.
Proof.
  unfold to_ascii_lowercase. rewrite map_map. apply map_ext, char_to_ascii_lowercase_idemp.
Qed.

(** ** A concrete Unicode table

    ASCII, the CJK ideographs and full-width digits: enough of the tables to
    evaluate the definitions on concrete inputs. *)
Definition is_cjk (c : char) : bool := (0x4E00 <=? c) && (c <=? 0x9FFF).

Definition sample_unicode : Unicode := {|
  is_alphabetic c := is_ascii_alphabetic c || is_cjk c;
  is_numeric c := is_ascii_digit c || ((0xFF10 <=? c) && (c <=? 0xFF19));
  str_to_lowercase s := map char_to_ascii_lowercase s;
|}.

Lemma sample_unicode_laws : @UnicodeLaws sample_unicode.
Proof.
  split; cbn; [| |done]; intros c Hc; unfold is_cjk.
  - replace (0x4E00 <=? c) with false by lia. by rewrite orb_false_r.
  - replace (0xFF10 <=? c) with false by lia. by rewrite orb_false_r.
Qed.
