(* ===== verification/Identity.v ===== *)
(** * Identities (crates/core-domain)

    Stable identifiers generated by the [stable_id_type!] macro (FNV-1a based
    digests behind a per-type prefix), contact hashes, SHA-256 content digests,
    content-addressed revision and version ids, and the canonical digest of a
    document/version search projection.  SHA-256 itself is the [sha2] crate, a
    parameter of the model. *)

From Stdlib Require Import ZArith String.
From stdpp Require Import prelude.
From S2P Require Import Prelude Collections Text.

Local Open Scope Z_scope.

(** ** Constants *)

Definition FNV_OFFSET_A : Z := 0xcbf29ce484222325.
Definition FNV_OFFSET_B : Z := 0x6c62272e07bb0142.
Definition FNV_PRIME : Z := 0x00000100000001b3.
Definition ID_DIGEST_HEX_LEN : nat := 32.
Definition CONTACT_HASH_HEX_LEN : Z := 64.

(** ** Stable ids *)

(** The instances of [stable_id_type!]. *)
Inductive IdKind :=
| DocumentId | SourceRevisionId | ResumeVersionId | CandidateId | SectionId
| EntityMentionId | VectorRecordId | IngestJobId | ImportTaskId.

#[export] Instance IdKind_eq_dec : EqDecision IdKind.
Proof. solve_decision. Defined.

(** [stringify!($name)]. *)
Definition id_name (k : IdKind) : str :=
  match k with
  | DocumentId => lit "DocumentId"
  | SourceRevisionId => lit "SourceRevisionId"
  | ResumeVersionId => lit "ResumeVersionId"
  | CandidateId => lit "CandidateId"
  | SectionId => lit "SectionId"
  | EntityMentionId => lit "EntityMentionId"
  | VectorRecordId => lit "VectorRecordId"
  | IngestJobId => lit "IngestJobId"
  | ImportTaskId => lit "ImportTaskId"
  end.

(** [$prefix]. *)
Definition id_prefix (k : IdKind) : str :=
  match k with
  | DocumentId => lit "doc_"
  | SourceRevisionId => lit "rev_"
  | ResumeVersionId => lit "ver_"
  | CandidateId => lit "cand_"
  | SectionId => lit "sec_"
  | EntityMentionId => lit "ent_"
  | VectorRecordId => lit "vec_"
  | IngestJobId => lit "job_"
  | ImportTaskId => lit "imp_"
  end.

(** One newtype per kind. *)
Record StableId (k : IdKind) := MkId { id_str : str }.
Arguments MkId {k} id_str.
Arguments id_str {k} s.

#[export] Instance StableId_eq_dec k : EqDecision (StableId k).
Proof. solve_decision. Defined.

Inductive IdParseError :=
| InvalidPrefix (expected : str)
| InvalidLength (expected actual : Z)
| InvalidHexDigest.

Definition update_hash (hash : Z) (bytes : list Z) : Z :=
  fold_left (λ h byte, u64_wrapping_mul (Z.lxor h byte) FNV_PRIME) bytes hash.

Definition stable_hash (seed : Z) (namespace : str) (parts : list str) : Z :=
  let hash := update_hash seed (utf8 namespace) in
  let hash := update_hash hash (to_le_bytes 8 (Z.of_nat (length parts))) in
  fold_left
    (λ hash part,
       let hash := update_hash hash (to_le_bytes 8 (str_len part)) in
       update_hash hash (utf8 part))
    parts hash.

Definition stable_id_digest (namespace : str) (parts : list str) : str :=
  let hash_a := stable_hash FNV_OFFSET_A namespace parts in
  let hash_b := stable_hash FNV_OFFSET_B namespace parts in
  fmt_016x hash_a ++ fmt_016x hash_b.

Definition from_non_secret_parts (k : IdKind) (parts : list str) : StableId k :=
  MkId (id_prefix k ++ stable_id_digest (id_name k) parts).

(** [&value[expected_prefix.len()..]] cannot panic: the prefix was just checked. *)
Definition validate_stable_id (expected_prefix value : str) : result unit IdParseError :=
  if negb (starts_with expected_prefix value) then Err (InvalidPrefix expected_prefix)
  else
    let expected_len := str_len expected_prefix + Z.of_nat ID_DIGEST_HEX_LEN in
    if negb (str_len value =? expected_len) then Err (InvalidLength expected_len (str_len value))
    else
      let digest := drop (length expected_prefix) value in
      if negb (forallb is_ascii_hexdigit (utf8 digest)) then Err InvalidHexDigest
      else Ok tt.

(** [FromStr::from_str] and [TryFrom<String>]. *)
Definition id_from_str (k : IdKind) (value : str) : result (StableId k) IdParseError :=
  let? _ := validate_stable_id (id_prefix k) value in
  Ok (MkId value).

(** ** Contact hashes *)

Inductive ContactHashParseError :=
| ContactInvalidLength (expected actual : Z)
| ContactInvalidHexDigest.

Record ContactHash := MkContactHash { contact_hash_str : str }.

Definition validate_contact_hash (digest : str) : result unit ContactHashParseError :=
  if negb (str_len digest =? CONTACT_HASH_HEX_LEN) then
    Err (ContactInvalidLength CONTACT_HASH_HEX_LEN (str_len digest))
  else if negb (forallb is_ascii_hexdigit (utf8 digest)) then Err ContactInvalidHexDigest
  else Ok tt.

Definition from_keyed_digest (digest : str) : result ContactHash ContactHashParseError :=
  let digest := to_ascii_lowercase digest in
  let? _ := validate_contact_hash digest in
  Ok (MkContactHash digest).

(** ** Content digests *)

(** The [sha2] crate: 32 output bytes for any input; the incremental
    [update] calls hash the concatenation of their arguments. *)
Class Sha256 := sha256 : list Z → list Z.
Class Sha256Laws `{Sha256} : Prop := {
  sha256_length bs : length (sha256 bs) = 32%nat;
  sha256_bytes bs : Forall is_byte (sha256 bs);
}.

Definition SHA256_PREFIX : str := lit "sha256:".
Definition SHA256_HEX_LEN : Z := 64.

Record ContentDigest := MkDigest { digest_str : str }.

#[export] Instance ContentDigest_eq_dec : EqDecision ContentDigest.
Proof. solve_decision. Defined.

Definition digest_of_preimage `{Sha256} (bytes : list Z) : ContentDigest :=
  MkDigest (SHA256_PREFIX ++ hex_bytes (sha256 bytes)).

Definition content_digest_from_bytes `{Sha256} (bytes : list Z) : ContentDigest :=
  digest_of_preimage bytes.

Definition is_lower_hexdigit (b : Z) : bool :=
  is_ascii_digit b || ((97 <=? b) && (b <=? 102)).

(** [FromStr for ContentDigest]. *)
Definition content_digest_from_str (value : str) : option ContentDigest :=
  match strip_prefix SHA256_PREFIX value with
  | None => None
  | Some digest =>
      if negb (str_len digest =? SHA256_HEX_LEN)
         || negb (forallb is_lower_hexdigit (utf8 digest))
      then None
      else Some (MkDigest value)
  end.

(** ** Search projection digests *)

Inductive SearchProjectionDigestError :=
| InvalidIdentity
| DuplicateDocument
| DuplicateResumeVersion.

(** [update_content_addressed_part]: a length-prefixed field of the preimage. *)
Definition content_addressed_part (part : list Z) : list Z :=
  to_le_bytes 8 (Z.of_nat (length part)) ++ part.

(** The loop of [from_pairs]: [document_ids] and [resume_version_ids] are the
    [BTreeSet]s, [canonical] the vector pushed so far. *)
Fixpoint from_pairs_loop (pairs : list (str * str))
    (canonical : list (str * str)) (document_ids resume_version_ids : list str)
    : result (list (str * str)) SearchProjectionDigestError :=
  match pairs with
  | [] => Ok canonical
  | (document_id, resume_version_id) :: pairs =>
      let? _ := map_err (λ _, InvalidIdentity) (id_from_str DocumentId document_id) in
      let? _ := map_err (λ _, InvalidIdentity) (id_from_str ResumeVersionId resume_version_id) in
      if bset_contains document_id document_ids then Err DuplicateDocument
      else if bset_contains resume_version_id resume_version_ids then Err DuplicateResumeVersion
      else from_pairs_loop pairs (canonical ++ [(document_id, resume_version_id)])
             (bset_insert document_id document_ids)
             (bset_insert resume_version_id resume_version_ids)
  end.

(** The bytes hashed for a canonical (sorted) mapping. *)
Definition projection_preimage (canonical : list (str * str)) : list Z :=
  content_addressed_part (utf8 (lit "resume-ir.search-projection.v1"))
  ++ to_le_bytes 8 (Z.of_nat (length canonical))
  ++ concat (map (λ '(d, v), content_addressed_part (utf8 d) ++ content_addressed_part (utf8 v))
               canonical).

(** [canonical.sort_unstable()]: equal elements are indistinguishable. *)
Definition sort_pairs (l : list (str * str)) : list (str * str) := sort_by cmp l.

Definition search_projection_digest_from_pairs `{Sha256} (pairs : list (str * str))
    : result ContentDigest SearchProjectionDigestError :=
  let? canonical := from_pairs_loop pairs [] [] [] in
  Ok (digest_of_preimage (projection_preimage (sort_pairs canonical))).

(** ** Content-addressed ids *)

(** The preimage of [content_addressed_id_digest]; [usize::to_le_bytes] is 8
    bytes wide. *)
Definition content_id_preimage (namespace : str) (parts : list (list Z)) : list Z :=
  to_le_bytes 8 (str_len namespace) ++ utf8 namespace
  ++ to_le_bytes 8 (Z.of_nat (length parts))
  ++ concat (map content_addressed_part parts).

Definition content_addressed_id_digest `{Sha256} (namespace : str) (parts : list (list Z)) : str :=
  hex_bytes (take (ID_DIGEST_HEX_LEN / 2)%nat (sha256 (content_id_preimage namespace parts))).

Definition source_revision_id_from_content `{Sha256}
    (document_id : StableId DocumentId) (content : ContentDigest) : StableId SourceRevisionId :=
  MkId (lit "rev_" ++ content_addressed_id_digest (lit "SourceRevisionId")
          [utf8 (id_str document_id); utf8 (digest_str content)]).

Definition resume_version_id_from_content `{Sha256}
    (document_id : StableId DocumentId) (source_revision_id : StableId SourceRevisionId)
    (normalized_text : ContentDigest) (parser_version schema_version : str)
    : StableId ResumeVersionId :=
  MkId (lit "ver_" ++ content_addressed_id_digest (lit "ResumeVersionId")
          [utf8 (id_str document_id); utf8 (id_str source_revision_id);
           utf8 (digest_str normalized_text); utf8 parser_version; utf8 schema_version]).

Record SourceRevision := {
  revision_id : StableId SourceRevisionId;
  revision_document_id : StableId DocumentId;
  revision_content_hash : ContentDigest;
  revision_byte_size : Z;
}.

Definition source_revision_for_content `{Sha256} (document_id : StableId DocumentId)
    (content_hash : ContentDigest) (byte_size : Z) : SourceRevision :=
  {| revision_id := source_revision_id_from_content document_id content_hash;
     revision_document_id := document_id;
     revision_content_hash := content_hash;
     revision_byte_size := byte_size |}.

(** ** Stable ids: lemmas and theorems *)

Lemma update_hash_range h bs : bs ≠ [] → 0 ≤ update_hash h bs ≤ u64_MAX.
Proof.
  destruct bs as [|b bs _] using rev_ind; [done|]. intros _. unfold update_hash.
  rewrite fold_left_app. cbn. unfold u64_wrapping_mul.
  match goal with |- 0 ≤ ?x `mod` _ ≤ _ => pose proof (Z.mod_pos_bound x (2 ^ 64)) end.
  unfold u64_MAX. lia.
Qed.

Lemma to_le_bytes_8_nonempty x : to_le_bytes 8 x ≠ [].
Proof. done. Qed.

Lemma update_hash_range_preserved h bs :
  0 ≤ h ≤ u64_MAX → 0 ≤ update_hash h bs ≤ u64_MAX.
Proof. destruct bs; [done|]. intros _. by apply update_hash_range. Qed.

Lemma fmt_016x_hex x :
  length (fmt_016x x) = 16%nat ∧ forallb is_ascii_hexdigit (fmt_016x x) = true.
Proof.
  unfold fmt_016x. split.
  - by rewrite hex_bytes_length, length_to_be_bytes.
  - apply hex_bytes_hexdigit. unfold to_be_bytes.
    rewrite reverse_Permutation. auto with resume.
Qed.

Lemma stable_id_digest_hex ns parts :
  length (stable_id_digest ns parts) = ID_DIGEST_HEX_LEN ∧
  forallb is_ascii_hexdigit (stable_id_digest ns parts) = true.
Proof.
  unfold stable_id_digest. rewrite length_app, forallb_app.
  destruct (fmt_016x_hex (stable_hash FNV_OFFSET_A ns parts)) as [-> ->].
  by destruct (fmt_016x_hex (stable_hash FNV_OFFSET_B ns parts)) as [-> ->].
Qed.

(** The FNV-1a accumulator of an identifier never leaves the [u64] range,
    whatever the parts, so its 16-digit rendering is exact. *)
Theorem stable_hash_u64 seed ns parts :
  0 ≤ stable_hash seed ns parts ≤ u64_MAX.
Proof.
  unfold stable_hash.
  pose proof (update_hash_range (update_hash seed (utf8 ns))
    (to_le_bytes 8 (Z.of_nat (length parts))) (to_le_bytes_8_nonempty _)) as H0.
  revert H0. generalize (update_hash (update_hash seed (utf8 ns))
    (to_le_bytes 8 (Z.of_nat (length parts)))).
  generalize parts. intros ps. induction ps as [|p ps IH]; intros h Hh; cbn [fold_left]; [done|].
  apply IH. by do 2 apply update_hash_range_preserved.
Qed.

Lemma validate_stable_id_ok p v :
  validate_stable_id p v = Ok tt ↔
  ∃ d, v = p ++ d ∧ length d = ID_DIGEST_HEX_LEN ∧ forallb is_ascii_hexdigit d = true.
Proof.
  unfold validate_stable_id. split.
  - destruct (starts_with p v) eqn:E1; cbn; [|done].
    apply starts_with_spec in E1 as [d ->].
    rewrite str_len_app, drop_app_length.
    destruct (_ =? _) eqn:E2; cbn; [|done]. bools.
    rewrite forallb_utf8_ascii by apply is_ascii_hexdigit_ascii.
    destruct (forallb _ _) eqn:E3; cbn; [|done]. intros _. exists d. split_and!; [done| |done].
    rewrite (ascii_str_len d E3) in E2. lia.
  - intros (d & -> & Hlen & Hhex). rewrite starts_with_app, str_len_app, drop_app_length. cbn.
    rewrite forallb_utf8_ascii, Hhex by apply is_ascii_hexdigit_ascii.
    by rewrite (ascii_str_len d Hhex), Hlen, Z.eqb_refl.
Qed.

(** Hydrating a stable id succeeds exactly on the type's prefix followed by
    32 hexadecimal digits, and keeps the text; every other input is an error. *)
Lemma id_from_str_ok k v i :
  id_from_str k v = Ok i ↔
  i = MkId v ∧
  ∃ d, v = id_prefix k ++ d ∧ length d = ID_DIGEST_HEX_LEN ∧
       forallb is_ascii_hexdigit d = true.
Proof.
  unfold id_from_str. destruct (validate_stable_id (id_prefix k) v) as [[]|e] eqn:E; cbn.
  - apply validate_stable_id_ok in E. naive_solver.
  - split; [done|]. intros [_ Hd]. apply validate_stable_id_ok in Hd. congruence.
Qed.

Lemma id_from_str_valid k d :
  length d = ID_DIGEST_HEX_LEN → forallb is_ascii_hexdigit d = true →
  id_from_str k (id_prefix k ++ d) = Ok (MkId (id_prefix k ++ d)).
Proof.
  intros H1 H2. unfold id_from_str.
  by rewrite (proj2 (validate_stable_id_ok _ _)) by eauto.
Qed.

(** An id generated from parts hydrates back to itself, for every one of
    the nine id types. *)
Theorem from_non_secret_parts_roundtrip k parts :
  id_from_str k (id_str (from_non_secret_parts k parts)) = Ok (from_non_secret_parts k parts).
Proof.
  destruct (stable_id_digest_hex (id_name k) parts) as [H1 H2].
  by apply id_from_str_valid.
Qed.

Lemma id_prefix_disjoint k1 k2 d1 d2 : id_prefix k1 ++ d1 = id_prefix k2 ++ d2 → k1 = k2.
Proof. destruct k1, k2; intros H; try done; vm_compute in H; discriminate H. Qed.

(** Id types cannot be confused: a text that hydrates as one id type is
    rejected by every other type, and always with the prefix error. *)
Theorem id_kinds_disjoint k1 k2 v i1 :
  id_from_str k1 v = Ok i1 → k1 ≠ k2 →
  id_from_str k2 v = Err (InvalidPrefix (id_prefix k2)).
Proof.
  intros (_ & d1 & -> & _)%id_from_str_ok Hne.
  unfold id_from_str, validate_stable_id.
  destruct (starts_with (id_prefix k2) (id_prefix k1 ++ d1)) eqn:E; [|done].
  apply starts_with_spec in E as [d2 H]. exfalso. by apply Hne, (id_prefix_disjoint k1 k2 d1 d2).
Qed.

Lemma id_kinds_disjoint_witness :
  id_from_str ResumeVersionId (lit "doc_4fcf3ffdf8561b4c56698040d8f36503")
  = Err (InvalidPrefix (lit "ver_")).
Proof.
  apply (id_kinds_disjoint DocumentId ResumeVersionId
    (lit "doc_4fcf3ffdf8561b4c56698040d8f36503")
    (MkId (lit "doc_4fcf3ffdf8561b4c56698040d8f36503"))); by vm_compute.
Defined.

(** The golden value of the crate's own test. *)
Example from_non_secret_parts_golden :
  id_str (from_non_secret_parts DocumentId [lit "synthetic-root"; lit "resume-placeholder.txt"])
  = lit "doc_4fcf3ffdf8561b4c56698040d8f36503".
Proof. by vm_compute. Qed.

(** ** Contact hashes: theorems *)

Lemma validate_contact_hash_ok d :
  validate_contact_hash d = Ok tt →
  str_len d = CONTACT_HASH_HEX_LEN ∧ forallb is_ascii_hexdigit d = true.
Proof.
  unfold validate_contact_hash. rewrite forallb_utf8_ascii by apply is_ascii_hexdigit_ascii.
  destruct (_ =? _) eqn:E1; [|done]. destruct (forallb _ _) eqn:E2; [|done]. by bools.
Qed.

(** A contact hash is stored as lower-case text that the constructor
    accepts again unchanged, so hydration is idempotent and case-insensitive. *)
Theorem from_keyed_digest_idempotent d h :
  from_keyed_digest d = Ok h →
  from_keyed_digest (contact_hash_str h) = Ok h ∧
  to_ascii_lowercase (contact_hash_str h) = contact_hash_str h ∧
  str_len (contact_hash_str h) = CONTACT_HASH_HEX_LEN ∧
  forallb is_ascii_hexdigit (contact_hash_str h) = true.
Proof.
  unfold from_keyed_digest. intros H. invert_ok. cbn.
  rewrite to_ascii_lowercase_idemp. destruct a. rewrite E.
  by destruct (validate_contact_hash_ok _ E).
Qed.

Lemma from_keyed_digest_idempotent_witness :
  let d := lit "0123456789ABCDEF0123456789abcdef0123456789abcdef0123456789abcdef" in
  let h := MkContactHash
             (lit "0123456789abcdef0123456789abcdef0123456789abcdef0123456789abcdef") in
  from_keyed_digest d = Ok h ∧ from_keyed_digest (contact_hash_str h) = Ok h.
Proof.
  intros d h. split; [by vm_compute|].
  apply (from_keyed_digest_idempotent d h). by vm_compute.
Defined.

(** ** Content digests: theorems *)

Lemma is_lower_hexdigit_ascii c : is_lower_hexdigit c = true → c < 0x80.
Proof.
  unfold is_lower_hexdigit, is_ascii_digit. intros [H|H]%orb_true_iff; bools; lia.
Qed.

Lemma lower_hex_hexdigit c : is_lower_hexdigit c = true → is_ascii_hexdigit c = true.
Proof.
  unfold is_lower_hexdigit, is_ascii_hexdigit. intros [H|H]%orb_true_iff; rewrite H; cbn; auto.
  apply orb_true_r.
Qed.

Lemma hex_bytes_lower bs : Forall is_byte bs → forallb is_lower_hexdigit (hex_bytes bs) = true.
Proof.
  assert (∀ n, 0 ≤ n < 16 → is_lower_hexdigit (hex_digit n) = true) as Hd.
  { intros n Hn. unfold is_lower_hexdigit. destruct (hex_digit_lower n Hn) as [->|H]; [done|].
    apply orb_true_iff; right. apply andb_true_iff; split; lia. }
  induction 1 as [|b bs Hb Hbs IH]; [done|].
  destruct (byte_nibbles b Hb) as (H1 & H2 & _).
  change (hex_bytes (b :: bs)) with (hex_byte b ++ hex_bytes bs). cbn [app hex_byte forallb].
  by rewrite !Hd, IH.
Qed.

(** The digest of any byte string is in the canonical textual form: parsing
    the text of a computed digest gives the same digest back. *)
Theorem content_digest_roundtrip `{Sha256Laws} bytes :
  content_digest_from_str (digest_str (content_digest_from_bytes bytes))
  = Some (content_digest_from_bytes bytes).
Proof.
  unfold content_digest_from_str, content_digest_from_bytes, digest_of_preimage, strip_prefix.
  cbn [digest_str]. rewrite starts_with_app, drop_app_length.
  pose proof (hex_bytes_hexdigit _ (sha256_bytes bytes)) as Hhex.
  rewrite forallb_utf8_ascii by apply is_lower_hexdigit_ascii.
  rewrite hex_bytes_lower by apply sha256_bytes.
  rewrite ascii_str_len by done.
  by rewrite hex_bytes_length, sha256_length.
Qed.

Lemma digest_hex_shape `{Sha256Laws} bs :
  forallb is_lower_hexdigit (hex_bytes (sha256 bs)) = true ∧ length (hex_bytes (sha256 bs)) = 64%nat.
Proof.
  split; [apply hex_bytes_lower, sha256_bytes|]. by rewrite hex_bytes_length, sha256_length.
Qed.

(** A stand-in for SHA-256 that satisfies its laws, for concrete evaluation. *)
Definition toy_sha256 : Sha256 := λ bs,
  to_le_bytes 32 (fold_left (λ h b, Z.land (h * 257 + b + 1) 0xffffffff) bs 0).

Lemma toy_sha256_laws : @Sha256Laws toy_sha256.
Proof.
  split; intros bs; unfold sha256, toy_sha256; [apply length_to_le_bytes|apply to_le_bytes_is_byte].
Qed.

Lemma content_digest_roundtrip_witness :
  @content_digest_from_str (digest_str (@content_digest_from_bytes toy_sha256 [1; 2; 3]))
  = Some (@content_digest_from_bytes toy_sha256 [1; 2; 3]).
Proof. exact (@content_digest_roundtrip toy_sha256 toy_sha256_laws [1; 2; 3]). Defined.

(** ** Length-prefixed preimages are unambiguous *)

Arguments projection_preimage : simpl never.
Arguments sort_pairs : simpl never.
Arguments content_id_preimage : simpl never.


(** A byte string that fits the 64-bit length field. *)
Definition sized (bs : list Z) : Prop := Z.of_nat (length bs) ≤ usize_MAX.

Lemma le_bytes_8_inj n m : n ≤ usize_MAX → m ≤ usize_MAX → 0 ≤ n → 0 ≤ m →
  to_le_bytes 8 n = to_le_bytes 8 m → n = m.
Proof. unfold usize_MAX. intros. apply (to_le_bytes_inj 8); [cbn; lia..|done]. Qed.

Lemma content_addressed_part_inj a b r s :
  sized a → sized b →
  content_addressed_part a ++ r = content_addressed_part b ++ s → a = b ∧ r = s.
Proof.
  unfold content_addressed_part, sized. rewrite <- !app_assoc. intros Ha Hb H.
  apply app_inj_1 in H as [H1 H2]; [|by rewrite !length_to_le_bytes].
  apply le_bytes_8_inj in H1; [|lia..]. apply app_inj_1; [lia|done].
Qed.

Lemma content_parts_inj ps qs r s :
  Forall sized ps → Forall sized qs → length ps = length qs →
  concat (map content_addressed_part ps) ++ r = concat (map content_addressed_part qs) ++ s →
  ps = qs ∧ r = s.
Proof.
  intros Hps. revert qs. induction Hps as [|p ps Hp Hps IH]; intros [|q qs] Hqs Hlen H; try done.
  inversion Hqs as [|?? Hq Hqs']; subst. cbn in H. rewrite <- !app_assoc in H.
  apply content_addressed_part_inj in H as [-> H]; [|done..].
  destruct (IH qs) as [-> ->]; auto.
Qed.

(** The two-field entries of a projection are consecutive parts. *)
Lemma projection_entries_parts l :
  concat (map (λ '(d, v), content_addressed_part (utf8 d) ++ content_addressed_part (utf8 v)) l)
  = concat (map content_addressed_part (concat (map (λ '(d, v), [utf8 d; utf8 v]) l))).
Proof.
  induction l as [|[d v] l IH]; [done|].
  cbn [map concat app]. by rewrite IH, app_assoc.
Qed.

Lemma concat_pairs_inj (l k : list (str * str)) :
  Forall (λ x, Forall valid_char x.1 ∧ Forall valid_char x.2) l →
  Forall (λ x, Forall valid_char x.1 ∧ Forall valid_char x.2) k →
  concat (map (λ '(d, v), [utf8 d; utf8 v]) l) = concat (map (λ '(d, v), [utf8 d; utf8 v]) k) →
  l = k.
Proof.
  intros Hl. revert k. induction Hl as [|[d v] l [Hd Hv] Hl IH]; intros [|[d' v'] k] Hk H; try done.
  inversion Hk as [|?? [Hd' Hv'] Hk']; subst. cbn in *. injection H as H1 H2 H3.
  apply utf8_inj in H1 as ->; [|done..]. apply utf8_inj in H2 as ->; [|done..].
  f_equal. auto.
Qed.

Definition pair_wf (x : str * str) : Prop :=
  (Forall valid_char x.1 ∧ Forall valid_char x.2) ∧ sized (utf8 x.1) ∧ sized (utf8 x.2).

Lemma projection_preimage_inj l k :
  Z.of_nat (length l) ≤ usize_MAX → Z.of_nat (length k) ≤ usize_MAX →
  Forall pair_wf l → Forall pair_wf k →
  projection_preimage l = projection_preimage k → l = k.
Proof.
  intros Hl Hk Fl Fk H. unfold projection_preimage in H.
  apply app_inj_1 in H as [_ H]; [|done].
  apply app_inj_1 in H as [H1 H2]; [|by rewrite !length_to_le_bytes].
  apply le_bytes_8_inj in H1; [|lia..]. apply Nat2Z.inj in H1.
  rewrite !projection_entries_parts in H2.
  assert (∀ m, Forall pair_wf m →
    Forall sized (concat (map (λ '(d, v), [utf8 d; utf8 v]) m))) as Hsz.
  { induction 1 as [|[d v] m (_ & ? & ?) _ IH]; cbn; [constructor|]. by repeat constructor. }
  assert (∀ m : list (str * str),
    length (concat (map (λ '(d, v), [utf8 d; utf8 v]) m)) = (2 * length m)%nat) as Hlen.
  { induction m as [|[d v] m IH]; cbn; [done|]. lia. }
  apply concat_pairs_inj; [eapply Forall_impl; [done|by intros ? []]..|].
  apply (content_parts_inj _ _ [] []); [auto..| |by rewrite !app_nil_r].
  rewrite !Hlen. lia.
Qed.

(** ** Search projection digests: theorems *)

Lemma id_from_str_pair_wf k v i : id_from_str k v = Ok i → Forall valid_char v ∧ sized (utf8 v).
Proof.
  intros (_ & d & -> & Hlen & Hhex)%id_from_str_ok.
  assert (Forall valid_char (id_prefix k) ∧ str_len (id_prefix k) ≤ 5) as [Hp Hpl].
  { split; [apply ascii_str_valid; by destruct k|by destruct k]. }
  split.
  - apply Forall_app. split; [done|]. apply Forall_forall. intros c Hc. rewrite forallb_forall in Hhex.
    apply list_elem_of_In in Hc. specialize (Hhex c Hc). left.
    unfold is_ascii_hexdigit, is_ascii_digit in Hhex.
    repeat match goal with H : (_ || _) = true |- _ => apply orb_true_iff in H as [H|H] end; bools; lia.
  - unfold sized. rewrite utf8_length, str_len_app, (ascii_str_len d Hhex), Hlen.
    unfold usize_MAX, ID_DIGEST_HEX_LEN. lia.
Qed.

Definition valid_pair (x : str * str) : Prop :=
  (∃ i, id_from_str DocumentId x.1 = Ok i) ∧ (∃ i, id_from_str ResumeVersionId x.2 = Ok i).

Lemma from_pairs_loop_ok pairs canonical ds vs out :
  ssorted ds → ssorted vs →
  from_pairs_loop pairs canonical ds vs = Ok out ↔
  out = canonical ++ pairs ∧ Forall valid_pair pairs ∧
  NoDup pairs.*1 ∧ NoDup pairs.*2 ∧
  Forall (λ d, d ∉ ds) pairs.*1 ∧ Forall (λ v, v ∉ vs) pairs.*2.
Proof.
  revert canonical ds vs. induction pairs as [|[d v] pairs IH]; intros canonical ds vs Hds Hvs; cbn.
  { rewrite app_nil_r. split; [intros [= ->]; split_and!; constructor|by intros (-> & _)]. }
  destruct (id_from_str DocumentId d) as [i|e] eqn:Ed; cbn.
  2: { split; [done|]. intros (_ & HF & _). inversion HF as [|?? [[i Hi] _]]. cbn in Hi. congruence. }
  destruct (id_from_str ResumeVersionId v) as [j|e] eqn:Ev; cbn.
  2: { split; [done|]. intros (_ & HF & _). inversion HF as [|?? [_ [i' Hi]]]. cbn in Hi. congruence. }
  destruct (bset_contains d ds) eqn:Cd.
  { apply bset_contains_spec in Cd; [|done]. split; [done|].
    intros (_ & _ & _ & _ & HF & _). inversion HF. done. }
  destruct (bset_contains v vs) eqn:Cv.
  { apply bset_contains_spec in Cv; [|done]. split; [done|].
    intros (_ & _ & _ & _ & _ & HF). inversion HF. done. }
  assert (d ∉ ds) as Hd by (rewrite <- bset_contains_spec by done; congruence).
  assert (v ∉ vs) as Hv by (rewrite <- bset_contains_spec by done; congruence).
  rewrite IH by (by apply bset_insert_sorted). rewrite <- app_assoc. cbn [app].
  rewrite !Forall_cons, !NoDup_cons, !Forall_forall. setoid_rewrite elem_of_bset_insert.
  assert (valid_pair (d, v)) by (split; cbn; eauto).
  split.
  - intros (-> & ? & ? & ? & Hd' & Hv'). split_and!; try done.
    + intros Hin. by destruct (Hd' d Hin); left.
    + intros Hin. by destruct (Hv' v Hin); left.
    + intros x Hx Hin. destruct (Hd' x Hx). by right.
    + intros x Hx Hin. destruct (Hv' x Hx). by right.
  - intros (-> & [_ ?] & [Hd1 ?] & [Hv1 ?] & [_ Hd2] & [_ Hv2]). split_and!; try done.
    + intros x Hx [->|Hin]; [done|]. by apply (Hd2 x).
    + intros x Hx [->|Hin]; [done|]. by apply (Hv2 x).
Qed.

(** A projection digest exists exactly for mappings of valid ids that are
    one-to-one: every document and every resume version occurs once. *)
Lemma search_projection_digest_ok_iff `{Sha256} pairs d :
  search_projection_digest_from_pairs pairs = Ok d ↔
  Forall valid_pair pairs ∧ NoDup pairs.*1 ∧ NoDup pairs.*2 ∧
  d = digest_of_preimage (projection_preimage (sort_pairs pairs)).
Proof.
  unfold search_projection_digest_from_pairs.
  destruct (from_pairs_loop pairs [] [] []) as [out|e] eqn:E; cbn [result_bind].
  - apply from_pairs_loop_ok in E; [|constructor..]. cbn [app] in E.
    destruct E as (-> & ? & ? & ? & _). split.
    + intros Hd. injection Hd as <-. by split_and!.
    + by intros (_ & _ & _ & ->).
  - split; [done|]. intros (H1 & H2 & H3 & _).
    assert (from_pairs_loop pairs [] [] [] = Ok pairs) as E'; [|congruence].
    apply from_pairs_loop_ok; [constructor..|]. split_and!; [done..| |].
    all: apply Forall_forall; intros x _; apply not_elem_of_nil.
Qed.

(** The order in which the pairs are given is irrelevant to the digest. *)
Theorem search_projection_digest_order_irrelevant `{Sha256} pairs pairs' d :
  pairs ≡ₚ pairs' →
  search_projection_digest_from_pairs pairs = Ok d →
  search_projection_digest_from_pairs pairs' = Ok d.
Proof.
  intros HP. rewrite !search_projection_digest_ok_iff. intros (H1 & H2 & H3 & ->).
  split_and!; [by rewrite <- HP..|]. unfold sort_pairs. by rewrite (sort_by_cmp_perm _ _ HP).
Qed.

Definition sample_pairs : list (str * str) :=
  [(lit "doc_00000000000000000000000000000002", lit "ver_00000000000000000000000000000001");
   (lit "doc_00000000000000000000000000000001", lit "ver_00000000000000000000000000000002")].

Lemma search_projection_digest_order_irrelevant_witness :
  ∃ d, @search_projection_digest_from_pairs toy_sha256 (reverse sample_pairs) = Ok d.
Proof.
  eexists.
  eapply (@search_projection_digest_order_irrelevant toy_sha256 sample_pairs (reverse sample_pairs)).
  - symmetry. apply reverse_Permutation.
  - vm_compute. reflexivity.
Defined.

(** The bytes that are hashed determine an accepted mapping up to order. *)
Lemma projection_bytes_binding pairs pairs' :
  Z.of_nat (length pairs) ≤ usize_MAX → Z.of_nat (length pairs') ≤ usize_MAX →
  Forall valid_pair pairs → Forall valid_pair pairs' →
  projection_preimage (sort_pairs pairs) = projection_preimage (sort_pairs pairs') ↔ pairs ≡ₚ pairs'.
Proof.
  intros Hl Hl' Hv Hv'. split; [|by intros HP; unfold sort_pairs; rewrite (sort_by_cmp_perm _ _ HP)].
  assert (∀ l, Forall valid_pair l → Forall pair_wf (sort_pairs l)) as Hwf.
  { intros l Hl0. unfold sort_pairs. rewrite sort_by_perm. eapply Forall_impl; [done|].
    intros [a b] [[i Hi] [j Hj]]. apply id_from_str_pair_wf in Hi, Hj. unfold pair_wf. tauto. }
  intros Hp%projection_preimage_inj; auto; [|by unfold sort_pairs; rewrite sort_by_perm..].
  rewrite <- (sort_by_perm cmp pairs), <- (sort_by_perm cmp pairs').
  unfold sort_pairs in Hp. by rewrite Hp.
Qed.

(** Two digests of accepted mappings agree exactly when the mappings do, or when their own
    encodings collide under SHA-256. *)
Lemma projection_digest_binding `{Sha256Laws} pairs pairs' d d' :
  Z.of_nat (length pairs) ≤ usize_MAX → Z.of_nat (length pairs') ≤ usize_MAX →
  search_projection_digest_from_pairs pairs = Ok d →
  search_projection_digest_from_pairs pairs' = Ok d' →
  d = d' ↔ pairs ≡ₚ pairs' ∨
    collide sha256 (projection_preimage (sort_pairs pairs)) (projection_preimage (sort_pairs pairs')).
Proof.
  intros Hl Hl'. rewrite !search_projection_digest_ok_iff. intros (H1 & _ & _ & ->) (H1' & _ & _ & ->).
  rewrite <- projection_bytes_binding by done. unfold collide. split.
  - intros Hd. injection Hd as Hd. apply hex_bytes_inj in Hd; [|apply sha256_bytes..].
    destruct (decide (projection_preimage (sort_pairs pairs) = projection_preimage (sort_pairs pairs')));
      [by left|by right].
  - intros [->|[_ Hs]]; [done|]. unfold digest_of_preimage. by rewrite Hs.
Qed.

(** C19: the digests of two accepted mappings are equal exactly when the mappings are the
    same up to order, or when the two byte strings that encode these very mappings are
    different and have the same SHA-256. *)
Theorem search_projection_digest_binding `{Sha256Laws} pairs pairs' d d' :
  Z.of_nat (length pairs) ≤ usize_MAX → Z.of_nat (length pairs') ≤ usize_MAX →
  search_projection_digest_from_pairs pairs = Ok d →
  search_projection_digest_from_pairs pairs' = Ok d' →
  d = d' ↔ pairs ≡ₚ pairs' ∨
    collide sha256 (projection_preimage (sort_pairs pairs)) (projection_preimage (sort_pairs pairs')).
Proof. apply projection_digest_binding. Qed.

(** Two mappings that are not the same, and their digests under the stand-in. *)
Definition swapped_pairs : list (str * str) :=
  [(lit "doc_00000000000000000000000000000001", lit "ver_00000000000000000000000000000001");
   (lit "doc_00000000000000000000000000000002", lit "ver_00000000000000000000000000000002")].
Definition toy_digest (pairs : list (str * str)) : ContentDigest :=
  match @search_projection_digest_from_pairs toy_sha256 pairs with Ok d => d | Err _ => MkDigest [] end.

Lemma search_projection_digest_binding_witness :
  toy_digest sample_pairs = toy_digest (reverse sample_pairs)
  ∧ ¬ (sample_pairs ≡ₚ swapped_pairs ∨
       collide (@sha256 toy_sha256) (projection_preimage (sort_pairs sample_pairs))
         (projection_preimage (sort_pairs swapped_pairs))).
Proof.
  split.
  - apply (@search_projection_digest_binding toy_sha256 toy_sha256_laws sample_pairs (reverse sample_pairs));
      [vm_compute; discriminate|vm_compute; discriminate|vm_compute; reflexivity|vm_compute; reflexivity|].
    left. symmetry. apply reverse_Permutation.
  - intros Hb. cut (toy_digest sample_pairs = toy_digest swapped_pairs); [vm_compute; discriminate|].
    apply (@search_projection_digest_binding toy_sha256 toy_sha256_laws sample_pairs swapped_pairs);
      [vm_compute; discriminate|vm_compute; discriminate|vm_compute; reflexivity|vm_compute; reflexivity|].
    exact Hb.
Defined.

(** ** Content-addressed ids: theorems *)

Lemma content_id_preimage_inj ns ps qs :
  Z.of_nat (length ps) ≤ usize_MAX → Z.of_nat (length qs) ≤ usize_MAX →
  Forall sized ps → Forall sized qs →
  content_id_preimage ns ps = content_id_preimage ns qs → ps = qs.
Proof.
  unfold content_id_preimage. intros Hp Hq Fp Fq H.
  do 2 apply app_inv_head in H. apply app_inj_1 in H as [H1 H2]; [|by rewrite !length_to_le_bytes].
  apply le_bytes_8_inj in H1; [|lia..].
  apply (content_parts_inj ps qs [] []); [done..|lia|by rewrite !app_nil_r].
Qed.

Definition wf_str (s : str) : Prop := Forall valid_char s ∧ str_len s ≤ usize_MAX.

Lemma wf_str_sized s : wf_str s → sized (utf8 s).
Proof. intros [_ H]. unfold sized. by rewrite utf8_length. Qed.

Lemma content_id_digest_inj `{Sha256Laws} ns ps qs :
  content_addressed_id_digest ns ps = content_addressed_id_digest ns qs →
  content_id_preimage ns ps = content_id_preimage ns qs ∨
  collide (λ x, take 16 (sha256 x)) (content_id_preimage ns ps) (content_id_preimage ns qs).
Proof.
  unfold content_addressed_id_digest. intros Hd.
  apply hex_bytes_inj in Hd; [|apply Forall_take, sha256_bytes..].
  destruct (decide (content_id_preimage ns ps = content_id_preimage ns qs)); [by left|by right].
Qed.

(** The parts that are hashed into a resume version id. *)
Definition version_bytes (d : StableId DocumentId) (r : StableId SourceRevisionId) (t : ContentDigest)
    (p s : str) : list Z :=
  content_id_preimage (lit "ResumeVersionId") (map utf8 [id_str d; id_str r; digest_str t; p; s]).

(** A resume version id determines its document, source revision,
    normalized text, parser version and schema version, unless the encodings of
    these very parts agree on the first 128 bits of SHA-256. *)
Theorem resume_version_id_binding `{Sha256Laws} d r t p s d' r' t' p' s' :
  Forall wf_str [id_str d; id_str r; digest_str t; p; s] →
  Forall wf_str [id_str d'; id_str r'; digest_str t'; p'; s'] →
  resume_version_id_from_content d r t p s = resume_version_id_from_content d' r' t' p' s' →
  (d = d' ∧ r = r' ∧ t = t' ∧ p = p' ∧ s = s') ∨
  collide (λ x, take 16 (sha256 x)) (version_bytes d r t p s) (version_bytes d' r' t' p' s').
Proof.
  intros Hw Hw' Hid. injection Hid as Hid.
  apply content_id_digest_inj in Hid as [Hid|]; [left|by right].
  assert (∀ ss, Forall wf_str ss → Forall sized (map utf8 ss)) as Hsz.
  { induction 1; cbn; constructor; auto using wf_str_sized. }
  apply content_id_preimage_inj in Hid;
    [|by vm_compute|by vm_compute|by apply (Hsz _ Hw)|by apply (Hsz _ Hw')].
  injection Hid as H1 H2 H3 H4 H5.
  repeat match goal with
  | H : Forall wf_str (_ :: _) |- _ => inversion H as [|?? [? _] ?]; clear H; subst
  end.
  apply utf8_inj in H1, H2, H3, H4, H5; [|done..].
  destruct d, d', r, r', t, t'; cbn in *; subst. split_and!; done.
Qed.

Lemma resume_version_id_binding_witness :
  let d : StableId DocumentId := MkId (lit "doc_00000000000000000000000000000001") in
  let r : StableId SourceRevisionId := MkId (lit "rev_00000000000000000000000000000001") in
  let t := MkDigest (lit "sha256:00") in
  (d = d ∧ r = r ∧ t = t ∧ lit "p1" = lit "p1" ∧ lit "s1" = lit "s1") ∨
  collide (λ x, take 16 (@sha256 toy_sha256 x)) (version_bytes d r t (lit "p1") (lit "s1"))
    (version_bytes d r t (lit "p1") (lit "s1")).
Proof.
  intros d r t.
  assert (Forall wf_str [id_str d; id_str r; digest_str t; lit "p1"; lit "s1"]) as Hwf.
  { assert (∀ u, ascii_str u && (str_len u <=? 1000) = true → wf_str u) as Hb.
    { intros u Hu. bools. split; [by apply ascii_str_valid|unfold usize_MAX; lia]. }
    repeat (apply Forall_cons_2; [apply Hb; vm_compute; reflexivity|]). apply Forall_nil_2. }
  exact (@resume_version_id_binding toy_sha256 toy_sha256_laws d r t (lit "p1") (lit "s1")
           d r t (lit "p1") (lit "s1") Hwf Hwf eq_refl).
Defined.
