(* ===== verification/Query.v ===== *)
(** * Query sets and search plans (crates/core-domain, crates/search-planner)

    The logical terms of a search query (words and quoted phrases), its
    normalization and semantic bounds, the shape buckets shared by the query
    set tooling, and the planner that turns a query into a [SearchPlan].
    Unicode NFKC is the [unicode-normalization] crate, a parameter. *)

From Stdlib Require Import ZArith String.
From stdpp Require Import prelude.
From S2P Require Import Prelude Collections Text.

Local Open Scope Z_scope.

Definition QUERY_SET_BUCKETS : list str :=
  [lit "single_term"; lit "and_2"; lit "and_3_5"; lit "and_6_16"; lit "field_filter";
   lit "hybrid"; lit "semantic"].
Definition QUERY_SET_MAX_QUERY_BYTES : Z := 4096.
Definition QUERY_SET_MAX_TERM_BYTES : Z := 256.
Definition QUERY_SET_MAX_TERMS : Z := 16.

Inductive QuerySetSourceKind := TraceSourceSearchV1.

Definition source_kind_as_str (k : QuerySetSourceKind) : str :=
  match k with TraceSourceSearchV1 => lit "trace_source_search_v1" end.

(** [FromStr]; the only error is [QuerySetSourceKindParseError::Invalid]. *)
Definition source_kind_from_str (value : str) : option QuerySetSourceKind :=
  if str_eqb value (lit "trace_source_search_v1") then Some TraceSourceSearchV1 else None.

(** ** Logical terms *)

Record QuerySetLogicalTerm := Term { value : str; quoted : bool }.

#[export] Instance QuerySetLogicalTerm_eq_dec : EqDecision QuerySetLogicalTerm.
Proof. solve_decision. Defined.

(** The straight double quote and the two curly ones. *)
Definition is_query_set_phrase_quote (c : char) : bool :=
  (c =? 34) || (c =? 0x201C) || (c =? 0x201D).

(** The [while let] loop of [query_set_logical_terms]: skip white space; after
    a quote take everything up to the next quote (or the end) as a trimmed
    phrase, dropping an empty one; otherwise take a word up to white space. *)
Fixpoint logical_terms_loop (fuel : nat) (s : str) : list QuerySetLogicalTerm :=
  match fuel with
  | O => []
  | S fuel =>
      match s with
      | [] => []
      | character :: rest =>
          if is_whitespace character then logical_terms_loop fuel rest
          else if is_query_set_phrase_quote character then
            let '(content, after) := span is_query_set_phrase_quote rest in
            let value := trim content in
            let terms := logical_terms_loop fuel (drop 1 after) in
            if is_empty value then terms else Term value true :: terms
          else
            let '(word, after) := span is_whitespace s in
            Term word false :: logical_terms_loop fuel after
      end
  end.

Definition query_set_logical_terms (query : str) : list QuerySetLogicalTerm :=
  logical_terms_loop (length query) query.

Section with_unicode.
Context `{Unicode}.

Definition is_query_set_explicit_boolean_operator (value : str) : bool :=
  str_in (trim_matches (λ ch, negb (is_alphanumeric ch)) value)
    [lit "AND"; lit "OR"; lit "NOT"].

Definition is_operator_term (t : QuerySetLogicalTerm) : bool :=
  negb (quoted t) && is_query_set_explicit_boolean_operator (value t).

(** The unquoted non-operators, then the phrases. *)
Definition searchable_terms (terms : list QuerySetLogicalTerm) : list QuerySetLogicalTerm :=
  List.filter
    (λ t, negb (quoted t) && negb (is_query_set_explicit_boolean_operator (value t))) terms
  ++ List.filter quoted terms.

Definition query_set_query_in_semantic_bounds (query : str) : bool :=
  let terms := query_set_logical_terms query in
  let searchable := searchable_terms terms in
  (str_len query <=? QUERY_SET_MAX_QUERY_BYTES)
  && negb (bool_decide (searchable = []))
  && (Z.of_nat (length searchable) <=? QUERY_SET_MAX_TERMS)
  && forallb (λ t, non_empty (value t) && (str_len (value t) <=? QUERY_SET_MAX_TERM_BYTES))
       searchable.

(** [format!("\"{value}\"")] for a phrase, the value itself for a word. *)
Definition render_term (t : QuerySetLogicalTerm) : str :=
  if quoted t then 34 :: value t ++ [34] else value t.

(** [term.value.split_whitespace().collect::<Vec<_>>().join(" ")]. *)
Definition collapse_whitespace (s : str) : str := join [32] (split_whitespace s).

(** The [for term in logical_terms] loop; [seen] is the [BTreeSet] of keys,
    consulted only when the query has no explicit boolean operator. *)
Fixpoint normalize_loop (has_explicit_boolean : bool) (seen : list (bool * str))
    (terms : list QuerySetLogicalTerm) : list QuerySetLogicalTerm :=
  match terms with
  | [] => []
  | term :: terms =>
      let value := collapse_whitespace (value term) in
      if is_empty value then normalize_loop has_explicit_boolean seen terms
      else
        let key := (quoted term, value) in
        if negb has_explicit_boolean && bset_contains key seen then
          normalize_loop has_explicit_boolean seen terms
        else
          Term value (quoted term)
          :: normalize_loop has_explicit_boolean
               (if has_explicit_boolean then seen else bset_insert key seen) terms
  end.

(** The terms kept from an NFKC-normalized query. *)
Definition normalized_terms (s : str) : list QuerySetLogicalTerm :=
  let logical_terms := query_set_logical_terms s in
  normalize_loop (existsb is_operator_term logical_terms) [] logical_terms.

Definition normalize_query_set_query (nfkc : str → str) (query : str) : option str :=
  let normalized := join [32] (map render_term (normalized_terms (nfkc query))) in
  if query_set_query_in_semantic_bounds normalized then Some normalized else None.

(** ** Shapes and buckets *)

Record QuerySetSampleShape := {
  term_count : Z;
  has_boolean : bool;
  has_location : bool;
  has_years : bool;
  has_degree : bool;
  has_skill : bool;
  has_phrase : bool;
}.

Definition query_set_contains_any_token (value : str) (tokens : list str) : bool :=
  existsb (λ token, contains token value) tokens.

Definition shape_from_query (query : str) : QuerySetSampleShape :=
  let lower := str_to_lowercase query in
  let terms := query_set_logical_terms query in
  {| term_count := Z.of_nat (length terms);
     has_boolean := existsb is_operator_term terms;
     has_location := query_set_contains_any_token lower
       [lit "beijing"; lit "shanghai"; lit "shenzhen"; lit "guangzhou"; lit "hangzhou";
        lit "chengdu"; lit "wuhan"; lit "北京"; lit "上海"; lit "深圳"; lit "广州"; lit "杭州";
        lit "成都"; lit "武汉"];
     has_years := existsb is_ascii_digit query;
     has_degree := query_set_contains_any_token lower
       [lit "bachelor"; lit "master"; lit "phd"; lit "doctor"; lit "degree"; lit "本科";
        lit "硕士"; lit "博士"; lit "学历"];
     has_skill := existsb (λ t, existsb is_alphabetic (value t)) terms;
     has_phrase := existsb quoted terms |}.

Definition bucket (self : QuerySetSampleShape) : str :=
  if has_boolean self then lit "hybrid"
  else if has_phrase self then lit "semantic"
  else if (2 <=? term_count self)
          && (has_location self || has_years self || has_degree self)
  then lit "field_filter"
  else if (0 <=? term_count self) && (term_count self <=? 1) then lit "single_term"
  else if term_count self =? 2 then lit "and_2"
  else if (3 <=? term_count self) && (term_count self <=? 5) then lit "and_3_5"
  else lit "and_6_16".

(** ** The planner *)

Record SearchPlan := { query_text : str; plan_terms : list str; plan_limit : Z }.

Inductive SearchPlanError := EmptyQuery | InvalidQueryBounds.

Definition MAX_LIMIT : Z := 100.

(** [usize::clamp]. *)
Definition clamp (x lo hi : Z) : Z := Z.max lo (Z.min x hi).

Definition plan_search (nfkc : str → str) (query : str) (limit : Z)
    : result SearchPlan SearchPlanError :=
  if is_empty (trim query) then Err EmptyQuery
  else
    let? query_text := ok_or (normalize_query_set_query nfkc query) InvalidQueryBounds in
    Ok {| query_text := query_text;
          plan_terms := split_whitespace query_text;
          plan_limit := clamp limit 1 MAX_LIMIT |}.

End with_unicode.

(** ** The loop's fuel is enough *)

Lemma logical_terms_loop_fuel n m s :
  (length s ≤ n)%nat → (length s ≤ m)%nat → logical_terms_loop n s = logical_terms_loop m s.
Proof.
  revert m s. induction n as [|n IH]; intros m s Hn Hm.
  { destruct s; [|cbn in Hn; lia]. by destruct m. }
  destruct m as [|m]; [destruct s; [done|cbn in Hm; lia]|].
  destruct s as [|c s]; [done|]. cbn [logical_terms_loop]. cbn in Hn, Hm.
  destruct (is_whitespace c) eqn:Ews; [apply IH; lia|].
  destruct (is_query_set_phrase_quote c).
  - destruct (span is_query_set_phrase_quote s) as [a b] eqn:E.
    assert (length b ≤ length s)%nat
      by (pose proof (span_length is_query_set_phrase_quote s) as Hl; by rewrite E in Hl).
    rewrite (IH m (drop 1 b)); [done|rewrite length_drop; lia..].
  - cbn [span]. rewrite Ews. destruct (span is_whitespace s) as [a b] eqn:E.
    assert (length b ≤ length s)%nat
      by (pose proof (span_length is_whitespace s) as Hl; by rewrite E in Hl).
    f_equal. apply IH; lia.
Qed.

(** The defining equations of the scanner, one per branch of its loop. *)
Lemma logical_terms_whitespace c s :
  is_whitespace c = true → query_set_logical_terms (c :: s) = query_set_logical_terms s.
Proof. intros Hc. unfold query_set_logical_terms. cbn [length logical_terms_loop]. by rewrite Hc. Qed.

Lemma logical_terms_quote c content after s :
  is_whitespace c = false → is_query_set_phrase_quote c = true →
  span is_query_set_phrase_quote s = (content, after) →
  query_set_logical_terms (c :: s) =
    (if is_empty (trim content) then [] else [Term (trim content) true])
    ++ query_set_logical_terms (drop 1 after).
Proof.
  intros H1 H2 H3. unfold query_set_logical_terms. cbn [length logical_terms_loop].
  rewrite H1, H2, H3. rewrite (logical_terms_loop_fuel (length s) (length (drop 1 after))).
  - by destruct (is_empty _).
  - pose proof (span_length is_query_set_phrase_quote s) as Hl. rewrite H3 in Hl. cbn in Hl.
    rewrite length_drop. lia.
  - done.
Qed.

Lemma logical_terms_word c s w after :
  is_whitespace c = false → is_query_set_phrase_quote c = false →
  span is_whitespace (c :: s) = (w, after) →
  query_set_logical_terms (c :: s) = Term w false :: query_set_logical_terms after.
Proof.
  intros H1 H2 H3. unfold query_set_logical_terms. cbn [length logical_terms_loop].
  rewrite H1, H2, H3. f_equal. apply logical_terms_loop_fuel; [|done].
  cbn [span] in H3. rewrite H1 in H3. destruct (span is_whitespace s) as [a b] eqn:E.
  injection H3 as <- <-. pose proof (span_length is_whitespace s) as Hl. by rewrite E in Hl.
Qed.

(** ** Well-formed terms and re-parsing *)

(** What the scanner yields: a phrase is non-empty, quote-free and has no
    white space at either end; a word is non-empty, contains no white space
    and does not start with a quote. *)
Definition term_wf (t : QuerySetLogicalTerm) : Prop :=
  value t ≠ [] ∧
  if quoted t
  then free_of is_query_set_phrase_quote (value t) ∧ trim (value t) = value t
  else free_of is_whitespace (value t) ∧
       (∀ c u, value t = c :: u → is_query_set_phrase_quote c = false).

Lemma quote_not_whitespace c : is_query_set_phrase_quote c = true → is_whitespace c = false.
Proof.
  unfold is_query_set_phrase_quote. intros [[H|H]%orb_true_iff|H]%orb_true_iff; bools; by subst.
Qed.

Lemma trim_idemp s : trim (trim s) = trim s.
Proof.
  unfold trim. apply trim_matches_id.
  - intros c t Ht. unfold trim_matches, trim_end_matches in Ht.
    destruct (trim_start_matches is_whitespace s) as [|d u] eqn:E; [done|].
    assert (is_whitespace d = false) as Hd by (by eapply trim_start_head).
    destruct (trim_end_split is_whitespace (d :: u)) as (r & Hr & HFr).
    unfold trim_end_matches in Hr. rewrite Ht in Hr. by injection Hr as -> _.
  - intros c t Ht. unfold trim_matches, trim_end_matches in Ht.
    apply (f_equal reverse) in Ht. rewrite reverse_involutive, reverse_snoc in Ht.
    by eapply trim_start_head.
Qed.

Lemma logical_terms_wf s : Forall term_wf (query_set_logical_terms s).
Proof.
  unfold query_set_logical_terms. generalize (length s). intros n. revert s.
  induction n as [|n IH]; intros s; cbn; [constructor|].
  destruct s as [|c s]; [constructor|].
  destruct (is_whitespace c) eqn:E1; [apply IH|].
  destruct (is_query_set_phrase_quote c) eqn:E2.
  - pose proof (span_free is_query_set_phrase_quote s) as Hf.
    destruct (span _ s) as [a b]; cbn in Hf.
    destruct (is_empty (trim a)) eqn:E3; [apply IH|]. constructor; [|apply IH].
    split; cbn; [by destruct (trim a)|]. split; [|apply trim_idemp].
    unfold free_of in *. rewrite Forall_forall in Hf |- *. intros x Hx.
    by apply Hf, (trim_matches_elem is_whitespace).
  - cbn [span]. rewrite E1. pose proof (span_free is_whitespace s) as Hf.
    destruct (span is_whitespace s) as [a b]; cbn in Hf. constructor; [|apply IH].
    split; cbn; [done|]. split; [by constructor|]. by intros ?? [= -> _].
Qed.

(** Rendering a list of well-formed terms and scanning it again is the
    identity: the printed query has exactly those terms. *)
Lemma logical_terms_render ts :
  Forall term_wf ts → query_set_logical_terms (join [32] (map render_term ts)) = ts.
Proof.
  induction 1 as [|t ts Ht Hts IH]; [done|].
  assert (∃ sep, join [32] (map render_term (t :: ts)) = render_term t ++ sep ∧
    (∀ c u, sep = c :: u → is_whitespace c = true) ∧ query_set_logical_terms sep = ts)
    as (sep & -> & Hsep & Hterms).
  { destruct ts as [|t' ts].
    - exists []. by rewrite app_nil_r.
    - exists (32 :: join [32] (map render_term (t' :: ts))). split_and!; [done| |].
      + by intros ?? [= <- _].
      + by rewrite logical_terms_whitespace. }
  destruct Ht as [Hne Ht]. destruct t as [v []]; cbn [quoted value] in Hne, Ht; unfold render_term; cbn [quoted value].
  - destruct Ht as [Hfree Htrim]. cbn [app]. rewrite <- app_assoc. cbn [app].
    rewrite (logical_terms_quote _ v (34 :: sep));
      [|done|done|by apply span_stop; [|intros ?? [= <- _]]].
    rewrite Htrim. cbn [drop]. rewrite drop_0, Hterms. by destruct v.
  - destruct Ht as [Hfree Hq]. destruct v as [|c v]; [done|]. cbn [app].
    apply free_of_cons in Hfree as Hc.
    rewrite (logical_terms_word _ _ (c :: v) sep); [by rewrite Hterms|tauto|by eapply Hq|].
    by apply (span_stop is_whitespace (c :: v)).
Qed.

(** ** Normalized terms *)

Definition collapse_term (t : QuerySetLogicalTerm) : QuerySetLogicalTerm :=
  Term (collapse_whitespace (value t)) (quoted t).

Lemma collapse_word w : word w → collapse_whitespace w = w.
Proof. intros Hw. unfold collapse_whitespace. by rewrite split_whitespace_word. Qed.

Lemma collapse_whitespace_elem s c : c ∈ collapse_whitespace s → c = 32 ∨ c ∈ s.
Proof.
  intros [->|(w & Hw & Hc)]%elem_of_join; [by left|right].
  unfold split_whitespace in Hw. apply list_elem_of_In, filter_In in Hw as [Hw _].
  apply list_elem_of_In in Hw. by eapply split_on_elem.
Qed.

Lemma collapse_whitespace_collapsed s :
  collapse_whitespace (collapse_whitespace s) = collapse_whitespace s.
Proof. unfold collapse_whitespace. by rewrite collapse_whitespace_idemp. Qed.

Lemma term_wf_collapse_nonempty t : term_wf t → collapse_whitespace (value t) ≠ [].
Proof.
  intros [Hne Ht] Hc. unfold collapse_whitespace in Hc.
  assert (split_whitespace (value t) = []) as Hs.
  { pose proof (split_whitespace_words (value t)) as HF.
    destruct (split_whitespace (value t)) as [|w ws]; [done|].
    inversion HF as [|?? [Hw _]]; subst. destruct w; [done|by destruct ws]. }
  apply split_whitespace_nil in Hs. destruct (quoted t).
  - destruct Ht as [_ Ht]. apply Hne. rewrite <- Ht. by apply trim_matches_nil.
  - destruct Ht as [Ht _]. destruct (value t) as [|c u]; [done|].
    apply free_of_cons in Ht as [Ht _]. inversion Hs; congruence.
Qed.

(** Joining words with single spaces leaves nothing to trim. *)
Lemma trim_join_words ws : Forall word ws → trim (join [32] ws) = join [32] ws.
Proof.
  intros Hws. apply trim_matches_id.
  - intros c t Hc. destruct Hws as [|w ws [Hne Hf] Hws]; [done|].
    destruct w as [|d w]; [done|]. apply free_of_cons in Hf as [Hd _].
    destruct ws; cbn in Hc; by injection Hc as <- _.
  - intros c t Hc. revert t Hc. induction Hws as [|w ws [Hne Hf] Hws IH]; intros t Hc.
    { by destruct t. }
    destruct ws as [|w' ws].
    + cbn in Hc. subst w. by apply free_of_app in Hf as [_ [? _]%free_of_cons].
    + change (join [32] (w :: w' :: ws)) with (w ++ 32 :: join [32] (w' :: ws)) in Hc.
      destruct (join [32] (w' :: ws)) as [|d u _] eqn:E using rev_ind.
      { inversion Hws as [|?? [Hw' _] _]; subst. destruct w'; [done|by destruct ws]. }
      assert (w ++ 32 :: u ++ [d] = (w ++ 32 :: u) ++ [d]) as E2 by by rewrite <- app_assoc.
      rewrite E2 in Hc. apply app_inj_tail in Hc as [_ <-]. by apply (IH u).
Qed.

Lemma collapse_term_wf t : term_wf t → term_wf (collapse_term t).
Proof.
  intros Hwf. split; cbn; [by apply term_wf_collapse_nonempty|].
  destruct Hwf as [Hne Ht]. destruct (quoted t).
  - destruct Ht as [Hf _]. split; [|apply trim_join_words, split_whitespace_words].
    unfold free_of in *. rewrite Forall_forall in Hf |- *.
    intros c [->|Hc]%collapse_whitespace_elem; [done|by apply Hf].
  - destruct Ht as [Hf Hq]. by rewrite collapse_word.
Qed.

Lemma is_operator_collapse `{Unicode} t :
  term_wf t → is_operator_term (collapse_term t) = is_operator_term t.
Proof.
  intros [Hne Ht]. unfold is_operator_term, collapse_term. cbn.
  destruct (quoted t); [done|]. cbn. destruct Ht as [Hf _]. by rewrite collapse_word.
Qed.

Lemma normalize_loop_sound hb seen ts t :
  ssorted seen → t ∈ normalize_loop hb seen ts →
  (∃ t0, t0 ∈ ts ∧ t = collapse_term t0) ∧
  (hb = false → (quoted t, value t) ∉ seen).
Proof.
  revert seen. induction ts as [|t0 ts IH]; intros seen Hs; cbn [normalize_loop].
  { by intros ?%elem_of_nil. }
  destruct (is_empty _) eqn:E1.
  { intros [(t1 & H1 & ->) H2]%IH; [|done]. split; [exists t1; set_solver|done]. }
  destruct (negb hb && _) eqn:E2.
  { intros [(t1 & H1 & ->) H2]%IH; [|done]. split; [exists t1; set_solver|done]. }
  intros [->|Ht]%elem_of_cons.
  - split; [exists t0; split; [left|done]|]. intros ->. cbn in E2 |- *.
    rewrite <- bset_contains_spec by done. by rewrite E2.
  - apply IH in Ht as [(t1 & H1 & ->) H2]; [|destruct hb; [done|by apply bset_insert_sorted]].
    split; [exists t1; set_solver|]. intros ->. specialize (H2 eq_refl). cbn in H2.
    rewrite elem_of_bset_insert in H2. set_solver.
Qed.

Lemma normalize_loop_NoDup seen ts :
  ssorted seen → NoDup (normalize_loop false seen ts).
Proof.
  revert seen. induction ts as [|t0 ts IH]; intros seen Hs; cbn [normalize_loop]; [constructor|].
  destruct (is_empty _); [by apply IH|]. cbn [negb andb].
  destruct (bset_contains _ _); [by apply IH|].
  assert (ssorted (bset_insert (quoted t0, collapse_whitespace (value t0)) seen)) as Hs'
    by by apply bset_insert_sorted.
  constructor; [|by apply IH]. intros [_ H]%normalize_loop_sound; [|done].
  apply H; [done|]. apply elem_of_bset_insert. by left.
Qed.

(** With an explicit operator every term is kept. *)
Lemma normalize_loop_boolean seen ts :
  Forall term_wf ts → normalize_loop true seen ts = map collapse_term ts.
Proof.
  induction 1 as [|t ts Ht Hts IH]; cbn [normalize_loop map]; [done|].
  destruct (is_empty _) eqn:E; [|cbn; by rewrite IH].
  by apply term_wf_collapse_nonempty in Ht; destruct (collapse_whitespace _).
Qed.

(** Terms that are collapsed, and distinct unless an operator is present,
    pass through unchanged. *)
Lemma normalize_loop_id hb seen ts :
  ssorted seen → Forall (λ t, term_wf t ∧ collapse_term t = t) ts →
  (hb = false → NoDup ts ∧ ∀ t, t ∈ ts → (quoted t, value t) ∉ seen) →
  normalize_loop hb seen ts = ts.
Proof.
  intros Hs HF. revert seen Hs. induction HF as [|t ts [Hwf Ht] HF IH]; intros seen Hs Hd; [done|].
  cbn [normalize_loop]. unfold collapse_term in Ht. destruct t as [v q]; cbn in *.
  injection Ht as Hv. rewrite Hv. pose proof (proj1 Hwf) as Hne. cbn in Hne.
  destruct v as [|c v]; [done|]. cbn [is_empty]. destruct hb; cbn [negb andb].
  - by rewrite IH.
  - destruct (Hd eq_refl) as [[Hnin Hnd]%NoDup_cons Hseen].
    destruct (bset_contains _ _) eqn:E.
    { apply bset_contains_spec in E; [|done]. destruct (Hseen (Term (c :: v) q)); [left|done]. }
    rewrite IH; [done|by apply bset_insert_sorted|]. intros _. split; [done|].
    intros t Hin. rewrite elem_of_bset_insert. intros [[= Hq' Hv']|?].
    + destruct t; cbn in *; by subst.
    + apply (Hseen t); [by right|done].
Qed.

Lemma normalized_terms_wf `{Unicode} s :
  Forall (λ t, term_wf t ∧ collapse_term t = t) (normalized_terms s).
Proof.
  apply Forall_forall. intros t [(t0 & Ht0 & ->) _]%normalize_loop_sound; [|constructor].
  pose proof (logical_terms_wf s) as Hwf. rewrite Forall_forall in Hwf.
  split; [by apply collapse_term_wf, Hwf|].
  unfold collapse_term; cbn [value quoted]. by rewrite collapse_whitespace_collapsed.
Qed.

(** The scanner reads a normalized query back as the normalized terms. *)
Lemma normalized_terms_scan `{Unicode} s :
  query_set_logical_terms (join [32] (map render_term (normalized_terms s))) = normalized_terms s.
Proof.
  apply logical_terms_render. eapply Forall_impl; [apply normalized_terms_wf|]. by intros t [? _].
Qed.

(** Normalization keeps the presence of operators. *)
Lemma normalized_terms_operator `{Unicode} s :
  existsb is_operator_term (normalized_terms s)
  = existsb is_operator_term (query_set_logical_terms s).
Proof.
  pose proof (logical_terms_wf s) as Hwf. unfold normalized_terms.
  destruct (existsb _ (query_set_logical_terms s)) eqn:E.
  - rewrite normalize_loop_boolean by done. rewrite existsb_exists in E |- *.
    destruct E as (t & Hin%list_elem_of_In & Ht). exists (collapse_term t). split.
    + apply list_elem_of_In, list_elem_of_fmap. eauto.
    + rewrite Forall_forall in Hwf. rewrite is_operator_collapse; auto.
  - apply not_true_is_false. intros (t & Hin%list_elem_of_In & Ht)%existsb_exists.
    apply normalize_loop_sound in Hin as [(t0 & Hin & ->) _]; [|constructor].
    rewrite Forall_forall in Hwf. rewrite is_operator_collapse in Ht by auto.
    apply not_true_iff_false in E. apply E, existsb_exists. exists t0.
    split; [by apply list_elem_of_In|done].
Qed.

Lemma normalized_terms_fixpoint `{Unicode} s :
  normalized_terms (join [32] (map render_term (normalized_terms s))) = normalized_terms s.
Proof.
  unfold normalized_terms at 1. rewrite normalized_terms_scan, normalized_terms_operator.
  apply normalize_loop_id; [constructor|apply normalized_terms_wf|].
  intros E. unfold normalized_terms. rewrite E. split; [apply normalize_loop_NoDup; constructor|].
  intros t _ ?%elem_of_nil. done.
Qed.

Lemma searchable_terms_elem `{Unicode} ts t :
  t ∈ searchable_terms ts ↔ t ∈ ts ∧ is_operator_term t = false.
Proof.
  unfold searchable_terms, is_operator_term.
  rewrite elem_of_app, !list_elem_of_In, !filter_In.
  destruct (quoted t), (is_query_set_explicit_boolean_operator (value t)); cbn; naive_solver.
Qed.

Section query_properties.
Context `{Unicode}.

(** What [query_set_query_in_semantic_bounds] promises of a query. *)
Lemma in_semantic_bounds_spec q :
  query_set_query_in_semantic_bounds q = true ↔
  str_len q ≤ QUERY_SET_MAX_QUERY_BYTES ∧
  (1 ≤ Z.of_nat (length (searchable_terms (query_set_logical_terms q))) ≤ QUERY_SET_MAX_TERMS) ∧
  ∀ t, t ∈ query_set_logical_terms q → is_operator_term t = false →
       str_len (value t) ≤ QUERY_SET_MAX_TERM_BYTES.
Proof.
  unfold query_set_query_in_semantic_bounds.
  rewrite !andb_true_iff, negb_true_iff, bool_decide_eq_false, !Z.leb_le, forallb_forall.
  assert (∀ l : list QuerySetLogicalTerm, l ≠ [] ↔ 1 ≤ Z.of_nat (length l)) as Hne.
  { intros []; cbn; [split; [done|lia]|split; [lia|done]]. }
  rewrite Hne. split.
  - intros [[[H1 H2] H3] H4]. split_and!; [done..|]. intros t Hin Hop.
    specialize (H4 t). rewrite andb_true_iff, Z.leb_le in H4. apply H4.
    by apply list_elem_of_In, searchable_terms_elem.
  - intros (H1 & [H2 H3] & H4). split_and!; [done..|].
    intros t [Hin Hop]%list_elem_of_In%searchable_terms_elem.
    rewrite andb_true_iff, Z.leb_le, non_empty_spec. split; [|by apply H4].
    pose proof (logical_terms_wf q) as Hwf. rewrite Forall_forall in Hwf. by apply Hwf.
Qed.

(** C32: the functional contract of [normalize_query_set_query]: an accepted
    query's text scans back to exactly the normalized terms of the NFKC input,
    those terms are pairwise distinct unless the query carries an explicit
    boolean operator, at most 4096 bytes are returned, and between 1 and 16
    searchable terms of at most 256 bytes each remain. *)
Theorem normalize_query_set_query_spec (nfkc : str → str) query out :
  normalize_query_set_query nfkc query = Some out →
  query_set_logical_terms out = normalized_terms (nfkc query) ∧
  (NoDup (query_set_logical_terms out) ∨
   existsb is_operator_term (query_set_logical_terms out) = true) ∧
  str_len out ≤ 4096 ∧
  (1 ≤ Z.of_nat (length (searchable_terms (query_set_logical_terms out))) ≤ 16) ∧
  (∀ t, t ∈ query_set_logical_terms out → is_operator_term t = false → str_len (value t) ≤ 256).
Proof.
  unfold normalize_query_set_query. case_match eqn:E; intros [= <-].
  rewrite in_semantic_bounds_spec in E. split; [apply normalized_terms_scan|].
  split; [|exact E]. rewrite normalized_terms_scan.
  destruct (existsb is_operator_term (normalized_terms (nfkc query))) eqn:Eop; [by right|left].
  rewrite normalized_terms_operator in Eop. unfold normalized_terms. rewrite Eop.
  apply normalize_loop_NoDup. constructor.
Qed.

(** Normalization is idempotent on its accepted outputs that are
    NFKC-stable: normalizing an accepted query again returns it unchanged. *)
Theorem normalize_query_set_query_idempotent (nfkc : str → str) query out :
  normalize_query_set_query nfkc query = Some out → nfkc out = out →
  normalize_query_set_query nfkc out = Some out.
Proof.
  unfold normalize_query_set_query. case_match eqn:E; intros [= <-] ->.
  by rewrite normalized_terms_fixpoint, E.
Qed.

Lemma normalize_query_set_query_spec_aux (nfkc : str → str) query out :
  normalize_query_set_query nfkc query = Some out →
  out = join [32] (map render_term (normalized_terms (nfkc query))) ∧
  normalized_terms (nfkc query) ≠ [].
Proof.
  unfold normalize_query_set_query. case_match eqn:E; intros [= <-]. split; [done|].
  rewrite in_semantic_bounds_spec, normalized_terms_scan in E. destruct E as (_ & [Hl _] & _).
  destruct (normalized_terms (nfkc query)); [cbn in Hl; lia|done].
Qed.

(** An accepted normalized query is not blank. *)
Lemma normalized_not_blank s :
  normalized_terms s ≠ [] →
  ¬ Forall (λ c, is_whitespace c = true) (join [32] (map render_term (normalized_terms s))).
Proof.
  intros Hne Hws. apply Hne. rewrite <- normalized_terms_scan.
  induction Hws as [|c u Hc Hu IH]; [done|]. by rewrite logical_terms_whitespace.
Qed.

(** Every branch of [plan_search]: a blank query is [EmptyQuery]; otherwise
    a query that normalizes is planned, with the normalized text, its
    non-empty white-space separated words as terms and a limit clamped to 1..100; any other query is
    [InvalidQueryBounds]. *)
Theorem plan_search_spec (nfkc : str → str) query limit :
  (Forall (λ c, is_whitespace c = true) query → plan_search nfkc query limit = Err EmptyQuery) ∧
  (¬ Forall (λ c, is_whitespace c = true) query →
   match normalize_query_set_query nfkc query with
   | None => plan_search nfkc query limit = Err InvalidQueryBounds
   | Some text => ∃ plan, plan_search nfkc query limit = Ok plan ∧
       query_text plan = text ∧ plan_terms plan ≠ [] ∧ Forall word (plan_terms plan) ∧
       1 ≤ plan_limit plan ≤ 100 ∧ (1 ≤ limit ≤ 100 → plan_limit plan = limit)
   end).
Proof.
  unfold plan_search. split; intros Hq.
  { apply (trim_matches_nil is_whitespace) in Hq. unfold trim. by rewrite Hq. }
  assert (is_empty (trim query) = false) as ->.
  { destruct (trim query) eqn:E; [|done]. destruct Hq. by apply (trim_matches_nil is_whitespace). }
  destruct (normalize_query_set_query nfkc query) as [text|] eqn:E; [|done].
  eexists. split; [reflexivity|]. cbn [query_text plan_terms plan_limit].
  split; [done|]. split; [|split; [apply split_whitespace_words|unfold clamp, MAX_LIMIT; lia]].
  intros Hnil%split_whitespace_nil. pose proof E as E'.
  apply normalize_query_set_query_spec_aux in E as [E Hne]. subst text.
  by apply normalized_not_blank in Hnil.
Qed.

(** The planner never plans a query outside the shared semantic bounds,
    and replanning the text of a plan (NFKC-stable text) yields the same plan:
    the query sent to the index is a fixed point of planning. *)
Theorem plan_search_stable (nfkc : str → str) query limit plan :
  plan_search nfkc query limit = Ok plan → nfkc (query_text plan) = query_text plan →
  query_set_query_in_semantic_bounds (query_text plan) = true ∧
  plan_search nfkc (query_text plan) (plan_limit plan) = Ok plan.
Proof.
  unfold plan_search. case_match eqn:Eq; [done|].
  destruct (normalize_query_set_query nfkc query) as [text|] eqn:E; [|done].
  intros [= <-]. cbn [query_text plan_limit]. intros Hn.
  apply normalize_query_set_query_spec_aux in E as E'. destruct E' as [Htext Hne].
  assert (query_set_query_in_semantic_bounds text = true) as Hb.
  { revert E. unfold normalize_query_set_query. by case_match; intros [= <-]. }
  split; [done|].
  assert (is_empty (trim text) = false) as ->.
  { destruct (trim text) eqn:Et; [|done]. apply (trim_matches_nil is_whitespace) in Et.
    subst text. by apply normalized_not_blank in Et. }
  assert (normalize_query_set_query nfkc text = Some text) as ->.
  { unfold normalize_query_set_query. rewrite Hn. subst text.
    by rewrite normalized_terms_fixpoint, Hb. }
  cbn. do 2 f_equal. unfold clamp, MAX_LIMIT. lia.
Qed.

Lemma searchable_terms_no_operator ts :
  existsb is_operator_term ts = false → length (searchable_terms ts) = length ts.
Proof.
  unfold searchable_terms. rewrite length_app.
  induction ts as [|t ts IH]; cbn [List.filter existsb length]; [done|].
  intros [Ht Hts]%orb_false_iff. specialize (IH Hts). unfold is_operator_term in Ht.
  destruct (quoted t); cbn [negb andb length] in Ht |- *; [lia|]. rewrite Ht. cbn [negb length]. lia.
Qed.

(** Each conjunct relates a concrete label to a range of counts. *)
Ltac label_cases :=
  split_and!; split; intros HL; first
    [ discriminate HL | by destruct HL | reflexivity
    | destruct HL; exfalso; bools; lia | split; [reflexivity|bools; lia] ].

(** The bucket of a query in semantic bounds tells its shape: it is one of
    the seven published labels; the [and_*] labels and [single_term] are given
    exactly when the query has no operator, no phrase and (beyond one term) no
    field hint, with the term count the label advertises. *)
Theorem bucket_of_bounded_query query :
  query_set_query_in_semantic_bounds query = true →
  let shape := shape_from_query query in
  let n := term_count shape in
  let plain := negb (has_boolean shape) && negb (has_phrase shape) &&
    negb ((2 <=? n) && (has_location shape || has_years shape || has_degree shape)) in
  bucket shape ∈ QUERY_SET_BUCKETS ∧
  (bucket shape = lit "single_term" ↔ plain = true ∧ n = 1) ∧
  (bucket shape = lit "and_2" ↔ plain = true ∧ n = 2) ∧
  (bucket shape = lit "and_3_5" ↔ plain = true ∧ 3 ≤ n ≤ 5) ∧
  (bucket shape = lit "and_6_16" ↔ plain = true ∧ 6 ≤ n ≤ 16).
Proof.
  intros Hb shape n plain. apply in_semantic_bounds_spec in Hb as (_ & Hn & _).
  assert (has_boolean shape = false → 1 ≤ n ≤ 16) as Hcount.
  { intros Hop. change (1 ≤ Z.of_nat (length (query_set_logical_terms query)) ≤ 16).
    by rewrite <- (searchable_terms_no_operator (query_set_logical_terms query)). }
  split.
  { clearbody shape. unfold bucket. apply str_in_spec. repeat case_match; reflexivity. }
  subst plain. unfold bucket. clearbody shape. subst n.
  destruct (has_boolean shape); [label_cases|]. specialize (Hcount eq_refl).
  destruct (has_phrase shape); [label_cases|].
  destruct ((2 <=? _) && _); [label_cases|]. cbn [negb andb].
  destruct (_ && _) eqn:E1; [label_cases|].
  destruct (_ =? _) eqn:E2; [label_cases|].
  destruct (_ && (_ <=? 5)) eqn:E3; label_cases.
Qed.

End query_properties.

(** ** Concrete queries *)

Definition sample_query : str := lit "  Rust “data  base” 北京 Rust ".
Definition sample_normalized : str :=
  lit "Rust " ++ [34] ++ lit "data base" ++ [34] ++ lit " 北京".

Lemma normalize_query_set_query_spec_witness :
  normalize_query_set_query (H:=sample_unicode) id sample_query = Some sample_normalized ∧
  query_set_logical_terms sample_normalized
    = normalized_terms (H:=sample_unicode) (id sample_query).
Proof.
  split; [vm_compute; reflexivity|].
  apply (normalize_query_set_query_spec (H:=sample_unicode) id sample_query).
  vm_compute; reflexivity.
Defined.

Lemma normalize_query_set_query_idempotent_witness :
  normalize_query_set_query (H:=sample_unicode) id sample_normalized = Some sample_normalized.
Proof.
  apply (normalize_query_set_query_idempotent (H:=sample_unicode) id sample_query);
    vm_compute; reflexivity.
Defined.

Lemma plan_search_stable_witness :
  plan_search (H:=sample_unicode) id sample_normalized 100
  = Ok {| query_text := sample_normalized;
          plan_terms := split_whitespace sample_normalized; plan_limit := 100 |}.
Proof.
  apply (plan_search_stable (H:=sample_unicode) id sample_query 500
    {| query_text := sample_normalized;
       plan_terms := split_whitespace sample_normalized; plan_limit := 100 |});
    vm_compute; reflexivity.
Defined.

Lemma plan_search_spec_witness :
  plan_search (H:=sample_unicode) id (lit "  ") 5 = Err EmptyQuery.
Proof. apply plan_search_spec. vm_compute. repeat constructor. Defined.

Lemma bucket_of_bounded_query_witness :
  bucket (shape_from_query (H:=sample_unicode) (lit "rust tokio grpc")) = lit "and_3_5".
Proof.
  apply (bucket_of_bounded_query (H:=sample_unicode) (lit "rust tokio grpc"));
    [vm_compute; reflexivity|]. vm_compute. repeat split; discriminate.
Defined.
