(* ===== verification/Vocabulary.v ===== *)
(** * Controlled vocabularies (crates/rank-fusion)

    Parsing of degree levels and school tiers, and the normalization of skills,
    majors, companies, titles, locations and certificates to the canonical
    spellings stored in profiles and compared by filters. *)

From Stdlib Require Import ZArith String.
From stdpp Require Import prelude.
From S2P Require Import Prelude Collections Text.

Local Open Scope Z_scope.

(** ** Degree levels and school tiers *)

Inductive DegreeLevel := HighSchool | Associate | Bachelor | Master | Doctor.

Inductive SchoolTier := Tier985 | Tier211 | DoubleFirstClass | Overseas | Regular | Unknown.

#[export] Instance DegreeLevel_eq_dec : EqDecision DegreeLevel.
Proof. solve_decision. Defined.
#[export] Instance SchoolTier_eq_dec : EqDecision SchoolTier.
Proof. solve_decision. Defined.

(** The derived [Ord]: declaration order. *)
Definition degree_index (d : DegreeLevel) : N :=
  match d with HighSchool => 0 | Associate => 1 | Bachelor => 2 | Master => 3 | Doctor => 4 end.
Definition tier_index (t : SchoolTier) : N :=
  match t with
  | Tier985 => 0 | Tier211 => 1 | DoubleFirstClass => 2 | Overseas => 3 | Regular => 4
  | Unknown => 5
  end.

#[export] Instance DegreeLevel_cmp : Cmp DegreeLevel :=
  λ x y, N.compare (degree_index x) (degree_index y).
#[export] Instance SchoolTier_cmp : Cmp SchoolTier :=
  λ x y, N.compare (tier_index x) (tier_index y).
#[export] Instance DegreeLevel_cmp_laws : CmpLaws DegreeLevel.
Proof. apply cmp_laws_inj. by intros [] []. Qed.
#[export] Instance SchoolTier_cmp_laws : CmpLaws SchoolTier.
Proof. apply cmp_laws_inj. by intros [] []. Qed.

(** The arms of the [match] before and after the guarded [b.e.] arm. *)
Definition degree_table_low : list (list str * DegreeLevel) :=
  [([lit "highschool"; lit "高中"; lit "高中学历"], HighSchool);
   ([lit "associate"; lit "associatedegree"; lit "college"; lit "大专"; lit "大专学历"; lit "专科";
     lit "专科学历"], Associate);
   ([lit "bachelor"; lit "undergraduate"; lit "bs"; lit "ba"; lit "btech"; lit "beng";
     lit "本科"; lit "大学本科"; lit "本科生"; lit "学士"; lit "学士学位"], Bachelor)].

Definition degree_table_high : list (list str * DegreeLevel) :=
  [([lit "master"; lit "ms"; lit "ma"; lit "mba"; lit "msc"; lit "meng"; lit "mtech";
     lit "mphil"; lit "硕士"; lit "硕士研究生"; lit "硕士学位"; lit "研究生"], Master);
   ([lit "doctor"; lit "doctorate"; lit "phd"; lit "博士"; lit "博士研究生"; lit "博士学位";
     lit "博士生"], Doctor)].

Definition degree_parse (value : str) : option DegreeLevel :=
  let lowered := to_ascii_lowercase (trim value) in
  let dotted_bachelor_engineering :=
    str_eqb (concat (split_whitespace lowered)) (lit "b.e.") in
  let compact := remove_chars [32; 46; 45; 95] lowered in
  match str_match compact degree_table_low with
  | Some level => Some level
  | None =>
      if str_eqb compact (lit "be") && dotted_bachelor_engineering then Some Bachelor
      else str_match compact degree_table_high
  end.

Definition degree_canonical (self : DegreeLevel) : str :=
  match self with
  | HighSchool => lit "high_school"
  | Associate => lit "associate"
  | Bachelor => lit "bachelor"
  | Master => lit "master"
  | Doctor => lit "doctor"
  end.

Definition school_tier_table : list (list str * SchoolTier) :=
  [([lit "985"; lit "project985"; lit "985project"; lit "985工程"; lit "c9league"], Tier985);
   ([lit "211"; lit "project211"; lit "211project"; lit "211工程"], Tier211);
   ([lit "doublefirstclass"; lit "doublefirstclassuniversity"; lit "双一流"; lit "双一流建设高校";
     lit "双一流建设大学"; lit "双一流高校"; lit "双一流院校"], DoubleFirstClass);
   ([lit "overseas"; lit "oversea"; lit "foreign"; lit "foreignuniversity";
     lit "international"; lit "internationaluniversity"; lit "ivyleague";
     lit "russellgroup"; lit "海外"; lit "国外"; lit "海外高校"; lit "海外院校"], Overseas);
   ([lit "regular"; lit "regularuniversity"; lit "ordinary"; lit "ordinaryuniversity";
     lit "ordinarycollege"; lit "normal"; lit "普通"; lit "普通高校"; lit "普通院校";
     lit "普通本科"], Regular);
   ([lit "unknown"], Unknown)].

Definition tier_canonical (self : SchoolTier) : str :=
  match self with
  | Tier985 => lit "985"
  | Tier211 => lit "211"
  | DoubleFirstClass => lit "double_first_class"
  | Overseas => lit "overseas"
  | Regular => lit "regular"
  | Unknown => lit "unknown"
  end.

(** ** Tables of canonical spellings *)

Definition skill_table : list (list str * str) :=
  [([lit "k8s"; lit "kubernetes"], lit "kubernetes");
   ([lit "golang"; lit "go"], lit "go");
   ([lit "postgres"; lit "postgresql"], lit "postgresql");
   ([lit "nodejs"; lit "node"], lit "node.js");
   ([lit "reactjs"; lit "react"], lit "react");
   ([lit "vuejs"; lit "vue"], lit "vue.js");
   ([lit "ts"; lit "typescript"], lit "typescript");
   ([lit "js"; lit "javascript"], lit "javascript");
   ([lit "sklearn"; lit "scikitlearn"], lit "scikit-learn");
   ([lit "pytorch"], lit "pytorch");
   ([lit "tensorflow"], lit "tensorflow");
   ([lit "graphql"], lit "graphql");
   ([lit "amazonwebservices"; lit "aws"], lit "aws");
   ([lit "microsoftazure"; lit "azure"], lit "azure");
   ([lit "googlecloudplatform"; lit "googlecloud"; lit "gcp"], lit "gcp");
   ([lit "terraform"], lit "terraform");
   ([lit "ansible"], lit "ansible");
   ([lit "jenkins"], lit "jenkins");
   ([lit "gitlabci"; lit "gitlabcicd"], lit "gitlab ci");
   ([lit "apachekafka"; lit "kafka"], lit "kafka");
   ([lit "apacheflink"; lit "flink"], lit "flink");
   ([lit "elasticsearch"; lit "elastic"], lit "elasticsearch");
   ([lit "mongodb"], lit "mongodb");
   ([lit "snowflake"], lit "snowflake")].

Definition major_table : list (list str * str) :=
  [([lit "computerscience"; lit "计算机科学"; lit "计算机科学与技术"], lit "computer_science");
   ([lit "softwareengineering"; lit "软件工程"], lit "software_engineering");
   ([lit "datascience"; lit "数据科学"], lit "data_science");
   ([lit "informationsystem"; lit "informationsystems";
     lit "信息系统"], lit "information_systems");
   ([lit "electronicengineering"; lit "electronicsengineering"; lit "电子工程";
     lit "电子信息工程"], lit "electronic_engineering");
   ([lit "mathematics"; lit "math"; lit "数学"], lit "mathematics");
   ([lit "statistics"; lit "statistic"; lit "统计"; lit "统计学"], lit "statistics");
   ([lit "finance"; lit "金融"; lit "金融学"], lit "finance");
   ([lit "economics"; lit "economic"; lit "经济"; lit "经济学"], lit "economics");
   ([lit "businessadministration"; lit "工商管理"], lit "business_administration");
   ([lit "artificialintelligence"; lit "人工智能"], lit "artificial_intelligence");
   ([lit "computerengineering"; lit "计算机工程"], lit "computer_engineering");
   ([lit "cybersecurity"; lit "网络安全"; lit "信息安全"], lit "cybersecurity");
   ([lit "networkengineering"; lit "网络工程"], lit "network_engineering");
   ([lit "communicationengineering"; lit "communicationsengineering";
     lit "通信工程"], lit "communication_engineering");
   ([lit "mechanicalengineering"; lit "机械工程"], lit "mechanical_engineering");
   ([lit "automation"; lit "自动化"], lit "automation");
   ([lit "accounting"; lit "accountancy"; lit "会计"; lit "会计学"], lit "accounting");
   ([lit "marketing"; lit "市场营销"], lit "marketing");
   ([lit "humanresources"; lit "humanresourcemanagement";
     lit "人力资源管理"], lit "human_resources")].

Definition title_table : list (list str * str) :=
  [([lit "senior_backend_engineer"; lit "staff_backend_engineer"; lit "backend_developer";
     lit "backend_engineer"; lit "后端工程师"; lit "高级后端工程师"], lit "backend_engineer");
   ([lit "product_manager"; lit "产品经理"], lit "product_manager");
   ([lit "frontend_engineer"; lit "front_end_engineer"; lit "staff_frontend_engineer";
     lit "前端工程师"], lit "frontend_engineer");
   ([lit "data_scientist"; lit "数据科学家"], lit "data_scientist");
   ([lit "devops_engineer"; lit "dev_ops_engineer"], lit "devops_engineer");
   ([lit "engineering_manager"; lit "工程经理"], lit "engineering_manager")].

Definition location_table : list (list str * str) :=
  [([lit "shanghai"; lit "上海"; lit "上海市"], lit "shanghai");
   ([lit "hangzhou"; lit "杭州"; lit "杭州市"], lit "hangzhou");
   ([lit "shenzhen"; lit "深圳"; lit "深圳市"], lit "shenzhen");
   ([lit "beijing"; lit "北京"; lit "北京市"], lit "beijing");
   ([lit "guangzhou"; lit "广州"; lit "广州市"], lit "guangzhou");
   ([lit "suzhou"; lit "苏州"; lit "苏州市"], lit "suzhou");
   ([lit "nanjing"; lit "南京"; lit "南京市"], lit "nanjing");
   ([lit "chengdu"; lit "成都"; lit "成都市"], lit "chengdu");
   ([lit "wuhan"; lit "武汉"; lit "武汉市"], lit "wuhan");
   ([lit "chongqing"; lit "重庆"; lit "重庆市"], lit "chongqing");
   ([lit "tianjin"; lit "天津"; lit "天津市"], lit "tianjin");
   ([lit "xian"; lit "西安"; lit "西安市"], lit "xian");
   ([lit "changsha"; lit "长沙"; lit "长沙市"], lit "changsha");
   ([lit "hefei"; lit "合肥"; lit "合肥市"], lit "hefei");
   ([lit "qingdao"; lit "青岛"; lit "青岛市"], lit "qingdao");
   ([lit "hongkong"; lit "hongkongsar"; lit "香港"; lit "香港特别行政区"], lit "hong_kong");
   ([lit "taipei"; lit "台北"; lit "台北市"], lit "taipei");
   ([lit "singapore"; lit "新加坡"], lit "singapore");
   ([lit "sanfrancisco"; lit "sanfranciscobayarea"; lit "sfbayarea";
     lit "bayarea"], lit "san_francisco");
   ([lit "sanjose"], lit "san_jose");
   ([lit "newyork"; lit "newyorkcity"; lit "nyc"; lit "纽约"; lit "纽约市"], lit "new_york");
   ([lit "losangeles"; lit "la"], lit "los_angeles");
   ([lit "seattle"], lit "seattle");
   ([lit "boston"], lit "boston");
   ([lit "austin"], lit "austin");
   ([lit "toronto"], lit "toronto");
   ([lit "vancouver"], lit "vancouver");
   ([lit "tokyo"; lit "东京"], lit "tokyo");
   ([lit "london"; lit "伦敦"], lit "london");
   ([lit "berlin"], lit "berlin");
   ([lit "paris"; lit "巴黎"], lit "paris");
   ([lit "remote"; lit "远程"], lit "remote")].

Definition certificate_table : list (list str * str) :=
  [([lit "aws_certified_solutions_architect"; lit "aws_solutions_architect_associate";
     lit "aws_solutions_architect_professional"; lit "saa_c02";
     lit "saa_c03"], lit "aws_solutions_architect");
   ([lit "aws_certified_developer"; lit "aws_developer_associate"; lit "dva_c01";
     lit "dva_c02"], lit "aws_developer");
   ([lit "az_104"], lit "azure_administrator");
   ([lit "azure_developer"; lit "azure_developer_associate";
     lit "az_204"], lit "azure_developer");
   ([lit "certified_kubernetes_administrator"], lit "cka");
   ([lit "certified_kubernetes_application_developer"], lit "ckad");
   ([lit "certified_kubernetes_security_specialist"], lit "cks");
   ([lit "hashicorp_certified_terraform_associate";
     lit "terraform_associate"], lit "hashicorp_terraform_associate");
   ([lit "google_associate_cloud_engineer"; lit "google_cloud_associate_cloud_engineer";
     lit "gcp_associate_cloud_engineer"], lit "gcp_associate_cloud_engineer");
   ([lit "cfa_level_i"; lit "cfa_level_1"], lit "cfa_level_1");
   ([lit "red_hat_certified_system_administrator"], lit "rhcsa");
   ([lit "注册会计师"], lit "cpa")].

Definition company_suffixes : list str :=
  [lit " co., ltd."; lit " co., ltd"; lit " co. ltd."; lit " co. ltd"; lit " co ltd";
   lit " company limited"; lit " pte. ltd."; lit " pte. ltd"; lit " pte ltd";
   lit " private limited"; lit " incorporated"; lit " corporation"; lit " limited";
   lit " company"; lit " gmbh"; lit " s.a."; lit " s.a"; lit " sa"; lit " inc."; lit " inc";
   lit " corp."; lit " corp"; lit " ltd."; lit " ltd"; lit " llc"; lit " co."; lit " co"].

Definition company_suffixes_zh : list str :=
  [lit "有限责任公司"; lit "股份有限公司"; lit "有限合伙"; lit "合伙企业"; lit "有限公司";
   lit "公司"].

(** ** Normalization *)

Definition normalize_dedupe_value (value : str) : str :=
  to_ascii_lowercase (join [32] (split_whitespace value)).

Definition normalize_name (name : str) : str := normalize_dedupe_value name.
Definition normalize_school (school : str) : str := normalize_dedupe_value school.

(** The [for suffix in ..] loops: cut the first suffix that matches, trim, stop. *)
Fixpoint strip_first_suffix (suffixes : list str) (value : str) : str :=
  match suffixes with
  | [] => value
  | suffix :: suffixes =>
      match strip_suffix suffix value with
      | Some value => trim value
      | None => strip_first_suffix suffixes value
      end
  end.

Definition normalize_company (company : str) : str :=
  strip_first_suffix company_suffixes_zh
    (strip_first_suffix company_suffixes (normalize_dedupe_value company)).

Section with_unicode.
Context `{Unicode}.

Definition tier_parse (value : str) : option SchoolTier :=
  let lowered := to_ascii_lowercase (trim value) in
  let compact := List.filter is_alphanumeric lowered in
  str_match compact school_tier_table.

(** [s.split(|c| !c.is_alphanumeric()).filter(non-empty).join("_")]. *)
Definition snake_words (s : str) : str :=
  join [95] (List.filter non_empty (split_on (λ c, negb (is_alphanumeric c)) s)).

Definition normalize_skill (skill : str) : str :=
  let normalized := normalize_dedupe_value skill in
  let compact := List.filter is_alphanumeric normalized in
  default normalized (str_match compact skill_table).

Definition normalize_major (major : str) : str :=
  let value := str_to_lowercase (trim major) in
  let compact := remove_chars [32; 45; 95] value in
  default (snake_words value) (str_match compact major_table).

Definition normalize_title (title : str) : str :=
  let normalized := snake_words (str_to_lowercase (trim title)) in
  default normalized (str_match normalized title_table).

Definition normalize_certificate (certificate : str) : str :=
  let normalized := snake_words (str_to_lowercase (trim certificate)) in
  default normalized (str_match normalized certificate_table).

(** The separators: , ， ; ； | / \ 、 *)
Definition is_location_separator (c : char) : bool :=
  existsb (Z.eqb c) [44; 0xFF0C; 59; 0xFF1B; 124; 47; 92; 0x3001].

Definition normalize_location (location : str) : str :=
  let primary := str_to_lowercase (join [32] (split_whitespace
    (default [] (head (split_on is_location_separator (trim location)))))) in
  let compact := remove_chars [32; 45; 95] primary in
  default primary (str_match compact location_table).

End with_unicode.

#[global] Arguments str_match : simpl never.
#[global] Opaque skill_table major_table title_table location_table certificate_table
  company_suffixes company_suffixes_zh school_tier_table degree_table_low degree_table_high.

(** ** Lemmas *)

Lemma str_match_elem {A} s (arms : list (list str * A)) a :
  str_match s arms = Some a → a ∈ arms.*2.
Proof.
  unfold str_match. induction arms as [|[pats b] arms IH]; cbn; [done|].
  destruct (str_in s pats); [intros [= ->]; left|right; by apply IH].
Qed.

Lemma is_whitespace_lower c : is_whitespace (char_to_ascii_lowercase c) = is_whitespace c.
Proof.
  unfold char_to_ascii_lowercase. destruct (is_ascii_uppercase c) eqn:E; [|done].
  unfold is_ascii_uppercase in E. bools. unfold is_whitespace.
  apply eq_true_iff_eq. rewrite !orb_true_iff, !andb_true_iff, !Z.leb_le, !Z.eqb_eq. lia.
Qed.

Lemma map_join f c ws : f c = c → map f (join [c] ws) = join [c] (map (map f) ws).
Proof.
  intros Hf. induction ws as [|w ws IH]; [done|]. destruct ws as [|w' ws]; [done|].
  change (map f (w ++ c :: join [c] (w' :: ws))
    = map f w ++ c :: join [c] (map (map f) (w' :: ws))).
  by rewrite map_app, <- IH; cbn [map]; rewrite Hf.
Qed.

Lemma lower_words ws : Forall word ws → Forall word (map to_ascii_lowercase ws).
Proof.
  intros HF. apply Forall_map. eapply Forall_impl; [exact HF|]. intros w [Hne Hw]. split.
  - by destruct w.
  - unfold free_of, to_ascii_lowercase in *. apply Forall_map. eapply Forall_impl; [exact Hw|].
    intros c. cbn. by rewrite is_whitespace_lower.
Qed.

(** A normalized value is its lower-cased words, one space apart. *)
Lemma normalize_dedupe_value_words v :
  normalize_dedupe_value v = join [32] (map to_ascii_lowercase (split_whitespace v)) ∧
  split_whitespace (normalize_dedupe_value v) = map to_ascii_lowercase (split_whitespace v).
Proof.
  assert (normalize_dedupe_value v = join [32] (map to_ascii_lowercase (split_whitespace v))) as E.
  { unfold normalize_dedupe_value. unfold to_ascii_lowercase at 1. by rewrite map_join. }
  split; [done|]. rewrite E. apply split_whitespace_join, lower_words, split_whitespace_words.
Qed.

Lemma normalize_dedupe_value_idemp v :
  normalize_dedupe_value (normalize_dedupe_value v) = normalize_dedupe_value v.
Proof.
  rewrite (proj1 (normalize_dedupe_value_words (normalize_dedupe_value v))).
  rewrite (proj2 (normalize_dedupe_value_words v)).
  rewrite (proj1 (normalize_dedupe_value_words v)). f_equal. rewrite map_map.
  apply map_ext, to_ascii_lowercase_idemp.
Qed.

(** On ASCII text the normalizers do not depend on the Unicode tables. *)
Section ascii.
Context `{UnicodeLaws}.

Lemma is_alphanumeric_ascii c :
  0 ≤ c < 128 → is_alphanumeric c = is_alphanumeric (H:=sample_unicode) c.
Proof.
  intros Hc. unfold is_alphanumeric. pose proof sample_unicode_laws.
  by rewrite !is_alphabetic_ascii, !is_numeric_ascii.
Qed.

Lemma filter_alphanumeric_ascii s :
  ascii_str s = true →
  List.filter is_alphanumeric s = List.filter (is_alphanumeric (H:=sample_unicode)) s.
Proof.
  intros Hs%ascii_str_Forall. induction Hs as [|c s Hc Hs IH]; cbn; [done|].
  by rewrite is_alphanumeric_ascii, IH.
Qed.

Lemma split_alphanumeric_ascii s :
  ascii_str s = true →
  split_on (λ c, negb (is_alphanumeric c)) s
  = split_on (λ c, negb (is_alphanumeric (H:=sample_unicode) c)) s.
Proof.
  intros Hs%ascii_str_Forall. induction Hs as [|c s Hc Hs IH]; cbn; [done|].
  by rewrite is_alphanumeric_ascii, IH.
Qed.

Lemma snake_words_ascii s :
  ascii_str s = true → snake_words s = snake_words (H:=sample_unicode) s.
Proof. intros Hs. unfold snake_words. by rewrite split_alphanumeric_ascii. Qed.

Lemma str_to_lowercase_sample s :
  ascii_str s = true → str_to_lowercase s = str_to_lowercase (Unicode:=sample_unicode) s.
Proof. intros Hs%ascii_str_Forall. by rewrite str_to_lowercase_ascii. Qed.

Lemma ascii_trim s : ascii_str s = true → ascii_str (trim s) = true.
Proof.
  rewrite !ascii_str_Forall, !Forall_forall. intros Hs c Hc. by apply Hs, (trim_matches_elem is_whitespace).
Qed.

Lemma ascii_lower s : ascii_str s = true → ascii_str (str_to_lowercase s) = true.
Proof.
  rewrite !ascii_str_Forall. intros Hs. rewrite str_to_lowercase_ascii by done. apply Forall_map.
  eapply Forall_impl; [exact Hs|]. intros c Hc. cbn. unfold char_to_ascii_lowercase.
  destruct (is_ascii_uppercase c) eqn:E; [|done]. unfold is_ascii_uppercase in E. bools. lia.
Qed.

Lemma ascii_collapse s : ascii_str s = true → ascii_str (join [32] (split_whitespace s)) = true.
Proof.
  rewrite !ascii_str_Forall, !Forall_forall. intros Hs c.
  intros [->|(w & Hw & Hc)]%elem_of_join; [lia|].
  unfold split_whitespace in Hw. apply list_elem_of_In, filter_In in Hw as [Hw _].
  apply list_elem_of_In in Hw. apply Hs. by eapply split_on_elem.
Qed.

Lemma ascii_head_split p s : ascii_str s = true → ascii_str (default [] (head (split_on p s))) = true.
Proof.
  rewrite !ascii_str_Forall, !Forall_forall. intros Hs c Hc. apply Hs.
  destruct (split_on p s) as [|w ws] eqn:E; cbn in Hc; [by apply elem_of_nil in Hc|].
  apply (split_on_elem p s w); [|done]. rewrite E. left.
Qed.

Lemma normalize_skill_ascii s :
  ascii_str s = true → normalize_skill s = normalize_skill (H:=sample_unicode) s.
Proof.
  intros Hs. unfold normalize_skill. rewrite filter_alphanumeric_ascii; [done|].
  pose proof sample_unicode_laws. unfold normalize_dedupe_value, to_ascii_lowercase.
  apply ascii_collapse in Hs. apply ascii_lower in Hs as Hl. apply ascii_str_Forall in Hs.
  by rewrite str_to_lowercase_ascii in Hl.
Qed.

Lemma normalize_major_ascii s :
  ascii_str s = true → normalize_major s = normalize_major (H:=sample_unicode) s.
Proof.
  intros Hs. unfold normalize_major.
  rewrite snake_words_ascii by auto using ascii_trim, ascii_lower.
  by rewrite str_to_lowercase_sample by auto using ascii_trim.
Qed.

Lemma snake_lower_ascii s :
  ascii_str s = true →
  snake_words (str_to_lowercase (trim s))
  = snake_words (H:=sample_unicode) (str_to_lowercase (Unicode:=sample_unicode) (trim s)).
Proof.
  intros Hs. rewrite snake_words_ascii by auto using ascii_trim, ascii_lower.
  by rewrite str_to_lowercase_sample by auto using ascii_trim.
Qed.

Lemma normalize_title_ascii s :
  ascii_str s = true → normalize_title s = normalize_title (H:=sample_unicode) s.
Proof. intros Hs. unfold normalize_title. by rewrite snake_lower_ascii. Qed.

Lemma normalize_certificate_ascii s :
  ascii_str s = true → normalize_certificate s = normalize_certificate (H:=sample_unicode) s.
Proof. intros Hs. unfold normalize_certificate. by rewrite snake_lower_ascii. Qed.

Lemma normalize_location_ascii s :
  ascii_str s = true → normalize_location s = normalize_location (H:=sample_unicode) s.
Proof.
  intros Hs. unfold normalize_location.
  rewrite str_to_lowercase_sample; [done|]. auto using ascii_collapse, ascii_head_split, ascii_trim.
Qed.

Lemma tier_parse_ascii s :
  ascii_str s = true → tier_parse s = tier_parse (H:=sample_unicode) s.
Proof.
  intros Hs. unfold tier_parse. rewrite filter_alphanumeric_ascii; [done|].
  unfold to_ascii_lowercase. apply ascii_trim in Hs. apply ascii_lower in Hs as Hl.
  apply ascii_str_Forall in Hs. by rewrite str_to_lowercase_ascii in Hl.
Qed.

(** Every canonical spelling of a table is ASCII and normalizes to itself. *)
Definition table_closed (norm : str → str) (table : list (list str * str)) : bool :=
  forallb (λ s, ascii_str s && str_eqb (norm s) s) table.*2.

Lemma table_closed_spec (norm norm' : str → str) table s :
  (∀ s, ascii_str s = true → norm s = norm' s) →
  table_closed norm' table = true → s ∈ table.*2 → norm s = s.
Proof.
  intros Hn Ht Hs%list_elem_of_In. unfold table_closed in Ht. rewrite forallb_forall in Ht.
  specialize (Ht s Hs). bools. rewrite Hn by done. by apply str_eqb_eq.
Qed.

(** The controlled vocabularies are closed: every canonical spelling a
    table can produce (skills, majors, titles, locations, certificates) is a
    fixed point of its normalizer, so a stored canonical value still matches
    after being normalized again. *)
Theorem canonical_vocabulary_fixed :
  (∀ s, s ∈ skill_table.*2 → normalize_skill s = s) ∧
  (∀ s, s ∈ major_table.*2 → normalize_major s = s) ∧
  (∀ s, s ∈ title_table.*2 → normalize_title s = s) ∧
  (∀ s, s ∈ location_table.*2 → normalize_location s = s) ∧
  (∀ s, s ∈ certificate_table.*2 → normalize_certificate s = s).
Proof.
  split_and!; intros s.
  - apply (table_closed_spec _ (normalize_skill (H:=sample_unicode)));
      [exact normalize_skill_ascii|vm_compute; reflexivity].
  - apply (table_closed_spec _ (normalize_major (H:=sample_unicode)));
      [exact normalize_major_ascii|vm_compute; reflexivity].
  - apply (table_closed_spec _ (normalize_title (H:=sample_unicode)));
      [exact normalize_title_ascii|vm_compute; reflexivity].
  - apply (table_closed_spec _ (normalize_location (H:=sample_unicode)));
      [exact normalize_location_ascii|vm_compute; reflexivity].
  - apply (table_closed_spec _ (normalize_certificate (H:=sample_unicode)));
      [exact normalize_certificate_ascii|vm_compute; reflexivity].
Qed.

(** [normalize_skill] is idempotent on every input, aliases and unknown
    skills alike. *)
Theorem normalize_skill_idempotent skill :
  normalize_skill (normalize_skill skill) = normalize_skill skill.
Proof.
  unfold normalize_skill at 2 3.
  destruct (str_match _ skill_table) as [s|] eqn:E; cbn [default].
  - apply (table_closed_spec _ (normalize_skill (H:=sample_unicode)) skill_table);
      [by apply normalize_skill_ascii|vm_compute; reflexivity|by eapply str_match_elem].
  - unfold normalize_skill. by rewrite normalize_dedupe_value_idemp, E.
Qed.

(** Canonical names of degree levels and school tiers parse back to the
    value they name. *)
Theorem degree_and_tier_roundtrip (d : DegreeLevel) (t : SchoolTier) :
  degree_parse (degree_canonical d) = Some d ∧ tier_parse (tier_canonical t) = Some t.
Proof.
  split; [by destruct d; vm_compute|].
  rewrite tier_parse_ascii by (destruct t; vm_compute; reflexivity).
  by destruct t; vm_compute.
Qed.
End ascii.

(** ** Concrete instances *)

Lemma canonical_vocabulary_fixed_witness :
  normalize_location (H:=sample_unicode) (lit "hong_kong") = lit "hong_kong".
Proof.
  apply (canonical_vocabulary_fixed (H0:=sample_unicode_laws)).
  apply list_elem_of_In. vm_compute. tauto.
Defined.

Lemma normalize_skill_idempotent_witness :
  normalize_skill (H:=sample_unicode) (lit "K8S") = lit "kubernetes" ∧
  normalize_skill (H:=sample_unicode) (normalize_skill (H:=sample_unicode) (lit "K8S"))
  = normalize_skill (H:=sample_unicode) (lit "K8S").
Proof.
  split; [vm_compute; reflexivity|].
  apply (normalize_skill_idempotent (H0:=sample_unicode_laws)).
Defined.

Lemma degree_and_tier_roundtrip_witness :
  degree_parse (degree_canonical Master) = Some Master ∧
  tier_parse (H:=sample_unicode) (tier_canonical DoubleFirstClass) = Some DoubleFirstClass.
Proof. apply (degree_and_tier_roundtrip (H0:=sample_unicode_laws)). Defined.
