(* ===== verification/Filters.v ===== *)
(** * Profiles and search filters (crates/rank-fusion)

    Month ranges with their parser and printer, the normalized field profile of
    a resume, the filters of a search, and the predicate that decides whether a
    profile satisfies the filters. *)

From Stdlib Require Import ZArith String.
From Corelib Require Import SpecFloat.
From stdpp Require Import prelude.
From S2P Require Import Prelude Collections Float32 Text Vocabulary.

Local Open Scope Z_scope.

(** ** Month ranges *)

Record DateRange := MkDateRange { start_month : Z; end_month : option Z }.

#[export] Instance DateRange_eq_dec : EqDecision DateRange.
Proof. solve_decision. Defined.

Definition date_range_key (r : DateRange) : Z * option Z := (start_month r, end_month r).

(** The derived [Ord]: start, then end ([None] first). *)
#[export] Instance DateRange_cmp : Cmp DateRange :=
  λ x y, cmp (date_range_key x) (date_range_key y).

#[export] Instance DateRange_cmp_laws : CmpLaws DateRange.
Proof.
  split; unfold cmp, DateRange_cmp.
  - intros [] []. rewrite cmp_eq. unfold date_range_key; cbn. naive_solver.
  - intros. apply cmp_opp.
  - intros x y z. apply cmp_lt_trans.
Qed.

(** The number of months since year 0; [year * 12 + month] fits [i32]. *)
Definition parse_year_month (value : str) : option Z :=
  let value := trim value in
  let parts :=
    match split_once [45] value with
    | Some (year, month) => Some (trim year, trim month)
    | None =>
        match split_once (lit "年") value with
        | Some (year, remainder) =>
            match strip_suffix (lit "月") (trim remainder) with
            | Some month => Some (trim year, trim month)
            | None => None
            end
        | None => None
        end
    end in
  match parts with
  | Some (year, month) =>
      match parse_i32 year, parse_i32 month with
      | Some year, Some month =>
          if negb ((1900 <=? year) && (year <=? 2100)) || negb ((1 <=? month) && (month <=? 12))
          then None else Some (year * 12 + month)
      | _, _ => None
      end
  | None => None
  end.

(** [div_euclid]/[rem_euclid] by 12 are [Z]'s division and modulo. *)
Definition format_year_month (month_index : Z) : str :=
  let zero_based := month_index - 1 in
  fmt_zero_padded 4 (zero_based / 12) ++ [45] ++ fmt_zero_padded 2 (zero_based `mod` 12 + 1).

Definition is_supported_month_index (month_index : Z) : bool :=
  (1900 * 12 + 1 <=? month_index) && (month_index <=? 2100 * 12 + 12).

Definition from_month_bounds (start_month : Z) (end_month : option Z) : option DateRange :=
  if negb (is_supported_month_index start_month) then None
  else
    match end_month with
    | Some e =>
        if negb (is_supported_month_index e) || (e <? start_month) then None
        else Some (MkDateRange start_month end_month)
    | None => Some (MkDateRange start_month end_month)
    end.

Definition is_present_marker (value : str) : bool :=
  str_in (to_ascii_lowercase value) [lit "present"; lit "current"; lit "now"; lit "ongoing"]
  || str_in value [lit "至今"; lit "现在"; lit "当前"; lit "目前"; lit "进行中"].

Definition date_range_parse (value : str) : option DateRange :=
  let trimmed := trim value in
  let parts :=
    match split_once [47] trimmed with
    | Some p => Some p
    | None => split_once (lit "..") trimmed
    end in
  match parts with
  | None => None
  | Some (start, end_) =>
      match parse_year_month (trim start) with
      | None => None
      | Some start_month =>
          let end_ := trim end_ in
          if is_present_marker end_ then from_month_bounds start_month None
          else
            match parse_year_month end_ with
            | None => None
            | Some e => from_month_bounds start_month (Some e)
            end
      end
  end.

Definition overlaps (self other : DateRange) : bool :=
  let self_end := default i32_MAX (end_month self) in
  let other_end := default i32_MAX (end_month other) in
  (start_month self <=? other_end) && (start_month other <=? self_end).

Definition date_range_canonical (self : DateRange) : str :=
  format_year_month (start_month self) ++ [47]
  ++ match end_month self with Some e => format_year_month e | None => lit "PRESENT" end.

(** ** Profiles *)

Record ResumeProfile := MkProfile {
  doc_id : str;
  names : list str;
  degree : option DegreeLevel;
  schools : list str;
  school_tiers : list SchoolTier;
  majors : list str;
  certificates : list str;
  date_ranges : list DateRange;
  companies : list str;
  titles : list str;
  locations : list str;
  skills : list str;
  years_experience : option f32;
}.

Definition profile_new (doc_id : str) : ResumeProfile :=
  MkProfile doc_id [] None [] [] [] [] [] [] [] [] [] None.

(** [.map(normalize).filter(|v| !v.is_empty()).collect::<BTreeSet<_>>()]. *)
Definition normalized_set (normalize : str → str) (values : list str) : list str :=
  bset_collect (List.filter non_empty (map normalize values)).

(** [years.max(0.0)]. *)
Definition non_negative_years (years : f32) : f32 := f32_max years (S754_zero false).

Section with_unicode.
Context `{Unicode}.

Definition with_degree (self : ResumeProfile) (v : DegreeLevel) : ResumeProfile :=
  let 'MkProfile i n _ s st m c dr co t l sk y := self in
  MkProfile i n (Some v) s st m c dr co t l sk y.

Definition with_names (self : ResumeProfile) (v : list str) : ResumeProfile :=
  let 'MkProfile i _ d s st m c dr co t l sk y := self in
  MkProfile i (normalized_set normalize_name v) d s st m c dr co t l sk y.

Definition with_school_tiers (self : ResumeProfile) (v : list SchoolTier) : ResumeProfile :=
  let 'MkProfile i n d s _ m c dr co t l sk y := self in
  MkProfile i n d s (bset_collect v) m c dr co t l sk y.

Definition with_schools (self : ResumeProfile) (v : list str) : ResumeProfile :=
  let 'MkProfile i n d _ st m c dr co t l sk y := self in
  MkProfile i n d (normalized_set normalize_school v) st m c dr co t l sk y.

Definition with_majors (self : ResumeProfile) (v : list str) : ResumeProfile :=
  let 'MkProfile i n d s st _ c dr co t l sk y := self in
  MkProfile i n d s st (normalized_set normalize_major v) c dr co t l sk y.

Definition with_certificates (self : ResumeProfile) (v : list str) : ResumeProfile :=
  let 'MkProfile i n d s st m _ dr co t l sk y := self in
  MkProfile i n d s st m (normalized_set normalize_certificate v) dr co t l sk y.

Definition with_date_ranges (self : ResumeProfile) (v : list str) : ResumeProfile :=
  let 'MkProfile i n d s st m c _ co t l sk y := self in
  MkProfile i n d s st m c (bset_collect (omap date_range_parse v)) co t l sk y.

Definition with_companies (self : ResumeProfile) (v : list str) : ResumeProfile :=
  let 'MkProfile i n d s st m c dr _ t l sk y := self in
  MkProfile i n d s st m c dr (normalized_set normalize_company v) t l sk y.

Definition with_titles (self : ResumeProfile) (v : list str) : ResumeProfile :=
  let 'MkProfile i n d s st m c dr co _ l sk y := self in
  MkProfile i n d s st m c dr co (normalized_set normalize_title v) l sk y.

Definition with_locations (self : ResumeProfile) (v : list str) : ResumeProfile :=
  let 'MkProfile i n d s st m c dr co t _ sk y := self in
  MkProfile i n d s st m c dr co t (normalized_set normalize_location v) sk y.

Definition with_skills (self : ResumeProfile) (v : list str) : ResumeProfile :=
  let 'MkProfile i n d s st m c dr co t l _ y := self in
  MkProfile i n d s st m c dr co t l (normalized_set normalize_skill v) y.

Definition with_years_experience (self : ResumeProfile) (v : f32) : ResumeProfile :=
  let 'MkProfile i n d s st m c dr co t l sk _ := self in
  MkProfile i n d s st m c dr co t l sk (Some (non_negative_years v)).

End with_unicode.

(** ** Filters *)

Record SearchFilters := MkFilters {
  degree_min : option DegreeLevel;
  names_any : list str;
  schools_any : list str;
  school_tiers_any : list SchoolTier;
  majors_any : list str;
  certificates_any : list str;
  date_range_overlaps : option DateRange;
  companies_any : list str;
  titles_any : list str;
  locations_any : list str;
  skills_any : list str;
  contact_hashes_any : list str;
  years_experience_min : option f32;
}.

(** The derived [Default]. *)
Definition filters_default : SearchFilters :=
  MkFilters None [] [] [] [] [] None [] [] [] [] [] None.

Definition normalize_contact_hash (contact_hash : str) : option str :=
  let value := trim contact_hash in
  if (str_len value =? 64) && forallb is_ascii_hexdigit (utf8 value)
  then Some (to_ascii_lowercase value) else None.

Section with_unicode.
Context `{Unicode}.

Definition with_degree_min (self : SearchFilters) (v : DegreeLevel) : SearchFilters :=
  let 'MkFilters _ n s st m c dr co t l sk ch y := self in
  MkFilters (Some v) n s st m c dr co t l sk ch y.

Definition with_names_any (self : SearchFilters) (v : list str) : SearchFilters :=
  let 'MkFilters d _ s st m c dr co t l sk ch y := self in
  MkFilters d (normalized_set normalize_name v) s st m c dr co t l sk ch y.

Definition with_schools_any (self : SearchFilters) (v : list str) : SearchFilters :=
  let 'MkFilters d n _ st m c dr co t l sk ch y := self in
  MkFilters d n (normalized_set normalize_school v) st m c dr co t l sk ch y.

Definition with_school_tiers_any (self : SearchFilters) (v : list SchoolTier) : SearchFilters :=
  let 'MkFilters d n s _ m c dr co t l sk ch y := self in
  MkFilters d n s (bset_collect v) m c dr co t l sk ch y.

Definition with_majors_any (self : SearchFilters) (v : list str) : SearchFilters :=
  let 'MkFilters d n s st _ c dr co t l sk ch y := self in
  MkFilters d n s st (normalized_set normalize_major v) c dr co t l sk ch y.

Definition with_certificates_any (self : SearchFilters) (v : list str) : SearchFilters :=
  let 'MkFilters d n s st m _ dr co t l sk ch y := self in
  MkFilters d n s st m (normalized_set normalize_certificate v) dr co t l sk ch y.

(** An unparsable range leaves the filter unset. *)
Definition with_date_range_overlaps (self : SearchFilters) (v : str) : SearchFilters :=
  let 'MkFilters d n s st m c _ co t l sk ch y := self in
  MkFilters d n s st m c (date_range_parse v) co t l sk ch y.

Definition with_companies_any (self : SearchFilters) (v : list str) : SearchFilters :=
  let 'MkFilters d n s st m c dr _ t l sk ch y := self in
  MkFilters d n s st m c dr (normalized_set normalize_company v) t l sk ch y.

Definition with_titles_any (self : SearchFilters) (v : list str) : SearchFilters :=
  let 'MkFilters d n s st m c dr co _ l sk ch y := self in
  MkFilters d n s st m c dr co (normalized_set normalize_title v) l sk ch y.

Definition with_locations_any (self : SearchFilters) (v : list str) : SearchFilters :=
  let 'MkFilters d n s st m c dr co t _ sk ch y := self in
  MkFilters d n s st m c dr co t (normalized_set normalize_location v) sk ch y.

Definition with_skills_any (self : SearchFilters) (v : list str) : SearchFilters :=
  let 'MkFilters d n s st m c dr co t l _ ch y := self in
  MkFilters d n s st m c dr co t l (normalized_set normalize_skill v) ch y.

Definition with_contact_hashes_any (self : SearchFilters) (v : list str) : SearchFilters :=
  let 'MkFilters d n s st m c dr co t l sk _ y := self in
  MkFilters d n s st m c dr co t l sk (bset_collect (omap normalize_contact_hash v)) y.

Definition with_years_experience_min (self : SearchFilters) (v : f32) : SearchFilters :=
  let 'MkFilters d n s st m c dr co t l sk ch _ := self in
  MkFilters d n s st m c dr co t l sk ch (Some (non_negative_years v)).

End with_unicode.

Definition null {A} (l : list A) : bool := match l with [] => true | _ => false end.
Definition is_none {A} (o : option A) : bool := match o with None => true | _ => false end.

Definition filters_is_empty (self : SearchFilters) : bool :=
  is_none (degree_min self) && null (names_any self) && null (schools_any self)
  && null (school_tiers_any self) && null (majors_any self) && null (certificates_any self)
  && is_none (date_range_overlaps self) && null (companies_any self) && null (titles_any self)
  && null (locations_any self) && null (skills_any self) && null (contact_hashes_any self)
  && is_none (years_experience_min self).

(** One [if !any.is_empty() { .. return false }] block: the profile's values
    are collected into a set and one requested value must be in it. *)
Definition rejects_any {A} `{Cmp A} (requested values : list A) : bool :=
  negb (null requested)
  && (let profile_values := bset_collect values in
      negb (existsb (λ v, bset_contains v profile_values) requested)).

Definition slice_contains {A} `{EqDecision A} (x : A) (l : list A) : bool :=
  existsb (λ y, bool_decide (x = y)) l.

Definition school_tiers_match_any (filters profile_tiers : list SchoolTier) : bool :=
  let requested_unknown := slice_contains Unknown filters in
  if requested_unknown && (null profile_tiers || slice_contains Unknown profile_tiers) then true
  else
    let profile_tiers := bset_collect profile_tiers in
    existsb (λ tier, bset_contains tier profile_tiers)
      (List.filter (λ tier, negb (bool_decide (tier = Unknown))) filters).

Definition matches (self : SearchFilters) (profile : ResumeProfile) : bool :=
  if match degree_min self with
     | Some min_degree =>
         match degree profile with
         | None => true
         | Some d => match cmp d min_degree with Lt => true | _ => false end
         end
     | None => false
     end then false
  else if rejects_any (names_any self) (names profile) then false
  else if negb (null (school_tiers_any self))
          && negb (school_tiers_match_any (school_tiers_any self) (school_tiers profile))
       then false
  else if rejects_any (schools_any self) (schools profile) then false
  else if rejects_any (majors_any self) (majors profile) then false
  else if rejects_any (certificates_any self) (certificates profile) then false
  else if match date_range_overlaps self with
          | Some filter_range =>
              negb (existsb (λ r, overlaps r filter_range) (date_ranges profile))
          | None => false
          end then false
  else if rejects_any (companies_any self) (companies profile) then false
  else if rejects_any (titles_any self) (titles profile) then false
  else if rejects_any (locations_any self) (locations profile) then false
  else if rejects_any (skills_any self) (skills profile) then false
  else if match years_experience_min self with
          | Some min_years =>
              match years_experience profile with
              | None => true
              | Some years => f32_lt years min_years
              end
          | None => false
          end then false
  else true.

(** ** Month ranges: printing and parsing *)

Definition date_range_wf (r : DateRange) : Prop :=
  is_supported_month_index (start_month r) = true ∧
  match end_month r with
  | Some e => is_supported_month_index e = true ∧ start_month r ≤ e
  | None => True
  end.

Lemma from_month_bounds_spec s e r :
  from_month_bounds s e = Some r ↔ r = MkDateRange s e ∧ date_range_wf r.
Proof.
  unfold from_month_bounds, date_range_wf.
  destruct (is_supported_month_index s) eqn:Es; cbn [negb].
  2: { split; [done|]. intros (-> & H & _). cbn in H. congruence. }
  destruct e as [e|]; [|naive_solver].
  destruct (is_supported_month_index e) eqn:Ee; cbn [negb orb].
  2: { split; [done|]. intros (-> & _ & H & _). cbn in H. congruence. }
  destruct (e <? s) eqn:El.
  - split; [done|]. intros (-> & _ & _ & H). cbn in H. lia.
  - split; [intros [= <-]; cbn; repeat split; lia || done|by intros [-> _]].
Qed.

(** What the printer guarantees of one month, checked for all 2412 of them. *)
Definition month_text_ok (m : Z) : bool :=
  let f := format_year_month m in
  forallb (λ c, negb (is_whitespace c) && negb (47 =? c)) f
  && negb (is_present_marker f)
  && bool_decide (parse_year_month f = Some m).

Lemma month_texts_ok :
  forallb month_text_ok (map (λ n, 22801 + Z.of_nat n) (seq 0 2412)) = true.
Proof. vm_compute. reflexivity. Qed.

Lemma format_year_month_spec m :
  is_supported_month_index m = true →
  free_of is_whitespace (format_year_month m) ∧ free_of (Z.eqb 47) (format_year_month m) ∧
  is_present_marker (format_year_month m) = false ∧
  parse_year_month (format_year_month m) = Some m.
Proof.
  unfold is_supported_month_index. intros Hm. bools.
  pose proof month_texts_ok as Hall. rewrite forallb_forall in Hall.
  specialize (Hall m). unfold month_text_ok in Hall.
  rewrite !andb_true_iff, bool_decide_eq_true, negb_true_iff in Hall.
  destruct Hall as [[Hc Hp] Hm'].
  { apply in_map_iff. exists (Z.to_nat (m - 22801)). split; [lia|]. apply in_seq. lia. }
  rewrite forallb_forall in Hc. unfold free_of. rewrite !Forall_forall.
  split_and!; [..|done|done]; intros c Hin%list_elem_of_In; specialize (Hc c Hin);
    apply andb_prop in Hc as [? ?]; by apply negb_true_iff.
Qed.

Lemma split_once_free c a b :
  free_of (Z.eqb c) a → split_once [c] (a ++ c :: b) = Some (a, b).
Proof.
  induction 1 as [|d a Hd Ha IH]; cbn.
  - by rewrite Z.eqb_refl.
  - rewrite Hd. cbn. by rewrite IH.
Qed.

Lemma trim_free s : free_of is_whitespace s → trim s = s.
Proof.
  intros Hs. apply trim_matches_id; intros c t ->.
  - by apply free_of_cons in Hs as [? _].
  - by apply free_of_app in Hs as [_ [? _]%free_of_cons].
Qed.

Lemma date_range_parse_canonical r :
  date_range_wf r → date_range_parse (date_range_canonical r) = Some r.
Proof.
  intros Hwf. pose proof Hwf as [Hs He]. destruct r as [s e]; cbn [start_month end_month] in *.
  destruct (format_year_month_spec s Hs) as (W1 & S1 & _ & P1).
  set (end_text := match e with Some e => format_year_month e | None => lit "PRESENT" end).
  assert (free_of is_whitespace end_text ∧
    ((is_present_marker end_text = true ∧ e = None) ∨
     (is_present_marker end_text = false ∧ ∃ m, e = Some m ∧ parse_year_month end_text = Some m)))
    as [W2 Hend].
  { subst end_text. destruct e as [e|].
    - destruct He as [He _]. destruct (format_year_month_spec e He) as (? & _ & ? & ?). eauto 7.
    - split; [|left; split; [vm_compute; reflexivity|done]].
      unfold free_of. vm_compute. repeat constructor. }
  change (date_range_canonical (MkDateRange s e)) with (format_year_month s ++ 47 :: end_text).
  clearbody end_text. unfold date_range_parse.
  rewrite (trim_free (_ ++ _)) by (apply free_of_app; split; [done|by apply free_of_cons]).
  rewrite split_once_free by done. rewrite (trim_free (format_year_month s)), P1 by done.
  rewrite (trim_free end_text) by done.
  destruct Hend as [[-> ->]|[-> (m & -> & ->)]]; by apply from_month_bounds_spec.
Qed.

Lemma date_range_parse_wf v r : date_range_parse v = Some r → date_range_wf r.
Proof.
  unfold date_range_parse. intros Hp. repeat case_match; try done;
    by apply from_month_bounds_spec in Hp as [_ ?].
Qed.

(** Date ranges round-trip: whatever text a range was parsed from, the
    range is within the supported months with its end not before its start,
    and its canonical text parses back to the same range. *)
Theorem date_range_roundtrip value r :
  date_range_parse value = Some r →
  date_range_wf r ∧ date_range_parse (date_range_canonical r) = Some r.
Proof. intros Hr%date_range_parse_wf. auto using date_range_parse_canonical. Qed.

Definition in_range (r : DateRange) (m : Z) : Prop :=
  start_month r ≤ m ∧ match end_month r with Some e => m ≤ e | None => True end.

(** Two valid ranges overlap exactly when some month belongs to both, an
    open range extending forever. *)
Theorem overlaps_iff_common_month r1 r2 :
  date_range_wf r1 → date_range_wf r2 →
  overlaps r1 r2 = true ↔ ∃ m, in_range r1 m ∧ in_range r2 m.
Proof.
  destruct r1 as [s1 e1], r2 as [s2 e2]. unfold date_range_wf, overlaps, in_range.
  cbn [start_month end_month]. unfold is_supported_month_index. intros [H1 E1] [H2 E2]. bools.
  rewrite andb_true_iff, !Z.leb_le.
  assert (i32_MAX = 2147483647) as -> by done.
  split.
  - intros [Ha Hb]. exists (Z.max s1 s2). destruct e1, e2; cbn in *; lia.
  - intros (m & Ha & Hb). destruct e1, e2; cbn in *; bools; lia.
Qed.

(** ** The filter predicate *)

(** A facet is satisfied when nothing is requested or a requested value is
    among the profile's. *)
Definition facet_any {A} (requested values : list A) : Prop :=
  requested = [] ∨ ∃ v, v ∈ requested ∧ v ∈ values.

Lemma rejects_any_spec {A} `{CmpLaws A} (requested values : list A) :
  rejects_any requested values = false ↔ facet_any requested values.
Proof.
  unfold rejects_any, facet_any. destruct requested as [|x l]; cbn [null negb andb].
  { split; auto. }
  rewrite negb_false_iff, existsb_exists. split.
  - intros (v & Hv%list_elem_of_In & Hin%bset_contains_collect). eauto.
  - intros [|(v & Hv & Hin)]; [done|]. exists v.
    split; [by apply list_elem_of_In|by apply bset_contains_collect].
Qed.

Lemma slice_contains_spec {A} `{EqDecision A} (x : A) l : slice_contains x l = true ↔ x ∈ l.
Proof.
  unfold slice_contains. rewrite existsb_exists. split.
  - intros (y & Hy%list_elem_of_In & <-%bool_decide_eq_true). done.
  - intros Hx. exists x. split; [by apply list_elem_of_In|by apply bool_decide_eq_true].
Qed.

(** The tier facet: [Unknown] also stands for a profile with no tier at all. *)
Definition tier_facet (requested tiers : list SchoolTier) : Prop :=
  (∃ t, t ∈ requested ∧ t ∈ tiers) ∨ (Unknown ∈ requested ∧ tiers = []).

Lemma school_tiers_match_any_spec requested tiers :
  school_tiers_match_any requested tiers = true ↔ tier_facet requested tiers.
Proof.
  unfold school_tiers_match_any, tier_facet. destruct (_ && _) eqn:E.
  - apply andb_prop in E as [Hu E]. apply slice_contains_spec in Hu. split; [intros _|done].
    apply orb_prop in E as [E|E%slice_contains_spec]; [|eauto].
    destruct tiers; [auto|done].
  - rewrite existsb_exists. split.
    + intros (t & [Hin _]%filter_In & Ht%bset_contains_collect).
      apply list_elem_of_In in Hin. eauto.
    + intros [(t & Hr & Ht)|[Hu ->]].
      * exists t. split; [|by apply bset_contains_collect]. apply filter_In.
        split; [by apply list_elem_of_In|]. apply negb_true_iff, bool_decide_eq_false. intros ->.
        apply andb_false_iff in E as [E|[_ E]%orb_false_iff]; apply not_true_iff_false in E;
          apply E; by apply slice_contains_spec.
      * apply andb_false_iff in E as [E|[E _]%orb_false_iff]; [|done].
        apply not_true_iff_false in E. destruct E. by apply slice_contains_spec.
Qed.

(** The declarative reading of a set of filters. *)
Definition satisfies (f : SearchFilters) (p : ResumeProfile) : Prop :=
  (∀ min, degree_min f = Some min →
     ∃ d, degree p = Some d ∧ (degree_index min ≤ degree_index d)%N) ∧
  facet_any (names_any f) (names p) ∧
  (school_tiers_any f = [] ∨ tier_facet (school_tiers_any f) (school_tiers p)) ∧
  facet_any (schools_any f) (schools p) ∧
  facet_any (majors_any f) (majors p) ∧
  facet_any (certificates_any f) (certificates p) ∧
  (∀ r, date_range_overlaps f = Some r → ∃ q, q ∈ date_ranges p ∧ overlaps q r = true) ∧
  facet_any (companies_any f) (companies p) ∧
  facet_any (titles_any f) (titles p) ∧
  facet_any (locations_any f) (locations p) ∧
  facet_any (skills_any f) (skills p) ∧
  (∀ min, years_experience_min f = Some min →
     ∃ y, years_experience p = Some y ∧ f32_lt y min = false).

Lemma if_false_true (b c : bool) : (if b then false else c) = true ↔ b = false ∧ c = true.
Proof. destruct b; naive_solver. Qed.

Lemma degree_facet_spec f p :
  match degree_min f with
  | Some min_degree =>
      match degree p with
      | None => true
      | Some d => match cmp d min_degree with Lt => true | _ => false end
      end
  | None => false
  end = false ↔
  ∀ min, degree_min f = Some min →
    ∃ d, degree p = Some d ∧ (degree_index min ≤ degree_index d)%N.
Proof.
  destruct (degree_min f) as [min|]; [|done].
  destruct (degree p) as [d|]; [|split; [done|intros Hm; by destruct (Hm min) as (? & ? & _)]].
  split.
  - intros Hc ? [= <-]. exists d. split; [done|].
    unfold cmp, DegreeLevel_cmp in Hc. by destruct (N.compare_spec (degree_index d) (degree_index min)); try lia.
  - intros Hm. destruct (Hm min eq_refl) as (? & [= <-] & Hle). unfold cmp, DegreeLevel_cmp.
    destruct (N.compare_spec (degree_index d) (degree_index min)); [done|lia|done].
Qed.

Lemma date_facet_spec f p :
  match date_range_overlaps f with
  | Some filter_range => negb (existsb (λ r, overlaps r filter_range) (date_ranges p))
  | None => false
  end = false ↔
  ∀ r, date_range_overlaps f = Some r → ∃ q, q ∈ date_ranges p ∧ overlaps q r = true.
Proof.
  destruct (date_range_overlaps f) as [r|]; [|done].
  rewrite negb_false_iff, existsb_exists. setoid_rewrite <- list_elem_of_In.
  split; [intros Hq ? [= <-]; eauto|auto].
Qed.

Lemma years_facet_spec f p :
  match years_experience_min f with
  | Some min_years =>
      match years_experience p with None => true | Some years => f32_lt years min_years end
  | None => false
  end = false ↔
  ∀ min, years_experience_min f = Some min →
    ∃ y, years_experience p = Some y ∧ f32_lt y min = false.
Proof.
  destruct (years_experience_min f) as [min|]; [|done].
  destruct (years_experience p) as [y|].
  - split; [intros ? ? [= <-]; eauto|]. intros Hm. by destruct (Hm min) as (? & [= <-] & ?).
  - split; [done|]. intros Hm. by destruct (Hm min) as (? & ? & _).
Qed.

Lemma tier_block_spec f p :
  negb (null (school_tiers_any f))
  && negb (school_tiers_match_any (school_tiers_any f) (school_tiers p)) = false ↔
  school_tiers_any f = [] ∨ tier_facet (school_tiers_any f) (school_tiers p).
Proof.
  rewrite <- school_tiers_match_any_spec, andb_false_iff, !negb_false_iff.
  destruct (school_tiers_any f); cbn [null]; [tauto|]. split; intros [|]; auto; done.
Qed.

Lemma matches_satisfies f p : matches f p = true ↔ satisfies f p.
Proof.
  unfold matches, satisfies. rewrite !if_false_true, !rejects_any_spec.
  rewrite degree_facet_spec, tier_block_spec, date_facet_spec, years_facet_spec. tauto.
Qed.

(** C22: [matches] decides the declarative conjunction of the facets: a
    requested minimum degree, any-of name, tier, school, major, certificate,
    company, title, location and skill, an overlapping date range and minimum
    years; contact hashes take no part in it. *)
Theorem matches_spec f p : matches f p = true ↔ satisfies f p.
Proof. apply matches_satisfies. Qed.

(** ** Built profiles and filters *)

Definition value_set_wf (l : list str) : Prop := ssorted l ∧ Forall (λ v, v ≠ []) l.

Definition years_wf (y : option f32) : Prop :=
  match y with
  | Some y => f32_is_nan y = false ∧ f32_lt y (S754_zero false) = false
  | None => True
  end.

Record profile_wf (p : ResumeProfile) : Prop := {
  wf_names : value_set_wf (names p);
  wf_schools : value_set_wf (schools p);
  wf_school_tiers : ssorted (school_tiers p);
  wf_majors : value_set_wf (majors p);
  wf_certificates : value_set_wf (certificates p);
  wf_date_ranges : ssorted (date_ranges p) ∧ Forall date_range_wf (date_ranges p);
  wf_companies : value_set_wf (companies p);
  wf_titles : value_set_wf (titles p);
  wf_locations : value_set_wf (locations p);
  wf_skills : value_set_wf (skills p);
  wf_years_experience : years_wf (years_experience p);
}.

Lemma elem_of_normalized_set normalize values v :
  v ∈ normalized_set normalize values ↔ v ≠ [] ∧ ∃ w, w ∈ values ∧ v = normalize w.
Proof.
  unfold normalized_set. rewrite elem_of_bset_collect, list_elem_of_In, filter_In, in_map_iff.
  rewrite non_empty_spec. setoid_rewrite <- list_elem_of_In. naive_solver.
Qed.

Lemma normalized_set_wf normalize values : value_set_wf (normalized_set normalize values).
Proof.
  split; [apply bset_collect_sorted|]. apply Forall_forall.
  by intros v [? _]%elem_of_normalized_set.
Qed.

Lemma value_set_wf_nil : value_set_wf [].
Proof. split; constructor. Qed.

Lemma non_negative_years_wf y : years_wf (Some (non_negative_years y)).
Proof. by destruct y as [[]|[]| |[] m e]. Qed.

Lemma parsed_ranges_wf v :
  ssorted (bset_collect (omap date_range_parse v)) ∧
  Forall date_range_wf (bset_collect (omap date_range_parse v)).
Proof.
  split; [apply bset_collect_sorted|]. apply Forall_forall. intros r.
  rewrite elem_of_bset_collect, list_elem_of_omap. intros (t & _ & Ht).
  by eapply date_range_parse_wf.
Qed.

#[export] Hint Resolve normalized_set_wf value_set_wf_nil non_negative_years_wf
  parsed_ranges_wf bset_collect_sorted : resume.

Section built.
Context `{Unicode}.

(** The profiles client code can construct: any chain of builder calls. *)
Inductive built_profile : ResumeProfile → Prop :=
| built_new id : built_profile (profile_new id)
| built_degree p v : built_profile p → built_profile (with_degree p v)
| built_names p v : built_profile p → built_profile (with_names p v)
| built_school_tiers p v : built_profile p → built_profile (with_school_tiers p v)
| built_schools p v : built_profile p → built_profile (with_schools p v)
| built_majors p v : built_profile p → built_profile (with_majors p v)
| built_certificates p v : built_profile p → built_profile (with_certificates p v)
| built_date_ranges p v : built_profile p → built_profile (with_date_ranges p v)
| built_companies p v : built_profile p → built_profile (with_companies p v)
| built_titles p v : built_profile p → built_profile (with_titles p v)
| built_locations p v : built_profile p → built_profile (with_locations p v)
| built_skills p v : built_profile p → built_profile (with_skills p v)
| built_years p v : built_profile p → built_profile (with_years_experience p v).

(** C39: every profile a chain of builder calls can produce is well formed:
    facet values are sorted, duplicate-free and non-empty, date ranges are
    valid, and the years of experience are neither NaN nor negative. *)
Theorem built_profile_wf p : built_profile p → profile_wf p.
Proof.
  induction 1 as [id|p v _ []|p v _ []|p v _ []|p v _ []|p v _ []|p v _ []|p v _ []|p v _ []
                 |p v _ []|p v _ []|p v _ []|p v _ []]; try destruct p; split;
    cbn [with_degree with_names with_school_tiers with_schools with_majors with_certificates
         with_date_ranges with_companies with_titles with_locations with_skills
         with_years_experience names schools school_tiers majors certificates date_ranges
         companies titles locations skills years_experience profile_new] in *;
    auto with resume; try (split; constructor).
  all: first [apply bset_collect_sorted|constructor].
Qed.

(** Profile and filter normalization agree: a skill filter accepts a
    profile exactly when every requested skill is blank or some requested and
    some listed skill have the same non-empty canonical spelling. *)
Theorem skill_filter_end_to_end wanted have id :
  matches (with_skills_any filters_default wanted) (with_skills (profile_new id) have) = true ↔
  (∀ w, w ∈ wanted → normalize_skill w = []) ∨
  ∃ w h, w ∈ wanted ∧ h ∈ have ∧ normalize_skill w = normalize_skill h ∧ normalize_skill w ≠ [].
Proof.
  rewrite matches_satisfies. unfold satisfies, facet_any.
  cbn [with_skills_any filters_default with_skills profile_new degree_min names_any schools_any
    school_tiers_any majors_any certificates_any date_range_overlaps companies_any titles_any
    locations_any skills_any years_experience_min skills].
  assert (normalized_set normalize_skill wanted = [] ↔ ∀ w, w ∈ wanted → normalize_skill w = [])
    as <-.
  { split.
    - intros Hnil w Hw. destruct (normalize_skill w) eqn:E; [done|]. exfalso.
      apply (not_elem_of_nil (normalize_skill w)). rewrite <- Hnil.
      apply elem_of_normalized_set. rewrite E. eauto.
    - intros Hw. apply elem_of_nil_inv. intros v (Hne & w & Hin & ->)%elem_of_normalized_set.
      by apply Hne, Hw. }
  setoid_rewrite elem_of_normalized_set. split.
  - intros (_ & _ & _ & _ & _ & _ & _ & _ & _ & _ & Hs & _). destruct Hs as [|Hs]; [by left|right].
    destruct Hs as (v & (Hne & w & Hw & ->) & _ & h & Hh & E). eauto 10.
  - intros Hs. split_and!; try done; try (by left).
    destruct Hs as [|(w & h & Hw & Hh & E & Hne)]; [by left|right]. eauto 10.
Qed.
End built.

(** An empty filter accepts every profile, and a filter that constrains
    only contact hashes is not empty yet accepts every profile: contact
    hashes are resolved by the caller, not by [matches]. *)
Theorem matches_unconstrained f p hashes :
  filters_is_empty f = true →
  matches f p = true ∧ matches (with_contact_hashes_any f hashes) p = true.
Proof.
  intros He. assert (∃ ch, f = MkFilters None [] [] [] [] [] None [] [] [] [] ch None) as [ch ->].
  { unfold filters_is_empty in He. destruct f as [d n s st m c dr co t l sk ch y].
    cbn [degree_min names_any schools_any school_tiers_any majors_any certificates_any
      date_range_overlaps companies_any titles_any locations_any skills_any contact_hashes_any
      years_experience_min] in He. bools.
    repeat match goal with
    | H : null ?l = true |- _ => destruct l; [clear H|discriminate H]
    | H : is_none ?o = true |- _ => destruct o; [discriminate H|clear H]
    end. by eexists. }
  done.
Qed.

(** ** Concrete instances *)

Definition sample_range : DateRange := MkDateRange 24241 None.
Definition sample_range_text : str := lit " 2020-01 .. Present".

Lemma date_range_roundtrip_witness :
  date_range_parse sample_range_text = Some sample_range ∧
  date_range_parse (date_range_canonical sample_range) = Some sample_range.
Proof.
  split; [vm_compute; reflexivity|].
  apply (date_range_roundtrip sample_range_text). vm_compute. reflexivity.
Defined.

Lemma overlaps_iff_common_month_witness :
  overlaps sample_range (MkDateRange 24200 (Some 24240)) = true ↔
  ∃ m, in_range sample_range m ∧ in_range (MkDateRange 24200 (Some 24240)) m.
Proof. apply overlaps_iff_common_month; vm_compute; repeat split; discriminate. Defined.

Lemma built_profile_wf_witness :
  profile_wf (with_skills (H:=sample_unicode) (profile_new (lit "doc")) [lit "K8s"]).
Proof. apply (built_profile_wf (H:=sample_unicode)). apply built_skills, built_new. Defined.

Lemma matches_unconstrained_witness :
  matches (with_contact_hashes_any filters_default [lit "x"]) (profile_new (lit "doc")) = true.
Proof. apply matches_unconstrained. reflexivity. Defined.
