(* ===== verification/Fusion.v ===== *)
(** * Duplicate scoring and rank fusion (crates/rank-fusion)

    Soft duplicate scoring of two profiles, folding of hits by candidate, and
    reciprocal rank fusion of full-text and vector rankings.  Scores are exact
    binary32 values. *)

From Stdlib Require Import ZArith String Sorted.
From Corelib Require Import SpecFloat.
From stdpp Require Import prelude.
From S2P Require Import Prelude Collections Float32 Text Vocabulary Filters.

Local Open Scope Z_scope.

(** ** Soft duplicate scoring *)

Record DedupeProfile := MkDedupe {
  dedupe_doc_id : str;
  dedupe_name : option str;
  dedupe_schools : list str;
  dedupe_companies : list str;
  dedupe_skills : list str;
}.

Definition dedupe_new (doc_id : str) : DedupeProfile := MkDedupe doc_id None [] [] [].

Definition dedupe_with_name (self : DedupeProfile) (name : str) : DedupeProfile :=
  let name := normalize_dedupe_value name in
  if non_empty name then
    let 'MkDedupe i _ s c k := self in MkDedupe i (Some name) s c k
  else self.

Definition normalize_dedupe_values (values : list str) : list str :=
  bset_collect (List.filter non_empty (map normalize_dedupe_value values)).

Definition dedupe_with_schools (self : DedupeProfile) (schools : list str) : DedupeProfile :=
  let 'MkDedupe i n _ c k := self in MkDedupe i n (normalize_dedupe_values schools) c k.
Definition dedupe_with_companies (self : DedupeProfile) (companies : list str) : DedupeProfile :=
  let 'MkDedupe i n s _ k := self in MkDedupe i n s (normalize_dedupe_values companies) k.
Definition dedupe_with_skills (self : DedupeProfile) (skills : list str) : DedupeProfile :=
  let 'MkDedupe i n s c _ := self in MkDedupe i n s c (normalize_dedupe_values skills).

Definition intersection_count (left right : list str) : Z :=
  Z.of_nat (bset_intersection_count left right).

Record SoftDedupeScore := MkDedupeScore {
  left_doc_id : str;
  right_doc_id : str;
  confidence : f32;
  shared_school_count : Z;
  shared_company_count : Z;
  shared_skill_count : Z;
}.

(** [b as u8 as f32]. *)
Definition f32_of_bool (b : bool) : f32 := f32_of_Z (if b then 1 else 0).

Definition dedupe_confidence (school_count company_count skill_count : Z) : f32 :=
  let skill_score := f32_div (f32_of_Z (Z.min skill_count 3)) (f32_of_Z 3) in
  f32_min
    (f32_add
      (f32_add
        (f32_add (f32_lit 45 100) (f32_mul (f32_of_bool (0 <? school_count)) (f32_lit 25 100)))
        (f32_mul (f32_of_bool (0 <? company_count)) (f32_lit 20 100)))
      (f32_mul skill_score (f32_lit 10 100)))
    (f32_lit 95 100).

Definition soft_dedupe_score (left right : DedupeProfile) : option SoftDedupeScore :=
  if str_eqb (dedupe_doc_id left) (dedupe_doc_id right) then None
  else
    match dedupe_name left, dedupe_name right with
    | Some left_name, Some right_name =>
        if negb (str_eqb left_name right_name) then None
        else
          let school_count := intersection_count (dedupe_schools left) (dedupe_schools right) in
          let company_count :=
            intersection_count (dedupe_companies left) (dedupe_companies right) in
          let skill_count := intersection_count (dedupe_skills left) (dedupe_skills right) in
          let confidence := dedupe_confidence school_count company_count skill_count in
          if f32_gt confidence (f32_lit 70 100) then
            Some (MkDedupeScore (dedupe_doc_id left) (dedupe_doc_id right) confidence
                    school_count company_count skill_count)
          else None
    | _, _ => None
    end.

(** ** Ranked hits *)

Record RankedHit := MkHit {
  hit_doc_id : str;
  hit_rank : Z;
  hit_score : f32;
  candidate_key : option str;
}.

#[export] Instance RankedHit_eq_dec : EqDecision RankedHit.
Proof. solve_decision. Defined.

Definition ranked_hit_new (doc_id : str) (rank : Z) (score : f32) : RankedHit :=
  MkHit doc_id rank score None.

Definition with_candidate_key (self : RankedHit) (key : str) : RankedHit :=
  MkHit (hit_doc_id self) (hit_rank self) (hit_score self) (Some key).

(** The key a hit folds under: its candidate, else [doc:<doc_id>]. *)
Definition fold_key (hit : RankedHit) : str :=
  match candidate_key hit with
  | Some key => key
  | None => lit "doc:" ++ hit_doc_id hit
  end.

Fixpoint fold_by_candidate_loop (seen : list str) (hits : list RankedHit) : list RankedHit :=
  match hits with
  | [] => []
  | hit :: hits =>
      let key := fold_key hit in
      if bset_contains key seen then fold_by_candidate_loop seen hits
      else hit :: fold_by_candidate_loop (bset_insert key seen) hits
  end.

Definition fold_by_candidate (hits : list RankedHit) : list RankedHit :=
  fold_by_candidate_loop [] hits.

(** ** Reciprocal rank fusion *)

Definition f32_one : f32 := f32_of_Z 1.
Definition f32_zero : f32 := S754_zero false.

(** [1.0 / (k + rank as f32)]. *)
Definition rrf_contribution (k : f32) (rank : Z) : f32 :=
  f32_div f32_one (f32_add k (f32_of_Z rank)).

(** [*scores.entry(doc_id).or_insert(0.0) += 1.0 / (k + rank as f32)]. *)
Definition add_score (k : f32) (rank : Z) (doc_id : str) (scores : list (str * f32))
    : list (str * f32) :=
  bmap_entry doc_id
    (λ old, f32_add (default f32_zero old) (rrf_contribution k rank)) scores.

(** The inner loop over one channel; [index] is the [enumerate] counter. *)
Fixpoint score_channel (k : f32) (index : Z) (channel : list str) (scores : list (str * f32))
    : list (str * f32) :=
  match channel with
  | [] => scores
  | doc_id :: channel =>
      score_channel k (index + 1) channel (add_score k (index + 1) doc_id scores)
  end.

Definition rrf_scores (channels : list (list str)) (k : f32) : list (str * f32) :=
  fold_left (λ scores channel, score_channel k 0 channel scores) channels [].

(** The [sort_by] closure: score descending, then document id ascending. *)
Definition fused_cmp (left right : str * f32) : comparison :=
  then_with (score_desc left.2 right.2) (cmp left.1 right.1).

Fixpoint number_hits (index : Z) (fused : list (str * f32)) : list RankedHit :=
  match fused with
  | [] => []
  | (doc_id, score) :: fused =>
      ranked_hit_new doc_id (index + 1) score :: number_hits (index + 1) fused
  end.

Definition reciprocal_rank_fusion (channels : list (list str)) (k : f32) : list RankedHit :=
  let k := f32_max k f32_one in
  number_hits 0 (sort_by fused_cmp (rrf_scores channels k)).

(** The variant over hits also remembers the first candidate key of each
    document. *)
Fixpoint score_hit_channel (k : f32) (index : Z) (channel : list RankedHit)
    (st : list (str * f32) * list (str * option str))
    : list (str * f32) * list (str * option str) :=
  match channel with
  | [] => st
  | hit :: channel =>
      let '(scores, candidate_keys) := st in
      score_hit_channel k (index + 1) channel
        (add_score k (index + 1) (hit_doc_id hit) scores,
         bmap_entry (hit_doc_id hit) (default (candidate_key hit)) candidate_keys)
  end.

Definition rrf_hit_state (channels : list (list RankedHit)) (k : f32)
    : list (str * f32) * list (str * option str) :=
  fold_left (λ st channel, score_hit_channel k 0 channel st) channels ([], []).

(** The final [map]: [candidate_keys.remove(&doc_id)] hands the key over. *)
Fixpoint attach_keys (index : Z) (candidate_keys : list (str * option str))
    (fused : list (str * f32)) : list RankedHit :=
  match fused with
  | [] => []
  | (doc_id, score) :: fused =>
      let hit := ranked_hit_new doc_id (index + 1) score in
      match bmap_lookup doc_id candidate_keys with
      | Some (Some key) => with_candidate_key hit key
      | _ => hit
      end :: attach_keys (index + 1) (bmap_remove doc_id candidate_keys) fused
  end.

Definition reciprocal_rank_fusion_hits (channels : list (list RankedHit)) (k : f32)
    : list RankedHit :=
  let k := f32_max k f32_one in
  let '(scores, candidate_keys) := rrf_hit_state channels k in
  attach_keys 0 candidate_keys (sort_by fused_cmp scores).

Inductive RetrievalChannel := FullText | Vector.

Record RankedChannel := MkChannel { channel : RetrievalChannel; doc_ids : list str }.

Definition fuse_ranked_channels (channels : list RankedChannel) (k : f32) : list RankedHit :=
  reciprocal_rank_fusion (map doc_ids channels) k.

Record HybridRecall := MkRecall { fulltext : list RankedHit; vector : list RankedHit }.

(** [Vec::truncate]. *)
Definition fuse_hybrid_rrf (recall : HybridRecall) (k : f32) (limit : Z) : list RankedHit :=
  take (Z.to_nat limit) (reciprocal_rank_fusion_hits [fulltext recall; vector recall] k).

(** ** Duplicate scoring: when evidence suffices *)

(** Enough shared evidence besides an equal name. *)
Definition enough_evidence (schools companies skills : Z) : bool :=
  ((0 <? schools) && (0 <? companies)) || ((0 <? schools) && (1 <=? skills))
  || ((0 <? companies) && (2 <=? skills)).

(** The confidence depends on the presence of schools and companies and on the
    number of skills up to three: sixteen cases. *)
Lemma dedupe_confidence_threshold schools companies skills :
  0 ≤ skills →
  f32_gt (dedupe_confidence schools companies skills) (f32_lit 70 100)
  = enough_evidence schools companies skills ∧
  f32_gt (dedupe_confidence schools companies skills) (f32_lit 95 100) = false.
Proof.
  intros Hs. unfold enough_evidence, dedupe_confidence.
  assert (skills = 0 ∨ skills = 1 ∨ skills = 2 ∨ (Z.min skills 3 = 3 ∧ 3 ≤ skills)) as Hcase by lia.
  destruct Hcase as [->|[->|[->|[-> H3]]]];
    [| | |replace (1 <=? skills) with true by lia; replace (2 <=? skills) with true by lia];
    destruct (0 <? schools), (0 <? companies); vm_compute; split; reflexivity.
Qed.

Lemma intersection_count_comm l r :
  ssorted l → ssorted r → intersection_count l r = intersection_count r l.
Proof.
  intros Hl Hr. unfold intersection_count, bset_intersection_count. f_equal.
  apply Permutation_length, NoDup_Permutation.
  - apply NoDup_ListNoDup, List.NoDup_filter, NoDup_ListNoDup. by apply ssorted_NoDup.
  - apply NoDup_ListNoDup, List.NoDup_filter, NoDup_ListNoDup. by apply ssorted_NoDup.
  - intros x. rewrite !list_elem_of_In, !filter_In, <- !list_elem_of_In.
    rewrite !bset_contains_spec by done. tauto.
Qed.

(** Two profiles are reported as likely duplicates exactly when they are
    different documents with the same normalized name and share a school and
    a company, or a school and a skill, or a company and two skills; the
    reported confidence lies above 0.70 and never above 0.95. *)
Theorem soft_dedupe_score_spec left right :
  let schools := intersection_count (dedupe_schools left) (dedupe_schools right) in
  let companies := intersection_count (dedupe_companies left) (dedupe_companies right) in
  let skills := intersection_count (dedupe_skills left) (dedupe_skills right) in
  (is_Some (soft_dedupe_score left right) ↔
     dedupe_doc_id left ≠ dedupe_doc_id right ∧
     (∃ n, dedupe_name left = Some n ∧ dedupe_name right = Some n) ∧
     enough_evidence schools companies skills = true) ∧
  (∀ s, soft_dedupe_score left right = Some s →
     f32_gt (confidence s) (f32_lit 70 100) = true ∧
     f32_gt (confidence s) (f32_lit 95 100) = false ∧
     shared_school_count s = schools ∧ shared_company_count s = companies ∧
     shared_skill_count s = skills).
Proof.
  intros schools companies skills.
  destruct (dedupe_confidence_threshold schools companies skills) as [H70 H95];
    [unfold skills, intersection_count; lia|].
  unfold soft_dedupe_score. fold schools companies skills.
  destruct (str_eqb _ _) eqn:Eid; [apply str_eqb_eq in Eid|].
  { split; [|done]. split; [by intros []|]. by intros [? _]. }
  assert (dedupe_doc_id left ≠ dedupe_doc_id right) as Hid.
  { intros E. apply str_eqb_eq in E. congruence. }
  destruct (dedupe_name left) as [n|], (dedupe_name right) as [n'|];
    try (split; [split; [by intros []|by intros (_ & (? & ? & ?) & _)]|done]).
  destruct (str_eqb n n') eqn:En; cbn [negb].
  2: { split; [|done]. split; [by intros []|]. intros (_ & (? & [= <-] & [= <-]) & _).
       unfold str_eqb in En. by rewrite bool_decide_eq_false in En. }
  apply str_eqb_eq in En as <-. rewrite H70. destruct (enough_evidence _ _ _).
  - split; [split; [intros _; eauto|done]|]. intros s [= <-]. cbn [confidence]. by rewrite H70.
  - split; [|done]. split; [by intros []|by intros (_ & _ & ?)].
Qed.

(** Duplicate scoring is symmetric: swapping two built profiles swaps the
    document ids and keeps the confidence and the evidence counts. *)
Theorem soft_dedupe_score_symmetric left right s :
  ssorted (dedupe_schools left) → ssorted (dedupe_schools right) →
  ssorted (dedupe_companies left) → ssorted (dedupe_companies right) →
  ssorted (dedupe_skills left) → ssorted (dedupe_skills right) →
  soft_dedupe_score left right = Some s →
  soft_dedupe_score right left =
    Some (MkDedupeScore (right_doc_id s) (left_doc_id s) (confidence s)
            (shared_school_count s) (shared_company_count s) (shared_skill_count s)).
Proof.
  intros H1 H2 H3 H4 H5 H6. unfold soft_dedupe_score.
  rewrite (intersection_count_comm (dedupe_schools right)),
    (intersection_count_comm (dedupe_companies right)),
    (intersection_count_comm (dedupe_skills right)) by done.
  unfold str_eqb. destruct (bool_decide _) eqn:E1; [done|].
  apply bool_decide_eq_false in E1. rewrite (bool_decide_eq_false_2 (_ = dedupe_doc_id left)) by auto.
  destruct (dedupe_name left) as [n|], (dedupe_name right) as [n'|]; try done.
  destruct (bool_decide (n = n')) eqn:E2; [|done]. apply bool_decide_eq_true in E2 as <-.
  rewrite bool_decide_eq_true_2 by done. cbn [negb].
  destruct (f32_gt _ _); [|done]. by intros [= <-].
Qed.

(** ** Folding by candidate *)

Lemma fold_loop_spec seen hits :
  ssorted seen →
  NoDup (fold_key <$> fold_by_candidate_loop seen hits) ∧
  (∀ h, h ∈ fold_by_candidate_loop seen hits → fold_key h ∉ seen) ∧
  fold_by_candidate_loop seen hits `sublist_of` hits ∧
  (∀ key, key ∉ seen →
     List.find (λ h, str_eqb (fold_key h) key) (fold_by_candidate_loop seen hits)
     = List.find (λ h, str_eqb (fold_key h) key) hits).
Proof.
  revert seen. induction hits as [|h hits IH]; intros seen Hs; cbn [fold_by_candidate_loop].
  { split_and!; [constructor|by intros h ?%elem_of_nil|done|done]. }
  destruct (bset_contains (fold_key h) seen) eqn:E.
  - apply bset_contains_spec in E; [|done]. destruct (IH seen Hs) as (H1 & H2 & H3 & H4).
    split_and!; [done|done|by constructor|]. intros key Hkey. rewrite H4 by done. cbn [List.find].
    destruct (str_eqb _ _) eqn:Ek; [|done]. apply str_eqb_eq in Ek. congruence.
  - assert (ssorted (bset_insert (fold_key h) seen)) as Hs' by by apply bset_insert_sorted.
    destruct (IH _ Hs') as (H1 & H2 & H3 & H4). setoid_rewrite elem_of_bset_insert in H2.
    setoid_rewrite elem_of_bset_insert in H4.
    split_and!; [| |by constructor|].
    + rewrite fmap_cons. constructor; [|done]. intros (h' & E' & Hin)%list_elem_of_fmap.
      apply (H2 h' Hin). by left.
    + intros h' [->|Hin]%elem_of_cons; [|intros ?; apply (H2 h' Hin); by right].
      rewrite <- bset_contains_spec by done. by rewrite E.
    + intros key Hkey. cbn [List.find]. destruct (str_eqb _ _) eqn:Ek; [done|]. apply H4.
      intros [->|?]; [|done]. apply not_true_iff_false in Ek. by destruct Ek; apply str_eqb_eq.
Qed.

(** Folding keeps, in order, exactly the first hit of every candidate:
    no two kept hits share a key, the result is a subsequence of the input, and
    for every key the first hit with that key is the same before and after. *)
Theorem fold_by_candidate_spec hits :
  NoDup (fold_key <$> fold_by_candidate hits) ∧
  fold_by_candidate hits `sublist_of` hits ∧
  (∀ key, List.find (λ h, str_eqb (fold_key h) key) (fold_by_candidate hits)
          = List.find (λ h, str_eqb (fold_key h) key) hits).
Proof.
  destruct (fold_loop_spec [] hits) as (H1 & _ & H3 & H4); [constructor|].
  split_and!; [done|done|]. intros key. by apply H4, not_elem_of_nil.
Qed.

(** ** Fusion: scores *)

(** The reference reading of a fused score: the contributions of a document,
    channel by channel in rank order, summed from zero. *)
Fixpoint channel_contributions (k : f32) (index : Z) (doc : str) (channel : list str) : list f32 :=
  match channel with
  | [] => []
  | d :: channel =>
      (if str_eqb d doc then [rrf_contribution k (index + 1)] else [])
      ++ channel_contributions k (index + 1) doc channel
  end.

Definition contributions (k : f32) (doc : str) (channels : list (list str)) : list f32 :=
  concat (map (channel_contributions k 0 doc) channels).

Definition accumulate (old : option f32) (cs : list f32) : option f32 :=
  fold_left (λ old c, Some (f32_add (default f32_zero old) c)) cs old.

Lemma accumulate_app o cs ds : accumulate o (cs ++ ds) = accumulate (accumulate o cs) ds.
Proof. apply fold_left_app. Qed.

Lemma accumulate_cons o c cs :
  accumulate o (c :: cs) = Some (fold_left f32_add (c :: cs) (default f32_zero o)).
Proof.
  revert o c. induction cs as [|d cs IH]; intros o c; [done|]. unfold accumulate in *. apply IH.
Qed.

Lemma add_score_sorted k r d m : ssorted m.*1 → ssorted (add_score k r d m).*1.
Proof. apply bmap_entry_sorted. Qed.

Lemma score_channel_spec k i ch m :
  ssorted m.*1 →
  ssorted (score_channel k i ch m).*1 ∧
  ∀ d, bmap_lookup d (score_channel k i ch m)
       = accumulate (bmap_lookup d m) (channel_contributions k i d ch).
Proof.
  revert i m. induction ch as [|e ch IH]; intros i m Hm; [done|]. cbn [score_channel].
  destruct (IH (i + 1) (add_score k (i + 1) e m)) as [H1 H2]; [by apply add_score_sorted|].
  split; [done|]. intros d. rewrite H2. cbn [channel_contributions]. rewrite accumulate_app.
  f_equal. unfold str_eqb, add_score. destruct (decide (e = d)) as [->|Hne].
  - rewrite bool_decide_eq_true_2 by done. by rewrite bmap_lookup_entry.
  - rewrite bool_decide_eq_false_2 by done. by rewrite bmap_lookup_entry_ne by auto.
Qed.

Lemma rrf_scores_acc k chs m :
  ssorted m.*1 →
  ssorted (fold_left (λ scores channel, score_channel k 0 channel scores) chs m).*1 ∧
  ∀ d, bmap_lookup d (fold_left (λ scores channel, score_channel k 0 channel scores) chs m)
       = accumulate (bmap_lookup d m) (contributions k d chs).
Proof.
  revert m. induction chs as [|ch chs IH]; intros m Hm; [done|]. cbn [fold_left].
  destruct (score_channel_spec k 0 ch m Hm) as [H1 H2]. destruct (IH _ H1) as [H3 H4].
  split; [done|]. intros d. rewrite H4, H2. unfold contributions. cbn [map concat].
  by rewrite accumulate_app.
Qed.

Lemma channel_contributions_nil k i d ch : channel_contributions k i d ch = [] ↔ d ∉ ch.
Proof.
  revert i. induction ch as [|e ch IH]; intros i; cbn [channel_contributions].
  { split; [intros _; apply not_elem_of_nil|done]. }
  rewrite not_elem_of_cons. unfold str_eqb. destruct (decide (e = d)) as [->|Hne].
  - rewrite bool_decide_eq_true_2 by done. split; [done|]. by intros [].
  - rewrite bool_decide_eq_false_2 by done. cbn [app]. rewrite IH. naive_solver.
Qed.

Lemma contributions_nil k d chs : contributions k d chs = [] ↔ ∀ ch, ch ∈ chs → d ∉ ch.
Proof.
  unfold contributions. induction chs as [|ch chs IH]; cbn [map concat].
  { split; [by intros _ ch ?%elem_of_nil|done]. }
  rewrite app_nil, IH, channel_contributions_nil. setoid_rewrite elem_of_cons. naive_solver.
Qed.

(** Every contribution, hence every sum, is a number without a minus sign. *)
Lemma f32_one_finite : f32_one = S754_finite false 8388608 (-23).
Proof. vm_compute. reflexivity. Qed.

Lemma rrf_contribution_nonneg k r :
  0 ≤ r → f32_nonneg (rrf_contribution (f32_max k f32_one) r) = true.
Proof.
  intros Hr. unfold rrf_contribution. rewrite f32_one_finite. apply f32_div_nonneg, f32_add_nonneg.
  - apply f32_max_nonneg.
  - by apply f32_of_Z_nonneg.
Qed.

Lemma channel_contributions_nonneg k i d ch :
  0 ≤ i → Forall (λ x, f32_nonneg x = true) (channel_contributions (f32_max k f32_one) i d ch).
Proof.
  revert i. induction ch as [|e ch IH]; intros i Hi; cbn [channel_contributions]; [constructor|].
  apply Forall_app. split; [|apply IH; lia]. destruct (str_eqb e d); [|constructor].
  apply Forall_singleton, rrf_contribution_nonneg. lia.
Qed.

Lemma contributions_nonneg k d chs :
  Forall (λ x, f32_nonneg x = true) (contributions (f32_max k f32_one) d chs).
Proof.
  unfold contributions. induction chs as [|ch chs IH]; cbn; [constructor|].
  apply Forall_app. split; [apply channel_contributions_nonneg; lia|done].
Qed.

Lemma sum_nonneg cs x :
  f32_nonneg x = true → Forall (λ x, f32_nonneg x = true) cs →
  f32_nonneg (fold_left f32_add cs x) = true.
Proof.
  intros Hx Hcs. revert x Hx. induction Hcs as [|c cs Hc Hcs IH]; intros x Hx; cbn [fold_left]; [done|].
  apply IH. by apply f32_add_nonneg.
Qed.

(** The score table: one entry per document of some channel, with its sum. *)
Lemma rrf_scores_spec chs k d s :
  (d, s) ∈ rrf_scores chs k ↔
  (∃ ch, ch ∈ chs ∧ d ∈ ch) ∧ s = fold_left f32_add (contributions k d chs) f32_zero.
Proof.
  unfold rrf_scores. destruct (rrf_scores_acc k chs []) as [Hs Hl]; [constructor|].
  rewrite elem_of_bmap_lookup, Hl by done. cbn [bmap_lookup].
  assert ((∃ ch, ch ∈ chs ∧ d ∈ ch) ↔ contributions k d chs ≠ []) as ->.
  { rewrite contributions_nil. split; [naive_solver|]. intros Hn.
    destruct (decide (Exists (λ ch, d ∈ ch) chs)) as [He|He]; [by apply Exists_exists in He|].
    destruct Hn. intros ch Hch Hd. apply He, Exists_exists. eauto. }
  destruct (contributions k d chs) as [|c cs]; [split; [done|by intros []]|].
  rewrite accumulate_cons. cbn [default]. naive_solver.
Qed.

Lemma rrf_scores_NoDup chs k : NoDup (rrf_scores chs k).*1.
Proof. apply ssorted_NoDup, rrf_scores_acc. constructor. Qed.

Lemma rrf_scores_nonneg chs k :
  Forall (λ x, f32_nonneg x.2 = true) (rrf_scores chs (f32_max k f32_one)).
Proof.
  apply Forall_forall. intros [d s] [_ ->]%rrf_scores_spec. cbn.
  by apply sum_nonneg, contributions_nonneg.
Qed.

(** ** Fusion: order and numbering *)

Definition neg_key (k : Z * Z * Z) : Z * Z * Z := (- k.1.1, - k.1.2, - k.2).

Lemma cmp_neg_key k j : cmp (neg_key k) (neg_key j) = cmp j k.
Proof.
  destruct k as [[a b] c], j as [[a' b'] c']. unfold neg_key. cbn [fst snd].
  rewrite !prod_cmp_unfold. unfold cmp, Z_cmp. by rewrite !Z.compare_opp.
Qed.

(** The comparator is a lawful order on entries whose score is a number. *)
Definition fused_key (x : str * f32) : (Z * Z * Z) * str := (neg_key (f32_key x.2), x.1).

Definition numeric (x : str * f32) : Prop := f32_is_nan x.2 = false.

Lemma fused_cmp_key x y :
  numeric x → numeric y → fused_cmp x y = cmp (fused_key x) (fused_key y).
Proof.
  intros Hx Hy. unfold fused_cmp, fused_key. rewrite score_desc_key by done.
  by rewrite prod_cmp_unfold, cmp_neg_key.
Qed.

Lemma fused_sorted l : Forall numeric l → StronglySorted (sort_le fused_cmp) (sort_by fused_cmp l).
Proof.
  apply sort_by_sorted.
  - intros x y Hx Hy. unfold sort_le. rewrite !fused_cmp_key by done. apply sort_le_cmp_total.
  - intros x y z Hx Hy Hz. unfold sort_le. rewrite !fused_cmp_key by done. apply sort_le_cmp_trans.
Qed.

(** [x] is ranked before [y]: a greater score, or an equal score and a smaller
    document id. *)
Definition ranked_before (x y : RankedHit) : Prop :=
  f32_partial_cmp (hit_score x) (hit_score y) = Some Gt ∨
  (f32_partial_cmp (hit_score x) (hit_score y) = Some Eq ∧
   cmp_lt (hit_doc_id x) (hit_doc_id y)).

Lemma fused_le_ranked x y :
  numeric x → numeric y → x.1 ≠ y.1 → sort_le fused_cmp x y →
  ∀ i j kx ky, ranked_before (MkHit x.1 i x.2 kx) (MkHit y.1 j y.2 ky).
Proof.
  intros Hx Hy Hne Hle i j kx ky. unfold ranked_before; cbn.
  unfold sort_le, fused_cmp, score_desc in Hle. unfold cmp_lt.
  destruct (f32_cmp_total x.2 y.2) as [c Hc]; [done..|].
  assert (f32_partial_cmp y.2 x.2 = Some (CompOpp c)) as Hc' by by rewrite f32_cmp_opp, Hc.
  rewrite Hc' in Hle. rewrite Hc.
  destruct c; cbn in *; [right|done|by left]. split; [done|].
  destruct (cmp x.1 y.1) eqn:E; [|done|done]. by apply cmp_eq in E.
Qed.

(** Numbering and key attachment keep the documents and scores in order. *)
Definition hit_entry (h : RankedHit) : str * f32 := (hit_doc_id h, hit_score h).

Lemma number_hits_spec i l :
  hit_entry <$> number_hits i l = l ∧
  hit_rank <$> number_hits i l = (λ n, i + 1 + Z.of_nat n) <$> seq 0 (length l).
Proof.
  revert i. induction l as [|[d s] l IH]; intros i; [done|]. cbn [number_hits].
  rewrite !fmap_cons. destruct (IH (i + 1)) as [-> ->]. split; [done|].
  cbn [length seq]. rewrite fmap_cons. f_equal; [cbn; lia|].
  rewrite <- fmap_S_seq, <- list_fmap_compose. apply list_fmap_ext. intros ?? _. cbn. lia.
Qed.

Lemma ssorted_hits (l : list RankedHit) :
  StronglySorted (sort_le fused_cmp) (hit_entry <$> l) → Forall numeric (hit_entry <$> l) →
  NoDup (hit_doc_id <$> l) →
  StronglySorted ranked_before l.
Proof.
  induction l as [|h l IH]; [constructor|]. rewrite !fmap_cons. intros Hs Hn Hd.
  inversion Hs as [|?? Hs' Hall]; inversion Hn as [|?? Hnh Hn']; inversion Hd as [|?? Hin Hd']; subst.
  constructor; [auto|]. rewrite Forall_forall in Hall, Hn'. apply Forall_forall. intros y Hy.
  assert (hit_entry y ∈ hit_entry <$> l) as Hy' by (apply list_elem_of_fmap; eauto).
  destruct h as [dh rh sh kh], y as [dy ry sy ky].
  apply (fused_le_ranked (dh, sh) (dy, sy)); [done|by apply (Hn' _ Hy')| |by apply (Hall _ Hy')].
  cbn. intros ->. apply Hin. apply list_elem_of_fmap. by exists (MkHit dy ry sy ky).
Qed.

(** What a fused ranking of [chs] is. *)
Record fused_ranking (chs : list (list str)) (k : f32) (hits : list RankedHit) : Prop := {
  fused_unique : NoDup (hit_doc_id <$> hits);
  fused_members : ∀ d, d ∈ hit_doc_id <$> hits ↔ ∃ ch, ch ∈ chs ∧ d ∈ ch;
  fused_scores : ∀ h, h ∈ hits →
    hit_score h = fold_left f32_add (contributions (f32_max k f32_one) (hit_doc_id h) chs) f32_zero;
  fused_numeric : ∀ h, h ∈ hits → f32_nonneg (hit_score h) = true;
  fused_order : StronglySorted ranked_before hits;
  fused_ranks : hit_rank <$> hits = (λ n, 1 + Z.of_nat n) <$> seq 0 (length hits);
}.

Lemma fused_ranking_intro chs k hits :
  hit_entry <$> hits = sort_by fused_cmp (rrf_scores chs (f32_max k f32_one)) →
  hit_rank <$> hits = (λ n, 1 + Z.of_nat n) <$> seq 0 (length hits) →
  fused_ranking chs k hits.
Proof.
  intros He Hr. set (l := rrf_scores chs (f32_max k f32_one)) in *.
  assert (hit_doc_id <$> hits = (hit_entry <$> hits).*1) as Hids.
  { rewrite <- list_fmap_compose. by apply list_fmap_ext. }
  assert (NoDup (hit_doc_id <$> hits)) as Hnd.
  { rewrite Hids, He, sort_by_perm. apply rrf_scores_NoDup. }
  assert (∀ h, h ∈ hits → hit_entry h ∈ l) as Hin.
  { intros h Hh. rewrite <- (sort_by_perm fused_cmp l), <- He. apply list_elem_of_fmap. eauto. }
  pose proof (rrf_scores_nonneg chs k) as Hnn. fold l in Hnn. rewrite Forall_forall in Hnn.
  split; [done| | | | |done].
  - intros d. rewrite Hids, He, sort_by_perm, list_elem_of_fmap. split.
    + intros ([d' s] & -> & [Hd _]%rrf_scores_spec). done.
    + intros Hd. exists (d, fold_left f32_add (contributions (f32_max k f32_one) d chs) f32_zero).
      split; [done|]. by apply rrf_scores_spec.
  - intros h Hh%Hin. by apply rrf_scores_spec in Hh as [_ ->].
  - intros h Hh%Hin. by apply Hnn in Hh.
  - assert (Forall numeric l) as Hnum.
    { apply Forall_forall. intros x Hx%Hnn. by apply f32_nonneg_not_nan. }
    apply ssorted_hits; [rewrite He; by apply fused_sorted| |done].
    by rewrite He, sort_by_perm.
Qed.

Lemma fused_ranking_of_ids channels k :
  fused_ranking channels k (reciprocal_rank_fusion channels k).
Proof.
  unfold reciprocal_rank_fusion.
  destruct (number_hits_spec 0 (sort_by fused_cmp (rrf_scores channels (f32_max k f32_one))))
    as [He Hr].
  apply fused_ranking_intro; [done|]. rewrite Hr. f_equal. f_equal.
  by rewrite <- He at 1; rewrite length_fmap.
Qed.

(** Reciprocal rank fusion is correct for any [k], NaN and infinities
    included: every document of some channel appears once, with the sum of
    its reciprocal-rank contributions as a number without minus sign; the
    result is ordered by score, ties by document id; ranks count from 1. *)
Theorem reciprocal_rank_fusion_spec channels k :
  fused_ranking channels k (reciprocal_rank_fusion channels k).
Proof. apply fused_ranking_of_ids. Qed.

(** ** Fusion of hits: the same ranking, with candidate keys *)

Definition drop_key (h : RankedHit) : RankedHit :=
  ranked_hit_new (hit_doc_id h) (hit_rank h) (hit_score h).

Lemma attach_keys_drop i keys l : drop_key <$> attach_keys i keys l = number_hits i l.
Proof.
  revert i keys. induction l as [|[d s] l IH]; intros i keys; [done|].
  cbn [attach_keys number_hits]. rewrite fmap_cons, IH. f_equal.
  by destruct (bmap_lookup d keys) as [[]|].
Qed.

Lemma attach_keys_key i keys l h :
  ssorted keys.*1 → NoDup l.*1 → h ∈ attach_keys i keys l →
  candidate_key h = mjoin (bmap_lookup (hit_doc_id h) keys).
Proof.
  revert i keys. induction l as [|[d s] l IH]; intros i keys Hk Hd; [by intros ?%elem_of_nil|].
  cbn [attach_keys]. rewrite fmap_cons in Hd. inversion Hd as [|?? Hin Hd']; subst.
  intros [->|Hh]%elem_of_cons.
  { by destruct (bmap_lookup d keys) as [[key|]|] eqn:E; cbn; rewrite E. }
  rewrite (IH _ _ (bmap_remove_sorted d keys Hk) Hd' Hh). f_equal.
  apply bmap_lookup_remove_ne; [done|]. intros E. apply Hin. cbn. rewrite <- E.
  pose proof (attach_keys_drop (i + 1) (bmap_remove d keys) l) as Hdrop.
  destruct (number_hits_spec (i + 1) l) as [Hent _]. rewrite <- Hdrop in Hent.
  rewrite <- Hent, <- !list_fmap_compose. apply list_elem_of_fmap. by exists h.
Qed.

(** Each component of the scan over hits, on its own. *)
Lemma score_hit_channel_fst k i ch st :
  (score_hit_channel k i ch st).1 = score_channel k i (map hit_doc_id ch) st.1.
Proof.
  revert i st. induction ch as [|h ch IH]; intros i [sc ks]; [done|].
  cbn [score_hit_channel map score_channel]. by rewrite IH.
Qed.

Lemma rrf_hit_state_fst k chs st :
  (fold_left (λ st channel, score_hit_channel k 0 channel st) chs st).1
  = fold_left (λ scores channel, score_channel k 0 channel scores) (map (map hit_doc_id) chs) st.1.
Proof.
  revert st. induction chs as [|ch chs IH]; intros st; [done|].
  cbn [fold_left map]. by rewrite IH, score_hit_channel_fst.
Qed.

Definition first_hit (d : str) (hits : list RankedHit) : option RankedHit :=
  List.find (λ h, str_eqb (hit_doc_id h) d) hits.

Lemma score_hit_channel_snd k i ch st d :
  ssorted st.2.*1 →
  ssorted (score_hit_channel k i ch st).2.*1 ∧
  bmap_lookup d (score_hit_channel k i ch st).2 =
  match bmap_lookup d st.2 with
  | Some key => Some key
  | None => candidate_key <$> first_hit d ch
  end.
Proof.
  revert i st. induction ch as [|h ch IH]; intros i [sc ks] Hs; cbn [snd] in *.
  { split; [done|]. cbn. by destruct (bmap_lookup d ks). }
  cbn [score_hit_channel].
  edestruct (IH (i + 1)) as [H1 H2]; [|split; [exact H1|rewrite H2]].
  { cbn [snd]. by apply bmap_entry_sorted. }
  cbn [snd]. unfold first_hit. cbn [List.find]. unfold str_eqb at 2.
  destruct (decide (hit_doc_id h = d)) as [<-|Hne].
  - rewrite bool_decide_eq_true_2 by done. rewrite bmap_lookup_entry by done.
    by destruct (bmap_lookup _ ks).
  - rewrite bool_decide_eq_false_2 by done. by rewrite bmap_lookup_entry_ne by auto.
Qed.

Lemma first_hit_app d l l' :
  first_hit d (l ++ l') = match first_hit d l with Some h => Some h | None => first_hit d l' end.
Proof.
  unfold first_hit. induction l as [|h l IH]; cbn; [done|]. by destruct (str_eqb _ _).
Qed.

Lemma rrf_hit_state_snd k chs st d :
  ssorted st.2.*1 →
  ssorted (fold_left (λ st channel, score_hit_channel k 0 channel st) chs st).2.*1 ∧
  bmap_lookup d (fold_left (λ st channel, score_hit_channel k 0 channel st) chs st).2 =
  match bmap_lookup d st.2 with
  | Some key => Some key
  | None => candidate_key <$> first_hit d (concat chs)
  end.
Proof.
  revert st. induction chs as [|ch chs IH]; intros st Hs; cbn [fold_left].
  { split; [done|]. cbn. by destruct (bmap_lookup d st.2). }
  destruct (score_hit_channel_snd k 0 ch st d Hs) as [H1 H2]. destruct (IH _ H1) as [H3 H4].
  split; [done|]. rewrite H4, H2. cbn [concat]. rewrite first_hit_app.
  destruct (bmap_lookup d st.2); [done|]. by destruct (first_hit d ch).
Qed.

Lemma rrf_hits_facts channels k :
  let hits := reciprocal_rank_fusion_hits channels k in
  drop_key <$> hits = reciprocal_rank_fusion (map (map hit_doc_id) channels) k ∧
  ∀ h, h ∈ hits → candidate_key h = first_hit (hit_doc_id h) (concat channels) ≫= candidate_key.
Proof.
  unfold reciprocal_rank_fusion_hits, reciprocal_rank_fusion, rrf_scores.
  destruct (rrf_hit_state channels (f32_max k f32_one)) as [scores keys] eqn:E.
  unfold rrf_hit_state in E.
  pose proof (rrf_hit_state_fst (f32_max k f32_one) channels ([], [])) as H1.
  rewrite E in H1. cbn [fst] in H1. subst scores. split; [apply attach_keys_drop|].
  intros h Hh. destruct (rrf_hit_state_snd (f32_max k f32_one) channels ([], []) (hit_doc_id h))
    as [H2 H3]; [constructor|]. rewrite E in H2, H3. cbn [snd bmap_lookup] in H2, H3.
  apply attach_keys_key in Hh; [|done|rewrite sort_by_perm; apply rrf_scores_NoDup].
  rewrite Hh, H3. by destruct (first_hit _ _).
Qed.

Lemma drop_key_fields hits rs :
  drop_key <$> hits = rs →
  hit_entry <$> hits = hit_entry <$> rs ∧ hit_rank <$> hits = hit_rank <$> rs ∧
  length hits = length rs.
Proof.
  intros <-. rewrite length_fmap, <- !list_fmap_compose. split_and!; [|..|done];
    by apply list_fmap_ext.
Qed.

Lemma drop_key_sorted hits rs :
  drop_key <$> hits = rs → StronglySorted ranked_before rs → StronglySorted ranked_before hits.
Proof.
  intros <-. induction hits as [|h hits IH]; [constructor|]. rewrite fmap_cons. intros Hs.
  inversion Hs as [|?? Hs' Hall]; subst. constructor; [auto|].
  rewrite Forall_forall in Hall. apply Forall_forall. intros y Hy.
  apply (Hall (drop_key y)). apply list_elem_of_fmap. eauto.
Qed.

Lemma rrf_hits_fused channels k :
  fused_ranking (map (map hit_doc_id) channels) k (reciprocal_rank_fusion_hits channels k).
Proof.
  set (hits := reciprocal_rank_fusion_hits channels k).
  destruct (rrf_hits_facts channels k) as [Hd _]. fold hits in Hd.
  destruct (drop_key_fields _ _ Hd) as (He & Hr & Hl).
  unfold reciprocal_rank_fusion in He, Hr, Hl.
  destruct (number_hits_spec 0
    (sort_by fused_cmp (rrf_scores (map (map hit_doc_id) channels) (f32_max k f32_one))))
    as [He' Hr'].
  apply fused_ranking_intro; [congruence|]. rewrite Hr, Hr', Hl. f_equal. f_equal.
  by rewrite <- He' at 1; rewrite length_fmap.
Qed.

(** C14: fusing hits gives the ranking of their document ids, each hit carrying
    the candidate key of the first hit of its document across the channels. *)
Theorem reciprocal_rank_fusion_hits_spec channels k :
  let hits := reciprocal_rank_fusion_hits channels k in
  fused_ranking (map (map hit_doc_id) channels) k hits ∧
  drop_key <$> hits = reciprocal_rank_fusion (map (map hit_doc_id) channels) k ∧
  ∀ h, h ∈ hits → candidate_key h = first_hit (hit_doc_id h) (concat channels) ≫= candidate_key.
Proof. split; [apply rrf_hits_fused|apply rrf_hits_facts]. Qed.

Lemma fuse_hybrid_split recall k limit :
  reciprocal_rank_fusion_hits [fulltext recall; vector recall] k
  = fuse_hybrid_rrf recall k limit
    ++ drop (Z.to_nat limit) (reciprocal_rank_fusion_hits [fulltext recall; vector recall] k).
Proof. unfold fuse_hybrid_rrf. by rewrite take_drop. Qed.

Lemma StronglySorted_app_lt {A} (R : A → A → Prop) l r x y :
  StronglySorted R (l ++ r) → x ∈ l → y ∈ r → R x y.
Proof.
  induction l as [|a l IH]; [by intros _ ?%elem_of_nil|]. cbn.
  intros Hs. inversion Hs as [|?? Hs' Hall]; subst. rewrite Forall_forall in Hall.
  intros [->|Hx]%elem_of_cons Hy; [apply Hall; set_solver|by apply IH].
Qed.

(** Hybrid fusion returns at most [limit] hits, as many as there are, and
    they are the best ones: every fused hit that is cut off is ranked after
    every hit that is kept. *)
Theorem fuse_hybrid_rrf_top recall k limit :
  0 ≤ limit →
  let all := reciprocal_rank_fusion_hits [fulltext recall; vector recall] k in
  let kept := fuse_hybrid_rrf recall k limit in
  Z.of_nat (length kept) = Z.min limit (Z.of_nat (length all)) ∧
  (∀ x, x ∈ kept → x ∈ all) ∧
  (∀ x y, x ∈ kept → y ∈ all → y ∉ kept → ranked_before x y).
Proof.
  intros Hlimit all kept. pose proof (fuse_hybrid_split recall k limit) as Hsplit.
  fold all kept in Hsplit. split_and!.
  - unfold kept, fuse_hybrid_rrf. fold all. rewrite length_take. lia.
  - intros x Hx. rewrite Hsplit. set_solver.
  - intros x y Hx Hy Hny. rewrite Hsplit in Hy. apply elem_of_app in Hy as [?|Hy]; [done|].
    eapply (StronglySorted_app_lt ranked_before kept); [|done|exact Hy]. rewrite <- Hsplit.
    destruct (rrf_hits_facts [fulltext recall; vector recall] k) as [Hd _].
    apply (drop_key_sorted _ _ Hd). eapply fused_order, fused_ranking_of_ids.
Qed.

(** ** Concrete instances *)

Definition sample_left : DedupeProfile :=
  dedupe_with_skills (dedupe_with_schools
    (dedupe_with_name (dedupe_new (lit "doc_1")) (lit "Ada  Lovelace")) [lit "Tsinghua"])
    [lit "Rust"; lit "Go"].
Definition sample_right : DedupeProfile :=
  dedupe_with_skills (dedupe_with_schools
    (dedupe_with_name (dedupe_new (lit "doc_2")) (lit "ada lovelace")) [lit "TSINGHUA"])
    [lit "rust"].

Lemma soft_dedupe_score_symmetric_witness :
  is_Some (soft_dedupe_score sample_right sample_left).
Proof.
  destruct (soft_dedupe_score sample_left sample_right) as [s|] eqn:E; [|vm_compute in E; discriminate E].
  eexists. apply (soft_dedupe_score_symmetric sample_left sample_right s); [..|exact E];
    apply bset_collect_sorted || constructor.
Defined.

Definition sample_recall : HybridRecall :=
  MkRecall
    [ranked_hit_new (lit "a") 1 f32_one; ranked_hit_new (lit "b") 2 f32_one]
    [with_candidate_key (ranked_hit_new (lit "b") 1 f32_one) (lit "cand")].

(** Document [b] is in both channels and wins; its first hit has no key. *)
Lemma fuse_hybrid_rrf_top_witness :
  (hit_doc_id <$> fuse_hybrid_rrf sample_recall (f32_of_Z 60) 1) = [lit "b"] ∧
  Z.of_nat (length (fuse_hybrid_rrf sample_recall (f32_of_Z 60) 1)) = 1.
Proof.
  split; [vm_compute; reflexivity|].
  rewrite (proj1 (fuse_hybrid_rrf_top sample_recall (f32_of_Z 60) 1 ltac:(lia))).
  vm_compute. reflexivity.
Defined.
