(* ===== verification/TextNormalizer.v ===== *)
(** * Text normalization with provenance (crates/text-normalizer)

    Cleaning of extracted resume text: line splitting, white-space squeezing,
    repair of letter-spaced words, removal of page numbers and of repeated
    short lines, blank-line collapsing.  One variant keeps for every byte of
    the cleaned text the source range it came from; the other keeps the text
    only. *)

From Stdlib Require Import ZArith String.
From stdpp Require Import prelude gmap.
From S2P Require Import Prelude Collections Text.

Local Open Scope Z_scope.

(** [Range<usize>]: start, end. *)
Abbreviation range := (Z * Z)%type.

Record NormalizedText := MkNormalized { text : str; byte_origins : list range }.

Record Line := MkLine { line_text : str; line_origins : list range }.

Definition line_default : Line := MkLine [] [].

Definition line_is_blank (self : Line) : bool := is_empty (line_text self).

Definition push_char (self : Line) (character : char) (origin : range) : Line :=
  MkLine (line_text self ++ [character])
         (line_origins self ++ replicate (Z.to_nat (len_utf8 character)) origin).

(** [s.char_indices()], from byte offset [start]. *)
Fixpoint char_indices_from (start : Z) (s : str) : list (Z * char) :=
  match s with
  | [] => []
  | c :: s => (start, c) :: char_indices_from (start + len_utf8 c) s
  end.
Definition char_indices (s : str) : list (Z * char) := char_indices_from 0 s.

(** [v[start..end]] of a vector, for [start <= end <= v.len()]. *)
Definition slice {A} (v : list A) (start end_ : Z) : list A :=
  take (Z.to_nat (end_ - start)) (drop (Z.to_nat start) v).

(** ** Character classes *)

Definition is_horizontal_space (c : char) : bool :=
  is_whitespace c && negb (c =? 10) && negb (c =? 13).

Definition sanitize_inline_character (c : char) : char := if is_control c then 32 else c.

Definition is_page_number_line (text : str) : bool :=
  let lower := to_ascii_lowercase text in
  starts_with (lit "page ") lower && contains (lit " of ") lower
  && existsb is_ascii_digit lower.

(** ** Lines of the source *)

Fixpoint source_lines_loop (start : Z) (line : Line) (s : str) : list Line :=
  match s with
  | [] => [line]
  | character :: rest =>
      let end_ := start + len_utf8 character in
      if character =? 13 then
        match rest with
        | next :: rest' =>
            if next =? 10
            then line :: source_lines_loop (end_ + len_utf8 next) line_default rest'
            else line :: source_lines_loop end_ line_default rest
        | [] => line :: source_lines_loop end_ line_default rest
        end
      else if (character =? 10) || (character =? 12) then
        line :: source_lines_loop end_ line_default rest
      else
        source_lines_loop end_
          (push_char line (sanitize_inline_character character) (start, end_)) rest
  end.

Definition source_lines (source : str) : list Line := source_lines_loop 0 line_default source.

Fixpoint source_text_lines_loop (line : str) (s : str) : list str :=
  match s with
  | [] => [line]
  | character :: rest =>
      if character =? 13 then
        match rest with
        | next :: rest' =>
            if next =? 10 then line :: source_text_lines_loop [] rest'
            else line :: source_text_lines_loop [] rest
        | [] => line :: source_text_lines_loop [] rest
        end
      else if (character =? 10) || (character =? 12) then
        line :: source_text_lines_loop [] rest
      else source_text_lines_loop (line ++ [sanitize_inline_character character]) rest
  end.

Definition source_text_lines (source : str) : list str := source_text_lines_loop [] source.

(** ** One line *)

(** [start = start.min(origin.start); end = end.max(origin.end);] *)
Definition widen (bounds origin : range) : range :=
  let '(start, end_) := bounds in (Z.min start origin.1, Z.max end_ origin.2).

Definition merged_origin (origins : list range) : range :=
  let '(start, end_) := fold_left widen origins (usize_MAX, 0) in
  if start =? usize_MAX then (0, 0) else (start, end_).

(** The characters of a line with their merged origins. *)
Definition line_chars (line : Line) : list (char * range) :=
  map (λ '(start, character),
         (character, merged_origin (slice (line_origins line) start (start + len_utf8 character))))
    (char_indices (line_text line)).

(** [Iterator::position] and [rposition]. *)
Fixpoint position {A} (p : A → bool) (l : list A) : option nat :=
  match l with
  | [] => None
  | x :: l => if p x then Some O else S <$> position p l
  end.
Definition rposition {A} (p : A → bool) (l : list A) : option nat :=
  (λ n, (length l - 1 - n)%nat) <$> position p (reverse l).

(** The loop over the trimmed characters. *)
Fixpoint squeeze_loop (chars : list (char * range)) (pending_space : option range)
    (output : Line) : Line :=
  match chars with
  | [] => output
  | (character, origin) :: chars =>
      if is_horizontal_space character then
        squeeze_loop chars
          (Some (match pending_space with
                 | Some existing =>
                     (Z.min existing.1 origin.1, Z.max existing.2 origin.2)
                 | None => origin
                 end)) output
      else
        let output :=
          match pending_space with
          | Some space_origin => push_char output 32 space_origin
          | None => output
          end in
        squeeze_loop chars None (push_char output character origin)
  end.

(** [tokens.len() >= 4] and every token is one ASCII letter. *)
Definition is_spaced_ascii_word (text : str) : bool :=
  let tokens := split_on (Z.eqb 32) text in
  negb ((Z.of_nat (length tokens) <? 4)
        || negb (forallb (λ token, (str_len token =? 1)
                   && existsb is_ascii_alphabetic (take 1 (utf8 token))) tokens)).

Definition repair_spaced_ascii_word (line : Line) : Line :=
  if is_spaced_ascii_word (line_text line) then
    fold_left
      (λ output '(start, character),
         if character =? 32 then output
         else push_char output character
                (merged_origin (slice (line_origins line) start (start + len_utf8 character))))
      (char_indices (line_text line)) line_default
  else line.

Definition not_space_item (x : char * range) : bool := negb (is_horizontal_space x.1).

Definition normalize_line (line : Line) : Line :=
  let chars := line_chars line in
  match position not_space_item chars with
  | None => line_default
  | Some first_non_space =>
      let last_non_space := default O (rposition not_space_item chars) in
      let trimmed := take (S last_non_space - first_non_space) (drop first_non_space chars) in
      repair_spaced_ascii_word (squeeze_loop trimmed None line_default)
  end.

Definition repair_spaced_ascii_word_text (line : str) : str :=
  if is_spaced_ascii_word line then List.filter (λ c, negb (c =? 32)) line else line.

Fixpoint squeeze_text_loop (chars : str) (pending_space : bool) (output : str) : str :=
  match chars with
  | [] => output
  | character :: chars =>
      if is_horizontal_space character then squeeze_text_loop chars true output
      else
        let output := if pending_space && non_empty output then output ++ [32] else output in
        squeeze_text_loop chars false (output ++ [character])
  end.

(** The byte offsets of the first non-space character and past the last one;
    the slice between them is on character boundaries (its [None] would be the
    slicing panic). *)
Definition normalize_text_line (line : str) : str :=
  match List.find (λ '(_, c), negb (is_horizontal_space c)) (char_indices line) with
  | None => []
  | Some (first_non_space, _) =>
      let last_non_space :=
        match last (List.filter (λ '(_, c), negb (is_horizontal_space c)) (char_indices line)) with
        | Some (index, character) => index + len_utf8 character
        | None => 0
        end in
      match byte_slice line first_non_space last_non_space with
      | Some trimmed => repair_spaced_ascii_word_text (squeeze_text_loop trimmed false [])
      | None => []
      end
  end.

(** ** Repeated headers and footers *)

Definition count_short_line (counts : gmap str Z) (line : str) : gmap str Z :=
  if is_empty line || (80 <? str_len line) then counts
  else <[line := default 0 (counts !! line) + 1]> counts.

Definition repeated_short_line_flags (lines : list str) : list bool :=
  let counts := fold_left count_short_line lines ∅ in
  map (λ line, non_empty line && (str_len line <=? 80)
        && match counts !! line with Some count => 1 <? count | None => false end) lines.

Definition remove_repeated_headers_and_footers (lines : list Line) : list Line :=
  let repeated_short_lines := repeated_short_line_flags (map line_text lines) in
  zip_with (λ line repeated_short_line,
      if line_is_blank line || is_page_number_line (line_text line) then line_default
      else if repeated_short_line : bool then line_default else line)
    lines repeated_short_lines.

Definition remove_repeated_text_headers_and_footers (lines : list str) : list str :=
  let repeated_short_lines := repeated_short_line_flags lines in
  zip_with (λ line repeated_short_line,
      if is_empty line || is_page_number_line line then []
      else if repeated_short_line : bool then [] else line)
    lines repeated_short_lines.

(** ** Blank lines and joining *)

Section collapse.
Context {A : Type} (blank : A → bool).

(** The [for] loop, then the [while] loop popping trailing blanks. *)
Fixpoint collapse_loop (previous_blank : bool) (lines : list A) : list A :=
  match lines with
  | [] => []
  | line :: lines =>
      if blank line then
        if previous_blank then collapse_loop true lines else line :: collapse_loop true lines
      else line :: collapse_loop false lines
  end.

Fixpoint drop_blank_prefix (lines : list A) : list A :=
  match lines with
  | line :: lines' => if blank line then drop_blank_prefix lines' else lines
  | [] => []
  end.

Definition pop_blank_suffix (lines : list A) : list A := reverse (drop_blank_prefix (reverse lines)).

Definition collapse_blanks (lines : list A) : list A := pop_blank_suffix (collapse_loop true lines).
End collapse.

Definition collapse_blank_lines (lines : list Line) : list Line :=
  collapse_blanks line_is_blank lines.
Definition collapse_blank_text_lines (lines : list str) : list str :=
  collapse_blanks is_empty lines.

Fixpoint join_lines_loop (index : nat) (lines : list Line) (output : NormalizedText)
    : NormalizedText :=
  match lines with
  | [] => output
  | line :: lines =>
      let output :=
        match index with
        | O => output
        | S _ => MkNormalized (text output ++ [10]) (byte_origins output ++ [(0, 0)])
        end in
      join_lines_loop (S index) lines
        (MkNormalized (text output ++ line_text line) (byte_origins output ++ line_origins line))
  end.

Definition join_lines (lines : list Line) : NormalizedText :=
  join_lines_loop O lines (MkNormalized [] []).

(** ** The normalizers *)

Definition normalize (source : str) : NormalizedText :=
  join_lines (collapse_blank_lines (remove_repeated_headers_and_footers
    (map normalize_line (source_lines source)))).

Definition normalize_text_only (source : str) : str :=
  join [10] (collapse_blank_text_lines (remove_repeated_text_headers_and_footers
    (map normalize_text_line (source_text_lines source)))).

Definition original_span_for_clean_range (self : NormalizedText) (r : range) : option range :=
  if (r.2 <=? r.1) || (Z.of_nat (length (byte_origins self)) <? r.2) then None
  else
    let '(start, end_) :=
      fold_left widen
        (List.filter (λ origin, origin.1 <? origin.2) (slice (byte_origins self) r.1 r.2))
        (usize_MAX, 0) in
    if negb (start =? usize_MAX) && (start <=? end_) then Some (start, end_) else None.

(** ** Trimming by index and by predicate agree *)

Lemma position_app {A} (p : A → bool) l x t :
  Forall (λ y, p y = false) l → p x = true → position p (l ++ x :: t) = Some (length l).
Proof.
  intros Hl Hx. induction Hl as [|y l Hy Hl IH]; cbn [position app length].
  - by rewrite Hx.
  - by rewrite Hy, IH.
Qed.

Lemma position_none {A} (p : A → bool) l : Forall (λ y, p y = false) l → position p l = None.
Proof. induction 1 as [|y l Hy Hl IH]; cbn [position]; [done|]. by rewrite Hy, IH. Qed.

Lemma rposition_app {A} (p : A → bool) l x r :
  Forall (λ y, p y = false) r → p x = true → rposition p (l ++ x :: r) = Some (length l).
Proof.
  intros Hr Hx. unfold rposition. rewrite reverse_app, reverse_cons, <- app_assoc. cbn [app].
  rewrite position_app; [|by rewrite Forall_reverse|done]. cbn [fmap option_fmap option_map].
  f_equal. rewrite length_app. cbn [length]. rewrite length_reverse. lia.
Qed.

(** Either a string is blank, or it is its trimmed core between spaces. *)
Lemma space_split s :
  (trim_matches is_horizontal_space s = [] ∧ Forall (λ c, is_horizontal_space c = true) s) ∨
  ∃ l r, s = l ++ trim_matches is_horizontal_space s ++ r ∧
    Forall (λ c, is_horizontal_space c = true) l ∧ Forall (λ c, is_horizontal_space c = true) r ∧
    (∃ c t, trim_matches is_horizontal_space s = c :: t ∧ is_horizontal_space c = false) ∧
    (∃ d u, trim_matches is_horizontal_space s = u ++ [d] ∧ is_horizontal_space d = false).
Proof. apply trim_core. Qed.

Definition spaces (l : str) : Prop := Forall (λ c, is_horizontal_space c = true) l.

(** The clean form of one line, over its trimmed core. *)
Definition clean_line (s : str) : str :=
  repair_spaced_ascii_word_text
    (squeeze_text_loop (trim_matches is_horizontal_space s) false []).

Lemma char_indices_app o s t :
  char_indices_from o (s ++ t)
  = char_indices_from o s ++ char_indices_from (o + str_len s) t.
Proof.
  revert o. induction s as [|c s IH]; intros o;
    cbn [app char_indices_from str_len]; [by rewrite Z.add_0_r|].
  by rewrite IH, Z.add_assoc.
Qed.

Lemma char_indices_spaces o l :
  spaces l →
  List.filter (λ '(_, c), negb (is_horizontal_space c)) (char_indices_from o l) = [].
Proof.
  intros Hl. revert o. induction Hl as [|c l Hc Hl IH]; intros o; cbn; [done|]. by rewrite Hc, IH.
Qed.

Lemma find_filter_head {A} (p : A → bool) l : List.find p l = head (List.filter p l).
Proof. induction l as [|x l IH]; cbn; [done|]. by destruct (p x). Qed.

Lemma normalize_text_line_clean s : normalize_text_line s = clean_line s.
Proof.
  unfold normalize_text_line, clean_line, char_indices. rewrite find_filter_head.
  destruct (space_split s) as [[-> Hs]|(l & r & Hs & Hl & Hr & (c & t & HT & Hc) & (d & u & HT' & Hd))].
  { by rewrite char_indices_spaces. }
  set (T := trim_matches is_horizontal_space s) in *. clearbody T. subst s.
  rewrite !char_indices_app, !List.filter_app, (char_indices_spaces _ l Hl), (char_indices_spaces _ r Hr).
  rewrite app_nil_r. cbn [app].
  assert (List.filter (λ '(_, c0), negb (is_horizontal_space c0)) (char_indices_from (0 + str_len l) T)
    = (str_len l, c) :: List.filter (λ '(_, c0), negb (is_horizontal_space c0))
        (char_indices_from (str_len l + len_utf8 c) t)) as E1.
  { rewrite HT. cbn [char_indices_from List.filter]. by rewrite Hc. }
  assert (last (List.filter (λ '(_, c0), negb (is_horizontal_space c0)) (char_indices_from (0 + str_len l) T))
    = Some (str_len l + str_len u, d)) as E2.
  { rewrite HT', char_indices_app, List.filter_app. cbn [char_indices_from List.filter].
    rewrite Hd. cbn [negb]. by rewrite last_snoc. }
  rewrite E2, E1. cbn [head].
  rewrite (byte_slice_app l T r); [done|done|].
  rewrite HT', str_len_app. cbn. lia.
Qed.

Lemma line_chars_fst line : (line_chars line).*1 = line_text line.
Proof.
  unfold line_chars, char_indices. generalize 0. induction (line_text line) as [|c s IH];
    intros o; [done|]. cbn [char_indices_from map]. rewrite fmap_cons. f_equal. apply IH.
Qed.

(** The index slice of annotated characters is the trimmed core. *)
Lemma trim_items (chars : list (char * range)) :
  match position not_space_item chars with
  | None => trim_matches is_horizontal_space chars.*1 = []
  | Some first =>
      ∃ pre trimmed post, chars = pre ++ trimmed ++ post ∧
        take (S (default O (rposition not_space_item chars)) - first) (drop first chars) = trimmed ∧
        trimmed.*1 = trim_matches is_horizontal_space chars.*1 ∧
        ∃ c r t, trimmed = (c, r) :: t ∧ is_horizontal_space c = false
  end.
Proof.
  destruct (space_split chars.*1)
    as [[E Hs]|(l & r & Hs & Hl & Hr & (c & t & HT & Hc) & (d & u & HT' & Hd))].
  - rewrite position_none; [done|]. apply Forall_fmap in Hs. eapply Forall_impl; [exact Hs|].
    intros x Hx. unfold not_space_item. by rewrite Hx.
  - set (T := trim_matches is_horizontal_space chars.*1) in *. clearbody T.
    apply fmap_app_inv in Hs as (pre & rest & -> & Hrest & ->).
    symmetry in Hrest. apply fmap_app_inv in Hrest as (mid & post & -> & -> & ->).
    assert (∀ l : list (char * range), spaces l.*1 → Forall (λ y, not_space_item y = false) l) as Hns.
    { intros l0 Hl0%Forall_fmap. eapply Forall_impl; [exact Hl0|]. intros x Hx.
      unfold not_space_item. by rewrite Hx. }
    assert (∃ rc t', mid = (c, rc) :: t') as (rc & t' & Hmid).
    { destruct mid as [|[c' rc] t']; [done|]. injection HT as -> _. eauto. }
    assert (∃ u' rd, mid = u' ++ [(d, rd)]) as (u' & rd & Hmid').
    { apply fmap_app_inv in HT' as (u' & d' & -> & Hd' & ->).
      destruct d' as [|[d' rd] [|]]; try done. injection Hd' as ->. eauto. }
    assert (position not_space_item (pre ++ mid ++ post) = Some (length pre)) as ->.
    { rewrite Hmid. cbn [app]. apply position_app; [by apply Hns|]. unfold not_space_item.
      cbn. by rewrite Hc. }
    exists pre, mid, post. split_and!; [done| |done|eauto].
    assert (rposition not_space_item (pre ++ mid ++ post) = Some (length (pre ++ u'))) as ->.
    { rewrite Hmid', <- app_assoc, app_assoc. cbn [app]. apply rposition_app; [by apply Hns|].
      unfold not_space_item. cbn. by rewrite Hd. }
    cbn [default id]. rewrite drop_app_length.
    assert (S (length (pre ++ u')) - length pre = length mid)%nat as ->.
    { rewrite Hmid', !length_app. cbn. lia. }
    by rewrite take_app_length.
Qed.

(** ** The two normalizers produce the same text *)

Lemma squeeze_text chars pending output :
  (is_Some pending → line_text output ≠ []) →
  (line_text output = [] → ∀ c r t, chars = (c, r) :: t → is_horizontal_space c = false) →
  line_text (squeeze_loop chars pending output)
  = squeeze_text_loop chars.*1 (bool_decide (is_Some pending)) (line_text output).
Proof.
  revert pending output. induction chars as [|[c r] chars IH]; intros pending output Hp Hh; [done|].
  cbn [squeeze_loop]. rewrite fmap_cons. cbn [fst squeeze_text_loop].
  destruct (is_horizontal_space c) eqn:E.
  - rewrite IH; [by rewrite bool_decide_eq_true_2 by eauto| |].
    + intros _ Hnil. specialize (Hh Hnil c r chars eq_refl). congruence.
    + intros Hnil. specialize (Hh Hnil c r chars eq_refl). congruence.
  - rewrite IH; [|by intros []|intros Hnil; cbn in Hnil; by apply app_eq_nil in Hnil as [_ ?]].
    rewrite (bool_decide_eq_false_2 (is_Some None)) by by intros [].
    f_equal. cbn [push_char line_text]. destruct pending as [p|]; cbn [push_char line_text].
    + rewrite bool_decide_eq_true_2 by eauto.
      assert (non_empty (line_text output) = true) as -> by (apply non_empty_spec, Hp; eauto).
      done.
    + by rewrite bool_decide_eq_false_2 by by intros [].
Qed.

Lemma repair_fold_text (f : Z → char → range) l output :
  line_text (fold_left (λ output '(start, character),
      if character =? 32 then output else push_char output character (f start character)) l output)
  = line_text output ++ List.filter (λ c, negb (c =? 32)) l.*2.
Proof.
  revert output. induction l as [|[o c] l IH]; intros output; cbn [fold_left]; [by rewrite app_nil_r|].
  rewrite IH, fmap_cons. cbn [snd List.filter]. destruct (c =? 32); cbn [negb]; [done|].
  cbn [push_char line_text]. by rewrite <- app_assoc.
Qed.

Lemma char_indices_snd o s : (char_indices_from o s).*2 = s.
Proof. revert o. induction s as [|c s IH]; intros o; [done|]. cbn. f_equal. apply IH. Qed.

Lemma repair_text line :
  line_text (repair_spaced_ascii_word line) = repair_spaced_ascii_word_text (line_text line).
Proof.
  unfold repair_spaced_ascii_word, repair_spaced_ascii_word_text.
  destruct (is_spaced_ascii_word (line_text line)); [|done].
  rewrite (repair_fold_text (λ start c, merged_origin (slice (line_origins line) start (start + len_utf8 c)))).
  unfold char_indices. by rewrite char_indices_snd.
Qed.

Lemma normalize_line_text line :
  line_text (normalize_line line) = normalize_text_line (line_text line).
Proof.
  rewrite normalize_text_line_clean. unfold normalize_line, clean_line.
  pose proof (trim_items (line_chars line)) as Ht. rewrite line_chars_fst in Ht.
  destruct (position not_space_item (line_chars line)) as [first|]; [|by rewrite Ht].
  destruct Ht as (pre & trimmed & post & _ & -> & Hfst & c & r & t & -> & Hc).
  rewrite repair_text, squeeze_text; [|by intros []|by intros _ ??? [= <- <- <-]].
  by rewrite Hfst.
Qed.

Lemma source_lines_text n s start line :
  (length s ≤ n)%nat →
  map line_text (source_lines_loop start line s) = source_text_lines_loop (line_text line) s.
Proof.
  revert s start line. induction n as [|n IH]; intros s start line Hn.
  { destruct s; [done|cbn in Hn; lia]. }
  destruct s as [|c s]; [done|]. cbn [source_lines_loop source_text_lines_loop].
  cbn in Hn. destruct (c =? 13).
  - destruct s as [|d s]; [done|]. cbn in Hn.
    destruct (d =? 10); cbn [map]; rewrite IH; done || (cbn; lia).
  - destruct ((c =? 10) || (c =? 12)); cbn [map]; rewrite IH; done || lia.
Qed.

Lemma remove_repeated_text lines :
  map line_text (remove_repeated_headers_and_footers lines)
  = remove_repeated_text_headers_and_footers (map line_text lines).
Proof.
  unfold remove_repeated_headers_and_footers, remove_repeated_text_headers_and_footers.
  generalize (repeated_short_line_flags (map line_text lines)). induction lines as [|l lines IH];
    intros [|b bs]; [done..|]. cbn [zip_with map]. f_equal; [|apply IH].
  unfold line_is_blank. destruct (_ || _); [done|]. by destruct b.
Qed.

Lemma collapse_loop_map prev lines :
  map line_text (collapse_loop line_is_blank prev lines)
  = collapse_loop is_empty prev (map line_text lines).
Proof.
  revert prev. induction lines as [|l lines IH]; intros prev; [done|]. cbn [collapse_loop map].
  change (line_is_blank l) with (is_empty (line_text l)).
  destruct (is_empty _), prev; cbn [map]; by rewrite IH.
Qed.

Lemma drop_blank_prefix_map lines :
  map line_text (drop_blank_prefix line_is_blank lines)
  = drop_blank_prefix is_empty (map line_text lines).
Proof.
  induction lines as [|l lines IH]; [done|]. cbn [drop_blank_prefix map].
  change (line_is_blank l) with (is_empty (line_text l)). by destruct (is_empty _).
Qed.

Lemma collapse_blank_text lines :
  map line_text (collapse_blank_lines lines) = collapse_blank_text_lines (map line_text lines).
Proof.
  unfold collapse_blank_lines, collapse_blank_text_lines, collapse_blanks, pop_blank_suffix.
  rewrite <- collapse_loop_map. change (@map) with (@list_fmap).
  rewrite !fmap_reverse. f_equal.
  etrans; [apply drop_blank_prefix_map|]. f_equal. apply fmap_reverse.
Qed.

Lemma join_cons c w ws :
  join [c] (w :: ws) = w ++ concat (map (λ w, c :: w) ws).
Proof.
  revert w. induction ws as [|w' ws IH]; intros w; [symmetry; apply app_nil_r|].
  change (join [c] (w :: w' :: ws)) with (w ++ c :: join [c] (w' :: ws)). by rewrite IH.
Qed.

Lemma join_lines_loop_S n lines out :
  join_lines_loop (S n) lines out
  = MkNormalized (text out ++ concat (map (λ w, 10 :: w) (map line_text lines)))
      (byte_origins out ++ concat (map (λ l, (0, 0) :: line_origins l) lines)).
Proof.
  revert n out. induction lines as [|l lines IH]; intros n out; cbn [join_lines_loop map concat].
  { destruct out; cbn. by rewrite !app_nil_r. }
  rewrite IH. cbn [text byte_origins app]. by rewrite <- !app_assoc.
Qed.

Lemma join_lines_text lines : text (join_lines lines) = join [10] (map line_text lines).
Proof.
  unfold join_lines. destruct lines as [|l lines]; [done|].
  cbn [join_lines_loop]. rewrite join_lines_loop_S. cbn [text app map]. by rewrite join_cons.
Qed.

(** The provenance-tracking normalizer and the text-only normalizer
    compute the same cleaned text on every input. *)
Theorem normalize_text_equivalence source : text (normalize source) = normalize_text_only source.
Proof.
  unfold normalize, normalize_text_only. rewrite join_lines_text, collapse_blank_text.
  rewrite remove_repeated_text. do 3 f_equal.
  unfold source_text_lines, source_lines.
  pose proof (source_lines_text (length source) source 0 line_default ltac:(done)) as E.
  cbn [line_text line_default] in E. rewrite <- E.
  rewrite !map_map. apply map_ext, normalize_line_text.
Qed.

(** ** The clean form of a line in closed form *)

Definition hwords (s : str) : list str :=
  List.filter non_empty (split_on is_horizontal_space s).

Lemma split_on_sep p s c t :
  p c = true → split_on p (s ++ c :: t) = split_on p s ++ split_on p t.
Proof.
  intros Hc. induction s as [|d s IH]; cbn [split_on app]; [by rewrite Hc|].
  destruct (p d); [by rewrite IH|]. rewrite IH. by destruct (split_on p s) eqn:E;
    [by apply split_on_nonempty in E|].
Qed.

Lemma hwords_spaces l s r : spaces l → spaces r → hwords (l ++ s ++ r) = hwords s.
Proof.
  intros Hl Hr. unfold hwords. induction Hl as [|c l Hc Hl IH].
  - cbn [app]. destruct Hr as [|c r Hc Hr]; [by rewrite app_nil_r|].
    rewrite split_on_sep, List.filter_app by done.
    assert (List.filter non_empty (split_on is_horizontal_space r) = []) as ->;
      [|by rewrite app_nil_r].
    induction Hr as [|d r Hd Hr IH]; [done|]. cbn [split_on]. by rewrite Hd.
  - cbn [app split_on]. by rewrite Hc.
Qed.

Lemma squeeze_closed s out :
  out ≠ [] →
  squeeze_text_loop s true out
  = out ++ concat (map (λ w, 32 :: w) (hwords s)) ∧
  squeeze_text_loop s false out
  = out ++ default [] (head (split_on is_horizontal_space s))
    ++ concat (map (λ w, 32 :: w) (List.filter non_empty (tail (split_on is_horizontal_space s)))).
Proof.
  unfold hwords. revert out. induction s as [|c s IH]; intros out Hout.
  { cbn. by rewrite app_nil_r. }
  cbn [squeeze_text_loop split_on]. destruct (is_horizontal_space c).
  { destruct (IH out Hout) as [E _]. rewrite E. by cbn. }
  assert (non_empty out = true) as -> by by apply non_empty_spec.
  destruct (IH (out ++ [c])) as [_ E2]; [by destruct out|].
  destruct (IH ((out ++ [32]) ++ [c])) as [_ E1]; [by destruct out|]. cbn [andb].
  rewrite E1, E2.
  destruct (split_on is_horizontal_space s) as [|w ws] eqn:E;
    [by apply split_on_nonempty in E|]. cbn [head tail default List.filter non_empty is_empty negb].
  cbn [map concat]. by rewrite <- !app_assoc.
Qed.

Lemma clean_line_closed s : clean_line s = repair_spaced_ascii_word_text (join [32] (hwords s)).
Proof.
  unfold clean_line. f_equal.
  destruct (space_split s) as [[E Hs]|(l & r & Hs & Hl & Hr & (c & t & HT & Hc) & _)].
  - pose proof (hwords_spaces s [] [] Hs ltac:(constructor)) as Hw.
    rewrite !app_nil_r in Hw. by rewrite E, Hw.
  - rewrite Hs at 2. rewrite hwords_spaces, HT by done. unfold hwords. cbn [squeeze_text_loop split_on].
    rewrite Hc. cbn [andb]. destruct (squeeze_closed t [c]) as [_ E]; [done|].
    cbn [app]. rewrite E.
    destruct (split_on is_horizontal_space t) as [|w ws] eqn:E';
      [by apply split_on_nonempty in E'|].
    cbn [head tail default List.filter non_empty is_empty negb]. by rewrite join_cons.
Qed.

(** Lines of a document hold no control character. *)
Definition plain (s : str) : Prop := free_of is_control s.

Lemma is_control_newlines c : is_control c = false → c ≠ 10 ∧ c ≠ 12 ∧ c ≠ 13.
Proof. intros Hc. split_and!; by intros ->. Qed.

Lemma hwords_plain s : plain s → hwords s = split_whitespace s.
Proof.
  intros Hs. unfold hwords, split_whitespace. f_equal. induction Hs as [|c s Hc Hs IH]; [done|].
  cbn [split_on]. rewrite IH. unfold is_horizontal_space.
  apply is_control_newlines in Hc as (H1 & _ & H3).
  replace (c =? 10) with false by lia. replace (c =? 13) with false by lia.
  by rewrite !andb_true_r.
Qed.

Lemma normalize_text_line_plain s :
  plain s →
  normalize_text_line s = repair_spaced_ascii_word_text (join [32] (split_whitespace s)).
Proof. intros Hs. by rewrite normalize_text_line_clean, clean_line_closed, hwords_plain. Qed.

Lemma collapse_elem s c : c ∈ join [32] (split_whitespace s) → c = 32 ∨ (c ∈ s ∧ is_whitespace c = false).
Proof.
  intros [->|(w & Hw & Hc)]%elem_of_join; [by left|right].
  pose proof (split_whitespace_words s) as HF. rewrite Forall_forall in HF.
  destruct (HF w Hw) as [_ Hfree]. unfold free_of in Hfree. rewrite Forall_forall in Hfree.
  split; [|by apply Hfree]. unfold split_whitespace in Hw.
  apply list_elem_of_In, filter_In in Hw as [Hw _]. apply list_elem_of_In in Hw.
  by eapply split_on_elem.
Qed.

Lemma filter_elem_iff {A} (f : A → bool) l x : x ∈ List.filter f l ↔ x ∈ l ∧ f x = true.
Proof. by rewrite !list_elem_of_In, filter_In. Qed.

Lemma normalize_text_line_stays_plain s : plain s → plain (normalize_text_line s).
Proof.
  intros Hs. rewrite normalize_text_line_plain by done.
  unfold plain, free_of in *. rewrite Forall_forall in Hs |- *. intros c Hc.
  assert (c ∈ join [32] (split_whitespace s)) as Hin.
  { revert Hc. unfold repair_spaced_ascii_word_text. case_match; [|done].
    by intros [? _]%filter_elem_iff. }
  apply collapse_elem in Hin as [->|[? _]]; [done|auto].
Qed.

(** A clean line is already clean. *)
Lemma normalize_text_line_idemp s :
  plain s → normalize_text_line (normalize_text_line s) = normalize_text_line s.
Proof.
  intros Hs. rewrite (normalize_text_line_plain (normalize_text_line s))
    by by apply normalize_text_line_stays_plain.
  rewrite (normalize_text_line_plain s) by done.
  set (u := join [32] (split_whitespace s)).
  unfold repair_spaced_ascii_word_text at 2 3. destruct (is_spaced_ascii_word u) eqn:E.
  - set (t := List.filter (λ c, negb (c =? 32)) u).
    assert (∀ c, c ∈ t → is_whitespace c = false ∧ c ≠ 32) as Ht.
    { intros c [Hc Hne]%filter_elem_iff. apply collapse_elem in Hc as [->|[_ ?]]; [done|].
      split; [done|]. intros ->. done. }
    assert (join [32] (split_whitespace t) = t) as ->.
    { destruct (decide (t = [])) as [->|Hne]; [done|].
      rewrite split_whitespace_word; [done|]. split; [done|]. apply Forall_forall. naive_solver. }
    unfold repair_spaced_ascii_word_text, is_spaced_ascii_word.
    rewrite split_on_free_id; [done|]. apply Forall_forall. intros c [_ Hc]%Ht. lia.
  - unfold u at 1. rewrite collapse_whitespace_idemp. fold u. unfold repair_spaced_ascii_word_text. by rewrite E.
Qed.

(** ** Lines of a cleaned text *)

Lemma source_text_lines_plain n s acc :
  (length s ≤ n)%nat → plain acc → Forall plain (source_text_lines_loop acc s).
Proof.
  revert s acc. induction n as [|n IH]; intros s acc Hn Hacc.
  { destruct s; [by repeat constructor|cbn in Hn; lia]. }
  destruct s as [|c s]; [by repeat constructor|]. cbn in Hn. cbn [source_text_lines_loop].
  assert (plain []) as Hnil by constructor.
  destruct (c =? 13) eqn:E13.
  - destruct s as [|d s]; [constructor; [done|]; by repeat constructor|]. cbn in Hn.
    destruct (d =? 10); constructor; try done; apply IH; done || (cbn; lia).
  - destruct ((c =? 10) || (c =? 12)) eqn:E; [constructor; [done|]; apply IH; done || lia|].
    apply IH; [lia|]. apply free_of_app. split; [done|]. apply free_of_cons. split; [|constructor].
    unfold sanitize_inline_character. by destruct (is_control c) eqn:Ec.
Qed.

Lemma source_text_lines_step w acc rest :
  plain w → source_text_lines_loop acc (w ++ 10 :: rest) = (acc ++ w) :: source_text_lines_loop [] rest.
Proof.
  intros Hw. revert acc. induction Hw as [|c w Hc Hw IH]; intros acc; cbn [app].
  - cbn. by rewrite app_nil_r.
  - cbn [source_text_lines_loop]. apply is_control_newlines in Hc as Hn.
    replace (c =? 13) with false by lia. replace (c =? 10) with false by lia.
    replace (c =? 12) with false by lia. cbn [orb]. rewrite IH.
    unfold sanitize_inline_character. by rewrite Hc, <- app_assoc.
Qed.

Lemma source_text_lines_last w acc : plain w → source_text_lines_loop acc w = [acc ++ w].
Proof.
  intros Hw. revert acc. induction Hw as [|c w Hc Hw IH]; intros acc; [by rewrite app_nil_r|].
  cbn [source_text_lines_loop]. apply is_control_newlines in Hc as Hn.
  replace (c =? 13) with false by lia. replace (c =? 10) with false by lia.
  replace (c =? 12) with false by lia. cbn [orb]. rewrite IH.
  unfold sanitize_inline_character. by rewrite Hc, <- app_assoc.
Qed.

(** Splitting undoes joining. *)
Lemma source_text_lines_join L :
  Forall plain L → L ≠ [] → source_text_lines (join [10] L) = L.
Proof.
  intros HL Hne. unfold source_text_lines. induction HL as [|w L Hw HL IH]; [done|].
  destruct L as [|w' L]; [by apply source_text_lines_last|].
  change (join [10] (w :: w' :: L)) with (w ++ 10 :: join [10] (w' :: L)).
  rewrite source_text_lines_step by done. by rewrite IH.
Qed.

(** ** Repeated lines *)

Definition occurrences (x : str) (l : list str) : nat := length (List.filter (str_eqb x) l).

Lemma counts_lookup lines counts x :
  x ≠ [] → str_len x ≤ 80 →
  default 0 (fold_left count_short_line lines counts !! x)
  = default 0 (counts !! x) + Z.of_nat (occurrences x lines).
Proof.
  intros Hne Hlen. unfold occurrences. revert counts. induction lines as [|l lines IH];
    intros counts; cbn [fold_left List.filter]; [cbn [length]; lia|].
  rewrite IH. unfold count_short_line, str_eqb. destruct (decide (x = l)) as [->|Hxl].
  - rewrite bool_decide_eq_true_2 by done. cbn [length].
    assert (is_empty l || (80 <? str_len l) = false) as ->.
    { apply orb_false_iff. split; [by destruct l|lia]. }
    rewrite lookup_insert_eq. cbn [from_option id]. lia.
  - rewrite bool_decide_eq_false_2 by done. case_match; [done|].
    by rewrite lookup_insert_ne by done.
Qed.

Definition repeated (lines : list str) (x : str) : bool :=
  non_empty x && (str_len x <=? 80) && (1 <? Z.of_nat (occurrences x lines)).

Lemma repeated_short_line_flags_spec lines :
  repeated_short_line_flags lines = map (repeated lines) lines.
Proof.
  unfold repeated_short_line_flags. apply map_ext. intros x. unfold repeated.
  destruct (non_empty x && (str_len x <=? 80)) eqn:E; [|done]. bools.
  apply non_empty_spec in H. cbn [andb].
  pose proof (counts_lookup lines ∅ x H H0) as Hc. rewrite lookup_empty in Hc.
  destruct (fold_left count_short_line lines ∅ !! x); cbn [from_option id] in Hc; [f_equal; lia|].
  symmetry. apply Z.ltb_ge. lia.
Qed.

(** Which lines survive. *)
Definition dropped (lines : list str) (x : str) : bool :=
  is_empty x || is_page_number_line x || repeated lines x.

Lemma remove_repeated_map lines :
  remove_repeated_text_headers_and_footers lines
  = map (λ x, if dropped lines x then [] else x) lines.
Proof.
  unfold remove_repeated_text_headers_and_footers. rewrite repeated_short_line_flags_spec.
  unfold dropped.
  assert (∀ (f : str → bool) l, zip_with (λ line (b : bool),
      if is_empty line || is_page_number_line line then [] else if b then [] else line) l (map f l)
    = map (λ x, if is_empty x || is_page_number_line x || f x then [] else x) l) as Hz.
  { intros f l. induction l as [|x l IH]; [done|]. cbn [zip_with map]. rewrite IH. f_equal.
    destruct (_ || is_page_number_line x); [done|]. by destruct (f x). }
  apply Hz.
Qed.

(** ** Blank lines *)

(** No blank line at the start (or after a previous blank) and no two in a row. *)
Fixpoint tidy (previous_blank : bool) (L : list str) : bool :=
  match L with
  | [] => true
  | x :: L => if is_empty x then negb previous_blank && tidy true L else tidy false L
  end.

Definition last_not_blank (L : list str) : Prop := ∀ x, last L = Some x → x ≠ [].

Lemma collapse_loop_tidy prev L : tidy prev (collapse_loop is_empty prev L) = true.
Proof.
  revert prev. induction L as [|x L IH]; intros prev; [done|]. cbn [collapse_loop].
  destruct (is_empty x) eqn:E; [destruct prev|]; cbn [tidy]; rewrite ?E; cbn; auto.
Qed.

Lemma collapse_loop_id prev L : tidy prev L = true → collapse_loop is_empty prev L = L.
Proof.
  revert prev. induction L as [|x L IH]; intros prev; [done|]. cbn [collapse_loop tidy].
  destruct (is_empty x), prev; cbn; intros Ht; done || by rewrite IH.
Qed.

Lemma tidy_prefix prev L k : tidy prev (L ++ k) = true → tidy prev L = true.
Proof.
  revert prev. induction L as [|x L IH]; intros prev; [done|]. cbn [app tidy].
  destruct (is_empty x), prev; cbn; auto.
Qed.

Lemma drop_blank_prefix_split (L : list str) :
  ∃ k, L = k ++ drop_blank_prefix is_empty L ∧
       ∀ x, head (drop_blank_prefix is_empty L) = Some x → x ≠ [].
Proof.
  induction L as [|x L (k & Hk & IH)]; cbn [drop_blank_prefix]; [by exists []|].
  destruct (is_empty x) eqn:E.
  - exists (x :: k). cbn. split; [congruence|done].
  - exists []. split; [done|]. by intros ? [= <-]; destruct x.
Qed.

Lemma pop_blank_suffix_split (L : list str) :
  ∃ k, L = pop_blank_suffix is_empty L ++ k ∧ last_not_blank (pop_blank_suffix is_empty L).
Proof.
  unfold pop_blank_suffix, last_not_blank.
  destruct (drop_blank_prefix_split (reverse L)) as (k & Hk & Hh). exists (reverse k). split.
  - rewrite <- reverse_app, <- Hk. by rewrite reverse_involutive.
  - intros x Hx. rewrite last_reverse in Hx. auto.
Qed.

Lemma pop_blank_suffix_id (L : list str) : last_not_blank L → pop_blank_suffix is_empty L = L.
Proof.
  intros HL. unfold pop_blank_suffix. destruct (reverse L) as [|x k] eqn:E.
  { apply (f_equal reverse) in E. by rewrite reverse_involutive in E. }
  assert (x ≠ []) as Hx. { apply HL. rewrite <- head_reverse, E. done. }
  cbn [drop_blank_prefix]. destruct x; [done|]. cbn [is_empty].
  by rewrite <- E, reverse_involutive.
Qed.

(** What a sequence of cleaned lines looks like. *)
Record clean_lines (L : list str) : Prop := {
  clean_plain : Forall plain L;
  clean_fixed : Forall (λ x, normalize_text_line x = x) L;
  clean_tidy : tidy true L = true;
  clean_last : last_not_blank L;
  clean_no_page_number : ∀ x, x ∈ L → x ≠ [] → is_page_number_line x = false;
  clean_no_repeat : ∀ x, x ∈ L → repeated L x = false;
}.

Definition output_lines (source : str) : list str :=
  collapse_blank_text_lines (remove_repeated_text_headers_and_footers
    (map normalize_text_line (source_text_lines source))).

Lemma collapse_loop_sublist prev (L : list str) : collapse_loop is_empty prev L `sublist_of` L.
Proof.
  revert prev. induction L as [|x L IH]; intros prev; [done|]. cbn [collapse_loop].
  destruct (is_empty x), prev; by constructor.
Qed.

Lemma collapse_sublist (L : list str) : collapse_blank_text_lines L `sublist_of` L.
Proof.
  unfold collapse_blank_text_lines, collapse_blanks.
  destruct (pop_blank_suffix_split (collapse_loop is_empty true L)) as (k & Hk & _).
  transitivity (collapse_loop is_empty true L); [|apply collapse_loop_sublist].
  rewrite Hk at 2. by apply sublist_inserts_r.
Qed.

Lemma occurrences_sublist x L K : L `sublist_of` K → (occurrences x L ≤ occurrences x K)%nat.
Proof.
  unfold occurrences. induction 1 as [|y L K _ IH|y L K _ IH]; cbn [List.filter]; [done|..];
    destruct (str_eqb x y); cbn [length]; lia.
Qed.

Lemma occurrences_dropped f x lines :
  x ≠ [] → (occurrences x (map (λ y, if f y : bool then [] else y) lines) ≤ occurrences x lines)%nat.
Proof.
  intros Hne. unfold occurrences. induction lines as [|y lines IH]; cbn [map List.filter]; [done|].
  destruct (f y).
  - assert (str_eqb x [] = false) as -> by by apply bool_decide_eq_false.
    destruct (str_eqb x y); cbn [length]; lia.
  - destruct (str_eqb x y); cbn [length]; lia.
Qed.

Lemma output_lines_clean source : clean_lines (output_lines source).
Proof.
  unfold output_lines. set (lines := map normalize_text_line (source_text_lines source)).
  assert (Forall plain (source_text_lines source)) as Hsrc
    by by apply (source_text_lines_plain (length source)); [|constructor].
  assert (Forall (λ x, plain x ∧ normalize_text_line x = x) lines) as Hlines.
  { apply Forall_map. eapply Forall_impl; [exact Hsrc|]. intros x Hx. cbn.
    auto using normalize_text_line_stays_plain, normalize_text_line_idemp. }
  rewrite remove_repeated_map. set (kept := map (λ x, if dropped lines x then [] else x) lines).
  pose proof (collapse_sublist kept) as Hsub.
  assert (∀ x, x ∈ collapse_blank_text_lines kept → x = [] ∨ (x ∈ lines ∧ dropped lines x = false))
    as Hel.
  { intros x Hx. assert (x ∈ kept) as Hx' by by eapply sublist_subseteq.
    apply list_elem_of_fmap in Hx' as (y & -> & Hy). destruct (dropped lines y) eqn:E; auto. }
  rewrite Forall_forall in Hlines.
  destruct (pop_blank_suffix_split (collapse_loop is_empty true kept)) as (k & Hk & Hlast).
  split.
  - apply Forall_forall. intros x [->|[Hx _]]%Hel; [constructor|by apply Hlines].
  - apply Forall_forall. intros x [->|[Hx _]]%Hel; [done|by apply Hlines].
  - eapply tidy_prefix. unfold collapse_blank_text_lines, collapse_blanks. rewrite <- Hk.
    apply collapse_loop_tidy.
  - exact Hlast.
  - intros x [->|[_ Hd]]%Hel Hne; [done|]. unfold dropped in Hd.
    by apply orb_false_iff in Hd as [[_ ?]%orb_false_iff _].
  - intros x [->|[_ Hd]]%Hel; [done|]. apply orb_false_iff in Hd as [[Hne _]%orb_false_iff Hr].
    assert (x ≠ []) as Hne' by by destruct x. unfold repeated in *.
    destruct (non_empty x && (str_len x <=? 80)); [|done]. cbn [andb] in *. bools.
    pose proof (occurrences_sublist x _ _ Hsub).
    pose proof (occurrences_dropped (dropped lines) x lines Hne') as Hd. fold kept in Hd.
    apply Z.ltb_ge. lia.
Qed.

Lemma output_lines_fixed L :
  clean_lines L →
  collapse_blank_text_lines (remove_repeated_text_headers_and_footers (map normalize_text_line L)) = L.
Proof.
  intros [Hp Hf Ht Hl Hpage Hrep].
  assert (map normalize_text_line L = L) as ->.
  { clear -Hf. induction Hf as [|x L Hx Hf IH]; [done|]. cbn [map]. by rewrite Hx, IH. }
  rewrite remove_repeated_map.
  assert (map (λ x, if dropped L x then [] else x) L = L) as ->.
  { etrans; [|apply map_id]. apply map_ext_in. intros x Hx%list_elem_of_In.
    unfold dropped. rewrite Hrep by done. destruct x as [|c x]; [done|].
    by rewrite Hpage. }
  unfold collapse_blank_text_lines, collapse_blanks. by rewrite collapse_loop_id, pop_blank_suffix_id.
Qed.

(** The cleaned text is a sequence of lines, each free of control
    characters and already in clean form, with no leading, trailing or doubled
    blank line, no page-number line, and no short line occurring twice. *)
Theorem normalize_text_only_shape source :
  ∃ L, normalize_text_only source = join [10] L ∧ clean_lines L.
Proof. exists (output_lines source). split; [done|apply output_lines_clean]. Qed.

(** Normalization is idempotent: cleaning a cleaned text changes nothing. *)
Theorem normalize_text_only_idempotent source :
  normalize_text_only (normalize_text_only source) = normalize_text_only source.
Proof.
  change (normalize_text_only source) with (join [10] (output_lines source)).
  pose proof (output_lines_clean source) as HL. destruct (decide (output_lines source = [])) as [->|Hne].
  { vm_compute. reflexivity. }
  unfold normalize_text_only. rewrite source_text_lines_join; [|by destruct HL|done].
  by rewrite output_lines_fixed.
Qed.

(** ** Provenance

    A line is read as a list of items, a character with its source range; the
    byte origins repeat the range once per byte of the character. *)

Abbreviation item := (char * range)%type.

Definition flat (items : list item) : list range :=
  concat (map (λ x, replicate (Z.to_nat (len_utf8 x.1)) x.2) items).

Definition line_of (items : list item) : Line := MkLine items.*1 (flat items).

Lemma flat_app l k : flat (l ++ k) = flat l ++ flat k.
Proof. unfold flat. by rewrite map_app, concat_app. Qed.

Lemma flat_length l : Z.of_nat (length (flat l)) = str_len l.*1.
Proof.
  induction l as [|[c r] l IH]; [done|]. rewrite fmap_cons. cbn [fst str_len].
  change (flat ((c, r) :: l)) with (replicate (Z.to_nat (len_utf8 c)) r ++ flat l).
  rewrite length_app, length_replicate. pose proof (len_utf8_bounds c). lia.
Qed.

Lemma push_char_of items c r : push_char (line_of items) c r = line_of (items ++ [(c, r)]).
Proof.
  unfold push_char, line_of. rewrite flat_app, fmap_app. f_equal.
  change (flat [(c, r)]) with (replicate (Z.to_nat (len_utf8 c)) r ++ []).
  by rewrite app_nil_r.
Qed.

Definition good_range (r : range) : Prop := 0 ≤ r.1 < usize_MAX ∧ 0 ≤ r.2.

Lemma merged_origin_replicate n r :
  good_range r → (0 < n)%nat → merged_origin (replicate n r) = r.
Proof.
  intros [H1 H2] Hn. destruct r as [a b]. cbn [fst snd] in *. unfold merged_origin.
  assert (∀ m s e, fold_left widen (replicate m (a, b)) (s, e)
    = match m with O => (s, e) | S _ => (Z.min s a, Z.max e b) end) as Hf.
  { induction m as [|m IH]; intros s e; [done|]. cbn [replicate fold_left widen fst snd]. rewrite IH.
    destruct m; f_equal; lia. }
  rewrite Hf. destruct n; [lia|]. replace (Z.min usize_MAX a) with a by lia.
  replace (a =? usize_MAX) with false by lia. f_equal. lia.
Qed.

Lemma line_chars_from items pre o :
  Forall (λ x : item, good_range x.2) items → Z.of_nat (length pre) = o →
  map (λ '(start, character),
      (character, merged_origin (slice (pre ++ flat items) start (start + len_utf8 character))))
    (char_indices_from o items.*1) = items.
Proof.
  intros Hg. revert pre o. induction Hg as [|[c r] items Hr Hg IH]; intros pre o Ho; [done|].
  rewrite fmap_cons. cbn [fst char_indices_from map]. pose proof (len_utf8_bounds c) as Hc.
  change (flat ((c, r) :: items)) with (replicate (Z.to_nat (len_utf8 c)) r ++ flat items).
  f_equal.
  - f_equal. unfold slice. replace (Z.to_nat o) with (length pre) by lia.
    rewrite drop_app_length. replace (Z.to_nat (o + len_utf8 c - o))
      with (length (replicate (Z.to_nat (len_utf8 c)) r)) by (rewrite length_replicate; lia).
    rewrite take_app_length. apply merged_origin_replicate; [done|lia].
  - rewrite app_assoc. apply IH. rewrite length_app, length_replicate. lia.
Qed.

Lemma line_chars_of items :
  Forall (λ x : item, good_range x.2) items → line_chars (line_of items) = items.
Proof. intros Hg. by apply (line_chars_from items []). Qed.

Lemma repair_of items :
  Forall (λ x : item, good_range x.2) items →
  repair_spaced_ascii_word (line_of items)
  = line_of (if is_spaced_ascii_word items.*1
             then List.filter (λ x : item, negb (x.1 =? 32)) items else items).
Proof.
  intros Hg. unfold repair_spaced_ascii_word. cbn [line_of line_text].
  destruct (is_spaced_ascii_word items.*1); [|done].
  pose proof (line_chars_of items Hg) as Hc. unfold line_chars in Hc. cbn [line_of line_text] in Hc.
  assert (∀ l acc, fold_left (λ output '(start, character),
      if character =? 32 then output
      else push_char output character
        (merged_origin (slice (line_origins (line_of items)) start (start + len_utf8 character))))
      l (line_of acc)
    = line_of (acc ++ List.filter (λ x : item, negb (x.1 =? 32))
        (map (λ '(start, character), (character, merged_origin
          (slice (line_origins (line_of items)) start (start + len_utf8 character)))) l))) as Hf.
  { induction l as [|[st ch] l IH]; intros acc; cbn [fold_left map List.filter fst];
      [by rewrite app_nil_r|].
    destruct (ch =? 32); cbn [negb]; [apply IH|]. rewrite push_char_of, IH. by rewrite <- app_assoc. }
  change line_default with (line_of []). rewrite Hf, Hc. done.
Qed.

(** The items of a piece of the source that starts at byte [o]. *)
Fixpoint annotate (o : Z) (s : str) : list item :=
  match s with
  | [] => []
  | c :: s => (sanitize_inline_character c, (o, o + len_utf8 c)) :: annotate (o + len_utf8 c) s
  end.

Lemma annotate_app o s t : annotate o (s ++ t) = annotate o s ++ annotate (o + str_len s) t.
Proof.
  revert o. induction s as [|c s IH]; intros o; cbn [app annotate str_len]; [by rewrite Z.add_0_r|].
  by rewrite IH, Z.add_assoc.
Qed.

Lemma annotate_app_inv o s l k :
  annotate o s = l ++ k → ∃ s1 s2, s = s1 ++ s2 ∧ l = annotate o s1 ∧ k = annotate (o + str_len s1) s2.
Proof.
  revert o l. induction s as [|c s IH]; intros o l Hl.
  { symmetry in Hl. apply app_eq_nil in Hl as [-> ->]. by exists [], []. }
  destruct l as [|x l]; [exists [], (c :: s); cbn [str_len]; by rewrite Z.add_0_r|].
  cbn [annotate app] in Hl. injection Hl as <- Hl. apply IH in Hl as (s1 & s2 & -> & -> & ->).
  exists (c :: s1), s2. cbn [annotate str_len]. by rewrite Z.add_assoc.
Qed.

(** [item] [(c, (a, b))] comes from the bytes [a..b] of [source]: they spell
    the character itself, or, for a space, a run of blanks and controls. *)
Definition from_source (source : str) (x : item) : Prop :=
  ∃ p m q, source = p ++ m ++ q ∧ m ≠ [] ∧ x.2 = (str_len p, str_len p + str_len m) ∧
    ((x.1 ≠ 32 ∧ m = [x.1]) ∨
     (x.1 = 32 ∧ Forall (λ d, is_horizontal_space (sanitize_inline_character d) = true) m)).

Lemma from_source_good source x :
  str_len source < usize_MAX → from_source source x → good_range x.2.
Proof.
  intros Hs (p & m & q & -> & Hm & -> & _). unfold good_range; cbn [fst snd].
  rewrite !str_len_app in Hs. pose proof (str_len_nonneg p). pose proof (str_len_nonneg m).
  pose proof (str_len_nonneg q). lia.
Qed.

Lemma source_lines_items source n s pre cur line :
  (length s ≤ n)%nat → source = pre ++ cur ++ s →
  line ∈ source_lines_loop (str_len (pre ++ cur)) (line_of (annotate (str_len pre) cur)) s →
  ∃ p m q, source = p ++ m ++ q ∧ line = line_of (annotate (str_len p) m).
Proof.
  revert s pre cur. induction n as [|n IH]; intros s pre cur Hn Hsrc.
  { destruct s; [|cbn in Hn; lia]. intros ->%list_elem_of_singleton. eauto. }
  destruct s as [|c s]; [intros ->%list_elem_of_singleton; eauto|].
  cbn in Hn. cbn [source_lines_loop].
  assert (str_len (pre ++ cur) + len_utf8 c = str_len (pre ++ cur ++ [c])) as Hlen.
  { rewrite !str_len_app. cbn [str_len]. lia. }
  assert (∀ used s', c :: s = used ++ s' → (length s' ≤ n)%nat →
    line ∈ source_lines_loop (str_len (pre ++ cur ++ used)) line_default s' →
    ∃ p m q, source = p ++ m ++ q ∧ line = line_of (annotate (str_len p) m)) as Hnext.
  { intros used s' Hu Hn' Hl. apply (IH s' (pre ++ cur ++ used) []); [done| |].
    2: { rewrite (app_nil_r (pre ++ cur ++ used)). exact Hl. }
    rewrite Hsrc, Hu. cbn [app]. by rewrite <- !app_assoc. }
  assert (line = line_of (annotate (str_len pre) cur) →
    ∃ p m q, source = p ++ m ++ q ∧ line = line_of (annotate (str_len p) m)) as Hhere by eauto.
  destruct (c =? 13).
  - destruct s as [|d s].
    + rewrite Hlen. intros [?|Hl]%elem_of_cons; [auto|].
      apply (Hnext [c] []); [done|cbn; lia|exact Hl].
    + destruct (d =? 10).
      * intros [?|Hl]%elem_of_cons; [auto|]. apply (Hnext [c; d] s); [done|cbn in Hn; lia|].
        replace (str_len (pre ++ cur ++ [c; d])) with (str_len (pre ++ cur) + len_utf8 c + len_utf8 d);
          [done|]. rewrite !str_len_app. cbn [str_len]. lia.
      * rewrite Hlen. intros [?|Hl]%elem_of_cons; [auto|]. apply (Hnext [c] (d :: s)); [done|lia|done].
  - destruct (_ || _); rewrite Hlen.
    + intros [?|Hl]%elem_of_cons; [auto|]. apply (Hnext [c] s); [done|lia|done].
    + rewrite push_char_of. intros Hl. apply (IH s pre (cur ++ [c])); [lia| |].
      * rewrite Hsrc. by rewrite <- app_assoc.
      * rewrite annotate_app. cbn [annotate]. rewrite <- (str_len_app pre cur), Hlen. exact Hl.
Qed.

(** Squeezing keeps every item traceable; the pending run ends at [p]. *)
Lemma squeeze_items source m p q pending items :
  source = p ++ m ++ q → Forall (from_source source) items →
  match pending with
  | Some r => ∃ p0 run, p = p0 ++ run ∧ run ≠ [] ∧ r = (str_len p0, str_len p) ∧
      Forall (λ d, is_horizontal_space (sanitize_inline_character d) = true) run
  | None => True
  end →
  ∃ items', squeeze_loop (annotate (str_len p) m) pending (line_of items) = line_of items' ∧
    Forall (from_source source) items'.
Proof.
  revert p pending items. induction m as [|c m IH]; intros p pending items Hsrc Hit Hpend; [eauto|].
  cbn [annotate squeeze_loop].
  assert (str_len p + len_utf8 c = str_len (p ++ [c])) as Hlen.
  { rewrite str_len_app. cbn [str_len]. lia. }
  assert (source = (p ++ [c]) ++ m ++ q) as Hsrc' by (rewrite Hsrc, <- app_assoc; done).
  pose proof (len_utf8_bounds c) as Hc.
  destruct (is_horizontal_space (sanitize_inline_character c)) eqn:E.
  - rewrite Hlen. apply IH; [done|done|]. destruct pending as [r|].
    + destruct Hpend as (p0 & run & -> & Hne & -> & Hrun). exists p0, (run ++ [c]).
      cbn [fst snd]. split_and!; [by rewrite app_assoc|by destruct run| |].
      * pose proof (str_len_nonneg run). rewrite !str_len_app in *. f_equal; lia.
      * apply Forall_app. split; [done|]. by constructor.
    + exists p, [c]. split_and!; [done..|by constructor].
  - set (items1 := match pending with Some r => items ++ [(32, r)] | None => items end).
    assert (match pending with
      | Some space_origin => push_char (line_of items) 32 space_origin
      | None => line_of items end = line_of items1) as ->
      by (destruct pending; [apply push_char_of|done]).
    rewrite push_char_of, Hlen. apply IH; [done| |done]. apply Forall_app. split.
    + subst items1. destruct pending as [r|]; [|done]. apply Forall_app. split; [done|].
      constructor; [|constructor]. destruct Hpend as (p0 & run & -> & Hne & -> & Hrun).
      exists p0, run, ([c] ++ m ++ q). rewrite str_len_app.
      split_and!; [by rewrite Hsrc, <- app_assoc|done|done|by right].
    + constructor; [|constructor]. exists p, [c], (m ++ q). cbn [fst snd].
      rewrite str_len_app. split_and!; [done|done|done|].
      unfold sanitize_inline_character in *. destruct (is_control c); [done|].
      destruct (decide (c = 32)) as [->|?]; [done|by left].
Qed.

Lemma normalize_line_items source p m q :
  str_len source < usize_MAX → source = p ++ m ++ q →
  ∃ items, normalize_line (line_of (annotate (str_len p) m)) = line_of items ∧
    Forall (from_source source) items.
Proof.
  intros Hmax Hsrc. unfold normalize_line.
  assert (Forall (λ x : item, good_range x.2) (annotate (str_len p) m)) as Hg.
  { clear -Hmax Hsrc. revert p Hsrc. induction m as [|c m IH]; intros p Hsrc; [constructor|].
    cbn [annotate]. constructor.
    - unfold good_range; cbn [fst snd]. rewrite Hsrc, !str_len_app in Hmax.
      cbn [str_len] in Hmax. pose proof (len_utf8_bounds c). pose proof (str_len_nonneg p).
      pose proof (str_len_nonneg m). pose proof (str_len_nonneg q). lia.
    - replace (str_len p + len_utf8 c) with (str_len (p ++ [c]))
        by (rewrite str_len_app; cbn [str_len]; lia).
      apply IH. by rewrite Hsrc, <- app_assoc. }
  rewrite line_chars_of by done.
  pose proof (trim_items (annotate (str_len p) m)) as Ht.
  destruct (position _ _) as [first|]; [|by exists []].
  destruct Ht as (l & trimmed & r & Hsplit & -> & _).
  apply annotate_app_inv in Hsplit as (m1 & m2 & -> & _ & Hsplit). symmetry in Hsplit.
  apply annotate_app_inv in Hsplit as (m3 & m4 & -> & -> & _).
  rewrite <- str_len_app.
  destruct (squeeze_items source m3 (p ++ m1) (m4 ++ q) None []) as (items & Hsq & Hit);
    [by rewrite Hsrc, <- !app_assoc|constructor|done|].
  change line_default with (line_of []). rewrite Hsq, repair_of.
  - eexists. split; [done|]. destruct (is_spaced_ascii_word _); [|done].
    rewrite Forall_forall in Hit |- *. intros x [Hx _]%filter_elem_iff. auto.
  - eapply Forall_impl; [exact Hit|]. intros x Hx. by eapply from_source_good.
Qed.

(** A line separator of the cleaned text has no source. *)
Definition separator_item : item := (10, (0, 0)).

Definition traced (source : str) (x : item) : Prop := x = separator_item ∨ from_source source x.

Lemma join_lines_items source lines :
  Forall (λ l, ∃ items, l = line_of items ∧ Forall (from_source source) items) lines →
  ∃ items, join_lines lines = MkNormalized items.*1 (flat items) ∧ Forall (traced source) items.
Proof.
  intros HF.
  destruct HF as [|l lines (items & -> & Hit) HF]; [by exists []|].
  unfold join_lines. cbn [join_lines_loop]. rewrite join_lines_loop_S. cbn [text byte_origins app].
  assert (∃ rest, concat (map (λ w, 10 :: w) (map line_text lines)) = rest.*1 ∧
    concat (map (λ l, (0, 0) :: line_origins l) lines) = flat rest ∧ Forall (traced source) rest)
    as (rest & -> & -> & Hrest).
  { clear Hit. induction HF as [|l lines (its & -> & Hit) HF (rest & Hr1 & Hr2 & IH)];
      [by exists []|].
    exists (separator_item :: its ++ rest). split_and!.
    - cbn [map concat line_of line_text app]. by rewrite fmap_cons, fmap_app, Hr1.
    - cbn [map concat line_of line_origins app]. rewrite Hr2.
      change (flat (separator_item :: its ++ rest)) with ((0, 0) :: flat (its ++ rest)).
      by rewrite flat_app.
    - constructor; [by left|]. apply Forall_app. split; [|done].
      eapply Forall_impl; [exact Hit|]. by right. }
  exists (items ++ rest). cbn [line_of line_text line_origins]. rewrite fmap_app, flat_app.
  split; [done|]. apply Forall_app. split; [|done]. eapply Forall_impl; [exact Hit|]. by right.
Qed.

Definition line_traced (source : str) (l : Line) : Prop :=
  ∃ items, l = line_of items ∧ Forall (from_source source) items.

Lemma remove_repeated_traced source lines :
  Forall (line_traced source) lines →
  Forall (line_traced source) (remove_repeated_headers_and_footers lines).
Proof.
  unfold remove_repeated_headers_and_footers.
  generalize (repeated_short_line_flags (map line_text lines)). intros flags HF. revert flags.
  assert (line_traced source line_default) as Hd by (exists []; split; [done|constructor]).
  induction HF as [|l lines Hl HF IH]; intros [|b bs]; cbn [zip_with]; [constructor..|].
  constructor; [|apply IH]. destruct (_ || _); [done|]. by destruct b.
Qed.

Lemma collapse_blank_lines_elem l lines : l ∈ collapse_blank_lines lines → l ∈ lines.
Proof.
  unfold collapse_blank_lines, collapse_blanks, pop_blank_suffix. rewrite elem_of_reverse.
  assert (∀ L, l ∈ drop_blank_prefix line_is_blank L → l ∈ L) as H1.
  { induction L as [|x L IH]; cbn [drop_blank_prefix]; [done|].
    destruct (line_is_blank x); [right; auto|done]. }
  assert (∀ L prev, l ∈ collapse_loop line_is_blank prev L → l ∈ L) as H2.
  { induction L as [|x L IH]; intros prev; cbn [collapse_loop]; [done|].
    destruct (line_is_blank x), prev; rewrite ?elem_of_cons; naive_solver. }
  intros Hl%H1. rewrite elem_of_reverse in Hl. by apply H2 in Hl.
Qed.

Lemma normalize_items source :
  str_len source < usize_MAX →
  ∃ items, normalize source = MkNormalized items.*1 (flat items) ∧ Forall (traced source) items.
Proof.
  intros Hmax. unfold normalize. apply join_lines_items. apply Forall_forall.
  intros l Hl%collapse_blank_lines_elem. revert l Hl. rewrite <- Forall_forall.
  apply remove_repeated_traced. apply Forall_map, Forall_forall. intros l Hl.
  apply (source_lines_items source (length source) source [] []) in Hl as (p & m & q & Hs & ->);
    [|done|done]. by apply (normalize_line_items source p m q).
Qed.

(** C20: provenance is exact: the cleaned text has one origin per byte; every
    character except the line separators is traced to a source range that
    spells that very character, or, for a space, to a non-empty run of blanks
    and control characters of the source. *)
Theorem normalize_provenance source :
  str_len source < usize_MAX →
  ∃ items,
    text (normalize source) = items.*1 ∧ byte_origins (normalize source) = flat items ∧
    Z.of_nat (length (byte_origins (normalize source))) = str_len (text (normalize source)) ∧
    Forall (traced source) items.
Proof.
  intros (items & -> & HF)%normalize_items. exists items. cbn [text byte_origins].
  split_and!; [done|done|apply flat_length|done].
Qed.

(** ** Mapping a cleaned range back *)

Lemma widen_spec l b :
  let b' := fold_left widen l b in
  b'.1 ≤ b.1 ∧ b.2 ≤ b'.2 ∧ (∀ o, o ∈ l → b'.1 ≤ o.1 ∧ o.2 ≤ b'.2) ∧
  (b'.1 = b.1 ∨ ∃ o, o ∈ l ∧ b'.1 = o.1) ∧ (b'.2 = b.2 ∨ ∃ o, o ∈ l ∧ b'.2 = o.2).
Proof.
  revert b. induction l as [|x l IH]; intros b; cbn [fold_left].
  { split_and!; [lia|lia|by intros o ?%elem_of_nil|by left|by left]. }
  destruct (IH (widen b x)) as (H1 & H2 & H3 & H4 & H5). destruct b as [s e], x as [a c].
  cbn [widen fst snd] in *. setoid_rewrite elem_of_cons.
  split_and!; [lia|lia| | |].
  - intros o [->|Ho]; [cbn; lia|auto].
  - destruct H4 as [H4|(o & Ho & H4)]; [|eauto].
    destruct (Z.min_spec s a) as [[_ E]|[_ E]]; [left; lia|right].
    exists (a, c). split; [by left|cbn; lia].
  - destruct H5 as [H5|(o & Ho & H5)]; [|eauto].
    destruct (Z.max_spec e c) as [[_ E]|[_ E]]; [right|left; lia].
    exists (a, c). split; [by left|cbn; lia].
Qed.

Lemma flat_elem items o : o ∈ flat items → ∃ x, x ∈ items ∧ o = x.2.
Proof.
  unfold flat. induction items as [|x items IH]; cbn [map concat]; [by intros ?%elem_of_nil|].
  rewrite elem_of_app, elem_of_replicate. setoid_rewrite elem_of_cons. naive_solver.
Qed.

Lemma slice_elem {A} (v : list A) a b x : x ∈ slice v a b → x ∈ v.
Proof.
  unfold slice. intros Hx. apply (list_elem_of_In) in Hx. apply list_elem_of_In.
  rewrite <- (take_drop (Z.to_nat a) v). apply in_or_app. right.
  rewrite <- (take_drop (Z.to_nat (b - a)) (drop (Z.to_nat a) v)). apply in_or_app. by left.
Qed.

(** Mapping a range of the cleaned text back to the source: every valid
    non-empty range either covers only line separators and has no span, or
    maps to a non-empty span inside the source that contains the origin of
    every character of the range. *)
Theorem original_span_correct source a b :
  str_len source < usize_MAX → 0 ≤ a < b → b ≤ str_len (text (normalize source)) →
  let covered := slice (byte_origins (normalize source)) a b in
  match original_span_for_clean_range (normalize source) (a, b) with
  | Some (x, y) => 0 ≤ x < y ∧ y ≤ str_len source ∧
      ∀ o, o ∈ covered → o.1 < o.2 → x ≤ o.1 ∧ o.2 ≤ y
  | None => ∀ o, o ∈ covered → o = (0, 0)
  end.
Proof.
  intros Hmax Ha Hb covered. destruct (normalize_items source Hmax) as (items & Hn & HF).
  unfold original_span_for_clean_range. cbn [fst snd]. replace (b <=? a) with false by lia.
  assert (Z.of_nat (length (byte_origins (normalize source))) = str_len (text (normalize source)))
    as Hlen by (rewrite Hn; apply flat_length).
  replace (Z.of_nat (length (byte_origins (normalize source))) <? b) with false by lia. cbn [orb].
  fold covered. set (l := List.filter (λ origin : range, origin.1 <? origin.2) covered).
  assert (∀ o, o ∈ covered → o = (0, 0) ∨ (0 ≤ o.1 < o.2 ∧ o.2 ≤ str_len source)) as Hcov.
  { intros o Ho%slice_elem. rewrite Hn in Ho. cbn [byte_origins] in Ho.
    apply flat_elem in Ho as (x & Hx & ->). rewrite Forall_forall in HF.
    destruct (HF x Hx) as [->|(p & m & q & -> & Hm & -> & _)]; [by left|right]. cbn [fst snd].
    rewrite !str_len_app. pose proof (str_len_nonneg p). pose proof (str_len_nonneg q).
    pose proof (str_len_nonneg m). assert (str_len m ≠ 0) by (intros E%str_len_0; done). lia. }
  assert (∀ o, o ∈ l ↔ o ∈ covered ∧ o.1 < o.2) as Hl.
  { intros o. unfold l. rewrite filter_elem_iff. by rewrite Z.ltb_lt. }
  destruct (widen_spec l (usize_MAX, 0)) as (_ & _ & H3 & H4 & H5).
  destruct (fold_left widen l (usize_MAX, 0)) as [x y]. cbn [fst snd] in *.
  destruct (decide (l = [])) as [Hnil|Hne].
  - rewrite Hnil in *. destruct H4 as [->|(? & ?%elem_of_nil & _)]; [|done].
    rewrite Z.eqb_refl. cbn [negb andb]. intros o Ho. destruct (Hcov o Ho) as [|[Hlt _]]; [done|].
    exfalso. apply (not_elem_of_nil o). apply Hl. split; [done|lia].
  - destruct l as [|o l'] eqn:El; [done|]. assert (o ∈ o :: l') as Hin by left.
    assert (0 ≤ o.1 < o.2 ∧ o.2 ≤ str_len source) as Ho.
    { apply Hl in Hin as [Hc Hlt]. destruct (Hcov o Hc) as [->|?]; [cbn in Hlt; lia|done]. }
    destruct (H3 o Hin) as [Hx Hy].
    assert (0 ≤ x) as Hx0.
    { destruct H4 as [->|(o' & [Hc Hlt]%Hl & ->)]; [done|].
      destruct (Hcov o' Hc) as [->|?]; [cbn in Hlt; lia|lia]. }
    assert (y ≤ str_len source) as Hy0.
    { destruct H5 as [->|(o' & [Hc Hlt]%Hl & ->)]; [apply str_len_nonneg|].
      destruct (Hcov o' Hc) as [->|?]; [cbn in Hlt; lia|lia]. }
    replace (x =? usize_MAX) with false by lia. replace (x <=? y) with true by lia. cbn [negb andb].
    split_and!; [lia|lia|done|]. intros o' Hc Hlt. apply H3, Hl. done.
Qed.

(** ** Concrete instances *)

Definition sample_source : str := lit "  R  E  S  U" ++ [13; 10] ++ lit "Page 1 of 2" ++ [10; 10] ++ lit "北京 k".

Lemma normalize_provenance_witness :
  text (normalize sample_source) = lit "RESU" ++ [10; 10] ++ lit "北京 k" ∧
  Z.of_nat (length (byte_origins (normalize sample_source)))
  = str_len (text (normalize sample_source)).
Proof.
  split; [vm_compute; reflexivity|].
  destruct (normalize_provenance sample_source ltac:(vm_compute; reflexivity)) as (items & _ & _ & H & _).
  exact H.
Defined.

Lemma original_span_correct_witness :
  original_span_for_clean_range (normalize sample_source) (0, 4) = Some (2, 12) ∧ 12 ≤ str_len sample_source.
Proof.
  assert (original_span_for_clean_range (normalize sample_source) (0, 4) = Some (2, 12)) as E
    by (vm_compute; reflexivity).
  split; [exact E|].
  pose proof (original_span_correct sample_source 0 4 ltac:(vm_compute; reflexivity) ltac:(lia)
    ltac:(vm_compute; discriminate)) as H.
  rewrite E in H. exact (proj1 (proj2 H)).
Defined.
