(* ===== verification/Health.v ===== *)
(** * Daemon health contract (crates/daemon-contract, crates/daemon/src/ipc)

    The health vocabulary shared by the daemon and its clients: core, optional
    runtimes, writer authority, the capability matrix derived from them, the
    typed core error and the validation of a whole health report.  The second
    half projects durable store records into that vocabulary
    ([writer_health_from_snapshot], [core_health_from_store]). *)

From Stdlib Require Import ZArith String.
From stdpp Require Import prelude.
From S2P Require Import Prelude Text.

(** ** Vocabulary *)

Module Status.
Inductive StatusState := Initializing | Migrating | Ok | Repairing | Degraded | Blocked.
#[global] Instance StatusState_eq_dec : EqDecision StatusState.
Proof. solve_decision. Defined.
End Status.

Module Core.
Inductive CoreState := Initializing | Migrating | Ready | Repairing | Degraded | Blocked.
#[global] Instance CoreState_eq_dec : EqDecision CoreState.
Proof. solve_decision. Defined.
End Core.
Import Core.

Inductive CoreReason :=
| MetadataInitializing | MetadataMigrating | MigrationRebuild | ArtifactUnavailable
| SourceUnavailable | RuntimeInvariant | UnsupportedStoreSchema | MetadataUnavailable.

#[export] Instance CoreReason_eq_dec : EqDecision CoreReason.
Proof. solve_decision. Defined.

Definition core_reason_label (r : CoreReason) : str :=
  match r with
  | MetadataInitializing => lit "metadata_initializing"
  | MetadataMigrating => lit "metadata_migrating"
  | MigrationRebuild => lit "migration_rebuild"
  | ArtifactUnavailable => lit "artifact_unavailable"
  | SourceUnavailable => lit "source_unavailable"
  | RuntimeInvariant => lit "runtime_invariant"
  | UnsupportedStoreSchema => lit "unsupported_store_schema"
  | MetadataUnavailable => lit "metadata_unavailable"
  end.

Record CoreHealth := MkCore { core_state : Core.CoreState; core_reason : option CoreReason }.

#[export] Instance CoreHealth_eq_dec : EqDecision CoreHealth.
Proof. solve_decision. Defined.

Definition core_initializing : CoreHealth :=
  MkCore Core.Initializing (Some MetadataInitializing).
Definition core_ready : CoreHealth := MkCore Core.Ready None.
Definition core_migrating : CoreHealth := MkCore Core.Migrating (Some MetadataMigrating).
Definition core_blocked (reason : CoreReason) : CoreHealth := MkCore Core.Blocked (Some reason).

Definition core_status (self : CoreHealth) : Status.StatusState :=
  match core_state self with
  | Core.Initializing => Status.Initializing
  | Core.Migrating => Status.Migrating
  | Core.Ready => Status.Ok
  | Core.Repairing => Status.Repairing
  | Core.Degraded => Status.Degraded
  | Core.Blocked => Status.Blocked
  end.

Module Runtime.
Inductive OptionalRuntimeState := Initializing | Available | Unavailable.
#[global] Instance OptionalRuntimeState_eq_dec : EqDecision OptionalRuntimeState.
Proof. solve_decision. Defined.
End Runtime.

Inductive OptionalRuntimeReason := Missing | Invalid | StartFailed | NotConfigured.

#[export] Instance OptionalRuntimeReason_eq_dec : EqDecision OptionalRuntimeReason.
Proof. solve_decision. Defined.

Definition runtime_reason_label (r : OptionalRuntimeReason) : str :=
  match r with
  | Missing => lit "missing"
  | Invalid => lit "invalid"
  | StartFailed => lit "start_failed"
  | NotConfigured => lit "not_configured"
  end.

Record OptionalRuntimeHealth := MkRuntime {
  runtime_state : Runtime.OptionalRuntimeState;
  runtime_reason : option OptionalRuntimeReason;
}.

#[export] Instance OptionalRuntimeHealth_eq_dec : EqDecision OptionalRuntimeHealth.
Proof. solve_decision. Defined.

Definition runtime_initializing : OptionalRuntimeHealth := MkRuntime Runtime.Initializing None.
Definition runtime_available : OptionalRuntimeHealth := MkRuntime Runtime.Available None.
Definition runtime_unavailable (reason : OptionalRuntimeReason) : OptionalRuntimeHealth :=
  MkRuntime Runtime.Unavailable (Some reason).

Definition runtime_is_available (self : OptionalRuntimeHealth) : bool :=
  match runtime_state self with Runtime.Available => true | _ => false end.

Record OptionalRuntimeMatrix := MkRuntimes {
  embedding : OptionalRuntimeHealth;
  ocr : OptionalRuntimeHealth;
  classifier : OptionalRuntimeHealth;
  pdfium : OptionalRuntimeHealth;
}.

Definition runtimes_initializing : OptionalRuntimeMatrix :=
  MkRuntimes runtime_initializing runtime_initializing runtime_initializing runtime_initializing.

Module Writer.
Inductive WriterState := Ready | Transitioning | Unavailable | Blocked.
#[global] Instance WriterState_eq_dec : EqDecision WriterState.
Proof. solve_decision. Defined.
End Writer.

Inductive WriterReason :=
| TransitionInProgress | RuntimeUnavailable | UnsupportedTransition | PersistedStateInvalid
| BlockedByRunningOwner.

#[export] Instance WriterReason_eq_dec : EqDecision WriterReason.
Proof. solve_decision. Defined.

Definition writer_reason_label (r : WriterReason) : str :=
  match r with
  | TransitionInProgress => lit "transition_in_progress"
  | RuntimeUnavailable => lit "runtime_unavailable"
  | UnsupportedTransition => lit "unsupported_transition"
  | PersistedStateInvalid => lit "persisted_state_invalid"
  | BlockedByRunningOwner => lit "blocked_by_running_owner"
  end.

Inductive WriterTransitionPhase :=
| Observed | ClaimsFenced | WorkersQuiesced | TargetCommitted | WriterReady.

#[export] Instance WriterTransitionPhase_eq_dec : EqDecision WriterTransitionPhase.
Proof. solve_decision. Defined.

Record WriterHealth := MkWriter {
  writer_state : Writer.WriterState;
  writer_reason : option WriterReason;
  transition_phase : option WriterTransitionPhase;
  transition_id : option str;
}.

Definition writer_ready : WriterHealth := MkWriter Writer.Ready None None None.
Definition writer_transitioning (phase : WriterTransitionPhase) : WriterHealth :=
  MkWriter Writer.Transitioning (Some TransitionInProgress) (Some phase) None.
Definition writer_transitioning_with_id (phase : WriterTransitionPhase) (id : str) : WriterHealth :=
  MkWriter Writer.Transitioning (Some TransitionInProgress) (Some phase) (Some id).
Definition writer_unavailable (reason : WriterReason) : WriterHealth :=
  MkWriter Writer.Unavailable (Some reason) None None.
Definition writer_blocked (reason : WriterReason) : WriterHealth :=
  MkWriter Writer.Blocked (Some reason) None None.

Definition admits_public_writers (self : WriterHealth) : bool :=
  match writer_state self with Writer.Ready => true | _ => false end.

Module Capability.
Inductive CapabilityState := Initializing | Available | Degraded | Unavailable | Blocked.
#[global] Instance CapabilityState_eq_dec : EqDecision CapabilityState.
Proof. solve_decision. Defined.
End Capability.

Definition capability_state_label (s : Capability.CapabilityState) : str :=
  match s with
  | Capability.Initializing => lit "initializing"
  | Capability.Available => lit "available"
  | Capability.Degraded => lit "degraded"
  | Capability.Unavailable => lit "unavailable"
  | Capability.Blocked => lit "blocked"
  end.

Inductive CapabilityReason :=
| CoreInitializing | CoreBlocked | EmbeddingUnavailable | OcrUnavailable
| ClassifierUnavailable | PdfiumUnavailable | WriterUnavailable | WriterTransitioning.

#[export] Instance CapabilityReason_eq_dec : EqDecision CapabilityReason.
Proof. solve_decision. Defined.

Definition capability_reason_label (r : CapabilityReason) : str :=
  match r with
  | CoreInitializing => lit "core_initializing"
  | CoreBlocked => lit "core_blocked"
  | EmbeddingUnavailable => lit "embedding_unavailable"
  | OcrUnavailable => lit "ocr_unavailable"
  | ClassifierUnavailable => lit "classifier_unavailable"
  | PdfiumUnavailable => lit "pdfium_unavailable"
  | WriterUnavailable => lit "writer_unavailable"
  | WriterTransitioning => lit "writer_transitioning"
  end.

Record CapabilityHealth := MkCap {
  cap_state : Capability.CapabilityState;
  cap_reason : option CapabilityReason;
}.

#[export] Instance CapabilityHealth_eq_dec : EqDecision CapabilityHealth.
Proof. solve_decision. Defined.

Definition cap_available : CapabilityHealth := MkCap Capability.Available None.
Definition cap_degraded (reason : CapabilityReason) : CapabilityHealth :=
  MkCap Capability.Degraded (Some reason).
Definition cap_unavailable (reason : CapabilityReason) : CapabilityHealth :=
  MkCap Capability.Unavailable (Some reason).

Record CapabilityMatrix := MkCaps {
  keyword_search : CapabilityHealth;
  detail : CapabilityHealth;
  semantic_search : CapabilityHealth;
  hybrid_search : CapabilityHealth;
  text_import : CapabilityHealth;
  pdf_import : CapabilityHealth;
  ocr_import : CapabilityHealth;
  index_publication : CapabilityHealth;
}.

#[export] Instance CapabilityMatrix_eq_dec : EqDecision CapabilityMatrix.
Proof. solve_decision. Defined.

Definition uniform (state : Capability.CapabilityState) (reason : CapabilityReason)
    : CapabilityMatrix :=
  let health := MkCap state (Some reason) in
  MkCaps health health health health health health health health.

(** [writer_gate] and the [gated_import] closure of [derive]. *)
Definition writer_gate (writer : WriterHealth) : option CapabilityReason :=
  match writer_state writer with
  | Writer.Ready => None
  | Writer.Transitioning => Some WriterTransitioning
  | Writer.Unavailable | Writer.Blocked => Some WriterUnavailable
  end.

Definition gated_import (writer : WriterHealth) (available : CapabilityHealth) : CapabilityHealth :=
  match writer_gate writer with
  | None => available
  | Some reason => MkCap Capability.Blocked (Some reason)
  end.

Definition derive (core : CoreHealth) (runtimes : OptionalRuntimeMatrix) (writer : WriterHealth)
    : CapabilityMatrix :=
  match core_state core with
  | Core.Initializing | Core.Migrating | Core.Repairing =>
      uniform Capability.Initializing CoreInitializing
  | Core.Degraded | Core.Blocked => uniform Capability.Blocked CoreBlocked
  | Core.Ready =>
      let embedding := runtime_is_available (embedding runtimes) in
      let classifier := runtime_is_available (classifier runtimes) in
      let ocr := runtime_is_available (ocr runtimes) in
      let pdfium := runtime_is_available (pdfium runtimes) in
      {| keyword_search := cap_available;
         detail := cap_available;
         semantic_search :=
           if embedding then cap_available else cap_unavailable EmbeddingUnavailable;
         hybrid_search :=
           if embedding then cap_available else cap_degraded EmbeddingUnavailable;
         text_import := gated_import writer
           (if negb classifier then cap_unavailable ClassifierUnavailable
            else if negb embedding then cap_unavailable EmbeddingUnavailable
            else cap_available);
         pdf_import := gated_import writer
           (if negb classifier then cap_unavailable ClassifierUnavailable
            else if negb embedding then cap_unavailable EmbeddingUnavailable
            else if negb pdfium then cap_unavailable PdfiumUnavailable
            else cap_available);
         ocr_import := gated_import writer
           (if negb classifier then cap_unavailable ClassifierUnavailable
            else if negb embedding then cap_unavailable EmbeddingUnavailable
            else if negb pdfium then cap_unavailable PdfiumUnavailable
            else if negb ocr then cap_unavailable OcrUnavailable
            else cap_available);
         index_publication := gated_import writer
           (if embedding then cap_available else cap_unavailable EmbeddingUnavailable) |}
  end.

(** ** Typed core error *)

Inductive CapabilityName :=
| KeywordSearch | Detail | SemanticSearch | HybridSearch | TextImport | PdfImport | OcrImport
| IndexPublication.

Inductive CoreErrorCode := ServiceInitializing | ServiceBlocked.
Inductive CoreErrorAction := WaitForService | Retry | RepairRequired.

#[export] Instance CapabilityName_eq_dec : EqDecision CapabilityName.
Proof. solve_decision. Defined.
#[export] Instance CoreErrorCode_eq_dec : EqDecision CoreErrorCode.
Proof. solve_decision. Defined.
#[export] Instance CoreErrorAction_eq_dec : EqDecision CoreErrorAction.
Proof. solve_decision. Defined.

Record CoreError := MkCoreError {
  code : CoreErrorCode;
  action : CoreErrorAction;
  capability : option CapabilityName;
  error_reason : CoreReason;
}.

#[export] Instance CoreError_eq_dec : EqDecision CoreError.
Proof. solve_decision. Defined.

Definition for_core (core : CoreHealth) : option CoreError :=
  match core_reason core with
  | None => None
  | Some reason =>
      match core_state core with
      | Core.Initializing | Core.Migrating | Core.Repairing =>
          Some (MkCoreError ServiceInitializing WaitForService None reason)
      | Core.Degraded => Some (MkCoreError ServiceBlocked Retry None reason)
      | Core.Blocked => Some (MkCoreError ServiceBlocked RepairRequired None reason)
      | Core.Ready => None
      end
  end.

(** ** Validation of a report *)

Inductive ContractViolation := MkContractViolation.

Definition valid_core (core : CoreHealth) : bool :=
  match core_state core, core_reason core with
  | Core.Ready, None => true
  | Core.Initializing, Some MetadataInitializing => true
  | Core.Migrating, Some MetadataMigrating => true
  | Core.Repairing, Some (MigrationRebuild | ArtifactUnavailable) => true
  | (Core.Degraded | Core.Blocked),
    Some (ArtifactUnavailable | SourceUnavailable | RuntimeInvariant | UnsupportedStoreSchema
          | MetadataUnavailable) => true
  | _, _ => false
  end.

Definition valid_runtime (runtime : OptionalRuntimeHealth) : bool :=
  match runtime_state runtime, runtime_reason runtime with
  | (Runtime.Initializing | Runtime.Available), None => true
  | Runtime.Unavailable, Some _ => true
  | _, _ => false
  end.

Definition valid_writer (writer : WriterHealth) : bool :=
  match writer_state writer, writer_reason writer with
  | Writer.Ready, None => true
  | Writer.Transitioning, Some (TransitionInProgress | BlockedByRunningOwner) => true
  | (Writer.Unavailable | Writer.Blocked),
    Some (RuntimeUnavailable | UnsupportedTransition | PersistedStateInvalid
          | BlockedByRunningOwner | TransitionInProgress) => true
  | _, _ => false
  end.

Definition validate_health_contract (status : Status.StatusState) (core : CoreHealth)
    (runtimes : OptionalRuntimeMatrix) (writer : WriterHealth) (capabilities : CapabilityMatrix)
    (error : option CoreError) : result () ContractViolation :=
  if negb (bool_decide (status = core_status core))
     || negb (valid_core core)
     || negb (valid_writer writer)
     || negb (forallb valid_runtime
                [embedding runtimes; ocr runtimes; classifier runtimes; pdfium runtimes])
     || negb (bool_decide (capabilities = derive core runtimes writer))
     || negb (bool_decide (error = for_core core))
  then Err MkContractViolation
  else Ok tt.

(** ** Projection of store records (ipc/writer_health.rs, ipc/runtime_state.rs)

    The records below are what [meta_store] returns. *)

Module Store.
Inductive HealthState := Ready | Transitioning | Unavailable | Blocked.
Inductive ServiceState := ProjectionRepairing | ProjectionReady | ProjectionRepairBlocked.
Inductive RepairReason :=
| RepairMigrationRebuild | RepairArtifactUnavailable | RepairSourceUnavailable
| RepairRuntimeInvariant.

Record WriterAuthoritySnapshot := MkAuthority {
  health_state : HealthState;
  health_reason : option str;
  authority_phase : option WriterTransitionPhase;
  active_transition_id : option str;
  last_completed_transition_id : option str;
}.

Record SearchProjectionState := MkProjection {
  service_state : ServiceState;
  repair_reason : option RepairReason;
}.
End Store.
Import Store.

Definition map_reason (reason : option str) : WriterReason :=
  match reason with
  | Some r =>
      default RuntimeUnavailable
        (str_match r
           [([lit "transition_in_progress"], TransitionInProgress);
            ([lit "runtime_unavailable"], RuntimeUnavailable);
            ([lit "unsupported_transition"], UnsupportedTransition);
            ([lit "persisted_state_invalid"], PersistedStateInvalid);
            ([lit "blocked_by_running_owner"], BlockedByRunningOwner)])
  | None => RuntimeUnavailable
  end.

(** [.filter(|id| !id.is_empty())]. *)
Definition non_empty_id (id : option str) : option str :=
  match id with Some i => if is_empty i then None else Some i | None => None end.

Definition writer_health_from_snapshot (snapshot : WriterAuthoritySnapshot) : WriterHealth :=
  let transition_phase := authority_phase snapshot in
  let active_transition_id := non_empty_id (active_transition_id snapshot) in
  let last_completed := non_empty_id (last_completed_transition_id snapshot) in
  match health_state snapshot with
  | Store.Ready =>
      MkWriter Writer.Ready None
        (match last_completed with Some _ => Some WriterReady | None => None end) last_completed
  | Store.Transitioning =>
      MkWriter Writer.Transitioning (Some (map_reason (health_reason snapshot)))
        (match transition_phase with Some p => Some p | None => Some Observed end)
        active_transition_id
  | Store.Unavailable =>
      MkWriter Writer.Unavailable (Some (map_reason (health_reason snapshot))) None None
  | Store.Blocked =>
      MkWriter Writer.Blocked (Some (map_reason (health_reason snapshot))) None None
  end.

(** [None] is a failed read. *)
Definition writer_health_from_store (snapshot : option WriterAuthoritySnapshot) : WriterHealth :=
  match snapshot with
  | Some snapshot => writer_health_from_snapshot snapshot
  | None => writer_unavailable PersistedStateInvalid
  end.

Definition core_health_from_store (projection : option SearchProjectionState) : option CoreHealth :=
  match projection with
  | None => None
  | Some projection =>
      let reason :=
        match repair_reason projection with
        | Some RepairMigrationRebuild => Some MigrationRebuild
        | Some RepairArtifactUnavailable => Some ArtifactUnavailable
        | Some RepairSourceUnavailable => Some SourceUnavailable
        | Some RepairRuntimeInvariant => Some RuntimeInvariant
        | None => None
        end in
      Some (match service_state projection with
            | ProjectionReady => MkCore Core.Ready None
            | ProjectionRepairing => MkCore Core.Repairing reason
            | ProjectionRepairBlocked =>
                MkCore Core.Blocked
                  (match reason with Some r => Some r | None => Some RuntimeInvariant end)
            end)
  end.

(** ** The capability matrix *)

Definition is_available (c : CapabilityHealth) : bool :=
  bool_decide (cap_state c = Capability.Available).

(** What each public operation needs. *)
Definition core_ready_b (core : CoreHealth) : bool :=
  bool_decide (core_state core = Core.Ready).

Definition needs_embedding (core : CoreHealth) (r : OptionalRuntimeMatrix) : bool :=
  core_ready_b core && runtime_is_available (embedding r).

Definition needs_text (core : CoreHealth) (r : OptionalRuntimeMatrix) (w : WriterHealth) : bool :=
  needs_embedding core r && admits_public_writers w && runtime_is_available (classifier r).

(** The capability matrix is exactly the dependency table: keyword search
    and detail need a ready core; semantic and hybrid search also need
    embedding, hybrid degrading instead of failing without it; imports and
    index publication further need an admitting writer and embedding, text
    import the classifier, PDF import also pdfium, OCR import also OCR. *)
Theorem derive_dependency_table core r w :
  let m := derive core r w in
  is_available (keyword_search m) = core_ready_b core ∧
  is_available (detail m) = core_ready_b core ∧
  is_available (semantic_search m) = needs_embedding core r ∧
  is_available (hybrid_search m) = needs_embedding core r ∧
  (cap_state (hybrid_search m) = Capability.Degraded ↔
     core_state core = Core.Ready ∧ runtime_is_available (embedding r) = false) ∧
  is_available (text_import m) = needs_text core r w ∧
  is_available (pdf_import m) = needs_text core r w && runtime_is_available (pdfium r) ∧
  is_available (ocr_import m)
    = needs_text core r w && runtime_is_available (pdfium r) && runtime_is_available (ocr r) ∧
  is_available (index_publication m) = needs_embedding core r && admits_public_writers w.
Proof.
  unfold derive, needs_text, needs_embedding, core_ready_b, admits_public_writers, gated_import,
    writer_gate.
  destruct (core_state core), (writer_state w), (runtime_is_available (embedding r)),
    (runtime_is_available (classifier r)), (runtime_is_available (pdfium r)),
    (runtime_is_available (ocr r)); cbn; split_and!; done || (split; [done|by intros []]).
Qed.

(** A capability states a reason exactly when it is not available. *)
Definition cap_wf (c : CapabilityHealth) : Prop :=
  cap_reason c = None ↔ cap_state c = Capability.Available.

Lemma cap_wf_available : cap_wf cap_available.
Proof. done. Qed.

Lemma cap_wf_reason s r : s ≠ Capability.Available → cap_wf (MkCap s (Some r)).
Proof. intros Hs. unfold cap_wf; cbn. split; [done|by intros ->]. Qed.

(** The matrix explains itself, and the writer never gates reading: every
    capability carries a reason exactly when it is not available, and the four
    search capabilities do not depend on the writer. *)
Theorem derive_explained core r w w' :
  let m := derive core r w in
  Forall cap_wf [keyword_search m; detail m; semantic_search m; hybrid_search m; text_import m;
                 pdf_import m; ocr_import m; index_publication m] ∧
  let m' := derive core r w' in
  keyword_search m = keyword_search m' ∧ detail m = detail m' ∧
  semantic_search m = semantic_search m' ∧ hybrid_search m = hybrid_search m'.
Proof.
  split.
  - rewrite !Forall_cons. unfold derive, gated_import, writer_gate.
    destruct (core_state core), (writer_state w), (runtime_is_available (embedding r)),
      (runtime_is_available (classifier r)), (runtime_is_available (pdfium r)),
      (runtime_is_available (ocr r)); cbn; split_and!;
      first [apply cap_wf_available|by apply cap_wf_reason|constructor].
  - unfold derive. by destruct (core_state core).
Qed.

(** ** Validation *)

(** A report validates exactly when its parts are individually valid and
    status, capabilities and error are the ones its core, runtimes and writer
    determine: a client accepts one report per (core, runtimes, writer). *)
Theorem validate_health_contract_iff status core r w caps error :
  validate_health_contract status core r w caps error = Ok tt ↔
  valid_core core = true ∧ valid_writer w = true ∧
  Forall (λ x, valid_runtime x = true) [embedding r; ocr r; classifier r; pdfium r] ∧
  status = core_status core ∧ caps = derive core r w ∧ error = for_core core.
Proof.
  assert (Forall (λ x, valid_runtime x = true) [embedding r; ocr r; classifier r; pdfium r] ↔
    forallb valid_runtime [embedding r; ocr r; classifier r; pdfium r] = true) as HR.
  { rewrite forallb_forall, Forall_forall. by setoid_rewrite list_elem_of_In. }
  pose proof (bool_decide_eq_true (status = core_status core)) as HS.
  pose proof (bool_decide_eq_true (caps = derive core r w)) as HC.
  pose proof (bool_decide_eq_true (error = for_core core)) as HE.
  unfold validate_health_contract.
  destruct (bool_decide (status = _)), (valid_core core), (valid_writer w), (forallb _ _),
    (bool_decide (caps = _)), (bool_decide (error = _)); cbn [negb orb];
    (split; [intros E; first [discriminate E|tauto]|]);
    intros (? & ? & ? & ? & ? & ?); first [reflexivity|exfalso; intuition discriminate].
Qed.

(** What the store guarantees of its records: the schema's row check together
    with the reasons its transitions write. *)
Definition authority_wf (a : WriterAuthoritySnapshot) : Prop :=
  match health_state a with
  | Store.Ready => health_reason a = None
  | Store.Transitioning =>
      authority_phase a ≠ None ∧
      (health_reason a = Some (lit "transition_in_progress") ∨
       health_reason a = Some (lit "blocked_by_running_owner"))
  | Store.Unavailable | Store.Blocked => health_reason a ≠ None
  end.

Definition projection_wf (p : SearchProjectionState) : Prop :=
  match service_state p with
  | ProjectionReady => repair_reason p = None
  | ProjectionRepairing =>
      repair_reason p = Some RepairMigrationRebuild ∨
      repair_reason p = Some RepairArtifactUnavailable
  | ProjectionRepairBlocked => repair_reason p ≠ Some RepairMigrationRebuild
  end.

Lemma valid_writer_closed state reason phase id :
  state ≠ Writer.Ready → state ≠ Writer.Transitioning →
  valid_writer (MkWriter state (Some reason) phase id) = true.
Proof. by destruct state, reason. Qed.

Lemma writer_health_from_store_valid a :
  (∀ s, a = Some s → authority_wf s) → valid_writer (writer_health_from_store a) = true.
Proof.
  intros Ha. destruct a as [a|]; [|done]. specialize (Ha a eq_refl).
  unfold writer_health_from_store, writer_health_from_snapshot, authority_wf in *.
  destruct (health_state a); [done| |by apply valid_writer_closed..].
  destruct Ha as [_ [->| ->]]; vm_compute; reflexivity.
Qed.

Lemma core_health_from_store_valid p core :
  (∀ s, p = Some s → projection_wf s) → core_health_from_store p = Some core →
  valid_core core = true.
Proof.
  intros Hp. destruct p as [p|]; [|done]. specialize (Hp p eq_refl).
  unfold core_health_from_store, projection_wf in *. intros [= <-].
  destruct (service_state p).
  - by destruct Hp as [->| ->].
  - done.
  - by destruct (repair_reason p) as [[]|].
Qed.

Definition sample_authority : WriterAuthoritySnapshot :=
  MkAuthority Store.Transitioning (Some (lit "transition_in_progress")) (Some ClaimsFenced)
    (Some (lit "t1")) None.
Definition sample_projection : SearchProjectionState :=
  MkProjection ProjectionRepairing (Some RepairArtifactUnavailable).
