(* ===== verification/ControlPlane.v ===== *)
(** * The daemon's control-plane publisher (crates/daemon/src/ipc/runtime_state.rs)

    One publisher owns the cached control-plane projection of a daemon
    generation: every update replaces a whole snapshot through a capacity-one
    channel to a worker thread and is acknowledged after the shared value has
    been replaced.  The JSON renderings are arguments: their type and the
    rendering functions of [routes::status] and [diagnostics] are parameters of
    the model. *)

From Stdlib Require Import ZArith String.
From stdpp Require Import prelude.
From S2P Require Import Prelude Text Health.
Import Health.Store.

Inductive RuntimeOwnerStage := StageInitializing | StageServing | StageBlocked.

Inductive DaemonFatalError := ControlPlaneFailure.

(** What happens to one update on the channel: acknowledged; not accepted by
    the channel; or accepted with the receipt lost, before or after the worker
    replaced the shared value. *)
Inductive Delivery := Acked | NotSent | LostUnapplied | LostApplied.

Definition owner_stage (core : CoreHealth) : RuntimeOwnerStage :=
  match core_state core with
  | Core.Ready => StageServing
  | Core.Initializing | Core.Migrating | Core.Repairing => StageInitializing
  | Core.Degraded | Core.Blocked => StageBlocked
  end.

Section control_plane.
Context {Json : Type}.

Definition renderer : Type :=
  CoreHealth → OptionalRuntimeMatrix → WriterHealth → CapabilityMatrix → Json.

(** [routes::status::render_without_store], [diagnostics::render_without_store]. *)
Context (status_without_store diagnostics_without_store : renderer).

Record ControlPlaneSnapshot := MkSnapshot {
  snap_core : CoreHealth;
  snap_runtimes : OptionalRuntimeMatrix;
  snap_writer : WriterHealth;
  snap_capabilities : CapabilityMatrix;
  snap_status : Json;
  snap_diagnostics : Json;
}.

(** What one pass over the store yields: each read or rendering may fail. *)
Record StoreView := MkView {
  view_projection : option SearchProjectionState;
  view_authority : option WriterAuthoritySnapshot;
  view_status : CoreHealth → OptionalRuntimeMatrix → WriterHealth → CapabilityMatrix → option Json;
  view_diagnostics :
    CoreHealth → OptionalRuntimeMatrix → WriterHealth → CapabilityMatrix → option Json;
}.

Definition snapshot_without_store (core : CoreHealth) (runtimes : OptionalRuntimeMatrix)
    : ControlPlaneSnapshot :=
  let writer := writer_ready in
  let capabilities := derive core runtimes writer in
  MkSnapshot core runtimes writer capabilities
    (status_without_store core runtimes writer capabilities)
    (diagnostics_without_store core runtimes writer capabilities).

Definition snapshot_from_fallible_source (runtimes : OptionalRuntimeMatrix)
    (read_core : option CoreHealth) (read_writer : option WriterHealth)
    (render_status render_diagnostics :
       CoreHealth → WriterHealth → CapabilityMatrix → option Json) : ControlPlaneSnapshot :=
  let loaded :=
    core ← read_core;
    writer ← read_writer;
    let capabilities := derive core runtimes writer in
    status ← render_status core writer capabilities;
    diagnostics ← render_diagnostics core writer capabilities;
    Some (MkSnapshot core runtimes writer capabilities status diagnostics) in
  match loaded with
  | Some snapshot => snapshot
  | None => snapshot_without_store (MkCore Core.Degraded (Some MetadataUnavailable)) runtimes
  end.

Definition snapshot_from_store (store : StoreView) (runtimes : OptionalRuntimeMatrix)
    : ControlPlaneSnapshot :=
  snapshot_from_fallible_source runtimes
    (core_health_from_store (view_projection store))
    (Some (writer_health_from_store (view_authority store)))
    (λ core writer capabilities, view_status store core runtimes writer capabilities)
    (λ core writer capabilities, view_diagnostics store core runtimes writer capabilities).

Record ControlPlanePublisher := MkPublisher {
  current : ControlPlaneSnapshot;
  prepared_serving : option ControlPlaneSnapshot;
  stage : RuntimeOwnerStage;
}.

(** The publisher and the value readers see through [ControlPlaneState]. *)
Record ControlPlane := MkControlPlane {
  visible : ControlPlaneSnapshot;
  publisher : ControlPlanePublisher;
}.

Definition outcome : Type := result () DaemonFatalError * ControlPlane.

Definition initializing : ControlPlane :=
  let initial := snapshot_without_store core_initializing runtimes_initializing in
  MkControlPlane initial (MkPublisher initial None StageInitializing).

Definition publish (d : Delivery) (snapshot : ControlPlaneSnapshot) (s : ControlPlane) : outcome :=
  let p := publisher s in
  match d with
  | Acked =>
      (Ok tt, MkControlPlane snapshot (MkPublisher snapshot (prepared_serving p) (stage p)))
  | NotSent | LostUnapplied => (Err ControlPlaneFailure, s)
  | LostApplied => (Err ControlPlaneFailure, MkControlPlane snapshot p)
  end.

Definition set_runtimes (d : Delivery) (runtimes : OptionalRuntimeMatrix) (s : ControlPlane)
    : outcome :=
  publish d (snapshot_without_store (snap_core (current (publisher s))) runtimes) s.

Definition mark_migrating (d : Delivery) (s : ControlPlane) : outcome :=
  publish d (snapshot_without_store core_migrating (snap_runtimes (current (publisher s)))) s.

Definition mark_blocked_with_runtimes (d : Delivery) (reason : CoreReason)
    (runtimes : OptionalRuntimeMatrix) (s : ControlPlane) : outcome :=
  let s := MkControlPlane (visible s) (MkPublisher (current (publisher s)) None StageBlocked) in
  publish d (snapshot_without_store (core_blocked reason) runtimes) s.

Definition mark_blocked (d : Delivery) (reason : CoreReason) (s : ControlPlane) : outcome :=
  mark_blocked_with_runtimes d reason (snap_runtimes (current (publisher s))) s.

Definition prepare_from_store (store : StoreView) (s : ControlPlane) : ControlPlane :=
  let p := publisher s in
  MkControlPlane (visible s)
    (MkPublisher (current p) (Some (snapshot_from_store store (snap_runtimes (current p))))
       (stage p)).

Definition publish_prepared_serving (d : Delivery) (s : ControlPlane) : outcome :=
  let p := publisher s in
  match prepared_serving p with
  | None => (Err ControlPlaneFailure, s)
  | Some snapshot =>
      publish d snapshot
        (MkControlPlane (visible s)
           (MkPublisher (current p) None (owner_stage (snap_core snapshot))))
  end.

Definition refresh_from_store_with_runtimes (d : Delivery) (store : StoreView)
    (runtimes : OptionalRuntimeMatrix) (s : ControlPlane) : outcome :=
  let p := publisher s in
  let snapshot := snapshot_from_store store runtimes in
  publish d snapshot
    (MkControlPlane (visible s)
       (MkPublisher (current p) (prepared_serving p) (owner_stage (snap_core snapshot)))).

(** ** Runs *)

Definition runtimes_valid (r : OptionalRuntimeMatrix) : Prop :=
  Forall (λ x, valid_runtime x = true) [embedding r; ocr r; classifier r; pdfium r].

Definition view_valid (v : StoreView) : Prop :=
  (∀ p, view_projection v = Some p → projection_wf p) ∧
  (∀ a, view_authority v = Some a → authority_wf a).

(** One publisher call, with the stage its [debug_assert] demands, runtime
    reports and store records that are well formed, and any delivery allowed
    by [ok]. *)
Inductive cp_step (ok : Delivery → Prop) : ControlPlane → ControlPlane → Prop :=
| step_set_runtimes d r s :
    ok d → stage (publisher s) = StageInitializing → runtimes_valid r →
    cp_step ok s (set_runtimes d r s).2
| step_mark_migrating d s :
    ok d → stage (publisher s) = StageInitializing → cp_step ok s (mark_migrating d s).2
| step_mark_blocked d reason s :
    ok d → valid_core (core_blocked reason) = true → cp_step ok s (mark_blocked d reason s).2
| step_mark_blocked_with_runtimes d reason r s :
    ok d → valid_core (core_blocked reason) = true → runtimes_valid r →
    cp_step ok s (mark_blocked_with_runtimes d reason r s).2
| step_prepare v s :
    stage (publisher s) = StageInitializing → view_valid v → cp_step ok s (prepare_from_store v s)
| step_publish_prepared d s : ok d → cp_step ok s (publish_prepared_serving d s).2
| step_refresh d v r s :
    ok d → view_valid v → runtimes_valid r →
    cp_step ok s (refresh_from_store_with_runtimes d v r s).2.

(** ** Invariants *)

(** A snapshot a client will accept, whose authorization data and derived
    capabilities agree. *)
Definition snapshot_ok (s : ControlPlaneSnapshot) : Prop :=
  valid_core (snap_core s) = true ∧ valid_writer (snap_writer s) = true ∧
  runtimes_valid (snap_runtimes s) ∧
  snap_capabilities s = derive (snap_core s) (snap_runtimes s) (snap_writer s).

Definition plane_ok (s : ControlPlane) : Prop :=
  snapshot_ok (visible s) ∧ snapshot_ok (current (publisher s)) ∧
  ∀ p, prepared_serving (publisher s) = Some p → snapshot_ok p.

Lemma snapshot_without_store_ok core r :
  valid_core core = true → runtimes_valid r → snapshot_ok (snapshot_without_store core r).
Proof. done. Qed.

Lemma snapshot_from_store_ok v r :
  view_valid v → runtimes_valid r → snapshot_ok (snapshot_from_store v r).
Proof.
  intros [Hp Ha] Hr. unfold snapshot_from_store, snapshot_from_fallible_source.
  destruct (core_health_from_store (view_projection v)) as [core|] eqn:E; cbn;
    [|by apply snapshot_without_store_ok].
  destruct (view_status _ _ _ _ _); cbn; [|by apply snapshot_without_store_ok].
  destruct (view_diagnostics _ _ _ _ _); cbn; [|by apply snapshot_without_store_ok].
  split_and!; [|by apply writer_health_from_store_valid|done|done].
  by apply (core_health_from_store_valid (view_projection v)).
Qed.

Lemma publish_ok d snapshot s :
  snapshot_ok snapshot → plane_ok s → plane_ok (publish d snapshot s).2.
Proof. intros Hs (H1 & H2 & H3). by destruct d. Qed.

Lemma initializing_ok : plane_ok initializing.
Proof.
  assert (snapshot_ok (snapshot_without_store core_initializing runtimes_initializing)) as H.
  { apply snapshot_without_store_ok; [done|]. by repeat constructor. }
  by split_and!.
Qed.

Lemma cp_step_ok ok s s' : plane_ok s → cp_step ok s s' → plane_ok s'.
Proof.
  intros Hs Hstep. pose proof Hs as (H1 & H2 & H3).
  destruct Hstep as [d r s _ _ Hr|d s _ _|d reason s _ Hc|d reason r s _ Hc Hr|v s _ Hv|d s _
                    |d v r s _ Hv Hr]; unfold set_runtimes, mark_migrating, mark_blocked,
    mark_blocked_with_runtimes, publish_prepared_serving, refresh_from_store_with_runtimes.
  - apply publish_ok; [|done]. apply snapshot_without_store_ok; [apply H2|done].
  - apply publish_ok; [|done]. apply snapshot_without_store_ok; [done|apply H2].
  - apply publish_ok; [apply snapshot_without_store_ok; [done|apply H2]|by split_and!].
  - apply publish_ok; [by apply snapshot_without_store_ok|by split_and!].
  - split_and!; [done|done|]. cbn. intros p [= <-]. apply snapshot_from_store_ok; [done|apply H2].
  - destruct (prepared_serving (publisher s)) as [p|] eqn:E; [|done].
    apply publish_ok; [by apply H3|by split_and!].
  - apply publish_ok; [by apply snapshot_from_store_ok|by split_and!].
Qed.

(** C24: whatever calls the daemon makes and however updates are delivered or
    lost, the snapshot readers see always passes the client's health-contract
    validation, with capabilities derived from its own core, runtimes and
    writer; in particular search is only ever offered on a ready core. *)
Theorem visible_snapshot_valid (ok : Delivery → Prop) s :
  reachable (cp_step ok) initializing s →
  let v := visible s in
  validate_health_contract (core_status (snap_core v)) (snap_core v) (snap_runtimes v)
    (snap_writer v) (snap_capabilities v) (for_core (snap_core v)) = Ok tt ∧
  (is_available (keyword_search (snap_capabilities v)) = true → core_state (snap_core v) = Core.Ready).
Proof.
  intros Hr. assert (plane_ok s) as [(Hc & Hw & Hrt & Hcap) _].
  { revert s Hr. apply reachable_invariant; [apply initializing_ok|]. intros ??. apply cp_step_ok. }
  cbn. split.
  - unfold validate_health_contract. rewrite Hc, Hw, !bool_decide_eq_true_2 by done.
    assert (forallb valid_runtime [embedding (snap_runtimes (visible s)); ocr (snap_runtimes (visible s));
      classifier (snap_runtimes (visible s)); pdfium (snap_runtimes (visible s))] = true) as ->; [|done].
    unfold runtimes_valid in Hrt. rewrite forallb_forall. intros x Hx%list_elem_of_In.
    rewrite Forall_forall in Hrt. auto.
  - rewrite Hcap. unfold derive. by destruct (core_state (snap_core (visible s))).
Qed.

(** While updates are acknowledged the publisher and its readers agree:
    the visible snapshot is the publisher's current one and the owner stage is
    the one its core determines. *)
Theorem acknowledged_publisher_in_sync s :
  reachable (cp_step (λ d, d = Acked)) initializing s →
  visible s = current (publisher s) ∧
  stage (publisher s) = owner_stage (snap_core (visible s)).
Proof.
  apply (reachable_invariant _ _ (λ s, visible s = current (publisher s) ∧
    stage (publisher s) = owner_stage (snap_core (visible s)))); [done|].
  clear s. intros s s' [Hv Hst] Hstep.
  destruct Hstep as [d r s -> Hg _|d s -> Hg|d reason s -> _|d reason r s -> _ _|v s _ _|d s ->
                    |d v r s -> _ _]; cbn; try done.
  - by rewrite <- Hv.
  - unfold publish_prepared_serving. by destruct (prepared_serving (publisher s)).
Qed.

(** Blocking fences the prepared projection: after [mark_blocked], with any
    delivery, a prepared serving snapshot can no longer be published, the
    attempt reports a control-plane failure and changes nothing; and an update
    that was not acknowledged never becomes the publisher's current snapshot. *)
Theorem blocked_fences_prepared (d d' : Delivery) reason (s : ControlPlane) :
  let s' := (mark_blocked d reason s).2 in
  publish_prepared_serving d' s' = (Err ControlPlaneFailure, s') ∧
  stage (publisher s') = StageBlocked ∧
  (d = Acked → core_state (snap_core (visible s')) = Core.Blocked) ∧
  (d ≠ Acked → current (publisher s') = current (publisher s) ∧
               (mark_blocked d reason s).1 = Err ControlPlaneFailure).
Proof. by destruct d. Qed.
End control_plane.

(** ** Concrete instances *)

Definition unit_renderer : @renderer () := λ _ _ _ _, ().
Definition unit_view : @StoreView () :=
  MkView (Some sample_projection) (Some sample_authority) (λ _ _ _ _, Some ()) (λ _ _ _ _, Some ()).

Definition sample_plane : @ControlPlane () :=
  (publish_prepared_serving Acked
    (prepare_from_store unit_renderer unit_renderer unit_view
      (initializing unit_renderer unit_renderer))).2.

Lemma sample_plane_reachable :
  reachable (cp_step unit_renderer unit_renderer (λ d, d = Acked))
    (initializing unit_renderer unit_renderer) sample_plane.
Proof.
  eapply reachable_step; [eapply reachable_step; [apply reachable_init|]|].
  - apply (step_prepare _ _ _ unit_view); [done|]. split; [intros p Hp|intros a Ha].
    + assert (p = sample_projection) as -> by (cbn in Hp; congruence). by right.
    + assert (a = sample_authority) as -> by (cbn in Ha; congruence). split; [done|by left].
  - by apply step_publish_prepared.
Qed.

Lemma visible_snapshot_valid_witness :
  let v := visible sample_plane in
  core_state (snap_core v) = Core.Repairing ∧
  validate_health_contract (core_status (snap_core v)) (snap_core v) (snap_runtimes v)
    (snap_writer v) (snap_capabilities v) (for_core (snap_core v)) = Ok tt.
Proof.
  split; [vm_compute; reflexivity|].
  apply (visible_snapshot_valid unit_renderer unit_renderer (λ d, d = Acked)).
  apply sample_plane_reachable.
Defined.

Lemma acknowledged_publisher_in_sync_witness :
  visible sample_plane = current (publisher sample_plane).
Proof.
  apply (acknowledged_publisher_in_sync unit_renderer unit_renderer).
  apply sample_plane_reachable.
Defined.

Lemma blocked_fences_prepared_witness :
  core_state (snap_core (visible (mark_blocked unit_renderer unit_renderer Acked RuntimeInvariant
    sample_plane).2)) = Core.Blocked.
Proof. apply (blocked_fences_prepared unit_renderer unit_renderer Acked Acked). reflexivity. Defined.
