(* ===== verification/Sectionizer.v ===== *)
(** * Sections and chunks of a cleaned resume (crates/sectionizer)

    Lines with byte and character offsets, heading detection, heading-delimited
    sections, and the fallback that packs paragraphs into bounded chunks.
    Byte-range slicing that would panic is [None]. *)

From Stdlib Require Import ZArith String Sorted.
From stdpp Require Import prelude.
From S2P Require Import Prelude Float32 Text TextNormalizer.

Local Open Scope Z_scope.

Inductive SectionType :=
| Contact | Profile | Education | Experience | Project | Skill | Certificate | Other (name : str).

#[export] Instance SectionType_eq_dec : EqDecision SectionType.
Proof. solve_decision. Defined.

Definition DEFAULT_MAX_CHARS : Z := 1200.

Record SectionChunk := MkChunk {
  section_type : SectionType;
  order_no : Z;
  chunk_text : str;
  chunk_char_start : Z;
  chunk_char_end : Z;
  chunk_confidence : f32;
}.

(** [Sectionizer { max_chars }]; [with_max_chars] keeps it at least 1. *)
Definition with_max_chars (max_chars : Z) : Z := Z.max max_chars 1.

(** [n as u32]. *)
Definition as_u32 (n : Z) : Z := n `mod` 2 ^ 32.

(** ** Lines *)

Record IndexedLine := MkIndexed {
  ltext : str;
  lstart : Z;
  lend : Z;
  lchar_start : Z;
  lchar_end : Z;
}.

(** [str::split_inclusive('\n')]. *)
Fixpoint split_inclusive (s : str) : list str :=
  match s with
  | [] => []
  | c :: s =>
      if c =? 10 then [c] :: split_inclusive s
      else match split_inclusive s with
           | [] => [[c]]
           | w :: ws => (c :: w) :: ws
           end
  end.

Definition chars_count (s : str) : Z := Z.of_nat (length s).

(** The [for line in text.split_inclusive('\n')] loop; returns the lines and
    the final [start] and [char_start]. *)
Fixpoint indexed_lines_loop (text : str) (start char_start : Z) (pieces : list str)
    : option (list IndexedLine * Z * Z) :=
  match pieces with
  | [] => Some ([], start, char_start)
  | line :: pieces =>
      let raw_end := start + str_len line in
      let end_ := raw_end - (if ends_with [10] line then 1 else 0) in
      line_without_newline ← byte_slice text start end_;
      let char_end := char_start + chars_count line_without_newline in
      let indexed := MkIndexed line_without_newline start end_ char_start char_end in
      '(lines, final_start, final_char_start) ←
        indexed_lines_loop text raw_end (char_start + chars_count line) pieces;
      Some (indexed :: lines, final_start, final_char_start)
  end.

Definition indexed_lines (text : str) : option (list IndexedLine) :=
  '(lines, start, char_start) ← indexed_lines_loop text 0 0 (split_inclusive text);
  if (start <? str_len text) || is_empty text then
    rest ← byte_slice text start (str_len text);
    Some (lines ++
      [MkIndexed rest start (str_len text) char_start (char_start + chars_count rest)])
  else Some lines.

(** ** Headings *)

Definition contains_any (normalized : str) (needles : list str) : bool :=
  existsb (λ needle, contains needle normalized) needles.

(** ： ， 。 、 ； space and tab, besides ASCII punctuation. *)
Definition is_heading_trim (c : char) : bool :=
  is_ascii_punctuation c
  || existsb (Z.eqb c) [0xFF1A; 0xFF0C; 0x3002; 0x3001; 0xFF1B; 32; 9].

Definition normalize_heading (text : str) : str :=
  to_ascii_lowercase (trim_matches is_heading_trim (trim text)).

Definition heading_table : list (list str * SectionType) :=
  [([lit "contact"; lit "联系方式"; lit "联系"], Contact);
   ([lit "profile"; lit "summary"; lit "self"; lit "自我评价"; lit "个人简介"; lit "求职意向"],
    Profile);
   ([lit "education"; lit "教育"; lit "学校"; lit "学历"], Education);
   ([lit "project"; lit "项目"], Project);
   ([lit "experience"; lit "工作经历"; lit "工作经验"; lit "经历"], Experience);
   ([lit "skill"; lit "skills"; lit "技能"; lit "技术栈"], Skill);
   ([lit "certificate"; lit "certification"; lit "证书"; lit "认证"; lit "资格"], Certificate)].

(** The [if contains_any .. else if ..] chain. *)
Fixpoint first_heading (normalized : str) (table : list (list str * SectionType))
    : option SectionType :=
  match table with
  | [] => None
  | (needles, section_type) :: table =>
      if contains_any normalized needles then Some section_type
      else first_heading normalized table
  end.

Definition detect_heading (text : str) : option SectionType :=
  if contains [124] text then None
  else
    let normalized := normalize_heading text in
    if is_empty normalized || (40 <? str_len normalized) then None
    else first_heading normalized heading_table.

(** ** Heading-delimited sections *)

Fixpoint heading_positions_from (index : nat) (lines : list IndexedLine)
    : list (nat * SectionType) :=
  match lines with
  | [] => []
  | line :: lines =>
      match detect_heading (ltext line) with
      | Some section_type => (index, section_type) :: heading_positions_from (S index) lines
      | None => heading_positions_from (S index) lines
      end
  end.

Definition line_not_blank (line : IndexedLine) : bool := non_empty (trim (ltext line)).

(** [lines[..next].iter().rev().find(|line| !line.text.trim().is_empty())]. *)
Definition last_non_blank (lines : list IndexedLine) (next : nat) : option IndexedLine :=
  List.find line_not_blank (reverse (take next lines)).

(** One iteration per heading; [order_no] is the [enumerate] counter. *)
Fixpoint heading_sections (clean_text : str) (lines : list IndexedLine) (order : Z)
    (positions : list (nat * SectionType)) : option (list SectionChunk) :=
  match positions with
  | [] => Some []
  | (heading_index, section_type) :: positions =>
      heading ← lines !! heading_index;
      let start := lstart heading in
      let next_heading_index :=
        match positions with (line_index, _) :: _ => line_index | [] => length lines end in
      let last_line := last_non_blank lines next_heading_index in
      let end_ := match last_line with Some line => lend line | None => start end in
      if end_ <=? start then heading_sections clean_text lines (order + 1) positions
      else
        text ← byte_slice clean_text start end_;
        rest ← heading_sections clean_text lines (order + 1) positions;
        Some (MkChunk section_type (as_u32 order) text (lchar_start heading)
                (match last_line with
                 | Some line => lchar_end line
                 | None => lchar_start heading
                 end) (f32_lit 92 100) :: rest)
  end.

(** ** Paragraph chunks *)

Record Paragraph := MkParagraph {
  ptext : str;
  pstart : Z;
  pchar_start : Z;
  pchar_end : Z;
}.

Definition char_len (self : Paragraph) : Z := pchar_end self - pchar_start self.

(** [text.split("\n\n")]. *)
Fixpoint split_blank_line (s : str) : list str :=
  match s with
  | [] => [[]]
  | c :: s1 =>
      match s1 with
      | d :: s2 =>
          if (c =? 10) && (d =? 10) then [] :: split_blank_line s2
          else match split_blank_line s1 with
               | [] => [[c]]
               | w :: ws => (c :: w) :: ws
               end
      | [] => [[c]]
      end
  end.

Definition not_whitespace (x : Z * char) : bool := negb (is_whitespace x.2).

(** The [for block in text.split("\n\n")] loop. *)
Fixpoint paragraphs_loop (text : str) (cursor : Z) (blocks : list str)
    : option (list Paragraph) :=
  match blocks with
  | [] => Some []
  | block :: blocks =>
      let block_start := cursor in
      let block_end := block_start + str_len block in
      match List.find not_whitespace (char_indices block) with
      | Some (offset, _) =>
          let start := block_start + offset in
          let end_ :=
            match List.find not_whitespace (reverse (char_indices block)) with
            | Some (offset, character) => block_start + offset + len_utf8 character
            | None => block_end
            end in
          ptext ← byte_slice text start end_;
          before_start ← byte_slice text 0 start;
          before_end ← byte_slice text 0 end_;
          rest ← paragraphs_loop text (block_end + 2) blocks;
          Some (MkParagraph ptext start (chars_count before_start) (chars_count before_end) :: rest)
      | None => paragraphs_loop text (block_end + 2) blocks
      end
  end.

Definition paragraphs (text : str) : option (list Paragraph) :=
  paragraphs_loop text 0 (split_blank_line text).

(** The loop of [split_paragraph_by_chars] over [char_indices] and the final
    piece after it. *)
Fixpoint split_loop (paragraph : Paragraph) (max_chars : Z) (chars : list (Z * char))
    (piece_byte_start piece_char_start chars_in_piece last_byte_end : Z)
    : option (list Paragraph) :=
  match chars with
  | [] =>
      if 0 <? chars_in_piece then
        t ← byte_slice (ptext paragraph) (piece_byte_start - pstart paragraph)
              (last_byte_end - pstart paragraph);
        Some [MkParagraph t piece_byte_start piece_char_start (piece_char_start + chars_in_piece)]
      else Some []
  | (relative_start, character) :: chars =>
      let absolute_start := pstart paragraph + relative_start in
      let next_byte_end := absolute_start + len_utf8 character in
      if chars_in_piece =? max_chars then
        t ← byte_slice (ptext paragraph) (piece_byte_start - pstart paragraph)
              (last_byte_end - pstart paragraph);
        rest ← split_loop paragraph max_chars chars absolute_start
                 (piece_char_start + chars_in_piece) 1 next_byte_end;
        Some (MkParagraph t piece_byte_start piece_char_start
                (piece_char_start + chars_in_piece) :: rest)
      else
        split_loop paragraph max_chars chars piece_byte_start piece_char_start
          (chars_in_piece + 1) next_byte_end
  end.

Definition split_paragraph_by_chars (paragraph : Paragraph) (max_chars : Z)
    : option (list Paragraph) :=
  split_loop paragraph max_chars (char_indices (ptext paragraph))
    (pstart paragraph) (pchar_start paragraph) 0 (pstart paragraph).

Definition push_fallback_chunk (sections : list SectionChunk) (char_start char_end : Z) (text : str)
    : list SectionChunk :=
  sections ++ [MkChunk (Other (lit "chunk")) (as_u32 (Z.of_nat (length sections))) text
                 char_start char_end (f32_lit 45 100)].

(** The accumulators of [fallback_chunks]. *)
Record ChunkState := MkChunkState {
  sections : list SectionChunk;
  current_start : option Z;
  current_end : Z;
  current_text : str;
  current_chars : Z;
}.

(** [if !current_text.is_empty() { push; reset }]. *)
Definition flush (st : ChunkState) : ChunkState :=
  if is_empty (current_text st) then st
  else MkChunkState
         (push_fallback_chunk (sections st) (default 0 (current_start st)) (current_end st)
            (current_text st))
         None (current_end st) [] 0.

Definition add_paragraph (max_chars : Z) (st : ChunkState) (paragraph : Paragraph)
    : option ChunkState :=
  if max_chars <? char_len paragraph then
    let st := flush st in
    pieces ← split_paragraph_by_chars paragraph max_chars;
    Some (MkChunkState
      (fold_left (λ sections piece,
         push_fallback_chunk sections (pchar_start piece) (pchar_end piece) (ptext piece))
         pieces (sections st))
      (current_start st) (current_end st) (current_text st) (current_chars st))
  else
    let would_chars :=
      current_chars st + (if is_empty (current_text st) then 0 else 2) + char_len paragraph in
    let st := if negb (is_empty (current_text st)) && (max_chars <? would_chars)
              then flush st else st in
    let '(start, text, chars) :=
      if is_empty (current_text st)
      then (Some (pchar_start paragraph), current_text st, current_chars st)
      else (current_start st, current_text st ++ [10; 10], current_chars st + 2) in
    Some (MkChunkState (sections st) start (pchar_end paragraph) (text ++ ptext paragraph)
            (chars + char_len paragraph)).

Fixpoint add_paragraphs (max_chars : Z) (st : ChunkState) (ps : list Paragraph)
    : option ChunkState :=
  match ps with
  | [] => Some st
  | p :: ps => st ← add_paragraph max_chars st p; add_paragraphs max_chars st ps
  end.

Definition fallback_chunks (max_chars : Z) (clean_text : str) : option (list SectionChunk) :=
  ps ← paragraphs clean_text;
  st ← add_paragraphs max_chars (MkChunkState [] None 0 [] 0) ps;
  Some (sections (flush st)).

Definition sectionize (max_chars : Z) (clean_text : str) : option (list SectionChunk) :=
  lines ← indexed_lines clean_text;
  let heading_positions := heading_positions_from 0 lines in
  match heading_positions with
  | [] => fallback_chunks max_chars clean_text
  | _ => heading_sections clean_text lines 0 heading_positions
  end.

(** ** Slices between two prefixes *)

Lemma byte_slice_split text p t q a b :
  text = p ++ t ++ q → a = str_len p → b = str_len (p ++ t) → byte_slice text a b = Some t.
Proof. intros -> -> ->. apply byte_slice_app; [done|]. by rewrite str_len_app. Qed.

Lemma slice_between text pre q pre' q' :
  text = pre ++ q → text = pre' ++ q' → (length pre ≤ length pre')%nat →
  byte_slice text (str_len pre) (str_len pre')
  = Some (take (length pre' - length pre) (drop (length pre) text)).
Proof.
  intros H1 H2 Hl. assert (∃ mid, pre' = pre ++ mid) as [mid ->].
  { exists (drop (length pre) pre'). rewrite <- (take_drop (length pre) pre') at 1. f_equal.
    rewrite H1 in H2. apply (f_equal (take (length pre))) in H2.
    rewrite take_app_length, take_app_le in H2 by done. done. }
  rewrite (byte_slice_split text pre mid q'); [|by rewrite H2, <- app_assoc|done|done].
  f_equal. rewrite H2, <- app_assoc, drop_app_length, length_app.
  replace (length pre + length mid - length pre)%nat with (length mid) by lia.
  by rewrite take_app_length.
Qed.

(** ** Lines *)

(** [L] is a piece of [text] at the offsets it records. *)
Definition line_at (text : str) (L : IndexedLine) : Prop :=
  ∃ p q, text = p ++ ltext L ++ q ∧
    lstart L = str_len p ∧ lend L = str_len (p ++ ltext L) ∧
    lchar_start L = chars_count p ∧ lchar_end L = chars_count (p ++ ltext L).

Definition line_before (a b : IndexedLine) : Prop :=
  lend a ≤ lstart b ∧ lchar_end a ≤ lchar_start b.

Lemma split_inclusive_concat s : concat (split_inclusive s) = s.
Proof.
  induction s as [|c s IH]; cbn; [done|]. destruct (c =? 10); cbn; [by rewrite IH|].
  destruct (split_inclusive s); cbn in *; by rewrite <- IH.
Qed.

Lemma chars_count_app s t : chars_count (s ++ t) = chars_count s + chars_count t.
Proof. unfold chars_count. rewrite length_app. lia. Qed.

Lemma indexed_lines_loop_spec text pieces pre :
  text = pre ++ concat pieces →
  ∃ lines, indexed_lines_loop text (str_len pre) (chars_count pre) pieces
           = Some (lines, str_len text, chars_count text) ∧
    Forall (λ L, line_at text L ∧ str_len pre ≤ lstart L ∧ chars_count pre ≤ lchar_start L) lines ∧
    StronglySorted line_before lines ∧ length lines = length pieces.
Proof.
  revert pre. induction pieces as [|w pieces IH]; intros pre Htext; cbn [indexed_lines_loop].
  { cbn in Htext. rewrite app_nil_r in Htext. subst pre. exists []. split_and!; done || constructor. }
  cbn [concat] in Htext.
  assert (∃ t nl, w = t ++ nl ∧ str_len nl = (if ends_with [10] w then 1 else 0) ∧
    chars_count nl = str_len nl) as (t & nl & Hw & Hnl & Hcnl).
  { destruct (ends_with [10] w) eqn:E.
    - apply ends_with_spec in E as [t ->]. by exists t, [10].
    - exists w, []. by rewrite app_nil_r. }
  rewrite <- Hnl.
  assert (str_len pre + str_len w - str_len nl = str_len (pre ++ t)) as ->.
  { rewrite Hw, !str_len_app. lia. }
  rewrite (byte_slice_split text pre t (nl ++ concat pieces));
    [|by rewrite Htext, Hw, <- app_assoc|done|done].
  cbn [mbind option_bind].
  destruct (IH (pre ++ w)) as (lines & Hloop & HF & Hsort & Hlen); [by rewrite Htext, <- app_assoc|].
  rewrite str_len_app, chars_count_app in Hloop. rewrite Hloop. cbn.
  eexists. split; [reflexivity|]. split_and!.
  - constructor.
    + split; [|cbn; lia]. exists pre, (nl ++ concat pieces). cbn.
      split_and!; [by rewrite Htext, Hw, <- app_assoc|done|done|done|by rewrite chars_count_app].
    + eapply Forall_impl; [exact HF|]. cbn. rewrite str_len_app, chars_count_app.
      pose proof (str_len_nonneg w). assert (0 ≤ chars_count w) by (unfold chars_count; lia).
      intros L (? & ? & ?).
      split_and!; [done|lia|lia].
  - constructor; [done|]. eapply Forall_impl; [exact HF|]. cbn. intros L (_ & H1 & H2).
    unfold line_before. cbn. rewrite Hw in H1, H2. rewrite !str_len_app in *.
    rewrite !chars_count_app in *. pose proof (str_len_nonneg nl). lia.
  - cbn. by rewrite Hlen.
Qed.

Lemma indexed_lines_spec text :
  ∃ lines, indexed_lines text = Some lines ∧ Forall (line_at text) lines ∧
    StronglySorted line_before lines.
Proof.
  unfold indexed_lines.
  destruct (indexed_lines_loop_spec text (split_inclusive text) []) as (lines & Hl & HF & Hs & Hlen);
    [by rewrite split_inclusive_concat|].
  cbn [str_len] in Hl. change (chars_count []) with 0 in Hl. rewrite Hl. cbn [mbind option_bind].
  rewrite Z.ltb_irrefl. cbn [orb]. destruct text as [|c text]; cbn [is_empty].
  - cbn in Hlen. destruct lines; [|done]. eexists. split; [reflexivity|]. cbn.
    split; repeat constructor. by exists [], [].
  - exists lines. split_and!; [done| |done]. eapply Forall_impl; [exact HF|]. by intros L [? _].
Qed.

(** ** Heading-delimited sections *)

Lemma detect_heading_not_blank L ty : detect_heading (ltext L) = Some ty → line_not_blank L = true.
Proof.
  unfold detect_heading, line_not_blank, normalize_heading. case_match; [done|].
  case_match eqn:E; [done|]. intros _. apply orb_false_iff in E as [E _].
  by destruct (trim (ltext L)).
Qed.

(** A heading position: a strictly later index of a non-blank line. *)
Definition position_ok (lines : list IndexedLine) (x : nat * SectionType) : Prop :=
  ∃ L, lines !! x.1 = Some L ∧ detect_heading (ltext L) = Some x.2.

Lemma heading_positions_spec pre lines :
  Forall (position_ok (pre ++ lines)) (heading_positions_from (length pre) lines) ∧
  Forall (λ x, length pre ≤ x.1)%nat (heading_positions_from (length pre) lines) ∧
  StronglySorted (λ x y, x.1 < y.1)%nat (heading_positions_from (length pre) lines).
Proof.
  revert pre. induction lines as [|L lines IH]; intros pre; cbn [heading_positions_from].
  { split_and!; constructor. }
  destruct (IH (pre ++ [L])) as (H1 & H2 & H3).
  rewrite <- app_assoc in H1. rewrite length_app, Nat.add_comm in H1, H2, H3. cbn in H1, H2, H3.
  assert (Forall (λ x : nat * SectionType, length pre ≤ x.1)%nat
    (heading_positions_from (S (length pre)) lines)) as H2'
    by (eapply Forall_impl; [exact H2|]; cbn; lia).
  destruct (detect_heading (ltext L)) as [ty|] eqn:E; [|done]. split_and!.
  - constructor; [|done]. exists L. cbn. split; [|done]. by rewrite list_lookup_middle.
  - by constructor; [cbn|].
  - constructor; [done|]. eapply Forall_impl; [exact H2|]. cbn. lia.
Qed.

Lemma find_last {A} (p : A → bool) l h x :
  l !! h = Some x → p x = true →
  ∃ e y, List.find p (reverse l) = Some y ∧ l !! e = Some y ∧ (h ≤ e)%nat ∧ p y = true.
Proof.
  revert h. induction l as [|z l IH] using rev_ind; intros h Hx Hp; [done|].
  rewrite reverse_snoc. cbn [List.find]. destruct (p z) eqn:Ez.
  - exists (length l), z. split_and!; [done|by rewrite list_lookup_middle| |done].
    apply lookup_lt_Some in Hx. rewrite length_app in Hx. cbn in Hx. lia.
  - apply lookup_snoc_Some in Hx as [[Hlt Hx]|[-> ->]]; [|congruence].
    destruct (IH h Hx Hp) as (e & y & H1 & H2 & H3 & H4). exists e, y. split_and!; try done.
    apply lookup_lt_Some in H2 as Hlt'. by rewrite lookup_app_l.
Qed.

Lemma last_non_blank_spec lines h L next :
  lines !! h = Some L → line_not_blank L = true → (h < next)%nat →
  ∃ e E, last_non_blank lines next = Some E ∧ lines !! e = Some E ∧ (h ≤ e < next)%nat.
Proof.
  intros HL Hb Hlt. unfold last_non_blank.
  destruct (find_last line_not_blank (take next lines) h L) as (e & y & H1 & H2 & H3 & _);
    [by rewrite lookup_take_lt|done|].
  apply lookup_take_Some in H2 as [H2 H4]. exists e, y. split_and!; done || lia.
Qed.

(** Lines in index order are ordered by offset. *)
Lemma lines_ordered lines i j a b :
  StronglySorted line_before lines → lines !! i = Some a → lines !! j = Some b → (i < j)%nat →
  line_before a b.
Proof.
  intros Hs. revert i j. induction Hs as [|x l Hs IH Hall]; intros i j Ha Hb Hij; [done|].
  destruct j as [|j]; [lia|]. destruct i as [|i]; cbn in Ha, Hb.
  - injection Ha as ->. rewrite Forall_forall in Hall. apply Hall. by eapply list_elem_of_lookup_2.
  - apply (IH i j); [done|done|lia].
Qed.

(** A chunk is exactly a character range of the text. *)
Definition chunk_exact (text : str) (c : SectionChunk) : Prop :=
  0 ≤ chunk_char_start c < chunk_char_end c ∧ chunk_char_end c ≤ chars_count text ∧
  chunk_text c = take (Z.to_nat (chunk_char_end c - chunk_char_start c))
                   (drop (Z.to_nat (chunk_char_start c)) text).

Definition chunk_before (a b : SectionChunk) : Prop := chunk_char_end a ≤ chunk_char_start b.

Lemma line_at_bounds text L :
  line_at text L → lstart L ≤ lend L ∧ 0 ≤ lchar_start L ≤ lchar_end L ∧
    lchar_end L ≤ chars_count text ∧
    (ltext L ≠ [] → lstart L < lend L ∧ lchar_start L < lchar_end L).
Proof.
  intros (p & q & Ht & -> & -> & -> & ->). rewrite Ht, !str_len_app, !chars_count_app.
  pose proof (str_len_nonneg (ltext L)). unfold chars_count. split_and!; try lia.
  intros Hne. assert (str_len (ltext L) ≠ 0) by (intros E%str_len_0; done).
  assert (length (ltext L) ≠ 0%nat) by (by destruct (ltext L)). lia.
Qed.

Lemma line_span text A B :
  line_at text A → line_at text B → lchar_start A ≤ lchar_end B →
  byte_slice text (lstart A) (lend B)
  = Some (take (Z.to_nat (lchar_end B - lchar_start A)) (drop (Z.to_nat (lchar_start A)) text)).
Proof.
  intros (p & q & HA & -> & _ & HAc & _) (p' & q' & HB & _ & -> & _ & HBc) Hle.
  rewrite (slice_between text p (ltext A ++ q) (p' ++ ltext B) q');
    [|done|by rewrite HB, app_assoc|].
  - rewrite HAc, HBc. unfold chars_count. do 2 f_equal; [lia|f_equal; lia].
  - rewrite HAc, HBc in Hle. unfold chars_count in Hle. lia.
Qed.

Lemma heading_sections_spec text lines order positions :
  Forall (line_at text) lines → StronglySorted line_before lines →
  Forall (position_ok lines) positions → StronglySorted (λ x y, x.1 < y.1)%nat positions →
  ∃ chunks, heading_sections text lines order positions = Some chunks ∧
    section_type <$> chunks = positions.*2 ∧
    order_no <$> chunks = (λ n, as_u32 (order + Z.of_nat n)) <$> seq 0 (length positions) ∧
    Forall (chunk_exact text) chunks ∧ StronglySorted chunk_before chunks ∧
    Forall (λ c, ∀ L i ty ps, positions = (i, ty) :: ps → lines !! i = Some L →
      lchar_start L ≤ chunk_char_start c) chunks.
Proof.
  intros Hlines Hsort Hpos. revert order. rewrite Forall_forall in Hlines.
  assert (∀ i L, lines !! i = Some L → line_at text L) as Hat.
  { intros i L HL. apply Hlines. by eapply list_elem_of_lookup_2. }
  induction Hpos as [|[i ty] ps (H & HH & Hty) Hps IH]; intros order Hinc.
  { exists []. split_and!; done || constructor. }
  cbn [fst snd] in HH, Hty. inversion Hinc as [|?? Hinc' Hlt]; subst.
  destruct (IH (order + 1) Hinc') as (chunks & Hrec & Hty' & Hord & Hex & Hso & Hfirst).
  cbn [heading_sections]. rewrite HH. cbn [mbind option_bind].
  set (next := match ps with (line_index, _) :: _ => line_index | [] => length lines end).
  assert (i < next)%nat as Hnext.
  { subst next. destruct ps as [|[j ty2] ps]; [by eapply lookup_lt_Some|].
    by inversion Hlt. }
  destruct (last_non_blank_spec lines i H next HH (detect_heading_not_blank H ty Hty) Hnext)
    as (e & E & HE & HEl & Hie). rewrite HE.
  assert (ltext H ≠ []) as Hne.
  { apply detect_heading_not_blank in Hty. unfold line_not_blank in Hty. by intros E'; rewrite E' in Hty. }
  destruct (line_at_bounds text H (Hat i H HH)) as (HB1 & HB2 & HB3 & HB4).
  destruct (line_at_bounds text E (Hat e E HEl)) as (EB1 & EB2 & EB3 & _).
  destruct (HB4 Hne) as [HB5 HB6].
  assert (lstart H < lend E ∧ lchar_start H < lchar_end E) as [Hspan Hcspan].
  { destruct (decide (i = e)) as [->|Hne']; [rewrite HEl in HH; injection HH as <-; lia|].
    destruct (lines_ordered lines i e H E Hsort HH HEl) as [? ?]; [lia|lia]. }
  replace (lend E <=? lstart H) with false by lia.
  rewrite (line_span text H E), Hrec; [|by eapply Hat|by eapply Hat|lia]. cbn [mbind option_bind].
  eexists. split; [reflexivity|]. rewrite !fmap_cons. cbn [section_type order_no snd].
  split_and!.
  - by rewrite Hty'.
  - cbn [length seq]. rewrite fmap_cons, Hord, Z.add_0_r. f_equal.
    rewrite <- fmap_S_seq, <- list_fmap_compose. apply list_fmap_ext. intros ? n _. cbn.
    f_equal. lia.
  - constructor; [|done]. unfold chunk_exact; cbn. split_and!; [lia|lia|lia|done].
  - constructor; [done|]. rewrite Forall_forall in Hfirst |- *. intros c Hc. unfold chunk_before. cbn.
    destruct ps as [|[j ty2] ps]; [cbn in Hty'; destruct chunks; [by apply elem_of_nil in Hc|done]|].
    inversion Hps as [|? ? (LJ & HJ & _) _]; subst. cbn in HJ.
    specialize (Hfirst c Hc LJ j ty2 ps eq_refl HJ).
    destruct (lines_ordered lines e j E LJ Hsort HEl HJ) as [_ ?]; [subst next; lia|lia].
  - constructor; [cbn; intros L i' ty' ps' [= <- <- <-] HL; rewrite HH in HL; by injection HL as <-|].
    rewrite Forall_forall in Hfirst |- *. intros c Hc L i' ty' ps' [= <- <- <-] HL.
    rewrite HH in HL. injection HL as <-.
    destruct ps as [|[j ty2] ps]; [cbn in Hty'; destruct chunks; [by apply elem_of_nil in Hc|done]|].
    inversion Hps as [|? ? (LJ & HJ & _) _]; subst. cbn in HJ.
    specialize (Hfirst c Hc LJ j ty2 ps eq_refl HJ).
    destruct (lines_ordered lines i j H LJ Hsort HH HJ) as [_ ?]; [by inversion Hlt|lia].
Qed.

(** ** Paragraphs *)

(** The characters of a text that are not white space. *)
Definition visible_chars (s : str) : str := List.filter (λ c, negb (is_whitespace c)) s.

Lemma visible_app s t : visible_chars (s ++ t) = visible_chars s ++ visible_chars t.
Proof. apply List.filter_app. Qed.

Lemma visible_blank s : Forall (λ c, is_whitespace c = true) s → visible_chars s = [].
Proof.
  unfold visible_chars. induction 1 as [|c s Hc Hs IH]; cbn [List.filter]; [done|]. by rewrite Hc.
Qed.

Lemma split_blank_line_cons s :
  ∃ b bs, split_blank_line s = b :: bs ∧
    ((bs = [] ∧ s = b) ∨ ∃ s', s = b ++ [10; 10] ++ s' ∧ split_blank_line s' = bs).
Proof.
  remember (length s) as n eqn:Hn. assert (length s ≤ n)%nat as Hle by lia. clear Hn.
  revert s Hle. induction n as [|n IH]; intros s Hle.
  { destruct s; [|cbn in Hle; lia]. exists [], []. eauto. }
  destruct s as [|c s1]; [exists [], []; eauto|]. destruct s1 as [|d s2]; [exists [c], []; eauto|].
  cbn in Hle.
  assert (split_blank_line (c :: d :: s2) =
    if (c =? 10) && (d =? 10) then [] :: split_blank_line s2
    else match split_blank_line (d :: s2) with [] => [[c]] | w :: ws => (c :: w) :: ws end) as ->
    by reflexivity.
  destruct ((c =? 10) && (d =? 10)) eqn:E.
  - bools. subst. exists [], (split_blank_line s2). split; [done|right]. by exists s2.
  - destruct (IH (d :: s2)) as (b & bs & Hb & Hcase); [cbn; lia|].
    rewrite Hb.
    exists (c :: b), bs. split; [done|].
    destruct Hcase as [[-> ->]|(s' & -> & Hs')]; [by left|right]. by exists s'.
Qed.

Lemma find_skip {A} (p : A → bool) l k : Forall (λ x, p x = false) l → List.find p (l ++ k) = List.find p k.
Proof. induction 1 as [|x l Hx Hl IH]; cbn [List.find app]; [done|]. by rewrite Hx. Qed.

Lemma char_indices_blank o s :
  Forall (λ c, is_whitespace c = true) s →
  Forall (λ x, not_whitespace x = false) (char_indices_from o s).
Proof.
  intros Hs. revert o. induction Hs as [|c s Hc Hs IH]; intros o; cbn [char_indices_from]; constructor.
  - unfold not_whitespace. cbn. by rewrite Hc.
  - apply IH.
Qed.

(** The two scans of a block find the ends of its trimmed core. *)
Lemma block_scan block :
  match List.find not_whitespace (char_indices block) with
  | None => Forall (λ c, is_whitespace c = true) block
  | Some (offset, _) =>
      ∃ l core r d od, block = l ++ core ++ r ∧ core ≠ [] ∧ offset = str_len l ∧
        List.find not_whitespace (reverse (char_indices block)) = Some (od, d) ∧
        od + len_utf8 d = str_len (l ++ core) ∧
        Forall (λ c, is_whitespace c = true) l ∧ Forall (λ c, is_whitespace c = true) r
  end.
Proof.
  destruct (trim_core is_whitespace block)
    as [[_ Hb]|(l & r & Hs & Hl & Hr & (c & t & HT & Hc) & (d & u & HT' & Hd))].
  - rewrite <- (app_nil_r (char_indices block)), find_skip by by apply char_indices_blank. done.
  - set (core := trim_matches is_whitespace block) in *. clearbody core. subst block.
    unfold char_indices.
    assert (List.find not_whitespace (char_indices_from 0 (l ++ core ++ r)) = Some (str_len l, c)) as ->.
    { rewrite char_indices_app, find_skip by by apply char_indices_blank.
      rewrite HT. cbn [app char_indices_from List.find]. unfold not_whitespace.
      cbn [snd]. by rewrite Hc. }
    exists l, core, r, d, (str_len l + str_len u). split_and!; [done|by rewrite HT|done| | |done|done].
    + rewrite !char_indices_app, !reverse_app, <- app_assoc.
      rewrite find_skip by (rewrite Forall_reverse; by apply char_indices_blank).
      rewrite HT', char_indices_app, reverse_app. cbn [char_indices_from].
      change (reverse [(0 + str_len l + str_len u, d)]) with [(0 + str_len l + str_len u, d)].
      cbn [app List.find]. unfold not_whitespace at 1. cbn [snd]. by rewrite Hd.
    + rewrite HT', !str_len_app. cbn [str_len]. lia.
Qed.

Definition paragraph_at (text : str) (P : Paragraph) : Prop :=
  ∃ p q, text = p ++ ptext P ++ q ∧ ptext P ≠ [] ∧ pstart P = str_len p ∧
    pchar_start P = chars_count p ∧ pchar_end P = chars_count (p ++ ptext P).

Definition paragraph_before (a b : Paragraph) : Prop := pchar_end a ≤ pchar_start b.

Lemma paragraphs_loop_spec text n s pre :
  (length s ≤ n)%nat → text = pre ++ s →
  ∃ ps, paragraphs_loop text (str_len pre) (split_blank_line s) = Some ps ∧
    Forall (λ P, paragraph_at text P ∧ chars_count pre ≤ pchar_start P) ps ∧
    StronglySorted paragraph_before ps ∧
    visible_chars (concat (ptext <$> ps)) = visible_chars s.
Proof.
  revert s pre. induction n as [|n IH]; intros s pre Hn Htext.
  { destruct s; [|cbn in Hn; lia]. exists []. cbn. split_and!; done || constructor. }
  destruct (split_blank_line_cons s) as (b & bs & Hb & Hcase). rewrite Hb. cbn [paragraphs_loop].
  assert (∃ after, s = b ++ after ∧ ∃ ps,
    paragraphs_loop text (str_len pre + str_len b + 2) bs = Some ps ∧
    Forall (λ P, paragraph_at text P ∧ chars_count (pre ++ b) ≤ pchar_start P) ps ∧
    StronglySorted paragraph_before ps ∧
    visible_chars (concat (ptext <$> ps)) = visible_chars after) as (after & Hs & ps & Hps & HF & Hso & Hv).
  { destruct Hcase as [[-> ->]|(s' & -> & <-)].
    - exists []. split; [by rewrite app_nil_r|]. exists []. split_and!; done || constructor.
    - exists ([10; 10] ++ s'). split; [done|].
      destruct (IH s' (pre ++ b ++ [10; 10])) as (ps & Hps & HF & Hso & Hv).
      { rewrite !length_app in Hn. cbn in Hn. lia. }
      { by rewrite Htext, <- !app_assoc. }
      exists ps. split_and!; [|..|done|by rewrite Hv, visible_app].
      + rewrite <- Hps. f_equal. rewrite !str_len_app. cbn. lia.
      + eapply Forall_impl; [exact HF|]. cbn. rewrite !chars_count_app. intros P [? ?].
        split; [done|]. change (chars_count [10; 10]) with 2 in *. lia. }
  pose proof (block_scan b) as Hscan.
  destruct (List.find not_whitespace (char_indices b)) as [[offset c]|] eqn:Ef.
  - destruct Hscan as (l & core & r & d & od & Hbl & Hne & -> & Hfind & Hod & Hl & Hr).
    rewrite Hfind.
    assert (text = (pre ++ l) ++ core ++ (r ++ after)) as Hsplit.
    { rewrite Htext, Hs, Hbl, <- !app_assoc. done. }
    assert (str_len pre + str_len l = str_len (pre ++ l)) as -> by by rewrite str_len_app.
    assert (str_len pre + od + len_utf8 d = str_len ((pre ++ l) ++ core)) as ->.
    { rewrite !str_len_app in *. lia. }
    rewrite (byte_slice_split text (pre ++ l) core (r ++ after)
      (str_len (pre ++ l)) (str_len ((pre ++ l) ++ core))) by done.
    rewrite (byte_slice_split text [] (pre ++ l) (core ++ r ++ after)
      0 (str_len (pre ++ l))) by (reflexivity || exact Hsplit).
    rewrite (byte_slice_split text [] ((pre ++ l) ++ core) (r ++ after)
      0 (str_len ((pre ++ l) ++ core)))
      by (reflexivity || (rewrite <- app_assoc; exact Hsplit)).
    cbn [mbind option_bind]. rewrite Hps. cbn [mbind option_bind].
    eexists. split; [reflexivity|]. split_and!.
    + constructor.
      * split; [|cbn; rewrite chars_count_app; unfold chars_count; lia].
        exists (pre ++ l), (r ++ after). cbn. done.
      * eapply Forall_impl; [exact HF|]. cbn. rewrite chars_count_app. intros P [? ?].
        split; [done|]. unfold chars_count in *. lia.
    + constructor; [done|]. eapply Forall_impl; [exact HF|]. cbn. intros P [_ HP].
      unfold paragraph_before. cbn. rewrite Hbl in HP. rewrite !chars_count_app in *.
      unfold chars_count in *. lia.
    + rewrite fmap_cons. cbn [concat ptext]. rewrite visible_app, Hv, Hs, Hbl, !visible_app.
      by rewrite (visible_blank l), (visible_blank r), app_nil_r by done.
  - rewrite Hps. exists ps. split_and!; [done| |done|].
    + eapply Forall_impl; [exact HF|]. cbn. rewrite chars_count_app. intros P [? ?].
      split; [done|]. unfold chars_count in *. lia.
    + rewrite Hv, Hs, visible_app. by rewrite (visible_blank b) by done.
Qed.

Lemma paragraphs_spec text :
  ∃ ps, paragraphs text = Some ps ∧ Forall (paragraph_at text) ps ∧
    StronglySorted paragraph_before ps ∧ visible_chars (concat (ptext <$> ps)) = visible_chars text.
Proof.
  destruct (paragraphs_loop_spec text (length text) text []) as (ps & Hps & HF & Hso & Hv); [done..|].
  exists ps. split_and!; [done| |done|done]. eapply Forall_impl; [exact HF|]. by intros P [? _].
Qed.

(** ** Splitting a long paragraph *)

(** A piece holds between one and [max] characters, which its offsets count. *)
Definition piece_ok (max lo : Z) (P : Paragraph) : Prop :=
  1 ≤ chars_count (ptext P) ≤ max ∧ lo ≤ pchar_start P ∧
  pchar_end P = pchar_start P + chars_count (ptext P).

Lemma split_loop_spec P max don cur todo :
  1 ≤ max → ptext P = don ++ cur ++ todo → chars_count cur ≤ max →
  ∃ pieces, split_loop P max (char_indices_from (str_len (don ++ cur)) todo)
      (pstart P + str_len don) (pchar_start P + chars_count don) (chars_count cur)
      (pstart P + str_len (don ++ cur)) = Some pieces ∧
    concat (ptext <$> pieces) = cur ++ todo ∧
    Forall (piece_ok max (pchar_start P + chars_count don)) pieces ∧
    StronglySorted paragraph_before pieces ∧
    Forall (λ x, pchar_end x ≤ pchar_start P + chars_count (ptext P)) pieces.
Proof.
  intros Hmax. revert don cur. induction todo as [|c todo IH]; intros don cur Htext Hcur;
    cbn [char_indices_from split_loop].
  - assert (pstart P + str_len don - pstart P = str_len don) as -> by lia.
    assert (pstart P + str_len (don ++ cur) - pstart P = str_len (don ++ cur)) as -> by lia.
    destruct (0 <? chars_count cur) eqn:E.
    + rewrite (byte_slice_split (ptext P) don cur []) by done. cbn [mbind option_bind].
      eexists. split; [reflexivity|]. cbn. rewrite !app_nil_r. split_and!; [done| |by repeat constructor|].
      * constructor; [|constructor]. unfold piece_ok; cbn. bools. lia.
      * constructor; [|constructor]. cbn. rewrite Htext, app_nil_r, chars_count_app. lia.
    + bools. destruct cur; [|unfold chars_count in E; cbn in E; lia]. exists [].
      split_and!; done || constructor.
  - replace (pstart P + str_len (don ++ cur) + len_utf8 c) with (pstart P + (str_len (don ++ cur) + len_utf8 c)) by lia.
    destruct (chars_count cur =? max) eqn:E.
    + assert (pstart P + str_len don - pstart P = str_len don) as -> by lia.
      assert (pstart P + str_len (don ++ cur) - pstart P = str_len (don ++ cur)) as -> by lia.
      rewrite (byte_slice_split (ptext P) don cur (c :: todo)) by done. cbn [mbind option_bind].
      destruct (IH (don ++ cur) [c]) as (pieces & Hp & Hc & HF & Hso & Hlast).
      { by rewrite Htext, <- app_assoc. }
      { done. }
      rewrite (str_len_app _ [c]) in Hp. cbn [str_len] in Hp. rewrite Z.add_0_r in Hp.
      rewrite chars_count_app, Z.add_assoc in Hp. change (chars_count [c]) with 1 in Hp.
      rewrite Hp. cbn [mbind option_bind]. bools.
      eexists. split; [reflexivity|]. rewrite fmap_cons. cbn [concat ptext].
      rewrite Hc. split_and!; [done| | |].
      * constructor; [unfold piece_ok; cbn; lia|]. eapply Forall_impl; [exact HF|].
        intros x (H1 & H2 & H3). rewrite chars_count_app in H2. unfold piece_ok. unfold chars_count in *. lia.
      * constructor; [done|]. eapply Forall_impl; [exact HF|]. intros x (_ & H2 & _).
        unfold paragraph_before. cbn. rewrite chars_count_app in H2. lia.
      * constructor; [|done]. cbn. rewrite Htext, !chars_count_app. unfold chars_count. lia.
    + destruct (IH don (cur ++ [c])) as (pieces & Hp & Hc & HF & Hso & Hlast).
      { by rewrite Htext, <- app_assoc. }
      { bools. rewrite chars_count_app. change (chars_count [c]) with 1. lia. }
      rewrite app_assoc, (str_len_app _ [c]), chars_count_app in Hp. cbn [str_len] in Hp.
      rewrite Z.add_0_r in Hp. change (chars_count [c]) with 1 in Hp.
      exists pieces. split_and!; [done|by rewrite Hc, <- app_assoc|done|done|done].
Qed.

Lemma split_paragraph_spec text P max :
  1 ≤ max → paragraph_at text P →
  ∃ pieces, split_paragraph_by_chars P max = Some pieces ∧
    concat (ptext <$> pieces) = ptext P ∧ Forall (piece_ok max (pchar_start P)) pieces ∧
    StronglySorted paragraph_before pieces ∧ Forall (λ x, pchar_end x ≤ pchar_end P) pieces.
Proof.
  intros Hmax (p & q & _ & _ & _ & Hcs & Hce).
  destruct (split_loop_spec P max [] [] (ptext P)) as (pieces & Hp & Hc & HF & Hso & Hend);
    [done|done|unfold chars_count; cbn; lia|].
  change (str_len ([] ++ [])) with 0 in Hp. cbn [str_len] in Hp.
  change (chars_count []) with 0 in Hp, HF. rewrite !Z.add_0_r in Hp. rewrite Z.add_0_r in HF.
  exists pieces. split_and!; [done|done|done|done|]. eapply Forall_impl; [exact Hend|].
  intros x Hx. cbn in Hx. rewrite Hce, chars_count_app. lia.
Qed.

(** ** Packing paragraphs *)

(** The packed sections, all ending by character [b] and within [max]. *)
Definition packed (max b : Z) (l : list SectionChunk) : Prop :=
  Forall (λ c, 1 ≤ chars_count (chunk_text c) ≤ max ∧
               0 ≤ chunk_char_start c < chunk_char_end c ∧ chunk_char_end c ≤ b) l ∧
  order_no <$> l = (λ n, as_u32 (Z.of_nat n)) <$> seq 0 (length l) ∧
  StronglySorted chunk_before l.

Lemma StronglySorted_snoc {A} (R : A → A → Prop) l x :
  StronglySorted R l → Forall (λ y, R y x) l → StronglySorted R (l ++ [x]).
Proof.
  induction 1 as [|y l Hl IH Hy]; intros Hx; cbn; [repeat constructor|].
  inversion Hx; subst. constructor; [auto|]. apply Forall_app. split; [done|by constructor].
Qed.

Lemma push_packed max b l cs ce text :
  packed max b l → 0 ≤ cs → b ≤ cs → cs < ce → 1 ≤ chars_count text ≤ max →
  packed max ce (push_fallback_chunk l cs ce text).
Proof.
  intros (HF & Hord & Hso) H0 Hb Hlt Hsz. unfold push_fallback_chunk. split_and!.
  - apply Forall_app. split; [|by constructor; [cbn; lia|constructor]].
    eapply Forall_impl; [exact HF|]. cbn. intros c (? & ? & ?). split_and!; lia.
  - rewrite fmap_app, Hord, length_app. cbn [length]. rewrite seq_app, fmap_app. done.
  - apply StronglySorted_snoc; [done|]. eapply Forall_impl; [exact HF|].
    intros c (_ & _ & ?). unfold chunk_before. cbn. lia.
Qed.

Lemma packed_weaken max b b' l : packed max b l → b ≤ b' → packed max b' l.
Proof.
  intros (HF & ? & ?) Hb. split_and!; [|done|done]. eapply Forall_impl; [exact HF|].
  cbn. intros c (? & ? & ?). split_and!; lia.
Qed.

Definition texts (l : list SectionChunk) : str := concat (chunk_text <$> l).

Lemma texts_push l cs ce t : texts (push_fallback_chunk l cs ce t) = texts l ++ t.
Proof.
  unfold texts, push_fallback_chunk. rewrite fmap_app, concat_app. cbn. by rewrite app_nil_r.
Qed.

Lemma push_pieces max b hi pieces l :
  packed max b l → 0 ≤ b ≤ hi → Forall (piece_ok max b) pieces →
  StronglySorted paragraph_before pieces → Forall (λ x, pchar_end x ≤ hi) pieces →
  let l' := fold_left (λ sections piece,
    push_fallback_chunk sections (pchar_start piece) (pchar_end piece) (ptext piece)) pieces l in
  packed max hi l' ∧ texts l' = texts l ++ concat (ptext <$> pieces).
Proof.
  revert b l. induction pieces as [|P pieces IH]; intros b l Hl Hb HF Hso Hhi; cbn [fold_left].
  { cbn. rewrite app_nil_r. split; [|done]. eapply packed_weaken; [done|lia]. }
  inversion HF as [|?? (Hsz & Hlo & Hend) HF']; inversion Hso as [|?? Hso' Hbef];
    inversion Hhi as [|?? HPhi Hhi']; subst.
  destruct (IH (pchar_end P) (push_fallback_chunk l (pchar_start P) (pchar_end P) (ptext P)))
    as [H1 H2].
  - apply (push_packed max b); [done|lia|lia|lia|done].
  - lia.
  - rewrite Forall_forall in HF', Hbef |- *. intros x Hx. specialize (HF' x Hx). specialize (Hbef x Hx).
    destruct HF' as (? & ? & ?). split_and!; [lia|lia|exact Hbef|done].
  - done.
  - done.
  - split; [done|]. rewrite H2, texts_push, fmap_cons. cbn [concat]. by rewrite app_assoc.
Qed.

(** The accumulator invariant after the text up to character [b], whose visible
    characters are [v]. *)
Definition chunk_inv (max b : Z) (v : str) (st : ChunkState) : Prop :=
  0 ≤ b ∧ visible_chars (texts (sections st) ++ current_text st) = v ∧
  if is_empty (current_text st) then packed max b (sections st) ∧ current_chars st = 0
  else ∃ cs, current_start st = Some cs ∧ packed max cs (sections st) ∧
         0 ≤ cs < current_end st ∧ current_end st ≤ b ∧
         current_chars st = chars_count (current_text st) ∧
         1 ≤ chars_count (current_text st) ≤ max.

Lemma flush_inv max b v st :
  chunk_inv max b v st → chunk_inv max b v (flush st) ∧ current_text (flush st) = [].
Proof.
  intros (Hb & Hv & Hst). unfold flush. destruct (is_empty (current_text st)) eqn:E.
  - split; [|by destruct (current_text st)]. split_and!; [done|done|]. by rewrite E.
  - destruct Hst as (cs & Hcs & Hp & Hr & Hle & Hch & Hsz). split; [|done].
    split_and!; [done| |]; cbn [sections current_text is_empty current_chars].
    + by rewrite app_nil_r, texts_push.
    + split; [|done]. rewrite Hcs. cbn [from_option id].
      eapply packed_weaken; [|exact Hle]. apply (push_packed max cs); [done|lia|lia|lia|done].
Qed.

Lemma append_paragraph_inv max b v st P text :
  chunk_inv max b v st → paragraph_at text P → b ≤ pchar_start P →
  chars_count (ptext P) ≤ max →
  (is_empty (current_text st) = false → current_chars st + 2 + chars_count (ptext P) ≤ max) →
  let '(start, t, chars) :=
    if is_empty (current_text st)
    then (Some (pchar_start P), current_text st, current_chars st)
    else (current_start st, current_text st ++ [10; 10], current_chars st + 2) in
  chunk_inv max (pchar_end P) (v ++ visible_chars (ptext P))
    (MkChunkState (sections st) start (pchar_end P) (t ++ ptext P) (chars + char_len P)).
Proof.
  intros (Hb & Hv & Hst) (p & q & _ & Hne & _ & Hcs & Hce) Hbs Hsz Hfit.
  assert (char_len P = chars_count (ptext P)) as Hlen.
  { unfold char_len. rewrite Hce, Hcs, chars_count_app. lia. }
  assert (1 ≤ chars_count (ptext P)) as H1.
  { unfold chars_count. by destruct (ptext P); [|cbn; lia]. }
  assert (pchar_end P = pchar_start P + chars_count (ptext P)) as Hend by (unfold char_len in Hlen; lia).
  assert (0 ≤ pchar_start P) as H0 by lia.
  destruct (is_empty (current_text st)) eqn:E.
  - destruct (current_text st); [|done]. destruct Hst as [Hp Hch].
    rewrite app_nil_r in Hv.
    split_and!; [lia|cbn [sections current_text app]; by rewrite visible_app, Hv|].
    cbn [current_text app]. destruct (is_empty (ptext P)) eqn:E'; [by destruct (ptext P)|].
    exists (pchar_start P). cbn. split_and!; try done; try lia. by eapply packed_weaken.
  - destruct Hst as (cs & Hstart & Hp & Hr & Hle & Hch & Hsz'). specialize (Hfit eq_refl).
    split_and!; [lia| |]; cbn [current_text sections].
    + rewrite <- app_assoc, app_assoc, visible_app, Hv. f_equal.
    + assert (is_empty ((current_text st ++ [10; 10]) ++ ptext P) = false) as ->
        by by destruct (current_text st).
      exists cs. cbn. rewrite !chars_count_app. change (chars_count [10; 10]) with 2.
      split_and!; try done; try lia.
Qed.

Lemma add_paragraph_inv max b v st P text :
  1 ≤ max → chunk_inv max b v st → paragraph_at text P → b ≤ pchar_start P →
  ∃ st', add_paragraph max st P = Some st' ∧
    chunk_inv max (pchar_end P) (v ++ visible_chars (ptext P)) st'.
Proof.
  intros Hmax Hinv HP Hbs. pose proof HP as (p & q & _ & Hne & _ & Hcs & Hce).
  assert (char_len P = chars_count (ptext P)) as Hlen.
  { unfold char_len. rewrite Hce, Hcs, chars_count_app. lia. }
  assert (pchar_start P ≤ pchar_end P) as Hord by (unfold char_len, chars_count in Hlen; lia).
  unfold add_paragraph. rewrite Hlen. destruct (max <? chars_count (ptext P)) eqn:E.
  - destruct (flush_inv max b v st Hinv) as [(Hb & Hv & Hst) Hnil].
    rewrite Hnil in Hv, Hst. cbn [is_empty] in Hst. destruct Hst as [Hp Hch].
    destruct (split_paragraph_spec text P max Hmax HP) as (pieces & Hpc & Hcat & HF & Hso & Hhi).
    rewrite Hpc. cbn [mbind option_bind]. eexists. split; [reflexivity|].
    destruct (push_pieces max (pchar_start P) (pchar_end P) pieces (sections (flush st))) as [H1 H2];
      [by eapply packed_weaken|lia|done|done|done|].
    split_and!; [lia| |]; cbn [sections current_text].
    + rewrite app_nil_r in Hv. rewrite H2, Hcat, Hnil, app_nil_r, visible_app. by rewrite Hv.
    + rewrite Hnil. done.
  - set (st1 := if negb (is_empty (current_text st)) && _ then flush st else st).
    assert (chunk_inv max b v st1 ∧ (is_empty (current_text st1) = false →
      current_chars st1 + 2 + chars_count (ptext P) ≤ max)) as [Hinv1 Hfit].
    { subst st1. destruct (is_empty (current_text st)) eqn:Ee; cbn [negb andb].
      - split; [done|]. by rewrite Ee.
      - destruct (max <? current_chars st + 2 + chars_count (ptext P)) eqn:Ew.
        + destruct (flush_inv max b v st Hinv) as [? Hnil]. split; [done|]. by rewrite Hnil.
        + split; [done|]. intros _. bools. lia. }
    clearbody st1. bools.
    pose proof (append_paragraph_inv max b v st1 P text Hinv1 HP Hbs E Hfit) as Happ.
    rewrite Hlen in Happ. destruct (is_empty (current_text st1)); eauto.
Qed.

Lemma add_paragraphs_inv max b v st ps text :
  1 ≤ max → chunk_inv max b v st → Forall (paragraph_at text) ps →
  Forall (λ P, b ≤ pchar_start P) ps → StronglySorted paragraph_before ps →
  ∃ st' b', add_paragraphs max st ps = Some st' ∧
    chunk_inv max b' (v ++ visible_chars (concat (ptext <$> ps))) st' ∧
    (b' = b ∨ b' ≤ chars_count text).
Proof.
  intros Hmax. revert b v st. induction ps as [|P ps IH]; intros b v st Hinv HF Hb Hso.
  { exists st, b. cbn. rewrite app_nil_r. auto. }
  inversion HF as [|?? HP HF']; inversion Hb as [|?? HbP Hb']; inversion Hso as [|?? Hso' Hbef]; subst.
  cbn [add_paragraphs].
  destruct (add_paragraph_inv max b v st P text Hmax Hinv HP HbP) as (st1 & -> & Hinv1).
  cbn [mbind option_bind].
  destruct (IH (pchar_end P) (v ++ visible_chars (ptext P)) st1 Hinv1 HF')
    as (st2 & b' & Hst2 & Hinv2 & Hb2); [|done|].
  { eapply Forall_impl; [exact Hbef|]. by unfold paragraph_before. }
  exists st2, b'. split; [done|]. rewrite fmap_cons. cbn [concat].
  rewrite visible_app, app_assoc. split; [done|]. right. destruct Hb2 as [->|?]; [|done].
  destruct HP as (p & q & -> & _ & _ & _ & ->). rewrite !chars_count_app. unfold chars_count. lia.
Qed.

Lemma fallback_chunks_spec max text :
  1 ≤ max →
  ∃ chunks, fallback_chunks max text = Some chunks ∧
    packed max (chars_count text) chunks ∧ visible_chars (texts chunks) = visible_chars text.
Proof.
  intros Hmax. unfold fallback_chunks.
  destruct (paragraphs_spec text) as (ps & Hps & HF & Hso & Hv). rewrite Hps. cbn [mbind option_bind].
  destruct (add_paragraphs_inv max 0 [] (MkChunkState [] None 0 [] 0) ps text Hmax)
    as (st & b & Hst & Hinv & Hb).
  - split_and!; [done|done|]. cbn. split; [|done]. split_and!; constructor.
  - done.
  - eapply Forall_impl; [exact HF|]. intros P (p & q & _ & _ & _ & -> & _). unfold chars_count. lia.
  - done.
  - rewrite Hst. cbn [mbind option_bind]. eexists. split; [reflexivity|].
    destruct (flush_inv _ _ _ _ Hinv) as [(Hb0 & Hvf & Hst') Hnil].
    rewrite Hnil in Hvf, Hst'. cbn [is_empty] in Hst'. split.
    + destruct Hst' as [Hp _]. eapply packed_weaken; [exact Hp|]. unfold chars_count in *. lia.
    + rewrite app_nil_r in Hvf. rewrite Hvf. cbn [app]. done.
Qed.

(** ** The sectionizer *)

Definition headings (text : str) : list (nat * SectionType) :=
  heading_positions_from 0 (default [] (indexed_lines text)).

(** Sectionizing never panics and, when the text has headings, yields one
    section per heading, in order: section [n] has order number [n], the type
    of heading [n], and exactly the characters of its reported range as text;
    sections are non-empty and do not overlap. *)
Theorem sectionize_headings_spec max text :
  headings text ≠ [] →
  ∃ chunks, sectionize max text = Some chunks ∧
    section_type <$> chunks = (headings text).*2 ∧
    order_no <$> chunks = (λ n, as_u32 (Z.of_nat n)) <$> seq 0 (length (headings text)) ∧
    Forall (chunk_exact text) chunks ∧ StronglySorted chunk_before chunks.
Proof.
  unfold headings, sectionize. destruct (indexed_lines_spec text) as (lines & Hl & HF & Hso).
  rewrite Hl. cbn [mbind option_bind from_option id]. intros Hne.
  destruct (heading_positions_spec [] lines) as (Hok & _ & Hinc). cbn [length app] in Hok, Hinc.
  destruct (heading_sections_spec text lines 0 (heading_positions_from 0 lines))
    as (chunks & Hc & Hty & Hord & Hex & Hcs & _); [done..|].
  exists chunks. split_and!; [by destruct (heading_positions_from 0 lines)|done..].
Qed.

(** C31: without headings the text is packed into chunks: nothing panics, every
    chunk has between one and [max_chars] characters and a range inside the
    text, chunks are numbered in order and do not overlap, and together they
    hold exactly the visible characters of the text. *)
Theorem sectionize_fallback_spec max text :
  1 ≤ max → headings text = [] →
  ∃ chunks, sectionize max text = Some chunks ∧
    packed max (chars_count text) chunks ∧ visible_chars (texts chunks) = visible_chars text.
Proof.
  unfold headings, sectionize. destruct (indexed_lines_spec text) as (lines & Hl & _).
  rewrite Hl. cbn [mbind option_bind from_option id]. intros Hmax ->.
  by apply fallback_chunks_spec.
Qed.

(** ** Concrete instances *)

Definition sample_resume : str :=
  lit "Ada" ++ [10] ++ lit "Education" ++ [10] ++ lit "THU" ++ [10; 10] ++ lit "Skills:" ++ [10] ++ lit "Rust".

Lemma sectionize_headings_spec_witness :
  headings sample_resume = [(1%nat, Education); (4%nat, Skill)] ∧
  is_Some (sectionize DEFAULT_MAX_CHARS sample_resume).
Proof.
  split; [vm_compute; reflexivity|].
  destruct (sectionize_headings_spec DEFAULT_MAX_CHARS sample_resume) as (chunks & H & _);
    [vm_compute; discriminate|]. eauto.
Defined.

Definition sample_prose : str := lit "abcdef" ++ [10; 10] ++ lit "gh" ++ [10; 10] ++ lit "ij".

Lemma sectionize_fallback_spec_witness :
  ∃ chunks, sectionize 4 sample_prose = Some chunks ∧
    visible_chars (texts chunks) = visible_chars sample_prose.
Proof.
  destruct (sectionize_fallback_spec 4 sample_prose) as (chunks & H & _ & Hv);
    [lia|vm_compute; reflexivity|]. eauto.
Defined.
