(* ===== verification/Redaction.v ===== *)
(** * Redaction of contact values (crates/privacy/src/redaction.rs)

    [redact_contact_values] replaces e-mail addresses, phone numbers, WeChat names and
    local paths by placeholders.  Each of its five patterns is guarded by a cheap scan,
    so that text without a signal never reaches the regular-expression engine.  The
    patterns are syntax ([re]) with their meaning ([ends]); the engine that rewrites a
    text is the class [RegexEngine], and the Unicode tables it consults are
    [RegexTables]. *)

From Stdlib Require Import ZArith String.
From stdpp Require Import prelude list_numbers.
From S2P Require Import Prelude Text.

Local Open Scope Z_scope.

(** ** Patterns *)

(** The members of a character class: a range, [\d], [\s] and [\S]. *)
Inductive item := Range (a b : char) | Digit | Space | NonSpace.

(** [Cls i] is a class, read without case when [i] holds; [Bound a] is [\b], over ASCII
    word characters when [a] holds; [Rep r lo hi] is a greedy repetition. *)
Inductive re :=
| Eps
| Cls (ignore_case : bool) (items : list item)
| Seq (r s : re)
| Alt (r s : re)
| Rep (r : re) (lo : nat) (hi : option nat)
| Bound (ascii : bool).

(** Decimal digits ([\d]), word characters ([\w]) and simple case folding. *)
Class RegexTables := {
  re_digit : char → bool;
  re_word : char → bool;
  fold_eq : char → char → bool;
}.

(** What the Unicode tables say of ASCII and of CJK ideographs: only [k] and [s] have
    case variants outside ASCII, other ASCII characters and ideographs have none. *)
Class RegexTablesLaws `{RegexTables} : Prop := {
  re_digit_ascii c : 0 ≤ c < 128 → re_digit c = is_ascii_digit c;
  fold_letter c d : is_ascii_lowercase c = true → c ≠ 107 → c ≠ 115 →
    fold_eq c d = true → char_to_ascii_lowercase d = c;
  fold_caseless c d : 0 ≤ c < 128 → is_ascii_alphabetic c = false → fold_eq c d = true → d = c;
  fold_cjk c d : is_cjk c = true → fold_eq c d = true → d = c;
}.

Section patterns.
Context `{RegexTables}.

Definition item_has (ignore_case : bool) (c : char) (i : item) : bool :=
  match i with
  | Range a b =>
      ((a <=? c) && (c <=? b)) || (ignore_case && existsb (λ d, fold_eq d c) (seqZ a (b - a + 1)))
  | Digit => re_digit c
  | Space => is_whitespace c
  | NonSpace => negb (is_whitespace c)
  end.

Definition class_has (ignore_case : bool) (items : list item) (c : char) : bool :=
  existsb (item_has ignore_case c) items.

(** [[0-9A-Za-z_]], and the Unicode word characters. *)
Definition word_char (ascii : bool) (c : char) : bool :=
  if ascii then is_ascii_alphanumeric c || (c =? 95) else re_word c.

Definition on_boundary (ascii : bool) (prev : option char) (s : str) : bool :=
  xorb (from_option (word_char ascii) false prev) (from_option (word_char ascii) false (hd_error s)).

(** A place in the text: the character before it and what follows. *)
Definition place : Type := option char * str.

Fixpoint repeat_ends (step : place → list place) (lo fuel : nat) (p : place) : list place :=
  match fuel with
  | O => if Nat.eqb lo 0 then [p] else []
  | S fuel =>
      (p' ← step p; repeat_ends step (pred lo) fuel p') ++ (if Nat.eqb lo 0 then [p] else [])
  end.

(** The places at which a match that starts at a place can end, the preferred first. *)
Fixpoint ends (r : re) (p : place) : list place :=
  match r with
  | Eps => [p]
  | Cls ignore_case items =>
      match p.2 with
      | c :: s => if class_has ignore_case items c then [(Some c, s)] else []
      | [] => []
      end
  | Seq r s => p' ← ends r p; ends s p'
  | Alt r s => ends r p ++ ends s p
  | Rep r lo hi => repeat_ends (ends r) lo (default (lo + length p.2)%nat hi) p
  | Bound ascii => if on_boundary ascii p.1 p.2 then [p] else []
  end.

(** [Regex::is_match]: some place of the text starts a match. *)
Fixpoint search (r : re) (prev : option char) (s : str) : bool :=
  negb (match ends r (prev, s) with [] => true | _ => false end)
  || match s with
     | [] => false
     | c :: s => search r (Some c) s
     end.

Definition is_match (r : re) (text : str) : bool := search r None text.
End patterns.

(** [Regex::replace_all]: [Some] is [Cow::Owned], [None] is [Cow::Borrowed]. *)
Class RegexEngine := {
  engine_tables :: RegexTables;
  replace_all : re → str → str → option str;
}.

(** A text cut into kept pieces and matches. *)
Inductive piece := Keep (s : str) | Cut (s : str).
Definition before_cut (p : piece) : str := match p with Keep s | Cut s => s end.
Definition after_cut (replacement : str) (p : piece) : str :=
  match p with Keep s => s | Cut _ => replacement end.

(** What the engine documents: a text without a match is returned as it is, any other
    one with its matches replaced.  A replacement with a [$] would be expanded. *)
Class RegexEngineLaws `{RegexEngine} : Prop := {
  engine_tables_laws :: RegexTablesLaws;
  replace_all_borrowed r text replacement :
    replace_all r text replacement = None ↔ is_match r text = false;
  replace_all_owned r text replacement out :
    existsb (Z.eqb 36) replacement = false → replace_all r text replacement = Some out →
    ∃ pieces, text = concat (map before_cut pieces)
              ∧ out = concat (map (after_cut replacement) pieces);
}.

(** ** The five patterns *)

Definition chr (c : char) : item := Range c c.
Definition seq_of (rs : list re) : re := foldr Seq Eps rs.
Definition alt_of (r : re) (rs : list re) : re := foldr Alt r rs.
(** A literal string. *)
Definition word_of (ignore_case : bool) (s : str) : re :=
  seq_of (map (λ c, Cls ignore_case [chr c]) s).
Definition star (r : re) : re := Rep r 0 None.
Definition plus (r : re) : re := Rep r 1 None.
Definition opt (r : re) : re := Rep r 0 (Some 1%nat).
Definition letters : list item := [Range 65 90; Range 97 122].
Definition alnums : list item := letters ++ [Range 48 57].

Definition EMAIL_REGEX : re :=
  seq_of [Bound true;
          plus (Cls false (alnums ++ [chr 46; chr 95; chr 37; chr 43; chr 45]));
          Cls false [chr 64];
          plus (Cls false (alnums ++ [chr 46; chr 45]));
          Cls false [chr 46];
          Rep (Cls false letters) 2 None;
          Bound true].

(** [[\s.-]] and [\d]. *)
Definition phone_gap : re := Cls false [Space; chr 46; chr 45].
Definition digit : re := Cls false [Digit].

Definition SEPARATED_PHONE_REGEX : re :=
  seq_of [opt (seq_of [Cls false [chr 43]; Rep digit 1 (Some 3%nat); star phone_gap]);
          Alt (seq_of [Cls false [chr 40]; Rep digit 3 (Some 3%nat); Cls false [chr 41];
                       star phone_gap])
              (seq_of [Rep digit 3 (Some 4%nat); plus phone_gap]);
          Rep digit 3 (Some 4%nat); star phone_gap; Rep digit 4 (Some 4%nat)].

Definition COMPACT_PHONE_REGEX : re :=
  seq_of [opt (Cls false [chr 43]); opt (Cls false [chr 49]); Rep digit 10 (Some 10%nat); Bound false].

Definition WECHAT_REGEX : re :=
  seq_of [Bound false;
          alt_of (word_of true (lit "微信号"))
            [word_of true (lit "wechat"); word_of true (lit "weixin"); word_of true (lit "wx");
             word_of true (lit "微信")];
          star (Cls true [Space]);
          Cls true [chr 58; chr 0xFF1A];
          star (Cls true [Space]);
          Cls true letters;
          Rep (Cls true (alnums ++ [chr 95; chr 46; chr 45])) 5 (Some 31%nat);
          Bound false].

Definition non_space : re := Cls true [NonSpace].
Definition drive_letter : re := Cls true [Range 65 90].

Definition LOCAL_PATH_REGEX : re :=
  alt_of
    (seq_of [star non_space;
             alt_of (word_of true (lit "\Users\"))
               [word_of true (lit "/Users/"); word_of true (lit "/home/"); word_of true (lit "/private")];
             star non_space])
    [seq_of [word_of true (lit "file://"); plus non_space];
     seq_of [alt_of (seq_of [drive_letter; Cls true [chr 58]; Cls true [chr 92; chr 47]])
               [word_of true (lit "~"); word_of true (lit "/Users"); word_of true (lit "/home");
                word_of true (lit "/private"); word_of true (lit "/var"); word_of true (lit "/tmp")];
             star non_space];
     seq_of [Bound false; drive_letter; Cls true [chr 58]; Cls true [chr 92]; plus non_space]].

(** ** Signals: the scans in front of the patterns *)

(** One byte of the separated scan: the new [digits], [candidate_len] and
    [separator_seen], or [None] for the early [return true]. *)
Definition separated_step (digits candidate_len : Z) (separator_seen : bool) (byte : Z)
    : option (Z * Z * bool) :=
  let after :=
    if is_ascii_digit byte then
      if (10 <=? digits + 1) && separator_seen then None
      else Some (digits + 1, candidate_len + 1, separator_seen)
    else if existsb (Z.eqb byte) [43; 40; 41] then Some (digits, candidate_len + 1, true)
    else if existsb (Z.eqb byte) [32; 9; 10; 13; 46; 45] && (0 <? candidate_len) then
      Some (digits, candidate_len + 1, true)
    else Some (0, 0, false) in
  '(digits, candidate_len, separator_seen) ← after;
  Some (if 32 <? candidate_len then (0, 0, false) else (digits, candidate_len, separator_seen)).

Fixpoint separated_scan (digits candidate_len : Z) (separator_seen : bool) (bytes : list Z) : bool :=
  match bytes with
  | [] => false
  | byte :: bytes =>
      match separated_step digits candidate_len separator_seen byte with
      | None => true
      | Some (digits, candidate_len, separator_seen) =>
          separated_scan digits candidate_len separator_seen bytes
      end
  end.

Definition contains_separated_phone_signal (text : str) : bool := separated_scan 0 0 false (utf8 text).

Fixpoint compact_scan (consecutive_digits : Z) (bytes : list Z) : bool :=
  match bytes with
  | [] => false
  | byte :: bytes =>
      if is_ascii_digit byte then
        if 10 <=? consecutive_digits + 1 then true else compact_scan (consecutive_digits + 1) bytes
      else compact_scan 0 bytes
  end.

Definition contains_compact_phone_signal (text : str) : bool := compact_scan 0 (utf8 text).

(** [windows(n).any(|w| w.eq_ignore_ascii_case(needle))]. *)
Fixpoint any_window (needle bytes : list Z) : bool :=
  bool_decide (length (take (length needle) bytes) = length needle
               ∧ map char_to_ascii_lowercase (take (length needle) bytes)
                 = map char_to_ascii_lowercase needle)
  || match bytes with
     | [] => false
     | _ :: bytes => any_window needle bytes
     end.

Definition contains_ascii_case_insensitive (haystack : str) (needle : list Z) : bool :=
  any_window needle (utf8 haystack).

Definition contains_wechat_signal (text : str) : bool :=
  contains (lit "微信") text
  || contains_ascii_case_insensitive text (lit "wechat")
  || contains_ascii_case_insensitive text (lit "weixin")
  || contains_ascii_case_insensitive text (lit "wx").

Definition contains_local_path_signal (text : str) : bool :=
  existsb (λ byte, existsb (Z.eqb byte) [47; 92; 126]) (utf8 text).

(** ** Redaction *)

Definition REDACTED_EMAIL : str := lit "<redacted-email>".
Definition REDACTED_PHONE : str := lit "<redacted-phone>".
Definition REDACTED_WECHAT : str := lit "<redacted-wechat>".
Definition REDACTED_PATH : str := lit "<redacted-path>".

Inductive Cow := Borrowed (s : str) | Owned (s : str).
Definition cow_str (c : Cow) : str := match c with Borrowed s | Owned s => s end.

Definition redacted_text (original : str) (redacted : option str) : str := default original redacted.

Section redaction.
Context `{RegexEngine}.

Definition replace_redaction (current : option str) (original : str) (regex : re) (replacement : str)
    : option str :=
  match replace_all regex (redacted_text original current) replacement with
  | Some value => Some value
  | None => current
  end.

Definition redact_contact_values (text : str) : Cow :=
  let redacted := None in
  let redacted :=
    if contains [64] text then replace_redaction redacted text EMAIL_REGEX REDACTED_EMAIL
    else redacted in
  let redacted :=
    if contains_separated_phone_signal (redacted_text text redacted) then
      replace_redaction redacted text SEPARATED_PHONE_REGEX REDACTED_PHONE
    else redacted in
  let redacted :=
    if contains_compact_phone_signal (redacted_text text redacted) then
      replace_redaction redacted text COMPACT_PHONE_REGEX REDACTED_PHONE
    else redacted in
  let redacted :=
    if contains_wechat_signal (redacted_text text redacted) then
      replace_redaction redacted text WECHAT_REGEX REDACTED_WECHAT
    else redacted in
  let redacted :=
    if contains_local_path_signal (redacted_text text redacted) then
      replace_redaction redacted text LOCAL_PATH_REGEX REDACTED_PATH
    else redacted in
  match redacted with
  | Some value => Owned value
  | None => Borrowed text
  end.
End redaction.

(** The fuel of a repetition is enough: a step that consumes a character can be taken at
    most as often as there are characters. *)
Lemma repeat_ends_fuel (step : place → list place) :
  (∀ p q, q ∈ step p → (length q.2 < length p.2)%nat) →
  ∀ n m lo p, (lo + length p.2 ≤ n)%nat → (lo + length p.2 ≤ m)%nat →
  repeat_ends step lo n p = repeat_ends step lo m p.
Proof.
  intros Hstep. assert (∀ p, length p.2 = 0%nat → step p = []) as Hnil.
  { intros p Hp. destruct (step p) as [|q l] eqn:E; [done|].
    assert (q ∈ step p) as Hq%Hstep by (rewrite E; left). lia. }
  induction n as [|n IH]; intros m lo p Hn Hm.
  - destruct m as [|m]; [done|]. cbn. rewrite Hnil by lia. cbn. done.
  - destruct m as [|m]; [cbn; rewrite Hnil by lia; done|]. cbn. f_equal.
    apply Forall_bind_ext, Forall_forall. intros q Hq%Hstep. apply IH; lia.
Qed.

(** ** The words a pattern can match *)

Section words.
Context `{RegexTables}.

(** The language of a pattern, boundaries left out. *)
Fixpoint lang (r : re) (w : str) : Prop :=
  match r with
  | Eps | Bound _ => w = []
  | Cls ignore_case items => ∃ c, w = [c] ∧ class_has ignore_case items c = true
  | Seq r s => ∃ u v, w = u ++ v ∧ lang r u ∧ lang s v
  | Alt r s => lang r w ∨ lang s w
  | Rep r lo hi =>
      ∃ ws, w = concat ws ∧ Forall (lang r) ws ∧ (lo ≤ length ws)%nat
            ∧ match hi with Some hi => (length ws ≤ hi)%nat | None => True end
  end.

Lemma repeat_ends_lang (step : place → list place) (L : str → Prop) fuel :
  (∀ p q, q ∈ step p → ∃ w, p.2 = w ++ q.2 ∧ L w) →
  ∀ lo p q, q ∈ repeat_ends step lo fuel p →
  ∃ ws, p.2 = concat ws ++ q.2 ∧ Forall L ws ∧ (lo ≤ length ws ≤ fuel)%nat.
Proof.
  intros Hstep. induction fuel as [|fuel IH]; intros lo p q; cbn.
  - destruct (Nat.eqb_spec lo 0) as [->|]; [|intros ?%elem_of_nil; done].
    intros ->%list_elem_of_singleton. exists []. split_and!; [done..|cbn; lia].
  - intros [Hq|Hq]%elem_of_app.
    + apply list_elem_of_bind in Hq as (p' & Hq & Hp'). apply Hstep in Hp' as (w & Hw & HL).
      apply IH in Hq as (ws & Hws & HF & Hlen). exists (w :: ws). split_and!.
      * rewrite Hw, Hws. cbn. by rewrite app_assoc.
      * by constructor.
      * cbn. lia.
      * cbn. lia.
    + destruct (Nat.eqb_spec lo 0) as [->|]; [|by apply elem_of_nil in Hq].
      apply list_elem_of_singleton in Hq as ->. exists []. split_and!; [done..|cbn; lia].
Qed.

Lemma ends_lang r p q : q ∈ ends r p → ∃ w, p.2 = w ++ q.2 ∧ lang r w.
Proof.
  revert p q. induction r as [|i items|r IHr s IHs|r IHr s IHs|r IH lo hi|a]; intros p q; cbn.
  - intros ->%list_elem_of_singleton. by exists [].
  - destruct (p.2) as [|c t]; [by intros ?%elem_of_nil|].
    destruct (class_has i items c) eqn:Hc; [|by intros ?%elem_of_nil].
    intros ->%list_elem_of_singleton. exists [c]. split; [done|by exists c].
  - intros (m & Hq & Hm)%list_elem_of_bind. apply IHr in Hm as (u & Hu & Lu).
    apply IHs in Hq as (v & Hv & Lv). exists (u ++ v). split; [by rewrite Hu, Hv, app_assoc|eauto].
  - intros [Hq|Hq]%elem_of_app; [apply IHr in Hq|apply IHs in Hq]; naive_solver.
  - intros Hq. apply (repeat_ends_lang _ (lang r)) in Hq as (ws & Hws & HF & Hlen); [|exact IH].
    exists (concat ws). split; [done|]. exists ws. split_and!; [done..|lia|].
    destruct hi; cbn in Hlen; [lia|done].
  - destruct (on_boundary _ _ _); [|by intros ?%elem_of_nil].
    intros ->%list_elem_of_singleton. by exists [].
Qed.

(** A match lies somewhere in the text. *)
Lemma is_match_lang r text : is_match r text = true → ∃ a w b, text = a ++ w ++ b ∧ lang r w.
Proof.
  unfold is_match. generalize (@None char). induction text as [|c t IH]; intros prev; cbn.
  - destruct (ends r (prev, [])) as [|q qs] eqn:E; [done|]. intros _.
    destruct (ends_lang r (prev, []) q) as (w & Hw & L); [rewrite E; left|].
    exists [], w, q.2. by rewrite <-Hw.
  - destruct (ends r (prev, c :: t)) as [|q qs] eqn:E; cbn.
    + intros (a & w & b & -> & L)%IH. by exists (c :: a), w, b.
    + intros _. destruct (ends_lang r (prev, c :: t) q) as (w & Hw & L); [rewrite E; left|].
      exists [], w, q.2. by rewrite <-Hw.
Qed.

(** Repetitions of one class. *)
Lemma lang_rep_cls i items lo hi w :
  lang (Rep (Cls i items) lo hi) w →
  Forall (λ c, class_has i items c = true) w ∧ (lo ≤ length w)%nat
  ∧ match hi with Some hi => (length w ≤ hi)%nat | None => True end.
Proof.
  cbn. intros (ws & -> & HF & Hlo & Hhi).
  assert (Forall (λ c, class_has i items c = true) (concat ws) ∧ length (concat ws) = length ws)
    as [HC HL].
  { clear Hlo Hhi. induction HF as [|x ws (c & -> & Hc) HF [IH1 IH2]]; [done|]. cbn.
    split; [by constructor|by rewrite IH2]. }
  rewrite HL. done.
Qed.

(** A literal is matched by a string of its length, character by character. *)
Lemma lang_word i s w :
  lang (word_of i s) w → Forall2 (λ c d, class_has i [chr c] d = true) s w.
Proof.
  revert w. induction s as [|c s IH]; intros w; cbn; [intros ->; constructor|].
  intros (u & v & -> & (d & -> & Hd) & Hv). cbn. constructor; [done|by apply IH].
Qed.
End words.

(** ** The scans find what the patterns match *)

Lemma utf8_char_low c : c < 0x80 → utf8_char c = [c].
Proof. intros Hc. unfold utf8_char. by replace (c <? 0x80) with true by lia. Qed.

Lemma utf8_char_high c : 0x80 ≤ c → utf8_char c ≠ [] ∧ Forall (λ b, 0x80 ≤ b) (utf8_char c).
Proof.
  intros Hc. unfold utf8_char. replace (c <? 0x80) with false by lia.
  pose proof (Z.div_pos c 64). pose proof (Z.div_pos c 4096). pose proof (Z.div_pos c 262144).
  assert (∀ x, 0 ≤ x `mod` 64) as Hmod by (intros x; apply Z.mod_pos_bound; lia).
  split; repeat case_match; try done;
    rewrite ?Forall_cons; split_and!; try apply Forall_nil_2; cbn beta;
    repeat match goal with |- context [?x `mod` 64] => generalize (Hmod x); generalize (x `mod` 64) end;
    lia.
Qed.

Lemma utf8_low s : Forall (λ c, c < 0x80) s → utf8 s = s.
Proof. induction 1 as [|c s Hc _ IH]; cbn; [done|]. by rewrite utf8_char_low, IH. Qed.

(** An ASCII word of the text is a run of the same bytes. *)
Lemma utf8_infix a w b : Forall (λ c, c < 0x80) w → utf8 (a ++ w ++ b) = utf8 a ++ w ++ utf8 b.
Proof. intros Hw. by rewrite !utf8_app, (utf8_low w). Qed.

Lemma contains_infix needle a b : contains needle (a ++ needle ++ b) = true.
Proof.
  induction a as [|c a IH]; cbn [app].
  - destruct (needle ++ b) as [|x l] eqn:E; [by destruct needle|]. cbn [contains]. rewrite <-E.
    by rewrite starts_with_app.
  - cbn. rewrite IH. apply orb_true_r.
Qed.

Lemma existsb_utf8 (p : Z → bool) c s : c < 0x80 → c ∈ s → p c = true → existsb p (utf8 s) = true.
Proof.
  intros Hc (a & b & ->)%list_elem_of_split Hp.
  change (c :: b) with ([c] ++ b). rewrite utf8_infix by (repeat constructor; lia).
  rewrite !existsb_app. cbn. rewrite Hp. by rewrite orb_true_r.
Qed.

(** *** Runs of candidate characters *)

Definition phone_mark (c : char) : bool := existsb (Z.eqb c) [43; 40; 41].
Definition phone_blank (c : char) : bool := existsb (Z.eqb c) [32; 9; 10; 13; 46; 45].
Definition candidate (c : char) : bool := is_ascii_digit c || phone_mark c || phone_blank c.

(** No run of candidate characters is longer than 32, [n] of them being read. *)
Fixpoint run_ok (n : Z) (s : str) : bool :=
  match s with
  | [] => true
  | c :: s => if candidate c then (n + 1 <=? 32) && run_ok (n + 1) s else run_ok 0 s
  end.

Lemma candidate_low c : candidate c = true → c < 0x80.
Proof.
  unfold candidate, phone_mark, phone_blank, is_ascii_digit. cbn. intros Hc. bools; lia.
Qed.

Lemma run_ok_le m n s : m ≤ n → run_ok n s = true → run_ok m s = true.
Proof.
  revert m n. induction s as [|c s IH]; intros m n Hle; cbn; [done|].
  destruct (candidate c); [|done]. intros [H1 H2]%andb_prop. bools.
  apply andb_true_intro. split; [lia|]. eapply (IH _ (n + 1)); [lia|done].
Qed.

Lemma run_ok_app n a b : 0 ≤ n → run_ok n (a ++ b) = true → ∃ m, 0 ≤ m ∧ run_ok m b = true.
Proof.
  revert n. induction a as [|c a IH]; intros n Hn; cbn; [eauto|].
  destruct (candidate c); [intros [_ Ha]%andb_prop; apply IH in Ha|intros Ha; apply IH in Ha];
    eauto with lia.
Qed.

Lemma run_ok_run n w b : Forall (λ c, candidate c = true) w → 0 ≤ n → w ≠ [] →
  run_ok n (w ++ b) = true → n + Z.of_nat (length w) ≤ 32.
Proof.
  intros Hw. revert n. induction Hw as [|c w Hc Hw IH]; intros n Hn Hne; [done|].
  cbn. rewrite Hc. intros [H1 H2]%andb_prop. bools. destruct w as [|d w]; [cbn; lia|].
  apply IH in H2; [cbn in *; lia|lia|done].
Qed.

(** *** The separated scan *)

(** A byte of no candidate character resets the scan. *)
Lemma separated_step_other d l sep b :
  0 ≤ l → candidate b = false → separated_step d l sep b = Some (0, 0, false).
Proof.
  unfold candidate, separated_step. intros Hl Hb. fold (phone_mark b) (phone_blank b).
  apply orb_false_iff in Hb as [[-> ->]%orb_false_iff ->]. done.
Qed.

(** A candidate is counted, unless it is a leading blank. *)
Lemma separated_step_candidate d l sep b :
  0 ≤ l → l + 1 ≤ 32 → candidate b = true → (is_ascii_digit b || phone_mark b = true ∨ 0 < l) →
  separated_step d l sep b =
    if is_ascii_digit b then
      if (10 <=? d + 1) && sep then None else Some (d + 1, l + 1, sep)
    else Some (d, l + 1, true).
Proof.
  unfold candidate, separated_step. intros Hl Hmax Hb Hstart.
  fold (phone_mark b) (phone_blank b). assert ((32 <? l + 1) = false) as Hl1 by lia.
  destruct (is_ascii_digit b); cbn [orb] in *;
    [destruct (_ && _); cbn; by rewrite ?Hl1|].
  destruct (phone_mark b); cbn [orb] in *; [cbn; by rewrite Hl1|].
  rewrite Hb. replace (0 <? l) with true by (destruct Hstart; [done|lia]).
  cbn. by rewrite Hl1.
Qed.

Lemma separated_step_bounds d l sep b n :
  0 ≤ d → 0 ≤ l ≤ n → (candidate b = true → n + 1 ≤ 32) →
  separated_step d l sep b = None ∨
  ∃ d' l' sep', separated_step d l sep b = Some (d', l', sep') ∧ 0 ≤ d' ∧ 0 ≤ l'
    ∧ l' ≤ (if candidate b then n + 1 else 0).
Proof.
  intros Hd Hl Hn. destruct (candidate b) eqn:Hb.
  - specialize (Hn eq_refl).
    destruct (decide (is_ascii_digit b || phone_mark b = true ∨ 0 < l)) as [Hs|Hs].
    + rewrite (separated_step_candidate _ _ _ _) by (done || lia).
      repeat case_match; [by left|right..]; eexists _, _, _; split_and!; try done; lia.
    + assert (l = 0) as -> by lia. right. exists 0, 0, false. split_and!; [|lia..].
      assert (is_ascii_digit b || phone_mark b = false) as [Hd0 Hm0]%orb_false_iff
        by (destruct (is_ascii_digit b || phone_mark b); [exfalso; apply Hs; by left|done]).
      unfold separated_step. fold (phone_mark b). rewrite Hd0, Hm0, andb_false_r. done.
  - rewrite separated_step_other by (done || lia). right. by exists 0, 0, false.
Qed.

Lemma separated_scan_high d l sep bs rest :
  0 ≤ l → bs ≠ [] → Forall (λ b, 0x80 ≤ b) bs →
  separated_scan d l sep (bs ++ rest) = separated_scan 0 0 false rest.
Proof.
  intros Hl Hne Hb. revert d l sep Hl Hne. induction Hb as [|b bs Hb Hbs IH]; intros d l sep Hl Hne; [done|].
  cbn. rewrite separated_step_other;
    [|lia|destruct (candidate b) eqn:E; [apply candidate_low in E; lia|done]].
  destruct bs as [|b' bs]; [done|]. by apply IH.
Qed.

(** Reading a prefix either finds a signal or leaves a candidate no longer than the run. *)
Lemma separated_scan_prefix a rest bs : ∀ d l sep n,
  0 ≤ d → 0 ≤ l ≤ n → run_ok n (a ++ rest) = true →
  separated_scan d l sep (utf8 a ++ bs) = true ∨
  ∃ d' l' sep' n', 0 ≤ d' ∧ 0 ≤ l' ≤ n' ∧ run_ok n' rest = true
    ∧ separated_scan d l sep (utf8 a ++ bs) = separated_scan d' l' sep' bs.
Proof.
  induction a as [|c a IH]; intros d l sep n Hd Hl; cbn [app utf8]; [right; eauto 10|].
  cbn [run_ok]. intros Hrun. destruct (decide (c < 0x80)) as [Hc|Hc].
  - rewrite utf8_char_low by done. cbn [app separated_scan].
    destruct (separated_step_bounds d l sep c n) as [->|(d' & l' & sep' & -> & Hd' & Hl' & Hle)];
      [lia..| |by left|].
    { intros E. rewrite E in Hrun. apply andb_prop in Hrun as [Hrun _]. bools. lia. }
    destruct (candidate c); [apply andb_prop in Hrun as [_ Hrun]|];
      (eapply IH; [lia| |exact Hrun]; lia).
  - destruct (utf8_char_high c) as [Hne Hh]; [lia|]. rewrite <-app_assoc.
    rewrite separated_scan_high by (done || lia).
    destruct (candidate c) eqn:E; [apply candidate_low in E; lia|]. apply (IH 0 0 false 0); [lia..|done].
Qed.

Definition digits_in (s : str) : Z := Z.of_nat (length (List.filter is_ascii_digit s)).

(** Reading a run of candidates counts its digits and notices its separators. *)
Lemma separated_scan_run w bs : ∀ d l sep,
  Forall (λ c, candidate c = true) w → 0 ≤ l → l + Z.of_nat (length w) ≤ 32 →
  (0 < l ∨ ∃ c t, w = c :: t ∧ is_ascii_digit c || phone_mark c = true) →
  separated_scan d l sep (w ++ bs) = true ∨
  separated_scan d l sep (w ++ bs) =
    separated_scan (d + digits_in w) (l + Z.of_nat (length w))
      (sep || existsb (λ c, negb (is_ascii_digit c)) w) bs.
Proof.
  induction w as [|c w IH]; intros d l sep Hw Hl Hmax Hstart.
  { right. cbn. by rewrite !Z.add_0_r, orb_false_r. }
  apply Forall_cons in Hw as [Hc Hw]. cbn [length] in Hmax. cbn [app separated_scan].
  rewrite (separated_step_candidate _ _ _ _) by first [done|lia|naive_solver].
  unfold digits_in. cbn [List.filter existsb length]. destruct (is_ascii_digit c) eqn:Hd.
  - destruct ((10 <=? d + 1) && sep); [by left|].
    destruct (IH (d + 1) (l + 1) sep) as [-> | ->]; [done|lia|lia|left; lia|by left|right].
    cbn [negb orb length]. unfold digits_in. f_equal; lia.
  - destruct (IH d (l + 1) true) as [-> | ->]; [done|lia|lia|left; lia|by left|right].
    cbn [negb orb]. unfold digits_in. rewrite orb_true_r. f_equal; lia.
Qed.

(** A phone shape: candidates only, ten digits, the last of them after a separator. *)
Definition phone_shape (w : str) : Prop :=
  ∃ w0 x, w = w0 ++ [x] ∧ is_ascii_digit x = true ∧ Forall (λ c, candidate c = true) w0
    ∧ 9 ≤ digits_in w0 ∧ existsb (λ c, negb (is_ascii_digit c)) w0 = true
    ∧ ∃ c t, w0 = c :: t ∧ is_ascii_digit c || phone_mark c = true.

Lemma separated_signal_found a w b :
  run_ok 0 (a ++ w ++ b) = true → phone_shape w →
  contains_separated_phone_signal (a ++ w ++ b) = true.
Proof.
  intros Hrun (w0 & x & -> & Hx & Hw0 & Hn & Hsep & Hstart).
  assert (Forall (λ c, candidate c = true) (w0 ++ [x])) as Hw.
  { apply Forall_app. split; [done|]. constructor; [unfold candidate; by rewrite Hx|constructor]. }
  unfold contains_separated_phone_signal.
  rewrite utf8_infix by (eapply Forall_impl; [exact Hw|apply candidate_low]).
  destruct (separated_scan_prefix a ((w0 ++ [x]) ++ b) ((w0 ++ [x]) ++ utf8 b) 0 0 false 0)
    as [->|(d & l & sep & n & Hd & Hl & Hn' & ->)]; [lia..|done|done|].
  apply run_ok_run in Hn' as Hlen; [|done|lia|by destruct w0].
  rewrite length_app in Hlen. cbn in Hlen. rewrite <-app_assoc.
  destruct (separated_scan_run w0 ([x] ++ utf8 b) d l sep) as [-> | ->];
    [done|lia|lia|by right|done|].
  cbn [app separated_scan]. rewrite separated_step_candidate;
    [|lia|lia|unfold candidate; by rewrite Hx|left; by rewrite Hx].
  rewrite Hx, Hsep, orb_true_r. by replace (10 <=? _) with true by lia.
Qed.

Lemma digits_in_app u v : digits_in (u ++ v) = digits_in u + digits_in v.
Proof. unfold digits_in. rewrite List.filter_app, length_app. lia. Qed.

Lemma digits_in_nonneg u : 0 ≤ digits_in u.
Proof. unfold digits_in. lia. Qed.

Lemma digits_in_all u : Forall (λ c, is_ascii_digit c = true) u → digits_in u = Z.of_nat (length u).
Proof.
  unfold digits_in. induction 1 as [|c u Hc _ IH]; [done|]. cbn. rewrite Hc. cbn [length]. lia.
Qed.

Lemma digits_candidate u :
  Forall (λ c, is_ascii_digit c = true) u → Forall (λ c, candidate c = true) u.
Proof. intros Hu. eapply Forall_impl; [exact Hu|]. intros c Hc. unfold candidate. by rewrite Hc. Qed.

Section signals.
Context `{RegexTablesLaws}.

(** Texts whose digits and spaces are those the byte scans know. *)
Definition scan_char (c : char) : bool :=
  implb (re_digit c) (is_ascii_digit c)
  && implb (is_whitespace c) (existsb (Z.eqb c) [32; 9; 10; 13]).

Lemma one_char c d : class_has false [chr c] d = true → d = c.
Proof. cbn. rewrite !orb_false_r. intros [? ?]%andb_prop. bools. lia. Qed.

Lemma digits_of_word lo hi u :
  lang (Rep digit lo hi) u → Forall (λ c, scan_char c = true) u →
  Forall (λ c, is_ascii_digit c = true) u ∧ (lo ≤ length u)%nat.
Proof.
  intros (Hu & Hlo & _)%lang_rep_cls Hs. split; [|done].
  eapply Forall_impl; [exact (proj2 (Forall_and _ _) (conj Hu Hs))|]. intros c [Hc Hsc].
  cbn in Hc. rewrite orb_false_r in Hc. unfold scan_char in Hsc. rewrite Hc in Hsc.
  by apply andb_prop in Hsc as [Hsc _].
Qed.

Lemma gaps_of_word lo hi u :
  lang (Rep phone_gap lo hi) u → Forall (λ c, scan_char c = true) u →
  Forall (λ c, phone_blank c = true) u ∧ (lo ≤ length u)%nat.
Proof.
  intros (Hu & Hlo & _)%lang_rep_cls Hs. split; [|done].
  eapply Forall_impl; [exact (proj2 (Forall_and _ _) (conj Hu Hs))|]. intros c [Hc Hsc].
  unfold scan_char in Hsc. apply andb_prop in Hsc as [_ Hsc].
  unfold class_has in Hc. cbn [existsb item_has chr] in Hc. cbn [andb] in Hc.
  unfold phone_blank. cbn [existsb] in *.
  destruct (is_whitespace c); cbn [implb orb] in *; bools; lia.
Qed.

(** What a part of a phone number contributes: candidates, [n] digits, a separator. *)
Definition phone_part (n : Z) (sep : bool) (u : str) : Prop :=
  Forall (λ c, candidate c = true) u ∧ n ≤ digits_in u
  ∧ (sep = true → existsb (λ c, negb (is_ascii_digit c)) u = true).

Lemma phone_part_app n m sep sep' u v :
  phone_part n sep u → phone_part m sep' v → phone_part (n + m) (sep || sep') (u ++ v).
Proof.
  intros (Hu & Hn & Hs) (Hv & Hm & Hs'). split_and!.
  - by apply Forall_app.
  - rewrite digits_in_app. lia.
  - rewrite existsb_app. intros [?|?]%orb_prop; rewrite orb_true_iff; auto.
Qed.

Lemma phone_part_digits lo hi u :
  lang (Rep digit lo hi) u → Forall (λ c, scan_char c = true) u → phone_part (Z.of_nat lo) false u.
Proof.
  intros Hu Hs. destruct (digits_of_word _ _ _ Hu Hs) as [Hd Hlo].
  split_and!; [by apply digits_candidate|rewrite digits_in_all by done; lia|done].
Qed.

Lemma phone_part_gap lo hi u :
  lang (Rep phone_gap lo hi) u → Forall (λ c, scan_char c = true) u →
  phone_part 0 (negb (Nat.eqb lo 0)) u.
Proof.
  intros Hu Hs. destruct (gaps_of_word _ _ _ Hu Hs) as [Hb Hlo]. split_and!.
  - eapply Forall_impl; [exact Hb|]. intros c Hc. unfold candidate. rewrite Hc. apply orb_true_r.
  - apply digits_in_nonneg.
  - destruct (Nat.eqb_spec lo 0); [done|]. intros _. destruct Hb as [|c u Hc _]; [cbn in Hlo; lia|].
    cbn. unfold phone_blank in Hc. cbn in Hc.
    replace (is_ascii_digit c) with false; [done|]. unfold is_ascii_digit. bools; lia.
Qed.

Lemma phone_part_mark c u : phone_mark c = true → lang (Cls false [chr c]) u → phone_part 0 true u.
Proof.
  intros Hc (d & -> & ->%one_char). split_and!.
  - constructor; [unfold candidate; rewrite Hc; by rewrite orb_true_r|constructor].
  - apply digits_in_nonneg.
  - intros _. cbn. unfold phone_mark in Hc. cbn in Hc.
    replace (is_ascii_digit c) with false; [done|]. unfold is_ascii_digit. bools; lia.
Qed.

(** The country code, when there is one, starts with a plus sign. *)
Lemma country_code_part u :
  lang (opt (seq_of [Cls false [chr 43]; Rep digit 1 (Some 3%nat); star phone_gap])) u →
  Forall (λ c, scan_char c = true) u →
  u = [] ∨ phone_part 1 true u ∧ ∃ t, u = 43 :: t.
Proof.
  intros (ws & -> & Hws & _ & Hlen) Hs.
  destruct ws as [|v [|? ?]]; [by left| |cbn in Hlen; lia]. right.
  cbn [concat] in *. rewrite app_nil_r in *.
  apply Forall_cons in Hws as [(p & r & -> & Hp & d & r' & -> & Hd & g & r'' & -> & Hg & Hr) _].
  cbn in Hr. subst r''. rewrite app_nil_r in *. rewrite !Forall_app in Hs. destruct Hs as (_ & Hsd & Hsg).
  split.
  - apply (phone_part_app 0 1 true false); [by apply (phone_part_mark 43)|].
    apply (phone_part_app 1 0 false false); [by eapply (phone_part_digits 1)|].
    by eapply (phone_part_gap 0).
  - destruct Hp as (c & -> & ->%one_char). eauto.
Qed.

(** The area code has three digits, a separator and no leading blank. *)
Lemma area_code_part u :
  lang (Alt (seq_of [Cls false [chr 40]; Rep digit 3 (Some 3%nat); Cls false [chr 41]; star phone_gap])
            (seq_of [Rep digit 3 (Some 4%nat); plus phone_gap])) u →
  Forall (λ c, scan_char c = true) u →
  phone_part 3 true u ∧ ∃ c t, u = c :: t ∧ is_ascii_digit c || phone_mark c = true.
Proof.
  intros [(o & r & -> & Ho & d & r1 & -> & Hd & c & r2 & -> & Hc & g & r3 & -> & Hg & Hr)
         |(d & r & -> & Hd & g & r' & -> & Hg & Hr)] Hs.
  - cbn in Hr. subst r3. rewrite app_nil_r in *. rewrite !Forall_app in Hs.
    destruct Hs as (_ & Hsd & _ & Hsg). split.
    + apply (phone_part_app 0 3 true true); [by apply (phone_part_mark 40)|].
      apply (phone_part_app 3 0 false true); [by eapply (phone_part_digits 3)|].
      apply (phone_part_app 0 0 true false); [by apply (phone_part_mark 41)|].
      by eapply (phone_part_gap 0).
    + destruct Ho as (x & -> & ->%one_char). by eexists _, _.
  - cbn in Hr. subst r'. rewrite app_nil_r in *. rewrite !Forall_app in Hs.
    destruct Hs as (Hsd & Hsg). split.
    + apply (phone_part_app 3 0 false true); [by eapply (phone_part_digits 3)|].
      by eapply (phone_part_gap 1).
    + destruct (digits_of_word _ _ _ Hd Hsd) as [Hdd Hlo].
      destruct Hdd as [|x d Hx _]; [cbn in Hlo; lia|]. exists x, (d ++ g). by rewrite Hx.
Qed.

Lemma separated_word_shape w :
  lang SEPARATED_PHONE_REGEX w → Forall (λ c, scan_char c = true) w → phone_shape w.
Proof.
  intros (cc & r & -> & Hcc & ar & r1 & -> & Har & d1 & r2 & -> & Hd1 & g & r3 & -> & Hg & d2 & r4 & -> & Hd2 & Hr) Hs.
  cbn in Hr. subst r4. rewrite app_nil_r in *. rewrite !Forall_app in Hs.
  destruct Hs as (Hscc & Hsar & Hsd1 & Hsg & Hsd2).
  apply country_code_part in Hcc; [|done]. apply area_code_part in Har as [Har (ch & ct & -> & Hch)]; [|done].
  destruct (digits_of_word _ _ _ Hd2 Hsd2) as [Hdd Hlo].
  destruct d2 as [|x e _] using rev_ind; [cbn in Hlo; lia|].
  rewrite length_app in Hlo. cbn in Hlo. apply Forall_app in Hdd as [He Hx].
  assert (phone_part 3 false e) as Hep.
  { split_and!; [by apply digits_candidate|rewrite digits_in_all by done; lia|done]. }
  pose proof (phone_part_gap 0 None g Hg Hsg) as Hgp.
  pose proof (phone_part_digits 3 _ d1 Hd1 Hsd1) as Hd1p.
  pose proof (phone_part_app _ _ _ _ _ _ Har
    (phone_part_app _ _ _ _ _ _ Hd1p (phone_part_app _ _ _ _ _ _ Hgp Hep))) as Hrest.
  assert (∃ c t, cc ++ (ch :: ct) ++ d1 ++ g ++ e = c :: t ∧ is_ascii_digit c || phone_mark c = true) as Hhd.
  { destruct Hcc as [->|[_ [t ->]]]; cbn; by eexists _, _. }
  exists (cc ++ (ch :: ct) ++ d1 ++ g ++ e), x. split; [by rewrite <-!app_assoc|].
  split; [by apply Forall_cons in Hx as [Hx _]|].
  assert (phone_part 9 true (cc ++ (ch :: ct) ++ d1 ++ g ++ e)) as (? & ? & ?); [|by auto].
  destruct Hcc as [->|[Hcc _]]; [exact Hrest|].
  destruct (phone_part_app _ _ _ _ _ _ Hcc Hrest) as (? & ? & ?). split_and!; [done|lia|done].
Qed.

(** *** E-mail addresses *)

Lemma email_signal a w b : lang EMAIL_REGEX w → contains [64] (a ++ w ++ b) = true.
Proof.
  intros (e & r & -> & -> & u & r1 & -> & _ & at_sign & r2 & -> & (c & -> & ->%one_char) & _).
  rewrite (app_assoc a). cbn [app]. rewrite <-!app_assoc. cbn [app].
  rewrite (app_assoc a). exact (contains_infix [64] (a ++ u) (r2 ++ b)).
Qed.

(** *** Compact phone numbers *)

Lemma compact_scan_digits n ds bs :
  0 ≤ n → Forall (λ c, is_ascii_digit c = true) ds → 10 ≤ n + Z.of_nat (length ds) → ds ≠ [] →
  compact_scan n (ds ++ bs) = true.
Proof.
  intros Hn Hds. revert n Hn. induction Hds as [|c ds Hc Hds IH]; intros n Hn Hlen Hne; [done|].
  cbn in *. rewrite Hc. destruct (10 <=? n + 1) eqn:E; [done|]. bools.
  destruct ds as [|d ds]; [cbn in Hlen; lia|]. apply IH; [lia|cbn in *; lia|done].
Qed.

Lemma compact_scan_prefix bs rest n :
  0 ≤ n → (∀ m, 0 ≤ m → compact_scan m rest = true) → compact_scan n (bs ++ rest) = true.
Proof.
  intros Hn Hrest. revert n Hn. induction bs as [|b bs IH]; intros n Hn; cbn; [auto|].
  destruct (is_ascii_digit b); [destruct (10 <=? n + 1); [done|]|]; apply IH; lia.
Qed.

Lemma compact_signal a w b :
  lang COMPACT_PHONE_REGEX w → Forall (λ c, scan_char c = true) w →
  contains_compact_phone_signal (a ++ w ++ b) = true.
Proof.
  intros (p & r & -> & _ & o & r1 & -> & _ & ds & r2 & -> & Hds & bd & r3 & -> & Hbd & Hr) Hs.
  cbn in Hbd, Hr. subst bd r3. cbn [app] in *. rewrite !Forall_app in Hs. destruct Hs as (_ & _ & Hs & _).
  destruct (digits_of_word _ _ _ Hds Hs) as [Hd Hlen]. unfold contains_compact_phone_signal.
  replace (a ++ (p ++ o ++ ds ++ []) ++ b) with ((a ++ p ++ o) ++ ds ++ b)
    by (by rewrite app_nil_r, <-!app_assoc).
  rewrite utf8_infix by (eapply Forall_impl; [exact (digits_candidate _ Hd)|apply candidate_low]).
  apply compact_scan_prefix; [lia|]. intros m Hm. apply compact_scan_digits; [lia|done|lia|].
  intros ->. cbn in Hlen. lia.
Qed.

(** *** Literals read without case *)

Lemma any_window_infix needle a x b :
  map char_to_ascii_lowercase x = map char_to_ascii_lowercase needle →
  any_window needle (a ++ x ++ b) = true.
Proof.
  intros Hx. assert (length x = length needle) as Hlen.
  { apply (f_equal length) in Hx. by rewrite !length_map in Hx. }
  induction a as [|c a IH]; cbn [app].
  - assert (take (length needle) (x ++ b) = x) as Ht by (by rewrite <-Hlen, take_app_length).
    destruct (x ++ b) eqn:E; cbn [any_window]; rewrite Ht, bool_decide_true by done; done.
  - cbn [any_window]. rewrite IH. apply orb_true_r.
Qed.

Lemma folded_char c d : class_has true [chr c] d = true → d = c ∨ fold_eq c d = true.
Proof.
  unfold class_has, chr. cbn [existsb item_has].
  assert (seqZ c (c - c + 1) = [c]) as ->.
  { replace (c - c + 1) with 1 by lia. unfold seqZ. cbn. done. }
  cbn [existsb andb]. rewrite !orb_false_r. intros [[? ?]%andb_prop|?]%orb_prop; [left; bools; lia|by right].
Qed.

(** Lower-case letters other than [k] and [s]. *)
Definition plain_letter (c : char) : bool :=
  is_ascii_lowercase c && negb (c =? 107) && negb (c =? 115).

Lemma plain_word s w :
  forallb plain_letter s = true → lang (word_of true s) w →
  Forall (λ c, c < 0x80) w ∧ map char_to_ascii_lowercase w = s.
Proof.
  intros Hs HF%lang_word. induction HF as [|c d s w Hc HF IH]; [done|].
  cbn in Hs. apply andb_prop in Hs as [Hp Hs]. destruct (IH Hs) as [IH1 IH2].
  unfold plain_letter in Hp. apply andb_prop in Hp as [[Hl Hk]%andb_prop Hss]. bools.
  assert (char_to_ascii_lowercase d = c) as Hd.
  { apply folded_char in Hc as [->|Hc]; [|by apply fold_letter].
    unfold char_to_ascii_lowercase, is_ascii_uppercase, is_ascii_lowercase in *. bools.
    by replace (c <=? 90) with false by lia; rewrite andb_false_r. }
  split; [|cbn; by rewrite Hd, IH2]. constructor; [|done].
  unfold char_to_ascii_lowercase, is_ascii_lowercase, is_ascii_uppercase in *.
  destruct (_ && _) eqn:E in Hd; bools; lia.
Qed.

Lemma cjk_word s w : forallb is_cjk s = true → lang (word_of true s) w → w = s.
Proof.
  intros Hs HF%lang_word. induction HF as [|c d s w Hc HF IH]; [done|].
  cbn in Hs. apply andb_prop in Hs as [Hp Hs]. rewrite (IH Hs).
  apply folded_char in Hc as [->|Hc]; [done|]. by rewrite (fold_cjk c d).
Qed.

Lemma literal_keeps s w c :
  lang (word_of true s) w → c ∈ s → 0 ≤ c < 128 → is_ascii_alphabetic c = false → c ∈ w.
Proof.
  intros HF%lang_word Hc Hr Ha. induction HF as [|x d s w Hx HF IH]; [by apply elem_of_nil in Hc|].
  apply elem_of_cons in Hc as [->|Hc]; [|right; auto].
  apply folded_char in Hx as [->|Hx]; [left|]. rewrite (fold_caseless x d) by done. left.
Qed.

Lemma insensitive_word needle a w b :
  forallb plain_letter needle = true → lang (word_of true needle) w →
  contains_ascii_case_insensitive (a ++ w ++ b) needle = true.
Proof.
  intros Hp Hw. destruct (plain_word _ _ Hp Hw) as [Hlow Hm].
  unfold contains_ascii_case_insensitive. rewrite utf8_infix by done.
  apply any_window_infix. rewrite Hm. rewrite <-Hm, map_map. apply map_ext.
  intros c. by rewrite char_to_ascii_lowercase_idemp.
Qed.

Lemma wechat_signal a w b : lang WECHAT_REGEX w → contains_wechat_signal (a ++ w ++ b) = true.
Proof.
  intros (e & r & -> & He & u & r1 & -> & Hu & _). cbn in He. subst e. cbn [app]. rewrite <-app_assoc.
  unfold contains_wechat_signal. destruct Hu as [Hu|[Hu|[Hu|[Hu|Hu]]]].
  - rewrite (insensitive_word (lit "wechat")) by done. by rewrite orb_true_r.
  - rewrite (insensitive_word (lit "weixin")) by done. by rewrite orb_true_r.
  - rewrite (insensitive_word (lit "wx")) by done. by rewrite orb_true_r.
  - rewrite (cjk_word _ _ (eq_refl : forallb is_cjk (lit "微信") = true) Hu).
    by rewrite contains_infix.
  - rewrite (cjk_word _ _ (eq_refl : forallb is_cjk (lit "微信号") = true) Hu).
    change (lit "微信号") with (lit "微信" ++ lit "号"). rewrite <-app_assoc.
    by rewrite contains_infix.
Qed.

(** *** Local paths *)

Definition path_mark (c : char) : bool := existsb (Z.eqb c) [47; 92; 126].

Lemma literal_mark s w :
  existsb path_mark s = true → lang (word_of true s) w → ∃ c, c ∈ w ∧ path_mark c = true.
Proof.
  intros (c & Hc & Hm)%existsb_exists Hw. exists c. split; [|done].
  apply list_elem_of_In in Hc. unfold path_mark in Hm. cbn in Hm.
  apply (literal_keeps s); [done..| |]; unfold is_ascii_alphabetic, is_ascii_uppercase,
    is_ascii_lowercase; bools; try lia; subst; done.
Qed.

Lemma class_mark c items w :
  Forall (λ c, path_mark c = true) (c :: items) →
  lang (Cls true (map chr (c :: items))) w → ∃ x, x ∈ w ∧ path_mark x = true.
Proof.
  intros Hm (d & -> & (i & Hi & Hd)%existsb_exists). exists d. split; [left|].
  apply in_map_iff in Hi as (m & <- & Hin%list_elem_of_In). rewrite Forall_forall in Hm.
  specialize (Hm _ Hin). assert (class_has true [chr m] d = true) as Hf.
  { unfold class_has. cbn [existsb]. by rewrite Hd. }
  enough (d = m) as -> by done. apply folded_char in Hf as [?|Hf]; [done|].
  apply fold_caseless; [..|done]; unfold path_mark in Hm; cbn in Hm;
    unfold is_ascii_alphabetic, is_ascii_uppercase, is_ascii_lowercase; bools; try lia; subst; done.
Qed.

Definition marked (w : str) : Prop := ∃ c, c ∈ w ∧ path_mark c = true.

Lemma marked_l u v : marked u → marked (u ++ v).
Proof. intros (c & Hc & Hm). exists c. split; [apply elem_of_app; by left|done]. Qed.

Lemma marked_r u v : marked v → marked (u ++ v).
Proof. intros (c & Hc & Hm). exists c. split; [apply elem_of_app; by right|done]. Qed.

Lemma path_word_marked w : lang LOCAL_PATH_REGEX w → marked w.
Proof.
  intros [(u & v & -> & Hu & _)|[(u & v & -> & Hu & _)|[Hw|Hw]]].
  - apply marked_l. by apply (literal_mark (lit "file://")).
  - apply marked_l. destruct Hu as [Hu|[Hu|[Hu|[Hu|[Hu|[Hu|Hu]]]]]];
      [by eapply literal_mark; [|exact Hu]..|].
    destruct Hu as (d & r & -> & _ & c & r1 & -> & _ & m & r2 & -> & Hm & _).
    do 2 apply marked_r. apply marked_l. apply (class_mark 92 [47]); [by repeat constructor|done].
  - destruct Hw as (b & r & -> & _ & d & r1 & -> & _ & c & r2 & -> & _ & m & r3 & -> & Hm & _).
    do 3 apply marked_r. apply marked_l. apply (class_mark 92 []); [by repeat constructor|done].
  - destruct Hw as (u & r & -> & _ & m & r1 & -> & Hm & _). apply marked_r, marked_l.
    destruct Hm as [Hm|[Hm|[Hm|Hm]]]; by eapply literal_mark; [|exact Hm].
Qed.

Lemma path_signal a w b : lang LOCAL_PATH_REGEX w → contains_local_path_signal (a ++ w ++ b) = true.
Proof.
  intros (c & Hc & Hm)%path_word_marked. unfold contains_local_path_signal.
  apply (existsb_utf8 _ c); [|set_solver|done]. unfold path_mark in Hm. cbn in Hm. bools; lia.
Qed.
End signals.

(** A placeholder between angle brackets separates runs. *)
Lemma run_ok_placeholder n s : run_ok n (REDACTED_EMAIL ++ s) = run_ok 0 s.
Proof. reflexivity. Qed.

Lemma run_ok_pieces pieces : ∀ m n, 0 ≤ m ≤ n →
  run_ok n (concat (map before_cut pieces)) = true →
  run_ok m (concat (map (after_cut REDACTED_EMAIL) pieces)) = true.
Proof.
  induction pieces as [|[s|s] pieces IH]; intros m n Hmn; cbn [map concat before_cut after_cut]; [done|..].
  - revert m n Hmn. induction s as [|c s IHs]; intros m n Hmn; cbn [app]; [by apply IH|].
    cbn [run_ok]. destruct (candidate c); [|by apply IHs].
    intros [Hn Hs]%andb_prop. bools. apply andb_true_intro.
    split; [lia|]. by apply (IHs (m + 1) (n + 1)); [lia|].
  - intros (k & Hk & Hs)%run_ok_app; [|lia]. rewrite run_ok_placeholder. by apply (IH 0 k); [lia|].
Qed.

(** ** The guards are exact *)

Section exactness.
Context `{RegexEngineLaws}.

(** The five replacements without their scans. *)
Definition redact_unguarded (text : str) : Cow :=
  match fold_left (λ redacted '(regex, replacement), replace_redaction redacted text regex replacement)
          [(EMAIL_REGEX, REDACTED_EMAIL); (SEPARATED_PHONE_REGEX, REDACTED_PHONE);
           (COMPACT_PHONE_REGEX, REDACTED_PHONE); (WECHAT_REGEX, REDACTED_WECHAT);
           (LOCAL_PATH_REGEX, REDACTED_PATH)] None with
  | Some value => Owned value
  | None => Borrowed text
  end.

(** A scan that answers whenever the pattern matches may guard the replacement. *)
Lemma guarded_stage (signal : str → bool) current original regex replacement :
  (∀ a w b, redacted_text original current = a ++ w ++ b → lang regex w → signal (a ++ w ++ b) = true) →
  (if signal (redacted_text original current)
   then replace_redaction current original regex replacement else current)
  = replace_redaction current original regex replacement.
Proof.
  intros Hsig. destruct (signal _) eqn:E; [done|]. unfold replace_redaction.
  destruct (replace_all _ _ _) as [v|] eqn:Er; [|done].
  destruct (is_match regex (redacted_text original current)) eqn:Em.
  - apply is_match_lang in Em as (a & w & b & Ht & Hw).
    pose proof (Hsig a w b Ht Hw) as Hs. rewrite <-Ht in Hs. congruence.
  - apply (replace_all_borrowed _ _ replacement) in Em. congruence.
Qed.

(** Cutting matches out keeps a property of characters. *)
Lemma replaced_chars (P : char → Prop) current original regex replacement :
  existsb (Z.eqb 36) replacement = false →
  Forall P replacement → Forall P (redacted_text original current) →
  Forall P (redacted_text original (replace_redaction current original regex replacement)).
Proof.
  intros Hexp Hrep Hcur. unfold replace_redaction. destruct (replace_all _ _ _) as [v|] eqn:E; [|done].
  apply replace_all_owned in E as (pieces & Ht & ->); [|done]. cbn. rewrite Ht in Hcur. clear Ht.
  induction pieces as [|[s|s] pieces IH]; cbn in *; [done|..];
    apply Forall_app in Hcur as [Hs Hcur]; apply Forall_app; auto.
Qed.

Lemma replaced_runs current original regex :
  run_ok 0 (redacted_text original current) = true →
  run_ok 0 (redacted_text original (replace_redaction current original regex REDACTED_EMAIL)) = true.
Proof.
  intros Hcur. unfold replace_redaction. destruct (replace_all _ _ _) as [v|] eqn:E; [|done].
  apply replace_all_owned in E as (pieces & Ht & ->); [|done]. cbn [redacted_text default]. rewrite Ht in Hcur.
  by apply (run_ok_pieces _ 0 0).
Qed.

(** Characters of a placeholder: neither digits nor spaces. *)
Definition marker_char (c : char) : bool :=
  (0 <=? c) && (c <? 128) && negb (is_ascii_digit c) && negb (is_whitespace c).

Lemma marker_scan_chars s : forallb marker_char s = true → Forall (λ c, scan_char c = true) s.
Proof.
  induction s as [|c s IH]; cbn [forallb]; [done|]. intros [Hc Hs]%andb_prop. constructor; [|auto].
  unfold marker_char in Hc. apply andb_prop in Hc as [[[? ?]%andb_prop Hd]%andb_prop Hw]. bools.
  unfold scan_char. rewrite re_digit_ascii by lia.
  destruct (is_ascii_digit c); [done|]. by destruct (is_whitespace c).
Qed.

Lemma infix_chars (P : char → Prop) t a w b : Forall P t → t = a ++ w ++ b → Forall P w.
Proof. intros Ht ->. rewrite !Forall_app in Ht. tauto. Qed.

(** C17: on texts whose decimal digits and white space are ASCII ones of the scans and
    whose runs of phone characters have at most 32 characters, the scans in front of the
    patterns never hide a match: the redaction is the five replacements themselves. *)
Theorem redaction_guards_exact text :
  forallb scan_char text = true → run_ok 0 text = true →
  redact_contact_values text = redact_unguarded text.
Proof.
  intros Hchars Hruns. rewrite forallb_forall in Hchars.
  assert (Forall (λ c, scan_char c = true) (redacted_text text None)) as Hc0.
  { apply Forall_forall. intros c Hc. apply Hchars. by apply list_elem_of_In. }
  clear Hchars. unfold redact_contact_values, redact_unguarded. cbn [fold_left]. cbv zeta.
  change (contains [64] text) with (contains [64] (redacted_text text None)).
  rewrite (guarded_stage (contains [64])) by (intros; by apply email_signal).
  pose proof (replaced_runs None text EMAIL_REGEX Hruns) as Hr1.
  assert (Forall (λ c, scan_char c = true) (redacted_text text (replace_redaction None text EMAIL_REGEX REDACTED_EMAIL)))
    as Hc1 by (apply replaced_chars; [done|by apply marker_scan_chars|done]).
  set (t1 := replace_redaction None text EMAIL_REGEX REDACTED_EMAIL) in *.
  rewrite (guarded_stage contains_separated_phone_signal).
  2: { intros a w b Ht Hw. apply separated_signal_found; [by rewrite <-Ht|].
       apply separated_word_shape; [done|]. by eapply infix_chars. }
  assert (Forall (λ c, scan_char c = true) (redacted_text text (replace_redaction t1 text SEPARATED_PHONE_REGEX REDACTED_PHONE)))
    as Hc2 by (apply replaced_chars; [done|by apply marker_scan_chars|done]).
  set (t2 := replace_redaction t1 text SEPARATED_PHONE_REGEX REDACTED_PHONE) in *.
  rewrite (guarded_stage contains_compact_phone_signal).
  2: { intros a w b Ht Hw. apply compact_signal; [done|]. by eapply infix_chars. }
  rewrite (guarded_stage contains_wechat_signal) by (intros; by apply wechat_signal).
  by rewrite (guarded_stage contains_local_path_signal) by (intros; by apply path_signal).
Qed.
End exactness.

(** ** A phone number the scan misses *)

(** Patterns read with case, without Unicode word boundaries. *)
Fixpoint plain_re (r : re) : bool :=
  match r with
  | Eps => true
  | Cls ignore_case _ => negb ignore_case
  | Seq r s | Alt r s => plain_re r && plain_re s
  | Rep r _ _ => plain_re r
  | Bound ascii => ascii
  end.

(** The ASCII part of the tables. *)
Definition ascii_tables : RegexTables := {|
  re_digit := is_ascii_digit;
  re_word c := is_ascii_alphanumeric c || (c =? 95);
  fold_eq c d := char_to_ascii_lowercase c =? char_to_ascii_lowercase d;
|}.

Definition ascii_place (p : place) : Prop := Forall (λ c, 0 ≤ c < 128) p.2.

Lemma repeat_ends_ext (step step' : place → list place) (P : place → Prop) fuel :
  (∀ p, P p → step p = step' p) → (∀ p q, P p → q ∈ step' p → P q) →
  ∀ lo p, P p → repeat_ends step lo fuel p = repeat_ends step' lo fuel p.
Proof.
  intros Heq Hcl. induction fuel as [|fuel IH]; intros lo p Hp; cbn; [done|].
  rewrite (Heq p Hp). f_equal. apply Forall_bind_ext, Forall_forall. intros q Hq. eauto.
Qed.

Lemma ends_ascii `{RegexTablesLaws} r : ∀ p,
  plain_re r = true → ascii_place p → ends r p = @ends ascii_tables r p.
Proof.
  assert (∀ r p q, ascii_place p → q ∈ @ends ascii_tables r p → ascii_place q) as Hcl.
  { intros r' p q Hp (w & Hw & _)%ends_lang. unfold ascii_place in *. rewrite Hw in Hp.
    by apply Forall_app in Hp as [_ Hp]. }
  induction r as [|i items|r IHr s IHs|r IHr s IHs|r IH lo hi|a]; intros p Hr Hp; cbn in *.
  - done.
  - destruct i; [done|]. destruct (p.2) as [|c t] eqn:E; [done|].
    unfold ascii_place in Hp. rewrite E in Hp. apply Forall_cons in Hp as [Hc _].
    assert (class_has false items c = @class_has ascii_tables false items c) as ->; [|done].
    unfold class_has. induction items as [|[] items IHi]; cbn; try (by rewrite IHi); [done|].
    rewrite IHi. by rewrite re_digit_ascii.
  - apply andb_prop in Hr as [Hr Hs]. rewrite (IHr p) by done.
    apply Forall_bind_ext, Forall_forall. intros q Hq. eauto.
  - apply andb_prop in Hr as [Hr Hs]. by rewrite (IHr p), (IHs p).
  - apply (repeat_ends_ext _ _ ascii_place); eauto.
  - by destruct a.
Qed.

Lemma search_ascii `{RegexTablesLaws} r s : ∀ prev,
  plain_re r = true → ascii_str s = true → search r prev s = @search ascii_tables r prev s.
Proof.
  induction s as [|c s IH]; intros prev Hr Hs;
    (assert (ascii_place (prev, _)) as Hp by (by apply ascii_str_Forall));
    cbn [search]; rewrite (ends_ascii r _ Hr Hp); [done|].
  f_equal. apply IH; [done|]. cbn in Hs. by apply andb_prop in Hs as [_ Hs].
Qed.

Lemma replace_redaction_keeps `{RegexEngine} current text regex replacement :
  is_Some current → is_Some (replace_redaction current text regex replacement).
Proof. unfold replace_redaction. by destruct (replace_all _ _ _). Qed.

Lemma unguarded_phone_owned `{RegexEngineLaws} text :
  contains [64] text = false → is_match SEPARATED_PHONE_REGEX text = true →
  ∃ value, redact_unguarded text = Owned value.
Proof.
  intros Hat Hm. unfold redact_unguarded. cbn [fold_left].
  assert (replace_redaction None text EMAIL_REGEX REDACTED_EMAIL = None) as ->.
  { rewrite <-(guarded_stage (contains [64])) by (intros; by apply email_signal).
    cbn [redacted_text default]. by rewrite Hat. }
  assert (is_Some (replace_redaction None text SEPARATED_PHONE_REGEX REDACTED_PHONE)) as Hphone.
  { unfold replace_redaction. cbn [redacted_text default]. destruct (replace_all _ _ _) eqn:E; [eauto|].
    apply replace_all_borrowed in E. congruence. }
  edestruct (λ c, replace_redaction_keeps (replace_redaction (replace_redaction c text COMPACT_PHONE_REGEX REDACTED_PHONE)
    text WECHAT_REGEX REDACTED_WECHAT) text LOCAL_PATH_REGEX REDACTED_PATH) as [v ->]; [|by exists v].
  by do 2 apply replace_redaction_keeps.
Qed.

(** C36: a defect of the scan for separated phone numbers.  The count of candidate
    characters is dropped when it passes 32, in the middle of a number that follows a
    digit and a long rule: the pattern matches the number, and for every engine the
    text is returned as it is, the number included. *)
Theorem phone_after_long_rule_leaks `{RegexEngineLaws} :
  let text := lit "1 -------------------------- 415-555-2671" in
  is_match SEPARATED_PHONE_REGEX text = true
  ∧ redact_contact_values text = Borrowed text
  ∧ (∃ value, redact_unguarded text = Owned value).
Proof.
  assert (is_match SEPARATED_PHONE_REGEX (lit "1 -------------------------- 415-555-2671") = true) as Hm.
  { unfold is_match. rewrite search_ascii by done. vm_compute. reflexivity. }
  split_and!; [exact Hm|reflexivity|by apply unguarded_phone_owned].
Qed.

(** ** A leftmost-first engine and examples *)

Module RedactionDemo.

#[local] Instance sample_tables : RegexTables := {|
  re_digit c := is_ascii_digit c || ((0xFF10 <=? c) && (c <=? 0xFF19));
  re_word c := is_ascii_alphanumeric c || (c =? 95) || is_cjk c;
  fold_eq c d := char_to_ascii_lowercase c =? char_to_ascii_lowercase d;
|}.

Lemma lower_low c d : char_to_ascii_lowercase c = char_to_ascii_lowercase d →
  is_ascii_alphabetic c = false → d = c.
Proof.
  unfold char_to_ascii_lowercase, is_ascii_alphabetic, is_ascii_uppercase, is_ascii_lowercase.
  intros Heq [Hu Hl]%orb_false_iff. rewrite Hu in Heq. case_match; bools; lia.
Qed.

#[local] Instance sample_tables_laws : RegexTablesLaws.
Proof.
  split; cbn.
  - intros c Hc. replace (0xFF10 <=? c) with false by lia. by rewrite orb_false_r.
  - intros c d Hl _ _ He. bools. rewrite <-He. unfold char_to_ascii_lowercase, is_ascii_uppercase,
      is_ascii_lowercase in *. bools. replace (c <=? 90) with false by lia. by rewrite andb_false_r.
  - intros c d _ Ha He. bools. by apply lower_low.
  - intros c d Hc He. bools. apply lower_low; [done|].
    unfold is_cjk, is_ascii_alphabetic, is_ascii_uppercase, is_ascii_lowercase in *. bools.
    by replace (c <=? 90) with false by lia; replace (c <=? 122) with false by lia;
      rewrite !andb_false_r.
Qed.

(** The pieces of a text, taking the preferred match at the leftmost place. *)
Fixpoint pieces_from (fuel : nat) (r : re) (prev : option char) (s : str) : list piece :=
  match fuel with
  | O => [Keep s]
  | S fuel =>
      match ends r (prev, s) with
      | (prev', rest) :: _ =>
          let n := (length s - length rest)%nat in
          match n, s with
          | O, c :: s' => Cut [] :: Keep [c] :: pieces_from fuel r (Some c) s'
          | _, _ => Cut (take n s) :: pieces_from fuel r prev' (drop n s)
          end
      | [] =>
          match s with
          | [] => []
          | c :: s => Keep [c] :: pieces_from fuel r (Some c) s
          end
      end
  end.

Lemma pieces_from_text fuel r : ∀ prev s, concat (map before_cut (pieces_from fuel r prev s)) = s.
Proof.
  induction fuel as [|fuel IH]; intros prev s; cbn [pieces_from]; [cbn; apply app_nil_r|].
  destruct (ends r (prev, s)) as [|[prev' rest] qs]; [destruct s; [done|cbn; by rewrite IH]|].
  destruct (length s - length rest)%nat as [|n]; destruct s as [|c s]; cbn [map concat before_cut];
    rewrite ?IH; try done; by rewrite take_drop.
Qed.

#[local] Instance sample_engine : RegexEngine := {|
  replace_all r text replacement :=
    if is_match r text then
      Some (concat (map (after_cut replacement) (pieces_from (S (length text)) r None text)))
    else None;
|}.

#[local] Instance sample_engine_laws : RegexEngineLaws.
Proof.
  split; [apply sample_tables_laws|..].
  - intros r text replacement. cbn. by destruct (is_match r text).
  - intros r text replacement out _. cbn. destruct (is_match r text); [|done]. intros [= <-].
    exists (pieces_from (S (length text)) r None text). by rewrite pieces_from_text.
Qed.

Example contacts_are_redacted :
  redact_contact_values (lit "a@b.io (415) 555-0132 微信: abc_123")
  = Owned (lit "<redacted-email> <redacted-phone> <redacted-wechat>").
Proof. vm_compute. reflexivity. Qed.

Example paths_are_redacted :
  redact_contact_values (lit "see ~/cv.pdf") = Owned (lit "see <redacted-path>").
Proof. vm_compute. reflexivity. Qed.

(** Dates alone never reach the engine. *)
Example dates_are_borrowed :
  redact_contact_values (lit "2020-01 to 2024-12") = Borrowed (lit "2020-01 to 2024-12").
Proof. vm_compute. reflexivity. Qed.

Lemma redaction_guards_exact_witness :
  redact_contact_values (lit "tel 14155550132") = redact_unguarded (lit "tel 14155550132")
  ∧ redact_contact_values (lit "tel 14155550132") = Owned (lit "tel <redacted-phone>").
Proof.
  split; [apply redaction_guards_exact; reflexivity|vm_compute; reflexivity].
Defined.

Lemma phone_after_long_rule_leaks_witness :
  redact_contact_values (lit "1 -------------------------- 415-555-2671")
  = Borrowed (lit "1 -------------------------- 415-555-2671").
Proof. exact (proj1 (proj2 phone_after_long_rule_leaks)). Defined.
End RedactionDemo.
