(* ===== verification/SearchMetadata.v ===== *)
(** * Search metadata snapshots (crates/meta-store, search_snapshot)

    One read transaction over the search metadata: the ready head, the audit of
    the active projection, bounded filter selections and the hydration of exact
    hits.  SQLite itself is a parameter: [SearchConnection] has one field per
    SQL statement, giving the rows the statement returns in the transaction or
    [None] for a database error; everything around the statements is the code. *)

From Stdlib Require Import ZArith String Sorted.
From stdpp Require Import prelude.
From S2P Require Import Prelude Collections Float32 Text Identity.

Local Open Scope Z_scope.

(** ** Errors *)

Inductive MetaStoreErrorClass :=
| Storage | Migration | MigrationOwnershipRequired | UnsupportedStoreSchema
| InvalidValue | NotFoundError | InvalidTransition | ImmutableIdentityConflict
| StorageInvariant | WeakPassphrase | InvalidBackup | Crypto | KeyAlreadyExists.

#[export] Instance MetaStoreErrorClass_eq_dec : EqDecision MetaStoreErrorClass.
Proof. solve_decision. Defined.

Inductive SearchRepairReason :=
| MigrationRebuild | ArtifactUnavailable | SourceUnavailable | RuntimeInvariant.

Inductive SearchMetadataUnavailable :=
| Repairing (reason : SearchRepairReason)
| RepairBlocked (reason : SearchRepairReason).

Inductive SearchMetadataTransactionError (E : Type) :=
| TxUnavailable (unavailable : SearchMetadataUnavailable)
| TxStore (error : MetaStoreErrorClass)
| TxOperation (error : E).
Arguments TxUnavailable {E} unavailable.
Arguments TxStore {E} error.
Arguments TxOperation {E} error.

(** [SearchMetadataOpenError]. *)
Inductive SearchMetadataOpenError :=
| OpenUnavailable (unavailable : SearchMetadataUnavailable)
| OpenStore (error : MetaStoreErrorClass).

(** ** Publications *)

Inductive SearchPublicationState := Preparing | Validated | Ready | Abandoned.

#[export] Instance SearchPublicationState_eq_dec : EqDecision SearchPublicationState.
Proof. solve_decision. Defined.

Record FullTextSnapshotDescriptor := MkFullTextDescriptor {
  ftd_generation : str;
  ftd_document_count : Z;
  ftd_projection_digest : ContentDigest;
  ftd_logical_content_digest : ContentDigest;
}.

Inductive VectorSnapshotMode :=
| ModeDisabled
| ModeEnabled (model_id : str) (dimension : Z).

Record VectorSnapshotDescriptor := MkVectorDescriptor {
  vd_generation : str;
  vd_mode : VectorSnapshotMode;
  vd_projection_count : Z;
  vd_projection_digest : ContentDigest;
  vd_coverage_digest : ContentDigest;
  vd_vector_count : Z;
  vd_document_count : Z;
  vd_resume_version_count : Z;
  vd_logical_content_digest : ContentDigest;
}.

Record SearchPublicationRecord := MkPublication {
  pub_generation : str;
  pub_base_generation : option str;
  pub_expected_visible_epoch : Z;
  pub_classifier_epoch : str;
  pub_projection_digest : ContentDigest;
  pub_fingerprint : option ContentDigest;
  pub_state : SearchPublicationState;
  pub_fulltext : option FullTextSnapshotDescriptor;
  pub_vector : option VectorSnapshotDescriptor;
  pub_created_at : Z;
  pub_updated_at : Z;
}.

Record SearchMetadataHead := MkHead {
  head_generation : str;
  head_visible_epoch : Z;
  head_publication : SearchPublicationRecord;
}.

(** ** Documents, mentions and selections (crates/core-domain) *)

Record ActiveSearchProjection := MkProjection {
  proj_document_id : StableId DocumentId;
  proj_resume_version_id : StableId ResumeVersionId;
}.

#[export] Instance ActiveSearchProjection_eq_dec : EqDecision ActiveSearchProjection.
Proof. solve_decision. Defined.

Record SearchSelection := MkSelection {
  sel_document_id : StableId DocumentId;
  sel_resume_version_id : StableId ResumeVersionId;
  sel_visible_epoch : Z;
}.

Inductive FileExtension := Docx | Pdf | Doc | Txt | Image | OtherExtension (value : str).

Inductive DocumentStatus :=
| Discovered | Fingerprinted | ParseQueued | ParseRunning | TextExtracted
| OcrRequired | OcrRunning | OcrDone | TextCleaned | FieldsExtracted
| EmbeddingDone | IndexedPartial | Searchable | Excluded | FailedRetryable
| FailedPermanent | Deleted.

Record Document := MkDocument {
  doc_id : StableId DocumentId;
  doc_source_uri : str;
  doc_normalized_path : str;
  doc_file_name : str;
  doc_extension : FileExtension;
  doc_byte_size : Z;
  doc_mtime : Z;
  doc_content_hash : option str;
  doc_text_hash : option str;
  doc_is_deleted : bool;
  doc_created_at : Z;
  doc_updated_at : Z;
  doc_status : DocumentStatus;
}.

Inductive EntityType :=
| EName | EEmail | EPhone | EWeChat | ESchool | ESchoolTier | EDegree | EMajor
| ECompany | ETitle | EEducation | ESkills | ESkill | ECertificate | EDate
| EDateRange | EYearsExperience | ELocation | EOther (name : str).

Record EntityMention := MkMention {
  mention_id : StableId EntityMentionId;
  mention_resume_version_id : StableId ResumeVersionId;
  mention_section_id : option (StableId SectionId);
  mention_entity_type : EntityType;
  mention_raw_value : str;
  mention_normalized_value : option str;
  mention_span_start : option Z;
  mention_span_end : option Z;
  mention_confidence : f32;
  mention_extractor : str;
}.

(** ** Filters *)

Definition MAX_SEARCH_FILTER_PREDICATES : Z := 32.
Definition MAX_SEARCH_FILTER_VALUES : Z := 64.
Definition MAX_BOUNDED_FILTER_SELECTION : Z := 100000.
Definition MAX_EXACT_HIT_HYDRATION : Z := 256.
Definition MAX_SEARCH_FILTER_VALUE_BYTES : Z := 4 * 1024.

Inductive SearchFilterCase := CaseExact | CaseAsciiInsensitive.

Inductive SearchProjectionPredicate :=
| EntityValuesAny (entity_type : EntityType) (normalized_values : list str)
    (min_confidence : f32) (case : SearchFilterCase)
| EntityValuesAnyOrMissing (entity_type : EntityType) (normalized_values : list str)
    (min_confidence : f32) (case : SearchFilterCase)
| NumericEntityMinimum (entity_type : EntityType) (minimum min_confidence : f32)
| DateRangeOverlap (start_month : Z) (end_month : option Z) (min_confidence : f32)
| ContactHashesAny (values : list ContactHash)
| MissingEntityType (entity_type : EntityType) (min_confidence : f32).

Record SearchProjectionFilter := MkProjectionFilter {
  predicates : list SearchProjectionPredicate;
}.

Inductive SearchProjectionFilterError :=
| TooManyPredicates | EmptyValues | TooManyValues | ValueTooLarge
| InvalidConfidence | InvalidNumericMinimum | InvalidDateRange.

(** [values.len()] and [.map(f).sum()]. *)
Definition len {A} (l : list A) : Z := Z.of_nat (length l).
Definition sum_Z {A} (f : A → Z) (l : list A) : Z := foldr (λ x acc, f x + acc) 0 l.

Definition validate_values (values : list str) : result unit SearchProjectionFilterError :=
  if len values =? 0 then Err EmptyValues
  else if MAX_SEARCH_FILTER_VALUES <? len values then Err TooManyValues
  else if existsb (λ value, is_empty value || (MAX_SEARCH_FILTER_VALUE_BYTES <? str_len value)) values
  then Err ValueTooLarge
  else Ok tt.

(** [(0.0..=1.0).contains(&value)]: [0.0 <= value && value <= 1.0]. *)
Definition validate_confidence (value : f32) : result unit SearchProjectionFilterError :=
  if f32_is_finite value
     && (f32_le (f32_of_Z 0) value && f32_le value (f32_of_Z 1))
  then Ok tt else Err InvalidConfidence.

Definition validate_predicate (predicate : SearchProjectionPredicate)
    : result unit SearchProjectionFilterError :=
  match predicate with
  | EntityValuesAny _ normalized_values min_confidence _
  | EntityValuesAnyOrMissing _ normalized_values min_confidence _ =>
      let? _ := validate_values normalized_values in
      validate_confidence min_confidence
  | NumericEntityMinimum _ minimum min_confidence =>
      if negb (f32_is_finite minimum) then Err InvalidNumericMinimum
      else validate_confidence min_confidence
  | DateRangeOverlap start_month end_month min_confidence =>
      let end_month := default i32_MAX end_month in
      if (start_month <? 1900 * 12 + 1) || (end_month <? start_month) then Err InvalidDateRange
      else validate_confidence min_confidence
  | ContactHashesAny values =>
      if len values =? 0 then Err EmptyValues
      else if MAX_SEARCH_FILTER_VALUES <? len values then Err TooManyValues
      else Ok tt
  | MissingEntityType _ min_confidence => validate_confidence min_confidence
  end.

Fixpoint validate_predicates (l : list SearchProjectionPredicate)
    : result unit SearchProjectionFilterError :=
  match l with
  | [] => Ok tt
  | predicate :: l => let? _ := validate_predicate predicate in validate_predicates l
  end.

Definition validate_filter (self : SearchProjectionFilter) : result unit SearchProjectionFilterError :=
  if MAX_SEARCH_FILTER_PREDICATES <? len (predicates self) then Err TooManyPredicates
  else validate_predicates (predicates self).

Definition filter_new (predicates : list SearchProjectionPredicate)
    : result SearchProjectionFilter SearchProjectionFilterError :=
  let filter := MkProjectionFilter predicates in
  let? _ := validate_filter filter in
  Ok filter.

(** ** The database connection of one transaction *)

Record SearchConnection := MkConnection {
  (** The single row of [search_projection_state]: service state, generation,
      visible epoch, repair reason. *)
  sql_projection_state : option (str * option str * Z * option str);
  (** [search_publication_in_connection]. *)
  sql_publication : str → result (option SearchPublicationRecord) MetaStoreErrorClass;
  (** The two counts of the projection audit. *)
  sql_count_mismatched : str → option Z;
  sql_count_invalid_active : str → str → option Z;
  (** The pairs of a generation, [ORDER BY document_id, resume_version_id]. *)
  sql_projection_pairs : str → option (list (str * str));
  (** The rows of the filter query with its [LIMIT]; a row may fail to decode. *)
  sql_filter_rows : SearchProjectionFilter → str → Z → option (list (option (str * str)));
  (** [EXISTS] of a sealed version of a document. *)
  sql_sealed_pair : str → str → option Z;
  (** The active row of a document in a generation. *)
  sql_active_projection : str → str → option (option (str * str));
  (** The projected document of an exact pair, with its generation. *)
  sql_active_document : str → str → option (option (Document * str));
  (** [EXISTS] of an oversized mention, and the mentions up to a [LIMIT]. *)
  sql_mentions_oversized : str → option Z;
  sql_mentions : str → Z → option (list EntityMention);
  (** The sealed candidate assignment of a version. *)
  sql_candidate : str → option (option str);
}.

Record SearchMetadataSnapshot := MkMetadataSnapshot {
  connection : SearchConnection;
  head : SearchMetadataHead;
}.

(** [.map_err(MetaStoreError::storage)]. *)
Definition storage {A} (r : option A) : result A MetaStoreErrorClass := ok_or r Storage.

(** ** The ready head *)

Definition search_repair_reason_from_storage (value : str) : option SearchRepairReason :=
  str_match value
    [([lit "migration_rebuild"], MigrationRebuild);
     ([lit "artifact_unavailable"], ArtifactUnavailable);
     ([lit "source_unavailable"], SourceUnavailable);
     ([lit "runtime_invariant"], RuntimeInvariant)].

Definition u64_checked_add (x y : Z) : option Z :=
  if x + y <=? u64_MAX then Some (x + y) else None.

Definition read_ready_head (connection : SearchConnection)
    : result SearchMetadataHead SearchMetadataOpenError :=
  let? row := map_err OpenStore (storage (sql_projection_state connection)) in
  let '(service_state, generation, visible_epoch, repair_reason) := row in
  if negb (str_eqb service_state (lit "ready")) then
    let? reason := ok_or (repair_reason ≫= search_repair_reason_from_storage)
                     (OpenStore StorageInvariant) in
    if str_eqb service_state (lit "repairing") then Err (OpenUnavailable (Repairing reason))
    else if str_eqb service_state (lit "repair_blocked") then
      Err (OpenUnavailable (RepairBlocked reason))
    else Err (OpenStore StorageInvariant)
  else if bool_decide (is_Some repair_reason) then Err (OpenStore StorageInvariant)
  else
    let? generation := ok_or generation (OpenStore StorageInvariant) in
    let? found := map_err OpenStore (sql_publication connection generation) in
    let? publication :=
      ok_or (found ≫= λ p, if bool_decide (pub_state p = Ready) then Some p else None)
        (OpenStore StorageInvariant) in
    let? visible_epoch :=
      ok_or (if 0 <=? visible_epoch then Some visible_epoch else None)
        (OpenStore StorageInvariant) in
    if bool_decide (u64_checked_add (pub_expected_visible_epoch publication) 1
                    = Some visible_epoch)
    then Ok (MkHead generation visible_epoch publication)
    else Err (OpenStore StorageInvariant).

(** [with_search_metadata_snapshot]: [begins] tells whether the deferred
    transaction starts, [commits] whether it commits; the operation runs on the
    state [S] its closure captures. *)
Definition with_search_metadata_snapshot {S T E} (connection : SearchConnection)
    (begins commits : bool)
    (operation : SearchMetadataSnapshot → S → S * result T E) (s : S)
    : S * result T (SearchMetadataTransactionError E) :=
  if negb begins then (s, Err (TxStore Storage))
  else
    match read_ready_head connection with
    | Err (OpenUnavailable unavailable) => (s, Err (TxUnavailable unavailable))
    | Err (OpenStore error) => (s, Err (TxStore error))
    | Ok head =>
        let '(s, r) := operation (MkMetadataSnapshot connection head) s in
        match r with
        | Ok value => (s, if commits then Ok value else Err (TxStore Storage))
        | Err error => (s, Err (TxOperation error))
        end
    end.

(** ** The audit of the active projection *)

Definition parse_pair {E} (e : E) (ids : str * str) : result ActiveSearchProjection E :=
  let? document_id := map_err (λ _, e) (id_from_str DocumentId ids.1) in
  let? resume_version_id := map_err (λ _, e) (id_from_str ResumeVersionId ids.2) in
  Ok (MkProjection document_id resume_version_id).

Definition audit_active_projection `{Sha256} (connection : SearchConnection)
    (head : SearchMetadataHead) : result (list ActiveSearchProjection) MetaStoreErrorClass :=
  let? mismatched := storage (sql_count_mismatched connection (head_generation head)) in
  let? invalid_active :=
    storage (sql_count_invalid_active connection (head_generation head)
               (pub_classifier_epoch (head_publication head))) in
  let? projections := storage (sql_projection_pairs connection (head_generation head)) in
  let? projection_digest :=
    map_err (λ _, StorageInvariant) (search_projection_digest_from_pairs projections) in
  if negb (mismatched =? 0) || negb (invalid_active =? 0) then Err StorageInvariant
  else
    let? document_count :=
      ok_or (ftd_document_count <$> pub_fulltext (head_publication head)) StorageInvariant in
    if negb (len projections =? document_count)
       || negb (bool_decide (projection_digest = pub_projection_digest (head_publication head)))
    then Err StorageInvariant
    else collect_results (parse_pair InvalidValue) projections.

Definition validated_active_projections `{Sha256} (self : SearchMetadataSnapshot)
    : result (list ActiveSearchProjection) MetaStoreErrorClass :=
  audit_active_projection (connection self) (head self).

(** ** Bounded filter selections *)

Inductive BoundedFilterSelection :=
| Selected (projections : list ActiveSearchProjection)
| TooLarge (cap : Z).

Definition bounded_filter_selection (self : SearchMetadataSnapshot)
    (filter : SearchProjectionFilter) (cap : Z)
    : result BoundedFilterSelection MetaStoreErrorClass :=
  let? _ := map_err (λ _, InvalidValue) (validate_filter filter) in
  if MAX_BOUNDED_FILTER_SELECTION <? cap then Err InvalidValue
  else
    let? rows :=
      storage (sql_filter_rows (connection self) filter (head_generation (head self)) (cap + 1)) in
    let? projections :=
      collect_results (λ row, let? ids := storage row in parse_pair InvalidValue ids) rows in
    if cap <? len projections then Ok (TooLarge cap) else Ok (Selected projections).

(** ** Hydration of exact hits *)

Definition MAX_SEARCH_SELECTION_MENTIONS : Z := 256.
Definition MAX_DOCUMENT_SOURCE_URI_BYTES : Z := 128 * 1024.
Definition MAX_DOCUMENT_NORMALIZED_PATH_BYTES : Z := 128 * 1024.
Definition MAX_DOCUMENT_FILE_NAME_BYTES : Z := 4 * 1024.
Definition MAX_DOCUMENT_EXTENSION_BYTES : Z := 256.
Definition MAX_HYDRATED_MENTIONS : Z := 2048.
Definition MAX_HYDRATED_STRING_BYTES : Z := 2 * 1024 * 1024.

Inductive SearchSelectionResolution :=
| Current (selection : SearchSelection)
| Stale
| NotFound.

Definition active_projection_for_generation (connection : SearchConnection) (generation : str)
    (document_id : StableId DocumentId)
    : result (option ActiveSearchProjection) MetaStoreErrorClass :=
  let? row := storage (sql_active_projection connection generation (id_str document_id)) in
  match row with
  | Some ids => let? projection := parse_pair InvalidValue ids in Ok (Some projection)
  | None => Ok None
  end.

Definition resolve_selection (connection : SearchConnection) (generation : str)
    (selection : SearchSelection) : result SearchSelectionResolution MetaStoreErrorClass :=
  let? exists_ :=
    storage (sql_sealed_pair connection (id_str (sel_resume_version_id selection))
               (id_str (sel_document_id selection))) in
  let exact_sealed_pair := negb (exists_ =? 0) in
  if negb exact_sealed_pair then Ok NotFound
  else
    let? found := active_projection_for_generation connection generation
                    (sel_document_id selection) in
    match found with
    | None => Ok NotFound
    | Some active =>
        if negb (bool_decide (proj_resume_version_id active = sel_resume_version_id selection))
        then Ok Stale
        else Ok (Current selection)
    end.

Inductive BoundedDocument := BDocument (document : Document) | BDocumentLimitExceeded.
Inductive BoundedMentions := BMentions (mentions : list EntityMention) | BMentionsLimitExceeded.

Definition extension_column_bytes (extension : FileExtension) : Z :=
  match extension with
  | OtherExtension value => str_len (lit "other:") + str_len value
  | Docx | Image => 5
  | Pdf | Doc | Txt => 3
  end.

(** A [usize] length always fits a [u64]. *)
Definition bounded_projected_document (connection : SearchConnection) (generation : str)
    (projection : ActiveSearchProjection) : result BoundedDocument MetaStoreErrorClass :=
  let? row :=
    storage (sql_active_document connection (id_str (proj_document_id projection))
               (id_str (proj_resume_version_id projection))) in
  let? found := ok_or row StorageInvariant in
  let '(document, published_generation) := found in
  if negb (str_eqb published_generation generation) then Err StorageInvariant
  else
    let lengths :=
      [(str_len (doc_source_uri document), MAX_DOCUMENT_SOURCE_URI_BYTES);
       (str_len (doc_normalized_path document), MAX_DOCUMENT_NORMALIZED_PATH_BYTES);
       (str_len (doc_file_name document), MAX_DOCUMENT_FILE_NAME_BYTES);
       (extension_column_bytes (doc_extension document), MAX_DOCUMENT_EXTENSION_BYTES)] in
    if existsb (λ '(actual, maximum), maximum <? actual) lengths
    then Ok BDocumentLimitExceeded
    else Ok (BDocument document).

Definition bounded_entity_mentions_for_version (connection : SearchConnection)
    (version_id : StableId ResumeVersionId) : result BoundedMentions MetaStoreErrorClass :=
  let? exists_ := storage (sql_mentions_oversized connection (id_str version_id)) in
  if negb (exists_ =? 0) then Ok BMentionsLimitExceeded
  else
    let? mentions :=
      storage (sql_mentions connection (id_str version_id) (MAX_SEARCH_SELECTION_MENTIONS + 1)) in
    if MAX_SEARCH_SELECTION_MENTIONS <? len mentions then Ok BMentionsLimitExceeded
    else Ok (BMentions mentions).

Definition candidate_id_for_current_version (connection : SearchConnection)
    (version_id : StableId ResumeVersionId)
    : result (option (StableId CandidateId)) MetaStoreErrorClass :=
  let? row := storage (sql_candidate connection (id_str version_id)) in
  match row with
  | Some candidate =>
      let? id := map_err (λ _, InvalidValue) (id_from_str CandidateId candidate) in
      Ok (Some id)
  | None => Ok None
  end.

Inductive SearchHitMetadataLimit :=
| InputCount | DocumentMetadata | MentionsPerHit | TotalMentions | TotalStringBytes.

Inductive ExactHitHydrationFailureKind :=
| FailedStale | FailedNotFound | LimitExceeded (limit : SearchHitMetadataLimit).

Record ExactHitHydrationFailure := MkHydrationFailure {
  failure_position : option Z;
  failure_kind : ExactHitHydrationFailureKind;
}.

Record SearchHitMetadata := MkHitMetadata {
  hm_projection : ActiveSearchProjection;
  hm_document : Document;
  hm_candidate_id : option (StableId CandidateId);
  hm_mentions : list EntityMention;
}.

Inductive ExactHitHydration :=
| Hydrated (hits : list SearchHitMetadata)
| HydrationFailed (failure : ExactHitHydrationFailure).

Definition hydration_failure (position : Z) (kind : ExactHitHydrationFailureKind)
    : ExactHitHydration :=
  HydrationFailed (MkHydrationFailure (Some position) kind).

Definition hydration_limit (position : option Z) (limit : SearchHitMetadataLimit)
    : ExactHitHydration :=
  HydrationFailed (MkHydrationFailure position (LimitExceeded limit)).

Definition opt_len (o : option str) : Z := match o with Some s => str_len s | None => 0 end.

Definition document_string_bytes (document : Document) : Z :=
  str_len (doc_source_uri document)
  + str_len (doc_normalized_path document)
  + str_len (doc_file_name document)
  + match doc_extension document with OtherExtension value => str_len value | _ => 0 end
  + opt_len (doc_content_hash document)
  + opt_len (doc_text_hash document).

Definition mention_string_bytes (mentions : list EntityMention) : Z :=
  sum_Z
    (λ mention, str_len (mention_raw_value mention)
                + opt_len (mention_normalized_value mention)
                + str_len (mention_extractor mention)) mentions.

Definition usize_checked_add (x y : Z) : option Z :=
  if x + y <=? usize_MAX then Some (x + y) else None.

(** The loop of [hydrate_exact_hits] over the enumerated identities. *)
Fixpoint hydrate_loop (self : SearchMetadataSnapshot) (position : Z)
    (identities : list ActiveSearchProjection) (total_mentions total_string_bytes : Z)
    (hydrated : list SearchHitMetadata) : result ExactHitHydration MetaStoreErrorClass :=
  match identities with
  | [] => Ok (Hydrated hydrated)
  | identity :: identities =>
      let selection := MkSelection (proj_document_id identity) (proj_resume_version_id identity)
                         (head_visible_epoch (head self)) in
      let? resolution :=
        resolve_selection (connection self) (head_generation (head self)) selection in
      match resolution with
      | Stale => Ok (hydration_failure position FailedStale)
      | NotFound => Ok (hydration_failure position FailedNotFound)
      | Current _ =>
          let? bounded :=
            bounded_projected_document (connection self) (head_generation (head self)) identity in
          match bounded with
          | BDocumentLimitExceeded => Ok (hydration_limit (Some position) DocumentMetadata)
          | BDocument document =>
              let? bounded :=
                bounded_entity_mentions_for_version (connection self)
                  (proj_resume_version_id identity) in
              match bounded with
              | BMentionsLimitExceeded => Ok (hydration_limit (Some position) MentionsPerHit)
              | BMentions mentions =>
                  let? total_mentions :=
                    ok_or (usize_checked_add total_mentions (len mentions)) StorageInvariant in
                  if MAX_HYDRATED_MENTIONS <? total_mentions
                  then Ok (hydration_limit (Some position) TotalMentions)
                  else
                    let? total_string_bytes :=
                      ok_or (usize_checked_add total_string_bytes (document_string_bytes document)
                             ≫= λ total, usize_checked_add total (mention_string_bytes mentions))
                        StorageInvariant in
                    if MAX_HYDRATED_STRING_BYTES <? total_string_bytes
                    then Ok (hydration_limit (Some position) TotalStringBytes)
                    else
                      let? candidate_id :=
                        candidate_id_for_current_version (connection self)
                          (proj_resume_version_id identity) in
                      hydrate_loop self (position + 1) identities total_mentions
                        total_string_bytes
                        (hydrated ++ [MkHitMetadata identity document candidate_id mentions])
              end
          end
      end
  end.

Definition hydrate_exact_hits (self : SearchMetadataSnapshot)
    (identities : list ActiveSearchProjection) (cap : Z)
    : result ExactHitHydration MetaStoreErrorClass :=
  if MAX_EXACT_HIT_HYDRATION <? cap then Err InvalidValue
  else if cap <? len identities then Ok (hydration_limit None InputCount)
  else hydrate_loop self 0 identities 0 0 [].

(** ** Head: what a readable head guarantees *)

(** The head is available exactly when the service is ready without a repair
    reason, its generation has a ready publication and the visible epoch is the
    successor of the epoch the publication expected. *)
Lemma read_ready_head_iff c h :
  read_ready_head c = Ok h ↔
  sql_projection_state c
    = Some (lit "ready", Some (head_generation h), head_visible_epoch h, None) ∧
  sql_publication c (head_generation h) = Ok (Some (head_publication h)) ∧
  pub_state (head_publication h) = Ready ∧
  0 ≤ head_visible_epoch h ≤ u64_MAX ∧
  head_visible_epoch h = pub_expected_visible_epoch (head_publication h) + 1.
Proof.
  unfold read_ready_head, storage, u64_checked_add. split.
  - intros H. destruct (sql_projection_state c) as [[[[s g] e] r]|]; cbn [ok_or map_err result_bind] in H;
      [|discriminate H].
    destruct (str_eqb s (lit "ready")) eqn:Es; cbn [negb] in H.
    2: { destruct (r ≫= _); cbn [ok_or result_bind] in H; [|discriminate H].
         repeat case_match; discriminate H. }
    unfold str_eqb in Es. apply bool_decide_eq_true in Es as ->.
    destruct r as [r|]; [by rewrite bool_decide_true in H by eauto|].
    rewrite bool_decide_false in H by (by intros [? ?]).
    destruct g as [g|]; cbn [ok_or result_bind] in H; [|discriminate H].
    destruct (sql_publication c g) as [[p|]|] eqn:Ep; cbn [map_err result_bind mbind option_bind] in H;
      [|discriminate H..].
    case_bool_decide as Hr; cbn [ok_or result_bind] in H; [|discriminate H].
    destruct (0 <=? e) eqn:Ee; cbn [ok_or result_bind] in H; [|discriminate H].
    case_bool_decide as Hv; [|discriminate H]. injection H as <-. cbn.
    case_match; [|discriminate Hv]. injection Hv as Hv. bools. split_and!; auto; lia.
  - intros (-> & Hp & Hr & He & Hv). cbn [ok_or map_err result_bind].
    unfold str_eqb. rewrite bool_decide_true by done. cbn [negb].
    rewrite bool_decide_false by (by intros [? ?]). cbn [ok_or result_bind].
    rewrite Hp. cbn [map_err result_bind mbind option_bind].
    rewrite bool_decide_true by done. cbn [ok_or result_bind].
    rewrite (proj2 (Z.leb_le 0 _)) by lia. cbn [ok_or result_bind].
    rewrite (proj2 (Z.leb_le _ u64_MAX)) by lia.
    rewrite bool_decide_true by (f_equal; lia). by destruct h.
Qed.

(** ** Audit *)

Lemma parse_pair_ok {E} (e : E) ids p :
  parse_pair e ids = Ok p ↔
  id_from_str DocumentId ids.1 = Ok (proj_document_id p) ∧
  id_from_str ResumeVersionId ids.2 = Ok (proj_resume_version_id p).
Proof.
  unfold parse_pair. split.
  - intros H. destruct (id_from_str DocumentId ids.1); cbn in H; [|done].
    destruct (id_from_str ResumeVersionId ids.2); cbn in H; [|done]. by injection H as <-.
  - intros [-> ->]. cbn. by destruct p.
Qed.

(** The text of an id is what it was parsed from. *)
Lemma id_from_str_text k v i : id_from_str k v = Ok i → id_str i = v.
Proof. by intros [-> _]%id_from_str_ok. Qed.

Definition pair_of (p : ActiveSearchProjection) : str * str :=
  (id_str (proj_document_id p), id_str (proj_resume_version_id p)).

Lemma parse_pair_text {E} (e : E) ids p : parse_pair e ids = Ok p → ids = pair_of p.
Proof.
  intros [H1 H2]%parse_pair_ok. destruct ids. unfold pair_of.
  by rewrite (id_from_str_text _ _ _ H1), (id_from_str_text _ _ _ H2).
Qed.

Lemma collect_parse_pair_text {E} (e : E) l ps :
  collect_results (parse_pair e) l = Ok ps → l = pair_of <$> ps.
Proof.
  rewrite collect_results_Forall2. induction 1 as [|ids p l ps H _ IH]; cbn; [done|].
  by rewrite <- IH, (parse_pair_text _ _ _ H).
Qed.

(** What an accepted audit says: the projection is the generation's rows, its
    digest and count are the publication's, and it is one-to-one. *)
Lemma audit_ok `{Sha256} c h ps :
  audit_active_projection c h = Ok ps →
  sql_projection_pairs c (head_generation h) = Some (pair_of <$> ps) ∧
  search_projection_digest_from_pairs (pair_of <$> ps)
    = Ok (pub_projection_digest (head_publication h)) ∧
  ftd_document_count <$> pub_fulltext (head_publication h) = Some (len ps).
Proof.
  unfold audit_active_projection, storage. intros HA. repeat peel HA. bools. subst.
  apply collect_parse_pair_text in HA as ->. unfold len in *. rewrite length_fmap in *.
  split_and!; [done|congruence|congruence].
Qed.

(** Rows in the order of the query. *)
Definition pairs_ordered (l : list (str * str)) : Prop := StronglySorted (sort_le cmp) l.

Lemma pair_of_inj p q : pair_of p = pair_of q → p = q.
Proof. destruct p as [[a] [b]], q as [[c] [d]]. cbn. by intros [= -> ->]. Qed.

#[local] Instance pair_of_Inj : Inj (=) (=) pair_of.
Proof. intros p q. apply pair_of_inj. Qed.

(** The bytes whose digest a publication carries. *)
Definition projection_bytes (ps : list ActiveSearchProjection) : list Z :=
  projection_preimage (sort_pairs (pair_of <$> ps)).

(** Two transactions whose heads carry the same publication digest audit to
    the same projection, unless the encodings of these two projections collide
    under SHA-256: the digest of a publication pins the document/version mapping
    every query runs on.  The rows are ordered by the query. *)
Theorem audit_pinned_by_digest `{Sha256Laws} c h ps c' h' ps' :
  audit_active_projection c h = Ok ps →
  audit_active_projection c' h' = Ok ps' →
  pub_projection_digest (head_publication h) = pub_projection_digest (head_publication h') →
  pairs_ordered (pair_of <$> ps) → pairs_ordered (pair_of <$> ps') →
  len ps ≤ usize_MAX → len ps' ≤ usize_MAX →
  ps = ps' ∨ collide sha256 (projection_bytes ps) (projection_bytes ps').
Proof.
  intros (_ & H1 & _)%audit_ok (_ & H2 & _)%audit_ok Hd O1 O2 L1 L2.
  unfold len in *. apply (projection_digest_binding (pair_of <$> ps) (pair_of <$> ps')) in Hd as [HP|HC];
    [left|by right|by rewrite length_fmap..|done|done].
  apply (inj (fmap pair_of)). by apply sorted_cmp_unique.
Qed.

(** ** Hydration *)

Definition document_in_bounds (document : Document) : Prop :=
  str_len (doc_source_uri document) ≤ MAX_DOCUMENT_SOURCE_URI_BYTES ∧
  str_len (doc_normalized_path document) ≤ MAX_DOCUMENT_NORMALIZED_PATH_BYTES ∧
  str_len (doc_file_name document) ≤ MAX_DOCUMENT_FILE_NAME_BYTES ∧
  extension_column_bytes (doc_extension document) ≤ MAX_DOCUMENT_EXTENSION_BYTES.

Section hydration.
Variable self : SearchMetadataSnapshot.
Let c := connection self.
Let g := head_generation (head self).

(** The version is sealed for the document and is the one active in the head's
    generation. *)
Definition sealed_and_active (p : ActiveSearchProjection) : Prop :=
  (∃ n, sql_sealed_pair c (id_str (proj_resume_version_id p)) (id_str (proj_document_id p)) = Some n
        ∧ n ≠ 0) ∧
  (∃ row d, sql_active_projection c g (id_str (proj_document_id p)) = Some (Some row) ∧
            id_from_str DocumentId row.1 = Ok d ∧
            id_from_str ResumeVersionId row.2 = Ok (proj_resume_version_id p)).

(** The metadata of one exact identity, read from this generation only. *)
Record hydrates (p : ActiveSearchProjection) (hit : SearchHitMetadata) : Prop := {
  hydrates_projection : hm_projection hit = p;
  hydrates_active : sealed_and_active p;
  hydrates_document :
    sql_active_document c (id_str (proj_document_id p)) (id_str (proj_resume_version_id p))
      = Some (Some (hm_document hit, g));
  hydrates_document_bounds : document_in_bounds (hm_document hit);
  hydrates_no_oversized_mention :
    sql_mentions_oversized c (id_str (proj_resume_version_id p)) = Some 0;
  hydrates_mentions :
    sql_mentions c (id_str (proj_resume_version_id p)) (MAX_SEARCH_SELECTION_MENTIONS + 1)
      = Some (hm_mentions hit);
  hydrates_mentions_bound : len (hm_mentions hit) ≤ MAX_SEARCH_SELECTION_MENTIONS;
  hydrates_candidate :
    candidate_id_for_current_version c (proj_resume_version_id p) = Ok (hm_candidate_id hit);
}.

Lemma resolve_selection_current d v e :
  (∃ s, resolve_selection c g (MkSelection d v e) = Ok (Current s)) ↔
  sealed_and_active (MkProjection d v).
Proof.
  unfold resolve_selection, sealed_and_active, active_projection_for_generation, storage.
  cbn [sel_document_id sel_resume_version_id proj_document_id proj_resume_version_id].
  destruct (sql_sealed_pair c _ _) as [n|]; cbn [ok_or result_bind].
  2: { split; [by intros [? ?]|intros [(? & ? & _) _]; congruence]. }
  destruct (n =? 0) eqn:En; cbn [negb].
  { bools. split; [by intros [? ?]|]. intros [(m & [= <-] & ?) _]. lia. }
  destruct (sql_active_projection c g _) as [[row|]|]; cbn [ok_or result_bind].
  2,3: split; [by intros [? ?]|intros [_ (? & ? & ? & _)]; congruence].
  destruct (parse_pair InvalidValue row) as [a|e'] eqn:Ea; cbn [result_bind].
  2: { split; [by intros [? ?]|]. intros [_ (row' & d' & [= <-] & H1 & H2)].
       rewrite (proj2 (parse_pair_ok InvalidValue row (MkProjection d' v))) in Ea by done. done. }
  apply parse_pair_ok in Ea as [Ha1 Ha2]. case_bool_decide as Hv; cbn [negb].
  - split; [|by eauto]. intros _. subst v. bools. eauto 10.
  - split; [by intros [? ?]|]. intros [_ (row' & d' & [= <-] & H1 & H2)]. congruence.
Qed.

Lemma bounded_projected_document_ok p document :
  bounded_projected_document c g p = Ok (BDocument document) ↔
  sql_active_document c (id_str (proj_document_id p)) (id_str (proj_resume_version_id p))
    = Some (Some (document, g)) ∧ document_in_bounds document.
Proof.
  unfold bounded_projected_document, storage, document_in_bounds.
  destruct (sql_active_document c _ _) as [[[d g']|]|]; cbn [ok_or result_bind]; [|naive_solver..].
  unfold str_eqb. case_bool_decide as Hg; cbn [negb]; [|naive_solver].
  subst g'. cbn [existsb]. destruct (_ || _) eqn:E.
  - split; [done|]. intros [[= ->] Hb].
    repeat (apply orb_true_iff in E as [E|E]); bools; lia.
  - bools. split; [intros [= ->]; split_and!; auto|by intros [[= ->] _]].
Qed.

Lemma bounded_mentions_ok v mentions :
  bounded_entity_mentions_for_version c v = Ok (BMentions mentions) ↔
  sql_mentions_oversized c (id_str v) = Some 0 ∧
  sql_mentions c (id_str v) (MAX_SEARCH_SELECTION_MENTIONS + 1) = Some mentions ∧
  len mentions ≤ MAX_SEARCH_SELECTION_MENTIONS.
Proof.
  unfold bounded_entity_mentions_for_version, storage.
  destruct (sql_mentions_oversized c _) as [n|]; cbn [ok_or result_bind]; [|naive_solver].
  destruct (n =? 0) eqn:En; bools; cbn [negb]; [subst n|naive_solver].
  destruct (sql_mentions c _ _) as [ms|]; cbn [ok_or result_bind]; [|naive_solver].
  destruct (_ <? _) eqn:El; bools.
  - split; [done|]. intros (_ & [= ->] & ?). lia.
  - split; [intros [= ->]; auto|by intros (_ & [= ->] & _)].
Qed.

Definition hit_string_bytes (hit : SearchHitMetadata) : Z :=
  document_string_bytes (hm_document hit) + mention_string_bytes (hm_mentions hit).

Lemma hydrate_loop_step pos p ids tm ts acc out :
  hydrate_loop self pos (p :: ids) tm ts acc = Ok (Hydrated out) ↔
  ∃ hit, hydrates p hit ∧
    tm + len (hm_mentions hit) ≤ Z.min MAX_HYDRATED_MENTIONS usize_MAX ∧
    ts + document_string_bytes (hm_document hit) ≤ usize_MAX ∧
    ts + hit_string_bytes hit ≤ Z.min MAX_HYDRATED_STRING_BYTES usize_MAX ∧
    hydrate_loop self (pos + 1) ids (tm + len (hm_mentions hit)) (ts + hit_string_bytes hit)
      (acc ++ [hit]) = Ok (Hydrated out).
Proof.
  destruct p as [d v].
  cbn [hydrate_loop proj_document_id proj_resume_version_id]. fold c g.
  pose proof (resolve_selection_current d v (head_visible_epoch (head self))) as HR.
  destruct (resolve_selection c g _) as [[s| |]|e]; cbn [result_bind].
  2-4: split; [done|]; intros (hit & Hh & _); apply hydrates_active in Hh;
    apply HR in Hh as [? ?]; done.
  destruct (bounded_projected_document c g _) as [[doc|]|e] eqn:Ed; cbn [result_bind].
  2,3: split; [done|]; intros (hit & Hh & _);
    rewrite (proj2 (bounded_projected_document_ok _ (hm_document hit))) in Ed;
    [done|split; apply Hh].
  destruct (bounded_entity_mentions_for_version c v) as [[ms|]|e] eqn:Em; cbn [result_bind].
  2,3: split; [done|]; intros (hit & Hh & _);
    rewrite (proj2 (bounded_mentions_ok v (hm_mentions hit))) in Em;
    [done|split_and!; apply Hh].
  apply bounded_projected_document_ok in Ed as [Hd1 Hd2].
  apply bounded_mentions_ok in Em as (Hm1 & Hm2 & Hm3).
  assert (∀ hit, hydrates (MkProjection d v) hit → hm_document hit = doc ∧ hm_mentions hit = ms) as Hdet.
  { intros hit [_ _ H1 _ _ H2 _ _]. cbn in *. split; congruence. }
  unfold usize_checked_add.
  destruct (tm + len ms <=? usize_MAX) eqn:E1; cbn [ok_or result_bind]; bools.
  2: { split; [done|]. intros (hit & [-> ->]%Hdet & ? & _). lia. }
  destruct (MAX_HYDRATED_MENTIONS <? tm + len ms) eqn:E2; bools.
  { split; [done|]. intros (hit & [-> ->]%Hdet & ? & _). lia. }
  destruct (ts + document_string_bytes doc <=? usize_MAX) eqn:E3; bools;
    cbn [ok_or result_bind mbind option_bind].
  2: { split; [done|]. intros (hit & [-> ->]%Hdet & ? & ? & _). lia. }
  destruct (_ <=? usize_MAX) eqn:E4; bools; cbn [ok_or result_bind].
  2: { split; [done|]. unfold hit_string_bytes. intros (hit & [-> ->]%Hdet & ? & ? & ? & _). lia. }
  destruct (MAX_HYDRATED_STRING_BYTES <? _) eqn:E5; bools.
  { split; [done|]. unfold hit_string_bytes. intros (hit & [-> ->]%Hdet & ? & ? & ? & _). lia. }
  destruct (candidate_id_for_current_version c v) as [cand|e] eqn:Ec; cbn [result_bind].
  2: { split; [done|]. intros (hit & Hh & _). pose proof (hydrates_candidate _ _ Hh) as H.
       cbn in H. congruence. }
  assert (hydrates (MkProjection d v) (MkHitMetadata (MkProjection d v) doc cand ms)) as Hh.
  { split; cbn; auto. apply HR. eauto. }
  unfold hit_string_bytes. split.
  - intros HL. eexists. split; [exact Hh|]. cbn [hm_document hm_mentions].
    rewrite Z.add_assoc. split_and!; auto; lia.
  - intros (hit & Hh' & _ & _ & _ & HL). destruct (Hdet _ Hh') as [H1 H2].
    assert (hit = MkHitMetadata (MkProjection d v) doc cand ms) as ->.
    { destruct hit; cbn in *. subst. pose proof (hydrates_projection _ _ Hh').
      pose proof (hydrates_candidate _ _ Hh'). cbn in *. congruence. }
    cbn [hm_document hm_mentions] in HL. by rewrite Z.add_assoc in HL.
Qed.
End hydration.

Lemma opt_len_nonneg o : 0 ≤ opt_len o.
Proof. destruct o; cbn; [apply str_len_nonneg|lia]. Qed.

Lemma sum_Z_nonneg {A} (f : A → Z) l : (∀ x, 0 ≤ f x) → 0 ≤ sum_Z f l.
Proof. intros Hf. unfold sum_Z. induction l as [|x l IH]; cbn; [lia|]. specialize (Hf x). lia. Qed.

Lemma document_string_bytes_nonneg d : 0 ≤ document_string_bytes d.
Proof.
  unfold document_string_bytes.
  pose proof (str_len_nonneg (doc_source_uri d)). pose proof (str_len_nonneg (doc_normalized_path d)).
  pose proof (str_len_nonneg (doc_file_name d)).
  pose proof (opt_len_nonneg (doc_content_hash d)). pose proof (opt_len_nonneg (doc_text_hash d)).
  destruct (doc_extension d) as [| | | | |v]; try lia. pose proof (str_len_nonneg v). lia.
Qed.

Lemma mention_string_bytes_nonneg ms : 0 ≤ mention_string_bytes ms.
Proof.
  apply sum_Z_nonneg. intros m. pose proof (str_len_nonneg (mention_raw_value m)).
  pose proof (str_len_nonneg (mention_extractor m)).
  pose proof (opt_len_nonneg (mention_normalized_value m)). lia.
Qed.

Lemma hit_string_bytes_nonneg hit : 0 ≤ hit_string_bytes hit.
Proof.
  unfold hit_string_bytes. pose proof (document_string_bytes_nonneg (hm_document hit)).
  pose proof (mention_string_bytes_nonneg (hm_mentions hit)). lia.
Qed.

Definition mention_count (hit : SearchHitMetadata) : Z := len (hm_mentions hit).

Lemma hydrate_loop_iff self ids pos tm ts acc out :
  tm ≤ MAX_HYDRATED_MENTIONS → ts ≤ MAX_HYDRATED_STRING_BYTES →
  hydrate_loop self pos ids tm ts acc = Ok (Hydrated out) ↔
  ∃ hits, out = acc ++ hits ∧ Forall2 (hydrates self) ids hits ∧
    tm + sum_Z mention_count hits ≤ MAX_HYDRATED_MENTIONS ∧
    ts + sum_Z hit_string_bytes hits ≤ MAX_HYDRATED_STRING_BYTES.
Proof.
  revert pos tm ts acc. induction ids as [|p ids IH]; intros pos tm ts acc Hm Hs.
  { cbn. split.
    - intros [= <-]. exists []. rewrite app_nil_r. split_and!; [done|constructor|cbn; lia..].
    - intros (hits & -> & HF & _). inversion HF. by rewrite app_nil_r. }
  rewrite hydrate_loop_step. split.
  - intros (hit & Hh & H1 & H2 & H3 & HL). apply IH in HL as (hits & -> & HF & ? & ?); [|lia..].
    exists (hit :: hits). rewrite <- app_assoc. unfold mention_count in *. cbn [sum_Z foldr].
    unfold sum_Z in *. split_and!; [done|by constructor|lia..].
  - intros (hits & -> & HF & H1 & H2). inversion HF as [|? hit ? hits' Hh HF']; subst.
    exists hit. unfold mention_count in *. cbn [sum_Z foldr] in H1, H2.
    pose proof (sum_Z_nonneg mention_count hits' ltac:(intros; unfold mention_count, len; lia)) as N1.
    pose proof (sum_Z_nonneg hit_string_bytes hits' hit_string_bytes_nonneg) as N2.
    unfold sum_Z, mention_count in *.
    pose proof (mention_string_bytes_nonneg (hm_mentions hit)).
    unfold hit_string_bytes at 1 in H2.
    unfold MAX_HYDRATED_MENTIONS, MAX_HYDRATED_STRING_BYTES, usize_MAX in *.
    split_and!; [done|lia|lia|unfold hit_string_bytes at 1; lia|].
    apply IH; [lia|unfold hit_string_bytes at 1; lia|]. exists hits'. rewrite <- app_assoc.
    split_and!; [done..|lia|unfold hit_string_bytes at 1; lia].
Qed.

Lemma hydrate_exact_hits_ok self identities cap hits :
  hydrate_exact_hits self identities cap = Ok (Hydrated hits) →
  Forall2 (hydrates self) identities hits.
Proof.
  unfold hydrate_exact_hits. repeat case_match; try done.
  intros (hits' & -> & ? & _)%hydrate_loop_iff; done.
Qed.

(** C33: hydration succeeds exactly when every requested identity is the sealed,
    active version of its document in the head's generation and the bounds on
    inputs, documents, mentions and bytes hold; the hits then come in input
    order, one per identity, with no fallback to another version. *)
Theorem hydrate_exact_hits_iff self identities cap hits :
  hydrate_exact_hits self identities cap = Ok (Hydrated hits) ↔
  cap ≤ MAX_EXACT_HIT_HYDRATION ∧ len identities ≤ cap ∧
  Forall2 (hydrates self) identities hits ∧
  sum_Z mention_count hits ≤ MAX_HYDRATED_MENTIONS ∧
  sum_Z hit_string_bytes hits ≤ MAX_HYDRATED_STRING_BYTES.
Proof.
  unfold hydrate_exact_hits.
  destruct (_ <? cap) eqn:E1; bools; [split; [done|lia]|].
  destruct (cap <? _) eqn:E2; bools; [split; [done|lia]|].
  rewrite hydrate_loop_iff by done. split.
  - intros (hits' & -> & ? & ? & ?). auto.
  - intros (_ & _ & ? & ? & ?). by exists hits.
Qed.

(** ** Filter selections *)

(** A statement with [LIMIT n] returns the first [n] of the matching rows. *)
Definition limited (c : SearchConnection) (f : SearchProjectionFilter) (g : str)
    (matching : list (str * str)) : Prop :=
  ∀ n, 0 ≤ n → sql_filter_rows c f g n = Some (Some <$> take (Z.to_nat n) matching).

(** A bounded selection is never silently truncated: on a valid filter and
    cap the selection is all matching rows when there are at most [cap] of
    them, and an explicit [TooLarge] otherwise. *)
Lemma bounded_filter_selection_rows self filter cap matching projections :
  validate_filter filter = Ok tt → 0 ≤ cap ≤ MAX_BOUNDED_FILTER_SELECTION →
  limited (connection self) filter (head_generation (head self)) matching →
  collect_results (parse_pair InvalidValue) matching = Ok projections →
  bounded_filter_selection self filter cap
  = Ok (if len matching <=? cap then Selected projections else TooLarge cap).
Proof.
  intros Hv Hc Hlim Hp. unfold bounded_filter_selection, storage. rewrite Hv. cbn [map_err result_bind].
  rewrite (proj2 (Z.ltb_ge MAX_BOUNDED_FILTER_SELECTION cap)) by lia.
  rewrite Hlim by lia. cbn [ok_or result_bind].
  rewrite collect_results_Forall2 in Hp.
  assert (collect_results (λ row, let? ids := ok_or row Storage in parse_pair InvalidValue ids)
            (Some <$> take (Z.to_nat (cap + 1)) matching)
          = Ok (take (Z.to_nat (cap + 1)) projections)) as ->.
  { apply collect_results_Forall2, Forall2_fmap_l, Forall2_take. exact Hp. }
  cbn [result_bind]. pose proof (Forall2_length _ _ _ Hp) as HL. unfold len in *.
  rewrite length_take, <- HL.
  destruct (Z.of_nat (length matching) <=? cap) eqn:E; bools.
  - rewrite (proj2 (Z.ltb_ge cap _)) by lia. by rewrite take_ge by lia.
  - by rewrite (proj2 (Z.ltb_lt cap _)) by lia.
Qed.

(** ** A sample store *)

Definition sample_projections : list ActiveSearchProjection :=
  [MkProjection (MkId (lit "doc_00000000000000000000000000000001"))
     (MkId (lit "ver_00000000000000000000000000000002"));
   MkProjection (MkId (lit "doc_00000000000000000000000000000002"))
     (MkId (lit "ver_00000000000000000000000000000001"))].

Definition sample_projection_digest : ContentDigest :=
  @digest_of_preimage toy_sha256 (projection_preimage (pair_of <$> sample_projections)).

Definition sample_fulltext_descriptor (g : str) : FullTextSnapshotDescriptor :=
  MkFullTextDescriptor g 2 sample_projection_digest (MkDigest (lit "sha256:content")).

Definition sample_vector_descriptor (g : str) : VectorSnapshotDescriptor :=
  MkVectorDescriptor g ModeDisabled 2 sample_projection_digest sample_projection_digest 0 0 0
    (MkDigest (lit "sha256:vectors")).

Definition sample_publication (g : str) : SearchPublicationRecord :=
  MkPublication g None 6 (lit "classifier-1") sample_projection_digest
    (Some (MkDigest (lit "sha256:fingerprint"))) Ready
    (Some (sample_fulltext_descriptor g)) (Some (sample_vector_descriptor g)) 0 0.

Definition sample_generation : str := lit "gen-7".

Definition sample_connection : SearchConnection := {|
  sql_projection_state := Some (lit "ready", Some sample_generation, 7, None);
  sql_publication := λ g, Ok (Some (sample_publication g));
  sql_count_mismatched := λ _, Some 0;
  sql_count_invalid_active := λ _ _, Some 0;
  sql_projection_pairs := λ _, Some (pair_of <$> sample_projections);
  sql_filter_rows := λ _ _ n,
    Some (Some <$> take (Z.to_nat n) (pair_of <$> sample_projections));
  sql_sealed_pair := λ _ _, Some 1;
  sql_active_projection := λ _ d,
    Some (List.find (λ x, str_eqb d x.1) (pair_of <$> sample_projections));
  sql_active_document := λ _ _, Some None;
  sql_mentions_oversized := λ _, Some 0;
  sql_mentions := λ _ _, Some [];
  sql_candidate := λ _, Some None;
|}.

Definition sample_head : SearchMetadataHead :=
  MkHead sample_generation 7 (sample_publication sample_generation).

Lemma sample_head_readable : read_ready_head sample_connection = Ok sample_head.
Proof. vm_compute. reflexivity. Qed.

Lemma audit_pinned_by_digest_witness :
  @audit_active_projection toy_sha256 sample_connection sample_head = Ok sample_projections ∧
  (sample_projections = sample_projections
   ∨ collide (@sha256 toy_sha256) (projection_bytes sample_projections) (projection_bytes sample_projections)).
Proof.
  assert (@audit_active_projection toy_sha256 sample_connection sample_head = Ok sample_projections)
    as HA by (vm_compute; reflexivity).
  assert (pairs_ordered (pair_of <$> sample_projections)) as HO.
  { repeat constructor; vm_compute; discriminate. }
  split; [done|].
  apply (@audit_pinned_by_digest toy_sha256 toy_sha256_laws sample_connection sample_head _
           sample_connection sample_head _ HA HA eq_refl HO HO); vm_compute; discriminate.
Defined.
