(* ===== verification/Coordinator.v ===== *)
(** * The query coordinator (crates/search-runtime, coordinator.rs and error.rs)

    The coordinator owns one full-text and one vector reader, both pinned to a
    published generation, a prepared generation waiting for its publication,
    and the last artifact fault.  The index crates are an interface
    ([SearchBackend]); what a call observes of the outside (the metadata
    transaction, leases and artifacts on disk) is its [Env] argument. *)

From Stdlib Require Import ZArith String Sorted.
From stdpp Require Import prelude.
From S2P Require Import Prelude Collections Float32 Text Identity SearchMetadata.

Local Open Scope Z_scope.

(** ** Errors *)

Inductive SearchRuntimeErrorCode :=
| Unavailable | Integrity | SemanticDisabled | SelectionTooLarge | InvalidRequest.

#[export] Instance SearchRuntimeErrorCode_eq_dec : EqDecision SearchRuntimeErrorCode.
Proof. solve_decision. Defined.

Definition map_store_error (error : MetaStoreErrorClass) : SearchRuntimeErrorCode :=
  match error with
  | Storage | Migration | MigrationOwnershipRequired | UnsupportedStoreSchema | Crypto
  | WeakPassphrase | InvalidBackup | KeyAlreadyExists => Unavailable
  | InvalidValue | NotFoundError | InvalidTransition | ImmutableIdentityConflict
  | StorageInvariant => Integrity
  end.

Definition map_transaction_error (error : SearchMetadataTransactionError SearchRuntimeErrorCode)
    : SearchRuntimeErrorCode :=
  match error with
  | TxOperation operation => operation
  | TxStore store => map_store_error store
  | TxUnavailable _ => Unavailable
  end.

(** ** The index crates as an interface *)

Definition MAX_VECTOR_DIMENSION : Z := 65536.
Definition MAX_MODEL_ID_CHARS : Z := 128.

Inductive VectorModelContract :=
| ContractDisabled
| ContractEnabled (model_id : str) (dimension : Z).

#[export] Instance VectorModelContract_eq_dec : EqDecision VectorModelContract.
Proof. solve_decision. Defined.

Definition validate_model_id (model_id : str) : bool :=
  let char_count := len model_id in
  negb ((char_count =? 0) || (MAX_MODEL_ID_CHARS <? char_count) || existsb is_control model_id).

(** [VectorModelContract::validate]; its error is dropped by the caller. *)
Definition validate_contract (self : VectorModelContract) : bool :=
  match self with
  | ContractDisabled => true
  | ContractEnabled model_id dimension =>
      validate_model_id model_id && negb (dimension =? 0)
      && negb (MAX_VECTOR_DIMENSION <? dimension)
  end.

Definition contract_enabled (model_id : str) (dimension : Z) : option VectorModelContract :=
  let contract := ContractEnabled model_id dimension in
  if validate_contract contract then Some contract else None.

Record PublishedSnapshotMetadata := MkPublishedMetadata {
  pm_generation : str;
  pm_document_count : Z;
  pm_projection_digest : ContentDigest;
  pm_logical_content_digest : ContentDigest;
  pm_artifact_digest : ContentDigest;
}.

Record VectorSnapshotSummary := MkSummary {
  vs_generation : str;
  vs_model_contract : VectorModelContract;
  vs_vector_count : Z;
  vs_projection_count : Z;
  vs_vector_document_count : Z;
  vs_projection_digest : ContentDigest;
  vs_coverage_digest : ContentDigest;
  vs_logical_content_digest : ContentDigest;
  vs_artifact_digest : ContentDigest;
}.

Record SearchQuery := MkSearchQuery { sq_text : str; sq_limit : Z }.

(** [index_fulltext::SearchHit] and [index_vector::VectorHit]. *)
Record FullTextHit := MkFullTextHit {
  fth_rank : Z;
  fth_score : f32;
  fth_doc_id : str;
  fth_resume_version_id : str;
  fth_file_name : str;
  fth_snippet : str;
}.

Record VectorHit := MkVectorHit {
  vh_vector_id : str;
  vh_document_id : str;
  vh_resume_version_id : str;
  vh_model_id : str;
  vh_score : f32;
}.

(** Readers of one immutable generation; [None] is a failed call. *)
Class SearchBackend := {
  FullTextIndex : Type;
  snapshot_metadata : FullTextIndex → option PublishedSnapshotMetadata;
  exact_identity_pairs : FullTextIndex → option (list (str * str));
  fulltext_search : FullTextIndex → SearchQuery → option (list FullTextHit);
  search_allowed_doc_ids : FullTextIndex → SearchQuery → list str → option (list FullTextHit);
  VectorSnapshotReader : Type;
  summary : VectorSnapshotReader → VectorSnapshotSummary;
  exact_projection : VectorSnapshotReader → list ActiveSearchProjection;
  knn : VectorSnapshotReader → list f32 → Z → option (list VectorHit);
}.

(** A path is its list of components; [join] appends one. *)
Abbreviation path := (list str).
Definition join_path (p : path) (component : str) : path := p ++ [component].

Section coordinator.
Context `{Sha256} `{SearchBackend}.

(** What one call observes. *)
Record Env := MkEnv {
  env_canonicalize : path → option path;
  env_open_store : path → result unit MetaStoreErrorClass;
  env_connection : SearchConnection;
  env_begins : bool;
  env_commits : bool;
  (** [SnapshotReadLease::acquire]: an error, no index, or a lease. *)
  env_fulltext_lease : path → option (option unit);
  env_vector_root : path → option unit;
  env_vector_lease : path → option unit;
  env_open_fulltext : path → str → option (option FullTextIndex);
  env_open_vector : path → str → VectorModelContract → option VectorSnapshotReader;
}.

(** ** State *)

Record CacheKey := MkKey {
  key_generation : str;
  key_publication_fingerprint : ContentDigest;
}.

#[global] Instance CacheKey_eq_dec : EqDecision CacheKey.
Proof. solve_decision. Defined.

Record ValidatedFullTextGeneration := MkFT { ft_key : CacheKey; ft_index : FullTextIndex }.
Record ValidatedVectorGeneration := MkVG { vg_key : CacheKey; vg_reader : VectorSnapshotReader }.

Record PreparedQueryGeneration := MkPrepared {
  prepared_data_dir : path;
  prepared_fulltext : ValidatedFullTextGeneration;
  prepared_vector : ValidatedVectorGeneration;
}.

(** [SearchArtifactFaultKey] has the fields of a cache key. *)
Record SearchArtifactFaultKey := MkFault {
  fault_generation : str;
  fault_publication_fingerprint : ContentDigest;
}.

Record QueryCoordinator := MkCoordinator {
  data_dir : path;
  fulltext_root : path;
  vector_root : path;
  fulltext_cache : option ValidatedFullTextGeneration;
  vector_cache : option ValidatedVectorGeneration;
  pending_generation : option PreparedQueryGeneration;
  pending_artifact_fault : option SearchArtifactFaultKey;
}.

Definition set_caches (self : QueryCoordinator) (f : option ValidatedFullTextGeneration)
    (v : option ValidatedVectorGeneration) : QueryCoordinator :=
  let 'MkCoordinator d fr vr _ _ p e := self in MkCoordinator d fr vr f v p e.
Definition set_pending (self : QueryCoordinator) (p : option PreparedQueryGeneration)
    : QueryCoordinator :=
  let 'MkCoordinator d fr vr f v _ e := self in MkCoordinator d fr vr f v p e.
Definition set_fault (self : QueryCoordinator) (e : option SearchArtifactFaultKey)
    : QueryCoordinator :=
  let 'MkCoordinator d fr vr f v p _ := self in MkCoordinator d fr vr f v p e.

(** ** Validation of an opened generation *)

Inductive GenerationValidationError :=
| MetadataError (error : SearchRuntimeErrorCode)
| ArtifactError (key : CacheKey) (error : SearchRuntimeErrorCode).

Definition cache_key (publication : SearchPublicationRecord)
    : result CacheKey SearchRuntimeErrorCode :=
  let? publication_fingerprint := ok_or (pub_fingerprint publication) Integrity in
  Ok (MkKey (pub_generation publication) publication_fingerprint).

(** [u64::try_from] of a [usize]. *)
Definition u64_try_from (n : Z) : result Z SearchRuntimeErrorCode :=
  if n <=? u64_MAX then Ok n else Err Integrity.

Definition identities_match (identities : list (str * str))
    (projections : list ActiveSearchProjection) : bool :=
  (len identities =? len projections)
  && forallb
       (λ '(identity, projection),
          str_eqb identity.1 (id_str (proj_document_id projection))
          && str_eqb identity.2 (id_str (proj_resume_version_id projection)))
       (combine identities projections).

Definition validate_fulltext (fulltext : FullTextIndex) (descriptor : FullTextSnapshotDescriptor)
    (projections : list ActiveSearchProjection) : result unit SearchRuntimeErrorCode :=
  let? metadata := ok_or (snapshot_metadata fulltext) Integrity in
  let? count := u64_try_from (pm_document_count metadata) in
  let? identities := ok_or (exact_identity_pairs fulltext) Integrity in
  if negb (str_eqb (pm_generation metadata) (ftd_generation descriptor))
     || negb (count =? ftd_document_count descriptor)
     || negb (bool_decide (pm_projection_digest metadata = ftd_projection_digest descriptor))
     || negb (bool_decide
                (pm_logical_content_digest metadata = ftd_logical_content_digest descriptor))
     || negb (identities_match identities projections)
  then Err Integrity
  else Ok tt.

Definition validate_vector (vector : VectorSnapshotReader) (descriptor : VectorSnapshotDescriptor)
    (projections : list ActiveSearchProjection) (contract : VectorModelContract)
    : result unit SearchRuntimeErrorCode :=
  let summary := summary vector in
  let? projection_count := u64_try_from (vs_projection_count summary) in
  let? vector_count := u64_try_from (vs_vector_count summary) in
  let? document_count := u64_try_from (vs_vector_document_count summary) in
  if negb (str_eqb (vs_generation summary) (vd_generation descriptor))
     || negb (bool_decide (vs_model_contract summary = contract))
     || negb (projection_count =? vd_projection_count descriptor)
     || negb (vector_count =? vd_vector_count descriptor)
     || negb (document_count =? vd_document_count descriptor)
     || negb (bool_decide (vs_projection_digest summary = vd_projection_digest descriptor))
     || negb (bool_decide (vs_coverage_digest summary = vd_coverage_digest descriptor))
     || negb (bool_decide
                (vs_logical_content_digest summary = vd_logical_content_digest descriptor))
     || negb (bool_decide (exact_projection vector = projections))
  then Err Integrity
  else Ok tt.

Definition vector_contract (mode : VectorSnapshotMode)
    : result VectorModelContract SearchRuntimeErrorCode :=
  match mode with
  | ModeDisabled => Ok ContractDisabled
  | ModeEnabled model_id dimension => ok_or (contract_enabled model_id dimension) Integrity
  end.

Definition open_fulltext_generation (env : Env) (fulltext_root : path) (key : CacheKey)
    (fulltext_descriptor : FullTextSnapshotDescriptor)
    (projections : list ActiveSearchProjection)
    : result ValidatedFullTextGeneration GenerationValidationError :=
  let? opened := ok_or (env_open_fulltext env fulltext_root (key_generation key))
                   (ArtifactError key Integrity) in
  let? fulltext := ok_or opened (ArtifactError key Unavailable) in
  let? _ := map_err (ArtifactError key)
              (validate_fulltext fulltext fulltext_descriptor projections) in
  Ok (MkFT key fulltext).

Definition open_vector_generation (env : Env) (vector_root : path) (key : CacheKey)
    (vector_descriptor : VectorSnapshotDescriptor)
    (projections : list ActiveSearchProjection)
    : result ValidatedVectorGeneration GenerationValidationError :=
  let? vector_contract := map_err MetadataError (vector_contract (vd_mode vector_descriptor)) in
  let? vector := ok_or (env_open_vector env vector_root (key_generation key) vector_contract)
                   (ArtifactError key Integrity) in
  let? _ := map_err (ArtifactError key)
              (validate_vector vector vector_descriptor projections vector_contract) in
  Ok (MkVG key vector).

Definition validate_fulltext_generation (env : Env) (snapshot : SearchMetadataSnapshot)
    (fulltext_root : path) (key : CacheKey) (projections : list ActiveSearchProjection)
    : result ValidatedFullTextGeneration GenerationValidationError :=
  let publication := head_publication (head snapshot) in
  let? fulltext_descriptor := ok_or (pub_fulltext publication) (MetadataError Integrity) in
  if negb (str_eqb (head_generation (head snapshot)) (key_generation key))
     || negb (str_eqb (ftd_generation fulltext_descriptor) (key_generation key))
  then Err (MetadataError Integrity)
  else open_fulltext_generation env fulltext_root key fulltext_descriptor projections.

Definition validate_vector_generation (env : Env) (snapshot : SearchMetadataSnapshot)
    (vector_root : path) (key : CacheKey) (projections : list ActiveSearchProjection)
    : result ValidatedVectorGeneration GenerationValidationError :=
  let? vector_descriptor :=
    ok_or (pub_vector (head_publication (head snapshot))) (MetadataError Integrity) in
  if negb (str_eqb (head_generation (head snapshot)) (key_generation key))
     || negb (str_eqb (vd_generation vector_descriptor) (key_generation key))
  then Err (MetadataError Integrity)
  else open_vector_generation env vector_root key vector_descriptor projections.

Definition generation_validation_error (error : GenerationValidationError)
    : SearchRuntimeErrorCode :=
  match error with MetadataError error | ArtifactError _ error => error end.

(** [PreparedQueryGeneration::open]. *)
Definition prepared_open (env : Env) (data_dir : path) (publication : SearchPublicationRecord)
    (projections : list ActiveSearchProjection)
    : result PreparedQueryGeneration SearchRuntimeErrorCode :=
  if negb (bool_decide (pub_state publication = Validated)
           || bool_decide (pub_state publication = Ready))
  then Err Unavailable
  else
    let? data_dir := ok_or (env_canonicalize env data_dir) Unavailable in
    let? key := cache_key publication in
    let? fulltext_descriptor := ok_or (pub_fulltext publication) Integrity in
    let? vector_descriptor := ok_or (pub_vector publication) Integrity in
    let fulltext_root := join_path data_dir (lit "search-index") in
    let? lease := ok_or (env_fulltext_lease env fulltext_root) Unavailable in
    let? _ := ok_or lease Unavailable in
    let vector_root := join_path data_dir (lit "vector-index") in
    let? _ := ok_or (env_vector_root env vector_root) Unavailable in
    let? _ := ok_or (env_vector_lease env vector_root) Unavailable in
    let? fulltext :=
      map_err generation_validation_error
        (open_fulltext_generation env fulltext_root key fulltext_descriptor projections) in
    let? vector :=
      map_err generation_validation_error
        (open_vector_generation env vector_root key vector_descriptor projections) in
    Ok (MkPrepared data_dir fulltext vector).

(** ** Operations *)

(** [QueryCoordinator::open]. *)
Definition coordinator_open (env : Env) (data_dir : path)
    : result QueryCoordinator SearchRuntimeErrorCode :=
  let? data_dir := ok_or (env_canonicalize env data_dir) Unavailable in
  let? _ := map_err map_store_error (env_open_store env data_dir) in
  let fulltext_root := join_path data_dir (lit "search-index") in
  let vector_root := join_path data_dir (lit "vector-index") in
  let? _ := ok_or (env_vector_root env vector_root) Unavailable in
  Ok (MkCoordinator data_dir fulltext_root vector_root None None None None).

(** The store transaction of a call, its error mapped. *)
Definition with_snapshot {S T} (env : Env)
    (operation : SearchMetadataSnapshot → S → S * result T SearchRuntimeErrorCode) (s : S)
    : S * result T SearchRuntimeErrorCode :=
  let '(s, r) := with_search_metadata_snapshot (env_connection env) (env_begins env)
                   (env_commits env) operation s in
  (s, map_err map_transaction_error r).

Definition prepare_current_generation (env : Env) (self : QueryCoordinator)
    : QueryCoordinator * result unit SearchRuntimeErrorCode :=
  let '(_, read) :=
    with_snapshot env
      (λ snapshot s,
        (s, let? projections :=
              map_err (λ _, Integrity) (validated_active_projections snapshot) in
            Ok (head_publication (head snapshot), projections))) tt in
  match (let? loaded := read in prepared_open env (data_dir self) loaded.1 loaded.2) with
  | Err e => (self, Err e)
  | Ok prepared =>
      (set_pending (set_caches self (Some (prepared_fulltext prepared))
                      (Some (prepared_vector prepared))) None, Ok tt)
  end.

Definition install_prepared_generation (prepared : PreparedQueryGeneration)
    (self : QueryCoordinator) : QueryCoordinator * result unit SearchRuntimeErrorCode :=
  if negb (bool_decide (prepared_data_dir prepared = data_dir self)) then (self, Err Integrity)
  else if bool_decide (is_Some (pending_generation self)) then (self, Err Unavailable)
  else (set_pending self (Some prepared), Ok tt).

(** [cache.as_ref().is_some_and(|cached| cached.key == key)]. *)
Definition fulltext_cached (key : CacheKey) (self : QueryCoordinator) : bool :=
  match fulltext_cache self with Some c => bool_decide (ft_key c = key) | None => false end.
Definition vector_cached (key : CacheKey) (self : QueryCoordinator) : bool :=
  match vector_cache self with Some c => bool_decide (vg_key c = key) | None => false end.
Definition prepared_matches (key : CacheKey) (prepared : PreparedQueryGeneration) : bool :=
  bool_decide (ft_key (prepared_fulltext prepared) = key)
  && bool_decide (vg_key (prepared_vector prepared) = key).

Definition activate_prepared_generation (env : Env) (self : QueryCoordinator)
    : QueryCoordinator * result unit SearchRuntimeErrorCode :=
  let '(_, read) :=
    with_snapshot env (λ snapshot s, (s, cache_key (head_publication (head snapshot)))) tt in
  match read with
  | Err e => (self, Err e)
  | Ok key =>
      match pending_generation self with
      | Some prepared =>
          let self := set_pending self None in
          if negb (prepared_matches key prepared) then (self, Err Integrity)
          else (set_caches self (Some (prepared_fulltext prepared))
                  (Some (prepared_vector prepared)), Ok tt)
      | None =>
          (self, if fulltext_cached key self && vector_cached key self then Ok tt
                 else Err Unavailable)
      end
  end.

Definition discard_prepared_generation (self : QueryCoordinator) : QueryCoordinator :=
  set_pending self None.

Definition take_artifact_fault (self : QueryCoordinator)
    : QueryCoordinator * option SearchArtifactFaultKey :=
  (set_fault self None, pending_artifact_fault self).

Definition adopt_pending_generation (key : CacheKey) (self : QueryCoordinator)
    : QueryCoordinator * result unit SearchRuntimeErrorCode :=
  if fulltext_cached key self && vector_cached key self then (self, Ok tt)
  else
    match pending_generation self with
    | Some prepared =>
        if prepared_matches key prepared then
          (set_caches (set_pending self None) (Some (prepared_fulltext prepared))
             (Some (prepared_vector prepared)), Ok tt)
        else (self, Err Unavailable)
    | None => (self, Ok tt)
    end.

Definition record_generation_error (error : GenerationValidationError) (self : QueryCoordinator)
    : QueryCoordinator * SearchRuntimeErrorCode :=
  match error with
  | MetadataError error => (self, error)
  | ArtifactError key error =>
      (set_fault self (Some (MkFault (key_generation key) (key_publication_fingerprint key))), error)
  end.

(** ** Queries *)

Record LexicalQueryScope := MkLexicalScope {
  lex_metadata : SearchMetadataSnapshot;
  lex_fulltext : FullTextIndex;
}.

Record QueryScope := MkScope {
  scope_lexical : LexicalQueryScope;
  scope_vector : VectorSnapshotReader;
}.

(** One cache refresh: validate, then store the reader or record the fault. *)
Definition refresh_fulltext (env : Env) (snapshot : SearchMetadataSnapshot) (key : CacheKey)
    (projections : list ActiveSearchProjection) (self : QueryCoordinator)
    : QueryCoordinator * result unit SearchRuntimeErrorCode :=
  match validate_fulltext_generation env snapshot (fulltext_root self) key projections with
  | Ok validated => (set_caches self (Some validated) (vector_cache self), Ok tt)
  | Err error => let '(self, e) := record_generation_error error self in (self, Err e)
  end.

Definition refresh_vector (env : Env) (snapshot : SearchMetadataSnapshot) (key : CacheKey)
    (projections : list ActiveSearchProjection) (self : QueryCoordinator)
    : QueryCoordinator * result unit SearchRuntimeErrorCode :=
  match validate_vector_generation env snapshot (vector_root self) key projections with
  | Ok validated => (set_caches self (fulltext_cache self) (Some validated), Ok tt)
  | Err error => let '(self, e) := record_generation_error error self in (self, Err e)
  end.

(** The closure of [with_query]; [projections] is computed whenever one of the
    caches is stale, so the [ok_or_else] on it never fires. *)
Definition query_body {T} (env : Env) (operation : QueryScope → result T SearchRuntimeErrorCode)
    (snapshot : SearchMetadataSnapshot) (self : QueryCoordinator)
    : QueryCoordinator * result T SearchRuntimeErrorCode :=
  match cache_key (head_publication (head snapshot)) with
  | Err e => (self, Err e)
  | Ok key =>
      let! self := adopt_pending_generation key self in
      let fulltext_changed := negb (fulltext_cached key self) in
      let vector_changed := negb (vector_cached key self) in
      match
        (if fulltext_changed || vector_changed then
           let? projections :=
             map_err (λ _, Integrity) (validated_active_projections snapshot) in
           Ok (Some projections)
         else Ok None)
      with
      | Err e => (self, Err e)
      | Ok projections =>
          let self :=
            if fulltext_changed || vector_changed then set_caches self None None else self in
          let! self :=
            if fulltext_changed then
              match projections with
              | Some projections => refresh_fulltext env snapshot key projections self
              | None => (self, Err Integrity)
              end
            else (self, Ok tt) in
          let! self :=
            if vector_changed then
              match projections with
              | Some projections => refresh_vector env snapshot key projections self
              | None => (self, Err Integrity)
              end
            else (self, Ok tt) in
          (self,
           let? fulltext := ok_or (fulltext_cache self) Integrity in
           let? vector := ok_or (vector_cache self) Integrity in
           operation (MkScope (MkLexicalScope snapshot (ft_index fulltext)) (vg_reader vector)))
      end
  end.

Definition with_query {T} (env : Env) (operation : QueryScope → result T SearchRuntimeErrorCode)
    (self : QueryCoordinator) : QueryCoordinator * result T SearchRuntimeErrorCode :=
  match
    (let? lease := ok_or (env_fulltext_lease env (fulltext_root self)) Unavailable in
     let? _ := ok_or lease Unavailable in
     ok_or (env_vector_lease env (vector_root self)) Unavailable)
  with
  | Err e => (self, Err e)
  | Ok _ => with_snapshot env (query_body env operation) self
  end.

(** The closure of [with_lexical_query]. *)
Definition lexical_body {T} (env : Env)
    (operation : LexicalQueryScope → result T SearchRuntimeErrorCode)
    (snapshot : SearchMetadataSnapshot) (self : QueryCoordinator)
    : QueryCoordinator * result T SearchRuntimeErrorCode :=
  match cache_key (head_publication (head snapshot)) with
  | Err e => (self, Err e)
  | Ok key =>
      let! self := adopt_pending_generation key self in
      let! self :=
        if negb (fulltext_cached key self) then
          let self := set_caches self None None in
          match map_err (λ _, Integrity) (validated_active_projections snapshot) with
          | Err e => (self, Err e)
          | Ok projections => refresh_fulltext env snapshot key projections self
          end
        else (self, Ok tt) in
      (self,
       let? fulltext := ok_or (fulltext_cache self) Integrity in
       operation (MkLexicalScope snapshot (ft_index fulltext)))
  end.

Definition with_lexical_query {T} (env : Env)
    (operation : LexicalQueryScope → result T SearchRuntimeErrorCode) (self : QueryCoordinator)
    : QueryCoordinator * result T SearchRuntimeErrorCode :=
  match
    (let? lease := ok_or (env_fulltext_lease env (fulltext_root self)) Unavailable in
     ok_or lease Unavailable)
  with
  | Err e => (self, Err e)
  | Ok _ => with_snapshot env (lexical_body env operation) self
  end.

(** [resident_generation_count]: sort by generation, then drop adjacent equal
    keys. *)
Fixpoint dedup_keys (keys : list CacheKey) : list CacheKey :=
  match keys with
  | k1 :: ((k2 :: _) as rest) =>
      if bool_decide (k1 = k2) then dedup_keys rest else k1 :: dedup_keys rest
  | _ => keys
  end.

Definition resident_generation_count (self : QueryCoordinator) : nat :=
  let keys :=
    match fulltext_cache self with Some c => [ft_key c] | None => [] end
    ++ match vector_cache self with Some c => [vg_key c] | None => [] end
    ++ match pending_generation self with
       | Some p => [ft_key (prepared_fulltext p)] | None => [] end in
  length (dedup_keys (sort_by (λ l r, cmp (key_generation l) (key_generation r)) keys)).
End coordinator.

(** ** What validation establishes *)

Section validation.
Context `{Sha256} `{SearchBackend}.

Lemma identities_match_iff ids ps :
  identities_match ids ps = true ↔ ids = pair_of <$> ps.
Proof.
  unfold identities_match, len. rewrite andb_true_iff, Z.eqb_eq. split.
  - intros [Hl Hf]. apply Nat2Z.inj in Hl. revert ps Hl Hf.
    induction ids as [|[d v] ids IH]; intros [|p ps] Hl Hf; cbn in *; try done.
    apply andb_prop in Hf as [[Hd Hv]%andb_prop Hf]. unfold str_eqb in *. bools. subst.
    f_equal. by apply IH; [lia|].
  - intros ->. rewrite length_fmap. split; [done|].
    induction ps as [|p ps IH]; cbn; [done|]. unfold str_eqb. by rewrite !bool_decide_true.
Qed.

(** A full-text reader serves exactly [ps], with the descriptor's generation
    and digests. *)
Definition fulltext_serves (ft : FullTextIndex) (d : FullTextSnapshotDescriptor)
    (ps : list ActiveSearchProjection) : Prop :=
  exact_identity_pairs ft = Some (pair_of <$> ps) ∧
  ∃ m, snapshot_metadata ft = Some m ∧
    pm_generation m = ftd_generation d ∧ pm_document_count m = ftd_document_count d ∧
    pm_projection_digest m = ftd_projection_digest d ∧
    pm_logical_content_digest m = ftd_logical_content_digest d.

Definition vector_serves (v : VectorSnapshotReader) (d : VectorSnapshotDescriptor)
    (ps : list ActiveSearchProjection) : Prop :=
  exact_projection v = ps ∧
  vs_generation (summary v) = vd_generation d ∧
  vector_contract (vd_mode d) = Ok (vs_model_contract (summary v)) ∧
  vs_projection_digest (summary v) = vd_projection_digest d ∧
  vs_coverage_digest (summary v) = vd_coverage_digest d ∧
  vs_logical_content_digest (summary v) = vd_logical_content_digest d.

Lemma validate_fulltext_ok ft d ps :
  validate_fulltext ft d ps = Ok tt → fulltext_serves ft d ps.
Proof.
  unfold validate_fulltext, u64_try_from. intros HV. peel HV.
  destruct (_ <=? _); cbn [result_bind] in HV; [|discriminate HV].
  repeat peel HV. unfold str_eqb in *. bools.
  split; [by rewrite E0; f_equal; apply identities_match_iff|]. eauto 10.
Qed.

Lemma validate_vector_ok v d ps contract :
  vector_contract (vd_mode d) = Ok contract →
  validate_vector v d ps contract = Ok tt → vector_serves v d ps.
Proof.
  unfold validate_vector, u64_try_from. intros HC HV.
  repeat (destruct (_ <=? _); cbn [result_bind] in HV; [|discriminate HV]).
  destruct (_ || _) eqn:Eb; [discriminate HV|]. unfold str_eqb in Eb. bools.
  unfold vector_serves. split_and!; congruence.
Qed.

Lemma open_fulltext_generation_ok env root key d ps f :
  open_fulltext_generation env root key d ps = Ok f →
  ft_key f = key ∧ fulltext_serves (ft_index f) d ps.
Proof.
  unfold open_fulltext_generation. intros HO. repeat peel HO.
  injection HO as <-. repeat match goal with u : unit |- _ => destruct u end. split; [done|]. by apply validate_fulltext_ok.
Qed.

Lemma open_vector_generation_ok env root key d ps v :
  open_vector_generation env root key d ps = Ok v →
  vg_key v = key ∧ vector_serves (vg_reader v) d ps.
Proof.
  unfold open_vector_generation. intros HO. repeat peel HO.
  injection HO as <-. repeat match goal with u : unit |- _ => destruct u end. split; [done|]. by eapply validate_vector_ok.
Qed.

Lemma validate_fulltext_generation_ok env snapshot root key ps f :
  validate_fulltext_generation env snapshot root key ps = Ok f →
  ∃ d, pub_fulltext (head_publication (head snapshot)) = Some d ∧
       ft_key f = key ∧ fulltext_serves (ft_index f) d ps.
Proof.
  unfold validate_fulltext_generation. intros HV. repeat peel HV.
  apply open_fulltext_generation_ok in HV as [? ?]. eauto.
Qed.

Lemma validate_vector_generation_ok env snapshot root key ps v :
  validate_vector_generation env snapshot root key ps = Ok v →
  ∃ d, pub_vector (head_publication (head snapshot)) = Some d ∧
       vg_key v = key ∧ vector_serves (vg_reader v) d ps.
Proof.
  unfold validate_vector_generation. intros HV. repeat peel HV.
  apply open_vector_generation_ok in HV as [? ?]. eauto.
Qed.

Lemma prepared_open_ok env dd p ps prepared :
  prepared_open env dd p ps = Ok prepared →
  ∃ key fd vd, cache_key p = Ok key ∧ pub_fulltext p = Some fd ∧ pub_vector p = Some vd ∧
    ft_key (prepared_fulltext prepared) = key ∧
    fulltext_serves (ft_index (prepared_fulltext prepared)) fd ps ∧
    vg_key (prepared_vector prepared) = key ∧
    vector_serves (vg_reader (prepared_vector prepared)) vd ps.
Proof.
  unfold prepared_open. intros HO. repeat peel HO. injection HO as <-.
  match goal with H : open_fulltext_generation _ _ _ _ _ = Ok _ |- _ =>
    apply open_fulltext_generation_ok in H as [? ?] end.
  match goal with H : open_vector_generation _ _ _ _ _ = Ok _ |- _ =>
    apply open_vector_generation_ok in H as [? ?] end.
  cbn. eauto 15.
Qed.
End validation.

(** ** Generation pinning

    [published p ps] says that publication [p] was issued with projection [ps].
    Publications are immutable: the cache key (generation and fingerprint)
    determines descriptors and projection. *)

Section pinning.
Context `{Sha256} `{SearchBackend}.
Variable published : SearchPublicationRecord → list ActiveSearchProjection → Prop.

Definition immutable_publications : Prop := ∀ p ps p' ps' k,
  published p ps → published p' ps' → cache_key p = Ok k → cache_key p' = Ok k →
  pub_fulltext p = pub_fulltext p' ∧ pub_vector p = pub_vector p' ∧ ps = ps'.

(** The store only shows published heads, and its audits read their projection. *)
Definition env_published (env : Env) : Prop := ∀ h,
  read_ready_head (env_connection env) = Ok h →
  (∃ ps, published (head_publication h) ps) ∧
  ∀ ps, audit_active_projection (env_connection env) h = Ok ps → published (head_publication h) ps.

Definition fulltext_valid (f : ValidatedFullTextGeneration) : Prop := ∃ p ps d,
  published p ps ∧ cache_key p = Ok (ft_key f) ∧ pub_fulltext p = Some d ∧
  fulltext_serves (ft_index f) d ps.

Definition vector_valid (v : ValidatedVectorGeneration) : Prop := ∃ p ps d,
  published p ps ∧ cache_key p = Ok (vg_key v) ∧ pub_vector p = Some d ∧
  vector_serves (vg_reader v) d ps.

(** Every reader the coordinator holds was validated against a publication with
    its key, and readers held together carry one key. *)
Record coordinator_inv (s : QueryCoordinator) : Prop := {
  inv_fulltext f : fulltext_cache s = Some f → fulltext_valid f;
  inv_vector v : vector_cache s = Some v → vector_valid v;
  inv_keys f v : fulltext_cache s = Some f → vector_cache s = Some v → ft_key f = vg_key v;
  inv_pending p : pending_generation s = Some p →
    fulltext_valid (prepared_fulltext p) ∧ vector_valid (prepared_vector p) ∧
    ft_key (prepared_fulltext p) = vg_key (prepared_vector p);
}.

(** A scope reads one publication: the head of the running transaction, whose
    projection both indexes serve. *)
Definition lexical_pinned (env : Env) (scope : LexicalQueryScope) : Prop := ∃ h ps fd,
  read_ready_head (env_connection env) = Ok h ∧
  lex_metadata scope = MkMetadataSnapshot (env_connection env) h ∧
  published (head_publication h) ps ∧
  pub_fulltext (head_publication h) = Some fd ∧ fulltext_serves (lex_fulltext scope) fd ps.

Definition scope_pinned (env : Env) (scope : QueryScope) : Prop := ∃ h ps fd vd,
  read_ready_head (env_connection env) = Ok h ∧
  lex_metadata (scope_lexical scope) = MkMetadataSnapshot (env_connection env) h ∧
  published (head_publication h) ps ∧
  pub_fulltext (head_publication h) = Some fd ∧
  fulltext_serves (lex_fulltext (scope_lexical scope)) fd ps ∧
  pub_vector (head_publication h) = Some vd ∧ vector_serves (scope_vector scope) vd ps.

Lemma coordinator_inv_caches s f v :
  coordinator_inv s →
  (∀ x, f = Some x → fulltext_valid x) → (∀ x, v = Some x → vector_valid x) →
  (∀ x y, f = Some x → v = Some y → ft_key x = vg_key y) →
  coordinator_inv (set_caches s f v).
Proof. intros [_ _ _ HP]. destruct s; split; auto. Qed.

Lemma coordinator_inv_pending s p :
  coordinator_inv s →
  (∀ x, p = Some x → fulltext_valid (prepared_fulltext x) ∧ vector_valid (prepared_vector x) ∧
     ft_key (prepared_fulltext x) = vg_key (prepared_vector x)) →
  coordinator_inv (set_pending s p).
Proof. intros [HF HV HK _]. destruct s; split; auto. Qed.

Lemma coordinator_inv_fault s e : coordinator_inv s → coordinator_inv (set_fault s e).
Proof. intros [? ? ? ?]. destruct s; split; auto. Qed.

Lemma coordinator_inv_cleared s : coordinator_inv s → coordinator_inv (set_caches s None None).
Proof. intros HI. by apply coordinator_inv_caches. Qed.

Lemma coordinator_inv_adopted s p :
  coordinator_inv s → pending_generation s = Some p →
  coordinator_inv (set_caches (set_pending s None) (Some (prepared_fulltext p))
                     (Some (prepared_vector p))).
Proof.
  intros HI Hp. destruct (inv_pending s HI p Hp) as (? & ? & ?).
  apply coordinator_inv_caches; [by apply coordinator_inv_pending| |..]; naive_solver.
Qed.

Lemma adopt_inv key s : coordinator_inv s → coordinator_inv (adopt_pending_generation key s).1.
Proof.
  intros HI. unfold adopt_pending_generation. destruct (_ && _); [done|].
  destruct (pending_generation s) as [p|] eqn:Ep; [|done].
  destruct (prepared_matches key p); [|done]. by apply coordinator_inv_adopted.
Qed.

(** A cached reader with the key of a publication serves that publication. *)
Lemma fulltext_cached_serves s f p ps :
  immutable_publications → coordinator_inv s →
  fulltext_cache s = Some f → published p ps → cache_key p = Ok (ft_key f) →
  ∃ fd, pub_fulltext p = Some fd ∧ fulltext_serves (ft_index f) fd ps.
Proof.
  intros Him HI Hf Hp Hk. destruct (inv_fulltext s HI f Hf) as (p' & ps' & d & Hp' & Hk' & Hd & HS).
  destruct (Him p ps p' ps' _ Hp Hp' Hk Hk') as (-> & _ & ->). eauto.
Qed.

Lemma vector_cached_serves s v p ps :
  immutable_publications → coordinator_inv s →
  vector_cache s = Some v → published p ps → cache_key p = Ok (vg_key v) →
  ∃ vd, pub_vector p = Some vd ∧ vector_serves (vg_reader v) vd ps.
Proof.
  intros Him HI Hv Hp Hk. destruct (inv_vector s HI v Hv) as (p' & ps' & d & Hp' & Hk' & Hd & HS).
  destruct (Him p ps p' ps' _ Hp Hp' Hk Hk') as (_ & -> & ->). eauto.
Qed.

Lemma record_error_inv e s :
  coordinator_inv s → coordinator_inv (record_generation_error e s).1.
Proof. intros HI. destruct e; cbn; [done|]. by apply coordinator_inv_fault. Qed.

Lemma refresh_fulltext_inv env h key ps s :
  coordinator_inv s → published (head_publication h) ps →
  cache_key (head_publication h) = Ok key →
  (∀ v, vector_cache s = Some v → vg_key v = key) →
  coordinator_inv
    (refresh_fulltext env (MkMetadataSnapshot (env_connection env) h) key ps s).1.
Proof.
  intros HI Hp Hk Hv. unfold refresh_fulltext.
  destruct (validate_fulltext_generation _ _ _ _ _) as [f|e] eqn:E.
  - apply validate_fulltext_generation_ok in E as (d & Hd & Hf & HS). cbn in Hd.
    apply coordinator_inv_caches; [done| |apply (inv_vector s HI)|].
    + intros x [= <-]. exists (head_publication h), ps, d. by rewrite Hf.
    + intros x y [= <-] Hy. by rewrite Hf, (Hv y Hy).
  - pose proof (record_error_inv e s HI). by destruct (record_generation_error e s).
Qed.

Lemma refresh_vector_inv env h key ps s :
  coordinator_inv s → published (head_publication h) ps →
  cache_key (head_publication h) = Ok key →
  (∀ f, fulltext_cache s = Some f → ft_key f = key) →
  coordinator_inv (refresh_vector env (MkMetadataSnapshot (env_connection env) h) key ps s).1.
Proof.
  intros HI Hp Hk Hf. unfold refresh_vector.
  destruct (validate_vector_generation _ _ _ _ _) as [v|e] eqn:E.
  - apply validate_vector_generation_ok in E as (d & Hd & Hv & HS). cbn in Hd.
    apply coordinator_inv_caches; [done|apply (inv_fulltext s HI)| |].
    + intros x [= <-]. exists (head_publication h), ps, d. by rewrite Hv.
    + intros x y Hx [= <-]. by rewrite Hv, (Hf x Hx).
  - pose proof (record_error_inv e s HI). by destruct (record_generation_error e s).
Qed.

(** The operation only sees the scope the body has built. *)
Lemma step_bind_factor {S A B C E} (r : S * result A E) (k : S → A → S * result B E)
    (k' : S → A → S * result C E) (op : C → result B E) :
  (∀ s a, k s a = (let '(s', x) := k' s a in (s', result_bind x op))) →
  step_bind r k = (let '(s', x) := step_bind r k' in (s', result_bind x op)).
Proof. intros Hk. destruct r as [s [a|e]]; cbn; auto. Qed.

Lemma query_body_factor {T} env (op : QueryScope → result T SearchRuntimeErrorCode) snapshot s :
  query_body env op snapshot s
  = (let '(s', r) := query_body env (λ scope, Ok scope) snapshot s in (s', result_bind r op)).
Proof.
  unfold query_body. destruct (cache_key _) as [key|e]; [|done].
  apply step_bind_factor. intros s1 []. destruct (if _ || _ then _ else _) as [ps|e]; [|done].
  apply step_bind_factor. intros s2 []. apply step_bind_factor. intros s3 [].
  destruct (fulltext_cache s3); cbn; [|done]. by destruct (vector_cache s3).
Qed.

Lemma lexical_body_factor {T} env (op : LexicalQueryScope → result T SearchRuntimeErrorCode)
    snapshot s :
  lexical_body env op snapshot s
  = (let '(s', r) := lexical_body env (λ scope, Ok scope) snapshot s in (s', result_bind r op)).
Proof.
  unfold lexical_body. destruct (cache_key _) as [key|e]; [|done].
  apply step_bind_factor. intros s1 []. apply step_bind_factor. intros s2 [].
  by destruct (fulltext_cache s2).
Qed.

Lemma step_bind_inv {S A B E} (I : S → Prop) (Q : S → B → Prop) (r : S * result A E)
    (k : S → A → S * result B E) :
  I r.1 →
  (∀ s a, r = (s, Ok a) → I s → I (k s a).1 ∧ ∀ b, (k s a).2 = Ok b → Q (k s a).1 b) →
  I (step_bind r k).1 ∧ ∀ b, (step_bind r k).2 = Ok b → Q (step_bind r k).1 b.
Proof. destruct r as [s [a|e]]; cbn; intros Hr Hk; [by apply (Hk s a)|done]. Qed.

Lemma fulltext_cached_true key s :
  fulltext_cached key s = true ↔ ∃ f, fulltext_cache s = Some f ∧ ft_key f = key.
Proof.
  unfold fulltext_cached. destruct (fulltext_cache s) as [f|]; [|naive_solver].
  rewrite bool_decide_eq_true. naive_solver.
Qed.

Lemma vector_cached_true key s :
  vector_cached key s = true ↔ ∃ v, vector_cache s = Some v ∧ vg_key v = key.
Proof.
  unfold vector_cached. destruct (vector_cache s) as [v|]; [|naive_solver].
  rewrite bool_decide_eq_true. naive_solver.
Qed.

(** Caches whose readers, when present, carry [key]. *)
Definition keyed (key : CacheKey) (s : QueryCoordinator) : Prop :=
  (∀ f, fulltext_cache s = Some f → ft_key f = key) ∧
  (∀ v, vector_cache s = Some v → vg_key v = key).

Lemma set_caches_fields s f v :
  fulltext_cache (set_caches s f v) = f ∧ vector_cache (set_caches s f v) = v.
Proof. by destruct s. Qed.

Lemma record_error_caches e s :
  fulltext_cache (record_generation_error e s).1 = fulltext_cache s ∧
  vector_cache (record_generation_error e s).1 = vector_cache s.
Proof. by destruct e, s. Qed.

Lemma refresh_fulltext_keyed env snapshot key ps s :
  keyed key s → keyed key (refresh_fulltext env snapshot key ps s).1.
Proof.
  intros [HF HV]. unfold refresh_fulltext.
  destruct (validate_fulltext_generation _ _ _ _ _) as [f|e] eqn:E.
  - apply validate_fulltext_generation_ok in E as (d & _ & Hf & _).
    destruct (set_caches_fields s (Some f) (vector_cache s)) as [H1 H2].
    split; cbn [fst]; intros x; [rewrite H1; by intros [= <-]|rewrite H2; apply HV].
  - destruct (record_error_caches e s) as [H1 H2].
    destruct (record_generation_error e s) as [s' e']; cbn in *. split; cbn; intros x.
    + rewrite H1. apply HF.
    + rewrite H2. apply HV.
Qed.

Lemma refresh_vector_keyed env snapshot key ps s :
  keyed key s → keyed key (refresh_vector env snapshot key ps s).1.
Proof.
  intros [HF HV]. unfold refresh_vector.
  destruct (validate_vector_generation _ _ _ _ _) as [v|e] eqn:E.
  - apply validate_vector_generation_ok in E as (d & _ & Hv & _).
    destruct (set_caches_fields s (fulltext_cache s) (Some v)) as [H1 H2].
    split; cbn [fst]; intros x; [rewrite H1; apply HF|rewrite H2; by intros [= <-]].
  - destruct (record_error_caches e s) as [H1 H2].
    destruct (record_generation_error e s) as [s' e']; cbn in *. split; cbn; intros x.
    + rewrite H1. apply HF.
    + rewrite H2. apply HV.
Qed.

Hypothesis Him : immutable_publications.

Definition keyed_inv (key : CacheKey) (s : QueryCoordinator) : Prop :=
  coordinator_inv s ∧ keyed key s.

Lemma refresh_fulltext_keyed_inv env h key ps s :
  published (head_publication h) ps → cache_key (head_publication h) = Ok key →
  keyed_inv key s →
  keyed_inv key (refresh_fulltext env (MkMetadataSnapshot (env_connection env) h) key ps s).1.
Proof.
  intros Hp Hk [HI HK]. split; [apply refresh_fulltext_inv|apply refresh_fulltext_keyed]; try done.
  apply HK.
Qed.

Lemma refresh_vector_keyed_inv env h key ps s :
  published (head_publication h) ps → cache_key (head_publication h) = Ok key →
  keyed_inv key s →
  keyed_inv key (refresh_vector env (MkMetadataSnapshot (env_connection env) h) key ps s).1.
Proof.
  intros Hp Hk [HI HK]. split; [apply refresh_vector_inv|apply refresh_vector_keyed]; try done.
  apply HK.
Qed.

Lemma keyed_inv_cleared key s : coordinator_inv s → keyed_inv key (set_caches s None None).
Proof.
  intros HI. split; [by apply coordinator_inv_cleared|].
  destruct (set_caches_fields s None None) as [H1 H2]. split; intros x; congruence.
Qed.

Lemma keyed_inv_lexical_pinned env h key ps s f :
  read_ready_head (env_connection env) = Ok h → published (head_publication h) ps →
  cache_key (head_publication h) = Ok key → keyed_inv key s → fulltext_cache s = Some f →
  lexical_pinned env
    (MkLexicalScope (MkMetadataSnapshot (env_connection env) h) (ft_index f)).
Proof.
  intros Hh Hp Hk [HI HK] Hf.
  destruct (fulltext_cached_serves s f (head_publication h) ps) as (fd & Hfd & HS); try done.
  { by rewrite (proj1 HK f Hf). }
  by exists h, ps, fd.
Qed.

Lemma keyed_inv_pinned env h key ps s f v :
  read_ready_head (env_connection env) = Ok h → published (head_publication h) ps →
  cache_key (head_publication h) = Ok key → keyed_inv key s →
  fulltext_cache s = Some f → vector_cache s = Some v →
  scope_pinned env
    (MkScope (MkLexicalScope (MkMetadataSnapshot (env_connection env) h) (ft_index f))
       (vg_reader v)).
Proof.
  intros Hh Hp Hk [HI HK] Hf Hv.
  destruct (fulltext_cached_serves s f (head_publication h) ps) as (fd & Hfd & HS); try done.
  { by rewrite (proj1 HK f Hf). }
  destruct (vector_cached_serves s v (head_publication h) ps) as (vd & Hvd & HS'); try done.
  { by rewrite (proj2 HK v Hv). }
  by exists h, ps, fd, vd.
Qed.

(** The stages after the caches are known to be [key]'s or empty. *)
Lemma query_stages env h key ps s (ch_f ch_v : bool) :
  read_ready_head (env_connection env) = Ok h → published (head_publication h) ps →
  cache_key (head_publication h) = Ok key → keyed_inv key s →
  let snapshot := MkMetadataSnapshot (env_connection env) h in
  let r :=
    step_bind (if ch_f then refresh_fulltext env snapshot key ps s else (s, Ok tt)) (λ s _,
    step_bind (if ch_v then refresh_vector env snapshot key ps s else (s, Ok tt)) (λ s _,
      (s, let? fulltext := ok_or (fulltext_cache s) Integrity in
          let? vector := ok_or (vector_cache s) Integrity in
          Ok (MkScope (MkLexicalScope snapshot (ft_index fulltext)) (vg_reader vector))))) in
  keyed_inv key r.1 ∧ ∀ scope, r.2 = Ok scope → scope_pinned env scope.
Proof.
  intros Hh Hp Hk HJ snapshot.
  apply (step_bind_inv (keyed_inv key) (λ _, scope_pinned env)).
  { destruct ch_f; [by apply refresh_fulltext_keyed_inv|done]. }
  intros s1 [] _ HJ1. apply (step_bind_inv (keyed_inv key) (λ _, scope_pinned env)).
  { destruct ch_v; [by apply refresh_vector_keyed_inv|done]. }
  intros s2 [] _ HJ2. split; [done|]. cbn [fst snd]. intros scope HS.
  do 2 peel HS. injection HS as <-. by eapply keyed_inv_pinned.
Qed.

Lemma query_body_pinned env h s :
  read_ready_head (env_connection env) = Ok h → env_published env → coordinator_inv s →
  let r := query_body env (λ scope, Ok scope) (MkMetadataSnapshot (env_connection env) h) s in
  coordinator_inv r.1 ∧ ∀ scope, r.2 = Ok scope → scope_pinned env scope.
Proof.
  intros Hh Henv HI. destruct (Henv h Hh) as [[ps0 Hps0] Haudit].
  unfold query_body. cbn [head connection].
  destruct (cache_key (head_publication h)) as [key|e] eqn:Hk; [|done].
  apply (step_bind_inv coordinator_inv (λ _, scope_pinned env)); [by apply adopt_inv|].
  intros s1 [] _ HI1. destruct (negb _ || negb _) eqn:Ech.
  - unfold validated_active_projections. cbn [connection head].
    destruct (audit_active_projection _ h) as [ps|e]; cbn [map_err result_bind]; [|done].
    destruct (query_stages env h key ps _ (negb (fulltext_cached key s1))
                (negb (vector_cached key s1)) Hh (Haudit ps eq_refl) Hk
                (keyed_inv_cleared key s1 HI1)) as [[? _] ?]. done.
  - bools. match goal with H : fulltext_cached key s1 = true |- _ =>
      rewrite H; apply fulltext_cached_true in H as (f & Hf1 & Hf2) end.
    match goal with H : vector_cached key s1 = true |- _ =>
      rewrite H; apply vector_cached_true in H as (v & Hv1 & Hv2) end.
    assert (keyed_inv key s1) as HJ.
    { split; [done|]. split; intros x Hx; congruence. }
    destruct (query_stages env h key ps0 s1 false false Hh Hps0 Hk HJ) as [[? _] ?]. done.
Qed.

Lemma lexical_body_pinned env h s :
  read_ready_head (env_connection env) = Ok h → env_published env → coordinator_inv s →
  let r := lexical_body env (λ scope, Ok scope) (MkMetadataSnapshot (env_connection env) h) s in
  coordinator_inv r.1 ∧ ∀ scope, r.2 = Ok scope → lexical_pinned env scope.
Proof.
  intros Hh Henv HI. destruct (Henv h Hh) as [[ps0 Hps0] Haudit].
  unfold lexical_body. cbn [head connection].
  destruct (cache_key (head_publication h)) as [key|e] eqn:Hk; [|done].
  apply (step_bind_inv coordinator_inv (λ _, lexical_pinned env)); [by apply adopt_inv|].
  intros s1 [] _ HI1. destruct (fulltext_cached key s1) eqn:Ef; cbn [negb].
  - cbn [step_bind fst snd]. split; [done|]. intros scope HS.
    apply fulltext_cached_true in Ef as (f & Hf1 & Hf2). rewrite Hf1 in HS. injection HS as <-.
    destruct (fulltext_cached_serves s1 f (head_publication h) ps0) as (fd & ? & ?); try done.
    { by rewrite Hf2. }
    by exists h, ps0, fd.
  - unfold validated_active_projections. cbn [connection head].
    destruct (audit_active_projection _ h) as [ps|e]; cbn [map_err];
      [|cbn; split; [by apply coordinator_inv_cleared|done]].
    pose proof (refresh_fulltext_keyed_inv env h key ps _ (Haudit ps eq_refl) Hk
                  (keyed_inv_cleared key s1 HI1)) as HJ.
    destruct (refresh_fulltext _ _ _ _ _) as [s2 [[]|e]]; cbn in *; [|split; [apply HJ|done]].
    split; [apply HJ|]. intros scope HS. peel HS. injection HS as <-.
    by eapply keyed_inv_lexical_pinned.
Qed.

(** ** The calls *)

(** Running a body in the transaction: an invariant, and extensionality. *)
Lemma with_snapshot_inv {S T} env
    (body : SearchMetadataSnapshot → S → S * result T SearchRuntimeErrorCode) s (I : S → Prop) :
  I s →
  (∀ h, read_ready_head (env_connection env) = Ok h →
     I (body (MkMetadataSnapshot (env_connection env) h) s).1) →
  I (with_snapshot env body s).1.
Proof.
  intros HI Hb. unfold with_snapshot, with_search_metadata_snapshot.
  destruct (env_begins env); cbn [negb]; [|done].
  destruct (read_ready_head _) as [h|[|]]; [|done..]. specialize (Hb h eq_refl).
  by destruct (body _ s) as [s' [x|e]].
Qed.

Lemma with_snapshot_ext {S T} env
    (body body' : SearchMetadataSnapshot → S → S * result T SearchRuntimeErrorCode) s :
  (∀ h, read_ready_head (env_connection env) = Ok h →
     body (MkMetadataSnapshot (env_connection env) h) s
     = body' (MkMetadataSnapshot (env_connection env) h) s) →
  with_snapshot env body s = with_snapshot env body' s.
Proof.
  intros Hb. unfold with_snapshot, with_search_metadata_snapshot.
  destruct (env_begins env); cbn [negb]; [|done].
  destruct (read_ready_head _) as [h|[|]]; [|done..]. by rewrite (Hb h).
Qed.

Lemma with_query_inv {T} env (op : QueryScope → result T SearchRuntimeErrorCode) s :
  env_published env → coordinator_inv s → coordinator_inv (with_query env op s).1.
Proof.
  intros Henv HI. unfold with_query. destruct (result_bind _ _); [|done].
  apply with_snapshot_inv; [done|]. intros h Hh. rewrite query_body_factor.
  pose proof (proj1 (query_body_pinned env h s Hh Henv HI)) as HQ. by destruct (query_body _ _ _ _).
Qed.

Lemma with_lexical_query_inv {T} env (op : LexicalQueryScope → result T SearchRuntimeErrorCode) s :
  env_published env → coordinator_inv s → coordinator_inv (with_lexical_query env op s).1.
Proof.
  intros Henv HI. unfold with_lexical_query. destruct (result_bind _ _); [|done].
  apply with_snapshot_inv; [done|]. intros h Hh. rewrite lexical_body_factor.
  pose proof (proj1 (lexical_body_pinned env h s Hh Henv HI)) as HQ.
  by destruct (lexical_body _ _ _ _).
Qed.

Lemma prepared_open_valid env dd p ps prepared :
  published p ps → prepared_open env dd p ps = Ok prepared →
  fulltext_valid (prepared_fulltext prepared) ∧ vector_valid (prepared_vector prepared) ∧
  ft_key (prepared_fulltext prepared) = vg_key (prepared_vector prepared).
Proof.
  intros Hp (key & fd & vd & Hk & Hf & Hv & K1 & S1 & K2 & S2)%prepared_open_ok.
  split_and!; [exists p, ps, fd|exists p, ps, vd|]; congruence || by rewrite ?K1, ?K2.
Qed.

(** What the transaction of [prepare_current_generation] loads is published. *)
Lemma prepare_inv env s :
  env_published env → coordinator_inv s → coordinator_inv (prepare_current_generation env s).1.
Proof.
  intros Henv HI. unfold prepare_current_generation, with_snapshot, with_search_metadata_snapshot.
  destruct (env_begins env); cbn [negb map_err result_bind]; [|done].
  destruct (read_ready_head _) as [h|[|]] eqn:Eh; cbn [map_err result_bind]; [|done..].
  destruct (Henv h Eh) as [_ Haudit]. unfold validated_active_projections. cbn [connection head].
  destruct (audit_active_projection _ h) as [ps|e]; cbn [map_err result_bind]; [|done].
  destruct (env_commits env); cbn [map_err result_bind fst snd]; [|done].
  destruct (prepared_open env (data_dir s) (head_publication h) ps) as [pr|e] eqn:Ep; [|done].
  destruct (prepared_open_valid _ _ _ _ _ (Haudit ps eq_refl) Ep) as (? & ? & ?). cbn [fst].
  apply coordinator_inv_pending; [|done]. apply coordinator_inv_caches; naive_solver.
Qed.

Lemma activate_inv env s :
  coordinator_inv s → coordinator_inv (activate_prepared_generation env s).1.
Proof.
  intros HI. unfold activate_prepared_generation. destruct (with_snapshot _ _ _) as [_ [key|e]]; [|done].
  destruct (pending_generation s) as [p|] eqn:Ep; [|done].
  destruct (negb _); [by apply coordinator_inv_pending|]. by apply coordinator_inv_adopted.
Qed.

(** Every public operation, under any environment. *)
Inductive coordinator_step : QueryCoordinator → QueryCoordinator → Prop :=
| step_prepare env s :
    env_published env → coordinator_step s (prepare_current_generation env s).1
| step_install env dd p ps prepared s :
    published p ps → prepared_open env dd p ps = Ok prepared →
    coordinator_step s (install_prepared_generation prepared s).1
| step_activate env s :
    env_published env → coordinator_step s (activate_prepared_generation env s).1
| step_discard s : coordinator_step s (discard_prepared_generation s)
| step_take_fault s : coordinator_step s (take_artifact_fault s).1
| step_query env T (op : QueryScope → result T SearchRuntimeErrorCode) s :
    env_published env → coordinator_step s (with_query env op s).1
| step_lexical env T (op : LexicalQueryScope → result T SearchRuntimeErrorCode) s :
    env_published env → coordinator_step s (with_lexical_query env op s).1.

Lemma coordinator_step_inv s s' :
  coordinator_inv s → coordinator_step s s' → coordinator_inv s'.
Proof.
  intros HI HS. destruct HS.
  - by apply prepare_inv.
  - unfold install_prepared_generation. repeat case_match; try done. cbn [fst].
    apply coordinator_inv_pending; [done|]. intros x [= <-]. by eapply prepared_open_valid.
  - by apply activate_inv.
  - by apply coordinator_inv_pending.
  - by apply coordinator_inv_fault.
  - by apply with_query_inv.
  - by apply with_lexical_query_inv.
Qed.

Definition coordinator_run (s : QueryCoordinator) : Prop :=
  ∃ env dd s0, coordinator_open env dd = Ok s0 ∧ reachable coordinator_step s0 s.

Lemma coordinator_run_inv s : coordinator_run s → coordinator_inv s.
Proof.
  intros (env & dd & s0 & Ho & HR). revert s HR. apply reachable_invariant.
  - unfold coordinator_open in Ho. repeat peel Ho. injection Ho as <-. by split.
  - intros. by eapply coordinator_step_inv.
Qed.
End pinning.

(** C1: in every run of the coordinator, whatever the environments, queries run
    only on scopes pinned to the head of their own transaction: the metadata
    snapshot, the full-text reader and the vector reader all serve the
    projection of that one publication.  (An operation is called on nothing
    else: it may be exchanged for any other that agrees on pinned scopes.) *)
Theorem queries_are_generation_pinned `{Sha256} `{SearchBackend}
    (published : SearchPublicationRecord → list ActiveSearchProjection → Prop) s env :
  immutable_publications published → coordinator_run published s → env_published published env →
  (∀ T (op op' : QueryScope → result T SearchRuntimeErrorCode),
     (∀ scope, scope_pinned published env scope → op scope = op' scope) →
     with_query env op s = with_query env op' s) ∧
  (∀ T (op op' : LexicalQueryScope → result T SearchRuntimeErrorCode),
     (∀ scope, lexical_pinned published env scope → op scope = op' scope) →
     with_lexical_query env op s = with_lexical_query env op' s).
Proof.
  intros Him HI%(coordinator_run_inv published Him) Henv. split; intros T op op' Hop.
  - unfold with_query. destruct (result_bind _ _); [|done]. apply with_snapshot_ext. intros h Hh.
    rewrite (query_body_factor env op), (query_body_factor env op').
    destruct (query_body_pinned published Him env h s Hh Henv HI) as [_ HP].
    destruct (query_body env _ _ s) as [s' [scope|e]]; cbn in *; [|done]. by rewrite Hop by auto.
  - unfold with_lexical_query. destruct (result_bind _ _); [|done]. apply with_snapshot_ext.
    intros h Hh. rewrite (lexical_body_factor env op), (lexical_body_factor env op').
    destruct (lexical_body_pinned published Him env h s Hh Henv HI) as [_ HP].
    destruct (lexical_body env _ _ s) as [s' [scope|e]]; cbn in *; [|done]. by rewrite Hop by auto.
Qed.

(** ** The scope of a successful call *)

Section values.
Context `{Sha256} `{SearchBackend}.

Lemma step_bind_ok {S A B E} (r : S * result A E) (k : S → A → S * result B E) b :
  (step_bind r k).2 = Ok b → ∃ s a, r = (s, Ok a) ∧ (k s a).2 = Ok b.
Proof. destruct r as [s [a|e]]; cbn; [by eauto|done]. Qed.

Lemma query_body_metadata env snapshot s scope :
  (query_body env (λ scope, Ok scope) snapshot s).2 = Ok scope →
  lex_metadata (scope_lexical scope) = snapshot.
Proof.
  unfold query_body. destruct (cache_key _) as [key|e]; [|done].
  intros (s1 & [] & _ & HQ)%step_bind_ok. destruct (if _ || _ then _ else _) as [ps|e]; [|done].
  apply step_bind_ok in HQ as (s2 & [] & _ & HQ). apply step_bind_ok in HQ as (s3 & [] & _ & HQ).
  cbn [snd] in HQ. do 2 peel HQ. by injection HQ as <-.
Qed.

Lemma lexical_body_metadata env snapshot s scope :
  (lexical_body env (λ scope, Ok scope) snapshot s).2 = Ok scope → lex_metadata scope = snapshot.
Proof.
  unfold lexical_body. destruct (cache_key _) as [key|e]; [|done].
  intros (s1 & [] & _ & HQ)%step_bind_ok. apply step_bind_ok in HQ as (s2 & [] & _ & HQ).
  cbn [snd] in HQ. peel HQ. by injection HQ as <-.
Qed.

Lemma with_snapshot_ok {S T} env
    (body : SearchMetadataSnapshot → S → S * result T SearchRuntimeErrorCode) s v :
  (with_snapshot env body s).2 = Ok v →
  ∃ h, read_ready_head (env_connection env) = Ok h ∧
       (body (MkMetadataSnapshot (env_connection env) h) s).2 = Ok v.
Proof.
  unfold with_snapshot, with_search_metadata_snapshot. destruct (env_begins env); cbn [negb]; [|done].
  destruct (read_ready_head _) as [h|[|]]; [|done..]. intros HB. exists h. split; [done|].
  destruct (body _ s) as [s' [x|e]]; cbn in *; [|done]. by destruct (env_commits env).
Qed.

(** A successful call is its operation on a scope over the head it read. *)
Lemma with_query_ok {T} env (op : QueryScope → result T SearchRuntimeErrorCode) s v :
  (with_query env op s).2 = Ok v →
  ∃ h scope, read_ready_head (env_connection env) = Ok h ∧
    lex_metadata (scope_lexical scope) = MkMetadataSnapshot (env_connection env) h ∧
    op scope = Ok v.
Proof.
  unfold with_query. destruct (result_bind _ _); [|done]. intros (h & Hh & HB)%with_snapshot_ok.
  rewrite query_body_factor in HB.
  pose proof (query_body_metadata env (MkMetadataSnapshot (env_connection env) h) s) as HM.
  destruct (query_body _ _ _ _) as [s' [scope|e]]; cbn in *; [|done]. eauto 10.
Qed.

Lemma with_lexical_query_ok {T} env (op : LexicalQueryScope → result T SearchRuntimeErrorCode) s v :
  (with_lexical_query env op s).2 = Ok v →
  ∃ h scope, read_ready_head (env_connection env) = Ok h ∧
    lex_metadata scope = MkMetadataSnapshot (env_connection env) h ∧ op scope = Ok v.
Proof.
  unfold with_lexical_query. destruct (result_bind _ _); [|done]. intros (h & Hh & HB)%with_snapshot_ok.
  rewrite lexical_body_factor in HB.
  pose proof (lexical_body_metadata env (MkMetadataSnapshot (env_connection env) h) s) as HM.
  destruct (lexical_body _ _ _ _) as [s' [scope|e]]; cbn in *; [|done]. eauto 10.
Qed.
End values.

(** ** Residency *)

(** The keys of the readers held: cached full-text, cached vector, pending. *)
Definition resident_keys `{SearchBackend} (s : QueryCoordinator) : list CacheKey :=
  match fulltext_cache s with Some c => [ft_key c] | None => [] end
  ++ match vector_cache s with Some c => [vg_key c] | None => [] end
  ++ match pending_generation s with Some p => [ft_key (prepared_fulltext p)] | None => [] end.

Lemma remove_dups_single (k : CacheKey) : remove_dups [k] = [k].
Proof. cbn [remove_dups]. case_decide; [exfalso; set_solver|done]. Qed.

Lemma remove_dups_pair (k p : CacheKey) :
  remove_dups [k; p] = if decide (k = p) then [p] else [k; p].
Proof. cbn [remove_dups]. repeat case_decide; try done; exfalso; set_solver. Qed.

Lemma remove_dups_triple (k p : CacheKey) : remove_dups [k; k; p] = remove_dups [k; p].
Proof. cbn [remove_dups]. repeat case_decide; try done; exfalso; set_solver. Qed.

Lemma sorted_pair_dedup (k p : CacheKey) :
  length (dedup_keys (sort_by (λ l r, cmp (key_generation l) (key_generation r)) [k; p]))
  = length (remove_dups [k; p]).
Proof.
  rewrite remove_dups_pair. cbn [sort_by foldr sort_insert]. case_decide as Hkp.
  - subst p. rewrite cmp_refl. cbn. by rewrite bool_decide_true.
  - destruct (cmp _ _); cbn; rewrite bool_decide_false by done; done.
Qed.

Lemma sorted_triple_dedup (k p : CacheKey) :
  length (dedup_keys (sort_by (λ l r, cmp (key_generation l) (key_generation r)) [k; k; p]))
  = length (remove_dups [k; k; p]).
Proof.
  rewrite remove_dups_triple, <- sorted_pair_dedup. cbn [sort_by foldr sort_insert].
  destruct (cmp (key_generation k) (key_generation p)) eqn:E; cbn [sort_insert];
    rewrite ?cmp_refl, ?E; cbn [dedup_keys sort_insert]; rewrite ?cmp_refl; cbn [dedup_keys].
  1,2: by rewrite (bool_decide_true (k = k)).
  case_bool_decide as Hkp; [by rewrite (bool_decide_true (k = k))|].
  by rewrite (bool_decide_true (k = k)).
Qed.

(** The residency counter counts the distinct generations whose readers are
    held, and in every run at most two are: the active one and one prepared. *)
Theorem resident_generations_bounded `{Sha256} `{SearchBackend}
    (published : SearchPublicationRecord → list ActiveSearchProjection → Prop) s :
  immutable_publications published → coordinator_run published s →
  resident_generation_count s = length (remove_dups (resident_keys s)) ∧
  (resident_generation_count s ≤ 2)%nat.
Proof.
  intros Him HI%(coordinator_run_inv published Him).
  unfold resident_generation_count. fold (resident_keys s).
  assert (length (dedup_keys (sort_by (λ l r, cmp (key_generation l) (key_generation r))
            (resident_keys s))) = length (remove_dups (resident_keys s))
          ∧ (length (remove_dups (resident_keys s)) ≤ 2)%nat) as [-> ?]; [|done].
  unfold resident_keys.
  destruct (fulltext_cache s) as [f|] eqn:Ef, (vector_cache s) as [v|] eqn:Ev,
    (pending_generation s) as [p|] eqn:Ep; cbn [app];
    rewrite ?remove_dups_single; try (split; [done|cbn; lia]).
  - rewrite <- (inv_keys published s HI f v Ef Ev). split; [apply sorted_triple_dedup|].
    rewrite remove_dups_triple, remove_dups_pair. case_decide; cbn; lia.
  - rewrite <- (inv_keys published s HI f v Ef Ev). split; [apply sorted_pair_dedup|].
    rewrite remove_dups_pair. case_decide; cbn; lia.
  - split; [apply sorted_pair_dedup|]. rewrite remove_dups_pair. case_decide; cbn; lia.
  - split; [apply sorted_pair_dedup|]. rewrite remove_dups_pair. case_decide; cbn; lia.
Qed.

(** ** The pending generation *)

Section protocol.
Context `{Sha256} `{SearchBackend}.

(** The end of a call whose operation returned [r]. *)
Definition finish {T} (env : Env) (r : result T SearchRuntimeErrorCode)
    : result T SearchRuntimeErrorCode :=
  match r with
  | Ok v => if env_commits env then Ok v else Err (map_store_error Storage)
  | Err e => Err e
  end.

Lemma with_snapshot_run {S T} env
    (body : SearchMetadataSnapshot → S → S * result T SearchRuntimeErrorCode) s h :
  env_begins env = true → read_ready_head (env_connection env) = Ok h →
  with_snapshot env body s
  = (let '(s', r) := body (MkMetadataSnapshot (env_connection env) h) s in (s', finish env r)).
Proof.
  intros Hb Hh. unfold with_snapshot, with_search_metadata_snapshot. rewrite Hb, Hh. cbn [negb].
  destruct (body _ s) as [s' [v|e]]; cbn; [by destruct (env_commits env)|done].
Qed.

(** The call starts: both leases are available and the transaction reads [h]. *)
Definition query_starts (env : Env) (s : QueryCoordinator) (h : SearchMetadataHead)
    (key : CacheKey) : Prop :=
  env_fulltext_lease env (fulltext_root s) = Some (Some tt) ∧
  env_vector_lease env (vector_root s) = Some tt ∧
  env_begins env = true ∧ read_ready_head (env_connection env) = Ok h ∧
  cache_key (head_publication h) = Ok key.

Lemma with_query_run {T} env (op : QueryScope → result T SearchRuntimeErrorCode) s h key :
  query_starts env s h key →
  with_query env op s
  = (let '(s', r) := query_body env op (MkMetadataSnapshot (env_connection env) h) s in
     (s', finish env r)).
Proof.
  intros (H1 & H2 & H3 & H4 & _). unfold with_query. rewrite H1, H2. cbn [ok_or result_bind].
  by apply with_snapshot_run.
Qed.

(** A prepared generation becomes active exactly when the metadata publishes
    it.  When the head's key is the prepared one, the query runs on the prepared
    readers without opening anything and they become the cached pair; while the
    head is neither the cached nor the prepared generation, queries are refused
    and nothing changes. *)
Theorem prepared_generation_protocol {T} env (op : QueryScope → result T SearchRuntimeErrorCode)
    s p h key :
  query_starts env s h key → pending_generation s = Some p →
  fulltext_cached key s && vector_cached key s = false →
  with_query env op s
  = if prepared_matches key p
    then (set_caches (set_pending s None) (Some (prepared_fulltext p)) (Some (prepared_vector p)),
          finish env (op (MkScope
            (MkLexicalScope (MkMetadataSnapshot (env_connection env) h)
               (ft_index (prepared_fulltext p)))
            (vg_reader (prepared_vector p)))))
    else (s, Err Unavailable).
Proof.
  intros HQ Hp Hc. rewrite (with_query_run env op s h key HQ). destruct HQ as (_ & _ & _ & _ & Hk).
  unfold query_body. cbn [head connection]. rewrite Hk. unfold adopt_pending_generation.
  rewrite Hc, Hp. destruct (prepared_matches key p) eqn:Em; [|done].
  unfold prepared_matches in Em. bools.
  unfold fulltext_cached, vector_cached. destruct s; cbn [step_bind set_pending set_caches fulltext_cache vector_cache].
  rewrite !bool_decide_true by done. done.
Qed.

(** ** Lexical queries and the composite cache *)

(** Everything the generation of [key] needs opens and validates. *)
Definition healthy (env : Env) (s : QueryCoordinator) (key : CacheKey) : Prop := ∃ h ps f v,
  query_starts env s h key ∧ env_commits env = true ∧
  audit_active_projection (env_connection env) h = Ok ps ∧
  validate_fulltext_generation env (MkMetadataSnapshot (env_connection env) h)
    (fulltext_root s) key ps = Ok f ∧
  validate_vector_generation env (MkMetadataSnapshot (env_connection env) h)
    (vector_root s) key ps = Ok v.

Definition cold (s : QueryCoordinator) : Prop :=
  fulltext_cache s = None ∧ vector_cache s = None ∧ pending_generation s = None.

(** Exactly one of the two caches holds the generation. *)
Definition half_open (key : CacheKey) (s : QueryCoordinator) : Prop :=
  pending_generation s = None ∧
  ((fulltext_cached key s = true ∧ vector_cache s = None) ∨
   (fulltext_cache s = None ∧ vector_cached key s = true)).

Definition same_roots (s s' : QueryCoordinator) : Prop :=
  fulltext_root s' = fulltext_root s ∧ vector_root s' = vector_root s.

(** On a half-open state a composite query clears both caches and refreshes only
    the stale one. *)
Lemma half_open_query {T} env (op : QueryScope → result T SearchRuntimeErrorCode) s key :
  healthy env s key → half_open key s →
  (with_query env op s).2 = Err Integrity ∧
  half_open key (with_query env op s).1 ∧ same_roots s (with_query env op s).1.
Proof.
  intros (h & ps & f & v & HQ & Hc & Ha & Hf & Hv) (Hp & Hh).
  rewrite (with_query_run env op s h key HQ). destruct HQ as (_ & _ & _ & _ & Hk).
  pose proof (validate_fulltext_generation_ok _ _ _ _ _ _ Hf) as (_ & _ & Kf & _).
  pose proof (validate_vector_generation_ok _ _ _ _ _ _ Hv) as (_ & _ & Kv & _).
  unfold query_body. cbn [head connection]. rewrite Hk. unfold adopt_pending_generation.
  rewrite Hp. unfold validated_active_projections. cbn [connection head]. rewrite Ha.
  destruct s as [dd fr vr fc vc pg pf]. cbn in Hp, Hf, Hv. subst pg.
  unfold fulltext_cached, vector_cached in *.
  destruct Hh as [[H1 H2]|[H1 H2]]; cbn in H1, H2; [subst vc|subst fc].
  - destruct fc as [c|]; [|discriminate H1].
    cbn [fulltext_cache vector_cache andb step_bind pending_generation]. rewrite H1.
    cbn [andb negb orb step_bind fulltext_cache vector_cache map_err result_bind set_caches].
    rewrite ?H1. cbn [negb orb step_bind].
    unfold refresh_vector. cbn [vector_root fulltext_cache set_caches]. rewrite Hv. cbn.
    split_and!; [done|split; [done|]|done]. right. unfold vector_cached. cbn.
    by rewrite bool_decide_true.
  - destruct vc as [c|]; [|discriminate H2].
    cbn [fulltext_cache vector_cache andb step_bind pending_generation negb orb map_err
         result_bind set_caches].
    unfold refresh_fulltext. cbn [fulltext_root vector_cache set_caches]. rewrite Hf.
    cbn [step_bind set_caches]. rewrite H2. cbn.
    split_and!; [done|split; [done|]|done]. left. unfold fulltext_cached. cbn.
    by rewrite bool_decide_true.
Qed.

(** A lexical query refreshes the full-text reader only, and drops the vector
    reader when it does. *)
Lemma lexical_query_half_opens {T} env (op : LexicalQueryScope → result T SearchRuntimeErrorCode)
    s key :
  healthy env s key → cold s ∨ half_open key s →
  half_open key (with_lexical_query env op s).1 ∧
  same_roots s (with_lexical_query env op s).1.
Proof.
  intros (h & ps & f & v & (L1 & _ & Hb & Hh & Hk) & Hc & Ha & Hf & _) Hs.
  pose proof (validate_fulltext_generation_ok _ _ _ _ _ _ Hf) as (_ & _ & Kf & _).
  unfold with_lexical_query. rewrite L1. cbn [ok_or result_bind].
  rewrite (with_snapshot_run env _ s h Hb Hh). unfold lexical_body. cbn [head connection]. rewrite Hk.
  unfold adopt_pending_generation, validated_active_projections. cbn [connection head]. rewrite Ha.
  destruct s as [dd fr vr fc vc pg pf]. cbn [fulltext_root] in Hf.
  assert (pg = None) as -> by (destruct Hs as [(_ & _ & ?)|[? _]]; done).
  cbn [pending_generation].
  destruct (fulltext_cached key _) eqn:Efc.
  - (* the full-text reader is current: nothing changes *)
    destruct Hs as [(Hfc & _)|[_ [[_ Hvc]|[Hfc _]]]].
    1,3: cbn in Hfc; subst fc; discriminate Efc.
    cbn in Hvc. subst vc. destruct (vector_cached _ _); cbn [andb step_bind]; rewrite Efc; cbn;
      (split; [split; [done|by left]|done]).
  - cbn [andb step_bind]. rewrite Efc. cbn [negb map_err set_caches].
    unfold refresh_fulltext. cbn [fulltext_root vector_cache]. rewrite Hf. cbn.
    split; [split; [done|left; split; [|done]]|done].
    unfold fulltext_cached. cbn. by rewrite bool_decide_true.
Qed.

(** Queries of both kinds while the published generation stays that of [key]. *)
Inductive query_step (key : CacheKey) : QueryCoordinator → QueryCoordinator → Prop :=
| query_step_composite env T (op : QueryScope → result T SearchRuntimeErrorCode) s :
    healthy env s key → query_step key s (with_query env op s).1
| query_step_lexical env T (op : LexicalQueryScope → result T SearchRuntimeErrorCode) s :
    healthy env s key → query_step key s (with_lexical_query env op s).1.

Lemma query_steps_half_open key s s' :
  half_open key s → reachable (query_step key) s s' → half_open key s'.
Proof.
  intros HH HR. revert s' HR. apply reachable_invariant; [done|].
  intros s1 s2 H1 HS. destruct HS as [env T op s1 He|env T op s1 He].
  - by destruct (half_open_query env op s1 key He H1) as (_ & ? & _).
  - by destruct (lexical_query_half_opens env op s1 key He (or_intror H1)) as [? _].
Qed.

(** From cold caches the composite query runs its operation. *)
Lemma cold_query_runs {T} env (op : QueryScope → result T SearchRuntimeErrorCode) s key :
  healthy env s key → cold s →
  ∃ scope, (with_query env op s).2 = op scope.
Proof.
  intros (h & ps & f & v & HQ & Hc & Ha & Hf & Hv) (H1 & H2 & H3).
  rewrite (with_query_run env op s h key HQ). destruct HQ as (_ & _ & _ & _ & Hk).
  unfold query_body. cbn [head connection]. rewrite Hk.
  unfold adopt_pending_generation, validated_active_projections. cbn [connection head]. rewrite Ha.
  destruct s as [dd fr vr fc vc pg pf]. cbn in H1, H2, H3, Hf, Hv. subst.
  unfold fulltext_cached, vector_cached.
  cbn [fulltext_cache vector_cache andb negb orb step_bind pending_generation map_err result_bind
       set_caches].
  unfold refresh_fulltext. cbn [fulltext_root vector_cache]. rewrite Hf. cbn [step_bind set_caches].
  unfold refresh_vector. cbn [vector_root fulltext_cache]. rewrite Hv.
  cbn [step_bind set_caches fulltext_cache vector_cache ok_or result_bind].
  match goal with |- context [op ?sc] => exists sc; destruct (op sc) end; [|done].
  unfold finish. cbn [snd]. by rewrite Hc.
Qed.

(** C34: a composite query works on a cold coordinator, but once a lexical query
    has been the first to open a generation every composite query on it fails
    with an integrity error, however many queries of either kind follow and
    although all artifacts are valid: the composite path clears both caches and
    then refreshes only the one that was stale. *)
Theorem composite_query_fails_after_lexical env s key T
    (opl : LexicalQueryScope → result T SearchRuntimeErrorCode) :
  cold s → healthy env s key →
  (∀ (op : QueryScope → result T SearchRuntimeErrorCode),
     ∃ scope, (with_query env op s).2 = op scope) ∧
  ∀ s' env' (op : QueryScope → result T SearchRuntimeErrorCode),
    reachable (query_step key) (with_lexical_query env opl s).1 s' →
    healthy env' s' key → (with_query env' op s').2 = Err Integrity.
Proof.
  intros Hcold He. split; [intros op; by apply (cold_query_runs env op s key)|].
  intros s' env' op HR He'.
  destruct (lexical_query_half_opens env opl s key He (or_introl Hcold)) as [HH _].
  apply (query_steps_half_open _ _ _ HH) in HR.
  by destruct (half_open_query env' op s' key He' HR) as (? & _).
Qed.
End protocol.

(** ** A sample environment *)

(** Readers that hold their metadata and identities in memory. *)
Definition sample_backend : SearchBackend := {|
  FullTextIndex := PublishedSnapshotMetadata * list (str * str);
  snapshot_metadata ft := Some ft.1;
  exact_identity_pairs ft := Some ft.2;
  fulltext_search ft q :=
    Some (imap (λ i ids, MkFullTextHit (Z.of_nat i + 1) (f32_of_Z 1) ids.1 ids.2
                           (lit "cv.pdf") (lit "snippet"))
            (take (Z.to_nat (sq_limit q)) ft.2));
  search_allowed_doc_ids ft q allowed :=
    Some (imap (λ i ids, MkFullTextHit (Z.of_nat i + 1) (f32_of_Z 1) ids.1 ids.2
                           (lit "cv.pdf") (lit "snippet"))
            (take (Z.to_nat (sq_limit q)) (List.filter (λ ids, str_in ids.1 allowed) ft.2)));
  VectorSnapshotReader := VectorSnapshotSummary * list ActiveSearchProjection;
  summary v := v.1;
  exact_projection v := v.2;
  knn v q k :=
    Some (map (λ p, MkVectorHit (lit "vec") (pair_of p).1 (pair_of p).2 (lit "model") (f32_of_Z 1))
            (take (Z.to_nat k) v.2));
|}.
#[local] Existing Instance sample_backend.
#[local] Existing Instance toy_sha256.

Definition sample_fulltext (g : str) : FullTextIndex :=
  (MkPublishedMetadata g 2 sample_projection_digest (MkDigest (lit "sha256:content"))
     (MkDigest (lit "sha256:artifact")), pair_of <$> sample_projections).

Definition sample_vector (g : str) : VectorSnapshotReader :=
  (MkSummary g ContractDisabled 0 2 0 sample_projection_digest sample_projection_digest
     (MkDigest (lit "sha256:vectors")) (MkDigest (lit "sha256:artifact")), sample_projections).

Definition sample_env : Env := {|
  env_canonicalize p := Some p;
  env_open_store _ := Ok tt;
  env_connection := sample_connection;
  env_begins := true;
  env_commits := true;
  env_fulltext_lease _ := Some (Some tt);
  env_vector_root _ := Some tt;
  env_vector_lease _ := Some tt;
  env_open_fulltext _ g := Some (Some (sample_fulltext g));
  env_open_vector _ g _ := Some (sample_vector g);
|}.

Definition sample_dir : path := [lit "data"].

Definition sample_coordinator : QueryCoordinator :=
  MkCoordinator sample_dir (join_path sample_dir (lit "search-index"))
    (join_path sample_dir (lit "vector-index")) None None None None.

Definition sample_key : CacheKey := MkKey sample_generation (MkDigest (lit "sha256:fingerprint")).

Definition sample_published (p : SearchPublicationRecord) (ps : list ActiveSearchProjection) : Prop :=
  p = sample_publication sample_generation ∧ ps = sample_projections.

Lemma sample_immutable : immutable_publications sample_published.
Proof. by intros ? ? ? ? ? [-> ->] [-> ->]. Qed.

Lemma sample_audit :
  audit_active_projection sample_connection sample_head = Ok sample_projections.
Proof. vm_compute. reflexivity. Qed.

Lemma sample_env_published : env_published sample_published sample_env.
Proof.
  intros h Hh. cbn [env_connection sample_env] in *. rewrite sample_head_readable in Hh.
  injection Hh as <-. split; [by exists sample_projections|].
  intros ps. rewrite sample_audit. by intros [= <-].
Qed.

Lemma sample_run : coordinator_run sample_published sample_coordinator.
Proof.
  exists sample_env, sample_dir, sample_coordinator. split; [vm_compute; reflexivity|constructor].
Qed.

Lemma queries_are_generation_pinned_witness :
  with_query sample_env (λ scope, Ok (exact_projection (scope_vector scope))) sample_coordinator
  = with_query sample_env (λ _, Ok sample_projections) sample_coordinator.
Proof.
  refine (proj1 (queries_are_generation_pinned sample_published sample_coordinator sample_env
                   sample_immutable sample_run sample_env_published) _ _ _ _).
  intros scope (h & ps & fd & vd & _ & _ & [_ ->] & _ & _ & _ & Hv). by rewrite (proj1 Hv).
Defined.

Definition sample_warm : QueryCoordinator :=
  (with_query sample_env (λ _, Ok tt) sample_coordinator).1.

Lemma sample_warm_run : coordinator_run sample_published sample_warm.
Proof.
  destruct sample_run as (e & d & s0 & Ho & Hr). exists e, d, s0. split; [done|].
  eapply reachable_step; [exact Hr|]. by apply step_query, sample_env_published.
Qed.

Lemma resident_generations_bounded_witness :
  resident_generation_count sample_warm = 1%nat ∧
  (resident_generation_count sample_warm ≤ 2)%nat.
Proof.
  split; [vm_compute; reflexivity|].
  exact (proj2 (resident_generations_bounded sample_published sample_warm sample_immutable
                  sample_warm_run)).
Defined.

Definition sample_prepared : PreparedQueryGeneration :=
  MkPrepared sample_dir (MkFT sample_key (sample_fulltext sample_generation))
    (MkVG sample_key (sample_vector sample_generation)).

Lemma prepared_generation_protocol_witness :
  with_query sample_env (λ scope, Ok (exact_projection (scope_vector scope)))
    (set_pending sample_coordinator (Some sample_prepared))
  = (set_caches sample_coordinator (Some (prepared_fulltext sample_prepared))
       (Some (prepared_vector sample_prepared)), Ok sample_projections).
Proof.
  rewrite (prepared_generation_protocol sample_env _ _ sample_prepared sample_head sample_key).
  - reflexivity.
  - split_and!; [reflexivity..|exact sample_head_readable|reflexivity].
  - reflexivity.
  - reflexivity.
Defined.

Lemma sample_healthy : healthy sample_env sample_coordinator sample_key.
Proof.
  exists sample_head, sample_projections, (prepared_fulltext sample_prepared),
    (prepared_vector sample_prepared).
  split_and!; [split_and!; [reflexivity..|exact sample_head_readable|reflexivity]|reflexivity|
               exact sample_audit|vm_compute; reflexivity..].
Qed.

Lemma composite_query_fails_after_lexical_witness :
  (with_query sample_env (λ _, Ok tt) sample_coordinator).2 = Ok tt ∧
  (with_query sample_env (λ _, Ok tt)
     (with_lexical_query sample_env (λ _, Ok tt) sample_coordinator).1).2 = Err Integrity.
Proof.
  destruct (composite_query_fails_after_lexical sample_env sample_coordinator sample_key unit
              (λ _, Ok tt) ltac:(split_and!; reflexivity) sample_healthy) as [H1 H2].
  split.
  - destruct (H1 (λ _, Ok tt)) as [scope ->]. reflexivity.
  - apply H2; [constructor|].
    exists sample_head, sample_projections, (prepared_fulltext sample_prepared),
      (prepared_vector sample_prepared).
    split_and!; [split_and!; [vm_compute; reflexivity..|exact sample_head_readable|reflexivity]|
      reflexivity|exact sample_audit|vm_compute; reflexivity..].
Defined.
