(* ===== verification/QueryScope.v ===== *)
(** * Query scopes (crates/search-runtime, scope.rs)

    The bounded facade a query operation works through: limits, filter
    selections with their binary search, full-text and semantic candidates, and
    exact hydration. *)

From Stdlib Require Import ZArith String Sorted.
From stdpp Require Import prelude.
From S2P Require Import Prelude Collections Float32 Text Identity SearchMetadata Coordinator.

Local Open Scope Z_scope.

Definition MAX_QUERY_HITS : Z := 100.

(** ** Limits *)

Record HitLimit := MkHitLimit { hit_limit_get : Z }.
Record SelectionLimit := MkSelectionLimit { selection_limit_get : Z }.

(** [NonZeroUsize::new]. *)
Definition non_zero (value : Z) : option Z := if value =? 0 then None else Some value.

Definition hit_limit_new (value : Z) : result HitLimit SearchRuntimeErrorCode :=
  let? value := ok_or (non_zero value) InvalidRequest in
  if MAX_QUERY_HITS <? value then Err InvalidRequest else Ok (MkHitLimit value).

Definition selection_limit_new (value : Z) : result SelectionLimit SearchRuntimeErrorCode :=
  let? value := ok_or (non_zero value) InvalidRequest in
  if MAX_BOUNDED_FILTER_SELECTION <? value then Err InvalidRequest
  else Ok (MkSelectionLimit value).

(** ** Query vectors *)

Record SemanticQueryVector := MkQueryVector { query_values : list f32 }.

(** [QueryVector::new] accepts non-empty finite vectors; its error is mapped. *)
Definition semantic_query_vector_new (values : list f32)
    : result SemanticQueryVector SearchRuntimeErrorCode :=
  if (len values =? 0) || negb (forallb f32_is_finite values) then Err InvalidRequest
  else Ok (MkQueryVector values).

Inductive SemanticContract :=
| SemDisabled
| SemEnabled (model_id : str) (dimension : Z).

(** ** Filter selections *)

Record FilterSelection := MkFilterSelection {
  fs_projections : list ActiveSearchProjection;
  fs_document_ids : list str;
}.

(** The comparison of a candidate with the projection searched for; ids order
    by their text. *)
Definition projection_cmp (candidate projection : ActiveSearchProjection) : comparison :=
  then_with (cmp (id_str (proj_document_id candidate)) (id_str (proj_document_id projection)))
    (cmp (id_str (proj_resume_version_id candidate)) (id_str (proj_resume_version_id projection))).

(** [slice::binary_search_by]: the loop halves [size], the probe is at
    [base + size / 2]; the fuel is the length. *)
Fixpoint binary_search_loop {A} (f : A → comparison) (l : list A) (fuel : nat) (base size : nat) : nat :=
  match fuel with
  | O => base
  | S fuel =>
      if (size <=? 1)%nat then base
      else
        let half := (size / 2)%nat in
        let mid := (base + half)%nat in
        let base :=
          match l !! mid with
          | Some x => match f x with Gt => base | _ => mid end
          | None => base
          end in
        binary_search_loop f l fuel base (size - half)%nat
  end.

(** [.is_ok()] of the search. *)
Definition binary_search_found {A} (f : A → comparison) (l : list A) : bool :=
  match l with
  | [] => false
  | _ =>
      match l !! binary_search_loop f l (length l) 0 (length l) with
      | Some x => match f x with Eq => true | _ => false end
      | None => false
      end
  end.

Definition selection_contains (self : FilterSelection) (projection : ActiveSearchProjection) : bool :=
  binary_search_found (λ candidate, projection_cmp candidate projection) (fs_projections self).

Section scope.
Context `{SearchBackend}.

Record FullTextCandidate := MkFullTextCandidate {
  ftc_projection : ActiveSearchProjection;
  ftc_rank : Z;
  ftc_score : f32;
  ftc_file_name : str;
  ftc_snippet : str;
}.

Record SemanticCandidate := MkSemanticCandidate {
  sc_projection : ActiveSearchProjection;
  sc_rank : Z;
  sc_score : f32;
}.

Record HydratedSearchHit := MkHydratedHit {
  hh_selection : SearchSelection;
  hh_document : Document;
  hh_candidate_id : option (StableId CandidateId);
  hh_mentions : list EntityMention;
}.

Definition parse_projection (document_id resume_version_id : str)
    : result ActiveSearchProjection SearchRuntimeErrorCode :=
  parse_pair Integrity (document_id, resume_version_id).

Definition visible_epoch (self : LexicalQueryScope) : Z :=
  head_visible_epoch (head (lex_metadata self)).

Definition filter_selection (self : LexicalQueryScope) (filter : SearchProjectionFilter)
    (limit : SelectionLimit) : result FilterSelection SearchRuntimeErrorCode :=
  let? selection :=
    map_err (λ _, Integrity)
      (bounded_filter_selection (lex_metadata self) filter (selection_limit_get limit)) in
  match selection with
  | TooLarge _ => Err SelectionTooLarge
  | Selected projections =>
      Ok (MkFilterSelection projections
            (bset_collect (map (λ p, id_str (proj_document_id p)) projections)))
  end.

(** [selection.is_some_and(|s| !s.contains(p))], negated. *)
Definition allows (selection : option FilterSelection) (projection : ActiveSearchProjection) : bool :=
  match selection with
  | Some selection => selection_contains selection projection
  | None => true
  end.

Definition fulltext_candidates (self : LexicalQueryScope) (query : str) (limit : HitLimit)
    (selection : option FilterSelection) : result (list FullTextCandidate) SearchRuntimeErrorCode :=
  if is_empty (trim query) then Err InvalidRequest
  else
    let query := MkSearchQuery query (hit_limit_get limit) in
    let? hits :=
      ok_or
        match selection with
        | Some selection =>
            search_allowed_doc_ids (lex_fulltext self) query (fs_document_ids selection)
        | None => fulltext_search (lex_fulltext self) query
        end Unavailable in
    collect_results
      (λ hit,
        let? projection := parse_projection (fth_doc_id hit) (fth_resume_version_id hit) in
        if negb (allows selection projection) then Err Integrity
        else Ok (MkFullTextCandidate projection (fth_rank hit) (fth_score hit)
                   (fth_file_name hit) (fth_snippet hit)))
      hits.

(** The method on the scope, over the store's hydration. *)
Definition hydrate_hits (self : LexicalQueryScope) (projections : list ActiveSearchProjection)
    : result (list HydratedSearchHit) SearchRuntimeErrorCode :=
  let? cap := ok_or (non_zero MAX_EXACT_HIT_HYDRATION) Integrity in
  let? hydration :=
    map_err (λ _, Integrity) (hydrate_exact_hits (lex_metadata self) projections cap) in
  match hydration with
  | HydrationFailed _ => Err Integrity
  | Hydrated hits =>
      Ok (map (λ hit,
            MkHydratedHit
              (MkSelection (proj_document_id (hm_projection hit))
                 (proj_resume_version_id (hm_projection hit)) (visible_epoch self))
              (hm_document hit) (hm_candidate_id hit) (hm_mentions hit)) hits)
  end.

Definition semantic_contract (self : QueryScope) : SemanticContract :=
  match vs_model_contract (summary (scope_vector self)) with
  | ContractDisabled => SemDisabled
  | ContractEnabled model_id dimension => SemEnabled model_id dimension
  end.

(** The [enumerate().filter_map(..).collect()] of [semantic_candidates]. *)
Fixpoint semantic_loop (selection : option FilterSelection) (rank : Z) (hits : list VectorHit)
    : result (list SemanticCandidate) SearchRuntimeErrorCode :=
  match hits with
  | [] => Ok []
  | hit :: hits =>
      let? projection := parse_projection (vh_document_id hit) (vh_resume_version_id hit) in
      let? rest := semantic_loop selection (rank + 1) hits in
      Ok (if allows selection projection
          then MkSemanticCandidate projection (rank + 1) (vh_score hit) :: rest
          else rest)
  end.

Definition semantic_candidates (self : QueryScope) (query : SemanticQueryVector) (limit : HitLimit)
    (selection : option FilterSelection) : result (list SemanticCandidate) SearchRuntimeErrorCode :=
  match vs_model_contract (summary (scope_vector self)) with
  | ContractDisabled => Err SemanticDisabled
  | ContractEnabled _ _ =>
      let? hits :=
        ok_or (knn (scope_vector self) (query_values query) (hit_limit_get limit)) InvalidRequest in
      semantic_loop selection 0 hits
  end.
End scope.

(** ** Binary search *)

Section binary_search.
Context {A : Type} (f : A → comparison) (l : list A).

(** The comparator changes once from [Lt] through at most one [Eq] to [Gt]. *)
Definition monotone : Prop := ∀ i j x y,
  (i < j)%nat → l !! i = Some x → l !! j = Some y → f x ≠ Lt → f y = Gt.

Lemma binary_search_loop_spec fuel base size k x :
  monotone → (size ≤ fuel)%nat → (1 ≤ size)%nat → (base + size ≤ length l)%nat →
  l !! k = Some x → f x = Eq → (base ≤ k < base + size)%nat →
  binary_search_loop f l fuel base size = k.
Proof.
  intros Hm. revert base size. induction fuel as [|fuel IH]; intros base size Hf Hs Hb Hk Hx Hr;
    cbn [binary_search_loop]; [lia|].
  destruct (size <=? 1)%nat eqn:E1; [apply Nat.leb_le in E1; lia|]. apply Nat.leb_gt in E1.
  assert (1 ≤ size / 2 < size)%nat as Hh.
  { split; [apply Nat.div_le_lower_bound; lia|apply Nat.div_lt; lia]. }
  assert (size / 2 ≤ size - size / 2)%nat as Hh2 by (pose proof (Nat.div_mod_eq size 2); lia).
  destruct (lookup_lt_is_Some_2 l (base + size / 2)) as [y Hy]; [lia|]. rewrite Hy.
  destruct (f y) eqn:Ey.
  1,2: apply IH; auto; [lia..|]; split; [|lia];
    destruct (decide (base + size / 2 ≤ k)%nat); [done|];
    assert (f y = Gt) by (apply (Hm k (base + size / 2)%nat x y); auto; [lia|congruence]);
    congruence.
  apply IH; auto; [lia..|]. split; [lia|].
  destruct (decide (k < base + size / 2)%nat); [lia|].
  destruct (decide (k = base + size / 2)%nat) as [->|]; [congruence|].
  assert (f x = Gt); [|congruence].
  apply (Hm (base + size / 2)%nat k y x); auto; [lia|congruence].
Qed.

Lemma binary_search_found_iff :
  monotone → binary_search_found f l = true ↔ ∃ x, x ∈ l ∧ f x = Eq.
Proof.
  intros Hm. unfold binary_search_found. destruct (decide (l = [])) as [->|Hne].
  { split; [done|]. intros (x & Hx & _). by apply not_elem_of_nil in Hx. }
  assert (∀ b : bool, match l with [] => false | _ => b end = b) as Hmatch by (by destruct l).
  rewrite Hmatch. split.
  - intros HF. destruct (l !! _) as [x|] eqn:Ex; [|done].
    exists x. split; [by eapply list_elem_of_lookup_2|]. by destruct (f x).
  - intros (x & [k Hk]%list_elem_of_lookup & Hx).
    pose proof (lookup_lt_Some _ _ _ Hk).
    rewrite (binary_search_loop_spec (length l) 0 (length l) k x); auto; [|lia..].
    by rewrite Hk, Hx.
Qed.
End binary_search.

Lemma projection_cmp_pair p q : projection_cmp p q = cmp (pair_of p) (pair_of q).
Proof. reflexivity. Qed.

(** Strictly increasing by document id, then version id. *)
Definition projections_sorted (ps : list ActiveSearchProjection) : Prop :=
  ssorted (pair_of <$> ps).

Lemma ssorted_lookup_lt `{CmpLaws A} (l : list A) i j x y :
  ssorted l → (i < j)%nat → l !! i = Some x → l !! j = Some y → cmp_lt x y.
Proof.
  intros HS. revert i j. induction HS as [|z l HS IH Hz]; intros i j Hij Hi Hj; [done|].
  destruct j as [|j]; [lia|]. cbn in Hj. destruct i as [|i]; cbn in Hi.
  - injection Hi as ->. rewrite Forall_forall in Hz. apply Hz. by eapply list_elem_of_lookup_2.
  - apply (IH i j); auto. lia.
Qed.

Lemma selection_contains_iff s p :
  projections_sorted (fs_projections s) →
  selection_contains s p = true ↔ p ∈ fs_projections s.
Proof.
  intros HS. unfold selection_contains. rewrite binary_search_found_iff.
  - split.
    + intros (x & Hx & Heq). rewrite projection_cmp_pair in Heq. apply cmp_eq, pair_of_inj in Heq.
      by subst.
    + intros Hp. exists p. split; [done|]. rewrite projection_cmp_pair. apply cmp_refl.
  - intros i j x y Hij Hx Hy Hne. rewrite projection_cmp_pair in *.
    assert (cmp_lt (pair_of x) (pair_of y)) as Hlt.
    { eapply (ssorted_lookup_lt _ i j); [exact HS|done|by rewrite list_lookup_fmap, Hx|
        by rewrite list_lookup_fmap, Hy]. }
    apply cmp_gt_lt. destruct (cmp (pair_of x) (pair_of p)) eqn:E; [|done|].
    + apply cmp_eq in E. by rewrite <- E.
    + apply cmp_gt_lt in E. by transitivity (pair_of x).
Qed.

(** ** Candidates under a filter *)

Lemma semantic_loop_filter selection rank hits cands :
  semantic_loop selection rank hits = Ok cands →
  ∃ all, semantic_loop None rank hits = Ok all ∧
    cands = List.filter (λ c, allows selection (sc_projection c)) all.
Proof.
  revert rank cands. induction hits as [|hit hits IH]; intros rank cands HL; cbn in HL |- *.
  { injection HL as <-. by exists []. }
  destruct (parse_projection _ _) as [p|e]; cbn [result_bind] in *; [|done].
  destruct (semantic_loop selection (rank + 1) hits) as [rest|e] eqn:E; cbn [result_bind] in HL;
    [|done].
  injection HL as <-. destruct (IH _ _ E) as (all & -> & ->). cbn [result_bind].
  eexists. split; [done|]. cbn. by destruct (allows selection p).
Qed.

Lemma fulltext_candidates_allowed `{SearchBackend} scope query limit selection cands :
  fulltext_candidates scope query limit selection = Ok cands →
  Forall (λ c, allows selection (ftc_projection c) = true) cands.
Proof.
  unfold fulltext_candidates. intros HC. do 2 peel HC.
  apply collect_results_Forall2 in HC. eapply Forall2_Forall_r; [exact HC|].
  apply Forall_forall. intros hit _ c Hc. peel Hc.
  destruct (allows selection _) eqn:E'; cbn in Hc; [|done]. by injection Hc as <-.
Qed.

Section filtered.
Context `{SearchBackend} (scope : QueryScope) (filter : SearchProjectionFilter) (cap : Z)
  (matching : list (str * str)) (ps : list ActiveSearchProjection).
Let snapshot := lex_metadata (scope_lexical scope).

(** The rows the store holds for the filter, in the order of the query (a
    document is projected once per generation). *)
Definition filter_rows : Prop :=
  limited (connection snapshot) filter (head_generation (head snapshot)) matching ∧
  collect_results (parse_pair InvalidValue) matching = Ok ps ∧ projections_sorted ps.
End filtered.

(** C38: a filter selection is the whole set of matching projections or an
    explicit failure, and candidates respect it: every full-text candidate is
    in the set, and the semantic candidates are the unfiltered ones restricted
    to it, in order and with their ranks. *)
Theorem filtered_candidates_exact `{SearchBackend} scope filter cap matching ps :
  validate_filter filter = Ok tt → 0 ≤ cap ≤ MAX_BOUNDED_FILTER_SELECTION →
  filter_rows scope filter matching ps →
  match filter_selection (scope_lexical scope) filter (MkSelectionLimit cap) with
  | Err e => e = SelectionTooLarge ∧ cap < len ps
  | Ok sel =>
      fs_projections sel = ps ∧ len ps ≤ cap ∧
      (∀ query limit cands,
         fulltext_candidates (scope_lexical scope) query limit (Some sel) = Ok cands →
         Forall (λ c, ftc_projection c ∈ ps) cands) ∧
      (∀ query limit cands,
         semantic_candidates scope query limit (Some sel) = Ok cands →
         ∃ all, semantic_candidates scope query limit None = Ok all ∧
           cands = List.filter (λ c, bool_decide (sc_projection c ∈ ps)) all)
  end.
Proof.
  intros Hv Hcap (Hlim & Hparse & Hsorted). unfold filter_selection.
  cbn [selection_limit_get].
  assert (len matching = len ps) as Hlen.
  { apply collect_results_Forall2, Forall2_length in Hparse. unfold len. congruence. }
  rewrite (bounded_filter_selection_rows _ _ _ _ _ Hv Hcap Hlim Hparse). cbn [map_err result_bind].
  destruct (_ <=? cap) eqn:E; bools; [|split; [done|lia]].
  split_and!; [done|lia| |].
  - intros query limit cands HF%fulltext_candidates_allowed. eapply Forall_impl; [exact HF|].
    cbn [allows]. intros c Hc. by apply selection_contains_iff in Hc.
  - unfold semantic_candidates. destruct (vs_model_contract _) as [|m d]; [done|].
    intros query limit cands HC. destruct (knn _ _ _) as [hits|]; cbn [ok_or result_bind] in *; [|done].
    apply semantic_loop_filter in HC as (all & -> & ->). exists all. split; [done|].
    apply filter_ext. intros c. cbn [allows]. apply eq_true_iff_eq.
    rewrite bool_decide_eq_true. by apply selection_contains_iff.
Qed.

(** ** A sample scope *)

#[local] Existing Instance sample_backend.

Definition sample_enabled_vector : VectorSnapshotReader :=
  (MkSummary sample_generation (ContractEnabled (lit "model") 2) 2 2 2 sample_projection_digest
     sample_projection_digest (MkDigest (lit "sha256:vectors")) (MkDigest (lit "sha256:artifact")),
   sample_projections).

Definition sample_scope : QueryScope :=
  MkScope (MkLexicalScope (MkMetadataSnapshot sample_connection sample_head)
             (sample_fulltext sample_generation)) sample_enabled_vector.

Lemma sample_filter_rows :
  filter_rows sample_scope (MkProjectionFilter []) (pair_of <$> sample_projections)
    sample_projections.
Proof.
  split_and!.
  - intros n _. reflexivity.
  - vm_compute. reflexivity.
  - repeat constructor.
Qed.

Lemma filtered_candidates_exact_witness :
  match filter_selection (scope_lexical sample_scope) (MkProjectionFilter []) (MkSelectionLimit 2) with
  | Err _ => False
  | Ok sel =>
      ∃ all cands, semantic_candidates sample_scope (MkQueryVector [f32_of_Z 1]) (MkHitLimit 5) None
                   = Ok all ∧
        semantic_candidates sample_scope (MkQueryVector [f32_of_Z 1]) (MkHitLimit 5) (Some sel)
          = Ok cands ∧
        cands = List.filter (λ c, bool_decide (sc_projection c ∈ sample_projections)) all
  end.
Proof.
  pose proof (filtered_candidates_exact sample_scope (MkProjectionFilter []) 2 _ _ eq_refl
                ltac:(vm_compute; split; discriminate) sample_filter_rows) as HT.
  assert (∃ sel cands, filter_selection (scope_lexical sample_scope) (MkProjectionFilter [])
            (MkSelectionLimit 2) = Ok sel ∧
          semantic_candidates sample_scope (MkQueryVector [f32_of_Z 1]) (MkHitLimit 5) (Some sel)
            = Ok cands) as (sel & cands & H1 & H2).
  { eexists. eexists. split; vm_compute; reflexivity. }
  rewrite H1 in *. destruct HT as (_ & _ & _ & HS). destruct (HS _ _ _ H2) as (all & Ha & Hc).
  by exists all, cands.
Defined.
