(* ===== verification/QueryRuntime.v ===== *)
(** * Search execution (crates/daemon, query_runtime.rs and search_contract.rs)

    One search request: prepare the query embedding, run the lexical or the
    composite pass inside the coordinator, fuse both recalls, hydrate and fold
    the candidates.  The embedding worker and the regular-expression engine of the
    redaction are parameters; what the cancellation flag and the deadline answer at
    each of their checks is the [Clock] argument.  [None] is a Rust panic. *)

From Stdlib Require Import ZArith String Sorted.
From stdpp Require Import prelude.
From S2P Require Import Redaction.
From S2P Require Import Prelude Collections Float32 Text Identity Query Filters Fusion.
From S2P Require Import SearchMetadata Coordinator QueryScope.

Local Open Scope Z_scope.

(** ** Requests *)

Inductive DaemonSearchMode := ModeFullText | ModeSemantic | ModeHybrid.

#[export] Instance DaemonSearchMode_eq_dec : EqDecision DaemonSearchMode.
Proof. solve_decision. Defined.

Record DaemonSearchArgs := MkArgs {
  args_query : str;
  args_mode : DaemonSearchMode;
  args_top_k : Z;
  args_filter : SearchProjectionFilter;
}.

Definition mode_parse (value : str) : option DaemonSearchMode :=
  str_match value
    [([lit "fulltext"; lit "keyword"], ModeFullText);
     ([lit "semantic"], ModeSemantic);
     ([lit "hybrid"], ModeHybrid)].

Definition response_label (self : DaemonSearchMode) : str :=
  match self with
  | ModeFullText => lit "keyword"
  | ModeSemantic => lit "semantic"
  | ModeHybrid => lit "hybrid"
  end.

(** The places where cancellation and deadline are looked at. *)
Inductive CheckPoint :=
| AfterPrepare | PassStart | AfterFullText | PassEnd.

Record Clock := MkClock {
  is_cancelled : CheckPoint → bool;
  expired : CheckPoint → bool;
  (** [deadline.remaining_ms()] when the embedding starts. *)
  remaining_ms : option Z;
}.

(** ** File names *)

Definition SEARCH_RESULT_FILE_NAME_MAX_BYTES : Z := 160.

(** [while !value.is_char_boundary(end) { end -= 1 }]; the start of the text is
    a boundary, so [end] is enough fuel. *)
Fixpoint boundary_before (value : str) (fuel : nat) (end_ : Z) : Z :=
  match byte_take value end_, fuel with
  | None, S fuel => boundary_before value fuel (end_ - 1)
  | _, _ => end_
  end.

(** The slice panics off a boundary. *)
Definition truncate_utf8_bytes (value : str) (max_bytes : Z) : option str :=
  if str_len value <=? max_bytes then Some value
  else
    let end_ := Z.max 0 (max_bytes - str_len (lit "...")) in
    let end_ := boundary_before value (Z.to_nat end_) end_ in
    kept ← byte_take value end_;
    Some (kept ++ lit "...").

Definition redact_search_file_name `{RegexEngine} (value : str) : option str :=
  let compact := join [32] (split_whitespace value) in
  let redacted := cow_str (redact_contact_values compact) in
  truncate_utf8_bytes redacted SEARCH_RESULT_FILE_NAME_MAX_BYTES.

(** ** Outcomes *)

Record SearchHit := MkSearchHit {
  sh_rank : Z;
  sh_selection : SearchSelection;
  sh_file_name : str;
  sh_snippet : str;
}.

Record CompletedSearch := MkCompleted {
  completed_epoch : Z;
  completed_hits : list SearchHit;
  partial_reasons : list str;
}.

Inductive SearchExecutionOutcome :=
| Complete (search : CompletedSearch)
| Cancelled (visible_epoch : Z)
| DeadlineExceeded (search : CompletedSearch).

Inductive QueryFailure :=
| FBadRequest | FIntegrity | FSemanticDisabled | FSelectionTooLarge | FUnavailable.

Definition map_runtime_error (error : SearchRuntimeErrorCode) : QueryFailure :=
  match error with
  | Unavailable => FUnavailable
  | Integrity => FIntegrity
  | SemanticDisabled => FSemanticDisabled
  | SelectionTooLarge => FSelectionTooLarge
  | InvalidRequest => FBadRequest
  end.

Inductive PreparedSemantic :=
| NotRequested
| SemReady (model_id : str) (dimension : Z) (query : SemanticQueryVector)
| SemRuntimeUnavailable.

Inductive QueryPass :=
| PassComplete (search : CompletedSearch)
| PassCancelled (visible_epoch : Z)
| PassDeadlineExceeded (search : CompletedSearch)
| PassSemanticDisabled
| PassSemanticContractMismatch
| PassSemanticRuntimeUnavailable.

Record RankedCandidate := MkCandidate {
  rc_projection : ActiveSearchProjection;
  rc_score : f32;
  rc_file_name : str;
  rc_snippet : str;
}.

(** ** The query embedding *)

Inductive EmbeddingError :=
| EInvalidDimension | EInvalidRequest | EWorkerUnavailable | EEngineFailed | EOverloaded
| ECancelled | ETimeout | EBudgetExceeded (limit actual : Z) | ETextBudgetExceeded (limit actual : Z).

(** A timeout is reported as an unavailable runtime whether or not the deadline
    was the limit, so [deadline_limited] has no effect of its own.

    The resident client: query text, text budget and timeout to vectors. *)
Record SearchRuntimeConfig := MkConfig {
  resident_embedding : option (str → Z → Z → result (list (list f32)) EmbeddingError);
  embedding_model_id : option str;
  embedding_dimension : option Z;
  embedding_timeout_ms : Z;
}.

Definition prepare_semantic (args : DaemonSearchArgs) (config : SearchRuntimeConfig) (clock : Clock)
    : result PreparedSemantic QueryFailure :=
  if bool_decide (args_mode args = ModeFullText) then Ok NotRequested
  else
    match resident_embedding config, embedding_model_id config, embedding_dimension config with
    | Some embedder, Some model_id, Some dimension =>
        match remaining_ms clock with
        | None => Ok SemRuntimeUnavailable
        | Some remaining_ms =>
            let timeout := Z.min (embedding_timeout_ms config) remaining_ms in
            match embedder (args_query args) (Z.max (str_len (args_query args)) 1) timeout with
            | Ok vectors =>
                let? vector := ok_or (List.hd_error vectors) FUnavailable in
                let? query := map_err map_runtime_error (semantic_query_vector_new vector) in
                Ok (SemReady model_id dimension query)
            | Err (ECancelled | EWorkerUnavailable | EEngineFailed | EOverloaded | ETimeout) =>
                Ok SemRuntimeUnavailable
            | Err (EInvalidDimension | EInvalidRequest | EBudgetExceeded _ _
                  | ETextBudgetExceeded _ _) => Err FUnavailable
            end
        end
    | _, _, _ => Ok SemRuntimeUnavailable
    end.

Inductive SemanticTerminal := TDisabled | TContractMismatch | TRuntimeUnavailable.

#[export] Instance SemanticTerminal_eq_dec : EqDecision SemanticTerminal.
Proof. solve_decision. Defined.

Record ValidatedSemantic := MkValidatedSemantic {
  vsem_query : option SemanticQueryVector;
  vsem_terminal : option SemanticTerminal;
}.

Definition validate_semantic_contract (contract : SemanticContract) (prepared : PreparedSemantic)
    : ValidatedSemantic :=
  match contract, prepared with
  | _, NotRequested => MkValidatedSemantic None None
  | SemDisabled, _ => MkValidatedSemantic None (Some TDisabled)
  | SemEnabled _ _, SemRuntimeUnavailable => MkValidatedSemantic None (Some TRuntimeUnavailable)
  | SemEnabled expected_model expected_dimension, SemReady model_id dimension query =>
      if str_eqb model_id expected_model && (dimension =? expected_dimension)
      then MkValidatedSemantic (Some query) None
      else MkValidatedSemantic None (Some TContractMismatch)
  end.

(** ** Candidates and fusion *)

Definition ranked_fulltext (hit : FullTextCandidate) : RankedCandidate :=
  MkCandidate (ftc_projection hit) (ftc_score hit) (ftc_file_name hit) (ftc_snippet hit).

Definition ranked_semantic (hit : SemanticCandidate) : RankedCandidate :=
  MkCandidate (sc_projection hit) (sc_score hit) [] (lit "semantic match").

Definition candidate_doc (c : RankedCandidate) : str := id_str (proj_document_id (rc_projection c)).

(** [entry(..).and_modify(..).or_insert_with(..)]: a stored candidate without a
    file name takes the name and snippet of a later one that has it. *)
Definition merge_candidate (candidate : RankedCandidate) (stored : option RankedCandidate)
    : RankedCandidate :=
  match stored with
  | Some stored =>
      if is_empty (rc_file_name stored) && negb (is_empty (rc_file_name candidate))
      then MkCandidate (rc_projection stored) (rc_score stored) (rc_file_name candidate)
             (rc_snippet candidate)
      else stored
  | None => candidate
  end.

Definition candidates_by_document (lexical semantic : list RankedCandidate)
    : list (str * RankedCandidate) :=
  fold_left (λ m candidate, bmap_entry (candidate_doc candidate) (merge_candidate candidate) m)
    (semantic ++ lexical) [].

Definition ranked_for_fusion (candidates : list RankedCandidate) : list RankedHit :=
  imap (λ index candidate,
          ranked_hit_new (candidate_doc candidate) (Z.of_nat index + 1) (rc_score candidate))
    candidates.

(** The final [filter_map]: each fused document takes its candidate out of the
    map. *)
Fixpoint take_candidates (by_document : list (str * RankedCandidate)) (fused : list RankedHit)
    : list RankedCandidate :=
  match fused with
  | [] => []
  | ranked :: fused =>
      match bmap_lookup (hit_doc_id ranked) by_document with
      | Some candidate =>
          MkCandidate (rc_projection candidate) (hit_score ranked) (rc_file_name candidate)
            (rc_snippet candidate)
          :: take_candidates (bmap_remove (hit_doc_id ranked) by_document) fused
      | None => take_candidates by_document fused
      end
  end.

Definition fuse_candidates (lexical semantic : list RankedCandidate) (limit : Z)
    : list RankedCandidate :=
  let recall := MkRecall (ranked_for_fusion lexical) (ranked_for_fusion semantic) in
  take_candidates (candidates_by_document lexical semantic)
    (fuse_hybrid_rrf recall (f32_of_Z 60) limit).

(** ** Hydration and folding *)

Inductive FoldIdentity :=
| FoldCandidate (id : StableId CandidateId)
| FoldVersion (id : StableId ResumeVersionId).

(** The derived order: by variant, then by id. *)
Definition fold_order (fold : FoldIdentity) : bool * str :=
  match fold with
  | FoldCandidate id => (false, id_str id)
  | FoldVersion id => (true, id_str id)
  end.

Definition fold_identity (hit : HydratedSearchHit) : FoldIdentity :=
  match hh_candidate_id hit with
  | Some id => FoldCandidate id
  | None => FoldVersion (sel_resume_version_id (hh_selection hit))
  end.

Section execution.
Context `{Sha256} `{SearchBackend} `{RegexEngine}.

(** The loop of [hydrate_candidates] over the zipped candidates; the outer
    option is a panic of the file-name truncation. *)
Fixpoint hydrate_candidates_loop (top_k : Z) (seen : list (bool * str)) (output : list SearchHit)
    (pairs : list (RankedCandidate * HydratedSearchHit))
    : option (result (list SearchHit) SearchRuntimeErrorCode) :=
  match pairs with
  | [] => Some (Ok output)
  | (candidate, metadata) :: pairs =>
      if negb (bool_decide (sel_document_id (hh_selection metadata)
                            = proj_document_id (rc_projection candidate)))
         || negb (bool_decide (sel_resume_version_id (hh_selection metadata)
                               = proj_resume_version_id (rc_projection candidate)))
      then Some (Err Integrity)
      else
        let fold := fold_order (fold_identity metadata) in
        if bset_contains fold seen then hydrate_candidates_loop top_k seen output pairs
        else
          file_name ← redact_search_file_name
                        (if is_empty (rc_file_name candidate)
                         then doc_file_name (hh_document metadata)
                         else rc_file_name candidate);
          let output :=
            output ++ [MkSearchHit (len output + 1) (hh_selection metadata) file_name
                         (rc_snippet candidate)] in
          if len output =? top_k then Some (Ok output)
          else hydrate_candidates_loop top_k (bset_insert fold seen) output pairs
  end.

Definition hydrate_candidates (scope : LexicalQueryScope) (candidates : list RankedCandidate)
    (top_k : Z) : option (result (list SearchHit) SearchRuntimeErrorCode) :=
  match hydrate_hits scope (map rc_projection candidates) with
  | Err e => Some (Err e)
  | Ok hydrated => hydrate_candidates_loop top_k [] [] (zip candidates hydrated)
  end.

Definition runtime_fulltext_candidates (scope : LexicalQueryScope) (args : DaemonSearchArgs)
    (limit : HitLimit) (selection : option FilterSelection)
    : result (list RankedCandidate) SearchRuntimeErrorCode :=
  let? hits := fulltext_candidates scope (args_query args) limit selection in
  Ok (map ranked_fulltext hits).

Definition runtime_semantic_candidates (scope : QueryScope) (query : SemanticQueryVector)
    (limit : HitLimit) (selection : option FilterSelection)
    : result (list RankedCandidate) SearchRuntimeErrorCode :=
  let? hits := semantic_candidates scope query limit selection in
  Ok (map ranked_semantic hits).

Definition pass_filter (scope : LexicalQueryScope) (args : DaemonSearchArgs)
    (selection_limit : SelectionLimit) : result (option FilterSelection) SearchRuntimeErrorCode :=
  if len (predicates (args_filter args)) =? 0 then Ok None
  else
    let? selection := filter_selection scope (args_filter args) selection_limit in
    Ok (Some selection).

(** Continue with the hydrated hits; a panic unwinds as [Ok None]. *)
Definition hydrated (scope : LexicalQueryScope) (candidates : list RankedCandidate) (top_k : Z)
    (k : list SearchHit → QueryPass) : result (option QueryPass) SearchRuntimeErrorCode :=
  match hydrate_candidates scope candidates top_k with
  | None => Ok None
  | Some (Err e) => Err e
  | Some (Ok hits) => Ok (Some (k hits))
  end.

(** The end of both passes: cancellation, then deadline. *)
Definition finish_pass (clock : Clock) (visible_epoch : Z) (hits : list SearchHit) : QueryPass :=
  let completed := MkCompleted visible_epoch hits [] in
  if is_cancelled clock PassEnd then PassCancelled visible_epoch
  else if expired clock PassEnd then PassDeadlineExceeded completed
  else PassComplete completed.

Definition lexical_query_pass (args : DaemonSearchArgs) (hit_limit : HitLimit)
    (selection_limit : SelectionLimit) (clock : Clock) (scope : LexicalQueryScope)
    : result (option QueryPass) SearchRuntimeErrorCode :=
  let visible_epoch := visible_epoch scope in
  if is_cancelled clock PassStart then Ok (Some (PassCancelled visible_epoch))
  else if expired clock PassStart then
    Ok (Some (PassDeadlineExceeded (MkCompleted visible_epoch [] [])))
  else
    let? filter_selection := pass_filter scope args selection_limit in
    let? candidates := runtime_fulltext_candidates scope args hit_limit filter_selection in
    if is_cancelled clock AfterFullText then Ok (Some (PassCancelled visible_epoch))
    else hydrated scope candidates (args_top_k args) (finish_pass clock visible_epoch).

Definition EMBEDDING_RUNTIME_UNAVAILABLE_PARTIAL_REASON : str :=
  lit "embedding_runtime_unavailable".

(** The closure of the composite pass. *)
Definition composite_query_pass (args : DaemonSearchArgs) (semantic : PreparedSemantic)
    (candidate_limit : Z) (hit_limit : HitLimit) (selection_limit : SelectionLimit) (clock : Clock)
    (scope : QueryScope) : result (option QueryPass) SearchRuntimeErrorCode :=
  let lexical_scope := scope_lexical scope in
  let visible_epoch := visible_epoch lexical_scope in
  if is_cancelled clock PassStart then Ok (Some (PassCancelled visible_epoch))
  else if expired clock PassStart then
    Ok (Some (PassDeadlineExceeded (MkCompleted visible_epoch [] [])))
  else
    let? filter_selection := pass_filter lexical_scope args selection_limit in
    let semantic_state := validate_semantic_contract (semantic_contract scope) semantic in
    match vsem_terminal semantic_state with
    | Some terminal =>
        if bool_decide (args_mode args = ModeHybrid)
           && bool_decide (terminal = TRuntimeUnavailable)
        then
          let? lexical :=
            runtime_fulltext_candidates lexical_scope args hit_limit filter_selection in
          hydrated lexical_scope lexical (args_top_k args)
            (λ hits, PassComplete (MkCompleted visible_epoch hits
                                     [EMBEDDING_RUNTIME_UNAVAILABLE_PARTIAL_REASON]))
        else
          Ok (Some match terminal with
                   | TDisabled => PassSemanticDisabled
                   | TContractMismatch => PassSemanticContractMismatch
                   | TRuntimeUnavailable => PassSemanticRuntimeUnavailable
                   end)
    | None =>
        match args_mode args, vsem_query semantic_state with
        | ModeFullText, _ => Ok None
        | ModeSemantic, None => Ok None
        | ModeSemantic, Some query =>
            let? candidates :=
              runtime_semantic_candidates scope query hit_limit filter_selection in
            hydrated lexical_scope candidates (args_top_k args) (finish_pass clock visible_epoch)
        | ModeHybrid, query =>
            let? lexical :=
              runtime_fulltext_candidates lexical_scope args hit_limit filter_selection in
            if is_cancelled clock AfterFullText then Ok (Some (PassCancelled visible_epoch))
            else
              match query with
              | None => Ok None
              | Some query =>
                  let? semantic :=
                    runtime_semantic_candidates scope query hit_limit filter_selection in
                  hydrated lexical_scope (fuse_candidates lexical semantic candidate_limit)
                    (args_top_k args) (finish_pass clock visible_epoch)
              end
        end
    end.

Definition FILTER_SELECTION_LIMIT : Z := MAX_BOUNDED_FILTER_SELECTION.

(** [usize::clamp] panics when its bounds are crossed. *)
Definition clamp_checked (x lo hi : Z) : option Z :=
  if lo <=? hi then Some (clamp x lo hi) else None.

Definition usize_saturating_mul (x y : Z) : Z := Z.min (x * y) usize_MAX.

(** The outcome of a finished pass. *)
Definition pass_outcome (pass : QueryPass) : result SearchExecutionOutcome QueryFailure :=
  match pass with
  | PassComplete search => Ok (Complete search)
  | PassCancelled visible_epoch => Ok (Cancelled visible_epoch)
  | PassDeadlineExceeded search => Ok (DeadlineExceeded search)
  | PassSemanticDisabled => Err FSemanticDisabled
  | PassSemanticContractMismatch => Err FIntegrity
  | PassSemanticRuntimeUnavailable => Err FUnavailable
  end.

Definition run_pass (env : Env) (args : DaemonSearchArgs) (semantic : PreparedSemantic)
    (candidate_limit : Z) (hit_limit : HitLimit) (selection_limit : SelectionLimit) (clock : Clock)
    (self : QueryCoordinator)
    : QueryCoordinator * result (option QueryPass) SearchRuntimeErrorCode :=
  match args_mode args with
  | ModeFullText =>
      with_lexical_query env (lexical_query_pass args hit_limit selection_limit clock) self
  | ModeSemantic | ModeHybrid =>
      with_query env
        (composite_query_pass args semantic candidate_limit hit_limit selection_limit clock) self
  end.

(** [DaemonQueryRuntime::execute]; the outer [None] is a panic. *)
Definition execute (env : Env) (args : DaemonSearchArgs) (config : SearchRuntimeConfig)
    (clock : Clock) (self : QueryCoordinator)
    : option (QueryCoordinator * result SearchExecutionOutcome QueryFailure) :=
  match prepare_semantic args config clock with
  | Err e => Some (self, Err e)
  | Ok semantic =>
      if is_cancelled clock AfterPrepare then Some (self, Ok (Cancelled 0))
      else if expired clock AfterPrepare then
        Some (self, Ok (DeadlineExceeded (MkCompleted 0 [] [])))
      else
        candidate_limit ← clamp_checked (usize_saturating_mul (args_top_k args) 5)
                            (args_top_k args) 100;
        match
          (let? hit_limit := map_err map_runtime_error (hit_limit_new candidate_limit) in
           let? selection_limit :=
             map_err map_runtime_error (selection_limit_new FILTER_SELECTION_LIMIT) in
           Ok (hit_limit, selection_limit))
        with
        | Err e => Some (self, Err e)
        | Ok (hit_limit, selection_limit) =>
            let '(self, r) :=
              run_pass env args semantic candidate_limit hit_limit selection_limit clock self in
            match r with
            | Err e => Some (self, Err (map_runtime_error e))
            | Ok None => None
            | Ok (Some pass) => Some (self, pass_outcome pass)
            end
        end
  end.
End execution.

(** ** Fusion of candidates *)

Definition of_doc (d : str) (l : list RankedCandidate) : list RankedCandidate :=
  List.filter (λ c, str_eqb (candidate_doc c) d) l.

(** The candidate of a document: the identity of its first occurrence, the
    first non-empty file name. *)
Definition represents (cs : list RankedCandidate) (c : RankedCandidate) : Prop :=
  (rc_projection <$> List.hd_error cs) = Some (rc_projection c) ∧
  rc_file_name c = default [] (List.find non_empty (rc_file_name <$> cs)).

Lemma of_doc_app d l k : of_doc d (l ++ k) = of_doc d l ++ of_doc d k.
Proof. apply List.filter_app. Qed.

Lemma find_app {A} (f : A → bool) l k :
  List.find f (l ++ k) = match List.find f l with Some x => Some x | None => List.find f k end.
Proof. induction l as [|x l IH]; cbn; [done|]. by destruct (f x). Qed.

Lemma represents_snoc cs c x :
  represents cs c → represents (cs ++ [x]) (merge_candidate x (Some c)).
Proof.
  intros [H1 H2]. unfold represents. rewrite fmap_app, find_app. split.
  - destruct cs as [|y cs]; [done|]. cbn in *. by destruct (_ && _).
  - cbn [merge_candidate fmap list_fmap List.find].
    destruct (List.find non_empty (rc_file_name <$> cs)) as [n|] eqn:En; cbn [default from_option id] in *.
    + apply List.find_some in En as [_ Hn]. rewrite H2. unfold non_empty in Hn.
      destruct (is_empty n); [done|]. cbn. done.
    + rewrite H2. cbn [is_empty andb]. unfold non_empty.
      destruct (is_empty (rc_file_name x)) eqn:Ex; cbn; [done|done].
Qed.

Lemma represents_single x : represents [x] x.
Proof.
  split; [done|]. cbn. unfold non_empty. by destruct (rc_file_name x).
Qed.

(** The map after a prefix of the candidates: one representative per document. *)
Definition documents_of (l : list RankedCandidate) (m : list (str * RankedCandidate)) : Prop :=
  ssorted m.*1 ∧
  ∀ d, match bmap_lookup d m with
       | Some c => represents (of_doc d l) c
       | None => of_doc d l = []
       end.

Lemma documents_of_step l m x :
  documents_of l m →
  documents_of (l ++ [x]) (bmap_entry (candidate_doc x) (merge_candidate x) m).
Proof.
  intros [Hs Hm]. split; [by apply bmap_entry_sorted|]. intros d. rewrite of_doc_app.
  unfold of_doc at 2 4. cbn [List.filter]. unfold str_eqb.
  destruct (decide (candidate_doc x = d)) as [<-|Hne].
  - rewrite bmap_lookup_entry by done. rewrite bool_decide_true by done. specialize (Hm (candidate_doc x)).
    destruct (bmap_lookup (candidate_doc x) m) as [c|].
    + by apply represents_snoc.
    + rewrite Hm. apply represents_single.
  - rewrite bmap_lookup_entry_ne by done. rewrite bool_decide_false by done.
    rewrite app_nil_r. apply Hm.
Qed.

Lemma candidates_by_document_spec lexical semantic :
  documents_of (semantic ++ lexical) (candidates_by_document lexical semantic).
Proof.
  unfold candidates_by_document. generalize (semantic ++ lexical). intros l.
  assert (∀ k p m, documents_of p m →
    documents_of (p ++ k) (fold_left (λ m c, bmap_entry (candidate_doc c) (merge_candidate c) m) k m))
    as Hgen.
  { induction k as [|x k IH]; intros p m Hp; cbn [fold_left]; [by rewrite app_nil_r|].
    replace (p ++ x :: k) with ((p ++ [x]) ++ k) by (by rewrite <- app_assoc).
    by apply IH, documents_of_step. }
  apply (Hgen l [] []). split; [constructor|]. by intros d.
Qed.

(** Every fused document that has a candidate keeps it, under the fused score. *)
Definition takes (m : list (str * RankedCandidate)) (h : RankedHit) (c : RankedCandidate) : Prop :=
  ∃ c0, bmap_lookup (hit_doc_id h) m = Some c0 ∧ rc_score c = hit_score h ∧
    rc_projection c = rc_projection c0 ∧ rc_file_name c = rc_file_name c0 ∧
    rc_snippet c = rc_snippet c0.

Lemma take_candidates_spec m0 m fused :
  ssorted m.*1 → NoDup (hit_doc_id <$> fused) →
  (∀ h, h ∈ fused → bmap_lookup (hit_doc_id h) m = bmap_lookup (hit_doc_id h) m0) →
  (∀ h, h ∈ fused → is_Some (bmap_lookup (hit_doc_id h) m0)) →
  Forall2 (takes m0) fused (take_candidates m fused).
Proof.
  revert m. induction fused as [|h fused IH]; intros m Hs Hnd Heq Hall; cbn [take_candidates];
    [constructor|].
  destruct (Hall h) as [c0 Hc0]; [set_solver|]. rewrite Heq, Hc0 by set_solver.
  inversion Hnd as [|? ? Hnin Hnd']; subst. constructor; [by exists c0|].
  apply IH; [by apply bmap_remove_sorted|done| |set_solver].
  intros x Hx. rewrite bmap_lookup_remove_ne; [apply Heq; set_solver|done|].
  intros Hd. apply Hnin. rewrite <- Hd. apply list_elem_of_fmap. by exists x.
Qed.

Lemma ranked_for_fusion_docs l : hit_doc_id <$> ranked_for_fusion l = candidate_doc <$> l.
Proof.
  unfold ranked_for_fusion. rewrite fmap_imap. apply (imap_const candidate_doc).
Qed.

(** A document has candidates exactly when it is in a recall. *)
Lemma of_doc_nil d l : of_doc d l = [] ↔ d ∉ candidate_doc <$> l.
Proof.
  unfold of_doc. induction l as [|c l IH]; cbn; [set_solver|]. unfold str_eqb at 1.
  case_bool_decide as Hc; [subst; set_solver|]. rewrite IH. set_solver.
Qed.

(** Fusing two recalls loses nothing the ranking kept: the result has, in
    the order of the fused ranking and with its scores, exactly one candidate
    per fused document; it carries the projection of the document's first
    candidate (semantic before lexical) and its first non-empty file name. *)
Theorem fuse_candidates_spec lexical semantic limit :
  let recall := MkRecall (ranked_for_fusion lexical) (ranked_for_fusion semantic) in
  Forall2 (λ h c, candidate_doc c = hit_doc_id h ∧ rc_score c = hit_score h ∧
             represents (of_doc (hit_doc_id h) (semantic ++ lexical)) c)
    (fuse_hybrid_rrf recall (f32_of_Z 60) limit)
    (fuse_candidates lexical semantic limit).
Proof.
  intros recall. set (fused := fuse_hybrid_rrf recall (f32_of_Z 60) limit).
  destruct (candidates_by_document_spec lexical semantic) as [Hs Hm].
  pose proof (rrf_hits_fused [ranked_for_fusion lexical; ranked_for_fusion semantic] (f32_of_Z 60))
    as HR.
  assert (NoDup (hit_doc_id <$> fused)) as Hnd.
  { unfold fused, fuse_hybrid_rrf. rewrite fmap_take.
    eapply sublist_NoDup; [apply (fused_unique _ _ _ HR)|]. apply sublist_take. }
  assert (∀ h, h ∈ fused → is_Some (bmap_lookup (hit_doc_id h)
                             (candidates_by_document lexical semantic))) as Hin.
  { intros h Hh. assert (hit_doc_id h ∈ hit_doc_id <$> reciprocal_rank_fusion_hits
      [ranked_for_fusion lexical; ranked_for_fusion semantic] (f32_of_Z 60)) as Hd.
    { apply list_elem_of_fmap. exists h. split; [done|]. apply elem_of_take in Hh as (i & Hi & _).
      by eapply list_elem_of_lookup_2. }
    apply (fused_members _ _ _ HR) in Hd as (ch & Hch & Hd). specialize (Hm (hit_doc_id h)).
    destruct (bmap_lookup _ _); [by eauto|]. apply of_doc_nil in Hm. exfalso. apply Hm.
    rewrite fmap_app, elem_of_app, <- !ranked_for_fusion_docs. cbn [map] in Hch.
    rewrite !elem_of_cons in Hch. destruct Hch as [->|[->|?%not_elem_of_nil]]; [by right|by left|done]. }
  pose proof (take_candidates_spec _ _ fused Hs Hnd ltac:(done) Hin) as HT.
  eapply Forall2_impl; [exact HT|]. cbn beta. intros h c (c0 & Hc0 & H1 & H2 & H3 & _).
  specialize (Hm (hit_doc_id h)). rewrite Hc0 in Hm. destruct Hm as [Hp Hf].
  split_and!; [|done|].
  - unfold candidate_doc. rewrite H2.
    destruct (of_doc (hit_doc_id h) _) as [|x l] eqn:Eo; [done|]. cbn in Hp. injection Hp as <-.
    assert (x ∈ of_doc (hit_doc_id h) (semantic ++ lexical)) as Hx by (rewrite Eo; set_solver).
    unfold of_doc in Hx. apply list_elem_of_In, List.filter_In in Hx as [_ Hx].
    unfold str_eqb in Hx. by bools.
  - split; congruence.
Qed.

(** ** File names *)

Lemma byte_take_0 value : byte_take value 0 = Some [].
Proof. by destruct value. Qed.

Lemma boundary_before_ok value fuel e :
  0 ≤ e ≤ Z.of_nat fuel →
  0 ≤ boundary_before value fuel e ≤ e ∧
  is_Some (byte_take value (boundary_before value fuel e)).
Proof.
  revert e. induction fuel as [|fuel IH]; intros e He; cbn [boundary_before].
  - assert (e = 0) as -> by lia. rewrite !byte_take_0. split; [lia|eauto].
  - destruct (byte_take value e) as [t|] eqn:E; [split; [lia|eauto]|].
    destruct (decide (e = 0)) as [->|Hne]; [by rewrite byte_take_0 in E|].
    destruct (IH (e - 1)) as [? ?]; [lia|]. split; [lia|done].
Qed.

Lemma byte_take_prefix value n t :
  byte_take value n = Some t → t `prefix_of` value ∧ (0 ≤ n → str_len t = n).
Proof.
  revert n t. induction value as [|c value IH]; intros n t; cbn [byte_take];
    destruct (n =? 0) eqn:En; bools.
  - intros [= <-]. split; [done|]. cbn. lia.
  - done.
  - intros [= <-]. split; [apply prefix_nil|]. cbn. lia.
  - destruct (n <? len_utf8 c) eqn:El; bools; [done|].
    destruct (byte_take value (n - len_utf8 c)) as [u|] eqn:Eu; [|done]. intros [= <-].
    apply IH in Eu as [Hp Hl]. split; [by apply prefix_cons|]. intros Hn. cbn [str_len].
    rewrite Hl by lia. lia.
Qed.

(** Truncating to [max_bytes] never panics and never cuts a character: a
    text that fits is kept, any other becomes a prefix of it followed by an
    ellipsis, within the bound. *)
Lemma truncate_utf8_bytes_spec value max_bytes :
  3 ≤ max_bytes →
  ∃ out, truncate_utf8_bytes value max_bytes = Some out ∧ str_len out ≤ max_bytes ∧
    (str_len value ≤ max_bytes ∧ out = value ∨
     max_bytes < str_len value ∧ ∃ kept, kept `prefix_of` value ∧ out = kept ++ lit "...").
Proof.
  intros Hmax. unfold truncate_utf8_bytes. destruct (_ <=? _) eqn:E; bools; [by eauto 10|].
  change (str_len (lit "...")) with 3. set (e := Z.max 0 (max_bytes - 3)).
  destruct (boundary_before_ok value (Z.to_nat e) e) as [Hb [t Ht]]; [lia|].
  rewrite Ht. cbn [mbind option_bind]. exists (t ++ lit "..."). split; [done|].
  apply byte_take_prefix in Ht as [Hp Hl]. rewrite str_len_app, Hl by lia.
  change (str_len (lit "...")) with 3. split; [lia|]. right. eauto.
Qed.

Lemma redact_search_file_name_total `{RegexEngine} value :
  ∃ out, redact_search_file_name value = Some out ∧ str_len out ≤ SEARCH_RESULT_FILE_NAME_MAX_BYTES.
Proof.
  unfold redact_search_file_name, SEARCH_RESULT_FILE_NAME_MAX_BYTES.
  destruct (truncate_utf8_bytes_spec (cow_str (redact_contact_values (join [32] (split_whitespace value))))
              160 ltac:(lia)) as (out & ? & ? & _). eauto.
Qed.

(** ** Folding *)

#[export] Instance FoldIdentity_eq_dec : EqDecision FoldIdentity.
Proof. solve_decision. Defined.

Lemma fold_order_inj f g : fold_order f = fold_order g → f = g.
Proof. destruct f as [[a]|[a]], g as [[b]|[b]]; cbn; congruence. Qed.

(** The first hit of every fold identity, in order. *)
Fixpoint first_of_each (seen : list FoldIdentity) (l : list HydratedSearchHit)
    : list HydratedSearchHit :=
  match l with
  | [] => []
  | h :: l =>
      if bool_decide (fold_identity h ∈ seen) then first_of_each seen l
      else h :: first_of_each (fold_identity h :: seen) l
  end.

Lemma first_of_each_NoDup seen l :
  NoDup (fold_identity <$> first_of_each seen l) ∧
  (∀ h, h ∈ first_of_each seen l → ¬ (fold_identity h ∈ seen) ∧ h ∈ l).
Proof.
  revert seen. induction l as [|h l IH]; intros seen; cbn [first_of_each]; [split; [constructor|set_solver]|].
  case_bool_decide as Hs.
  - destruct (IH seen) as [H1 H2]. split; [done|]. intros x Hx%H2. set_solver.
  - destruct (IH (fold_identity h :: seen)) as [H1 H2]. split.
    + cbn. constructor; [|done]. intros (x & Hx & Hin)%list_elem_of_fmap.
      apply H2 in Hin as [Hn _]. apply Hn. rewrite <- Hx. set_solver.
    + intros x [->|Hx]%elem_of_cons; [set_solver|]. apply H2 in Hx. set_solver.
Qed.

Lemma seq_Z_cons (b : Z) n :
  ((λ i, b + Z.of_nat i) <$> seq 0 (S n)) = b :: ((λ i, b + 1 + Z.of_nat i) <$> seq 0 n).
Proof.
  cbn [seq]. rewrite fmap_cons, <- fmap_S_seq, <- list_fmap_compose. f_equal; [lia|].
  apply list_fmap_ext. intros i x _. cbn. lia.
Qed.

(** Candidates paired with the metadata of their own projection. *)
Definition paired (x : RankedCandidate * HydratedSearchHit) : Prop :=
  sel_document_id (hh_selection x.2) = proj_document_id (rc_projection x.1) ∧
  sel_resume_version_id (hh_selection x.2) = proj_resume_version_id (rc_projection x.1).

Lemma hydrate_candidates_loop_spec `{RegexEngine} top_k seen seen' output pairs :
  ssorted seen → (∀ f, fold_order f ∈ seen ↔ f ∈ seen') →
  len output < top_k → Forall paired pairs →
  ∃ hits,
    hydrate_candidates_loop top_k seen output pairs = Some (Ok (output ++ hits)) ∧
    sh_selection <$> hits
      = hh_selection <$> take (Z.to_nat (top_k - len output)) (first_of_each seen' pairs.*2) ∧
    sh_rank <$> hits = (λ i, len output + 1 + Z.of_nat i) <$> seq 0 (length hits).
Proof.
  revert seen seen' output. induction pairs as [|[c m] pairs IH]; intros seen seen' output Hs Hseen Hlen HP.
  { exists []. cbn. by rewrite app_nil_r, take_nil. }
  inversion HP as [|? ? [Hd Hv] HP']; subst. cbn in Hd, Hv. cbn [hydrate_candidates_loop fmap list_fmap first_of_each snd].
  rewrite !bool_decide_true by done. cbn [negb orb].
  destruct (bset_contains (fold_order (fold_identity m)) seen) eqn:Ec.
  - apply bset_contains_spec in Ec; [|done]. apply Hseen in Ec.
    rewrite bool_decide_true by done. by apply IH.
  - assert (fold_identity m ∉ seen') as Hn.
    { rewrite <- Hseen, <- bset_contains_spec by done. congruence. }
    rewrite bool_decide_false by done.
    destruct (redact_search_file_name_total
                (if is_empty (rc_file_name c) then doc_file_name (hh_document m) else rc_file_name c))
      as (name & -> & _). cbn [mbind option_bind].
    set (hit := MkSearchHit (len output + 1) (hh_selection m) name (rc_snippet c)).
    assert (len (output ++ [hit]) = len output + 1) as Hl by (unfold len; rewrite length_app; cbn; lia).
    rewrite Hl. replace (Z.to_nat (top_k - len output)) with (S (Z.to_nat (top_k - (len output + 1)))) by lia.
    cbn [take fmap list_fmap]. destruct (len output + 1 =? top_k) eqn:Ek; bools.
    + exists [hit]. split; [done|]. replace (Z.to_nat (top_k - (len output + 1))) with 0%nat by lia.
      cbn. split; [done|]. f_equal. lia.
    + destruct (IH (bset_insert (fold_order (fold_identity m)) seen) (fold_identity m :: seen')
                  (output ++ [hit])) as (hits & H1 & H2 & H3); [by apply bset_insert_sorted| |lia|done|].
      { intros f. rewrite elem_of_bset_insert, elem_of_cons, Hseen. split.
        - intros [Heq|?]; [left; by apply fold_order_inj|by right].
        - intros [->|?]; auto. }
      exists (hit :: hits). rewrite <- app_assoc in H1. split; [exact H1|].
      rewrite !fmap_cons, H2, H3, Hl. split; [done|]. cbn [length]. rewrite seq_Z_cons.
      done.
Qed.

(** ** What a search returns *)

Section results.
Context `{Sha256} `{SearchBackend} `{RegexEngine}.

(** The facade's metadata of one projection. *)
Definition hydrated_from (scope : LexicalQueryScope) (p : ActiveSearchProjection)
    (hit : HydratedSearchHit) : Prop :=
  ∃ hm, hydrates (lex_metadata scope) p hm ∧
    hit = MkHydratedHit (MkSelection (proj_document_id p) (proj_resume_version_id p)
                           (visible_epoch scope))
            (hm_document hm) (hm_candidate_id hm) (hm_mentions hm).

Lemma hydrate_hits_ok scope ps hydrated :
  hydrate_hits scope ps = Ok hydrated → Forall2 (hydrated_from scope) ps hydrated.
Proof.
  unfold hydrate_hits. cbn [non_zero Z.eqb MAX_EXACT_HIT_HYDRATION ok_or result_bind].
  intros HH. peel HH. match goal with H : hydrate_exact_hits _ _ _ = Ok ?x |- _ => destruct x as [hits|] end;
    [|done].
  injection HH as <-.
  match goal with H : hydrate_exact_hits _ _ _ = Ok _ |- _ =>
    apply hydrate_exact_hits_ok in H as HF end.
  apply Forall2_fmap_r. eapply Forall2_impl; [exact HF|].
  intros p hm Hhm. exists hm. by rewrite (hydrates_projection _ _ _ Hhm).
Qed.

(** In one snapshot a document has one version, so one fold identity. *)
Lemma hydrated_from_fold scope p q hp hq :
  hydrated_from scope p hp → hydrated_from scope q hq →
  sel_document_id (hh_selection hp) = sel_document_id (hh_selection hq) →
  fold_identity hp = fold_identity hq.
Proof.
  intros (mp & Hp & ->) (mq & Hq & ->). cbn. intros Hd.
  destruct (hydrates_active _ _ _ Hp) as [_ (rp & dp & Rp & _ & Vp)].
  destruct (hydrates_active _ _ _ Hq) as [_ (rq & dq & Rq & _ & Vq)].
  assert (proj_resume_version_id p = proj_resume_version_id q) as Hv by (rewrite Hd in Rp; congruence).
  pose proof (hydrates_candidate _ _ _ Hp) as Cp. pose proof (hydrates_candidate _ _ _ Hq) as Cq.
  rewrite Hv in Cp. unfold fold_identity. cbn. rewrite Hv.
  assert (hm_candidate_id mp = hm_candidate_id mq) as -> by congruence. done.
Qed.

Lemma NoDup_coarser {A B C} (f : A → B) (g : A → C) l :
  NoDup (f <$> l) → (∀ x y, x ∈ l → y ∈ l → g x = g y → f x = f y) → NoDup (g <$> l).
Proof.
  induction l as [|x l IH]; cbn; intros Hf Hfg; [constructor|].
  inversion Hf as [|? ? Hn Hf']; subst. constructor.
  - intros (y & Hy & Hin)%list_elem_of_fmap. apply Hn. apply list_elem_of_fmap. exists y.
    split; [|done]. apply Hfg; [set_solver..|done].
  - apply IH; [done|]. intros a b Ha Hb. apply Hfg; set_solver.
Qed.

(** The hits of a finished search over one head. *)
Record search_hits_ok (env : Env) (h : SearchMetadataHead) (top_k : Z) (hits : list SearchHit) : Prop := {
  hits_bounded : len hits ≤ top_k;
  hits_ranked : sh_rank <$> hits = (λ i, 1 + Z.of_nat i) <$> seq 0 (length hits);
  hits_documents_unique : NoDup ((λ hit, sel_document_id (sh_selection hit)) <$> hits);
  hits_current : Forall (λ hit,
    sel_visible_epoch (sh_selection hit) = head_visible_epoch h ∧
    sealed_and_active (MkMetadataSnapshot (env_connection env) h)
      (MkProjection (sel_document_id (sh_selection hit)) (sel_resume_version_id (sh_selection hit)))) hits;
}.

Lemma hydrate_candidates_ok env h scope candidates top_k hits :
  lex_metadata scope = MkMetadataSnapshot (env_connection env) h → 1 ≤ top_k →
  hydrate_candidates scope candidates top_k = Some (Ok hits) → search_hits_ok env h top_k hits.
Proof.
  intros Hscope Hk HC. unfold hydrate_candidates in HC.
  destruct (hydrate_hits scope (map rc_projection candidates)) as [hs|] eqn:Eh; [|done].
  apply hydrate_hits_ok in Eh as HF. pose proof (Forall2_length _ _ _ HF) as HL.
  rewrite length_map in HL.
  destruct (hydrate_candidates_loop_spec top_k [] [] [] (zip candidates hs)) as (hits' & L1 & L2 & L3).
  { constructor. } { intros f. set_solver. } { unfold len. cbn. lia. }
  { clear -HF. revert hs HF. induction candidates as [|c cs IH]; intros hs HF; cbn in *;
      inversion HF as [|? hh ? hs' (hm & _ & ->) HF']; subst; cbn; constructor; [done|auto]. }
  rewrite L1 in HC. injection HC as <-. cbn [app] in *.
  rewrite snd_zip in L2 by lia. unfold len in *. cbn [length Z.of_nat Z.add] in L2, L3.
  rewrite Z.sub_0_r in L2.
  set (picked := take (Z.to_nat top_k) (first_of_each [] hs)) in *.
  assert (∀ x, x ∈ picked → ∃ p, hydrated_from scope p x) as Hpicked.
  { intros x Hx. apply elem_of_take in Hx as (i & Hi & _). apply list_elem_of_lookup_2 in Hi.
    apply first_of_each_NoDup in Hi as [_ Hi]. apply list_elem_of_lookup in Hi as [j Hj].
    destruct (Forall2_lookup_r _ _ _ _ _ HF Hj) as (p & _ & Hp). eauto. }
  assert (NoDup (fold_identity <$> picked)) as Hnd.
  { unfold picked. rewrite fmap_take. eapply sublist_NoDup; [apply first_of_each_NoDup|apply sublist_take]. }
  split.
  - apply (f_equal length) in L2. rewrite !length_fmap in L2. unfold len. rewrite L2.
    unfold picked. rewrite length_take. lia.
  - exact L3.
  - change (λ hit, sel_document_id (sh_selection hit)) with (sel_document_id ∘ sh_selection).
    rewrite list_fmap_compose, L2, <- list_fmap_compose.
    apply (NoDup_coarser fold_identity); [done|].
    intros x y (p & Hp)%Hpicked (q & Hq)%Hpicked. by apply (hydrated_from_fold scope p q).
  - apply Forall_forall. intros hit Hhit.
    assert (sh_selection hit ∈ sh_selection <$> hits') as Hs by (apply list_elem_of_fmap; eauto).
    rewrite L2 in Hs. apply list_elem_of_fmap in Hs as (x & -> & (p & hm & Hp & ->)%Hpicked). cbn.
    unfold visible_epoch. rewrite Hscope in Hp |- *. split; [done|]. destruct p.
    apply (hydrates_active _ _ _ Hp).
Qed.

Lemma hydrate_candidates_total scope candidates top_k :
  1 ≤ top_k → is_Some (hydrate_candidates scope candidates top_k).
Proof.
  intros Hk. unfold hydrate_candidates. destruct (hydrate_hits _ _) as [hs|e]; [|by eauto].
  generalize (zip candidates hs), (@nil (bool * str)), (@nil SearchHit).
  induction l as [|[c m] l IH]; intros seen output; cbn [hydrate_candidates_loop]; [by eauto|].
  destruct (_ || _); [by eauto|]. destruct (bset_contains _ _); [done|].
  destruct (redact_search_file_name_total
              (if is_empty (rc_file_name c) then doc_file_name (hh_document m) else rc_file_name c))
    as (name & -> & _). cbn [mbind option_bind]. destruct (_ =? top_k); [by eauto|done].
Qed.

(** What a pass may return: no panic, the epoch of the head, good hits. *)
Definition pass_good (env : Env) (h : SearchMetadataHead) (top_k : Z) (pass : option QueryPass) : Prop :=
  match pass with
  | None => False
  | Some (PassComplete search) | Some (PassDeadlineExceeded search) =>
      completed_epoch search = head_visible_epoch h ∧
      search_hits_ok env h top_k (completed_hits search)
  | Some (PassCancelled epoch) => epoch = head_visible_epoch h
  | Some _ => True
  end.

Lemma search_hits_ok_nil env h top_k : 1 ≤ top_k → search_hits_ok env h top_k [].
Proof. intros Hk. split; [unfold len; cbn; lia|done|constructor|constructor]. Qed.

Lemma hydrated_good env h scope candidates top_k k pass :
  lex_metadata scope = MkMetadataSnapshot (env_connection env) h → 1 ≤ top_k →
  (∀ hits, search_hits_ok env h top_k hits → pass_good env h top_k (Some (k hits))) →
  hydrated scope candidates top_k k = Ok pass → pass_good env h top_k pass.
Proof.
  intros Hs Hk Hgood. unfold hydrated.
  destruct (hydrate_candidates_total scope candidates top_k Hk) as [r Hr]. rewrite Hr.
  destruct r as [hits|e]; [|done]. intros [= <-]. apply Hgood. by eapply hydrate_candidates_ok.
Qed.

Lemma finish_pass_good env h top_k clock hits :
  search_hits_ok env h top_k hits →
  pass_good env h top_k (Some (finish_pass clock (head_visible_epoch h) hits)).
Proof.
  intros Hh. unfold finish_pass. destruct (is_cancelled _ _); [done|].
  by destruct (expired _ _).
Qed.

Lemma lexical_pass_good env h args hl sl clock scope pass :
  lex_metadata scope = MkMetadataSnapshot (env_connection env) h → 1 ≤ args_top_k args →
  lexical_query_pass args hl sl clock scope = Ok pass → pass_good env h (args_top_k args) pass.
Proof.
  intros Hs Hk. unfold lexical_query_pass, visible_epoch. rewrite Hs. cbn [head].
  destruct (is_cancelled clock PassStart); [by intros [= <-]|].
  destruct (expired clock PassStart); [intros [= <-]; by split; [|apply search_hits_ok_nil]|].
  intros HP. do 2 peel HP. destruct (is_cancelled clock AfterFullText); [by injection HP as <-|].
  eapply hydrated_good; [exact Hs|done| |exact HP]. intros hits. apply finish_pass_good.
Qed.

Lemma prepare_semantic_requested args config clock semantic :
  args_mode args ≠ ModeFullText → prepare_semantic args config clock = Ok semantic →
  semantic ≠ NotRequested.
Proof.
  intros Hm. unfold prepare_semantic. rewrite bool_decide_false by done.
  intros HP ->. repeat (case_match; try discriminate HP).
  do 2 peel HP. discriminate HP.
Qed.

Lemma composite_pass_good env h args semantic cl hl sl clock scope pass :
  lex_metadata (scope_lexical scope) = MkMetadataSnapshot (env_connection env) h →
  1 ≤ args_top_k args → args_mode args ≠ ModeFullText → semantic ≠ NotRequested →
  composite_query_pass args semantic cl hl sl clock scope = Ok pass →
  pass_good env h (args_top_k args) pass.
Proof.
  intros Hs Hk Hm Hsem. unfold composite_query_pass, visible_epoch. rewrite Hs. cbn [head].
  destruct (is_cancelled clock PassStart); [by intros [= <-]|].
  destruct (expired clock PassStart); [intros [= <-]; by split; [|apply search_hits_ok_nil]|].
  intros HP. peel HP.
  destruct (vsem_terminal _) as [terminal|] eqn:Et.
  { destruct (_ && _).
    - peel HP. eapply hydrated_good; [exact Hs|done| |exact HP]. by intros hits Hh.
    - injection HP as <-. by destruct terminal. }
  assert (∃ q, vsem_query (validate_semantic_contract (semantic_contract scope) semantic) = Some q)
    as [q Hq].
  { unfold validate_semantic_contract in *.
    destruct (semantic_contract scope), semantic; cbn in *; try done.
    destruct (_ && _); cbn in *; [by eauto|done]. }
  rewrite Hq in HP. destruct (args_mode args); [done| |].
  - peel HP. eapply hydrated_good; [exact Hs|done| |exact HP]. intros hits. apply finish_pass_good.
  - peel HP. destruct (is_cancelled clock AfterFullText); [by injection HP as <-|]. peel HP.
    eapply hydrated_good; [exact Hs|done| |exact HP]. intros hits. apply finish_pass_good.
Qed.

Lemma run_pass_good env args semantic cl hl sl clock s s' pass :
  1 ≤ args_top_k args → (args_mode args ≠ ModeFullText → semantic ≠ NotRequested) →
  run_pass env args semantic cl hl sl clock s = (s', Ok pass) →
  ∃ h, read_ready_head (env_connection env) = Ok h ∧ pass_good env h (args_top_k args) pass.
Proof.
  intros Hk Hsem HR. apply (f_equal snd) in HR. cbn in HR. unfold run_pass in HR.
  destruct (args_mode args) eqn:Em.
  - apply with_lexical_query_ok in HR as (h & scope & Hh & Hs & HP). exists h. split; [done|].
    by eapply lexical_pass_good.
  - apply with_query_ok in HR as (h & scope & Hh & Hs & HP). exists h. split; [done|].
    eapply composite_pass_good; [exact Hs|done|by rewrite Em|by apply Hsem|exact HP].
  - apply with_query_ok in HR as (h & scope & Hh & Hs & HP). exists h. split; [done|].
    eapply composite_pass_good; [exact Hs|done|by rewrite Em|by apply Hsem|exact HP].
Qed.
End results.

(** C2: a search never panics for a [top_k] of 1 to 100, and whatever it returns
    is consistent with one head: a complete result, or the hits of one whose
    deadline passed, has the head's epoch, at most [top_k] hits ranked from 1,
    one per document, each of them the sealed version active in the head's
    generation. *)
Theorem execute_spec `{Sha256} `{SearchBackend} `{RegexEngine} env args config clock s :
  1 ≤ args_top_k args ≤ 100 →
  ∃ s' r, execute env args config clock s = Some (s', r) ∧
    ∀ search,
      r = Ok (Complete search) ∨
      (r = Ok (DeadlineExceeded search) ∧ completed_hits search ≠ []) →
      ∃ h, read_ready_head (env_connection env) = Ok h ∧
        completed_epoch search = head_visible_epoch h ∧
        search_hits_ok env h (args_top_k args) (completed_hits search).
Proof.
  intros Hk. unfold execute.
  destruct (prepare_semantic args config clock) as [semantic|e] eqn:Ep; [|naive_solver].
  destruct (is_cancelled clock AfterPrepare); [naive_solver|].
  destruct (expired clock AfterPrepare); [naive_solver|].
  unfold clamp_checked, usize_saturating_mul. rewrite (proj2 (Z.leb_le _ 100)) by lia.
  cbn [mbind option_bind]. unfold clamp. set (cl := Z.max _ _).
  assert (1 ≤ cl ≤ 100) as Hcl by (unfold cl, usize_MAX; lia).
  unfold hit_limit_new, non_zero, MAX_QUERY_HITS.
  rewrite (proj2 (Z.eqb_neq cl 0)) by lia. cbn [ok_or map_err result_bind].
  rewrite (proj2 (Z.ltb_ge 100 cl)) by lia. cbn [ok_or map_err result_bind].
  change (selection_limit_new FILTER_SELECTION_LIMIT) with
    (@Ok _ SearchRuntimeErrorCode (MkSelectionLimit FILTER_SELECTION_LIMIT)).
  cbn [map_err result_bind].
  destruct (run_pass _ _ _ _ _ _ _ _) as [s' [pass|e]] eqn:ER; [|naive_solver].
  apply run_pass_good in ER as (h & Hh & HG);
    [|lia|intros Hm; by eapply prepare_semantic_requested].
  destruct pass as [pass|]; [|done]. exists s', (pass_outcome pass). split; [done|].
  intros search [Hr|[Hr _]]; destruct pass; try discriminate Hr; injection Hr as ->; eauto.
Qed.

(** ** A sample search *)

#[local] Existing Instance sample_backend.
#[local] Existing Instance toy_sha256.
#[local] Instance sample_regex : RegexEngine := RedactionDemo.sample_engine.

Definition sample_document (d : str) : Document :=
  MkDocument (MkId d) (lit "file:///cv") (lit "/cv") (lit "cv.pdf") Pdf 10 0 None None false 0 0
    Searchable.

(** The sample store with its document rows. *)
Definition searchable_connection : SearchConnection :=
  let 'MkConnection a b c d e f g h _ j k l := sample_connection in
  MkConnection a b c d e f g h (λ d _, Some (Some (sample_document d, sample_generation))) j k l.

Definition searchable_env : Env :=
  let 'MkEnv a b _ d e f g h i j := sample_env in
  MkEnv a b searchable_connection d e f g h i j.

Definition sample_args : DaemonSearchArgs :=
  MkArgs (lit "rust") ModeFullText 1 (MkProjectionFilter []).

Definition idle_config : SearchRuntimeConfig := MkConfig None None None 1000.
Definition idle_clock : Clock := MkClock (λ _, false) (λ _, false) (Some 1000).

Lemma execute_spec_witness :
  ∃ s' search, execute searchable_env sample_args idle_config idle_clock sample_coordinator
               = Some (s', Ok (Complete search)) ∧
    len (completed_hits search) = 1 ∧ len (completed_hits search) ≤ 1.
Proof.
  destruct (execute_spec searchable_env sample_args idle_config idle_clock sample_coordinator
              ltac:(vm_compute; split; discriminate)) as (s' & r & HE & HS).
  assert (match execute searchable_env sample_args idle_config idle_clock sample_coordinator with
          | Some (_, Ok (Complete search)) => len (completed_hits search) =? 1
          | _ => false end = true) as HC by (vm_compute; reflexivity).
  rewrite HE in HC. destruct r as [[search| |]|]; try discriminate HC. exists s', search.
  split; [done|]. apply Z.eqb_eq in HC. split; [done|].
  destruct (HS search (or_introl eq_refl)) as (h & _ & _ & Hok). exact (hits_bounded _ _ _ _ Hok).
Defined.
