(* ===== verification/Embedding.v ===== *)
(** * The framed embedding protocol (crates/embedding-protocol)

    Requests and responses exchanged by the resident embedding runtime and its
    owner, their validation, and the length-prefixed frames that carry them.
    Serialization is serde_json, a parameter ([Json]); a reader is the script of
    what successive [read] calls deliver, so that short reads, interruptions,
    failures and the end of the stream are all explicit. *)

From Stdlib Require Import ZArith String.
From stdpp Require Import prelude.
From S2P Require Import Prelude Collections Float32 Text.

Local Open Scope Z_scope.

(** ** Messages *)

Definition SCHEMA_VERSION : str := lit "resume-ir.embedding-stream.v1".
Definition MAX_REQUEST_BYTES : Z := 2 * 1024 * 1024.
Definition MAX_RESPONSE_BYTES : Z := 4 * 1024 * 1024.
Definition MAX_INPUTS : Z := 4.
Definition MAX_TEXT_BYTES : Z := 65536.
Definition MAX_MODEL_ID_BYTES : Z := 128.

Inductive EmbeddingRole := RoleQuery | RolePassage.

Record ResidentInput := MkInput {
  input_role : EmbeddingRole;
  input_text : str;
}.

Record EmbedRequest := MkRequest {
  req_schema_version : str;
  req_request_id : Z;
  req_model_id : str;
  req_dimension : Z;
  req_inputs : list ResidentInput;
}.

Definition embed_request_new (request_id : Z) (model_id : str) (dimension : Z)
    (inputs : list ResidentInput) : EmbedRequest :=
  MkRequest SCHEMA_VERSION request_id model_id dimension inputs.

Inductive ResidentErrorCode :=
| InvalidRequestCode | IdentityMismatch | InferenceFailed | OutputInvalid | RuntimeUnavailable.

Record EmbeddingTelemetry := MkTelemetry {
  input_count : Z;
  active_token_count : Z;
  padded_token_count : Z;
  tokenize_us : Z;
  tensor_us : Z;
  onnx_us : Z;
  pool_us : Z;
  normalize_us : Z;
  child_total_us : Z;
  queue_wait_us : Z;
  ipc_wall_us : Z;
}.

Definition telemetry_default : EmbeddingTelemetry := MkTelemetry 0 0 0 0 0 0 0 0 0 0 0.

#[export] Instance telemetry_eq_dec : EqDecision EmbeddingTelemetry.
Proof. solve_decision. Defined.

Inductive ResidentResponse :=
| Ready (schema_version model_id : str) (dimension : Z)
| Result (schema_version : str) (request_id : Z) (vectors : list (list f32))
    (telemetry : EmbeddingTelemetry)
| ResponseError (schema_version : str) (request_id : option Z) (code : ResidentErrorCode)
    (retryable : bool).

Definition response_ready (model_id : str) (dimension : Z) : ResidentResponse :=
  Ready SCHEMA_VERSION model_id dimension.

Definition response_result_with_telemetry (request_id : Z) (vectors : list (list f32))
    (telemetry : EmbeddingTelemetry) : ResidentResponse :=
  Result SCHEMA_VERSION request_id vectors telemetry.

Definition response_result (request_id : Z) (vectors : list (list f32)) : ResidentResponse :=
  response_result_with_telemetry request_id vectors telemetry_default.

Definition response_error (request_id : option Z) (code : ResidentErrorCode) (retryable : bool)
    : ResidentResponse :=
  ResponseError SCHEMA_VERSION request_id code retryable.

Definition response_telemetry (self : ResidentResponse) : option EmbeddingTelemetry :=
  match self with
  | Result _ _ _ telemetry => Some telemetry
  | Ready _ _ _ | ResponseError _ _ _ _ => None
  end.

Inductive IoErrorKind := Interrupted | UnexpectedEof | InvalidData | OtherIo.

Inductive ProtocolError :=
| Io (error : IoErrorKind)
| FrameTooLarge
| InvalidPayload.

(** ** Validation *)

(** [u8::is_ascii_control]. *)
Definition byte_is_ascii_control (b : Z) : bool := (b <? 32) || (b =? 127).

Definition validate_identity (schema_version model_id : str) (dimension : Z)
    : result unit ProtocolError :=
  if negb (str_eqb schema_version SCHEMA_VERSION)
     || is_empty model_id
     || (MAX_MODEL_ID_BYTES <? str_len model_id)
     || existsb byte_is_ascii_control (utf8 model_id)
     || (dimension =? 0)
  then Err InvalidPayload
  else Ok tt.

Definition request_validate (self : EmbedRequest) : result unit ProtocolError :=
  let? _ := validate_identity (req_schema_version self) (req_model_id self) (req_dimension self) in
  if (Z.of_nat (length (req_inputs self)) =? 0)
     || (MAX_INPUTS <? Z.of_nat (length (req_inputs self)))
  then Err InvalidPayload
  else if existsb (λ input, MAX_TEXT_BYTES <? str_len (input_text input)) (req_inputs self)
  then Err InvalidPayload
  else Ok tt.

Definition telemetry_validate (self : EmbeddingTelemetry) (expected_input_count : Z)
    : result unit ProtocolError :=
  if bool_decide (self = telemetry_default) then Ok tt
  else
    let phase_total :=
      u64_saturating_add
        (u64_saturating_add
           (u64_saturating_add
              (u64_saturating_add (tokenize_us self) (tensor_us self))
              (onnx_us self))
           (pool_us self))
        (normalize_us self) in
    if negb (input_count self =? expected_input_count)
       || (padded_token_count self <? active_token_count self)
       || (child_total_us self <? phase_total)
    then Err InvalidPayload
    else Ok tt.

Definition validate_ready (self : ResidentResponse) (model_id : str) (dimension : Z)
    : result unit ProtocolError :=
  match self with
  | Ready schema_version actual_model_id actual_dimension =>
      let? _ := validate_identity schema_version actual_model_id actual_dimension in
      if negb (str_eqb actual_model_id model_id) || negb (actual_dimension =? dimension)
      then Err InvalidPayload
      else Ok tt
  | _ => Err InvalidPayload
  end.

Definition validate_result (self : ResidentResponse) (request_id input_count dimension : Z)
    : result unit ProtocolError :=
  match self with
  | Result schema_version actual_request_id vectors telemetry =>
      if negb (str_eqb schema_version SCHEMA_VERSION)
         || negb (actual_request_id =? request_id)
         || negb (Z.of_nat (length vectors) =? input_count)
         || existsb (λ vector, negb (Z.of_nat (length vector) =? dimension)
                               || existsb (λ value, negb (f32_is_finite value)) vector) vectors
      then Err InvalidPayload
      else telemetry_validate telemetry input_count
  | _ => Err InvalidPayload
  end.

(** ** Serialization and streams

    [json_writes v] lists the buffers [serde_json::to_writer] hands to the
    writer for [v] and whether serialization completes after them;
    [json_from_slice] is [serde_json::from_slice]. *)
Class Json (T : Type) := {
  json_writes : T → list (list Z) * bool;
  json_from_slice : list Z → option T;
}.

Definition json_text `{Json T} (value : T) : list Z := concat (json_writes value).1.

(** The [Write] trait, as far as frames use it. *)
Class Write (W : Type) := {
  write_all : W → list Z → W * result unit IoErrorKind;
  flush : W → W * result unit IoErrorKind;
}.

(** [impl Write for Vec<u8>] of the standard library. *)
#[export] Instance vec_write : Write (list Z) := {
  write_all self bytes := (self ++ bytes, Ok tt);
  flush self := (self, Ok tt);
}.

(** One [read] call delivers at most the next chunk; a chunk larger than the
    buffer stays for the next call.  The end of the script is the end of the
    stream. *)
Inductive ReadEvent :=
| Chunk (bytes : list Z)
| ReadInterrupted
| ReadFailed.

Definition Reader := list ReadEvent.

Definition push_back (bytes : list Z) (r : Reader) : Reader :=
  match bytes with [] => r | _ => Chunk bytes :: r end.

(** [Read::read_exact]: retries interruptions, and the stream must not end
    before the buffer is full.  Every turn of its loop uses up an event or fills
    the buffer. *)
Fixpoint read_exact (n : nat) (r : Reader) : Reader * result (list Z) IoErrorKind :=
  match n with
  | O => (r, Ok [])
  | _ =>
      match r with
      | [] => ([], Err UnexpectedEof)
      | ReadInterrupted :: r => read_exact n r
      | ReadFailed :: r => (r, Err OtherIo)
      | Chunk [] :: r => (r, Err UnexpectedEof)
      | Chunk bytes :: r =>
          if (n <=? length bytes)%nat then (push_back (drop n bytes) r, Ok (take n bytes))
          else
            match read_exact (n - length bytes) r with
            | (r, Ok rest) => (r, Ok (bytes ++ rest))
            | (r, Err e) => (r, Err e)
            end
      end
  end.

(** ** Frames *)

Record BoundedBuffer := MkBounded {
  bb_bytes : list Z;
  bb_max_bytes : Z;
}.

Definition bounded_new (max_bytes : Z) : BoundedBuffer := MkBounded [] max_bytes.

Definition bounded_write (self : BoundedBuffer) (bytes : list Z)
    : BoundedBuffer * result Z IoErrorKind :=
  if bb_max_bytes self
     <? usize_saturating_add (Z.of_nat (length (bb_bytes self))) (Z.of_nat (length bytes))
  then (self, Err InvalidData)
  else (MkBounded (bb_bytes self ++ bytes) (bb_max_bytes self), Ok (Z.of_nat (length bytes))).

(** [Write::write_all] over [bounded_write], which takes a buffer whole. *)
Definition bounded_write_all (self : BoundedBuffer) (bytes : list Z)
    : result BoundedBuffer IoErrorKind :=
  match bytes with
  | [] => Ok self
  | _ =>
      match bounded_write self bytes with
      | (self, Ok _) => Ok self
      | (_, Err e) => Err e
      end
  end.

(** The errors of [serde_json::to_writer]: [is_io] tells the writer's from its
    own. *)
Inductive JsonError := JsonIo | JsonData.

Fixpoint to_writer_loop (writes : list (list Z)) (complete : bool) (buffer : BoundedBuffer)
    : result BoundedBuffer JsonError :=
  match writes with
  | [] => if complete then Ok buffer else Err JsonData
  | bytes :: writes =>
      match bounded_write_all buffer bytes with
      | Ok buffer => to_writer_loop writes complete buffer
      | Err _ => Err JsonIo
      end
  end.

Definition to_writer `{Json T} (buffer : BoundedBuffer) (value : T)
    : result BoundedBuffer JsonError :=
  to_writer_loop (json_writes value).1 (json_writes value).2 buffer.

Definition io_step {W} (r : W * result unit IoErrorKind) : W * result unit ProtocolError :=
  (r.1, map_err Io r.2).

Definition write_frame `{Json T} `{Write W} (writer : W) (value : T) (max_bytes : Z)
    : W * result unit ProtocolError :=
  match to_writer (bounded_new (Z.min max_bytes u32_MAX)) value with
  | Err JsonIo => (writer, Err FrameTooLarge)
  | Err JsonData => (writer, Err InvalidPayload)
  | Ok buffer =>
      let payload := bb_bytes buffer in
      match payload with
      | [] => (writer, Err FrameTooLarge)
      | _ =>
          let! writer := io_step (write_all writer (to_be_bytes 4 (Z.of_nat (length payload)))) in
          let! writer := io_step (write_all writer payload) in
          io_step (flush writer)
      end
  end.

(** [read] into a one-byte buffer, retried while interrupted. *)
Fixpoint read_prefix_byte (r : Reader) : Reader * result (option Z) ProtocolError :=
  match r with
  | [] => ([], Ok None)
  | Chunk [] :: r => (r, Ok None)
  | Chunk (b :: bytes) :: r => (push_back bytes r, Ok (Some b))
  | ReadInterrupted :: r => read_prefix_byte r
  | ReadFailed :: r => (r, Err (Io OtherIo))
  end.

Definition read_frame `{Json T} (reader : Reader) (max_bytes : Z)
    : Reader * result (option T) ProtocolError :=
  match read_prefix_byte reader with
  | (reader, Err e) => (reader, Err e)
  | (reader, Ok None) => (reader, Ok None)
  | (reader, Ok (Some first)) =>
      match read_exact 3 reader with
      | (reader, Err e) => (reader, Err (Io e))
      | (reader, Ok rest) =>
          let size := from_be_bytes (first :: rest) in
          if (size =? 0) || (max_bytes <? size) then (reader, Err FrameTooLarge)
          else
            match read_exact (Z.to_nat size) reader with
            | (reader, Err e) => (reader, Err (Io e))
            | (reader, Ok payload) =>
                match json_from_slice payload with
                | Some value => (reader, Ok (Some value))
                | None => (reader, Err InvalidPayload)
                end
            end
      end
  end.

(** Writing and reading a run of frames, as the two ends of a stream do. *)
Fixpoint write_frames `{Json T} `{Write W} (writer : W) (values : list T) (max_bytes : Z)
    : W * result unit ProtocolError :=
  match values with
  | [] => (writer, Ok tt)
  | value :: values =>
      let! writer := write_frame writer value max_bytes in
      write_frames writer values max_bytes
  end.

Fixpoint read_frames `{Json T} (n : nat) (reader : Reader) (max_bytes : Z)
    : Reader * result (list (option T)) ProtocolError :=
  match n with
  | O => (reader, Ok [])
  | S n =>
      match read_frame reader max_bytes with
      | (reader, Err e) => (reader, Err e)
      | (reader, Ok v) =>
          match read_frames n reader max_bytes with
          | (reader, Ok vs) => (reader, Ok (v :: vs))
          | (reader, Err e) => (reader, Err e)
          end
      end
  end.

(** ** Streams that neither fail nor end early *)

Definition content (r : Reader) : list Z :=
  concat (map (λ e, match e with Chunk bytes => bytes | _ => [] end) r).

Definition steady_event (e : ReadEvent) : Prop :=
  match e with Chunk bytes => bytes ≠ [] | ReadInterrupted => True | ReadFailed => False end.

Definition steady (r : Reader) : Prop := Forall steady_event r.

Lemma content_push_back bytes r : content (push_back bytes r) = bytes ++ content r.
Proof. by destruct bytes. Qed.

Lemma steady_push_back bytes r : steady r → steady (push_back bytes r).
Proof. destruct bytes; [done|]. by constructor. Qed.

#[local] Hint Resolve steady_push_back : resume.

Lemma read_exact_ok n r r' bytes :
  read_exact n r = (r', Ok bytes) → length bytes = n ∧ content r = bytes ++ content r'.
Proof.
  revert n r' bytes; induction r as [|e r IH]; intros [|n] r' bytes; cbn [read_exact]; try done;
    try by intros [= <- <-].
  destruct e as [[|b bs]| |]; try done; [|apply IH].
  destruct (Nat.leb_spec (S n) (length (b :: bs))) as [Hle|Hgt].
  - intros [= <- <-]. rewrite content_push_back. split.
    + change (length (take (S n) (b :: bs)) = S n). by apply length_take_le.
    + change (b :: bs ++ content r = b :: (take n bs ++ drop n bs ++ content r)).
      by rewrite (assoc_L (++)), take_drop.
  - destruct (read_exact _ r) as [r'' [rest|]] eqn:E; [|done]. intros [= <- <-].
    apply IH in E as [Hl Hc]. cbn [length] in *. split.
    + rewrite length_app. lia.
    + change (b :: bs ++ content r = b :: (bs ++ rest) ++ content r'').
      by rewrite <- (assoc_L (++)), <- Hc.
Qed.

Lemma read_exact_steady n r :
  steady r →
  if (n <=? length (content r))%nat
  then ∃ r', read_exact n r = (r', Ok (take n (content r)))
             ∧ steady r' ∧ content r' = drop n (content r)
  else ∃ r', read_exact n r = (r', Err UnexpectedEof).
Proof.
  revert n; induction r as [|e r IH]; intros [|n] Hs; cbn [read_exact].
  - eexists; split_and!; [done|done|done].
  - cbn. by eexists.
  - cbn [Nat.leb]. rewrite take_0, drop_0. by eexists.
  - apply Forall_cons in Hs as [He Hs]. destruct e as [[|b bs]| |]; try done; [|by apply IH].
    change (content (Chunk (b :: bs) :: r)) with ((b :: bs) ++ content r).
    destruct (Nat.leb_spec (S n) (length (b :: bs))) as [Hle|Hgt].
    + destruct (Nat.leb_spec (S n) (length ((b :: bs) ++ content r))) as [_|H'];
        [|rewrite length_app in H'; lia].
      eexists; split_and!; [|by apply steady_push_back|].
      * by rewrite (take_app_le (b :: bs)) by done.
      * by rewrite content_push_back, (drop_app_le (b :: bs)) by done.
    + specialize (IH (S n - length (b :: bs))%nat Hs).
      rewrite length_app.
      replace (S n <=? length (b :: bs) + length (content r))%nat
        with (S n - length (b :: bs) <=? length (content r))%nat.
      2: { apply eq_true_iff_eq. rewrite !Nat.leb_le. lia. }
      destruct (_ <=? _)%nat.
      * destruct IH as (r' & -> & Hs' & Hc). exists r'; split_and!; [|done|].
        -- by rewrite (take_app_ge (b :: bs)) by lia.
        -- by rewrite (drop_app_ge (b :: bs)) by lia.
      * destruct IH as (r' & ->). by eexists.
Qed.

Lemma read_exact_prefix n r bytes rest :
  steady r → content r = bytes ++ rest → length bytes = n →
  ∃ r', read_exact n r = (r', Ok bytes) ∧ steady r' ∧ content r' = rest.
Proof.
  intros Hs Hc <-. pose proof (read_exact_steady (length bytes) r Hs) as H.
  rewrite Hc, length_app, take_app_length, drop_app_length in H.
  destruct (Nat.leb_spec (length bytes) (length bytes + length rest)); [done|lia].
Qed.

Lemma read_prefix_byte_steady r :
  steady r →
  match content r with
  | [] => read_prefix_byte r = ([], Ok None)
  | b :: rest => ∃ r', read_prefix_byte r = (r', Ok (Some b)) ∧ steady r' ∧ content r' = rest
  end.
Proof.
  induction r as [|e r IH]; intros Hs; [done|].
  apply Forall_cons in Hs as [He Hs]. destruct e as [[|b bs]| |]; try done; [|by apply IH].
  change (content (Chunk (b :: bs) :: r)) with (b :: bs ++ content r).
  eexists; split_and!; [done|by apply steady_push_back|by rewrite content_push_back].
Qed.

Lemma read_prefix_byte_ok r r' b :
  read_prefix_byte r = (r', Ok (Some b)) → content r = b :: content r'.
Proof.
  induction r as [|e r IH]; [done|]. destruct e as [[|c bs]| |]; cbn [read_prefix_byte]; try done.
  intros [= <- <-]. by rewrite content_push_back.
Qed.

(** ** Frames *)

Section frames.
Context `{Json T}.

Lemma to_writer_loop_ok writes complete buffer buffer' :
  0 ≤ bb_max_bytes buffer ≤ u32_MAX →
  to_writer_loop writes complete buffer = Ok buffer' →
  complete = true ∧ bb_bytes buffer' = bb_bytes buffer ++ concat writes ∧
  (Z.of_nat (length (bb_bytes buffer)) ≤ bb_max_bytes buffer →
   Z.of_nat (length (bb_bytes buffer')) ≤ bb_max_bytes buffer).
Proof.
  revert buffer; induction writes as [|bytes writes IH]; intros buffer Hm; cbn [to_writer_loop].
  - destruct complete; [|done]. intros [= <-]. by rewrite app_nil_r.
  - destruct bytes as [|b bytes]; [by apply IH|].
    cbn [bounded_write_all]. unfold bounded_write. destruct (_ <? _) eqn:E; [done|].
    intros Hw. apply IH in Hw as (-> & Hb & Hl); [|done]. cbn [bb_bytes bb_max_bytes] in *.
    split_and!; [done| |].
    + by rewrite Hb, <- (assoc_L (++)).
    + intros _. apply Hl. bools. unfold usize_saturating_add, usize_MAX, u32_MAX in *.
      rewrite length_app. lia.
Qed.

Lemma to_writer_loop_fits writes buffer :
  0 ≤ bb_max_bytes buffer ≤ u32_MAX →
  Z.of_nat (length (bb_bytes buffer ++ concat writes)) ≤ bb_max_bytes buffer →
  to_writer_loop writes true buffer
  = Ok (MkBounded (bb_bytes buffer ++ concat writes) (bb_max_bytes buffer)).
Proof.
  revert buffer; induction writes as [|bytes writes IH]; intros [bs m] Hm Hl; cbn [to_writer_loop].
  - by rewrite app_nil_r.
  - cbn [bb_bytes bb_max_bytes concat] in *. destruct bytes as [|b bytes]; [by apply IH|].
    cbn [bounded_write_all]. unfold bounded_write. cbn [bb_bytes bb_max_bytes].
    rewrite !length_app in Hl.
    destruct (_ <? _) eqn:E.
    { bools. unfold usize_saturating_add, usize_MAX, u32_MAX in *. lia. }
    rewrite IH; cbn [bb_bytes bb_max_bytes]; [by rewrite <- (assoc_L (++))|done|].
    rewrite !length_app. lia.
Qed.

Definition frame_bytes (payload : list Z) : list Z :=
  to_be_bytes 4 (Z.of_nat (length payload)) ++ payload.

(** What one successful write to a byte vector appends. *)
Lemma write_frame_ok (w w' : list Z) (value : T) max_bytes :
  0 ≤ max_bytes →
  write_frame w value max_bytes = (w', Ok tt) →
  w' = w ++ frame_bytes (json_text value)
  ∧ 1 ≤ Z.of_nat (length (json_text value)) ≤ Z.min max_bytes u32_MAX.
Proof.
  intros Hmax. unfold write_frame, to_writer, json_text.
  destruct (to_writer_loop _ _ _) as [buffer|[]] eqn:E; [|done|done].
  apply to_writer_loop_ok in E as (_ & Hb & Hl); [|cbn; unfold u32_MAX; lia].
  cbn [bounded_new bb_bytes bb_max_bytes app] in *. rewrite Hb in *.
  destruct (concat _) as [|b bs] eqn:Ec; [done|]. cbn -[to_be_bytes]. intros [= <-].
  cbn [length] in *. unfold u32_MAX in *. split; [by rewrite <- (assoc_L (++))|lia].
Qed.

Lemma frame_size (payload : list Z) :
  Z.of_nat (length payload) ≤ u32_MAX →
  from_be_bytes (to_be_bytes 4 (Z.of_nat (length payload))) = Z.of_nat (length payload).
Proof. intros Hp. apply from_to_be_bytes. unfold u32_MAX in Hp. lia. Qed.

(** Reading back one frame at the front of a steady stream. *)
Lemma read_frame_steady (reader : Reader) (value : T) max_bytes payload rest :
  1 ≤ Z.of_nat (length payload) ≤ Z.min max_bytes u32_MAX →
  json_from_slice payload = Some value →
  steady reader → content reader = frame_bytes payload ++ rest →
  ∃ reader', read_frame reader max_bytes = (reader', Ok (Some value))
             ∧ steady reader' ∧ content reader' = rest.
Proof.
  intros Hp Hj Hs Hc. unfold frame_bytes in Hc.
  pose proof (frame_size payload) as Hsize.
  pose proof (length_to_be_bytes 4 (Z.of_nat (length payload))) as Hlen.
  destruct (to_be_bytes 4 _) as [|b prefix] eqn:Eb; [done|].
  unfold read_frame. pose proof (read_prefix_byte_steady reader Hs) as Hr1.
  rewrite Hc in Hr1. cbn [app] in Hr1. rewrite <- (assoc_L (++)) in Hr1.
  destruct Hr1 as (r1 & -> & Hs1 & Hc1).
  destruct (read_exact_prefix 3 r1 prefix _ Hs1 Hc1) as (r2 & -> & Hs2 & Hc2);
    [cbn in Hlen; lia|].
  rewrite Hsize by lia.
  destruct (_ || _) eqn:E; [apply orb_prop in E as [E|E]; bools; lia|].
  rewrite Nat2Z.id.
  destruct (read_exact_prefix (length payload) r2 payload rest Hs2 Hc2 eq_refl)
    as (r3 & -> & Hs3 & Hc3).
  rewrite Hj. by eexists.
Qed.

Lemma write_frames_ok (w w' : list Z) (values : list T) max_bytes :
  0 ≤ max_bytes →
  write_frames w values max_bytes = (w', Ok tt) →
  w' = w ++ concat (map (λ v, frame_bytes (json_text v)) values)
  ∧ Forall (λ v, 1 ≤ Z.of_nat (length (json_text v)) ≤ Z.min max_bytes u32_MAX) values.
Proof.
  intros Hmax. revert w; induction values as [|v values IH]; intros w; cbn [write_frames].
  - intros [= <-]. split; [by rewrite app_nil_r|constructor].
  - destruct (write_frame w v max_bytes) as [w1 [[]|e]] eqn:E; cbn [step_bind]; [|done].
    intros Hw. apply write_frame_ok in E as [-> Hv]; [|done].
    apply IH in Hw as [-> Hvs]. split; [|by constructor].
    cbn [map concat]. by rewrite <- (assoc_L (++)).
Qed.

Lemma read_frames_steady (reader : Reader) (values : list T) max_bytes rest :
  Forall (λ v, 1 ≤ Z.of_nat (length (json_text v)) ≤ Z.min max_bytes u32_MAX) values →
  Forall (λ v, json_from_slice (json_text v) = Some v) values →
  steady reader →
  content reader = concat (map (λ v, frame_bytes (json_text v)) values) ++ rest →
  ∃ reader', read_frames (length values) reader max_bytes = (reader', Ok (map Some values))
             ∧ steady reader' ∧ content reader' = rest.
Proof.
  revert reader; induction values as [|v values IH]; intros reader Hl Hj Hs Hc;
    cbn [length read_frames map].
  - by eexists.
  - apply Forall_cons in Hl as [Hlv Hl], Hj as [Hjv Hj].
    cbn [map concat] in Hc. rewrite <- (assoc_L (++)) in Hc.
    destruct (read_frame_steady reader v max_bytes _ _ Hlv Hjv Hs Hc) as (r1 & -> & Hs1 & Hc1).
    destruct (IH r1 Hl Hj Hs1 Hc1) as (r2 & -> & Hs2 & Hc2). by eexists.
Qed.

Lemma read_frame_eof (reader : Reader) max_bytes :
  steady reader → content reader = [] → read_frame (T:=T) reader max_bytes = ([], Ok None).
Proof.
  intros Hs Hc. unfold read_frame. pose proof (read_prefix_byte_steady reader Hs) as Hr.
  rewrite Hc in Hr. by rewrite Hr.
Qed.

(** C18: A run of frames written to a byte stream is read back value by value, however the
    stream is cut into reads and whatever reads are interrupted; the next read reports
    the end of the stream.  The only hypothesis on the serializer is that it parses what it
    printed for these values. *)
Theorem frames_roundtrip (values : list T) (written : list Z) (max_bytes : Z) (reader : Reader) :
  0 ≤ max_bytes →
  Forall (λ v, json_from_slice (json_text v) = Some v) values →
  write_frames [] values max_bytes = (written, Ok tt) →
  steady reader → content reader = written →
  ∃ reader', read_frames (length values) reader max_bytes = (reader', Ok (map Some values))
             ∧ read_frame (T:=T) reader' max_bytes = ([], Ok None).
Proof.
  intros Hmax Hj Hw Hs Hc. apply write_frames_ok in Hw as [-> Hl]; [|done].
  rewrite app_nil_l in Hc. rewrite <- (app_nil_r (concat _)) in Hc.
  destruct (read_frames_steady reader values max_bytes [] Hl Hj Hs Hc) as (r & Hr & Hsr & Hcr).
  exists r. split; [done|]. by apply read_frame_eof.
Qed.

Lemma from_be_bytes_nonneg bytes : Forall is_byte bytes → 0 ≤ from_be_bytes bytes.
Proof.
  unfold from_be_bytes. assert (0 ≤ 0) as Hacc by lia. revert Hacc. generalize 0 at 2 4.
  induction bytes as [|b bytes IH]; intros acc Hacc Hb; cbn [fold_left]; [done|].
  apply Forall_cons in Hb as [[Hb _] Hbs]. apply IH; [|done].
  apply Z.lor_nonneg. split; [|done]. by apply Z.shiftl_nonneg.
Qed.

(** C40: What a successful read accepts from any stream of bytes, failing or not: exactly one
    frame is consumed, its payload is between one byte and the limit, and it is a text
    the serializer parses to the value; nothing behind the frame is touched. *)
Theorem read_frame_sound (reader reader' : Reader) (max_bytes : Z) (value : T) :
  Forall is_byte (content reader) →
  read_frame reader max_bytes = (reader', Ok (Some value)) →
  ∃ prefix payload,
    content reader = prefix ++ payload ++ content reader'
    ∧ length prefix = 4%nat ∧ from_be_bytes prefix = Z.of_nat (length payload)
    ∧ 1 ≤ Z.of_nat (length payload) ≤ max_bytes
    ∧ json_from_slice payload = Some value.
Proof.
  intros Hbytes. unfold read_frame.
  destruct (read_prefix_byte reader) as [r1 [[b|]|]] eqn:E1; try done.
  apply read_prefix_byte_ok in E1.
  destruct (read_exact 3 r1) as [r2 [rest|]] eqn:E2; [|done].
  apply read_exact_ok in E2 as [Hl2 Hc2]. rewrite E1, Hc2 in Hbytes |- *.
  destruct (_ || _) eqn:Eg; [done|]. bools.
  destruct (read_exact _ r2) as [r3 [payload|]] eqn:E3; [|done].
  apply read_exact_ok in E3 as [Hl3 Hc3].
  destruct (json_from_slice payload) as [v|] eqn:Ej; [|done]. intros [= -> ->].
  change (b :: rest ++ content r2) with ((b :: rest) ++ content r2) in Hbytes |- *.
  apply Forall_app in Hbytes as [Hp _]. apply from_be_bytes_nonneg in Hp.
  exists (b :: rest), payload. rewrite Hc3. split_and!; try done; cbn [length]; lia.
Qed.
End frames.

(** ** What validation guarantees *)

Definition identity_ok (schema_version model_id : str) (dimension : Z) : Prop :=
  schema_version = SCHEMA_VERSION ∧ model_id ≠ [] ∧ str_len model_id ≤ MAX_MODEL_ID_BYTES
  ∧ Forall (λ b, byte_is_ascii_control b = false) (utf8 model_id) ∧ dimension ≠ 0.

Lemma existsb_Forall {A} (f : A → bool) l : existsb f l = false ↔ Forall (λ x, f x = false) l.
Proof.
  induction l as [|x l IH]; cbn; [by split|].
  rewrite orb_false_iff, Forall_cons, IH. done.
Qed.

Lemma is_empty_false s : is_empty s = false ↔ s ≠ [].
Proof. by destruct s. Qed.

Lemma validate_identity_ok schema_version model_id dimension :
  validate_identity schema_version model_id dimension = Ok tt
  ↔ identity_ok schema_version model_id dimension.
Proof.
  unfold validate_identity, identity_ok. rewrite <- existsb_Forall, <- is_empty_false,
    <- str_eqb_eq.
  destruct (str_eqb _ _), (is_empty _), (existsb _ _), (Z.ltb_spec MAX_MODEL_ID_BYTES (str_len model_id)),
    (Z.eqb_spec dimension 0); cbn; split; intros; split_and?; try done; try lia; naive_solver lia.
Qed.

Definition request_ok (r : EmbedRequest) : Prop :=
  identity_ok (req_schema_version r) (req_model_id r) (req_dimension r)
  ∧ 1 ≤ Z.of_nat (length (req_inputs r)) ≤ MAX_INPUTS
  ∧ Forall (λ i, str_len (input_text i) ≤ MAX_TEXT_BYTES) (req_inputs r).

Lemma request_validate_ok r : request_validate r = Ok tt ↔ request_ok r.
Proof.
  unfold request_validate, request_ok. rewrite <- validate_identity_ok.
  assert (Forall (λ i, str_len (input_text i) ≤ MAX_TEXT_BYTES) (req_inputs r)
          ↔ existsb (λ i, MAX_TEXT_BYTES <? str_len (input_text i)) (req_inputs r) = false) as ->.
  { rewrite existsb_Forall. apply Forall_proper; [|done]. intros i. by rewrite Z.ltb_ge. }
  destruct (validate_identity _ _ _) as [[]|]; cbn [result_bind]; [|naive_solver].
  destruct (Z.eqb_spec (Z.of_nat (length (req_inputs r))) 0),
    (Z.ltb_spec MAX_INPUTS (Z.of_nat (length (req_inputs r)))), (existsb _ _); cbn;
    naive_solver lia.
Qed.

Definition telemetry_ok (t : EmbeddingTelemetry) (n : Z) : Prop :=
  t = telemetry_default ∨
  input_count t = n ∧ active_token_count t ≤ padded_token_count t
  ∧ Z.min (tokenize_us t + tensor_us t + onnx_us t + pool_us t + normalize_us t) u64_MAX
    ≤ child_total_us t.

Definition telemetry_unsigned (t : EmbeddingTelemetry) : Prop :=
  0 ≤ tokenize_us t ∧ 0 ≤ tensor_us t ∧ 0 ≤ onnx_us t ∧ 0 ≤ pool_us t ∧ 0 ≤ normalize_us t.

Lemma telemetry_validate_ok t n :
  telemetry_unsigned t → telemetry_validate t n = Ok tt ↔ telemetry_ok t n.
Proof.
  intros Hu. unfold telemetry_validate, telemetry_ok.
  destruct (bool_decide (t = telemetry_default)) eqn:E; bools; [naive_solver|].
  set (total := u64_saturating_add _ (normalize_us t)).
  assert (total = Z.min (tokenize_us t + tensor_us t + onnx_us t + pool_us t + normalize_us t)
                    u64_MAX) as <-.
  { subst total. unfold u64_saturating_add, telemetry_unsigned, u64_MAX in *. lia. }
  destruct (Z.eqb_spec (input_count t) n),
    (Z.ltb_spec (padded_token_count t) (active_token_count t)),
    (Z.ltb_spec (child_total_us t) total); cbn; naive_solver lia.
Qed.

Definition result_ok_for (response : ResidentResponse) (request_id input_count dimension : Z)
    (vectors : list (list f32)) (telemetry : EmbeddingTelemetry) : Prop :=
  response = Result SCHEMA_VERSION request_id vectors telemetry
  ∧ Z.of_nat (length vectors) = input_count
  ∧ Forall (λ v, Z.of_nat (length v) = dimension
                 ∧ Forall (λ x, f32_is_finite x = true) v) vectors.

Lemma validate_result_shape response request_id input_count dimension :
  validate_result response request_id input_count dimension = Ok tt →
  ∃ vectors telemetry,
    result_ok_for response request_id input_count dimension vectors telemetry
    ∧ telemetry_validate telemetry input_count = Ok tt.
Proof.
  destruct response as [|sv rid vectors telemetry|]; cbn [validate_result]; try done.
  destruct (_ || _) eqn:E; [done|]. bools. intros Ht. exists vectors, telemetry.
  match goal with H : str_eqb _ _ = true |- _ => apply str_eqb_eq in H as -> end.
  match goal with H : existsb _ vectors = false |- _ => apply existsb_Forall in H as Hv end.
  subst. split; [|done]. split_and!; [done|done|].
  eapply Forall_impl; [exact Hv|]. cbn. intros v Hx. bools. split; [done|].
  match goal with H : existsb _ v = false |- _ => apply existsb_Forall in H as Hf end.
  eapply Forall_impl; [exact Hf|]. cbn. intros x. by destruct (f32_is_finite x).
Qed.

Lemma validate_ready_shape response model_id dimension :
  validate_ready response model_id dimension = Ok tt →
  response = response_ready model_id dimension ∧ identity_ok SCHEMA_VERSION model_id dimension.
Proof.
  destruct response as [sv m d| |]; cbn [validate_ready]; try done. intros Hr. peel Hr.
  destruct a. apply validate_identity_ok in E as Hi. destruct (_ || _) eqn:E2; [done|]. bools.
  match goal with H : str_eqb _ _ = true |- _ => apply str_eqb_eq in H as -> end. subst.
  destruct Hi as (-> & Hi). by split.
Qed.

(** ** Witnesses: a serializer of byte strings cut into single bytes *)

#[local] Instance sample_json : Json (list Z) := {
  json_writes v := (map (λ b, [b]) v, true);
  json_from_slice bytes := Some bytes;
}.

Definition sample_written : list Z := [0; 0; 0; 2; 7; 8; 0; 0; 0; 1; 9].

Definition sample_reader : Reader :=
  [ReadInterrupted; Chunk [0; 0]; Chunk [0]; ReadInterrupted; Chunk [2; 7; 8; 0; 0]; Chunk [0; 1; 9]].

Lemma frames_roundtrip_witness :
  ∃ reader', read_frames 2 sample_reader 16 = (reader', Ok [Some [7; 8]; Some [9]])
             ∧ read_frame (T:=list Z) reader' 16 = ([], Ok None).
Proof.
  apply (frames_roundtrip [[7; 8]; [9]] sample_written 16 sample_reader).
  - lia.
  - repeat constructor.
  - reflexivity.
  - repeat constructor; discriminate.
  - reflexivity.
Defined.

Lemma read_frame_sound_witness :
  ∃ prefix payload,
    content sample_reader = prefix ++ payload ++ content [Chunk [0; 0]; Chunk [0; 1; 9]]
    ∧ length prefix = 4%nat ∧ from_be_bytes prefix = Z.of_nat (length payload)
    ∧ 1 ≤ Z.of_nat (length payload) ≤ 16
    ∧ json_from_slice payload = Some [7; 8].
Proof.
  apply (read_frame_sound sample_reader [Chunk [0; 0]; Chunk [0; 1; 9]] 16 [7; 8]).
  - repeat constructor; discriminate.
  - reflexivity.
Defined.
