(* ===== verification/Resident.v ===== *)
(** * The resident embedding supervisor (crates/embedder)

    The owner of the embedding runtime: clients enqueue bounded batches with a
    priority and a deadline, one supervisor thread serves them over a child
    process, and every failure of a request replaces the child.  The state is the
    supervisor's; what it observes of clocks, the operating system, clients and
    the child during one turn of its loop is a script that the model reads in
    order. *)

From Stdlib Require Import ZArith String.
From stdpp Require Import prelude.
From S2P Require Import Prelude Collections Float32 Text Embedding.

Local Open Scope Z_scope.

(** ** Batches (embedder/src/lib.rs) *)

Inductive EmbeddingError :=
| InvalidDimension
| InvalidRequest
| WorkerUnavailable
| EngineFailed
| Overloaded
| Cancelled
| Timeout
| BudgetExceeded (limit actual : Z)
| TextBudgetExceeded (limit actual : Z).

Record EmbeddingBudget := MkBudget {
  max_inputs : Z;
  max_text_bytes : Z;
}.

Record EmbeddingInput := MkEmbeddingInput {
  emb_id : str;
  emb_role : EmbeddingRole;
  emb_text : str;
}.

Record EmbeddingVector := MkVector {
  vec_id : str;
  vec_model_id : str;
  vec_values : list f32;
}.

Definition embedding_vector_new (id model_id : str) (values : list f32)
    : result EmbeddingVector EmbeddingError :=
  match values with
  | [] => Err InvalidDimension
  | _ => Ok (MkVector id model_id values)
  end.

Definition validate_input (budget : EmbeddingBudget) (input : EmbeddingInput)
    : result unit EmbeddingError :=
  if is_empty (trim (emb_id input))
     || contains [10] (emb_id input) || contains [13] (emb_id input) || contains [9] (emb_id input)
  then Err InvalidRequest
  else if max_text_bytes budget <? str_len (emb_text input)
  then Err (TextBudgetExceeded (max_text_bytes budget) (str_len (emb_text input)))
  else Ok tt.

Definition validate_embedding_inputs (inputs : list EmbeddingInput) (budget : EmbeddingBudget)
    : result unit EmbeddingError :=
  if max_inputs budget <? Z.of_nat (length inputs)
  then Err (BudgetExceeded (max_inputs budget) (Z.of_nat (length inputs)))
  else let? _ := collect_results (validate_input budget) inputs in Ok tt.

(** ** Clients *)

Inductive EmbeddingPriority := Interactive | Background.

Definition INTERACTIVE_QUEUE_CAPACITY : Z := 8.
Definition BACKGROUND_QUEUE_CAPACITY : Z := 4.

Inductive ResidentEmbeddingStatus :=
| StatusStarting | StatusReady | StatusRestarting | StatusUnavailable | StatusShutdown.

Definition status_from_raw (value : Z) : ResidentEmbeddingStatus :=
  match value with
  | 0 => StatusStarting
  | 1 => StatusReady
  | 2 => StatusRestarting
  | 3 => StatusUnavailable
  | _ => StatusShutdown
  end.

Definition status_raw (s : ResidentEmbeddingStatus) : Z :=
  match s with
  | StatusStarting => 0
  | StatusReady => 1
  | StatusRestarting => 2
  | StatusUnavailable => 3
  | StatusShutdown => 4
  end.

(** A queued task; [task_id] names its response channel, [task_cancellation] is
    the shared flag (0 open, 1 cancelled, 2 timed out). *)
Record EmbeddingTask := MkTask {
  task_id : nat;
  task_inputs : list EmbeddingInput;
  task_enqueued_at : Z;
  task_deadline : Z;
  task_cancellation : Z;
}.

(** [AtomicU8::compare_exchange(0, v)]. *)
Definition cas_cancellation (flag v : Z) : Z := if flag =? 0 then v else flag.

Definition set_cancellation (task : EmbeddingTask) (flag : Z) : EmbeddingTask :=
  MkTask (task_id task) (task_inputs task) (task_enqueued_at task) (task_deadline task) flag.

Definition saturated_micros (us : Z) : Z := if us <=? u64_MAX then us else u64_MAX.

(** [cancellation_error]: the flag it leaves and the error it reports. *)
Definition cancellation_error (flag now deadline : Z) : Z * option EmbeddingError :=
  if flag =? 1 then (flag, Some Cancelled)
  else if flag =? 2 then (flag, Some Timeout)
  else if deadline <=? now then (2, Some Timeout)
  else (flag, None).

(** ** The supervisor *)

Record Spec := MkSpec {
  spec_model_id : str;
  spec_dimension : Z;
  spec_timeout_ms : Z;
}.

Definition Answer := result (list EmbeddingVector * EmbeddingTelemetry) EmbeddingError.

Inductive RecvEvent :=
| RecvOk (response : result ResidentResponse EmbeddingError)
| RecvTimeout
| RecvDisconnected.

(** One turn of the waiting loops: what a client did to the flag, the shutdown
    flag, the clock, the channel and [try_wait]. *)
Record Poll := MkPoll {
  poll_client : option Z;
  poll_shutdown : bool;
  poll_now : Z;
  poll_recv : RecvEvent;
  poll_exited : bool;
  poll_elapsed_us : Z;
}.

(** [Command::spawn] of the child and its pipes. *)
Inductive SpawnOutcome := Spawned | SpawnNotFoundOrDenied | SpawnOtherError | SpawnPipesMissing.

Record SpawnEnv := MkSpawnEnv {
  spawn_outcome : SpawnOutcome;
  spawn_started : Z;
  spawn_polls : list Poll;
}.

(** The runtime process: its identity and the write end of its standard input. *)
Record ResidentChild (W : Type) := MkChild {
  child_id : nat;
  child_stdin : W;
}.
Arguments MkChild {W} _ _.
Arguments child_id {W} _.
Arguments child_stdin {W} _.

(** A response sent to a client: which task, which process served it. *)
Record Sent := MkSent {
  sent_task : EmbeddingTask;
  sent_child : option nat;
  sent_request : option Z;
  sent_answer : Answer;
}.

(** [sv_ended]: [run] returned and dropped the receivers; [sv_dropped] are the tasks that
    went with them. *)
Record Supervisor (W : Type) := MkSupervisor {
  sv_interactive : list EmbeddingTask;
  sv_background : list EmbeddingTask;
  sv_shutdown : bool;
  sv_status : ResidentEmbeddingStatus;
  sv_next_request_id : Z;
  sv_child : option (ResidentChild W);
  sv_next_child : nat;
  sv_sent : list Sent;
  sv_ended : bool;
  sv_dropped : list EmbeddingTask;
}.
Arguments MkSupervisor {W} _ _ _ _ _ _ _ _ _ _.
Arguments sv_interactive {W} _.
Arguments sv_background {W} _.
Arguments sv_shutdown {W} _.
Arguments sv_status {W} _.
Arguments sv_next_request_id {W} _.
Arguments sv_child {W} _.
Arguments sv_next_child {W} _.
Arguments sv_sent {W} _.
Arguments sv_ended {W} _.
Arguments sv_dropped {W} _.

(** The answers of [SyncSender::try_send]. *)
Inductive TrySend (W : Type) := SendOk (s : Supervisor W) | SendFull | SendDisconnected.
Arguments SendOk {W} _.
Arguments SendFull {W}.
Arguments SendDisconnected {W}.

(** The instants the platform can represent ([Instant::checked_add]) and the
    pipe of a fresh child. *)
Class Platform (W : Type) := {
  instant_max : Z;
  fresh_stdin : nat → W;
}.

Section supervisor.
Context `{Json EmbedRequest} `{Write W} `{Platform W} (spec : Spec).

Definition instant_checked_add (now ms : Z) : option Z :=
  if now + ms <=? instant_max then Some (now + ms) else None.

Definition with_queues (s : Supervisor W) (i b : list EmbeddingTask) : Supervisor W :=
  MkSupervisor i b (sv_shutdown s) (sv_status s) (sv_next_request_id s) (sv_child s)
    (sv_next_child s) (sv_sent s) (sv_ended s) (sv_dropped s).

Definition set_status (s : Supervisor W) (status : ResidentEmbeddingStatus) : Supervisor W :=
  MkSupervisor (sv_interactive s) (sv_background s) (sv_shutdown s) status (sv_next_request_id s)
    (sv_child s) (sv_next_child s) (sv_sent s) (sv_ended s) (sv_dropped s).

Definition set_child (s : Supervisor W) (child : option (ResidentChild W)) : Supervisor W :=
  MkSupervisor (sv_interactive s) (sv_background s) (sv_shutdown s) (sv_status s)
    (sv_next_request_id s) child (sv_next_child s) (sv_sent s) (sv_ended s) (sv_dropped s).

Definition set_shutdown (s : Supervisor W) (shutdown : bool) : Supervisor W :=
  MkSupervisor (sv_interactive s) (sv_background s) (sv_shutdown s || shutdown) (sv_status s)
    (sv_next_request_id s) (sv_child s) (sv_next_child s) (sv_sent s) (sv_ended s) (sv_dropped s).

Definition send_answer (s : Supervisor W) (sent : Sent) : Supervisor W :=
  MkSupervisor (sv_interactive s) (sv_background s) (sv_shutdown s) (sv_status s)
    (sv_next_request_id s) (sv_child s) (sv_next_child s) (sv_sent s ++ [sent]) (sv_ended s) (sv_dropped s).

(** [SyncSender::try_send] on the channel of a priority. *)
Definition try_send_task (s : Supervisor W) (priority : EmbeddingPriority) (task : EmbeddingTask) : TrySend W :=
  if sv_ended s then SendDisconnected
  else
    match priority with
    | Interactive =>
        if Z.of_nat (length (sv_interactive s)) <? INTERACTIVE_QUEUE_CAPACITY
        then SendOk (with_queues s (sv_interactive s ++ [task]) (sv_background s)) else SendFull
    | Background =>
        if Z.of_nat (length (sv_background s)) <? BACKGROUND_QUEUE_CAPACITY
        then SendOk (with_queues s (sv_interactive s) (sv_background s ++ [task])) else SendFull
    end.

(** [ResidentEmbeddingClient::enqueue_batch]; [id] is the fresh response channel. *)
Definition enqueue_batch (s : Supervisor W) (id : nat) (priority : EmbeddingPriority)
    (inputs : list EmbeddingInput) (budget : EmbeddingBudget) (timeout_ms now : Z)
    : Supervisor W * result unit EmbeddingError :=
  match validate_embedding_inputs inputs budget with
  | Err e => (s, Err e)
  | Ok _ =>
      if (Z.of_nat (length inputs) =? 0) || (MAX_INPUTS <? Z.of_nat (length inputs))
         || (timeout_ms =? 0)
      then (s, Err InvalidRequest)
      else
        match instant_checked_add now timeout_ms with
        | None => (s, Err InvalidRequest)
        | Some deadline =>
            let task := MkTask id inputs now deadline 0 in
            match try_send_task s priority task with
            | SendOk s => (s, Ok tt)
            | SendFull => (s, Err Overloaded)
            | SendDisconnected => (s, Err WorkerUnavailable)
            end
        end
  end.

(** A client that waits: [wait_with_cancel] and [Drop] raise the flag of their
    task, in whichever queue it is. *)
Definition client_cancel (s : Supervisor W) (id : nat) (v : Z) : Supervisor W :=
  let upd := map (λ t, if (task_id t =? id)%nat
                       then set_cancellation t (cas_cancellation (task_cancellation t) v) else t) in
  with_queues s (upd (sv_interactive s)) (upd (sv_background s)).

(** An enqueue that arrives while [next_task] waits. *)
Record LateTask := MkLate {
  late_id : nat;
  late_inputs : list EmbeddingInput;
  late_budget : EmbeddingBudget;
  late_timeout_ms : Z;
  late_now : Z;
}.

Definition try_recv_interactive (s : Supervisor W) : option (Supervisor W * EmbeddingTask) :=
  match sv_interactive s with
  | task :: rest => Some (with_queues s rest (sv_background s), task)
  | [] => None
  end.

Definition next_task (s : Supervisor W) (late : option LateTask)
    : Supervisor W * option EmbeddingTask :=
  match try_recv_interactive s with
  | Some (s, task) => (s, Some task)
  | None =>
      match sv_background s with
      | task :: rest => (with_queues s (sv_interactive s) rest, Some task)
      | [] =>
          let s :=
            match late with
            | Some l =>
                (enqueue_batch s (late_id l) Interactive (late_inputs l) (late_budget l)
                   (late_timeout_ms l) (late_now l)).1
            | None => s
            end in
          match try_recv_interactive s with
          | Some (s, task) => (s, Some task)
          | None => (s, None)
          end
      end
  end.

(** The readiness loop of [spawn_child]; [None] when the script ends first. *)
Fixpoint ready_loop (deadline : Z) (polls : list Poll) : option (bool * result unit EmbeddingError) :=
  match polls with
  | [] => None
  | p :: polls =>
      if poll_shutdown p || (deadline <=? poll_now p)
      then Some (poll_shutdown p, Err WorkerUnavailable)
      else
        match poll_recv p with
        | RecvOk (Ok response) =>
            match validate_ready response (spec_model_id spec) (spec_dimension spec) with
            | Err _ => Some (poll_shutdown p, Err EngineFailed)
            | Ok _ => Some (poll_shutdown p, Ok tt)
            end
        | RecvOk (Err error) => Some (poll_shutdown p, Err error)
        | RecvDisconnected => Some (poll_shutdown p, Err EngineFailed)
        | RecvTimeout =>
            if poll_exited p then Some (poll_shutdown p, Err EngineFailed)
            else ready_loop deadline polls
        end
  end.

Definition spawn_child (s : Supervisor W) (e : SpawnEnv)
    : option (Supervisor W * result (ResidentChild W) EmbeddingError) :=
  match spawn_outcome e with
  | SpawnNotFoundOrDenied => Some (s, Err WorkerUnavailable)
  | SpawnOtherError | SpawnPipesMissing => Some (s, Err EngineFailed)
  | Spawned =>
      let id := sv_next_child s in
      let s := MkSupervisor (sv_interactive s) (sv_background s) (sv_shutdown s) (sv_status s)
                 (sv_next_request_id s) (sv_child s) (S id) (sv_sent s) (sv_ended s)
                 (sv_dropped s) in
      match ready_loop (spawn_started e + spec_timeout_ms spec) (spawn_polls e) with
      | None => None
      | Some (shutdown, Ok _) =>
          Some (set_status (set_shutdown s shutdown) StatusReady, Ok (MkChild id (fresh_stdin id)))
      | Some (shutdown, Err error) => Some (set_shutdown s shutdown, Err error)
      end
  end.

(** [spawn_child().ok()] with the status its callers set on failure. *)
Definition respawn (s : Supervisor W) (e : SpawnEnv) : option (Supervisor W) :=
  match spawn_child s e with
  | None => None
  | Some (s, Ok child) => Some (set_child s (Some child))
  | Some (s, Err _) => Some (set_status (set_child s None) StatusUnavailable)
  end.

Definition set_owner_times (t : EmbeddingTelemetry) (queue_wait ipc_wall : Z)
    : EmbeddingTelemetry :=
  MkTelemetry (input_count t) (active_token_count t) (padded_token_count t) (tokenize_us t)
    (tensor_us t) (onnx_us t) (pool_us t) (normalize_us t) (child_total_us t) queue_wait ipc_wall.

(** The answer built from one response. *)
Definition accept_response (inputs : list EmbeddingInput) (request_id queue_wait ipc_wall : Z)
    (response : ResidentResponse) : Answer :=
  let? _ := map_err (λ _, EngineFailed)
              (validate_result response request_id (Z.of_nat (length inputs)) (spec_dimension spec)) in
  match response with
  | Result _ _ vectors telemetry =>
      let? vectors := collect_results
        (λ '(input, values), embedding_vector_new (emb_id input) (spec_model_id spec) values)
        (zip inputs vectors) in
      Ok (vectors, set_owner_times telemetry queue_wait ipc_wall)
  | _ => Err EngineFailed
  end.

(** The waiting loop of [execute_task]: the flag and shutdown state it leaves. *)
Fixpoint execute_loop (task : EmbeddingTask) (request_id queue_wait : Z) (flag : Z)
    (polls : list Poll) : option (Z * bool * Answer) :=
  match polls with
  | [] => None
  | p :: polls =>
      let flag := match poll_client p with Some v => cas_cancellation flag v | None => flag end in
      if poll_shutdown p then Some (flag, true, Err WorkerUnavailable)
      else
        match cancellation_error flag (poll_now p) (task_deadline task) with
        | (flag, Some error) => Some (flag, false, Err error)
        | (flag, None) =>
            match poll_recv p with
            | RecvOk (Ok response) =>
                Some (flag, false,
                  accept_response (task_inputs task) request_id queue_wait
                    (saturated_micros (poll_elapsed_us p)) response)
            | RecvOk (Err error) => Some (flag, false, Err error)
            | RecvDisconnected => Some (flag, false, Err EngineFailed)
            | RecvTimeout =>
                if poll_exited p then Some (flag, false, Err EngineFailed)
                else execute_loop task request_id queue_wait flag polls
            end
        end
  end.

Definition task_request (task : EmbeddingTask) (request_id : Z) : EmbedRequest :=
  embed_request_new request_id (spec_model_id spec) (spec_dimension spec)
    (map (λ input, MkInput (emb_role input) (emb_text input)) (task_inputs task)).

(** [fetch_add] wraps; the child's standard input receives the frame. *)
Definition execute_task (s : Supervisor W) (child : ResidentChild W) (task : EmbeddingTask)
    (queue_wait : Z) (polls : list Poll) : option (Supervisor W * ResidentChild W * Answer) :=
  let request_id := sv_next_request_id s in
  let s := MkSupervisor (sv_interactive s) (sv_background s) (sv_shutdown s) (sv_status s)
             ((request_id + 1) `mod` 2 ^ 64) (sv_child s) (sv_next_child s) (sv_sent s) (sv_ended s)
             (sv_dropped s) in
  let request := task_request task request_id in
  match request_validate request with
  | Err _ => Some (s, child, Err InvalidRequest)
  | Ok _ =>
      match write_frame (child_stdin child) request MAX_REQUEST_BYTES with
      | (stdin, Err _) => Some (s, MkChild (child_id child) stdin, Err EngineFailed)
      | (stdin, Ok _) =>
          match execute_loop task request_id queue_wait (task_cancellation task) polls with
          | None => None
          | Some (_, shutdown, answer) =>
              Some (set_shutdown s shutdown, MkChild (child_id child) stdin, answer)
          end
      end
  end.

(** What one turn of [run] observes. *)
Record TurnEnv := MkTurn {
  turn_late : option LateTask;
  turn_now : Z;
  turn_spawn_before : SpawnEnv;
  turn_queue_wait_us : Z;
  turn_polls : list Poll;
  turn_spawn_after : SpawnEnv;
}.

(** The part of a turn that serves a live task. *)
Definition serve_task (s : Supervisor W) (e : TurnEnv) (task : EmbeddingTask)
    : option (Supervisor W) :=
  match (match sv_child s with
         | Some _ => Some s
         | None => respawn (set_status s StatusRestarting) (turn_spawn_before e)
         end) with
  | None => None
  | Some s =>
      match sv_child s with
      | None => Some (send_answer s (MkSent task None None (Err WorkerUnavailable)))
      | Some child =>
          match execute_task s child task (saturated_micros (turn_queue_wait_us e)) (turn_polls e) with
          | None => None
          | Some (s', child', answer) =>
              let sent := MkSent task (Some (child_id child)) (Some (sv_next_request_id s)) answer in
              match answer with
              | Ok _ => Some (send_answer (set_child s' (Some child')) sent)
              | Err _ =>
                  let s' := send_answer (set_status (set_child s' None) StatusRestarting) sent in
                  if sv_shutdown s' then Some s' else respawn s' (turn_spawn_after e)
              end
          end
      end
  end.

(** What a client finds on its response channel: the answer, nothing yet, or a channel
    whose sender was dropped with its task, which [wait_with_cancel] reports as
    [WorkerUnavailable]. *)
Definition response (s : Supervisor W) (id : nat) : option Answer :=
  match List.find (λ x, (task_id (sent_task x) =? id)%nat) (sv_sent s) with
  | Some x => Some (sent_answer x)
  | None =>
      if existsb (λ t, (task_id t =? id)%nat) (sv_dropped s)
      then Some (Err WorkerUnavailable) else None
  end.

(** [run] returns after it published the shutdown: the receivers are dropped, and the
    tasks still queued with them. *)
Definition end_run (s : Supervisor W) : Supervisor W :=
  MkSupervisor [] [] (sv_shutdown s) (sv_status s) (sv_next_request_id s) (sv_child s)
    (sv_next_child s) (sv_sent s) true (sv_dropped s ++ sv_interactive s ++ sv_background s).

(** One turn of the loop of [Supervisor::run]; the loop ends when shutdown was
    requested, and the child is terminated. *)
Definition run_turn (s : Supervisor W) (e : TurnEnv) : option (Supervisor W) :=
  if sv_shutdown s then Some (set_status (set_child s None) StatusShutdown)
  else
    match next_task s (turn_late e) with
    | (s, None) => Some s
    | (s, Some task) =>
        match cancellation_error (task_cancellation task) (turn_now e) (task_deadline task) with
        | (flag, Some error) =>
            Some (send_answer s (MkSent (set_cancellation task flag) None None (Err error)))
        | (_, None) => serve_task s e task
        end
    end.

(** [ResidentEmbeddingOwner::start]: empty queues, then the first spawn of [run]. *)
Definition start (e : SpawnEnv) : option (Supervisor W) :=
  respawn (MkSupervisor [] [] false StatusStarting 1 None 0 [] false []) e.
End supervisor.

(** ** Specification of answers *)

Definition input_ok (budget : EmbeddingBudget) (input : EmbeddingInput) : Prop :=
  trim (emb_id input) ≠ []
  ∧ contains [10] (emb_id input) = false ∧ contains [13] (emb_id input) = false
  ∧ contains [9] (emb_id input) = false
  ∧ str_len (emb_text input) ≤ max_text_bytes budget.

Lemma validate_embedding_inputs_ok inputs budget :
  validate_embedding_inputs inputs budget = Ok tt
  ↔ Z.of_nat (length inputs) ≤ max_inputs budget ∧ Forall (input_ok budget) inputs.
Proof.
  assert (∀ i, validate_input budget i = Ok tt ↔ input_ok budget i) as Hi.
  { intros i. unfold validate_input, input_ok. rewrite <- is_empty_false.
    destruct (is_empty _), (contains [10] _), (contains [13] _), (contains [9] _),
      (Z.ltb_spec (max_text_bytes budget) (str_len (emb_text i))); cbn; naive_solver lia. }
  unfold validate_embedding_inputs.
  destruct (Z.ltb_spec (max_inputs budget) (Z.of_nat (length inputs))); [naive_solver lia|].
  assert (Forall (input_ok budget) inputs
          ↔ ∃ us, collect_results (validate_input budget) inputs = Ok us) as ->.
  { setoid_rewrite collect_results_Forall2. split.
    - intros HF. exists (map (λ _, tt) inputs). apply Forall2_fmap_r, Forall_Forall2_diag.
      eapply Forall_impl; [exact HF|]. intros i. apply Hi.
    - intros [us HF]. eapply Forall2_Forall_l; [exact HF|].
      apply Forall_true. intros [] i. apply Hi. }
  destruct (collect_results _ _); cbn; naive_solver.
Qed.

(** One vector per input, in order, of the model and dimension asked for. *)
Definition vectors_for (spec : Spec) (inputs : list EmbeddingInput) (vectors : list EmbeddingVector)
    : Prop :=
  map vec_id vectors = map emb_id inputs
  ∧ Forall (λ v, vec_model_id v = spec_model_id spec
                 ∧ Z.of_nat (length (vec_values v)) = spec_dimension spec
                 ∧ Forall (λ x, f32_is_finite x = true) (vec_values v)) vectors.

Definition answer_ok (spec : Spec) (sent : Sent) : Prop :=
  match sent_answer sent with
  | Ok (vectors, _) => vectors_for spec (task_inputs (sent_task sent)) vectors
  | Err _ => True
  end.

Lemma collect_vectors_ok spec inputs values vectors :
  length values = length inputs →
  collect_results
    (λ '(input, values), embedding_vector_new (emb_id input) (spec_model_id spec) values)
    (zip inputs values) = Ok vectors →
  map vec_id vectors = map emb_id inputs ∧ map vec_values vectors = values
  ∧ Forall (λ v, vec_model_id v = spec_model_id spec) vectors.
Proof.
  rewrite collect_results_Forall2. revert values vectors.
  induction inputs as [|i inputs IH]; intros [|v values] vectors Hl HF; try done; cbn in HF.
  - inversion HF; subst. by split_and!.
  - inversion HF as [|? x ? ? Hx HF']; subst. destruct v as [|y v]; [done|].
    injection Hx as <-. apply IH in HF' as (Hid & Hv & Hm); [|cbn in Hl; lia].
    cbn. rewrite Hid, Hv. split_and!; [done|done|by constructor].
Qed.

Lemma accept_response_ok spec inputs request_id queue_wait ipc_wall response vectors telemetry :
  accept_response spec inputs request_id queue_wait ipc_wall response = Ok (vectors, telemetry) →
  vectors_for spec inputs vectors.
Proof.
  unfold accept_response. intros Ha. peel Ha. destruct a.
  apply validate_result_shape in E as (vs & t & (-> & Hl & HF) & _).
  peel Ha. injection Ha as <- <-.
  apply collect_vectors_ok in E as (Hid & Hv & Hm); [|lia]. split; [done|].
  rewrite <- Hv in HF. rewrite Forall_map in HF.
  eapply Forall_impl; [apply Forall_and; split; [exact Hm|exact HF]|]. naive_solver.
Qed.

Lemma execute_loop_ok spec task request_id queue_wait flag polls flag' sd vectors telemetry :
  execute_loop spec task request_id queue_wait flag polls = Some (flag', sd, Ok (vectors, telemetry)) →
  vectors_for spec (task_inputs task) vectors.
Proof.
  revert flag; induction polls as [|p polls IH]; intros flag; cbn [execute_loop]; [done|].
  set (f := match poll_client p with Some _ => _ | None => _ end). clearbody f.
  destruct (poll_shutdown p); [done|].
  destruct (cancellation_error f _ _) as [f' [e|]]; [done|].
  destruct (poll_recv p) as [[r|e]| |]; try done.
  - intros [= _ _ Ha]. by eapply accept_response_ok.
  - destruct (poll_exited p); [done|]. apply IH.
Qed.

(** Once the clock reaches the deadline, the waiting loops end. *)
Lemma execute_loop_total spec task request_id queue_wait flag polls :
  Exists (λ p, task_deadline task ≤ poll_now p) polls →
  is_Some (execute_loop spec task request_id queue_wait flag polls).
Proof.
  intros HE. revert flag; induction HE as [p polls Hp|p polls HE IH]; intros flag; cbn [execute_loop].
  all: set (f := match poll_client p with Some _ => _ | None => _ end); clearbody f.
  all: destruct (poll_shutdown p); [by eexists|].
  - unfold cancellation_error. destruct (f =? 1); [by eexists|]. destruct (f =? 2); [by eexists|].
    destruct (Z.leb_spec (task_deadline task) (poll_now p)); [by eexists|lia].
  - destruct (cancellation_error f _ _) as [f' [e|]]; [by eexists|].
    destruct (poll_recv p) as [[r|e]| |]; try by eexists.
    destruct (poll_exited p); [by eexists|]. apply IH.
Qed.

Lemma ready_loop_total spec deadline polls :
  Exists (λ p, deadline ≤ poll_now p) polls → is_Some (ready_loop spec deadline polls).
Proof.
  induction 1 as [p polls Hp|p polls HE IH]; cbn [ready_loop].
  - destruct (Z.leb_spec deadline (poll_now p)); [|lia]. rewrite orb_true_r. by eexists.
  - destruct (_ || _); [by eexists|]. destruct (poll_recv p) as [[r|e]| |]; try by eexists.
    + destruct (validate_ready _ _ _); by eexists.
    + by destruct (poll_exited p); [eexists|].
Qed.

(** The scripts of a turn reach their deadlines and see no shutdown. *)
Definition calm (polls : list Poll) : Prop := Forall (λ p, poll_shutdown p = false) polls.

Lemma ready_loop_calm spec deadline polls sd r :
  calm polls → ready_loop spec deadline polls = Some (sd, r) → sd = false.
Proof.
  induction 1 as [|p polls Hp _ IH]; cbn [ready_loop]; [done|]. rewrite Hp. cbn [orb].
  destruct (_ <=? _); [by intros [= <- _]|].
  destruct (poll_recv p) as [[r'|e]| |]; try by intros [= <- _].
  - destruct (validate_ready _ _ _); by intros [= <- _].
  - destruct (poll_exited p); [by intros [= <- _]|done].
Qed.

Lemma execute_loop_calm spec task request_id queue_wait flag polls flag' sd r :
  calm polls → execute_loop spec task request_id queue_wait flag polls = Some (flag', sd, r) →
  sd = false.
Proof.
  intros Hc; revert flag; induction Hc as [|p polls Hp _ IH]; intros flag; cbn [execute_loop]; [done|].
  set (f := match poll_client p with Some _ => _ | None => _ end). clearbody f. rewrite Hp.
  destruct (cancellation_error f _ _) as [f' [e|]]; [by intros [= _ <- _]|].
  destruct (poll_recv p) as [[r'|e]| |]; try by intros [= _ <- _].
  destruct (poll_exited p); [by intros [= _ <- _]|]. apply IH.
Qed.

(** ** Runs of the supervisor *)

Definition sent_ids (l : list Sent) : list nat := map (λ x, task_id (sent_task x)) l.

(** A process whose request failed serves nothing afterwards. *)
Definition failed_by (k : nat) (x : Sent) : Prop :=
  sent_child x = Some k ∧ ∃ e, sent_answer x = Err e.

Fixpoint isolated (l : list Sent) : Prop :=
  match l with
  | [] => True
  | x :: l => (∀ k, failed_by k x → Forall (λ y, sent_child y ≠ Some k) l) ∧ isolated l
  end.

Lemma isolated_snoc l x :
  isolated l → (∀ y k, y ∈ l → failed_by k y → sent_child x ≠ Some k) → isolated (l ++ [x]).
Proof.
  induction l as [|y l IH]; cbn; intros Hl Hx; [by split|]. destruct Hl as [Hy Hl]. split.
  - intros k Hk. apply Forall_app; split; [by apply Hy|]. constructor; [|done].
    eapply Hx; [|done]. set_solver.
  - apply IH; [done|]. intros z k Hz. apply Hx. set_solver.
Qed.

Section runs.
Context `{Json EmbedRequest} `{Write W} `{Platform W} (spec : Spec).

Implicit Types s : Supervisor W.

Definition queued s : list EmbeddingTask := sv_interactive s ++ sv_background s.

(** What the shared flag says about the process behind it. *)
Definition status_ok s : Prop :=
  match sv_child s with
  | Some _ => sv_status s = StatusReady
  | None => sv_status s = StatusUnavailable
            ∨ sv_shutdown s = true ∧ (sv_status s = StatusRestarting ∨ sv_status s = StatusShutdown)
  end.

(** The part of the invariant that does not mention the current process. *)
Record sv_core s : Prop := {
  core_interactive : Z.of_nat (length (sv_interactive s)) ≤ INTERACTIVE_QUEUE_CAPACITY;
  core_background : Z.of_nat (length (sv_background s)) ≤ BACKGROUND_QUEUE_CAPACITY;
  core_sent_child : ∀ x k, x ∈ sv_sent s → sent_child x = Some k → (k < sv_next_child s)%nat;
  core_isolated : isolated (sv_sent s);
  core_answers : Forall (answer_ok spec) (sv_sent s);
}.

(** The current process is known, and none of its requests failed. *)
Definition child_ok s : Prop :=
  ∀ c, sv_child s = Some c →
    (child_id c < sv_next_child s)%nat ∧ ∀ x, x ∈ sv_sent s → ¬ failed_by (child_id c) x.

Definition sv_wf s : Prop := sv_core s ∧ status_ok s ∧ child_ok s.

(** What [respawn] leaves alone, and the two ways it ends. *)
Lemma respawn_spec s e s' :
  respawn spec s e = Some s' →
  sv_interactive s' = sv_interactive s ∧ sv_background s' = sv_background s
  ∧ sv_sent s' = sv_sent s
  ∧ (sv_next_child s ≤ sv_next_child s')%nat
  ∧ ((∃ c, sv_child s' = Some c ∧ child_id c = sv_next_child s
           ∧ sv_next_child s' = S (sv_next_child s) ∧ sv_status s' = StatusReady)
     ∨ sv_child s' = None ∧ sv_status s' = StatusUnavailable).
Proof.
  unfold respawn, spawn_child.
  destruct (spawn_outcome e); try (intros [= <-]; cbn; split_and!; auto; fail).
  destruct (ready_loop spec _ _) as [[sd [[]|err]]|]; [| |done]; intros [= <-]; cbn;
    split_and!; auto; try lia. left. by eexists.
Qed.

Lemma execute_task_spec s child task queue_wait polls s' child' answer :
  execute_task spec s child task queue_wait polls = Some (s', child', answer) →
  sv_interactive s' = sv_interactive s ∧ sv_background s' = sv_background s
  ∧ sv_sent s' = sv_sent s ∧ sv_next_child s' = sv_next_child s ∧ sv_status s' = sv_status s
  ∧ sv_child s' = sv_child s
  ∧ child_id child' = child_id child
  ∧ (∀ vectors telemetry, answer = Ok (vectors, telemetry) →
       vectors_for spec (task_inputs task) vectors).
Proof.
  unfold execute_task. destruct (request_validate _) as [[]|]; [|by intros [= <- <- <-]].
  destruct (write_frame _ _ _) as [stdin [[]|]]; [|by intros [= <- <- <-]].
  destruct (execute_loop _ _ _ _ _ _) as [[[f sd] a]|] eqn:E; [|done]. intros [= <- <- <-].
  split_and!; try done. intros vs t ->. by eapply execute_loop_ok.
Qed.

Lemma wf_respawn s e s' : sv_core s → respawn spec s e = Some s' → sv_wf s'.
Proof.
  intros [] Hr. apply respawn_spec in Hr as (Hi & Hb & Hs & Hn & Hc). split_and!.
  - split; rewrite ?Hi, ?Hb, ?Hs; try done. intros x k Hx Hk.
    pose proof (core_sent_child0 x k Hx Hk). lia.
  - unfold status_ok. destruct Hc as [(c & -> & _ & _ & ->)|[-> ->]]; [done|by left].
  - intros c' Hc'. destruct Hc as [(c & Hc1 & Hid & Hn1 & _)|[Hc1 _]]; [|congruence].
    assert (c' = c) as -> by congruence. split; [lia|]. intros x Hx [Hk _].
    rewrite Hs in Hx. pose proof (core_sent_child0 x _ Hx Hk). lia.
Qed.

Lemma core_send s x :
  sv_core s → answer_ok spec x →
  (∀ k, sent_child x = Some k →
     (k < sv_next_child s)%nat ∧ ∀ y, y ∈ sv_sent s → ¬ failed_by k y) →
  sv_core (send_answer s x).
Proof.
  intros [] Ha Hx. split; cbn; try done.
  - intros y k Hy Hk. apply elem_of_app in Hy as [Hy|Hy]; [by eapply core_sent_child0|].
    apply list_elem_of_singleton in Hy as ->. by apply Hx.
  - apply isolated_snoc; [done|]. intros y k Hy Hk Hxk. by eapply Hx.
  - apply Forall_app; split; [done|]. by constructor.
Qed.

Lemma core_ext s s' :
  sv_core s → sv_interactive s' = sv_interactive s → sv_background s' = sv_background s →
  sv_sent s' = sv_sent s → sv_next_child s' = sv_next_child s → sv_core s'.
Proof. intros [] Hi Hb Hs Hn. split; by rewrite ?Hi, ?Hb, ?Hs, ?Hn. Qed.

(** A task served by a live process is answered once and the invariant survives
    whichever way it ends. *)
Lemma serve_with_child s child task queue_wait polls s' child' answer e s'' :
  sv_wf s → sv_child s = Some child →
  execute_task spec s child task queue_wait polls = Some (s', child', answer) →
  (let sent := MkSent task (Some (child_id child)) (Some (sv_next_request_id s)) answer in
   match answer with
   | Ok _ => Some (send_answer (set_child s' (Some child')) sent)
   | Err _ =>
       let s' := send_answer (set_status (set_child s' None) StatusRestarting) sent in
       if sv_shutdown s' then Some s' else respawn spec s' e
   end) = Some s'' →
  ∃ x, sent_task x = task ∧ sv_sent s'' = sv_sent s ++ [x]
       ∧ sv_interactive s'' = sv_interactive s ∧ sv_background s'' = sv_background s
       ∧ sv_wf s''.
Proof.
  intros (Hcore & Hst & Hch) Ec Hx. apply execute_task_spec in Hx
    as (Hi & Hb & Hs & Hn & Hst' & Hc' & Hid & Ha).
  destruct (Hch child Ec) as [Hlt Hok].
  set (x := MkSent task (Some (child_id child)) (Some (sv_next_request_id s)) answer).
  assert (sv_core (send_answer (set_child s' None) x)) as Hcore'.
  { apply core_send; [by eapply core_ext| |].
    - unfold answer_ok, x. cbn. destruct answer as [[vs t]|]; [by eapply Ha|done].
    - cbn. intros k [= <-]. rewrite Hn, Hs. by split. }
  destruct answer as [a|err].
  - intros [= <-]. exists x. cbn. rewrite Hs, Hi, Hb. unfold sv_wf. split_and!; try done.
    + by eapply core_ext.
    + unfold status_ok in *. rewrite Ec in Hst. cbn. congruence.
    + intros c [= <-]. cbn. rewrite Hid, Hn, Hs. split; [done|].
      intros y [Hy|Hy%list_elem_of_singleton]%elem_of_app; [by apply Hok|].
      subst y. intros [_ [err Herr]]. discriminate Herr.
  - cbn [sv_shutdown send_answer set_status set_child].
    destruct (sv_shutdown s') eqn:Esd.
    + intros [= <-]. exists x. cbn. rewrite Hs, Hi, Hb. unfold sv_wf. split_and!; try done.
      * by eapply core_ext.
      * right. cbn. auto.
    + intros Hr. assert (sv_wf s'') as Hwf.
      { eapply wf_respawn; [|exact Hr]. by eapply core_ext. }
      apply respawn_spec in Hr as (Hi' & Hb' & Hs' & _). cbn in *.
      exists x. rewrite Hi', Hb', Hs', Hs, Hi, Hb. by split_and!.
Qed.

Lemma serve_task_spec s e task s' :
  sv_wf s → serve_task spec s e task = Some s' →
  ∃ x, sent_task x = task ∧ sv_sent s' = sv_sent s ++ [x]
       ∧ sv_interactive s' = sv_interactive s ∧ sv_background s' = sv_background s
       ∧ sv_wf s'.
Proof.
  intros Hwf. unfold serve_task.
  set (r := match sv_child s with Some _ => _ | None => _ end).
  assert (∀ s1, r = Some s1 →
    sv_wf s1 ∧ sv_sent s1 = sv_sent s ∧ sv_interactive s1 = sv_interactive s
    ∧ sv_background s1 = sv_background s) as Hs1.
  { subst r. intros s1. destruct (sv_child s) as [c|] eqn:Ec; [by intros [= <-]|].
    intros Hr. split.
    - eapply wf_respawn; [|exact Hr]. eapply core_ext; [apply Hwf|done..].
    - apply respawn_spec in Hr as (Hi & Hb & Hs & _). by split_and!. }
  destruct r as [s1|]; [|done].
  destruct (Hs1 s1 eq_refl) as (Hwf1 & Hs & Hi & Hb). clear Hs1 Hwf.
  rewrite <- Hs, <- Hi, <- Hb. clear Hs Hi Hb s.
  destruct (sv_child s1) as [child|] eqn:Ec.
  - destruct (execute_task spec s1 child task _ _) as [[[s2 child'] answer]|] eqn:Ex; [|done].
    by eapply serve_with_child.
  - intros [= <-]. eexists. split_and!; [|done|done|done|]; [done|].
    destruct Hwf1 as (Hcore & Hst & Hch). split_and!.
    + by apply core_send.
    + unfold status_ok in *. cbn. by rewrite Ec in *.
    + intros c. cbn. by rewrite Ec.
Qed.

(** Enqueueing, cancelling and taking tasks. *)

Lemma enqueue_batch_spec s id priority inputs budget timeout_ms now s' :
  enqueue_batch s id priority inputs budget timeout_ms now = (s', Ok tt) →
  ∃ task, task_id task = id ∧ task_inputs task = inputs ∧ task_cancellation task = 0
    ∧ s' = match priority with
           | Interactive => with_queues s (sv_interactive s ++ [task]) (sv_background s)
           | Background => with_queues s (sv_interactive s) (sv_background s ++ [task])
           end
    ∧ sv_ended s = false
    ∧ match priority with
      | Interactive => Z.of_nat (length (sv_interactive s)) < INTERACTIVE_QUEUE_CAPACITY
      | Background => Z.of_nat (length (sv_background s)) < BACKGROUND_QUEUE_CAPACITY
      end.
Proof.
  unfold enqueue_batch, try_send_task. destruct (validate_embedding_inputs _ _); [|done].
  destruct (_ || _); [done|]. destruct (instant_checked_add _ _) as [d|]; [|done].
  destruct (sv_ended s); [done|].
  destruct priority; destruct (_ <? _) eqn:E; try done; intros [= <-]; bools;
    by eexists (MkTask _ _ _ _ _).
Qed.

Lemma enqueue_batch_err s id priority inputs budget timeout_ms now s' e :
  enqueue_batch s id priority inputs budget timeout_ms now = (s', Err e) → s' = s.
Proof.
  unfold enqueue_batch, try_send_task. destruct (validate_embedding_inputs _ _); [|by intros [= <- _]].
  destruct (_ || _); [by intros [= <- _]|].
  destruct (instant_checked_add _ _); [|by intros [= <- _]].
  destruct (sv_ended s); [by intros [= <- _]|]. destruct priority; destruct (_ <? _); by intros [= <- _].
Qed.

Lemma with_queues_wf s i b :
  sv_wf s → Z.of_nat (length i) ≤ INTERACTIVE_QUEUE_CAPACITY →
  Z.of_nat (length b) ≤ BACKGROUND_QUEUE_CAPACITY → sv_wf (with_queues s i b).
Proof. intros ([] & Hst & Hch) Hi Hb. by split_and!. Qed.

Lemma enqueue_batch_wf s id priority inputs budget timeout_ms now s' :
  sv_wf s → enqueue_batch s id priority inputs budget timeout_ms now = (s', Ok tt) → sv_wf s'.
Proof.
  intros Hwf He. apply enqueue_batch_spec in He as (task & _ & _ & _ & -> & _ & Hl).
  pose proof Hwf as ([] & _). destruct priority; apply with_queues_wf; try done;
    rewrite length_app; cbn [length]; lia.
Qed.

(** The ids a turn accepts through a late arrival. *)
Definition late_accepted s (late : option LateTask) : list nat :=
  match sv_shutdown s, queued s, late with
  | false, [], Some l =>
      match (enqueue_batch s (late_id l) Interactive (late_inputs l) (late_budget l)
               (late_timeout_ms l) (late_now l)).2 with
      | Ok _ => [late_id l]
      | Err _ => []
      end
  | _, _, _ => []
  end.

Definition task_ids s : list nat := map task_id (queued s).

Lemma next_task_queued s late :
  match queued s with
  | task :: rest => ∃ s1, next_task s late = (s1, Some task) ∧ queued s1 = rest
  | [] => True
  end.
Proof.
  unfold queued, next_task, try_recv_interactive.
  destruct (sv_interactive s) as [|t i] eqn:Ei; cbn; [|by eexists].
  destruct (sv_background s) as [|t b] eqn:Eb; cbn; [done|]. by eexists.
Qed.

Lemma next_task_spec s late s1 otask :
  sv_wf s → sv_shutdown s = false → next_task s late = (s1, otask) →
  sv_wf s1 ∧ sv_sent s1 = sv_sent s ∧ sv_shutdown s1 = false
  ∧ match otask with
    | Some task => task_id task :: task_ids s1 ≡ₚ task_ids s ++ late_accepted s late
    | None => s1 = s ∧ task_ids s ++ late_accepted s late = []
    end.
Proof.
  intros Hwf Hsd. pose proof Hwf as ([] & _).
  unfold next_task, late_accepted, task_ids, queued, try_recv_interactive. rewrite Hsd.
  destruct (sv_interactive s) as [|t i] eqn:Ei.
  2: { intros [= <- <-]. rewrite app_nil_r. split_and!; try done.
       apply with_queues_wf; [done| |done]. cbn [length] in *. lia. }
  destruct (sv_background s) as [|t b] eqn:Eb.
  2: { intros [= <- <-]. cbn [app]. rewrite app_nil_r. cbn. split_and!; try done.
       apply with_queues_wf; [done|done|]. cbn [length] in *. lia. }
  cbn [app]. destruct late as [l|].
  2: { rewrite Ei. intros [= <- <-]. by split_and!. }
  destruct (enqueue_batch s _ _ _ _ _ _) as [s2 [[]|e]] eqn:Ee; cbn [fst snd].
  - pose proof Ee as Hs. apply enqueue_batch_spec in Hs as (task & <- & _ & _ & -> & _).
    rewrite Ei, Eb. cbn. intros [= <- <-]. cbn. split_and!; try done.
    by apply (with_queues_wf s [] []).
  - apply enqueue_batch_err in Ee as ->. rewrite Ei. intros [= <- <-]. by split_and!.
Qed.

(** A run: the ids of the accepted batches and the supervisor reached. *)
Inductive run : list nat → Supervisor W → Prop :=
| run_start e s : start spec e = Some s → run [] s
| run_enqueue acc s id priority inputs budget timeout_ms now s' :
    run acc s → id ∉ acc →
    enqueue_batch s id priority inputs budget timeout_ms now = (s', Ok tt) →
    run (acc ++ [id]) s'
| run_cancel acc s id v : run acc s → run acc (client_cancel s id v)
| run_shutdown acc s : run acc s → run acc (set_shutdown s true)
| run_end acc s : run acc s → sv_status s = StatusShutdown → run acc (end_run s)
| run_loop acc s e s' :
    run acc s → (∀ l, turn_late e = Some l → late_id l ∉ acc) →
    run_turn spec s e = Some s' → run (acc ++ late_accepted s (turn_late e)) s'.

Definition dropped_ids s : list nat := map task_id (sv_dropped s).

Definition accounted (acc : list nat) s : Prop :=
  NoDup acc ∧ acc ≡ₚ task_ids s ++ sent_ids (sv_sent s) ++ dropped_ids s.

(** While the receivers exist nothing was dropped; afterwards nothing is queued. *)
Definition channels_ok s : Prop :=
  if sv_ended s then sv_shutdown s = true ∧ queued s = [] else sv_dropped s = [].

(** What the supervisor's own steps never touch. *)
Definition same_channels s s' : Prop := sv_ended s' = sv_ended s ∧ sv_dropped s' = sv_dropped s.

Lemma respawn_channels s e s' : respawn spec s e = Some s' → same_channels s s'.
Proof.
  unfold respawn, spawn_child.
  destruct (spawn_outcome e); try (by intros [= <-]).
  destruct (ready_loop spec _ _) as [[sd [[]|err]]|]; [| |done]; by intros [= <-].
Qed.

Lemma execute_task_channels s child task queue_wait polls s' child' answer :
  execute_task spec s child task queue_wait polls = Some (s', child', answer) → same_channels s s'.
Proof.
  unfold execute_task. destruct (request_validate _) as [[]|]; [|by intros [= <- <- <-]].
  destruct (write_frame _ _ _) as [stdin [[]|]]; [|by intros [= <- <- <-]].
  destruct (execute_loop _ _ _ _ _ _) as [[[f sd] a]|]; [|done]. by intros [= <- <- <-].
Qed.

Lemma serve_task_channels s e task s' : serve_task spec s e task = Some s' → same_channels s s'.
Proof.
  unfold serve_task. set (r := match sv_child s with Some _ => _ | None => _ end).
  assert (∀ s1, r = Some s1 → same_channels s s1) as Hs1.
  { subst r. intros s1. destruct (sv_child s); [by intros [= <-]|]. apply respawn_channels. }
  destruct r as [s1|]; [|done]. destruct (Hs1 s1 eq_refl) as [He Hd]. unfold same_channels.
  rewrite <- He, <- Hd. destruct (sv_child s1) as [child|]; [|by intros [= <-]].
  destruct (execute_task _ _ _ _ _ _) as [[[s2 child'] answer]|] eqn:Ex; [|done].
  apply execute_task_channels in Ex as [<- <-]. destruct answer as [a|err]; [by intros [= <-]|].
  destruct (sv_shutdown _); [by intros [= <-]|]. intros Hr. by apply respawn_channels in Hr.
Qed.

Lemma enqueue_batch_channels s id priority inputs budget timeout_ms now :
  same_channels s (enqueue_batch s id priority inputs budget timeout_ms now).1.
Proof.
  destruct (enqueue_batch _ _ _ _ _ _ _) as [s' [[]|e]] eqn:E.
  - apply enqueue_batch_spec in E as (task & _ & _ & _ & -> & _). by destruct priority.
  - by apply enqueue_batch_err in E as ->.
Qed.

Lemma next_task_channels s late : same_channels s (next_task s late).1.
Proof.
  unfold next_task, try_recv_interactive. destruct (sv_interactive s); [|done].
  destruct (sv_background s); [|done].
  set (s1 := match late with Some _ => _ | None => _ end).
  assert (same_channels s s1) as Hs1 by (subst s1; destruct late; [apply enqueue_batch_channels|done]).
  by destruct (sv_interactive s1).
Qed.

Lemma run_turn_channels s e s' : run_turn spec s e = Some s' → same_channels s s'.
Proof.
  unfold run_turn. destruct (sv_shutdown s); [by intros [= <-]|].
  pose proof (next_task_channels s (turn_late e)) as Hn.
  destruct (next_task s (turn_late e)) as [s1 [task|]]; [|by intros [= <-]].
  destruct (cancellation_error _ _ _) as [flag [err|]]; [by intros [= <-]|].
  intros [He Hd]%serve_task_channels. destruct Hn. split; cbn in *; congruence.
Qed.

Lemma run_turn_channels_ok s e s' : channels_ok s → run_turn spec s e = Some s' → channels_ok s'.
Proof.
  intros Hok Ht. pose proof (run_turn_channels _ _ _ Ht) as [He Hd]. unfold channels_ok in *.
  rewrite He, Hd. destruct (sv_ended s); [|done]. destruct Hok as [Hsd Hq].
  unfold run_turn in Ht. rewrite Hsd in Ht. by injection Ht as <-.
Qed.

Lemma run_turn_wf acc s e s' :
  sv_wf s → accounted acc s → (∀ l, turn_late e = Some l → late_id l ∉ acc) →
  run_turn spec s e = Some s' →
  sv_wf s' ∧ accounted (acc ++ late_accepted s (turn_late e)) s'.
Proof.
  intros Hwf [Hnd Hp] Hlate Ht.
  assert (dropped_ids s' = dropped_ids s) as Hdr by (unfold dropped_ids; by apply run_turn_channels in Ht as [_ ->]).
  revert Ht Hdr. unfold run_turn. destruct (sv_shutdown s) eqn:Esd.
  { intros [= <-] _. pose proof Hwf as ([] & _). split.
    - split_and!; [by split| |by intros c]. right. cbn. auto.
    - unfold late_accepted. rewrite Esd, app_nil_r. by split. }
  destruct (next_task s (turn_late e)) as [s1 otask] eqn:En.
  apply next_task_spec in En as (Hwf1 & Hs1 & Hsd1 & Hq); [|done|done].
  assert (NoDup (acc ++ late_accepted s (turn_late e))) as Hnd'.
  { unfold late_accepted. rewrite Esd. destruct (queued s); [|by rewrite app_nil_r].
    destruct (turn_late e) as [l|] eqn:El; [|by rewrite app_nil_r].
    destruct (_.2); [|by rewrite app_nil_r]. apply NoDup_app. split_and!; [done| |apply NoDup_singleton].
    intros x Hx ->%list_elem_of_singleton. by eapply Hlate. }
  destruct otask as [task|].
  2: { destruct Hq as [-> Hq]. intros [= <-] _. apply app_eq_nil in Hq as [_ Hq].
       rewrite Hq, app_nil_r in *. by split. }
  assert (∀ x, task_id (sent_task x) = task_id task →
    acc ++ late_accepted s (turn_late e)
    ≡ₚ task_ids s1 ++ sent_ids (sv_sent s ++ [x]) ++ dropped_ids s) as Hacc.
  { intros x Hx. unfold sent_ids at 1. rewrite map_app. cbn. rewrite Hx, Hp.
    rewrite (comm (++) (task_ids s)), <- (assoc (++)), <- Hq. unfold sent_ids. solve_Permutation. }
  destruct (cancellation_error _ _ _) as [flag [err|]] eqn:Ec.
  - intros [= <-] Hdr. split.
    + destruct Hwf1 as (Hc & Hst & Hch). split_and!; [by apply core_send|done|].
      intros c Hcc. cbn in *. destruct (Hch c Hcc) as [Hlt Hok]. split; [done|].
      intros y [Hy|Hy%list_elem_of_singleton]%elem_of_app; [by apply Hok|]. subst y.
      intros [[=] _].
    + split; [done|]. rewrite Hdr. cbn. rewrite Hs1. by apply Hacc.
  - intros Hserve Hdr. apply serve_task_spec in Hserve as (x & Hx & Hs & Hi & Hb & Hwf'); [|done].
    split; [done|]. split; [done|]. rewrite Hdr. unfold task_ids, queued. rewrite Hs, Hi, Hb, Hs1.
    apply Hacc. by rewrite Hx.
Qed.

Lemma client_cancel_ids s id v : task_ids (client_cancel s id v) = task_ids s.
Proof.
  unfold task_ids, queued, client_cancel. cbn. rewrite !map_app, !map_map.
  f_equal; apply map_ext; intros t; by destruct (_ =? _)%nat.
Qed.

Lemma end_run_wf s : sv_wf s → sv_wf (end_run s).
Proof. intros ([] & Hst & Hch). by split_and!. Qed.

Lemma shutdown_published s : sv_wf s → sv_status s = StatusShutdown → sv_shutdown s = true.
Proof.
  intros (_ & Hst & _) Hs. unfold status_ok in Hst. rewrite Hs in Hst. destruct (sv_child s); naive_solver.
Qed.

Lemma run_wf acc s : run acc s → sv_wf s ∧ accounted acc s ∧ channels_ok s.
Proof.
  induction 1 as [e s Hs|acc s id pr ins bud tm now s' _ (Hwf & [Hnd Hp] & Hok) Hid He
                 |acc s id v _ (Hwf & [Hnd Hp] & Hok)|acc s _ ((Hc & Hst & Hch) & Ha & Hok)
                 |acc s _ (Hwf & [Hnd Hp] & Hok) Hsd|acc s e s' _ (Hwf & Ha & Hok) Hl Ht].
  - unfold start in Hs. split; [|split].
    + eapply wf_respawn; [|exact Hs]. split; cbn; try done. intros x k Hx. set_solver.
    + pose proof (respawn_channels _ _ _ Hs) as [_ Hd].
      apply respawn_spec in Hs as (Hi & Hb & Hsent & _). cbn in *.
      unfold accounted, task_ids, queued, dropped_ids. rewrite Hi, Hb, Hsent, Hd. split; [constructor|done].
    + apply respawn_channels in Hs as [He Hd]. unfold channels_ok. by rewrite He.
  - split; [by eapply enqueue_batch_wf|].
    apply enqueue_batch_spec in He as (task & <- & _ & _ & -> & Hne & _). split; [split|].
    + apply NoDup_app. split_and!; [done| |apply NoDup_singleton].
      intros x Hx ->%list_elem_of_singleton. done.
    + rewrite Hp. unfold task_ids, queued, dropped_ids. destruct pr; cbn; rewrite !map_app; cbn; solve_Permutation.
    + unfold channels_ok in *. rewrite Hne in Hok. destruct pr; cbn; by rewrite Hne.
  - split; [|split].
    + pose proof Hwf as ([] & _). apply with_queues_wf; [done| |]; by rewrite length_map.
    + split; [done|]. by rewrite client_cancel_ids.
    + unfold channels_ok, queued in *. cbn. destruct (sv_ended s); [|done].
      destruct Hok as [Hs' [Hi Hb]%app_eq_nil]. by rewrite Hi, Hb.
  - split; [|split; [done|]].
    + split_and!; [by eapply core_ext| |done].
      unfold status_ok in *. cbn. destruct (sv_child s); [done|].
      rewrite orb_true_r. naive_solver.
    + unfold channels_ok in *. cbn. destruct (sv_ended s); [|done]. destruct Hok as [_ Hq]. by rewrite orb_true_r.
  - split; [by apply end_run_wf|]. split; [split; [done|]|].
    + rewrite Hp. unfold task_ids, queued, dropped_ids. cbn. rewrite !map_app. solve_Permutation.
    + unfold channels_ok. cbn. by rewrite (shutdown_published s).
  - edestruct run_turn_wf as [Hwf' Ha']; [done..|]. split; [done|]. split; [done|].
    by eapply run_turn_channels_ok.
Qed.

(** Nothing is accepted once the receivers are gone. *)
Lemma enqueue_after_end s id priority inputs budget timeout_ms now :
  sv_ended s = true → ∃ e, enqueue_batch s id priority inputs budget timeout_ms now = (s, Err e).
Proof.
  intros He. unfold enqueue_batch, try_send_task. rewrite He.
  destruct (validate_embedding_inputs _ _); [|by eexists]. destruct (_ || _); [by eexists|].
  destruct (instant_checked_add _ _); by eexists.
Qed.

(** What a client of an accepted batch receives. *)
Definition delivered s (id : nat) (a : Answer) : Prop :=
  (∃ x, x ∈ sv_sent s ∧ task_id (sent_task x) = id ∧ sent_answer x = a) ∨
  (a = Err WorkerUnavailable ∧ id ∈ dropped_ids s ∧ id ∉ sent_ids (sv_sent s)).

Lemma response_delivered s id :
  match response s id with
  | Some a => delivered s id a
  | None => (id ∉ sent_ids (sv_sent s)) ∧ (id ∉ dropped_ids s)
  end.
Proof.
  unfold response, delivered, sent_ids, dropped_ids. destruct (List.find _ _) as [x|] eqn:E.
  - apply find_some in E as [Hx Hid%Nat.eqb_eq]. left. exists x. by rewrite list_elem_of_In.
  - assert (id ∉ map (λ x, task_id (sent_task x)) (sv_sent s)) as Hn.
    { intros (x & <- & Hx)%list_elem_of_In%in_map_iff. apply (find_none _ _ E) in Hx.
      by rewrite Nat.eqb_refl in Hx. }
    destruct (existsb _ _) eqn:Ed.
    + apply existsb_exists in Ed as (t & Ht & <-%Nat.eqb_eq). right. split_and!; [done| |done].
      apply list_elem_of_In, in_map_iff. by exists t.
    + split; [done|]. intros (t & <- & Ht)%list_elem_of_In%in_map_iff.
      assert (existsb (λ t', (task_id t' =? task_id t)%nat) (sv_dropped s) = true); [|congruence].
      apply existsb_exists. exists t. by rewrite Nat.eqb_refl.
Qed.

(** Progress of one turn. *)

Definition spawn_timely (e : SpawnEnv) : Prop :=
  calm (spawn_polls e)
  ∧ Exists (λ p, spawn_started e + spec_timeout_ms spec ≤ poll_now p) (spawn_polls e).

(** The clock of a turn passes the deadline of [task] and of the spawns. *)
Definition timely (e : TurnEnv) (task : EmbeddingTask) : Prop :=
  spawn_timely (turn_spawn_before e) ∧ spawn_timely (turn_spawn_after e)
  ∧ calm (turn_polls e) ∧ Exists (λ p, task_deadline task ≤ poll_now p) (turn_polls e).

Lemma respawn_total s e :
  spawn_timely e → ∃ s', respawn spec s e = Some s' ∧ sv_shutdown s' = sv_shutdown s.
Proof.
  intros [Hcalm HE]. unfold respawn, spawn_child.
  destruct (spawn_outcome e); try by eexists.
  destruct (ready_loop_total spec _ _ HE) as [[sd r] Hr]. rewrite Hr.
  apply ready_loop_calm in Hr as ->; [|done].
  destruct r; eexists; (split; [done|]); cbn; by rewrite orb_false_r.
Qed.

Lemma execute_task_total s child task queue_wait polls :
  calm polls → Exists (λ p, task_deadline task ≤ poll_now p) polls →
  ∃ s' child' answer, execute_task spec s child task queue_wait polls = Some (s', child', answer)
                      ∧ sv_shutdown s' = sv_shutdown s.
Proof.
  intros Hcalm HE. unfold execute_task.
  destruct (request_validate _); [|by do 3 eexists].
  destruct (write_frame _ _ _) as [stdin [[]|]]; [|by do 3 eexists].
  destruct (execute_loop_total spec task (sv_next_request_id s) queue_wait
              (task_cancellation task) polls HE) as [[[f sd] ans] Hx].
  rewrite Hx. apply execute_loop_calm in Hx as ->; [|done].
  do 3 eexists; split; [done|]. cbn. by rewrite orb_false_r.
Qed.

Lemma serve_task_total s e task :
  timely e task →
  ∃ s', serve_task spec s e task = Some s' ∧ sv_shutdown s' = sv_shutdown s.
Proof.
  intros (Hb & Ha & Hc & HE). unfold serve_task.
  assert (∃ s1, (match sv_child s with
                 | Some _ => Some s
                 | None => respawn spec (set_status s StatusRestarting) (turn_spawn_before e)
                 end) = Some s1 ∧ sv_shutdown s1 = sv_shutdown s) as (s1 & -> & <-).
  { destruct (sv_child s); [by eexists|].
    destruct (respawn_total (set_status s StatusRestarting) _ Hb) as (s1 & -> & Hs1). by eexists. }
  destruct (sv_child s1) as [child|]; [|by eexists].
  destruct (execute_task_total s1 child task (saturated_micros (turn_queue_wait_us e)) _ Hc HE)
    as (s2 & child' & answer & -> & <-).
  destruct answer as [ans|err]; [by eexists|].
  cbn [sv_shutdown send_answer set_status set_child].
  destruct (sv_shutdown s2) eqn:Esd; [by eexists|].
  destruct (respawn_total (send_answer (set_status (set_child s2 None) StatusRestarting)
    (MkSent task (Some (child_id child)) (Some (sv_next_request_id s1)) (Err err))) _ Ha)
    as (s3 & -> & Hs3). exists s3. by rewrite Hs3.
Qed.

Lemma run_turn_progress s e task rest :
  sv_wf s → sv_shutdown s = false → queued s = task :: rest → timely e task →
  ∃ s', run_turn spec s e = Some s' ∧ sv_wf s' ∧ sv_shutdown s' = false
        ∧ queued s' = rest ∧ sent_ids (sv_sent s') = sent_ids (sv_sent s) ++ [task_id task].
Proof.
  intros Hwf Hsd Hq Htime. unfold run_turn. rewrite Hsd.
  pose proof (next_task_queued s (turn_late e)) as Hn. rewrite Hq in Hn.
  destruct Hn as (s1 & Hn & Hq1). rewrite Hn.
  apply next_task_spec in Hn as (Hwf1 & Hs1 & Hsd1 & _); [|done|done].
  destruct (cancellation_error _ _ _) as [flag [err|]] eqn:Ec.
  - eexists; split; [done|]. cbn. unfold sent_ids. rewrite map_app, Hs1. split_and!; try done.
    destruct Hwf1 as (Hc & Hst & Hch). split_and!; [by apply core_send|done|].
    intros c Hcc. cbn in *. destruct (Hch c Hcc) as [Hlt Hok]. split; [done|].
    intros y [Hy|Hy%list_elem_of_singleton]%elem_of_app; [by apply Hok|]. subst y. intros [[=] _].
  - destruct (serve_task_total s1 e task Htime) as (s' & Hs' & Hsd').
    rewrite Hs'. apply serve_task_spec in Hs' as (x & Hx & Hs & Hi & Hb & Hwf'); [|done].
    eexists; split; [done|]. split_and!; [done|congruence| |].
    + unfold queued in *. by rewrite Hi, Hb.
    + rewrite Hs, Hs1. unfold sent_ids. rewrite map_app. cbn. by rewrite Hx.
Qed.

Fixpoint run_turns s (es : list TurnEnv) : option (Supervisor W) :=
  match es with
  | [] => Some s
  | e :: es => match run_turn spec s e with Some s' => run_turns s' es | None => None end
  end.

(** C9: In every run of the supervisor, shutdown included, each accepted batch is exactly
    once queued, answered, or dropped unanswered with the receivers when [run] ends.
    Every successful answer has one vector per input of its batch, in order, of the
    configured model and dimension with finite values only.  A client finds its own
    answer on its channel, or [WorkerUnavailable] for a dropped batch, and nothing only
    while its batch is queued.  Batches are dropped only by a requested shutdown; then
    nothing stays queued and every further batch is refused. *)
Theorem resident_answers_match acc s :
  run acc s →
  NoDup acc ∧ acc ≡ₚ task_ids s ++ sent_ids (sv_sent s) ++ dropped_ids s
  ∧ Forall (answer_ok spec) (sv_sent s)
  ∧ (∀ id, id ∈ acc →
       match response s id with
       | Some a => delivered s id a
       | None => id ∈ task_ids s ∧ sv_ended s = false
       end)
  ∧ (if sv_ended s
     then sv_shutdown s = true ∧ queued s = []
          ∧ ∀ id priority inputs budget timeout_ms now,
              ∃ e, enqueue_batch s id priority inputs budget timeout_ms now = (s, Err e)
     else sv_dropped s = []).
Proof.
  intros Hr. apply run_wf in Hr as (([] & _) & [Hnd Hp] & Hok). split_and!; [done..| |].
  - intros id Hid. pose proof (response_delivered s id) as Hd. destruct (response s id); [done|].
    destruct Hd as [Hd1 Hd2]. assert (id ∈ task_ids s) as Hq by (rewrite Hp in Hid; set_solver).
    split; [done|]. unfold channels_ok in Hok. destruct (sv_ended s); [|done].
    destruct Hok as [_ Hq']. unfold task_ids in Hq. rewrite Hq' in Hq. by apply not_elem_of_nil in Hq.
  - unfold channels_ok in Hok. destruct (sv_ended s) eqn:He; [|done]. destruct Hok. split_and!; [done..|].
    intros. by apply enqueue_after_end.
Qed.

(** In every run a process that failed a request never serves another one, the published
    status is ready exactly while a process is up (outside shutdown), and the queues
    stay within their capacities. *)
Theorem resident_failures_isolated acc s :
  run acc s →
  isolated (sv_sent s)
  ∧ (∀ c x, sv_child s = Some c → x ∈ sv_sent s → ¬ failed_by (child_id c) x)
  ∧ (sv_child s ≠ None → sv_status s = StatusReady)
  ∧ (sv_child s = None → sv_shutdown s = false → sv_status s = StatusUnavailable)
  ∧ Z.of_nat (length (sv_interactive s)) ≤ INTERACTIVE_QUEUE_CAPACITY
  ∧ Z.of_nat (length (sv_background s)) ≤ BACKGROUND_QUEUE_CAPACITY.
Proof.
  intros Hr. apply run_wf in Hr as (([] & Hst & Hch) & _ & _). unfold status_ok in Hst.
  split_and!; try done.
  - intros c x Hc. by apply Hch.
  - by destruct (sv_child s).
  - intros Hc Hsd. rewrite Hc, Hsd in Hst. naive_solver.
Qed.

(** C29: Every queued batch is answered: after as many turns as there are queued batches,
    whatever the child does, all of them have been answered in queue order, interactive
    ones first, provided the clock passes their deadlines and nobody shuts down. *)
Theorem resident_progress acc s (es : list TurnEnv) :
  run acc s → sv_shutdown s = false →
  length es = length (queued s) →
  (∀ e task, e ∈ es → task ∈ queued s → timely e task) →
  ∃ s', run_turns s es = Some s' ∧ queued s' = []
        ∧ sent_ids (sv_sent s') = sent_ids (sv_sent s) ++ task_ids s.
Proof.
  intros Hr. apply run_wf in Hr as [Hwf _]. clear acc. revert s Hwf.
  induction es as [|e es IH]; intros s Hwf Hsd Hl Ht; unfold task_ids;
    destruct (queued s) as [|task rest] eqn:Hq; try done; cbn [run_turns].
  - exists s. by rewrite app_nil_r.
  - destruct (run_turn_progress s e task rest Hwf Hsd Hq) as (s1 & -> & Hwf1 & Hsd1 & Hq1 & Hs1).
    { apply Ht; set_solver. }
    destruct (IH s1 Hwf1 Hsd1) as (s2 & -> & Hq2 & Hs2).
    { rewrite Hq1. cbn in Hl. lia. }
    { intros e' t He' Ht'. apply Ht; [set_solver|]. rewrite Hq1 in Ht'. set_solver. }
    exists s2. split_and!; [done|done|]. rewrite Hs2, Hs1. unfold task_ids. rewrite Hq1.
    by rewrite <- (assoc_L (++)).
Qed.
End runs.

(** ** The reader of the child's responses

    [accepts] are the answers of [try_send] on the bounded channel. *)
Fixpoint run_response_reader `{Json ResidentResponse} (accepts : list bool) (stdout : Reader)
    : list (result ResidentResponse EmbeddingError) :=
  match accepts with
  | [] => []
  | accepted :: accepts =>
      match read_frame stdout MAX_RESPONSE_BYTES with
      | (stdout, Ok (Some response)) =>
          if accepted then Ok response :: run_response_reader accepts stdout else []
      | (_, _) => if accepted then [Err EngineFailed] else []
      end
  end.

Lemma run_response_reader_frames `{Json ResidentResponse} (responses : list ResidentResponse)
    (stdout stdout' : Reader) more :
  read_frames (length responses) stdout MAX_RESPONSE_BYTES = (stdout', Ok (map Some responses)) →
  read_frame (T:=ResidentResponse) stdout' MAX_RESPONSE_BYTES = ([], Ok None) →
  run_response_reader (replicate (length responses) true ++ true :: more) stdout
  = map Ok responses ++ [Err EngineFailed].
Proof.
  revert stdout; induction responses as [|r responses IH]; intros stdout;
    cbn [length read_frames replicate app map run_response_reader].
  - intros [= ->] ->. done.
  - destruct (read_frame stdout _) as [s1 [[v|]|]] eqn:E; [| |done];
      destruct (read_frames _ s1 _) as [s2 [vs|]] eqn:E2; try done; intros Hr; injection Hr; try done.
    intros Hvs -> ->. intros Hend. f_equal. eapply IH; [|done]. by rewrite E2, Hvs.
Qed.

(** The supervisor's channel carries exactly the responses the child framed onto its
    standard output, however the pipe delivers them, and one failure when the stream
    ends. *)
Theorem response_reader_forwards `{Json ResidentResponse} (responses : list ResidentResponse)
    (written : list Z) (stdout : Reader) :
  Forall (λ v, json_from_slice (json_text v) = Some v) responses →
  write_frames [] responses MAX_RESPONSE_BYTES = (written, Ok tt) →
  steady stdout → content stdout = written →
  run_response_reader (replicate (S (length responses)) true) stdout
  = map Ok responses ++ [Err EngineFailed].
Proof.
  intros Hj Hw Hs Hc. apply write_frames_ok in Hw as [-> Hl]; [|done].
  rewrite app_nil_l in Hc. rewrite <- (app_nil_r (concat _)) in Hc.
  destruct (read_frames_steady stdout responses MAX_RESPONSE_BYTES [] Hl Hj Hs Hc)
    as (r & Hr & Hsr & Hcr).
  rewrite replicate_S_end. eapply run_response_reader_frames; [exact Hr|].
  by apply read_frame_eof.
Qed.

(** ** Witnesses *)

#[local] Instance sample_request_json : Json EmbedRequest := {
  json_writes r := ([[123]; [req_request_id r]; [125]], true);
  json_from_slice _ := None;
}.

#[local] Instance sample_platform : Platform (list Z) := {
  instant_max := 2 ^ 62;
  fresh_stdin _ := [];
}.

Definition sample_spec : Spec := MkSpec (lit "m") 1 1000.

Definition sample_poll (recv : RecvEvent) (now : Z) : Poll := MkPoll None false now recv false 5.

Definition sample_spawn : SpawnEnv :=
  MkSpawnEnv Spawned 0
    [sample_poll RecvTimeout 10; sample_poll (RecvOk (Ok (response_ready (lit "m") 1))) 20;
     sample_poll RecvTimeout 5000].

Definition sample_input : EmbeddingInput := MkEmbeddingInput (lit "d1") RolePassage (lit "text").

Definition sample_vector : list f32 := [f32_of_Z 1].

(** The child answers the first request late and wrongly (another request id), so it
    is replaced. *)
Definition sample_turn : TurnEnv :=
  MkTurn None 100 sample_spawn 7
    [sample_poll RecvTimeout 110; sample_poll (RecvOk (Ok (response_result 9 [sample_vector]))) 120;
     sample_poll RecvTimeout 9000]
    sample_spawn.

Definition sample_started : Supervisor (list Z) :=
  default (MkSupervisor [] [] false StatusStarting 1 None 0 [] false []) (start sample_spec sample_spawn).

Definition sample_queued : Supervisor (list Z) :=
  (enqueue_batch sample_started 5 Background [sample_input] (MkBudget 4 100) 500 90).1.

Lemma sample_supervisor_run : run sample_spec [5%nat] sample_queued.
Proof.
  change [5%nat] with ([] ++ [5%nat]).
  apply (run_enqueue sample_spec [] sample_started 5 Background [sample_input] (MkBudget 4 100) 500 90).
  - apply (run_start sample_spec sample_spawn). reflexivity.
  - set_solver.
  - reflexivity.
Qed.

Definition sample_served : Supervisor (list Z) :=
  default sample_queued (run_turn sample_spec sample_queued sample_turn).

Lemma sample_run_served : run sample_spec [5%nat] sample_served.
Proof.
  change [5%nat] with ([5%nat] ++ late_accepted sample_queued (turn_late sample_turn)).
  apply run_loop; [apply sample_supervisor_run|done|]. vm_compute. reflexivity.
Qed.

(** The new child answers the next batch; a third one is queued when the owner shuts
    down, and goes with the receivers. *)
Definition sample_good_turn : TurnEnv :=
  MkTurn None 200 sample_spawn 7
    [sample_poll (RecvOk (Ok (response_result 2 [sample_vector]))) 220; sample_poll RecvTimeout 9000]
    sample_spawn.

Definition sample_enqueue (s : Supervisor (list Z)) (id : nat) : Supervisor (list Z) :=
  (enqueue_batch s id Interactive [sample_input] (MkBudget 4 100) 500 190).1.
Definition sample_step (s : Supervisor (list Z)) : Supervisor (list Z) :=
  default s (run_turn sample_spec s sample_good_turn).

Definition sample_answered : Supervisor (list Z) := sample_step (sample_enqueue sample_served 6).
Definition sample_ended : Supervisor (list Z) :=
  end_run (sample_step (set_shutdown (sample_enqueue sample_answered 7) true)).

Lemma sample_run_enqueue acc s id :
  run sample_spec acc s → id ∉ acc →
  (enqueue_batch s id Interactive [sample_input] (MkBudget 4 100) 500 190).2 = Ok tt →
  run sample_spec (acc ++ [id]) (sample_enqueue s id).
Proof.
  intros Hr Hid He. apply (run_enqueue sample_spec acc s id Interactive [sample_input] (MkBudget 4 100) 500 190);
    [done|done|]. unfold sample_enqueue. rewrite <- He. by destruct (enqueue_batch _ _ _ _ _ _ _).
Qed.

Lemma sample_run_step acc s :
  run sample_spec acc s → is_Some (run_turn sample_spec s sample_good_turn) →
  run sample_spec acc (sample_step s).
Proof.
  intros Hr [s' Hs]. unfold sample_step. rewrite Hs.
  assert (late_accepted s (turn_late sample_good_turn) = []) as Hl.
  { unfold late_accepted. destruct (sv_shutdown s), (queued s); done. }
  rewrite <- (app_nil_r acc), <- Hl. by apply run_loop.
Qed.

Lemma sample_run_ended : run sample_spec [5; 6; 7]%nat sample_ended.
Proof.
  apply run_end; [|vm_compute; reflexivity].
  apply sample_run_step; [|by eexists].
  apply run_shutdown. apply (sample_run_enqueue [5; 6]%nat); [|set_solver|vm_compute; reflexivity].
  apply sample_run_step; [|by eexists; vm_compute].
  apply (sample_run_enqueue [5]%nat); [apply sample_run_served|set_solver|vm_compute; reflexivity].
Qed.

Example sample_outcomes :
  map (λ id, match response sample_ended id with
             | Some (Ok (vectors, _)) => Some (Ok (map vec_id vectors))
             | Some (Err e) => Some (Err e)
             | None => None
             end) [5; 6; 7]%nat
  = [Some (Err EngineFailed); Some (Ok [lit "d1"]); Some (Err WorkerUnavailable)].
Proof. vm_compute. reflexivity. Qed.

Lemma resident_answers_match_witness :
  ([5; 6; 7]%nat ≡ₚ task_ids sample_ended ++ sent_ids (sv_sent sample_ended) ++ dropped_ids sample_ended)
  ∧ Forall (answer_ok sample_spec) (sv_sent sample_ended)
  ∧ ∀ id, id ∈ [5; 6; 7]%nat →
      match response sample_ended id with
      | Some a => delivered sample_ended id a
      | None => id ∈ task_ids sample_ended ∧ sv_ended sample_ended = false
      end.
Proof.
  destruct (resident_answers_match sample_spec [5; 6; 7]%nat sample_ended sample_run_ended)
    as (_ & Hp & Ha & Hd & _). exact (conj Hp (conj Ha Hd)).
Defined.

Lemma resident_failures_isolated_witness :
  (∃ x, sv_sent sample_served = [x] ∧ failed_by 0 x)
  ∧ ∀ c, sv_child sample_served = Some c → child_id c ≠ 0%nat.
Proof.
  destruct (resident_failures_isolated sample_spec [5%nat] sample_served sample_run_served)
    as (_ & Hf & _). split.
  - vm_compute. eexists. split; [reflexivity|]. split; [reflexivity|]. by eexists.
  - intros c Hc Hid. apply (Hf c _ Hc (list_elem_of_here _ _)). rewrite Hid.
    split; [reflexivity|]. by eexists.
Defined.

Lemma resident_progress_witness :
  ∃ s', run_turns sample_spec sample_queued [sample_turn] = Some s' ∧ queued s' = []
        ∧ sent_ids (sv_sent s') = [5%nat].
Proof.
  apply (resident_progress sample_spec [5%nat] sample_queued [sample_turn]).
  - apply sample_supervisor_run.
  - reflexivity.
  - reflexivity.
  - intros e task ->%list_elem_of_singleton Ht. apply list_elem_of_singleton in Ht as ->.
    assert (spawn_timely sample_spec sample_spawn).
    { split; [repeat constructor|]. right. right. left. vm_compute. discriminate. }
    split_and!; [done|done|repeat constructor|]. right. right. left. vm_compute. discriminate.
Defined.

#[local] Instance sample_response_json : Json ResidentResponse := {
  json_writes r := ([[1]; [2]], true);
  json_from_slice _ := Some (response_ready (lit "m") 1);
}.

Lemma response_reader_forwards_witness :
  run_response_reader [true; true] [Chunk [0; 0]; ReadInterrupted; Chunk [0; 2; 1]; Chunk [2]]
  = [Ok (response_ready (lit "m") 1); Err EngineFailed].
Proof.
  apply (response_reader_forwards [response_ready (lit "m") 1] [0; 0; 0; 2; 1; 2]
           [Chunk [0; 0]; ReadInterrupted; Chunk [0; 2; 1]; Chunk [2]]).
  - repeat constructor.
  - reflexivity.
  - repeat constructor; discriminate.
  - reflexivity.
Defined.
