(* ===== verification/WriterStore.v ===== *)
(** * The writer tables and their operations (crates/meta-store)

    Which processing contract may write, how a store moves from one contract to the
    next, and the latches that keep ordinary writers out meanwhile
    (writer_transition_store.rs, processing_contract_transition.rs, contract_delta.rs,
    import_processing_contract.rs).  The tables the machine touches are the fields of
    [Db]; a row check of the schema is a boolean function, and a statement that would
    break it is the storage error SQLite reports.  A store call is one transaction: it
    either commits the [Db] it computed or leaves the old one.  SHA-256 is the
    parameter of [Identity].  The theorems are in [WriterTransition]. *)

From Stdlib Require Import ZArith String.
From stdpp Require Import prelude gmap.
From S2P Require Import Prelude Collections Text Identity Health.
Import Health.Store.

Local Open Scope Z_scope.

Inductive MetaStoreError :=
| Storage
| StorageInvariant
| InvalidTransition
| InvalidValue
| NotFound
| ImmutableIdentityConflict.

(** ** Processing contracts (import_processing_contract.rs) *)

Definition CONTRACT_FIELD_MAX_BYTES : Z := 64.
Definition CLASSIFIER_EPOCH : str := lit "precision_first_v4".
Definition PROMOTED_EPOCH_PREFIX : str := lit "precision_first_v4_linear_".

Inductive ClassifierEpochSource := Deterministic | LocalLinearPromotion.

Definition classifier_epoch_parse (value : str) : option ClassifierEpochSource :=
  if str_eqb value CLASSIFIER_EPOCH then Some Deterministic
  else
    match strip_prefix PROMOTED_EPOCH_PREFIX value with
    | None => None
    | Some suffix =>
        if negb (str_len suffix =? 12) || negb (forallb is_lower_hexdigit (utf8 suffix))
        then None
        else Some LocalLinearPromotion
    end.

Definition validate_contract_field (value : str) : result unit MetaStoreError :=
  if is_empty value
     || (CONTRACT_FIELD_MAX_BYTES <? str_len value)
     || existsb (λ b, (b =? 0) || (b =? 10) || (b =? 13) || (b =? 9)) (utf8 value)
  then Err InvalidValue
  else Ok tt.

Record ContractParts := MkParts {
  primary_parse_version : str;
  ocr_parse_version : str;
  derived_schema_version : str;
  parts_classifier_epoch : str;
}.

#[export] Instance ContractParts_eq_dec : EqDecision ContractParts.
Proof. solve_decision. Defined.

Record ImportProcessingContract := MkContract {
  contract_id : str;
  contract_parts : ContractParts;
}.

#[export] Instance ImportProcessingContract_eq_dec : EqDecision ImportProcessingContract.
Proof. solve_decision. Defined.

(** [append_part] writes the same length-prefixed field as the content identities. *)
Definition contract_preimage (p : ContractParts) : list Z :=
  concat (map content_addressed_part
    [utf8 (lit "resume-ir.import-processing-contract.v1");
     utf8 (primary_parse_version p); utf8 (ocr_parse_version p);
     utf8 (derived_schema_version p); utf8 (parts_classifier_epoch p)]).

Section store.
Context `{Sha256}.

Definition contract_new (p : ContractParts) : result ImportProcessingContract MetaStoreError :=
  let? _ := validate_contract_field (primary_parse_version p) in
  let? _ := validate_contract_field (ocr_parse_version p) in
  let? _ := validate_contract_field (derived_schema_version p) in
  match classifier_epoch_parse (parts_classifier_epoch p) with
  | None => Err InvalidValue
  | Some _ => Ok (MkContract (digest_str (content_digest_from_bytes (contract_preimage p))) p)
  end.

Definition from_stored_parts (id : str) (p : ContractParts)
    : result ImportProcessingContract MetaStoreError :=
  let? contract := contract_new p in
  if str_eqb (contract_id contract) id then Ok contract else Err StorageInvariant.

(** [FromStr for ImportProcessingContractId]. *)
Definition contract_id_from_str (value : str) : result str MetaStoreError :=
  match content_digest_from_str value with
  | Some digest => Ok (digest_str digest)
  | None => Err InvalidValue
  end.

(** ** Deltas between contracts (contract_delta.rs) *)

Inductive ContractDeltaKind :=
| DeltaNone | PrimaryParser | OcrParser | DerivedSchema | ClassifierEpochDelta | Multiple | Unknown.

Inductive ContractTransitionStrategy :=
| AlreadyActiveStrategy | PdfRootRescan | OcrRequeue | ClassifierReclassify | DerivedRebuild
| Unsupported.

Record ContractDelta := MkDelta {
  delta_kind : ContractDeltaKind;
  delta_strategy : ContractTransitionStrategy;
  primary_changed : bool;
  ocr_changed : bool;
  derived_changed : bool;
  classifier_changed : bool;
}.

Definition delta_between (committed : option ImportProcessingContract)
    (desired : ImportProcessingContract) : ContractDelta :=
  match committed with
  | None => MkDelta Unknown Unsupported true true true true
  | Some committed =>
      if str_eqb (contract_id committed) (contract_id desired)
      then MkDelta DeltaNone AlreadyActiveStrategy false false false false
      else
        let c := contract_parts committed in
        let d := contract_parts desired in
        let primary := negb (str_eqb (primary_parse_version c) (primary_parse_version d)) in
        let ocr := negb (str_eqb (ocr_parse_version c) (ocr_parse_version d)) in
        let derived := negb (str_eqb (derived_schema_version c) (derived_schema_version d)) in
        let classifier := negb (str_eqb (parts_classifier_epoch c) (parts_classifier_epoch d)) in
        let changed := length (List.filter (λ b, b) [primary; ocr; derived; classifier]) in
        if (changed =? 0)%nat then MkDelta Unknown Unsupported primary ocr derived classifier
        else if (1 <? changed)%nat then MkDelta Multiple Unsupported primary ocr derived classifier
        else if primary then MkDelta PrimaryParser PdfRootRescan primary ocr derived classifier
        else MkDelta (if ocr then OcrParser else if classifier then ClassifierEpochDelta
                      else DerivedSchema)
               Unsupported primary ocr derived classifier
  end.

(** ** Outcomes (processing_contract_transition.rs) *)

Inductive WriterContractTransitionOutcome :=
| OutcomeAlreadyActive
| OutcomeTargetCommitted
| OutcomeTransitionRequired
| OutcomeTransitionInProgress
| OutcomeBlockedByRunningOwner
| OutcomePersistedStateInvalid
| OutcomeUnsupportedTransition
| OutcomeRuntimeUnavailable.

Definition is_strategy_active (s : ContractTransitionStrategy) : bool :=
  match s with AlreadyActiveStrategy => true | _ => false end.

Definition is_unsupported (s : ContractTransitionStrategy) : bool :=
  match s with Unsupported => true | _ => false end.

Definition observe_writer_contract_transition (committed : option ImportProcessingContract)
    (desired : ImportProcessingContract) (running_task_count : Z)
    : ContractDelta * WriterContractTransitionOutcome :=
  let delta := delta_between committed desired in
  if is_strategy_active (delta_strategy delta) then (delta, OutcomeAlreadyActive)
  else if is_unsupported (delta_strategy delta) then (delta, OutcomeUnsupportedTransition)
  else if 0 <? running_task_count then (delta, OutcomeBlockedByRunningOwner)
  else (delta, OutcomeTransitionRequired).

Definition campaign_domain_for (strategy : ContractTransitionStrategy) : option str :=
  match strategy with
  | AlreadyActiveStrategy => None
  | PdfRootRescan => Some (lit "pdf_root_rescan")
  | OcrRequeue => Some (lit "ocr_requeue")
  | ClassifierReclassify => Some (lit "classifier_reclassify")
  | DerivedRebuild => Some (lit "derived_rebuild")
  | Unsupported => Some (lit "unsupported")
  end.

(** ** Tables *)

(** The single row of [writer_authority_state]. *)
Record Authority := MkRow {
  a_health_state : HealthState;
  a_health_reason : option str;
  a_transition_phase : option WriterTransitionPhase;
  a_active_transition_id : option str;
  a_claim_fence_epoch : Z;
  a_committed_contract_id : option str;
  a_desired_contract_id : option str;
  a_last_completed_transition_id : option str;
  a_updated_at : Z;
}.

Definition health_state_eqb (x y : HealthState) : bool :=
  match x, y with
  | Store.Ready, Store.Ready | Store.Transitioning, Store.Transitioning
  | Store.Unavailable, Store.Unavailable | Store.Blocked, Store.Blocked => true
  | _, _ => false
  end.

Definition is_none {A} (o : option A) : bool := match o with None => true | Some _ => false end.

(** The row checks of schema v34. *)
Definition authority_check (a : Authority) : bool :=
  (0 <=? a_claim_fence_epoch a) && (0 <=? a_updated_at a)
  && match a_health_state a with
     | Store.Ready => is_none (a_health_reason a) && is_none (a_active_transition_id a)
     | Store.Transitioning =>
         negb (is_none (a_active_transition_id a))
         && match a_transition_phase a with
            | None | Some WriterReady => false
            | Some _ => true
            end
     | Store.Unavailable | Store.Blocked => negb (is_none (a_health_reason a))
     end.

(** A row of [writer_contract_transition]. *)
Record TransitionRecord := MkTransition {
  tr_source_contract_id : option str;
  tr_target_contract_id : str;
  tr_desired_product_version : str;
  tr_desired_schema_version : Z;
  tr_source_generation : option str;
  tr_source_visible_epoch : Z;
  tr_phase : WriterTransitionPhase;
  tr_attempt : Z;
  tr_claim_fence_epoch : Z;
  tr_running_task_count : Z;
  tr_queued_task_count : Z;
  tr_failure_class : option str;
  tr_retryable : bool;
  tr_campaign_id : option str;
  tr_created_at : Z;
  tr_updated_at : Z;
  tr_completed_at : option Z;
}.

Definition digest_text (s : str) : bool := negb (is_none (content_digest_from_str s)).

Definition transition_check (t : TransitionRecord) : bool :=
  digest_text (tr_target_contract_id t)
  && (0 <? Z.of_nat (length (tr_desired_product_version t)))
  && (Z.of_nat (length (tr_desired_product_version t)) <=? 64)
  && (34 <=? tr_desired_schema_version t) && (0 <=? tr_source_visible_epoch t)
  && (1 <=? tr_attempt t) && (0 <=? tr_claim_fence_epoch t)
  && (0 <=? tr_running_task_count t) && (0 <=? tr_queued_task_count t)
  && match tr_failure_class t with
     | None => true
     | Some c => str_in c [lit "blocked_by_running_owner"; lit "persisted_state_invalid";
                           lit "unsupported_transition"; lit "runtime_unavailable"]
     end
  && (0 <=? tr_created_at t) && (tr_created_at t <=? tr_updated_at t)
  && match tr_completed_at t with None => true | Some c => tr_created_at t <=? c end.

Record Campaign := MkCampaign {
  cp_transition_id : str;
  cp_target_contract_id : str;
  cp_affected_domain : str;
  cp_state : str;
  cp_created_at : Z;
  cp_updated_at : Z;
}.

Inductive ImportTaskStatus := Queued | Running | Completed | FailedRetryable | FailedPermanent.

#[export] Instance ImportTaskStatus_eq_dec : EqDecision ImportTaskStatus.
Proof. solve_decision. Defined.

(** A row of [import_task] with its contract binding and cancellation request. *)
Record TaskRow := MkTask {
  t_id : str;
  t_root_path : str;
  t_status : ImportTaskStatus;
  t_queued_at : Z;
  t_started_at : option Z;
  t_finished_at : option Z;
  t_updated_at : Z;
  t_contract : str;
  t_cancelled : option Z;
}.

Inductive JobState := JobQueued | JobScheduled | JobComplete | JobCancelled.

#[export] Instance JobState_eq_dec : EqDecision JobState.
Proof. solve_decision. Defined.

(** A row of [pdf_reprocess_job]. *)
Record PdfJob := MkJob {
  j_state : JobState;
  j_scheduled_task_id : option str;
  j_processing_contract_id : option str;
  j_campaign_id : option str;
  j_updated_at : Z;
}.

Inductive ImportRootKind := RootExplicit | RootPreset.
Inductive ImportRootPreset := LocalDiscovery.
Inductive ImportScanProfile := ProfileExplicit | ProfileDiscovery.
Inductive ImportScanBudgetKind := BudgetFiles.

(** A row of [authorized_import_root], keyed by its canonical path. *)
Record RootRow := MkRoot {
  r_requested_root_path : str;
  r_root_kind : ImportRootKind;
  r_root_preset : option ImportRootPreset;
  r_scan_profile : ImportScanProfile;
  r_scan_budget_kind : option ImportScanBudgetKind;
  r_scan_budget_limit : option Z;
  r_paused : bool;
  r_updated_at : Z;
}.

Record ImportScanScope := MkScope {
  s_import_task_id : str;
  s_root_kind : ImportRootKind;
  s_root_preset : option ImportRootPreset;
  s_scan_profile : ImportScanProfile;
  s_requested_root_path : str;
  s_canonical_root_path : str;
  s_counters : list Z;
  s_scan_budget_kind : option ImportScanBudgetKind;
  s_scan_budget_limit : option Z;
  s_scan_budget_observed : option Z;
  s_scan_budget_exhausted : bool;
  s_updated_at : Z;
}.

Record Projection := MkProj {
  p_service_state : ServiceState;
  p_generation : option str;
  p_repair_reason : option RepairReason;
  p_visible_epoch : option Z;
}.

Record Db := MkDb {
  db_contracts : gmap str ContractParts;
  db_authority : Authority;
  db_transitions : gmap str TransitionRecord;
  db_campaigns : gmap str Campaign;
  db_active_contract : option str;
  db_projection : Projection;
  db_tasks : list TaskRow;
  db_jobs : list PdfJob;
  db_roots : gmap str RootRow;
  db_scopes : list ImportScanScope;
  (** Roots with a deletion in progress, sealed tasks, full-corpus rebuild tasks. *)
  db_deletions : list str;
  db_completions : list str;
  db_full_corpus : list (str * str);
}.

Definition with_contracts (db : Db) x : Db :=
  MkDb x (db_authority db) (db_transitions db) (db_campaigns db) (db_active_contract db)
    (db_projection db) (db_tasks db) (db_jobs db) (db_roots db) (db_scopes db) (db_deletions db)
    (db_completions db) (db_full_corpus db).
Definition with_authority (db : Db) x : Db :=
  MkDb (db_contracts db) x (db_transitions db) (db_campaigns db) (db_active_contract db)
    (db_projection db) (db_tasks db) (db_jobs db) (db_roots db) (db_scopes db) (db_deletions db)
    (db_completions db) (db_full_corpus db).
Definition with_transitions (db : Db) x : Db :=
  MkDb (db_contracts db) (db_authority db) x (db_campaigns db) (db_active_contract db)
    (db_projection db) (db_tasks db) (db_jobs db) (db_roots db) (db_scopes db) (db_deletions db)
    (db_completions db) (db_full_corpus db).
Definition with_campaigns (db : Db) x : Db :=
  MkDb (db_contracts db) (db_authority db) (db_transitions db) x (db_active_contract db)
    (db_projection db) (db_tasks db) (db_jobs db) (db_roots db) (db_scopes db) (db_deletions db)
    (db_completions db) (db_full_corpus db).
Definition with_active_contract (db : Db) x : Db :=
  MkDb (db_contracts db) (db_authority db) (db_transitions db) (db_campaigns db) x
    (db_projection db) (db_tasks db) (db_jobs db) (db_roots db) (db_scopes db) (db_deletions db)
    (db_completions db) (db_full_corpus db).
Definition with_projection (db : Db) x : Db :=
  MkDb (db_contracts db) (db_authority db) (db_transitions db) (db_campaigns db)
    (db_active_contract db) x (db_tasks db) (db_jobs db) (db_roots db) (db_scopes db)
    (db_deletions db) (db_completions db) (db_full_corpus db).
Definition with_tasks (db : Db) x : Db :=
  MkDb (db_contracts db) (db_authority db) (db_transitions db) (db_campaigns db)
    (db_active_contract db) (db_projection db) x (db_jobs db) (db_roots db) (db_scopes db)
    (db_deletions db) (db_completions db) (db_full_corpus db).
Definition with_jobs (db : Db) x : Db :=
  MkDb (db_contracts db) (db_authority db) (db_transitions db) (db_campaigns db)
    (db_active_contract db) (db_projection db) (db_tasks db) x (db_roots db) (db_scopes db)
    (db_deletions db) (db_completions db) (db_full_corpus db).
Definition with_roots (db : Db) x : Db :=
  MkDb (db_contracts db) (db_authority db) (db_transitions db) (db_campaigns db)
    (db_active_contract db) (db_projection db) (db_tasks db) (db_jobs db) x (db_scopes db)
    (db_deletions db) (db_completions db) (db_full_corpus db).
Definition with_scopes (db : Db) x : Db :=
  MkDb (db_contracts db) (db_authority db) (db_transitions db) (db_campaigns db)
    (db_active_contract db) (db_projection db) (db_tasks db) (db_jobs db) (db_roots db) x
    (db_deletions db) (db_completions db) (db_full_corpus db).
Definition with_full_corpus (db : Db) x : Db :=
  MkDb (db_contracts db) (db_authority db) (db_transitions db) (db_campaigns db)
    (db_active_contract db) (db_projection db) (db_tasks db) (db_jobs db) (db_roots db)
    (db_scopes db) (db_deletions db) (db_completions db) x.

(** ** Statements on the authority row *)

Definition update_authority (db : Db) (f : Authority → Authority) : result Db MetaStoreError :=
  let a := f (db_authority db) in
  if authority_check a then Ok (with_authority db a) else Err Storage.

(** An [UPDATE] with a condition, and whether it changed the row. *)
Definition update_authority_where (db : Db) (cond : Authority → bool) (f : Authority → Authority)
    : result (Db * bool) MetaStoreError :=
  if cond (db_authority db) then let? db := update_authority db f in Ok (db, true)
  else Ok (db, false).

Definition set_health (a : Authority) (state : HealthState) (reason : option str) (updated_at : Z)
    : Authority :=
  MkRow state reason (a_transition_phase a) (a_active_transition_id a) (a_claim_fence_epoch a)
    (a_committed_contract_id a) (a_desired_contract_id a) (a_last_completed_transition_id a)
    updated_at.

Definition reason_is (a : Authority) (s : string) : bool :=
  match a_health_reason a with Some r => str_eqb r (lit s) | None => false end.

Definition mark_writer_runtime_unavailable (db : Db) (now : Z) : result Db MetaStoreError :=
  update_authority db (λ a,
    set_health a Store.Unavailable (Some (lit "runtime_unavailable")) (Z.max (a_updated_at a) now)).

(** [CASE WHEN active_transition_id IS NOT NULL] of the two clearing statements. *)
Definition cleared_health (a : Authority) (now : Z) : Authority :=
  match a_active_transition_id a with
  | Some _ =>
      set_health a Store.Transitioning (Some (lit "transition_in_progress"))
        (Z.max (a_updated_at a) now)
  | None => set_health a Store.Ready None (Z.max (a_updated_at a) now)
  end.

Definition reconcile_writer_runtime_availability (db : Db) (runtime_healthy : bool) (now : Z)
    : result (Db * bool) MetaStoreError :=
  if negb runtime_healthy then Ok (db, false)
  else
    update_authority_where db
      (λ a, health_state_eqb (a_health_state a) Store.Unavailable
            && reason_is a "runtime_unavailable")
      (λ a, cleared_health a now).

Definition mark_writer_unsupported_transition (db : Db) (now : Z)
    : result (Db * bool) MetaStoreError :=
  update_authority_where db
    (λ a, health_state_eqb (a_health_state a) Store.Ready && is_none (a_health_reason a)
          && is_none (a_active_transition_id a))
    (λ a, set_health a Store.Unavailable (Some (lit "unsupported_transition"))
            (Z.max (a_updated_at a) now)).

Definition clear_writer_unsupported_transition (db : Db) (now : Z)
    : result (Db * bool) MetaStoreError :=
  update_authority_where db
    (λ a, health_state_eqb (a_health_state a) Store.Unavailable
          && reason_is a "unsupported_transition" && is_none (a_active_transition_id a))
    (λ a, set_health a Store.Ready None (Z.max (a_updated_at a) now)).

Definition mark_writer_blocked_by_running_owner (db : Db) (now : Z) : result Db MetaStoreError :=
  update_authority db (λ a,
    set_health a Store.Blocked (Some (lit "blocked_by_running_owner"))
      (Z.max (a_updated_at a) now)).

Definition clear_writer_blocked_by_running_owner (db : Db) (now : Z)
    : result (Db * bool) MetaStoreError :=
  update_authority_where db
    (λ a, health_state_eqb (a_health_state a) Store.Blocked
          && reason_is a "blocked_by_running_owner")
    (λ a, cleared_health a now).

(** [writer_authority_snapshot], as the daemon's health model reads it. *)
Definition writer_authority_snapshot (db : Db) : WriterAuthoritySnapshot :=
  let a := db_authority db in
  MkAuthority (a_health_state a) (a_health_reason a) (a_transition_phase a)
    (a_active_transition_id a) (a_last_completed_transition_id a).

Definition public_writer_claims_admitted (db : Db) : bool :=
  health_state_eqb (a_health_state (db_authority db)) Store.Ready.

Definition set_authority_phase (db : Db) (phase : WriterTransitionPhase) (now : Z)
    : result Db MetaStoreError :=
  update_authority db (λ a,
    MkRow (a_health_state a) (a_health_reason a) (Some phase) (a_active_transition_id a)
      (a_claim_fence_epoch a) (a_committed_contract_id a) (a_desired_contract_id a)
      (a_last_completed_transition_id a) now).

Definition set_authority_transitioning (db : Db) (transition_id : str)
    (phase : WriterTransitionPhase) (claim_fence_epoch : Z) (committed_contract_id : option str)
    (desired_contract_id : str) (now : Z) : result Db MetaStoreError :=
  if i64_MAX <? claim_fence_epoch then Err StorageInvariant
  else
    update_authority db (λ a,
      MkRow Store.Transitioning (Some (lit "transition_in_progress")) (Some phase)
        (Some transition_id) claim_fence_epoch
        (match committed_contract_id with Some c => Some c | None => a_committed_contract_id a end)
        (Some desired_contract_id) (a_last_completed_transition_id a) now).

Definition set_authority_ready_after_transition (db : Db) (contract completed_transition_id : str)
    (now : Z) : result Db MetaStoreError :=
  update_authority db (λ a,
    MkRow Store.Ready None (Some WriterReady) None (a_claim_fence_epoch a) (Some contract)
      (Some contract) (Some completed_transition_id) now).

Definition sync_authority_ready (db : Db) (contract : str) (now : Z) : result Db MetaStoreError :=
  update_authority db (λ a,
    MkRow Store.Ready None
      (match a_transition_phase a with Some p => Some p | None => Some WriterReady end) None
      (a_claim_fence_epoch a) (Some contract) (Some contract) (a_last_completed_transition_id a)
      (Z.max (a_updated_at a) now)).

(** ** Statements on the other tables *)

(** [UPDATE writer_contract_transition ... WHERE transition_id = ?]. *)
Definition update_transition (db : Db) (id : str) (f : TransitionRecord → TransitionRecord)
    : result Db MetaStoreError :=
  match db_transitions db !! id with
  | None => Ok db
  | Some t =>
      if transition_check (f t) then Ok (with_transitions db (<[id := f t]> (db_transitions db)))
      else Err Storage
  end.

Definition insert_transition (db : Db) (id : str) (t : TransitionRecord)
    : result Db MetaStoreError :=
  match db_transitions db !! id with
  | Some _ => Err Storage
  | None =>
      if digest_text id && transition_check t
      then Ok (with_transitions db (<[id := t]> (db_transitions db)))
      else Err Storage
  end.

Definition tr_with (t : TransitionRecord) (phase : WriterTransitionPhase)
    (failure : option str) (retryable : bool) (campaign : option str) (updated : Z)
    (completed : option Z) : TransitionRecord :=
  MkTransition (tr_source_contract_id t) (tr_target_contract_id t) (tr_desired_product_version t)
    (tr_desired_schema_version t) (tr_source_generation t) (tr_source_visible_epoch t) phase
    (tr_attempt t) (tr_claim_fence_epoch t) (tr_running_task_count t) (tr_queued_task_count t)
    failure retryable campaign (tr_created_at t) updated completed.

Definition set_phase (db : Db) (id : str) (phase : WriterTransitionPhase) (now : Z)
    : result Db MetaStoreError :=
  update_transition db id (λ t,
    tr_with t phase (tr_failure_class t) (tr_retryable t) (tr_campaign_id t) now (tr_completed_at t)).

Definition mark_transition_failure (db : Db) (id failure_class : str) (retryable : bool) (now : Z)
    : result Db MetaStoreError :=
  update_transition db id (λ t,
    tr_with t (tr_phase t) (Some failure_class) retryable (tr_campaign_id t) now
      (tr_completed_at t)).

Definition import_processing_contract_in_connection (db : Db) (id : str)
    : result (option ImportProcessingContract) MetaStoreError :=
  match db_contracts db !! id with
  | None => Ok None
  | Some p => let? c := from_stored_parts id p in Ok (Some c)
  end.

Definition insert_import_processing_contract_in_connection (db : Db)
    (contract : ImportProcessingContract) : result Db MetaStoreError :=
  let db :=
    match db_contracts db !! contract_id contract with
    | Some _ => db
    | None => with_contracts db (<[contract_id contract := contract_parts contract]> (db_contracts db))
    end in
  let? stored := import_processing_contract_in_connection db (contract_id contract) in
  match stored with
  | None => Err StorageInvariant
  | Some stored =>
      if bool_decide (stored = contract) then Ok db else Err ImmutableIdentityConflict
  end.

Definition active_contract (db : Db) : result (option ImportProcessingContract) MetaStoreError :=
  match (match a_committed_contract_id (db_authority db) with
         | Some c => Some c
         | None => db_active_contract db
         end) with
  | None => Ok None
  | Some id =>
      let? id := contract_id_from_str id in
      import_processing_contract_in_connection db id
  end.

Definition is_projection_ready (s : ServiceState) : bool :=
  match s with ProjectionReady => true | _ => false end.

Definition projection_is_ready_with_generation (db : Db) : bool :=
  is_projection_ready (p_service_state (db_projection db))
  && negb (is_none (p_generation (db_projection db))).

Definition projection_identity (db : Db) : option str * Z :=
  (p_generation (db_projection db), default 0 (p_visible_epoch (db_projection db))).

Definition running_count (db : Db) : Z :=
  Z.of_nat (length (List.filter (λ t, bool_decide (t_status t = Running)) (db_tasks db))).

Definition is_pending_status (s : ImportTaskStatus) : bool :=
  match s with Queued | FailedRetryable => true | _ => false end.

Definition queued_count (db : Db) : Z :=
  Z.of_nat (length (List.filter (λ t, is_pending_status (t_status t)) (db_tasks db))).

Definition next_claim_fence_epoch (db : Db) : result Z MetaStoreError :=
  let current := a_claim_fence_epoch (db_authority db) in
  if current <? 0 then Err StorageInvariant else Ok (u64_saturating_add current 1).

(** [TransitionRow]: the columns the machine reads back. *)
Record TransitionRow := MkTransitionRow {
  row_transition_id : str;
  row_source_contract_id : option str;
  row_target_contract_id : str;
  row_phase : WriterTransitionPhase;
  row_claim_fence_epoch : Z;
}.

Definition active_transition_row (db : Db) : result (option TransitionRow) MetaStoreError :=
  match a_active_transition_id (db_authority db) with
  | None => Ok None
  | Some id =>
      match db_transitions db !! id with
      | None => Ok None
      | Some t =>
          if (tr_claim_fence_epoch t <? 0) || (tr_attempt t <? 0) || (u32_MAX <? tr_attempt t)
          then Err StorageInvariant
          else Ok (Some (MkTransitionRow id (tr_source_contract_id t) (tr_target_contract_id t)
                           (tr_phase t) (tr_claim_fence_epoch t)))
      end
  end.

(** [new_digest_id]: parts joined by zero bytes. *)
Definition new_digest_id (parts : list (list Z)) : str :=
  digest_str (content_digest_from_bytes (concat (map (λ part, part ++ [0]) parts))).

(** ** Import tasks *)

Definition validate_import_task (t : TaskRow) : result unit MetaStoreError :=
  if t_updated_at t <? t_queued_at t then Err InvalidValue
  else
    let? _ :=
      match t_started_at t with
      | Some s => if (s <? t_queued_at t) || (t_updated_at t <? s) then Err InvalidValue else Ok tt
      | None => Ok tt
      end in
    let? _ :=
      match t_finished_at t, t_started_at t with
      | Some f, Some s => if (f <? s) || (t_updated_at t <? f) then Err InvalidValue else Ok tt
      | Some _, None => Err InvalidValue
      | None, _ => Ok tt
      end in
    let valid_state :=
      match t_status t with
      | Queued => is_none (t_started_at t) && is_none (t_finished_at t)
      | Running => negb (is_none (t_started_at t)) && is_none (t_finished_at t)
      | Completed | FailedRetryable | FailedPermanent =>
          negb (is_none (t_started_at t)) && negb (is_none (t_finished_at t))
      end in
    if valid_state then Ok tt else Err InvalidValue.

Definition validate_import_scan_scope (s : ImportScanScope) : result unit MetaStoreError :=
  if is_empty (trim (s_requested_root_path s)) then Err InvalidValue
  else if is_empty (trim (s_canonical_root_path s)) then Err InvalidValue
  else
    let? _ :=
      match s_root_kind s, s_root_preset s with
      | RootExplicit, None | RootPreset, Some _ => Ok tt
      | _, _ => Err InvalidValue
      end in
    match s_scan_budget_kind s, s_scan_budget_limit s, s_scan_budget_observed s,
          s_scan_budget_exhausted s with
    | None, None, None, false | Some _, Some _, Some _, _ => Ok tt
    | _, _, _, _ => Err InvalidValue
    end.

Definition authorized_root_task_scope (db : Db) (canonical_root_path task_id : str)
    (updated_at : Z) : result ImportScanScope MetaStoreError :=
  match db_roots db !! canonical_root_path with
  | None => Err NotFound
  | Some r =>
      Ok (MkScope task_id (r_root_kind r) (r_root_preset r) (r_scan_profile r)
            (r_requested_root_path r) canonical_root_path [0; 0; 0; 0; 0; 0; 0; 0]
            (r_scan_budget_kind r) (r_scan_budget_limit r)
            (match r_scan_budget_limit r with Some _ => Some 0 | None => None end) false updated_at)
  end.

Definition is_migration_rebuild (r : option RepairReason) : bool :=
  match r with Some RepairMigrationRebuild => true | _ => false end.

Definition is_repairing (s : ServiceState) : bool :=
  match s with ProjectionRepairing => true | _ => false end.

(** The projection of a store whose first generation is still being rebuilt. *)
Definition is_unpublished_rebuild (db : Db) : bool :=
  is_repairing (p_service_state (db_projection db))
  && is_none (p_generation (db_projection db))
  && is_migration_rebuild (p_repair_reason (db_projection db)).

Definition opt_str_is (o : option str) (s : str) : bool :=
  match o with Some x => str_eqb x s | None => false end.

Definition ensure_import_task_contract_allowed (db : Db) (contract : str)
    : result unit MetaStoreError :=
  if is_unpublished_rebuild db && negb (opt_str_is (db_active_contract db) contract)
  then Err InvalidTransition
  else Ok tt.

Definition insert_import_task_in_connection (db : Db) (task : TaskRow)
    (contract : ImportProcessingContract) : result Db MetaStoreError :=
  let? _ := validate_import_task task in
  if negb (bool_decide (t_status task = Queued)) then Err InvalidValue
  else
    let? db := insert_import_processing_contract_in_connection db contract in
    let? _ := ensure_import_task_contract_allowed db (contract_id contract) in
    if existsb (λ t, str_eqb (t_id t) (t_id task)) (db_tasks db) then Err Storage
    else
      Ok (with_tasks db (db_tasks db ++
            [MkTask (t_id task) (t_root_path task) (t_status task) (t_queued_at task)
               (t_started_at task) (t_finished_at task) (t_updated_at task)
               (contract_id contract) None])).

Definition upsert_authorized_import_root (db : Db) (s : ImportScanScope) : Db :=
  let row old_paused old_updated :=
    MkRoot (s_requested_root_path s) (s_root_kind s) (s_root_preset s) (s_scan_profile s)
      (s_scan_budget_kind s) (s_scan_budget_limit s) old_paused old_updated in
  with_roots db
    (<[s_canonical_root_path s :=
         match db_roots db !! s_canonical_root_path s with
         | Some r => row (r_paused r) (Z.max (r_updated_at r) (s_updated_at s))
         | None => row false (s_updated_at s)
         end]> (db_roots db)).

Definition insert_import_task_with_scan_scope (db : Db) (task : TaskRow) (scope : ImportScanScope)
    (contract : ImportProcessingContract) : result Db MetaStoreError :=
  let? _ := validate_import_scan_scope scope in
  if negb (str_eqb (s_import_task_id scope) (t_id task)) then Err InvalidValue
  else if negb (str_eqb (s_canonical_root_path scope) (t_root_path task)) then Err InvalidValue
  else
    let? db := insert_import_task_in_connection db task contract in
    let db := upsert_authorized_import_root db scope in
    if existsb (λ s, str_eqb (s_import_task_id s) (s_import_task_id scope)) (db_scopes db)
    then Err Storage
    else Ok (with_scopes db (db_scopes db ++ [scope])).

(** ** Retiring queued intents *)

(** Queued, retryable and uncancelled tasks of another contract, in the order of
    [ORDER BY root_path, queued_at_seconds, rowid]. *)
Definition retired_by (contract : str) (t : TaskRow) : bool :=
  is_pending_status (t_status t) && negb (str_eqb (t_contract t) contract)
  && is_none (t_cancelled t).

Definition pending_order (x y : TaskRow) : comparison :=
  then_with (cmp (utf8 (t_root_path x)) (utf8 (t_root_path y))) (cmp (t_queued_at x) (t_queued_at y)).

Definition pending_intents (db : Db) (contract : str) : list TaskRow :=
  sort_by pending_order (List.filter (retired_by contract) (db_tasks db)).

(** [i64::to_string]. *)
Definition i64_to_string (n : Z) : str := if n <? 0 then 45 :: dec_digits (- n) else dec_digits n.

Definition replacement_task_id (root_path contract : str) (now : Z) : str :=
  id_str (from_non_secret_parts ImportTaskId
            [lit "writer-contract-rebuild"; root_path; contract; i64_to_string now]).

Definition replacement_task (root_path contract : str) (now : Z) : TaskRow :=
  MkTask (replacement_task_id root_path contract now) root_path Queued now None None now contract None.

(** The [BTreeMap] of staged replacements. *)
Fixpoint stage_replacements (db : Db) (contract : str) (now : Z) (pending : list TaskRow)
    (staged : list (str * (TaskRow * ImportScanScope)))
    : result (list (str * (TaskRow * ImportScanScope))) MetaStoreError :=
  match pending with
  | [] => Ok staged
  | t :: pending =>
      let root := t_root_path t in
      match bmap_lookup root staged with
      | Some _ => stage_replacements db contract now pending staged
      | None =>
          let? scope :=
            map_err (λ e, match e with NotFound => InvalidTransition | e => e end)
              (authorized_root_task_scope db root (replacement_task_id root contract now) now) in
          stage_replacements db contract now pending
            (bmap_entry root (λ _, (replacement_task root contract now, scope)) staged)
      end
  end.

(** [INSERT OR IGNORE INTO import_task_cancellation] and the touch of the task row. *)
Definition cancel_task (id : str) (cancel_at : Z) (t : TaskRow) : TaskRow :=
  if str_eqb (t_id t) id then
    MkTask (t_id t) (t_root_path t) (t_status t) (t_queued_at t) (t_started_at t) (t_finished_at t)
      (Z.max (t_updated_at t) cancel_at) (t_contract t)
      (match t_cancelled t with Some c => Some c | None => Some cancel_at end)
  else t.

Definition release_job (id contract : str) (now : Z) (j : PdfJob) : PdfJob :=
  if opt_str_is (j_scheduled_task_id j) id && bool_decide (j_state j = JobScheduled)
  then MkJob JobQueued None (Some contract) (j_campaign_id j) (Z.max (j_updated_at j) now)
  else j.

Definition retire_task (db : Db) (contract : str) (now : Z) (t : TaskRow) : Db :=
  let cancel_at := Z.max now (t_updated_at t) in
  let db := with_tasks db (map (cancel_task (t_id t) cancel_at) (db_tasks db)) in
  with_jobs db (map (release_job (t_id t) contract now) (db_jobs db)).

Fixpoint insert_replacements (db : Db) (contract : ImportProcessingContract)
    (staged : list (str * (TaskRow * ImportScanScope))) : result Db MetaStoreError :=
  match staged with
  | [] => Ok db
  | (_, (task, scope)) :: staged =>
      let? db := insert_import_task_with_scan_scope db task scope contract in
      insert_replacements db contract staged
  end.

Definition retire_and_rebuild_queued_intents (db : Db) (desired : ImportProcessingContract)
    (now : Z) : result Db MetaStoreError :=
  let pending := pending_intents db (contract_id desired) in
  let? staged := stage_replacements db (contract_id desired) now pending [] in
  let db := fold_left (λ db t, retire_task db (contract_id desired) now t) pending db in
  insert_replacements db desired staged.

(** ** The transition machine *)

Definition fence_claims (db : Db) (row : TransitionRow) (now : Z) : result Db MetaStoreError :=
  let? db := set_phase db (row_transition_id row) ClaimsFenced now in
  if i64_MAX <? row_claim_fence_epoch row then Err StorageInvariant
  else
    update_authority db (λ a,
      MkRow Store.Transitioning (Some (lit "transition_in_progress")) (Some ClaimsFenced)
        (Some (row_transition_id row)) (row_claim_fence_epoch row) (a_committed_contract_id a)
        (a_desired_contract_id a) (a_last_completed_transition_id a) now).

Definition commit_target_contract (db : Db) (row : TransitionRow)
    (desired : ImportProcessingContract) (now : Z) : result Db MetaStoreError :=
  if 0 <? running_count db then Err InvalidTransition
  else
    let? db := retire_and_rebuild_queued_intents db desired now in
    let db := with_active_contract db (Some (contract_id desired)) in
    let? db := set_phase db (row_transition_id row) TargetCommitted now in
    update_authority db (λ a,
      MkRow Store.Transitioning (Some (lit "transition_in_progress")) (Some TargetCommitted)
        (a_active_transition_id a) (a_claim_fence_epoch a) (Some (contract_id desired))
        (Some (contract_id desired)) (a_last_completed_transition_id a) now).

Definition rebind_job (contract campaign : str) (now : Z) (j : PdfJob) : PdfJob :=
  match j_state j with
  | JobQueued | JobScheduled =>
      MkJob (j_state j) (j_scheduled_task_id j) (Some contract) (Some campaign)
        (Z.max (j_updated_at j) now)
  | _ => j
  end.

Definition materialize_campaign (db : Db) (row : TransitionRow)
    (strategy : ContractTransitionStrategy) (desired : ImportProcessingContract) (now : Z)
    : result Db MetaStoreError :=
  match campaign_domain_for strategy with
  | None => Ok db
  | Some domain =>
      if is_unsupported strategy then Ok db
      else
        let campaign_id :=
          new_digest_id [utf8 (lit "reprocessing-campaign"); utf8 (row_transition_id row);
                         utf8 domain] in
        let db :=
          match db_campaigns db !! campaign_id with
          | Some _ => db
          | None =>
              with_campaigns db
                (<[campaign_id := MkCampaign (row_transition_id row) (contract_id desired) domain
                                    (lit "queued") now now]> (db_campaigns db))
          end in
        let? db := update_transition db (row_transition_id row) (λ t,
          tr_with t (tr_phase t) (tr_failure_class t) (tr_retryable t) (Some campaign_id) now
            (tr_completed_at t)) in
        match strategy with
        | PdfRootRescan | DerivedRebuild =>
            Ok (with_jobs db (map (rebind_job (contract_id desired) campaign_id now) (db_jobs db)))
        | _ => Ok db
        end
  end.

Definition finish_transition (db : Db) (row : TransitionRow)
    (strategy : ContractTransitionStrategy) (desired : ImportProcessingContract) (now : Z)
    : result (Db * WriterContractTransitionOutcome) MetaStoreError :=
  let? db := materialize_campaign db row strategy desired now in
  let? db := set_phase db (row_transition_id row) WriterReady now in
  let? db := update_transition db (row_transition_id row) (λ t,
    tr_with t (tr_phase t) (tr_failure_class t) (tr_retryable t) (tr_campaign_id t) now (Some now)) in
  let? db := set_authority_ready_after_transition db (contract_id desired) (row_transition_id row) now in
  Ok (db, OutcomeTargetCommitted).

(** Fall through the phases from the one reached. *)
Definition advance_existing_transition (db : Db) (row : TransitionRow) (delta : ContractDelta)
    (desired : ImportProcessingContract) (now : Z)
    : result (Db * WriterContractTransitionOutcome) MetaStoreError :=
  let id := row_transition_id row in
  let? (db, phase) :=
    match row_phase row with
    | Observed => let? db := fence_claims db row now in Ok (db, ClaimsFenced)
    | p => Ok (db, p)
    end in
  let? (db, phase, blocked) :=
    match phase with
    | ClaimsFenced =>
        if 0 <? running_count db then
          let? db := mark_transition_failure db id (lit "blocked_by_running_owner") true now in
          let? db := update_authority db (λ a,
            set_health a (a_health_state a) (Some (lit "blocked_by_running_owner"))
              (Z.max (a_updated_at a) now)) in
          Ok (db, phase, true)
        else
          let? db := set_phase db id WorkersQuiesced now in
          let? db := set_authority_phase db WorkersQuiesced now in
          Ok (db, WorkersQuiesced, false)
    | p => Ok (db, p, false)
    end in
  if blocked then Ok (db, OutcomeBlockedByRunningOwner)
  else
    let? (db, phase) :=
      match phase with
      | WorkersQuiesced =>
          let? db := commit_target_contract db row desired now in Ok (db, TargetCommitted)
      | p => Ok (db, p)
      end in
    match phase with
    | TargetCommitted => finish_transition db row (delta_strategy delta) desired now
    | WriterReady =>
        let? db := sync_authority_ready db (contract_id desired) now in
        Ok (db, OutcomeAlreadyActive)
    | _ => Ok (db, OutcomeTransitionInProgress)
    end.

Definition new_transition_record (source : option str) (target product_version : str)
    (schema_version : Z) (generation : option str) (visible_epoch claim_fence_epoch running queued : Z)
    (failure : option str) (retryable : bool) (now : Z) : TransitionRecord :=
  MkTransition source target product_version schema_version generation visible_epoch Observed 1
    claim_fence_epoch running queued failure retryable None now now None.

(** The insertion shared by a fresh and by a blocked attempt: the row, then the
    authority; the two differ in the id, the queue count and the failure columns. *)
Definition open_transition (db : Db) (transition_id : str) (source : option str)
    (desired : ImportProcessingContract) (product_version : str) (schema_version : Z)
    (queued : Z) (failure : option str) (now : Z)
    : result (Db * TransitionRow) MetaStoreError :=
  let '(generation, visible_epoch) := projection_identity db in
  let? claim_fence_epoch := next_claim_fence_epoch db in
  if i64_MAX <? claim_fence_epoch then Err StorageInvariant
  else
    let? db := insert_transition db transition_id
      (new_transition_record source (contract_id desired) product_version schema_version generation
         visible_epoch claim_fence_epoch (running_count db) queued failure
         (negb (is_none failure)) now) in
    let? db := set_authority_transitioning db transition_id Observed claim_fence_epoch source
      (contract_id desired) now in
    Ok (db, MkTransitionRow transition_id source (contract_id desired) Observed claim_fence_epoch).

Definition record_blocked_attempt (db : Db) (desired : ImportProcessingContract)
    (product_version : str) (schema_version now : Z) : result Db MetaStoreError :=
  let? source := active_contract db in
  let transition_id :=
    new_digest_id [utf8 (lit "writer-contract-transition-blocked"); utf8 (contract_id desired);
                   to_le_bytes 8 now] in
  let? (db, _) := open_transition db transition_id (option_map contract_id source) desired
    product_version schema_version 0 (Some (lit "blocked_by_running_owner")) now in
  Ok db.

Definition is_after_commit (p : WriterTransitionPhase) : bool :=
  match p with TargetCommitted | WriterReady => true | _ => false end.

Definition is_outcome_active (o : WriterContractTransitionOutcome) : bool :=
  match o with OutcomeAlreadyActive => true | _ => false end.
Definition is_outcome_unsupported (o : WriterContractTransitionOutcome) : bool :=
  match o with OutcomeUnsupportedTransition => true | _ => false end.

(** The branch for a transition that is already under way. *)
Definition resume_transition (db : Db) (existing : TransitionRow)
    (desired : ImportProcessingContract) (now : Z)
    : result (Db * WriterContractTransitionOutcome) MetaStoreError :=
  if negb (str_eqb (row_target_contract_id existing) (contract_id desired))
  then Ok (db, OutcomeTransitionInProgress)
  else
    let? source :=
      match row_source_contract_id existing with
      | Some id =>
          let? id := contract_id_from_str id in
          import_processing_contract_in_connection db id
      | None => Ok None
      end in
    let '(delta, _) := observe_writer_contract_transition source desired (running_count db) in
    if is_unsupported (delta_strategy delta) && negb (is_after_commit (row_phase existing))
    then Ok (db, OutcomeUnsupportedTransition)
    else advance_existing_transition db existing delta desired now.

Definition complete_online_writer_transition_in_transaction (db : Db)
    (desired : ImportProcessingContract) (product_version : str) (schema_version now : Z)
    : result (Db * WriterContractTransitionOutcome) MetaStoreError :=
  let? db := insert_import_processing_contract_in_connection db desired in
  if negb (projection_is_ready_with_generation db) then Ok (db, OutcomePersistedStateInvalid)
  else
    let? existing := active_transition_row db in
    match existing with
    | Some existing => resume_transition db existing desired now
    | None =>
        let? committed := active_contract db in
        let '(delta, observed) :=
          observe_writer_contract_transition committed desired (running_count db) in
        if is_outcome_active observed then
          let? db := sync_authority_ready db (contract_id desired) now in
          Ok (db, OutcomeAlreadyActive)
        else if is_outcome_unsupported observed || is_unsupported (delta_strategy delta)
        then Ok (db, OutcomeUnsupportedTransition)
        else if 0 <? running_count db then
          let? db := record_blocked_attempt db desired product_version schema_version now in
          Ok (db, OutcomeBlockedByRunningOwner)
        else
          let transition_id :=
            new_digest_id [utf8 (lit "writer-contract-transition"); utf8 (contract_id desired);
                           to_le_bytes 8 now] in
          let? (db, row) := open_transition db transition_id (option_map contract_id committed)
            desired product_version schema_version (queued_count db) None now in
          advance_existing_transition db row delta desired now
    end.

(** Which outcomes commit the transaction. *)
Definition outcome_commits (o : WriterContractTransitionOutcome) : bool :=
  match o with
  | OutcomeBlockedByRunningOwner | OutcomeTransitionInProgress
  | OutcomeAlreadyActive | OutcomeTargetCommitted => true
  | OutcomePersistedStateInvalid | OutcomeUnsupportedTransition | OutcomeRuntimeUnavailable
  | OutcomeTransitionRequired => false
  end.

Definition PRODUCT_VERSION_DEFAULT : str := lit "0.1.9".

(** [complete_online_writer_transition]: an error or a rolled back outcome leaves the
    store as it was. *)
Definition complete_online_writer_transition (db : Db) (desired : ImportProcessingContract)
    (now : Z) : Db * result WriterContractTransitionOutcome MetaStoreError :=
  match complete_online_writer_transition_in_transaction db desired PRODUCT_VERSION_DEFAULT 34 now with
  | Ok (db', outcome) => (if outcome_commits outcome then db' else db, Ok outcome)
  | Err e => (db, Err e)
  end.

(** ** Claims and the hard cut *)

(** The condition of the claiming [UPDATE]. *)
Definition claimable (db : Db) (observed t : TaskRow) : bool :=
  str_eqb (t_id t) (t_id observed)
  && bool_decide (t_status t = t_status observed)
  && (t_updated_at t =? t_updated_at observed)
  && is_none (t_cancelled t)
  && negb (match db_roots db !! t_root_path t with Some r => r_paused r | None => false end)
  && negb (str_in (t_root_path t) (db_deletions db))
  && negb (str_in (t_id t) (db_completions db))
  && (negb (is_unpublished_rebuild db)
      || existsb (λ x, str_eqb x.1 (t_id t) && str_eqb x.2 (t_contract t)
                       && opt_str_is (db_active_contract db) x.2) (db_full_corpus db))
  && health_state_eqb (a_health_state (db_authority db)) Store.Ready.

Definition claim_row (now : Z) (t : TaskRow) : TaskRow :=
  MkTask (t_id t) (t_root_path t) Running (t_queued_at t) (Some now) None now (t_contract t)
    (t_cancelled t).

(** [claim_observed_import_task_for_worker]: the task it returns, if any. *)
Definition claim_observed_import_task_for_worker (db : Db) (observed : TaskRow) (updated_at : Z)
    : Db * option TaskRow :=
  if negb (is_pending_status (t_status observed)) then (db, None)
  else
    let now := Z.max updated_at (t_updated_at observed) in
    (with_tasks db (map (λ t, if claimable db observed t then claim_row now t else t) (db_tasks db)),
     head (map (claim_row now) (List.filter (claimable db observed) (db_tasks db)))).

Inductive MigrationRebuildContractActivation :=
| Activated | ActivationAlreadyActive | Superseded | RunningTaskConflict.

Definition is_repair_blocked (s : ServiceState) : bool :=
  match s with ProjectionRepairBlocked => true | _ => false end.

Definition is_runtime_invariant (r : option RepairReason) : bool :=
  match r with Some RepairRuntimeInvariant => true | _ => false end.

(** Completions and dispositions are deleted with the tasks. *)
Definition clear_import_tasks (db : Db) : Db :=
  MkDb (db_contracts db) (db_authority db) (db_transitions db) (db_campaigns db)
    (db_active_contract db) (db_projection db) [] (db_jobs db) (db_roots db) [] (db_deletions db)
    [] [].

Definition activate_in_transaction (db : Db) (contract : ImportProcessingContract) (now : Z)
    : result (Db * MigrationRebuildContractActivation) MetaStoreError :=
  let? db := insert_import_processing_contract_in_connection db contract in
  let p := db_projection db in
  let blocked_hard_cut :=
    is_repair_blocked (p_service_state p) && is_none (p_generation p)
    && is_runtime_invariant (p_repair_reason p)
    && match db_active_contract db with
       | Some a => negb (str_eqb a (contract_id contract))
       | None => false
       end in
  if negb (is_unpublished_rebuild db) && negb blocked_hard_cut then Ok (db, Superseded)
  else if is_unpublished_rebuild db && opt_str_is (db_active_contract db) (contract_id contract) then
    let? db := sync_authority_ready db (contract_id contract) now in
    Ok (db, ActivationAlreadyActive)
  else if 0 <? running_count db then Ok (db, RunningTaskConflict)
  else
    let db := with_active_contract (clear_import_tasks db) (Some (contract_id contract)) in
    let? db := sync_authority_ready db (contract_id contract) now in
    Ok (if blocked_hard_cut
        then with_projection db
               (MkProj ProjectionRepairing None (Some RepairMigrationRebuild) (p_visible_epoch p))
        else db, Activated).

(** Only the activated and the already active outcome commit. *)
Definition activate_migration_rebuild_contract (db : Db) (contract : ImportProcessingContract)
    (now : Z) : Db * result MigrationRebuildContractActivation MetaStoreError :=
  match activate_in_transaction db contract now with
  | Ok (db', (Activated | ActivationAlreadyActive) as o) => (db', Ok o)
  | Ok (_, o) => (db, Ok o)
  | Err e => (db, Err e)
  end.

(** The seed row of the schema. *)
Definition initial_authority : Authority :=
  MkRow Store.Ready None None None 0 None None None 0.

Definition initial_db (projection : Projection) : Db :=
  MkDb ∅ initial_authority ∅ ∅ None projection [] [] ∅ [] [] [] [].
End store.
