(* ===== verification/WriterTransition.v ===== *)
(** * The writer authority and its contract transitions (crates/meta-store)

    What the operations of [WriterStore] guarantee: the invariant of the reachable
    stores, the claim fence, what a committed target leaves behind, when a transition
    goes through, and what becomes of one whose target is no longer desired. *)

From Stdlib Require Import ZArith String.
From stdpp Require Import prelude gmap.
From S2P Require Import Prelude Collections Text Identity Health WriterStore.
Import Health.Store.

Local Open Scope Z_scope.

(** ** Contracts and statements *)

Section lemmas.
Context `{Sha256Laws}.

Definition contract_wf (c : ImportProcessingContract) : Prop := contract_new (contract_parts c) = Ok c.

Lemma contract_new_parts p c : contract_new p = Ok c → contract_parts c = p ∧ contract_wf c.
Proof.
  intros Hc. assert (contract_parts c = p) as Hp.
  { unfold contract_new in Hc. peel Hc. peel Hc. peel Hc.
    destruct (classifier_epoch_parse _); [|done]. by injection Hc as <-. }
  split; [done|]. unfold contract_wf. by rewrite Hp.
Qed.

Lemma contract_wf_digest c : contract_wf c → digest_text (contract_id c) = true.
Proof.
  unfold contract_wf, contract_new, digest_text. intros Hc. peel Hc. peel Hc. peel Hc.
  destruct (classifier_epoch_parse _); [|done].
  apply (f_equal (λ r, match r with Ok c => contract_id c | Err _ => [] end)) in Hc.
  cbv beta iota in Hc. rewrite <- Hc. cbn [contract_id]. by rewrite content_digest_roundtrip.
Qed.

Lemma digest_text_from_str s : digest_text s = true → contract_id_from_str s = Ok s.
Proof.
  unfold digest_text, contract_id_from_str, content_digest_from_str.
  destruct (strip_prefix _ _); [|done]. by destruct (_ || _).
Qed.

Lemma new_digest_id_text parts : digest_text (new_digest_id parts) = true.
Proof. unfold digest_text, new_digest_id. by rewrite content_digest_roundtrip. Qed.

Definition contracts_ok (db : Db) : Prop :=
  map_Forall (λ id p, ∃ c, contract_wf c ∧ contract_id c = id ∧ contract_parts c = p)
    (db_contracts db).

Lemma contract_lookup_ok db id p :
  contracts_ok db → db_contracts db !! id = Some p →
  ∃ c, import_processing_contract_in_connection db id = Ok (Some c)
       ∧ contract_wf c ∧ contract_id c = id ∧ contract_parts c = p.
Proof.
  intros Hok Hp. destruct (Hok id p Hp) as (c & Hc & Hid & Hpt). exists c.
  split_and!; try done. unfold import_processing_contract_in_connection, from_stored_parts.
  rewrite Hp. unfold contract_wf in Hc. rewrite Hpt in Hc. rewrite Hc. cbn [result_bind].
  by rewrite (proj2 (str_eqb_eq _ _)).
Qed.

Lemma contract_in_connection_wf db id c :
  import_processing_contract_in_connection db id = Ok (Some c) →
  contract_wf c ∧ contract_id c = id ∧ db_contracts db !! id = Some (contract_parts c).
Proof.
  unfold import_processing_contract_in_connection, from_stored_parts.
  destruct (db_contracts db !! id) as [p|]; [|done]. intros Hc. peel Hc. injection Hc as <-.
  peel E. destruct (str_eqb _ _) eqn:Eid; [|done]. injection E as <-.
  apply str_eqb_eq in Eid. apply contract_new_parts in E0 as [<- Hwf]. by split_and!.
Qed.

Lemma insert_contract_ok db c db' :
  insert_import_processing_contract_in_connection db c = Ok db' →
  contract_wf c ∧ db' = with_contracts db (<[contract_id c := contract_parts c]> (db_contracts db)).
Proof.
  unfold insert_import_processing_contract_in_connection.
  set (db1 := match db_contracts db !! contract_id c with Some _ => _ | None => _ end).
  intros Hi. peel Hi. destruct a as [stored|]; [|done].
  destruct (bool_decide (stored = c)) eqn:Ec; [|done]. injection Hi as <-. bools. subst stored.
  apply contract_in_connection_wf in E as (Hwf & _ & Hl). split; [done|]. subst db1.
  destruct (db_contracts db !! contract_id c) as [p|] eqn:El; [|done].
  rewrite El in Hl. injection Hl as ->. rewrite insert_id by done. by destruct db.
Qed.

Lemma insert_contract_total db c :
  contract_wf c → contracts_ok db →
  (∀ p, db_contracts db !! contract_id c = Some p → p = contract_parts c) →
  insert_import_processing_contract_in_connection db c
  = Ok (with_contracts db (<[contract_id c := contract_parts c]> (db_contracts db))).
Proof.
  intros Hwf Hok Hp. unfold insert_import_processing_contract_in_connection.
  set (db1 := match db_contracts db !! contract_id c with Some _ => _ | None => _ end).
  assert (db1 = with_contracts db (<[contract_id c := contract_parts c]> (db_contracts db))) as ->.
  { subst db1. destruct (db_contracts db !! contract_id c) as [p|] eqn:El; [|done].
    rewrite insert_id by (rewrite El; f_equal; by apply Hp). by destruct db. }
  unfold import_processing_contract_in_connection, from_stored_parts. cbn [db_contracts with_contracts].
  rewrite lookup_insert_eq. unfold contract_wf in Hwf. rewrite Hwf. cbn [result_bind].
  rewrite (proj2 (str_eqb_eq _ _)) by done. cbn. by rewrite bool_decide_eq_true_2.
Qed.

Lemma update_authority_ok db f db' :
  update_authority db f = Ok db' ↔
  authority_check (f (db_authority db)) = true ∧ db' = with_authority db (f (db_authority db)).
Proof.
  unfold update_authority. destruct (authority_check _); naive_solver.
Qed.

Lemma update_authority_where_ok db cond f db' b :
  update_authority_where db cond f = Ok (db', b) →
  b = cond (db_authority db)
  ∧ (if b then update_authority db f = Ok db' else db' = db).
Proof.
  unfold update_authority_where. destruct (cond _); intros Hu; [peel Hu|]; by injection Hu as <- <-.
Qed.

Lemma update_transition_ok db id f db' :
  update_transition db id f = Ok db' →
  match db_transitions db !! id with
  | None => db' = db
  | Some t => transition_check (f t) = true
              ∧ db' = with_transitions db (<[id := f t]> (db_transitions db))
  end.
Proof.
  unfold update_transition. destruct (db_transitions db !! id) as [t|]; [|by intros [= ->]].
  destruct (transition_check _); [|done]. by intros [= <-].
Qed.

(** ** What retiring queued intents touches *)

(** Everything but the tasks, jobs, roots and scopes. *)
Definition frame (db : Db) :=
  (db_contracts db, db_authority db, db_transitions db, db_campaigns db, db_active_contract db,
   db_projection db, db_deletions db, db_completions db, db_full_corpus db).

Lemma insert_task_frame db task c db' :
  db_contracts db !! contract_id c = Some (contract_parts c) →
  insert_import_task_in_connection db task c = Ok db' →
  frame db' = frame db ∧ db_jobs db' = db_jobs db
  ∧ db_tasks db' = db_tasks db ++
      [MkTask (t_id task) (t_root_path task) (t_status task) (t_queued_at task) (t_started_at task)
         (t_finished_at task) (t_updated_at task) (contract_id c) None].
Proof.
  intros Hc. unfold insert_import_task_in_connection. intros Hi. peel Hi.
  destruct (negb (bool_decide _)); [done|].
  peel Hi. apply insert_contract_ok in E0 as [_ ->]. peel Hi.
  destruct (existsb _ _); [done|]. injection Hi as <-. cbn. rewrite insert_id by done. done.
Qed.

Lemma insert_with_scope_frame db task scope c db' :
  db_contracts db !! contract_id c = Some (contract_parts c) →
  insert_import_task_with_scan_scope db task scope c = Ok db' →
  frame db' = frame db ∧ db_jobs db' = db_jobs db
  ∧ db_tasks db' = db_tasks db ++
      [MkTask (t_id task) (t_root_path task) (t_status task) (t_queued_at task) (t_started_at task)
         (t_finished_at task) (t_updated_at task) (contract_id c) None].
Proof.
  intros Hc. unfold insert_import_task_with_scan_scope. intros Hi. peel Hi.
  destruct (negb _); [done|]. destruct (negb _); [done|]. peel Hi.
  apply insert_task_frame in E0 as (Hf & Hj & Ht); [|done].
  destruct (existsb _ _); [done|]. injection Hi as <-. by split_and!.
Qed.

Lemma insert_replacements_frame db c staged db' :
  db_contracts db !! contract_id c = Some (contract_parts c) →
  insert_replacements db c staged = Ok db' →
  frame db' = frame db ∧ db_jobs db' = db_jobs db
  ∧ db_tasks db' = db_tasks db ++
      map (λ x, let task := x.2.1 in
                MkTask (t_id task) (t_root_path task) (t_status task) (t_queued_at task)
                  (t_started_at task) (t_finished_at task) (t_updated_at task) (contract_id c) None)
        staged.
Proof.
  revert db; induction staged as [|[root [task scope]] staged IH]; intros db Hc;
    cbn [insert_replacements].
  - intros [= <-]. cbn. by rewrite app_nil_r.
  - intros Hi. peel Hi. apply insert_with_scope_frame in E as (Hf & Hj & Ht); [|done].
    apply IH in Hi as (Hf' & Hj' & Ht').
    + rewrite Hf', Hj', Ht', Hf, Hj, Ht. split_and!; [done|done|].
      cbn [map]. by rewrite <- (assoc_L (++)).
    + unfold frame in Hf. simplify_eq. congruence.
Qed.

(** The retired tasks are cancelled in place; nothing else about a task changes
    but its time stamp. *)
Definition retired_version (contract : str) (now : Z) (t t' : TaskRow) : Prop :=
  t_id t' = t_id t ∧ t_root_path t' = t_root_path t ∧ t_status t' = t_status t
  ∧ t_contract t' = t_contract t ∧ t_queued_at t' = t_queued_at t
  ∧ t_updated_at t ≤ t_updated_at t'.

Lemma cancel_task_version contract now id at_ t : retired_version contract now t (cancel_task id at_ t).
Proof. unfold cancel_task. destruct (str_eqb _ _); split_and!; cbn; done || lia. Qed.

Lemma retire_fold_frame contract now pending db :
  frame (fold_left (λ db t, retire_task db contract now t) pending db) = frame db.
Proof.
  revert db; induction pending as [|t pending IH]; intros db; cbn [fold_left]; [done|].
  by rewrite IH.
Qed.

Definition cancel_all (now : Z) (pending : list TaskRow) (t : TaskRow) : TaskRow :=
  fold_left (λ t p, cancel_task (t_id p) (Z.max now (t_updated_at p)) t) pending t.

Lemma retire_fold_tasks contract now pending db :
  db_tasks (fold_left (λ db t, retire_task db contract now t) pending db)
  = map (cancel_all now pending) (db_tasks db).
Proof.
  revert db; induction pending as [|p pending IH]; intros db; cbn [fold_left].
  - symmetry. apply map_id.
  - rewrite IH. cbn. rewrite map_map. done.
Qed.

Lemma cancel_task_id id at_ t : t_id (cancel_task id at_ t) = t_id t.
Proof. unfold cancel_task. by destruct (str_eqb _ _). Qed.

Lemma cancel_all_spec now pending t :
  let t' := cancel_all now pending t in
  t_id t' = t_id t ∧ t_root_path t' = t_root_path t ∧ t_status t' = t_status t
  ∧ t_contract t' = t_contract t ∧ t_queued_at t' = t_queued_at t
  ∧ t_started_at t' = t_started_at t ∧ t_finished_at t' = t_finished_at t
  ∧ (t_cancelled t' = None ↔ t_cancelled t = None ∧ t_id t ∉ map t_id pending).
Proof.
  revert t; induction pending as [|p pending IH]; intros t; cbn [cancel_all fold_left].
  - cbn. split_and!; try done. set_solver.
  - specialize (IH (cancel_task (t_id p) (Z.max now (t_updated_at p)) t)).
    fold (cancel_all now pending (cancel_task (t_id p) (Z.max now (t_updated_at p)) t)).
    cbn zeta in *. destruct IH as (-> & -> & -> & -> & -> & -> & -> & IH).
    rewrite IH. rewrite cancel_task_id. unfold cancel_task. cbn [map].
    destruct (str_eqb (t_id t) (t_id p)) eqn:E; cbn; split_and!; try done.
    + apply str_eqb_eq in E. rewrite E. destruct (t_cancelled t); set_solver.
    + assert (t_id t ≠ t_id p). { intros E'. rewrite <- str_eqb_eq in E'. congruence. }
      set_solver.
Qed.

(** ** The store invariant *)

(** The rows that refer to contracts refer to stored ones, and every transition row
    satisfies the schema's checks. *)
Record rows_ok (db : Db) : Prop := {
  ro_contracts : contracts_ok db;
  ro_refs : ∀ c, a_committed_contract_id (db_authority db) = Some c
                  ∨ a_desired_contract_id (db_authority db) = Some c
                  ∨ db_active_contract db = Some c → is_Some (db_contracts db !! c);
  ro_rows : map_Forall (λ _ t, transition_check t = true
              ∧ (tr_attempt t = 1 ∧ 0 ≤ tr_claim_fence_epoch t ≤ i64_MAX)
              ∧ ∀ c, tr_target_contract_id t = c ∨ tr_source_contract_id t = Some c →
                  is_Some (db_contracts db !! c)) (db_transitions db);
}.

(** Between two calls a transition under way is observed or fenced, with the phase of
    its row, and its target is the desired contract. *)
Definition open_phase (p : WriterTransitionPhase) : Prop := p = Observed ∨ p = ClaimsFenced.

Record authority_ok (db : Db) : Prop := {
  ao_check : authority_check (db_authority db) = true;
  ao_reason : a_health_state (db_authority db) = Store.Transitioning →
    a_health_reason (db_authority db) = Some (lit "transition_in_progress")
    ∨ a_health_reason (db_authority db) = Some (lit "blocked_by_running_owner");
  ao_active : ∀ id, a_active_transition_id (db_authority db) = Some id →
    ∃ t, db_transitions db !! id = Some t
         ∧ a_transition_phase (db_authority db) = Some (tr_phase t) ∧ open_phase (tr_phase t)
         ∧ a_desired_contract_id (db_authority db) = Some (tr_target_contract_id t);
}.

Definition db_ok (db : Db) : Prop := rows_ok db ∧ authority_ok db.

Lemma rows_ok_frame db db' :
  db_contracts db' = db_contracts db → db_authority db' = db_authority db →
  db_transitions db' = db_transitions db → db_active_contract db' = db_active_contract db →
  rows_ok db → rows_ok db'.
Proof.
  intros Hc Ha Ht Hac [R1 R2 R3]. split.
  - unfold contracts_ok. by rewrite Hc.
  - by rewrite Hc, Ha, Hac.
  - by rewrite Hc, Ht.
Qed.

Lemma rows_ok_authority db a :
  rows_ok db →
  (∀ c, a_committed_contract_id a = Some c ∨ a_desired_contract_id a = Some c →
        is_Some (db_contracts db !! c)) →
  rows_ok (with_authority db a).
Proof.
  intros [R1 R2 R3] Ha. split; [done| |done]. cbn. intros c.
  intros [Hc|[Hc|Hc]]; [by apply Ha; left|by apply Ha; right|]. apply R2. tauto.
Qed.

Lemma rows_ok_update_authority db f db' :
  rows_ok db → update_authority db f = Ok db' →
  (∀ c, a_committed_contract_id (f (db_authority db)) = Some c
        ∨ a_desired_contract_id (f (db_authority db)) = Some c → is_Some (db_contracts db !! c)) →
  rows_ok db'.
Proof. intros Hr [_ ->]%update_authority_ok. by apply rows_ok_authority. Qed.

Lemma rows_ok_active db c :
  rows_ok db → is_Some (db_contracts db !! c) → rows_ok (with_active_contract db (Some c)).
Proof.
  intros [R1 R2 R3] Hc. split; [done| |done]. cbn. intros c'.
  intros [Hr|[Hr|[= <-]]]; [..|done]; apply R2; tauto.
Qed.

Lemma rows_ok_insert_contract db c :
  contract_wf c → rows_ok db →
  rows_ok (with_contracts db (<[contract_id c := contract_parts c]> (db_contracts db))).
Proof.
  intros Hwf [R1 R2 R3].
  assert (∀ x, is_Some (db_contracts db !! x) →
               is_Some (<[contract_id c := contract_parts c]> (db_contracts db) !! x)) as Hmono.
  { intros x Hx. destruct (decide (x = contract_id c)) as [->|Hne].
    - rewrite lookup_insert_eq. by eexists.
    - by rewrite lookup_insert_ne by congruence. }
  split; cbn.
  - unfold contracts_ok. cbn. apply map_Forall_insert_2; [by exists c|done].
  - intros x Hx. by apply Hmono, R2.
  - intros id t Ht. destruct (R3 id t Ht) as (Hc1 & Hc2 & Hc3).
    split; [done|split; [done|]]. intros x Hx. by apply Hmono, Hc3.
Qed.

(** A statement on a transition row that keeps its identity columns. *)
Definition keeps_identity (f : TransitionRecord → TransitionRecord) : Prop :=
  ∀ t, tr_attempt (f t) = tr_attempt t ∧ tr_target_contract_id (f t) = tr_target_contract_id t
       ∧ tr_source_contract_id (f t) = tr_source_contract_id t
       ∧ tr_claim_fence_epoch (f t) = tr_claim_fence_epoch t
       ∧ tr_created_at (f t) = tr_created_at t.

Lemma rows_ok_update_transition db id f db' :
  keeps_identity f → rows_ok db → update_transition db id f = Ok db' → rows_ok db'.
Proof.
  intros Hf Hr Hu. apply update_transition_ok in Hu.
  destruct (db_transitions db !! id) as [t|] eqn:Et; [|by subst].
  destruct Hu as [Hck ->]. destruct Hr as [R1 R2 R3]. split; [done|done|]. cbn.
  apply map_Forall_insert_2; [|done]. destruct (Hf t) as (-> & -> & -> & -> & _).
  split; [done|]. apply (R3 id t Et).
Qed.

Lemma tr_with_identity g1 g2 g3 g4 g5 g6 :
  keeps_identity (λ t, tr_with t (g1 t) (g2 t) (g3 t) (g4 t) (g5 t) (g6 t)).
Proof. by intros t. Qed.

(** ** The transition machine's effect *)

Definition staged_row (contract : str) (task : TaskRow) : TaskRow :=
  MkTask (t_id task) (t_root_path task) (t_status task) (t_queued_at task) (t_started_at task)
    (t_finished_at task) (t_updated_at task) contract None.

(** The task table after the queued intents moved to another contract. *)
Definition rebuilt_tasks (db : Db) (contract : str) (now : Z)
    (staged : list (str * (TaskRow * ImportScanScope))) : list TaskRow :=
  map (cancel_all now (pending_intents db contract)) (db_tasks db)
  ++ map (λ x, staged_row contract x.2.1) staged.

Lemma retire_spec db d now db' :
  db_contracts db !! contract_id d = Some (contract_parts d) →
  retire_and_rebuild_queued_intents db d now = Ok db' →
  frame db' = frame db
  ∧ ∃ staged, stage_replacements db (contract_id d) now (pending_intents db (contract_id d)) []
              = Ok staged
              ∧ db_tasks db' = rebuilt_tasks db (contract_id d) now staged.
Proof.
  intros Hc. unfold retire_and_rebuild_queued_intents. intros Hr. peel Hr.
  apply insert_replacements_frame in Hr as (Hf & _ & Ht).
  - rewrite retire_fold_frame in Hf. split; [done|]. exists a. split; [done|].
    rewrite Ht, retire_fold_tasks. done.
  - pose proof (retire_fold_frame (contract_id d) now (pending_intents db (contract_id d)) db) as Hf.
    unfold frame in Hf. simplify_eq. congruence.
Qed.

Lemma frame_rows_ok db db' : frame db' = frame db → rows_ok db → rows_ok db'.
Proof. unfold frame. intros Hf. simplify_eq. by apply rows_ok_frame. Qed.

Definition row_of (id : str) (t : TransitionRecord) : TransitionRow :=
  MkTransitionRow id (tr_source_contract_id t) (tr_target_contract_id t) (tr_phase t)
    (tr_claim_fence_epoch t).

(** What a transition leaves behind once its target is committed. *)
Record target_committed (db : Db) (d : ImportProcessingContract) (id : str) (now : Z) (db' : Db)
    : Prop := {
  tc_quiesced : running_count db = 0;
  tc_authority : db_authority db' =
    MkRow Store.Ready None (Some WriterReady) None (a_claim_fence_epoch (db_authority db'))
      (Some (contract_id d)) (Some (contract_id d)) (Some id) now;
  tc_active : db_active_contract db' = Some (contract_id d);
  tc_row : ∃ t', db_transitions db' !! id = Some t' ∧ tr_phase t' = WriterReady
                 ∧ tr_completed_at t' = Some now;
  tc_tasks : ∃ staged,
    stage_replacements db (contract_id d) now (pending_intents db (contract_id d)) [] = Ok staged
    ∧ db_tasks db' = rebuilt_tasks db (contract_id d) now staged;
}.

Lemma set_phase_spec db id phase now db' t :
  db_transitions db !! id = Some t → set_phase db id phase now = Ok db' →
  db' = with_transitions db (<[id :=
          tr_with t phase (tr_failure_class t) (tr_retryable t) (tr_campaign_id t) now
            (tr_completed_at t)]> (db_transitions db)).
Proof. intros Ht Hs%update_transition_ok. rewrite Ht in Hs. by destruct Hs. Qed.

Lemma rows_ok_set_phase db id phase now db' :
  rows_ok db → set_phase db id phase now = Ok db' → rows_ok db'.
Proof. apply rows_ok_update_transition, tr_with_identity. Qed.

Lemma materialize_spec db row strategy d now db' :
  rows_ok db → materialize_campaign db row strategy d now = Ok db' →
  rows_ok db' ∧ db_authority db' = db_authority db ∧ db_contracts db' = db_contracts db
  ∧ db_tasks db' = db_tasks db ∧ db_active_contract db' = db_active_contract db
  ∧ (is_Some (db_transitions db !! row_transition_id row) →
     is_Some (db_transitions db' !! row_transition_id row)).
Proof.
  intros Hr. unfold materialize_campaign.
  destruct (campaign_domain_for strategy) as [domain|]; [|intros [= <-]; by split_and!].
  destruct (is_unsupported strategy); [intros [= <-]; by split_and!|].
  generalize (new_digest_id [utf8 (lit "reprocessing-campaign"); utf8 (row_transition_id row);
    utf8 domain]); intros cid.
  set (db1 := match db_campaigns db !! cid with Some _ => db | None => _ end).
  assert (rows_ok db1 ∧ db_authority db1 = db_authority db ∧ db_contracts db1 = db_contracts db
    ∧ db_tasks db1 = db_tasks db ∧ db_active_contract db1 = db_active_contract db
    ∧ db_transitions db1 = db_transitions db) as (Hr1 & Ha1 & Hc1 & Ht1 & Hac1 & Htr1).
  { subst db1. destruct (db_campaigns db !! cid); split_and!; try done.
    by apply (rows_ok_frame db). }
  clearbody db1. intros Hm. peel Hm.
  pose proof (rows_ok_update_transition _ _ _ _ (tr_with_identity _ _ _ _ _ _) Hr1 E) as Hr2.
  apply update_transition_ok in E. rewrite Htr1 in E.
  assert (db_authority a = db_authority db ∧ db_contracts a = db_contracts db
    ∧ db_tasks a = db_tasks db ∧ db_active_contract a = db_active_contract db
    ∧ (is_Some (db_transitions db !! row_transition_id row) →
       is_Some (db_transitions a !! row_transition_id row))) as (Ha2 & Hc2 & Ht2 & Hac2 & Htr2).
  { destruct (db_transitions db !! row_transition_id row).
    - destruct E as [_ ->]. cbn [with_transitions db_authority db_contracts db_tasks
        db_active_contract db_transitions]. rewrite lookup_insert_eq. by split_and!.
    - by subst a. }
  destruct strategy; injection Hm as <-; cbn; split_and!; try done; by apply (rows_ok_frame a).
Qed.

(** From the fenced phase on, with nobody running: the target is committed. *)
Lemma commit_spec db row d now db' :
  rows_ok db → db_contracts db !! contract_id d = Some (contract_parts d) →
  is_Some (db_transitions db !! row_transition_id row) →
  commit_target_contract db row d now = Ok db' →
  rows_ok db' ∧ running_count db = 0
  ∧ db_active_contract db' = Some (contract_id d) ∧ db_contracts db' = db_contracts db
  ∧ is_Some (db_transitions db' !! row_transition_id row)
  ∧ ∃ staged,
      stage_replacements db (contract_id d) now (pending_intents db (contract_id d)) [] = Ok staged
      ∧ db_tasks db' = rebuilt_tasks db (contract_id d) now staged.
Proof.
  intros Hr Hc [t Ht]. unfold commit_target_contract. intros Hcm. peel Hcm. peel Hcm.
  apply retire_spec in E0 as (Hf & Hst); [|done].
  pose proof (frame_rows_ok _ _ Hf Hr) as Hr1. peel Hcm.
  assert (db_contracts a = db_contracts db ∧ db_transitions a = db_transitions db) as [Hc1 Ht1].
  { unfold frame in Hf. by simplify_eq. }
  pose proof (rows_ok_active a (contract_id d) Hr1 ltac:(by rewrite Hc1, Hc)) as Hr2.
  pose proof (rows_ok_set_phase _ _ _ _ _ Hr2 E0) as Hr3.
  apply set_phase_spec with (t := t) in E0; [|cbn; by rewrite Ht1].
  assert (db_contracts a0 = db_contracts db) as Hc2 by (by rewrite E0).
  pose proof (λ Hx, rows_ok_update_authority _ _ _ Hr3 Hcm Hx) as Hr4.
  apply update_authority_ok in Hcm as [_ ->]. split_and!.
  - apply Hr4. intros c. cbn. rewrite Hc2. intros [[= <-]|[= <-]]; by rewrite Hc.
  - unfold running_count in *. lia.
  - by rewrite E0.
  - done.
  - rewrite E0. cbn. rewrite lookup_insert_eq. by eexists.
  - by rewrite E0.
Qed.

Lemma finish_spec db row strategy d now db' o :
  rows_ok db → is_Some (db_contracts db !! contract_id d) →
  is_Some (db_transitions db !! row_transition_id row) →
  finish_transition db row strategy d now = Ok (db', o) →
  o = OutcomeTargetCommitted ∧ db_ok db' ∧ db_tasks db' = db_tasks db
  ∧ db_active_contract db' = db_active_contract db ∧ db_contracts db' = db_contracts db
  ∧ db_authority db' =
      MkRow Store.Ready None (Some WriterReady) None (a_claim_fence_epoch (db_authority db'))
        (Some (contract_id d)) (Some (contract_id d)) (Some (row_transition_id row)) now
  ∧ ∃ t', db_transitions db' !! row_transition_id row = Some t' ∧ tr_phase t' = WriterReady
          ∧ tr_completed_at t' = Some now.
Proof.
  intros Hr Hc Ht. unfold finish_transition. intros Hf. peel Hf.
  apply materialize_spec in E as (Hr1 & Ha1 & Hc1 & Htk1 & Hac1 & Ht1); [|done].
  destruct (Ht1 Ht) as [t1 Et1]. peel Hf.
  pose proof (rows_ok_set_phase _ _ _ _ _ Hr1 E) as Hr2.
  apply set_phase_spec with (t := t1) in E; [|done]. peel Hf.
  pose proof (rows_ok_update_transition _ _ _ _ (tr_with_identity _ _ _ _ _ _) Hr2 E0) as Hr3.
  apply update_transition_ok in E0. rewrite E in E0. cbn in E0. rewrite lookup_insert_eq in E0.
  destruct E0 as [_ E0]. peel Hf. unfold set_authority_ready_after_transition in E1.
  pose proof (λ Hx, rows_ok_update_authority _ _ _ Hr3 E1 Hx) as Hr4.
  apply update_authority_ok in E1 as [Hck ->]. injection Hf as <- <-.
  assert (db_contracts a1 = db_contracts db) as Hc3 by (by rewrite E0).
  split_and!; try done.
  - split; [|by split]. apply Hr4. intros c. cbn. rewrite Hc3. by intros [[= <-]|[= <-]].
  - by rewrite E0.
  - by rewrite E0.
  - rewrite E0. cbn. rewrite lookup_insert_eq. by eexists.
Qed.

Definition is_running (t : TaskRow) : bool := bool_decide (t_status t = Running).

Lemma fence_spec db row now db' t :
  rows_ok db → db_transitions db !! row_transition_id row = Some t →
  a_desired_contract_id (db_authority db) = Some (tr_target_contract_id t) →
  fence_claims db row now = Ok db' →
  db_ok db' ∧ db_contracts db' = db_contracts db ∧ db_tasks db' = db_tasks db
  ∧ db_roots db' = db_roots db
  ∧ a_active_transition_id (db_authority db') = Some (row_transition_id row)
  ∧ ∃ t', db_transitions db' !! row_transition_id row = Some t' ∧ tr_phase t' = ClaimsFenced.
Proof.
  intros Hr Ht Hd. unfold fence_claims. intros Hf. peel Hf.
  pose proof (rows_ok_set_phase _ _ _ _ _ Hr E) as Hr1.
  apply set_phase_spec with (t := t) in E; [|done]. peel Hf.
  pose proof (λ Hx, rows_ok_update_authority _ _ _ Hr1 Hf Hx) as Hr2.
  apply update_authority_ok in Hf as [Hck ->].
  assert (db_transitions a !! row_transition_id row = Some
    (tr_with t ClaimsFenced (tr_failure_class t) (tr_retryable t) (tr_campaign_id t) now
       (tr_completed_at t))) as Hl by (rewrite E; cbn; by rewrite lookup_insert_eq).
  split_and!; [split|..]; try (by rewrite E).
  - apply Hr2. intros c Hx. apply (ro_refs _ Hr1). cbn in Hx. tauto.
  - split; [exact Hck|intros _; left; reflexivity|]. cbn. intros ? [= <-]. eexists.
    split; [exact Hl|]. cbn. split_and!; [done|by right|]. by rewrite E.
  - by eexists.
Qed.

Definition fenced_row (row : TransitionRow) : TransitionRow :=
  MkTransitionRow (row_transition_id row) (row_source_contract_id row) (row_target_contract_id row)
    ClaimsFenced (row_claim_fence_epoch row).

(** An observed transition is fenced and goes on as a fenced one. *)
Lemma advance_observed db row delta d now :
  row_phase row = Observed →
  advance_existing_transition db row delta d now
  = (let? db1 := fence_claims db row now in
     advance_existing_transition db1 (fenced_row row) delta d now).
Proof.
  intros Hp. unfold advance_existing_transition at 1. rewrite Hp.
  by destruct (fence_claims db row now).
Qed.

Lemma running_count_nonneg db : 0 ≤ running_count db.
Proof. unfold running_count. lia. Qed.

Lemma running_count_tasks db db' : db_tasks db' = db_tasks db → running_count db' = running_count db.
Proof. unfold running_count. by intros ->. Qed.

(** The fenced phase with a running owner. *)
Lemma advance_fenced_blocked db row delta d now db' o t :
  db_ok db → a_active_transition_id (db_authority db) = Some (row_transition_id row) →
  db_transitions db !! row_transition_id row = Some t → tr_phase t = ClaimsFenced →
  row_phase row = ClaimsFenced → 0 < running_count db →
  advance_existing_transition db row delta d now = Ok (db', o) →
  o = OutcomeBlockedByRunningOwner ∧ db_ok db' ∧ db_tasks db' = db_tasks db
  ∧ a_active_transition_id (db_authority db') = Some (row_transition_id row)
  ∧ db_contracts db' = db_contracts db.
Proof.
  intros [Hr [Ha1 Ha2 Ha3]] Hact Ht Hph Hp Hrun. unfold advance_existing_transition. rewrite Hp.
  cbn [result_bind]. rewrite (proj2 (Z.ltb_lt _ _) Hrun). intros Ho. peel Ho. destruct a as [[db2 p2] b2].
  peel E. peel E. injection E as <- <- <-. injection Ho as <- <-. split; [done|].
  pose proof (rows_ok_update_transition _ _ _ _ (tr_with_identity _ _ _ _ _ _) Hr E0) as Hr1.
  apply update_transition_ok in E0. rewrite Ht in E0. destruct E0 as [Hck E0].
  pose proof (λ Hx, rows_ok_update_authority _ _ _ Hr1 E1 Hx) as Hr2.
  apply update_authority_ok in E1 as [Hck' ->]. rewrite E0 in *. split_and!.
  - split.
    + apply Hr2. intros c Hx. apply (ro_refs _ Hr1). cbn in Hx |- *. tauto.
    + destruct (Ha3 _ Hact) as (t2 & Ht2 & Hp2 & _ & Hd). assert (t2 = t) as -> by congruence.
      split; [exact Hck'|intros _; right; reflexivity|]. cbn [db_authority with_authority with_transitions set_health a_active_transition_id a_transition_phase a_desired_contract_id db_transitions]. intros id. rewrite Hact. intros [= <-].
      rewrite lookup_insert_eq. eexists. split; [done|]. cbn. rewrite Hp2, Hph. split_and!; try done.
      by right.
  - done.
  - done.
  - done.
Qed.

Lemma stage_replacements_roots db db' contract now pending staged :
  db_roots db' = db_roots db →
  stage_replacements db' contract now pending staged = stage_replacements db contract now pending staged.
Proof.
  intros Hr. revert staged; induction pending as [|t pending IH]; intros staged;
    cbn [stage_replacements]; [done|].
  destruct (bmap_lookup _ _); [done|].
  assert (∀ id, authorized_root_task_scope db' (t_root_path t) id now
                = authorized_root_task_scope db (t_root_path t) id now) as Hs.
  { intros id. unfold authorized_root_task_scope. by rewrite Hr. }
  rewrite Hs. destruct (map_err _ _); [|done]. cbn [result_bind]. done.
Qed.

Lemma pending_intents_tasks db db' contract :
  db_tasks db' = db_tasks db → pending_intents db' contract = pending_intents db contract.
Proof. unfold pending_intents. by intros ->. Qed.

Lemma rebuilt_tasks_tasks db db' contract now staged :
  db_tasks db' = db_tasks db → rebuilt_tasks db' contract now staged = rebuilt_tasks db contract now staged.
Proof.
  intros Ht. unfold rebuilt_tasks. by rewrite Ht, (pending_intents_tasks db).
Qed.

(** The fenced phase once every worker is quiet. *)
Lemma advance_fenced_commits db row delta d now db' o t :
  rows_ok db → db_contracts db !! contract_id d = Some (contract_parts d) →
  db_transitions db !! row_transition_id row = Some t →
  row_phase row = ClaimsFenced → running_count db = 0 →
  advance_existing_transition db row delta d now = Ok (db', o) →
  o = OutcomeTargetCommitted ∧ db_ok db'
  ∧ target_committed db d (row_transition_id row) now db'.
Proof.
  intros Hr Hc Ht Hp Hrun. unfold advance_existing_transition. rewrite Hp.
  cbn [result_bind]. rewrite Hrun. change (0 <? 0) with false. cbv iota.
  intros Ho. peel Ho. destruct a as [[db2 p2] b2]. peel E.
  pose proof (rows_ok_set_phase _ _ _ _ _ Hr E0) as Hr1.
  apply set_phase_spec with (t := t) in E0; [|done]. peel E. injection E as -> <- <-.
  unfold set_authority_phase in E1.
  pose proof (λ Hx, rows_ok_update_authority _ _ _ Hr1 E1 Hx) as Hr2.
  apply update_authority_ok in E1 as [_ ->]. cbn [result_bind] in Ho. peel Ho. destruct a0 as [db3 p3].
  peel E. injection E as -> <-. apply commit_spec in E1 as (Hr3 & _ & Hac3 & Hc3 & Ht3 & Htk3).
  - apply finish_spec in Ho as (-> & Hr4 & Htk4 & Hac4 & Hc4 & Ha4 & Ht4); [|done|..|done].
    + split_and!; [done|done|]. split; try done.
      * by rewrite Hac4.
      * rewrite Htk4. destruct Htk3 as (staged & Hst & ->). exists staged.
        rewrite (stage_replacements_roots db), (pending_intents_tasks db) in Hst by (by rewrite E0).
        rewrite (rebuilt_tasks_tasks db) by (by rewrite E0). done.
    + rewrite Hc3, E0. cbn. by rewrite Hc.
  - apply Hr2. intros c Hx. apply (ro_refs _ Hr1). cbn in Hx |- *. tauto.
  - by rewrite E0.
  - rewrite E0. cbn. rewrite lookup_insert_eq. by eexists.
Qed.

Lemma sync_ok db c now db' :
  rows_ok db → is_Some (db_contracts db !! c) → sync_authority_ready db c now = Ok db' →
  db_ok db' ∧ db_tasks db' = db_tasks db ∧ a_health_state (db_authority db') = Store.Ready
  ∧ a_committed_contract_id (db_authority db') = Some c
  ∧ a_active_transition_id (db_authority db') = None.
Proof.
  unfold sync_authority_ready. intros Hr Hc Hs.
  pose proof (λ Hx, rows_ok_update_authority _ _ _ Hr Hs Hx) as Hr1.
  apply update_authority_ok in Hs as [Hck ->]. split_and!; try done. split; [|by split].
  apply Hr1. cbn. by intros c' [[= <-]|[= <-]].
Qed.

Lemma open_spec db id source d pv sv queued failure now db' row :
  rows_ok db → db_contracts db !! contract_id d = Some (contract_parts d) →
  (∀ c, source = Some c → is_Some (db_contracts db !! c)) →
  open_transition db id source d pv sv queued failure now = Ok (db', row) →
  db_ok db' ∧ db_contracts db' = db_contracts db ∧ db_tasks db' = db_tasks db
  ∧ db_roots db' = db_roots db ∧ a_active_transition_id (db_authority db') = Some id
  ∧ ∃ t, db_transitions db' !! id = Some t ∧ row = row_of id t ∧ tr_phase t = Observed
         ∧ tr_target_contract_id t = contract_id d.
Proof.
  intros Hr Hc Hs. unfold open_transition. destruct (projection_identity db) as [gen ve].
  intros Ho. peel Ho. peel Ho. peel Ho. peel Ho. injection Ho as <- <-.
  unfold insert_transition in E1. destruct (db_transitions db !! id) eqn:Et; [done|].
  destruct (digest_text id && _) eqn:Eck; [|done]. injection E1 as <-. bools.
  match goal with _ : transition_check ?x = true |- _ => set (t := x) in * end.
  assert (rows_ok (with_transitions db (<[id := t]> (db_transitions db)))) as Hr1.
  { destruct Hr as [R1 R2 R3]. split; [done|done|]. cbn. apply map_Forall_insert_2; [|done].
    split_and!; [done|done|..|].
    - unfold next_claim_fence_epoch, u64_saturating_add, u64_MAX in E. peel E. injection E as <-. cbn. lia.
    - cbn. lia.
    - intros c. cbn. intros [<-|Hx]; [by rewrite Hc|by apply Hs]. }
  unfold set_authority_transitioning in E2. peel E2.
  pose proof (λ Hx, rows_ok_update_authority _ _ _ Hr1 E2 Hx) as Hr2.
  apply update_authority_ok in E2 as [Hck ->]. split_and!; try done.
  - split.
    + apply Hr2. intros c [Hx|[= <-]]; [|cbn; by rewrite Hc]. cbn in Hx |- *. destruct source as [s|].
      * injection Hx as <-. by apply Hs.
      * apply (ro_refs _ Hr). by left.
    + split; [exact Hck|intros _; left; reflexivity|]. cbn. intros ? [= <-].
      rewrite lookup_insert_eq. exists t. split_and!; try done. by left.
  - exists t. cbn. by rewrite lookup_insert_eq.
Qed.

Lemma active_contract_ok db c :
  active_contract db = Ok (Some c) → contract_wf c ∧ is_Some (db_contracts db !! contract_id c).
Proof.
  unfold active_contract.
  destruct (match a_committed_contract_id _ with Some c => _ | None => _ end) as [id|]; [|done].
  intros Ha. peel Ha. apply contract_in_connection_wf in Ha as (Hwf & <- & Hl). split; [done|].
  by eexists.
Qed.

Lemma target_committed_pre db db1 d id now db' :
  db_tasks db1 = db_tasks db → db_roots db1 = db_roots db →
  target_committed db1 d id now db' → target_committed db d id now db'.
Proof.
  intros Ht Hr [C1 C2 C3 C4 C5]. split; try done.
  - by rewrite <- (running_count_tasks db db1).
  - destruct C5 as (staged & Hst & ->). exists staged.
    rewrite (stage_replacements_roots db), (pending_intents_tasks db) in Hst by done.
    split; [done|]. by apply rebuilt_tasks_tasks.
Qed.

Lemma advance_spec db id t delta d now db' o :
  db_ok db → db_contracts db !! contract_id d = Some (contract_parts d) →
  a_active_transition_id (db_authority db) = Some id → db_transitions db !! id = Some t →
  advance_existing_transition db (row_of id t) delta d now = Ok (db', o) →
  db_ok db'
  ∧ (o = OutcomeBlockedByRunningOwner ∧ 0 < running_count db ∧ db_tasks db' = db_tasks db
     ∧ a_active_transition_id (db_authority db') = Some id
     ∨ o = OutcomeTargetCommitted ∧ target_committed db d id now db').
Proof.
  intros Hok Hc Hact Ht Hadv.
  assert (∃ db1 row t1, db_ok db1 ∧ db_contracts db1 = db_contracts db ∧ db_tasks db1 = db_tasks db
    ∧ db_roots db1 = db_roots db ∧ a_active_transition_id (db_authority db1) = Some id
    ∧ db_transitions db1 !! id = Some t1 ∧ tr_phase t1 = ClaimsFenced
    ∧ row_phase row = ClaimsFenced ∧ row_transition_id row = id
    ∧ advance_existing_transition db1 row delta d now = Ok (db', o))
    as (db1 & row & t1 & Hok1 & Hc1 & Htk1 & Hr1 & Hact1 & Ht1 & Hp1 & Hp & Hid & Hadv1).
  { destruct (ao_active _ (proj2 Hok) _ Hact) as (t2 & Ht2 & Hph & Hopen & Hd).
    assert (t2 = t) as -> by congruence. destruct Hopen as [Hopen|Hopen].
    - rewrite advance_observed in Hadv by done. peel Hadv.
      apply (fence_spec _ _ _ _ t) in E as (Hok1 & Hc1 & Htk1 & Hr1 & Hact1 & t1 & Ht1 & Hp1);
        [|by apply Hok|done|done].
      by exists a, (fenced_row (row_of id t)), t1.
    - by exists db, (row_of id t), t. }
  subst id. destruct (decide (0 < running_count db1)) as [Hrun|Hrun].
  - apply (advance_fenced_blocked _ _ _ _ _ _ _ t1) in Hadv1 as (-> & Hok' & Htk' & Hact' & _);
      try done. split; [done|]. left. rewrite <- (running_count_tasks db db1) by done.
    split_and!; congruence.
  - pose proof (running_count_nonneg db1).
    apply (advance_fenced_commits _ _ _ _ _ _ _ t1) in Hadv1 as (-> & Hok' & Htc);
      [|by apply Hok1|congruence|done|done|lia].
    split; [done|]. right. split; [done|]. by apply (target_committed_pre _ db1).
Qed.

(** What a committed outcome says of the store it commits. *)
Definition outcome_spec (db : Db) (d : ImportProcessingContract) (now : Z)
    (o : WriterContractTransitionOutcome) (db' : Db) : Prop :=
  match o with
  | OutcomeTargetCommitted => ∃ id, target_committed db d id now db'
  | OutcomeBlockedByRunningOwner =>
      0 < running_count db ∧ db_tasks db' = db_tasks db
      ∧ is_Some (a_active_transition_id (db_authority db'))
  | OutcomeAlreadyActive =>
      db_tasks db' = db_tasks db ∧ a_health_state (db_authority db') = Store.Ready
      ∧ a_committed_contract_id (db_authority db') = Some (contract_id d)
  | OutcomeTransitionInProgress =>
      db' = with_contracts db (<[contract_id d := contract_parts d]> (db_contracts db))
      ∧ ∃ id t, a_active_transition_id (db_authority db) = Some id
                ∧ db_transitions db !! id = Some t ∧ tr_target_contract_id t ≠ contract_id d
  | _ => False
  end.

Lemma contracts_db_ok db d :
  contract_wf d → db_ok db →
  db_ok (with_contracts db (<[contract_id d := contract_parts d]> (db_contracts db))).
Proof.
  intros Hwf [Hr [A1 A2 A3]]. split; [by apply rows_ok_insert_contract|by split].
Qed.

Lemma outcome_spec_pre db d now o db' :
  o ≠ OutcomeTransitionInProgress →
  outcome_spec (with_contracts db (<[contract_id d := contract_parts d]> (db_contracts db))) d now o db' →
  outcome_spec db d now o db'.
Proof.
  intros Ho. destruct o; cbn [outcome_spec]; try done. intros [id Hid]. exists id.
  by apply (target_committed_pre db) in Hid.
Qed.

Lemma resume_spec db id t d now db' o :
  db_ok db → db_contracts db !! contract_id d = Some (contract_parts d) →
  a_active_transition_id (db_authority db) = Some id → db_transitions db !! id = Some t →
  tr_target_contract_id t = contract_id d →
  resume_transition db (row_of id t) d now = Ok (db', o) → outcome_commits o = true →
  db_ok db' ∧ outcome_spec db d now o db' ∧ o ≠ OutcomeTransitionInProgress.
Proof.
  intros Hok Hc Hact Ht Htg. unfold resume_transition. cbn [row_target_contract_id row_of].
  rewrite (proj2 (str_eqb_eq _ _)) by done. cbn [negb]. intros Hs Hcm. peel Hs.
  destruct (observe_writer_contract_transition _ _ _) as [delta obs].
  destruct (is_unsupported _ && _); [injection Hs as <- <-; done|].
  apply (advance_spec _ _ t) in Hs as (Hok' & [(-> & Hrun & Htk & Hact')|(-> & Htc)]); try done.
  split_and!; try done. by exists id.
Qed.

Lemma transaction_spec db d pv sv now db' o :
  db_ok db →
  complete_online_writer_transition_in_transaction db d pv sv now = Ok (db', o) →
  outcome_commits o = true → db_ok db' ∧ outcome_spec db d now o db'.
Proof.
  intros Hok. unfold complete_online_writer_transition_in_transaction. intros Hx Hcm. peel Hx.
  apply insert_contract_ok in E as [Hwf ->].
  pose proof (contracts_db_ok db d Hwf Hok) as Hok1.
  pose proof (outcome_spec_pre db d now o db') as Hpre.
  remember (with_contracts db (<[contract_id d := contract_parts d]> (db_contracts db)))
    as db1 eqn:Hdb1.
  assert (db_contracts db1 !! contract_id d = Some (contract_parts d)) as Hc
    by (rewrite Hdb1; cbn; by rewrite lookup_insert_eq).
  destruct (negb _); [injection Hx as <- <-; done|]. peel Hx. destruct a as [row|].
  - unfold active_transition_row in E.
    destruct (a_active_transition_id (db_authority db1)) as [id|] eqn:Eact; [|done].
    destruct (db_transitions db1 !! id) as [t|] eqn:Et; [|done].
    destruct (_ || _ || _); [done|]. injection E as <-. fold (row_of id t) in Hx.
    destruct (decide (tr_target_contract_id t = contract_id d)) as [Htg|Htg].
    + apply (resume_spec _ _ t) in Hx as (Hok' & Hs & Ho); try done. split; [done|]. by apply Hpre.
    + unfold resume_transition in Hx. cbn [row_target_contract_id row_of] in Hx.
      destruct (str_eqb (tr_target_contract_id t) (contract_id d)) eqn:Eq;
        [by apply str_eqb_eq in Eq|]. injection Hx as <- <-.
      split; [done|]. split; [done|]. exists id, t. rewrite Hdb1 in Eact, Et. done.
  - peel Hx. destruct (observe_writer_contract_transition _ _ _) as [delta obs].
    destruct (is_outcome_active obs).
    { peel Hx. injection Hx as <- <-.
      apply sync_ok in E1 as (Hok' & Htk & Hh & Hcc & _); [|by apply Hok1|by rewrite Hc].
      split; [done|]. apply Hpre; [done|]. by split_and!. }
    destruct (_ || _); [injection Hx as <- <-; done|].
    destruct (0 <? running_count db1) eqn:Erun.
    + peel Hx. injection Hx as <- <-. unfold record_blocked_attempt in E1. rewrite E0 in E1.
      cbn [result_bind] in E1. peel E1. destruct a1 as [db2 row2]. injection E1 as <-.
      apply open_spec in E2 as (Hok' & _ & Htk & _ & Hact & _); [|by apply Hok1|done|].
      * split; [done|]. apply Hpre; [done|]. split_and!; [lia|done|by rewrite Hact].
      * intros c Hs. destruct a as [a|]; [|done]. injection Hs as <-.
        by destruct (active_contract_ok _ _ E0).
    + peel Hx. destruct a0 as [db2 row2].
      apply open_spec in E1 as (Hok2 & Hc2 & Htk & Hr2 & Hact & t & Ht & -> & _); [|by apply Hok1|done|].
      * apply (advance_spec _ _ t) in Hx as (Hok' & [(-> & Hrun & _)|(-> & Htc)]); try done; try congruence.
        -- rewrite (running_count_tasks db1) in Hrun by done. lia.
        -- split; [done|]. apply Hpre; [done|]. eexists. by apply (target_committed_pre db1) in Htc.
      * intros c Hs. destruct a as [a|]; [|done]. injection Hs as <-.
        by destruct (active_contract_ok _ _ E0).
Qed.

(** ** Reachable stores *)

(** The calls that touch the writer tables, and everything else the store does:
    work that leaves those tables alone and starts no task. *)
Inductive StoreCall :=
| CallComplete (d : ImportProcessingContract)
| CallActivate (d : ImportProcessingContract)
| CallOther.

Inductive store_step : StoreCall → Db → Db → Prop :=
| step_complete db d now : store_step (CallComplete d) db (complete_online_writer_transition db d now).1
| step_mark_runtime db now db' :
    mark_writer_runtime_unavailable db now = Ok db' → store_step CallOther db db'
| step_reconcile db healthy now db' b :
    reconcile_writer_runtime_availability db healthy now = Ok (db', b) → store_step CallOther db db'
| step_mark_unsupported db now db' b :
    mark_writer_unsupported_transition db now = Ok (db', b) → store_step CallOther db db'
| step_clear_unsupported db now db' b :
    clear_writer_unsupported_transition db now = Ok (db', b) → store_step CallOther db db'
| step_mark_blocked db now db' :
    mark_writer_blocked_by_running_owner db now = Ok db' → store_step CallOther db db'
| step_clear_blocked db now db' b :
    clear_writer_blocked_by_running_owner db now = Ok (db', b) → store_step CallOther db db'
| step_claim db observed now :
    store_step CallOther db (claim_observed_import_task_for_worker db observed now).1
| step_activate db d now : store_step (CallActivate d) db (activate_migration_rebuild_contract db d now).1
| step_submit db task scope c db' :
    insert_import_task_with_scan_scope db task scope c = Ok db' → store_step CallOther db db'
| step_other db db' :
    db_contracts db' = db_contracts db → db_authority db' = db_authority db →
    db_transitions db' = db_transitions db → db_active_contract db' = db_active_contract db →
    running_count db' ≤ running_count db → store_step CallOther db db'.

Definition reachable (db : Db) : Prop := ∃ p, rtc (λ x y, ∃ call, store_step call x y) (initial_db p) db.

(** A change of the health columns alone. *)
Lemma set_health_ok db f db' :
  db_ok db → update_authority db f = Ok db' →
  (∃ s r u, f (db_authority db) = set_health (db_authority db) s r u
            ∧ (s = Store.Transitioning → r = Some (lit "transition_in_progress"))) →
  db_ok db' ∧ db_tasks db' = db_tasks db
  ∧ a_active_transition_id (db_authority db') = a_active_transition_id (db_authority db).
Proof.
  intros [Hr [A1 A2 A3]] [Hck ->]%update_authority_ok (s & r & u & Hf & Hs). rewrite Hf in *.
  split_and!; try done. split.
  - apply rows_ok_authority; [done|]. intros c Hx. apply (ro_refs _ Hr). cbn in Hx. tauto.
  - split; [done|intros Hst; left; by apply Hs|done].
Qed.

Lemma cleared_health_shape a now :
  ∃ s r u, cleared_health a now = set_health a s r u
           ∧ (s = Store.Transitioning → r = Some (lit "transition_in_progress")).
Proof.
  unfold cleared_health. destruct (a_active_transition_id a); do 3 eexists; by split.
Qed.

Lemma latch_ok db cond f db' b :
  db_ok db → update_authority_where db cond f = Ok (db', b) →
  (∃ s r u, f (db_authority db) = set_health (db_authority db) s r u
            ∧ (s = Store.Transitioning → r = Some (lit "transition_in_progress"))) →
  db_ok db' ∧ db_tasks db' = db_tasks db
  ∧ a_active_transition_id (db_authority db') = a_active_transition_id (db_authority db).
Proof.
  intros Hok [Hb Hu]%update_authority_where_ok Hf. destruct b; [by apply (set_health_ok _ f)|].
  by subst.
Qed.

Lemma submit_spec db task scope c db' :
  insert_import_task_with_scan_scope db task scope c = Ok db' →
  contract_wf c
  ∧ db_contracts db' = <[contract_id c := contract_parts c]> (db_contracts db)
  ∧ db_authority db' = db_authority db ∧ db_transitions db' = db_transitions db
  ∧ db_active_contract db' = db_active_contract db ∧ running_count db' = running_count db.
Proof.
  unfold insert_import_task_with_scan_scope. intros Hi. peel Hi.
  destruct (negb _); [done|]. destruct (negb _); [done|]. peel Hi.
  unfold insert_import_task_in_connection in E0. peel E0.
  destruct (bool_decide (t_status task = Queued)) eqn:Est; [|done]. cbn [negb] in E0.
  bools. peel E0. apply insert_contract_ok in E2 as [Hwf ->]. peel E0.
  destruct (existsb _ _); [done|]. injection E0 as <-.
  destruct (existsb _ _); [done|]. injection Hi as <-. split_and!; try done.
  unfold running_count. cbn. rewrite List.filter_app. cbn. rewrite Est. cbn. by rewrite app_nil_r.
Qed.

Lemma activate_spec db d now db' o :
  db_ok db → activate_in_transaction db d now = Ok (db', o) → o = Activated ∨ o = ActivationAlreadyActive →
  db_ok db' ∧ running_count db' ≤ running_count db
  ∧ a_active_transition_id (db_authority db') = None
  ∧ a_health_state (db_authority db') = Store.Ready
  ∧ a_committed_contract_id (db_authority db') = Some (contract_id d).
Proof.
  intros Hok. unfold activate_in_transaction. intros Hx Ho. peel Hx.
  apply insert_contract_ok in E as [Hwf ->]. apply (contracts_db_ok _ _ Hwf) in Hok as [Hr _].
  remember (with_contracts db _) as db1 eqn:Hdb1.
  assert (running_count db1 = running_count db) as Hrc by (by rewrite Hdb1).
  assert (is_Some (db_contracts db1 !! contract_id d)) as Hc
    by (rewrite Hdb1; cbn; by rewrite lookup_insert_eq).
  destruct (negb _ && _); [injection Hx as <- <-; by destruct Ho|].
  destruct (is_unpublished_rebuild db1 && _).
  - peel Hx. injection Hx as <- <-. apply sync_ok in E as (Hok' & Htk & Hh & Hcm & Hact); try done.
    rewrite (running_count_tasks db1), Hrc by done. done.
  - destruct (0 <? running_count db1); [injection Hx as <- <-; by destruct Ho|]. peel Hx.
    apply sync_ok in E as (Hok' & Htk & Hh & Hcm & Hact).
    + assert (running_count a = 0) as Hz by (unfold running_count; by rewrite Htk).
      pose proof (running_count_nonneg db).
      match type of Hx with Ok (?x, _) = _ => assert (db' = x) as -> by (by injection Hx) end.
      destruct (_ && _ && _ && _).
      * split_and!; try done; [|unfold running_count in *; cbn; lia].
        destruct Hok' as [Hr' [A1 A2 A3]]. split; [by apply (rows_ok_frame a)|by split].
      * rewrite Hz. done.
    + apply rows_ok_active; [by apply (rows_ok_frame db1)|done].
    + done.
Qed.

Lemma claim_spec db observed now :
  db_ok db → ¬ public_writer_claims_admitted db = true →
  claim_observed_import_task_for_worker db observed now = (db, None).
Proof.
  intros Hok Hn. unfold claim_observed_import_task_for_worker.
  destruct (negb _); [done|].
  assert (∀ t, claimable db observed t = false) as Hcl.
  { intros t. unfold claimable. unfold public_writer_claims_admitted in Hn.
    destruct (health_state_eqb _ _); [done|]. by rewrite andb_false_r. }
  f_equal.
  - rewrite (map_ext _ (λ t, t)) by (intros t; by rewrite Hcl). rewrite map_id. by destruct db.
  - rewrite (List.filter_ext _ (λ _, false)) by done.
    by induction (db_tasks db).
Qed.

Lemma ready_no_transition db :
  db_ok db → public_writer_claims_admitted db = true →
  a_active_transition_id (db_authority db) = None.
Proof.
  intros [_ [A1 _ _]]. unfold public_writer_claims_admitted.
  unfold authority_check in A1. destruct (a_health_state _); try done. bools.
  by destruct (a_active_transition_id _).
Qed.

Lemma complete_spec db d now :
  db_ok db →
  let r := complete_online_writer_transition db d now in
  db_ok r.1 ∧ (r.1 = db ∨ ∃ o, r.2 = Ok o ∧ outcome_spec db d now o r.1).
Proof.
  intros Hok. unfold complete_online_writer_transition. cbn zeta.
  destruct (complete_online_writer_transition_in_transaction _ _ _ _ _) as [[db' o]|e] eqn:E; cbn.
  - destruct (outcome_commits o) eqn:Eo; [|split; [done|by left]].
    destruct (transaction_spec _ _ _ _ _ _ _ Hok E Eo) as [Hok' Hs]. split; [done|]. right. by exists o.
  - split; [done|by left].
Qed.

Lemma health_step db db' :
  db_ok db' ∧ db_tasks db' = db_tasks db
  ∧ a_active_transition_id (db_authority db') = a_active_transition_id (db_authority db) →
  db_ok db'
  ∧ (is_Some (a_active_transition_id (db_authority db)) →
     is_Some (a_active_transition_id (db_authority db')) → running_count db' ≤ running_count db).
Proof. intros (Hok & Htk & _). by rewrite (running_count_tasks db). Qed.

Ltac health_shape := do 3 eexists; split; [reflexivity|intros ?; discriminate].

Lemma complete_outcome db d now db' o :
  db_ok db → complete_online_writer_transition db d now = (db', Ok o) →
  db_ok db' ∧ if outcome_commits o then outcome_spec db d now o db' else db' = db.
Proof.
  intros Hok. unfold complete_online_writer_transition.
  destruct (complete_online_writer_transition_in_transaction _ _ _ _ _) as [[db1 o1]|] eqn:E; [|done].
  intros [= <- ->]. destruct (outcome_commits o) eqn:Eo; [|done].
  by apply (transaction_spec _ _ _ _ _ _ _ Hok E).
Qed.

(** A step keeps the invariant, and a step inside a transition starts no task. *)
Lemma store_step_ok call db db' :
  store_step call db db' → db_ok db →
  db_ok db'
  ∧ (is_Some (a_active_transition_id (db_authority db)) →
     is_Some (a_active_transition_id (db_authority db')) → running_count db' ≤ running_count db).
Proof.
  intros Hstep Hok. destruct Hstep as
    [db d now|db now db' Hs|db healthy now db' b Hs|db now db' b Hs|db now db' b Hs|db now db' Hs
    |db now db' b Hs|db observed now|db d now|db task scope c db' Hs|db db' Hc Ha Ht Hac Hrun].
  - destruct (complete_spec db d now Hok) as [Hok' [->|(o & _ & Ho)]]; [done|]. split; [done|].
    intros _ Hact. destruct o; cbn [outcome_spec] in Ho; try done.
    + by rewrite (running_count_tasks db) by apply Ho.
    + destruct Ho as [id Ho]. rewrite (tc_authority _ _ _ _ _ Ho) in Hact. by destruct Hact.
    + destruct Ho as [-> _]. done.
    + by rewrite (running_count_tasks db) by apply Ho.
  - apply (set_health_ok db) in Hs; [by apply health_step|done|health_shape].
  - unfold reconcile_writer_runtime_availability in Hs. destruct (negb healthy); [by injection Hs as <- <-|].
    apply (latch_ok db) in Hs; [by apply health_step|done|apply cleared_health_shape].
  - unfold mark_writer_unsupported_transition in Hs.
    apply (latch_ok db) in Hs; [by apply health_step|done|health_shape].
  - unfold clear_writer_unsupported_transition in Hs.
    apply (latch_ok db) in Hs; [by apply health_step|done|health_shape].
  - apply (set_health_ok db) in Hs; [by apply health_step|done|health_shape].
  - unfold clear_writer_blocked_by_running_owner in Hs.
    apply (latch_ok db) in Hs; [by apply health_step|done|apply cleared_health_shape].
  - split.
    + unfold claim_observed_import_task_for_worker. destruct (negb _); [done|].
      destruct Hok as [Hr [A1 A2 A3]]. split; [by apply (rows_ok_frame db)|by split].
    + intros [id Hid] _. rewrite claim_spec; [done|done|].
      intros Hr. apply ready_no_transition in Hr; [congruence|done].
  - unfold activate_migration_rebuild_contract.
    destruct (activate_in_transaction db d now) as [[db' o]|e] eqn:E; [|done].
    destruct o; try done;
      (apply activate_spec in E as (Hok' & Hrun & _); [|done|by auto]; by split).
  - apply submit_spec in Hs as (Hwf & Hc & Ha & Ht & Hac & Hrun). split; [|intros; lia].
    apply (contracts_db_ok _ _ Hwf) in Hok as [Hr [A1 A2 A3]].
    split; [by apply (rows_ok_frame (with_contracts db (<[contract_id c := contract_parts c]> (db_contracts db))))|].
    by split; rewrite ?Ha, ?Ht.
  - split; [|done]. destruct Hok as [Hr [A1 A2 A3]]. split; [by apply (rows_ok_frame db)|].
    by split; rewrite ?Ha, ?Ht.
Qed.

Lemma initial_db_ok p : db_ok (initial_db p).
Proof.
  split; split; try done.
  - cbn. intros c. by intros [|[|]].
Qed.

Lemma reachable_ok db : reachable db → db_ok db.
Proof.
  intros [p Hr]. pose proof (initial_db_ok p) as Hok. induction Hr as [|x y z [call Hxy] _ IH]; [done|].
  apply IH. by apply (store_step_ok call x).
Qed.

(** ** Staged replacements *)

Definition staged_wf (db : Db) (contract : str) (now : Z)
    (staged : list (str * (TaskRow * ImportScanScope))) : Prop :=
  ssorted staged.*1
  ∧ ∀ root task scope, (root, (task, scope)) ∈ staged →
      task = replacement_task root contract now
      ∧ authorized_root_task_scope db root (replacement_task_id root contract now) now = Ok scope.

Lemma staged_wf_entry db contract now staged root scope :
  staged_wf db contract now staged →
  authorized_root_task_scope db root (replacement_task_id root contract now) now = Ok scope →
  staged_wf db contract now (bmap_entry root (λ _, (replacement_task root contract now, scope)) staged).
Proof.
  intros [Hs Hw] Hsc. split; [by apply bmap_entry_sorted|]. intros r task sc Hin.
  apply elem_of_bmap_lookup in Hin; [|by apply bmap_entry_sorted].
  destruct (decide (r = root)) as [->|Hne].
  - rewrite bmap_lookup_entry in Hin by done. by injection Hin as <- <-.
  - rewrite bmap_lookup_entry_ne in Hin by done. apply Hw. by apply elem_of_bmap_lookup.
Qed.

Lemma stage_spec db contract now pending acc staged :
  staged_wf db contract now acc → stage_replacements db contract now pending acc = Ok staged →
  staged_wf db contract now staged
  ∧ ∀ root, root ∈ staged.*1 ↔ root ∈ acc.*1 ∨ root ∈ map t_root_path pending.
Proof.
  revert acc; induction pending as [|t pending IH]; intros acc Hw; cbn [stage_replacements].
  - intros [= <-]. split; [done|]. set_solver.
  - destruct (bmap_lookup (t_root_path t) acc) eqn:El.
    + intros Hs%IH; [|done]. destruct Hs as [Hw' Hk]. split; [done|]. intros root. rewrite Hk.
      assert (t_root_path t ∈ acc.*1) by (apply bmap_lookup_is_Some; [apply Hw|by eexists]).
      cbn. set_solver.
    + intros Hs. peel Hs. apply IH in Hs as [Hw' Hk]; [|by apply staged_wf_entry]. split; [done|].
      intros root. rewrite Hk, elem_of_bmap_entry_keys. cbn. set_solver.
Qed.

Lemma staged_wf_nil db contract now : staged_wf db contract now [].
Proof. split; [constructor|]. by intros ? ? ? ?%elem_of_nil. Qed.

Lemma stage_total db contract now pending acc :
  (∀ t, t ∈ pending → is_Some (db_roots db !! t_root_path t)) →
  ∃ staged, stage_replacements db contract now pending acc = Ok staged.
Proof.
  revert acc; induction pending as [|t pending IH]; intros acc Hroots; cbn [stage_replacements].
  - by eexists.
  - assert (∀ t', t' ∈ pending → is_Some (db_roots db !! t_root_path t')) by set_solver.
    destruct (bmap_lookup _ _); [by apply IH|].
    destruct (Hroots t ltac:(set_solver)) as [r Hr]. unfold authorized_root_task_scope at 1.
    rewrite Hr. cbn [map_err result_bind]. by apply IH.
Qed.

Lemma elem_of_pending db contract t :
  t ∈ pending_intents db contract ↔ t ∈ db_tasks db ∧ retired_by contract t = true.
Proof.
  unfold pending_intents. rewrite (sort_by_perm pending_order), !list_elem_of_In.
  apply List.filter_In.
Qed.

Lemma elem_of_rebuilt db contract now staged t' :
  t' ∈ rebuilt_tasks db contract now staged ↔
  (∃ t, t ∈ db_tasks db ∧ t' = cancel_all now (pending_intents db contract) t)
  ∨ ∃ x, x ∈ staged ∧ t' = staged_row contract x.2.1.
Proof.
  unfold rebuilt_tasks. rewrite elem_of_app, !list_elem_of_fmap. naive_solver.
Qed.

Lemma map_t_id_pending db contract t :
  t ∈ db_tasks db → retired_by contract t = true →
  t_id t ∈ map t_id (pending_intents db contract).
Proof. intros Ht Hr. apply list_elem_of_fmap. exists t. by rewrite elem_of_pending. Qed.

(** In the rebuilt table a pending task that is not cancelled is bound to the target. *)
Lemma rebuilt_bound db contract now staged t' :
  t' ∈ rebuilt_tasks db contract now staged →
  is_pending_status (t_status t') = true → t_cancelled t' = None → t_contract t' = contract.
Proof.
  intros [(t & Ht & ->)|(x & Hx & ->)]%elem_of_rebuilt; [|done].
  destruct (cancel_all_spec now (pending_intents db contract) t)
    as (_ & _ & -> & -> & _ & _ & _ & Hcancel).
  intros Hp [Hnc Hni]%Hcancel. destruct (str_eqb (t_contract t) contract) eqn:Eq;
    [by apply str_eqb_eq|].
  destruct Hni. apply map_t_id_pending; [done|]. unfold retired_by. rewrite Hp, Eq, Hnc. done.
Qed.

(** ** When the machine succeeds *)

Lemma update_authority_total db f :
  authority_check (f (db_authority db)) = true →
  update_authority db f = Ok (with_authority db (f (db_authority db))).
Proof. unfold update_authority. by intros ->. Qed.

Lemma transition_check_with t phase retry campaign now completed :
  transition_check t = true → tr_created_at t ≤ now →
  completed = tr_completed_at t ∨ completed = Some now →
  transition_check (tr_with t phase (tr_failure_class t) retry campaign now completed) = true.
Proof.
  unfold transition_check.
  cbn [tr_with tr_target_contract_id tr_desired_product_version tr_desired_schema_version
    tr_source_visible_epoch tr_attempt tr_claim_fence_epoch tr_running_task_count
    tr_queued_task_count tr_failure_class tr_created_at tr_updated_at tr_completed_at].
  rewrite !andb_true_iff. intros Hck Hnow Hcompleted. destruct_and! Hck.
  repeat split; first [assumption|lia|idtac].
  destruct Hcompleted as [->| ->]; [assumption|lia].
Qed.

Lemma update_with_total db id t g1 g3 g4 now g6 :
  db_transitions db !! id = Some t → transition_check t = true → tr_created_at t ≤ now →
  g6 t = tr_completed_at t ∨ g6 t = Some now →
  ∃ t', update_transition db id (λ t, tr_with t (g1 t) (tr_failure_class t) (g3 t) (g4 t) now (g6 t))
        = Ok (with_transitions db (<[id := t']> (db_transitions db)))
        ∧ transition_check t' = true ∧ tr_created_at t' = tr_created_at t.
Proof.
  intros Ht Hck Hnow Hg. unfold update_transition. rewrite Ht. rewrite transition_check_with by done.
  eexists. split; [done|]. by rewrite transition_check_with.
Qed.

(** The rows a replacement needs. *)
Definition root_valid (path : str) (r : RootRow) : bool :=
  negb (is_empty (trim (r_requested_root_path r))) && negb (is_empty (trim path))
  && match r_root_kind r, r_root_preset r with
     | RootExplicit, None | RootPreset, Some _ => true
     | _, _ => false
     end
  && match r_scan_budget_kind r, r_scan_budget_limit r with
     | None, None | Some _, Some _ => true
     | _, _ => false
     end.

Lemma authorized_scope_valid db path id now r :
  db_roots db !! path = Some r → root_valid path r = true →
  ∃ s, authorized_root_task_scope db path id now = Ok s
       ∧ validate_import_scan_scope s = Ok tt ∧ s_import_task_id s = id
       ∧ s_canonical_root_path s = path.
Proof.
  intros Hr Hv. unfold authorized_root_task_scope. rewrite Hr. eexists. split; [done|].
  unfold root_valid in Hv. bools. unfold validate_import_scan_scope.
  cbn [s_requested_root_path s_canonical_root_path s_root_kind s_root_preset s_scan_budget_kind
    s_scan_budget_limit s_scan_budget_observed s_scan_budget_exhausted s_import_task_id].
  destruct (is_empty (trim (r_requested_root_path r))); [done|].
  destruct (is_empty (trim path)); [done|].
  destruct (r_root_kind r), (r_root_preset r); try done;
    destruct (r_scan_budget_kind r), (r_scan_budget_limit r); done.
Qed.

Lemma existsb_str_false {A} (f : A → str) s l :
  s ∉ map f l → existsb (λ x, str_eqb (f x) s) l = false.
Proof.
  intros Hn. apply not_true_iff_false. rewrite existsb_exists. intros (x & Hx & Heq).
  apply str_eqb_eq in Heq. apply Hn, list_elem_of_fmap. exists x. by rewrite list_elem_of_In.
Qed.

(** A staged replacement the store accepts. *)
Definition acceptable (contract : str) (now : Z) (x : str * (TaskRow * ImportScanScope)) : Prop :=
  x.2.1 = replacement_task x.1 contract now ∧ validate_import_scan_scope x.2.2 = Ok tt
  ∧ s_import_task_id x.2.2 = t_id x.2.1 ∧ s_canonical_root_path x.2.2 = x.1.

Lemma insert_replacement_total db d now x :
  contract_wf d → contracts_ok db → db_contracts db !! contract_id d = Some (contract_parts d) →
  is_unpublished_rebuild db = false → acceptable (contract_id d) now x →
  t_id x.2.1 ∉ map t_id (db_tasks db) → t_id x.2.1 ∉ map s_import_task_id (db_scopes db) →
  ∃ db', insert_import_task_with_scan_scope db x.2.1 x.2.2 d = Ok db'
         ∧ db_scopes db' = db_scopes db ++ [x.2.2].
Proof.
  intros Hwf Hcs Hc Hun (Htask & Hval & Hid & Hroot) Hft Hfs.
  unfold insert_import_task_with_scan_scope. rewrite Hval. cbn [result_bind].
  rewrite (proj2 (str_eqb_eq _ _)) by done. cbn [negb].
  rewrite (proj2 (str_eqb_eq (s_canonical_root_path _) _)) by (rewrite Hroot, Htask; done). cbn [negb].
  unfold insert_import_task_in_connection.
  assert (validate_import_task x.2.1 = Ok tt) as ->.
  { rewrite Htask. unfold validate_import_task. cbn. by rewrite Z.ltb_irrefl. }
  cbn [result_bind]. rewrite bool_decide_eq_true_2 by (by rewrite Htask). cbn [negb].
  rewrite insert_contract_total by (try done; intros p Hp; congruence). cbn [result_bind].
  rewrite insert_id by done. unfold ensure_import_task_contract_allowed.
  replace (is_unpublished_rebuild _) with (is_unpublished_rebuild db) by done. rewrite Hun.
  cbn [andb result_bind]. cbn [db_tasks with_contracts]. rewrite existsb_str_false by done.
  cbn [result_bind]. cbn [db_scopes upsert_authorized_import_root with_roots with_tasks with_contracts].
  rewrite Hid, existsb_str_false by done. by eexists.
Qed.

Lemma insert_replacements_total db d now staged :
  contract_wf d → contracts_ok db → db_contracts db !! contract_id d = Some (contract_parts d) →
  is_unpublished_rebuild db = false → Forall (acceptable (contract_id d) now) staged →
  NoDup (map (λ x, t_id x.2.1) staged) →
  (∀ x, x ∈ staged → t_id x.2.1 ∉ map t_id (db_tasks db)) →
  (∀ x, x ∈ staged → t_id x.2.1 ∉ map s_import_task_id (db_scopes db)) →
  ∃ db', insert_replacements db d staged = Ok db'.
Proof.
  intros Hwf. revert db; induction staged as [|x staged IH]; intros db Hcs Hc Hun Hall Hnd Hft Hfs.
  - by eexists.
  - apply Forall_cons in Hall as [Hx Hall]. apply NoDup_cons in Hnd as [Hnx Hnd].
    destruct (insert_replacement_total db d now x) as (db1 & Hi & Hs1); try done.
    { apply Hft. set_solver. } { apply Hfs. set_solver. }
    destruct (insert_with_scope_frame _ _ _ _ _ Hc Hi) as (Hf & _ & Ht1).
    cbn [insert_replacements]. destruct x as [root [task scope]]. cbn [fst snd] in *.
    rewrite Hi. cbn [result_bind]. unfold frame in Hf. simplify_eq. apply IH; try done.
    + unfold contracts_ok in *. by match goal with Heq : db_contracts db1 = _ |- _ => rewrite Heq end.
    + congruence.
    + unfold is_unpublished_rebuild in *. congruence.
    + intros y Hy. rewrite Ht1, map_app. cbn. rewrite elem_of_app, list_elem_of_singleton.
      intros [Hin|Heq]; [by apply (Hft y); [set_solver|]|].
      apply Hnx. rewrite <- Heq. by apply (list_elem_of_fmap_2 (λ x, t_id x.2.1)).
    + intros y Hy. rewrite Hs1, map_app. cbn. rewrite elem_of_app, list_elem_of_singleton.
      destruct Hx as (_ & _ & Hid & _). cbn in Hid. rewrite Hid.
      intros [Hin|Heq]; [by apply (Hfs y); [set_solver|]|].
      apply Hnx. rewrite <- Heq. by apply (list_elem_of_fmap_2 (λ x, t_id x.2.1)).
Qed.

(** What the machine needs from the table of queued intents. *)
Record intents_movable (db : Db) (contract : str) (now : Z) : Prop := {
  im_roots : ∀ t, t ∈ pending_intents db contract →
    ∃ r, db_roots db !! t_root_path t = Some r ∧ root_valid (t_root_path t) r = true;
  im_fresh : ∀ t, t ∈ pending_intents db contract →
    (replacement_task_id (t_root_path t) contract now ∉ map t_id (db_tasks db))
    ∧ (replacement_task_id (t_root_path t) contract now ∉ map s_import_task_id (db_scopes db));
  im_distinct : ∀ t1 t2, t1 ∈ pending_intents db contract → t2 ∈ pending_intents db contract →
    (replacement_task_id (t_root_path t1) contract now
     = replacement_task_id (t_root_path t2) contract now) → t_root_path t1 = t_root_path t2;
}.

Lemma intents_movable_frame db db' contract now :
  db_tasks db' = db_tasks db → db_roots db' = db_roots db → db_scopes db' = db_scopes db →
  intents_movable db contract now → intents_movable db' contract now.
Proof.
  intros Ht Hr Hs [I1 I2 I3]. split; rewrite ?(pending_intents_tasks db), ?Ht, ?Hr, ?Hs by done; done.
Qed.

Lemma retire_fold_scopes contract now pending db :
  db_scopes (fold_left (λ db t, retire_task db contract now t) pending db) = db_scopes db.
Proof.
  revert db; induction pending as [|t pending IH]; intros db; cbn [fold_left]; [done|].
  by rewrite IH.
Qed.

Lemma NoDup_map_inj {A B} (f : A → B) (l : list A) :
  (∀ x y, x ∈ l → y ∈ l → f x = f y → x = y) → NoDup l → NoDup (map f l).
Proof.
  induction l as [|x l IH]; intros Hinj Hnd; cbn; [constructor|].
  apply NoDup_cons in Hnd as [Hx Hnd]. apply NoDup_cons. split.
  - intros (y & Hy & Hin)%list_elem_of_fmap. apply Hx.
    rewrite (Hinj x y); [done|set_solver..|done].
  - apply IH; [|done]. intros y z Hy Hz. apply Hinj; set_solver.
Qed.

Lemma staged_acceptable db d now staged :
  intents_movable db (contract_id d) now →
  stage_replacements db (contract_id d) now (pending_intents db (contract_id d)) [] = Ok staged →
  Forall (acceptable (contract_id d) now) staged ∧ NoDup (map (λ x, t_id x.2.1) staged)
  ∧ ∀ x, x ∈ staged → (t_id x.2.1 ∉ map t_id (db_tasks db))
                      ∧ (t_id x.2.1 ∉ map s_import_task_id (db_scopes db)).
Proof.
  intros [I1 I2 I3] Hst. apply stage_spec in Hst as [[Hsort Hw] Hk]; [|apply staged_wf_nil].
  assert (∀ root task scope, (root, (task, scope)) ∈ staged →
    task = replacement_task root (contract_id d) now
    ∧ ∃ t, t ∈ pending_intents db (contract_id d) ∧ t_root_path t = root) as Hroot.
  { intros root task scope Hin. split; [by apply Hw in Hin as [-> _]|].
    assert (root ∈ staged.*1) as Hr by (by apply (list_elem_of_fmap_2 fst) in Hin).
    apply Hk in Hr as [Hnil%elem_of_nil|Hr]; [done|].
    apply list_elem_of_fmap in Hr as (t & -> & Ht). by exists t. }
  split_and!.
  - apply Forall_forall. intros [root [task scope]] Hin.
    destruct (Hroot _ _ _ Hin) as (-> & t & Ht & <-). destruct (I1 t Ht) as (r & Hr & Hv).
    destruct (authorized_scope_valid db _ (replacement_task_id (t_root_path t) (contract_id d) now)
                now _ Hr Hv) as (s & Hs & Hval & Hid & Hpath).
    apply Hw in Hin as [_ Hs']. assert (s = scope) as -> by congruence. by split_and!.
  - rewrite (map_ext_in _ (λ x, replacement_task_id x.1 (contract_id d) now)).
    2:{ intros [root [task scope]] Hin%list_elem_of_In. by destruct (Hroot _ _ _ Hin) as (-> & _). }
    rewrite <- (map_map fst (λ r, replacement_task_id r (contract_id d) now)).
    apply NoDup_map_inj; [|by apply ssorted_NoDup].
    intros r1 r2 H1' H2' Heq. apply Hk in H1' as [?%elem_of_nil|H1']; [done|].
    apply Hk in H2' as [?%elem_of_nil|H2']; [done|].
    apply list_elem_of_fmap in H1' as (t1 & -> & Ht1). apply list_elem_of_fmap in H2' as (t2 & -> & Ht2).
    by apply I3.
  - intros [root [task scope]] Hin. destruct (Hroot _ _ _ Hin) as (-> & t & Ht & <-). by apply I2.
Qed.

Lemma cancel_all_ids now pending l : map t_id (map (cancel_all now pending) l) = map t_id l.
Proof.
  rewrite map_map. apply map_ext. intros t. by destruct (cancel_all_spec now pending t) as [-> _].
Qed.

Lemma retire_total db d now :
  contract_wf d → contracts_ok db → db_contracts db !! contract_id d = Some (contract_parts d) →
  is_unpublished_rebuild db = false → intents_movable db (contract_id d) now →
  ∃ db', retire_and_rebuild_queued_intents db d now = Ok db'.
Proof.
  intros Hwf Hcs Hc Hun Him. unfold retire_and_rebuild_queued_intents.
  destruct (stage_total db (contract_id d) now (pending_intents db (contract_id d)) []) as [staged Hst].
  { intros t Ht. destruct (im_roots _ _ _ Him t Ht) as (r & Hr & _). by eexists. }
  rewrite Hst. cbn [result_bind].
  destruct (staged_acceptable db d now staged Him Hst) as (Hacc & Hnd & Hfr).
  pose proof (retire_fold_frame (contract_id d) now (pending_intents db (contract_id d)) db) as Hf.
  unfold frame in Hf. injection Hf as Hf1 Hf2 Hf3 Hf4 Hf5 Hf6 Hf7 Hf8 Hf9.
  apply (insert_replacements_total _ _ now); try done.
  - unfold contracts_ok. by rewrite Hf1.
  - by rewrite Hf1.
  - unfold is_unpublished_rebuild. by rewrite Hf6.
  - intros x Hx. rewrite retire_fold_tasks, cancel_all_ids. by apply Hfr.
  - intros x Hx. rewrite retire_fold_scopes. by apply Hfr.
Qed.

Lemma authority_check_parts a :
  authority_check a = true → 0 ≤ a_claim_fence_epoch a ∧ 0 ≤ a_updated_at a.
Proof. unfold authority_check. intros Hck. bools. lia. Qed.

Lemma quiesced_check a now :
  authority_check a = true → is_Some (a_active_transition_id a) → 0 ≤ now →
  authority_check
    (MkRow (a_health_state a) (a_health_reason a) (Some WorkersQuiesced) (a_active_transition_id a)
       (a_claim_fence_epoch a) (a_committed_contract_id a) (a_desired_contract_id a)
       (a_last_completed_transition_id a) now) = true.
Proof.
  unfold authority_check. cbn. intros Hck [id Hid] Hnow. rewrite Hid in *. bools.
  rewrite !andb_true_iff. split_and!; [lia|lia|].
  by destruct (a_health_state a), (a_health_reason a), (a_transition_phase a) as [[]|].
Qed.

(** A commit of the target in a quiet store. *)
Lemma commit_total db row d now t :
  contract_wf d → rows_ok db → authority_check (db_authority db) = true → 0 ≤ now →
  db_contracts db !! contract_id d = Some (contract_parts d) →
  is_Some (a_active_transition_id (db_authority db)) →
  db_transitions db !! row_transition_id row = Some t → tr_created_at t ≤ now →
  running_count db = 0 → is_unpublished_rebuild db = false →
  intents_movable db (contract_id d) now →
  ∃ db' t', commit_target_contract db row d now = Ok db'
            ∧ db_transitions db' !! row_transition_id row = Some t'
            ∧ transition_check t' = true ∧ tr_created_at t' = tr_created_at t
            ∧ 0 ≤ a_claim_fence_epoch (db_authority db').
Proof.
  intros Hwf Hr Hck Hnow Hc [id Hact] Ht Hcr Hrun Hun Him. unfold commit_target_contract.
  rewrite Hrun. cbn [Z.ltb Z.compare]. destruct (retire_total db d now) as [db1 Hret]; try done.
  { apply Hr. }
  rewrite Hret. cbn [result_bind]. destruct (retire_spec db d now db1 Hc Hret) as [Hf _].
  unfold frame in Hf. injection Hf as Hf1 Hf2 Hf3 Hf4 Hf5 Hf6 Hf7 Hf8 Hf9.
  destruct (update_with_total (with_active_contract db1 (Some (contract_id d))) (row_transition_id row) t
    (λ _, TargetCommitted) tr_retryable tr_campaign_id now tr_completed_at) as (t' & Hu & Hck' & Hcr').
  { cbn. by rewrite Hf3. } { by destruct (ro_rows _ Hr _ _ Ht). } { done. } { by left. }
  unfold set_phase. rewrite Hu. cbn [result_bind].
  destruct (authority_check_parts _ Hck). rewrite update_authority_total.
  - do 2 eexists. split; [reflexivity|]. cbn. rewrite lookup_insert_eq, Hf2. done.
  - unfold authority_check. cbn. rewrite Hf2, Hact. cbn. rewrite !andb_true_iff. lia.
Qed.

Lemma finish_total db row d now t :
  db_transitions db !! row_transition_id row = Some t → transition_check t = true →
  tr_created_at t ≤ now → 0 ≤ now → 0 ≤ a_claim_fence_epoch (db_authority db) →
  ∃ r, finish_transition db row PdfRootRescan d now = Ok r.
Proof.
  intros Ht Hck Hcr Hnow Hep. unfold finish_transition, materialize_campaign.
  cbn [campaign_domain_for is_unsupported].
  generalize (new_digest_id [utf8 (lit "reprocessing-campaign"); utf8 (row_transition_id row);
    utf8 (lit "pdf_root_rescan")]); intros cid.
  set (db1 := match db_campaigns db !! cid with Some _ => db | None => _ end).
  assert (db_transitions db1 = db_transitions db ∧ db_authority db1 = db_authority db) as [Ht1 Ha1].
  { subst db1. by destruct (db_campaigns db !! cid). }
  clearbody db1.
  destruct (update_with_total db1 (row_transition_id row) t tr_phase tr_retryable (λ _, Some cid) now
    tr_completed_at) as (t2 & Hu2 & Hck2 & Hcr2); [by rewrite Ht1|done|done|by left|].
  rewrite Hu2. cbn [result_bind].
  set (db2 := with_jobs _ _).
  assert (db_transitions db2 !! row_transition_id row = Some t2) as Ht2
    by (cbn; by rewrite lookup_insert_eq).
  destruct (update_with_total db2 (row_transition_id row) t2 (λ _, WriterReady) tr_retryable tr_campaign_id
    now tr_completed_at) as (t3 & Hu3 & Hck3 & Hcr3); [done|done|lia|by left|].
  unfold set_phase. rewrite Hu3. cbn [result_bind].
  destruct (update_with_total (with_transitions db2 (<[row_transition_id row := t3]> (db_transitions db2)))
    (row_transition_id row) t3 tr_phase tr_retryable tr_campaign_id now (λ _, Some now))
    as (t4 & Hu4 & _ & _); [cbn; by rewrite lookup_insert_eq|done|lia|by right|].
  rewrite Hu4. cbn [result_bind]. unfold set_authority_ready_after_transition.
  rewrite update_authority_total; [by eexists|]. unfold authority_check. cbn. rewrite Ha1.
  rewrite !andb_true_iff. lia.
Qed.

Lemma advance_fenced_total db row delta d now t :
  contract_wf d → rows_ok db → authority_check (db_authority db) = true → 0 ≤ now →
  db_contracts db !! contract_id d = Some (contract_parts d) →
  is_Some (a_active_transition_id (db_authority db)) →
  db_transitions db !! row_transition_id row = Some t → tr_created_at t ≤ now →
  row_phase row = ClaimsFenced → running_count db = 0 → is_unpublished_rebuild db = false →
  intents_movable db (contract_id d) now → delta_strategy delta = PdfRootRescan →
  ∃ r, advance_existing_transition db row delta d now = Ok r.
Proof.
  intros Hwf Hr Hck Hnow Hc Hact Ht Hcr Hp Hrun Hun Him Hdelta. unfold advance_existing_transition.
  rewrite Hp. cbn [result_bind]. rewrite Hrun. cbn [Z.ltb Z.compare].
  destruct (ro_rows _ Hr _ _ Ht) as [Hckt _].
  destruct (update_with_total db (row_transition_id row) t (λ _, WorkersQuiesced) tr_retryable
    tr_campaign_id now tr_completed_at) as (t1 & Hu1 & Hck1 & Hcr1); [done|done|done|by left|].
  unfold set_phase at 1. rewrite Hu1. cbn [result_bind].
  pose proof (rows_ok_update_transition _ _ _ _ (tr_with_identity _ _ _ _ _ _) Hr Hu1) as Hr1.
  unfold set_authority_phase. rewrite update_authority_total by (by apply quiesced_check).
  cbn [result_bind]. set (db2 := with_authority _ _).
  destruct (commit_total db2 row d now t1) as (db3 & t3 & Hcm & Ht3 & Hck3 & Hcr3 & Hep3); try done.
  - apply rows_ok_authority; [done|]. intros c Hx. apply (ro_refs _ Hr). cbn in Hx. tauto.
  - by apply quiesced_check.
  - cbn. by rewrite lookup_insert_eq.
  - lia.
  - by apply (intents_movable_frame db).
  - rewrite Hcm. cbn [result_bind]. rewrite Hdelta. apply (finish_total _ _ _ _ t3); try done. lia.
Qed.

Lemma fence_total db row now t :
  rows_ok db → db_transitions db !! row_transition_id row = Some t → tr_created_at t ≤ now → 0 ≤ now →
  row_claim_fence_epoch row = tr_claim_fence_epoch t →
  ∃ db' t', fence_claims db row now = Ok db' ∧ db_transitions db' !! row_transition_id row = Some t'
            ∧ tr_created_at t' = tr_created_at t ∧ authority_check (db_authority db') = true
            ∧ db_scopes db' = db_scopes db ∧ db_projection db' = db_projection db.
Proof.
  intros Hr Ht Hcr Hnow Hep. destruct (ro_rows _ Hr _ _ Ht) as (Hck & [_ Hepb] & _).
  destruct (update_with_total db (row_transition_id row) t (λ _, ClaimsFenced) tr_retryable
    tr_campaign_id now tr_completed_at) as (t1 & Hu1 & Hck1 & Hcr1); [done|done|done|by left|].
  unfold fence_claims, set_phase. rewrite Hu1. cbn [result_bind].
  rewrite Hep. destruct (i64_MAX <? _) eqn:Eb; [lia|].
  match goal with |- context [update_authority _ ?f] => set (g := f) end.
  assert (authority_check (g (db_authority db)) = true) as Hg
    by (unfold authority_check; cbn; rewrite !andb_true_iff; lia).
  rewrite update_authority_total by done. do 2 eexists. split; [reflexivity|].
  cbn. rewrite lookup_insert_eq. by split_and!.
Qed.

(** An open transition in a quiet store goes through. *)
Lemma advance_total db id t delta d now :
  contract_wf d → db_ok db → 0 ≤ now →
  db_contracts db !! contract_id d = Some (contract_parts d) →
  a_active_transition_id (db_authority db) = Some id →
  db_transitions db !! id = Some t → tr_created_at t ≤ now →
  running_count db = 0 → is_unpublished_rebuild db = false →
  intents_movable db (contract_id d) now → delta_strategy delta = PdfRootRescan →
  ∃ db', advance_existing_transition db (row_of id t) delta d now = Ok (db', OutcomeTargetCommitted).
Proof.
  intros Hwf Hok Hnow Hc Hact Ht Hcr Hrun Hun Him Hdelta.
  assert (∃ r, advance_existing_transition db (row_of id t) delta d now = Ok r) as [[db' o] Hr].
  { destruct (ao_active _ (proj2 Hok) _ Hact) as (t2 & Ht2 & Hph & Hopen & Hd).
    assert (t2 = t) as -> by congruence. destruct Hopen as [Hopen|Hopen].
    - rewrite advance_observed by done.
      destruct (fence_total db (row_of id t) now t) as (db1 & t1 & Hf & Ht1 & Hcr1 & Hck1 & Hsc1 & Hp1);
        [apply Hok|done..|].
      rewrite Hf. cbn [result_bind].
      apply (fence_spec _ _ _ _ t) in Hf as (Hok1 & Hc1 & Htk1 & Hr1 & Hact1 & _); [|apply Hok|done|done].
      apply (advance_fenced_total _ _ _ _ _ t1); try done.
      + apply Hok1.
      + congruence.
      + lia.
      + by rewrite (running_count_tasks db).
      + unfold is_unpublished_rebuild. by rewrite Hp1.
      + by apply (intents_movable_frame db).
    - apply (advance_fenced_total _ _ _ _ _ t); try done; apply Hok. }
  exists db'. destruct (advance_spec _ _ _ _ _ _ _ _ Hok Hc Hact Ht Hr) as [_ [(_ & Hp & _)|[-> _]]];
    [lia|done].
Qed.

Lemma open_total db id source d pv sv queued failure now :
  db_transitions db !! id = None → digest_text id = true → contract_wf d →
  authority_check (db_authority db) = true → a_claim_fence_epoch (db_authority db) < i64_MAX → 0 ≤ now →
  0 < Z.of_nat (length pv) ≤ 64 → 34 ≤ sv → 0 ≤ default 0 (p_visible_epoch (db_projection db)) → 0 ≤ queued →
  failure = None →
  ∃ db' t, open_transition db id source d pv sv queued failure now = Ok (db', row_of id t)
           ∧ db_transitions db' !! id = Some t ∧ tr_created_at t = now
           ∧ db_scopes db' = db_scopes db ∧ db_projection db' = db_projection db.
Proof.
  intros Hn Hd Hwf Hck Hep Hnow Hpv Hsv Hve Hq ->. destruct (authority_check_parts _ Hck) as [Hep0 _].
  unfold open_transition, projection_identity, next_claim_fence_epoch.
  destruct (_ <? 0) eqn:Eneg; [lia|]. cbn [result_bind].
  assert (u64_saturating_add (a_claim_fence_epoch (db_authority db)) 1
          = a_claim_fence_epoch (db_authority db) + 1) as ->
    by (unfold u64_saturating_add, u64_MAX, i64_MAX in *; lia).
  destruct (i64_MAX <? _) eqn:Ebig; [lia|]. unfold insert_transition. rewrite Hn, Hd. cbn [andb].
  pose proof (running_count_nonneg db). pose proof (contract_wf_digest d Hwf).
  match goal with |- context [transition_check ?x] => set (t := x) end.
  assert (transition_check t = true) as ->.
  { unfold transition_check. cbn [t new_transition_record tr_target_contract_id
      tr_desired_product_version tr_desired_schema_version tr_source_visible_epoch tr_attempt
      tr_claim_fence_epoch tr_running_task_count tr_queued_task_count tr_failure_class tr_created_at
      tr_updated_at tr_completed_at]. rewrite !andb_true_iff. repeat split; first [assumption|lia]. }
  cbn [result_bind]. unfold set_authority_transitioning. rewrite Ebig.
  rewrite update_authority_total by (unfold authority_check; cbn; rewrite !andb_true_iff; lia).
  cbn [result_bind]. eexists _, t. split; [reflexivity|]. cbn. by rewrite lookup_insert_eq.
Qed.

(** ** The writer authority *)

Lemma stored_contract_total db id :
  rows_ok db → is_Some (db_contracts db !! id) →
  contract_id_from_str id = Ok id
  ∧ ∃ c, import_processing_contract_in_connection db id = Ok (Some c) ∧ contract_id c = id.
Proof.
  intros Hr [p Hp]. destruct (contract_lookup_ok db id p) as (c & Hc & Hwf & Hid & _);
    [apply Hr|done|]. split; [|by exists c].
  rewrite <- Hid. by apply digest_text_from_str, contract_wf_digest.
Qed.

Lemma latch_total db cond f :
  (cond (db_authority db) = true → authority_check (f (db_authority db)) = true) →
  ∃ r, update_authority_where db cond f = Ok r.
Proof.
  unfold update_authority_where. destruct (cond _); [|by eexists].
  intros Hck. rewrite update_authority_total by auto. by eexists.
Qed.

Lemma cleared_check db now :
  authority_ok db → authority_check (cleared_health (db_authority db) now) = true.
Proof.
  intros [A1 A2 A3]. destruct (authority_check_parts _ A1). unfold cleared_health.
  destruct (a_active_transition_id (db_authority db)) as [id|] eqn:Eid.
  - destruct (A3 id eq_refl) as (t & _ & Hph & Hopen & _). unfold authority_check. cbn. rewrite Hph, Eid.
    rewrite !andb_true_iff. split_and!; try lia; destruct Hopen as [Hq|Hq]; by rewrite ?Hq.
  - unfold authority_check. cbn. rewrite Eid, !andb_true_iff. split_and!; done || lia.
Qed.

Lemma closed_check a s r now :
  authority_check a = true → s = Store.Unavailable ∨ s = Store.Blocked →
  authority_check (set_health a s (Some r) (Z.max (a_updated_at a) now)) = true.
Proof.
  intros Hck Hs. destruct (authority_check_parts _ Hck). unfold authority_check. cbn.
  rewrite !andb_true_iff. destruct Hs as [-> | ->]; split_and!; done || lia.
Qed.

Lemma reachable_authority_wf db : reachable db → authority_wf (writer_authority_snapshot db).
Proof.
  intros [_ [A1 A2 A3]]%reachable_ok.
  unfold authority_wf, writer_authority_snapshot. cbn [health_state health_reason authority_phase].
  unfold authority_check in A1.
  destruct (a_health_state (db_authority db)); bools;
    [by destruct (a_health_reason _)| |by destruct (a_health_reason _)..].
  split; [by destruct (a_transition_phase _)|by apply A2].
Qed.

(** C13: In every reachable store the authority row is one the daemon's health
    model accepts, a transition under way has its row, still observed or fenced, with
    the phase of the authority and the desired contract as its target, the committed
    contract can be loaded, and every latch statement is accepted by the row checks. *)
Theorem writer_authority_reachable db now :
  reachable db →
  authority_wf (writer_authority_snapshot db)
  ∧ (∀ id, a_active_transition_id (db_authority db) = Some id →
       ∃ t, db_transitions db !! id = Some t
            ∧ a_transition_phase (db_authority db) = Some (tr_phase t) ∧ open_phase (tr_phase t)
            ∧ a_desired_contract_id (db_authority db) = Some (tr_target_contract_id t))
  ∧ (∀ id, a_committed_contract_id (db_authority db) = Some id →
       ∃ c, active_contract db = Ok (Some c) ∧ contract_id c = id)
  ∧ (∃ r, mark_writer_runtime_unavailable db now = Ok r)
  ∧ (∃ r, reconcile_writer_runtime_availability db true now = Ok r)
  ∧ (∃ r, mark_writer_unsupported_transition db now = Ok r)
  ∧ (∃ r, clear_writer_unsupported_transition db now = Ok r)
  ∧ (∃ r, mark_writer_blocked_by_running_owner db now = Ok r)
  ∧ (∃ r, clear_writer_blocked_by_running_owner db now = Ok r).
Proof.
  intros Hdb. pose proof (reachable_ok _ Hdb) as Hok. pose proof Hok as [Hr [A1 A2 A3]].
  pose proof (cleared_check db now (proj2 Hok)) as Hcl. destruct (authority_check_parts _ A1).
  split_and!; [|done| |..].
  - by apply reachable_authority_wf.
  - intros id Hid. destruct (stored_contract_total db id) as (Hs & c & Hc & Hcid);
      [done|apply (ro_refs _ Hr); by left|].
    exists c. unfold active_contract. rewrite Hid, Hs. done.
  - eexists. apply update_authority_total, closed_check; auto.
  - apply latch_total. done.
  - apply latch_total. intros _. apply closed_check; auto.
  - apply latch_total. intros Hx. unfold authority_check. cbn. bools. rewrite !andb_true_iff.
    split_and!; done || lia.
  - eexists. apply update_authority_total, closed_check; auto.
  - apply latch_total. done.
Qed.

(** C27: While a transition is under way no worker can claim a task, and no call of
    the store, from the start of the transition to its end, adds a running task; calls
    that are not modelled are assumed not to start tasks ([step_other]). *)
Theorem transition_fences_claims call db db' observed now :
  reachable db → is_Some (a_active_transition_id (db_authority db)) →
  claim_observed_import_task_for_worker db observed now = (db, None)
  ∧ (store_step call db db' → is_Some (a_active_transition_id (db_authority db')) →
     running_count db' ≤ running_count db).
Proof.
  intros Hok%reachable_ok Hact. split.
  - apply claim_spec; [done|]. intros Hr%ready_no_transition; [|done]. rewrite Hr in Hact.
    by destruct Hact.
  - intros Hs. by apply (store_step_ok _ _ _ Hs Hok).
Qed.

(** C8: A call that reports the target committed found no running task; it leaves
    writers ready on the desired contract with no transition under way and the
    transition's row complete; no task is lost or rebound; every pending task that is not
    cancelled is bound to the desired contract; and each task it retired is cancelled
    and has a queued replacement for the same root that was not there before. *)
Theorem target_commit_moves_intents db d now db' :
  reachable db →
  complete_online_writer_transition db d now = (db', Ok OutcomeTargetCommitted) →
  running_count db = 0
  ∧ public_writer_claims_admitted db' = true
  ∧ a_committed_contract_id (db_authority db') = Some (contract_id d)
  ∧ (∃ id t, a_last_completed_transition_id (db_authority db') = Some id
             ∧ db_transitions db' !! id = Some t ∧ tr_phase t = WriterReady
             ∧ tr_completed_at t = Some now)
  ∧ (∀ t, t ∈ db_tasks db → ∃ t', t' ∈ db_tasks db' ∧ t_id t' = t_id t ∧ t_root_path t' = t_root_path t
          ∧ t_status t' = t_status t ∧ t_contract t' = t_contract t)
  ∧ (∀ t', t' ∈ db_tasks db' → is_pending_status (t_status t') = true → t_cancelled t' = None →
          t_contract t' = contract_id d)
  ∧ (∀ t, t ∈ db_tasks db → retired_by (contract_id d) t = true →
          (∃ t', t' ∈ db_tasks db' ∧ t_id t' = t_id t ∧ is_Some (t_cancelled t'))
          ∧ replacement_task (t_root_path t) (contract_id d) now ∈ db_tasks db').
Proof.
  intros Hok%reachable_ok Hx.
  destruct (complete_outcome _ _ _ _ _ Hok Hx) as [_ [id [C1 C2 C3 C4 (staged & Hst & Htk)]]].
  apply stage_spec in Hst as Hsp; [|apply staged_wf_nil]. destruct Hsp as [[_ Hw] Hk].
  split_and!.
  - done.
  - unfold public_writer_claims_admitted. by rewrite C2.
  - by rewrite C2.
  - destruct C4 as (t & Ht & Hph & Hcm). exists id, t. by rewrite C2.
  - intros t Ht. exists (cancel_all now (pending_intents db (contract_id d)) t).
    rewrite Htk, elem_of_rebuilt. split; [left; by exists t|].
    destruct (cancel_all_spec now (pending_intents db (contract_id d)) t)
      as (-> & -> & -> & -> & _). done.
  - intros t'. rewrite Htk. apply rebuilt_bound.
  - intros t Ht Hret. split.
    + exists (cancel_all now (pending_intents db (contract_id d)) t).
      destruct (cancel_all_spec now (pending_intents db (contract_id d)) t)
        as (Hid & _ & _ & _ & _ & _ & _ & Hcn).
      split_and!; [rewrite Htk, elem_of_rebuilt; left; by exists t|done|].
      destruct (t_cancelled (cancel_all _ _ _)); [by eexists|].
      destruct (proj1 Hcn eq_refl) as [_ []]. by apply map_t_id_pending.
    + assert (t_root_path t ∈ staged.*1) as Hin.
      { apply Hk. right. apply list_elem_of_fmap. exists t. by rewrite elem_of_pending. }
      apply list_elem_of_fmap in Hin as ([root [task scope]] & Hroot & Hin). cbn in Hroot.
      rewrite Htk, elem_of_rebuilt. right. exists (root, (task, scope)). split; [done|].
      apply Hw in Hin as [-> _]. cbn. by rewrite Hroot.
Qed.

(** ** Progress *)

(** A quiet store in which the delta is supported and the queued intents can move. *)
Record handover_ready (db : Db) (d : ImportProcessingContract) (now : Z) : Prop := {
  hr_contract : contract_wf d;
  hr_conflict : ∀ p, db_contracts db !! contract_id d = Some p → p = contract_parts d;
  hr_projection : projection_is_ready_with_generation db = true;
  hr_epoch : 0 ≤ default 0 (p_visible_epoch (db_projection db));
  hr_quiet : running_count db = 0;
  hr_clock : 0 ≤ now;
  hr_intents : intents_movable db (contract_id d) now;
  hr_transition :
    match a_active_transition_id (db_authority db) with
    | Some id =>
        ∃ t s c, db_transitions db !! id = Some t ∧ tr_target_contract_id t = contract_id d
          ∧ tr_created_at t ≤ now ∧ tr_source_contract_id t = Some s
          ∧ import_processing_contract_in_connection db s = Ok (Some c)
          ∧ delta_strategy (delta_between (Some c) d) = PdfRootRescan
    | None =>
        (a_claim_fence_epoch (db_authority db) < i64_MAX)
        ∧ db_transitions db !! new_digest_id [utf8 (lit "writer-contract-transition");
                                              utf8 (contract_id d); to_le_bytes 8 now] = None
        ∧ ∃ c, active_contract db = Ok (Some c)
               ∧ delta_strategy (delta_between (Some c) d) = PdfRootRescan
    end;
}.

Lemma contract_lookup_mono db d id c :
  (∀ p, db_contracts db !! contract_id d = Some p → p = contract_parts d) →
  import_processing_contract_in_connection db id = Ok (Some c) →
  import_processing_contract_in_connection
    (with_contracts db (<[contract_id d := contract_parts d]> (db_contracts db))) id = Ok (Some c).
Proof.
  intros Hd. unfold import_processing_contract_in_connection. cbn [db_contracts with_contracts].
  destruct (decide (id = contract_id d)) as [->|Hne].
  - rewrite lookup_insert_eq. destruct (db_contracts db !! contract_id d) as [p|]; [|done].
    by rewrite (Hd p).
  - by rewrite lookup_insert_ne by congruence.
Qed.

Lemma resume_total db id t s c d now :
  contract_wf d → db_ok db → 0 ≤ now →
  db_contracts db !! contract_id d = Some (contract_parts d) →
  a_active_transition_id (db_authority db) = Some id →
  db_transitions db !! id = Some t → tr_created_at t ≤ now →
  running_count db = 0 → is_unpublished_rebuild db = false →
  intents_movable db (contract_id d) now → tr_target_contract_id t = contract_id d →
  tr_source_contract_id t = Some s → import_processing_contract_in_connection db s = Ok (Some c) →
  delta_strategy (delta_between (Some c) d) = PdfRootRescan →
  ∃ db', resume_transition db (row_of id t) d now = Ok (db', OutcomeTargetCommitted).
Proof.
  intros Hwf Hok Hnow Hc Hact Ht Hcr Hrun Hun Him Htg Hs Hsc Hd. unfold resume_transition.
  cbn [row_target_contract_id row_source_contract_id row_of]. rewrite Hs.
  rewrite (proj2 (str_eqb_eq _ _)) by done. cbn [negb].
  destruct (contract_in_connection_wf _ _ _ Hsc) as (Hcwf & Hcid & Hcl).
  destruct (stored_contract_total db s) as [-> _]; [apply Hok|by rewrite Hcl|].
  cbn [result_bind]. rewrite Hsc. cbn [result_bind]. unfold observe_writer_contract_transition.
  rewrite Hd. cbn [is_strategy_active is_unsupported]. rewrite Hrun. cbn [Z.ltb Z.compare].
  rewrite Hd. cbn [is_unsupported andb]. by apply advance_total.
Qed.

Lemma ready_not_rebuilding db :
  projection_is_ready_with_generation db = true → is_unpublished_rebuild db = false.
Proof.
  unfold projection_is_ready_with_generation, is_unpublished_rebuild.
  by destruct (p_service_state _).
Qed.

Lemma fresh_total db d c delta now :
  let id := new_digest_id [utf8 (lit "writer-contract-transition"); utf8 (contract_id d);
                           to_le_bytes 8 now] in
  contract_wf d → db_ok db → 0 ≤ now →
  db_contracts db !! contract_id d = Some (contract_parts d) →
  a_claim_fence_epoch (db_authority db) < i64_MAX → db_transitions db !! id = None →
  0 ≤ default 0 (p_visible_epoch (db_projection db)) →
  running_count db = 0 → projection_is_ready_with_generation db = true →
  intents_movable db (contract_id d) now →
  active_contract db = Ok (Some c) → delta_strategy delta = PdfRootRescan →
  ∃ db', (let? (db, row) := open_transition db id (option_map contract_id (Some c)) d
            PRODUCT_VERSION_DEFAULT 34 (queued_count db) None now in
          advance_existing_transition db row delta d now) = Ok (db', OutcomeTargetCommitted).
Proof.
  intros id Hwf Hok Hnow Hc Hep Hfr Hve Hrun Hp Him Hac Hd.
  destruct (open_total db id (option_map contract_id (Some c)) d PRODUCT_VERSION_DEFAULT 34
    (queued_count db) None now) as (db2 & t & Ho & Ht & Hcr & Hs2 & Hp2); try done.
  - apply new_digest_id_text.
  - apply Hok.
  - unfold queued_count. lia.
  - rewrite Ho. cbn [result_bind].
    apply open_spec in Ho as (Hok2 & Hc2 & Htk2 & Hr2 & Hact2 & _); [|apply Hok|done|].
    + apply advance_total; try done; [congruence|lia|by rewrite (running_count_tasks db)|..].
      * unfold is_unpublished_rebuild. rewrite Hp2. by apply ready_not_rebuilding.
      * by apply (intents_movable_frame db).
    + intros c' [= <-]. by destruct (active_contract_ok _ _ Hac).
Qed.

Lemma quiet_commits db d now :
  db_ok db → handover_ready db d now →
  ∃ db', complete_online_writer_transition db d now = (db', Ok OutcomeTargetCommitted).
Proof.
  intros Hok [Hwf Hcf Hp Hve Hrun Hnow Him Htr].
  assert (∃ db', complete_online_writer_transition_in_transaction db d PRODUCT_VERSION_DEFAULT 34 now
                 = Ok (db', OutcomeTargetCommitted)) as [db' Hx].
  2:{ exists db'. unfold complete_online_writer_transition. by rewrite Hx. }
  unfold complete_online_writer_transition_in_transaction.
  rewrite insert_contract_total; [|done|apply Hok|done]. cbn [result_bind].
  pose proof (contracts_db_ok db d Hwf Hok) as Hok1.
  pose proof (λ id c, contract_lookup_mono db d id c Hcf) as Hmono.
  remember (with_contracts db (<[contract_id d := contract_parts d]> (db_contracts db))) as db1 eqn:Hdb1.
  assert (db_contracts db1 !! contract_id d = Some (contract_parts d)) as Hc
    by (rewrite Hdb1; cbn; by rewrite lookup_insert_eq).
  assert (db_authority db1 = db_authority db ∧ db_transitions db1 = db_transitions db
    ∧ db_projection db1 = db_projection db ∧ db_tasks db1 = db_tasks db ∧ db_roots db1 = db_roots db
    ∧ db_scopes db1 = db_scopes db ∧ db_active_contract db1 = db_active_contract db)
    as (Ha1 & Ht1 & Hp1 & Htk1 & Hr1 & Hs1 & Hac1) by (by rewrite Hdb1).
  clear Hdb1. assert (projection_is_ready_with_generation db1 = true) as Hpr1
    by (unfold projection_is_ready_with_generation; by rewrite Hp1).
  assert (running_count db1 = 0) as Hrun1 by (by rewrite (running_count_tasks db)).
  apply (intents_movable_frame db db1) in Him; [|done..].
  rewrite Hpr1. cbn [negb]. unfold active_transition_row. rewrite Ha1, Ht1.
  destruct (a_active_transition_id (db_authority db)) as [id|] eqn:Eact.
  - destruct Htr as (t & s & c & Ht & Htg & Hcr & Hs & Hsc & Hd). rewrite Ht.
    destruct (ro_rows _ (proj1 Hok) _ _ Ht) as (_ & [Hat Hep] & _).
    destruct (_ || _ || _) eqn:Ebad; [unfold u32_MAX in Ebad; lia|]. cbn [result_bind].
    apply (resume_total db1 id t s c); try done; [by rewrite Ha1|by rewrite Ht1| |by apply Hmono].
    by apply ready_not_rebuilding.
  - destruct Htr as (Hep & Hfr & c & Hac & Hd). cbn [result_bind].
    assert (active_contract db1 = Ok (Some c)) as Hac'.
    { unfold active_contract in Hac |- *. rewrite Ha1, Hac1.
      destruct (match a_committed_contract_id _ with Some c => _ | None => _ end) as [id|]; [|done].
      peel Hac. cbn [result_bind]. by apply Hmono. }
    rewrite Hac'.
    cbn [result_bind]. unfold observe_writer_contract_transition. rewrite Hd, Hrun1.
    cbn [is_strategy_active is_unsupported Z.ltb Z.compare is_outcome_active is_outcome_unsupported].
    rewrite Hd. cbn [is_unsupported orb].
    apply fresh_total; try done; by rewrite ?Ha1, ?Ht1, ?Hp1.
Qed.

(** A reachable store with no running task, a published search generation, a
    supported change of contract and queued intents under authorized roots completes
    the transition in one call, whether it is fresh or was left observed or fenced by
    an earlier attempt. *)
Theorem quiet_store_commits db d now :
  reachable db → handover_ready db d now →
  ∃ db', complete_online_writer_transition db d now = (db', Ok OutcomeTargetCommitted).
Proof. intros Hok%reachable_ok. by apply quiet_commits. Qed.

(** ** A transition whose target is no longer desired *)

(** A call other than a hard cut or a request for that target. *)
Definition spares (target : str) (call : StoreCall) : Prop :=
  match call with
  | CallComplete d => contract_id d ≠ target
  | CallActivate _ => False
  | CallOther => True
  end.

Lemma complete_superseded db d now id t :
  a_active_transition_id (db_authority db) = Some id → db_transitions db !! id = Some t →
  contract_id d ≠ tr_target_contract_id t →
  let db' := (complete_online_writer_transition db d now).1 in
  db_authority db' = db_authority db ∧ db_transitions db' = db_transitions db.
Proof.
  intros Hact Ht Hne. unfold complete_online_writer_transition. cbn zeta.
  destruct (complete_online_writer_transition_in_transaction _ _ _ _ _) as [[db' o]|] eqn:E; [|done].
  unfold complete_online_writer_transition_in_transaction in E. peel E.
  apply insert_contract_ok in E0 as [_ ->].
  destruct (negb _); [injection E as <- <-; done|]. peel E.
  unfold active_transition_row in E0. cbn [with_contracts db_authority db_transitions] in E0.
  rewrite Hact, Ht in E0. destruct (_ || _ || _); [done|]. injection E0 as <-.
  unfold resume_transition in E. cbn [row_target_contract_id] in E.
  destruct (str_eqb _ _) eqn:Eq; [by apply str_eqb_eq in Eq|]. by injection E as <- <-.
Qed.

Lemma health_only db f db' :
  update_authority db f = Ok db' →
  (∃ s r u, f (db_authority db) = set_health (db_authority db) s r u) →
  a_active_transition_id (db_authority db') = a_active_transition_id (db_authority db)
  ∧ db_transitions db' = db_transitions db.
Proof. intros [_ ->]%update_authority_ok (s & r & u & Hf). cbn. by rewrite Hf. Qed.

Lemma latch_only db cond f db' b :
  update_authority_where db cond f = Ok (db', b) →
  (∃ s r u, f (db_authority db) = set_health (db_authority db) s r u) →
  a_active_transition_id (db_authority db') = a_active_transition_id (db_authority db)
  ∧ db_transitions db' = db_transitions db.
Proof.
  intros [_ Hu]%update_authority_where_ok Hf. destruct b; [by apply (health_only _ f)|by subst].
Qed.

Lemma superseded_step call db db' id t :
  a_active_transition_id (db_authority db) = Some id → db_transitions db !! id = Some t →
  spares (tr_target_contract_id t) call → store_step call db db' →
  a_active_transition_id (db_authority db') = Some id ∧ db_transitions db' !! id = Some t.
Proof.
  intros Hact Ht Hsp Hstep.
  assert (∀ a now, ∃ s r u, cleared_health a now = set_health a s r u) as Hcl.
  { intros a now. destruct (cleared_health_shape a now) as (s & r & u & Heq & _). by do 3 eexists. }
  enough (a_active_transition_id (db_authority db') = a_active_transition_id (db_authority db)
          ∧ db_transitions db' = db_transitions db) as [-> ->] by done.
  destruct Hstep as
    [db d now|db now db' Hs|db healthy now db' b Hs|db now db' b Hs|db now db' b Hs|db now db' Hs
    |db now db' b Hs|db observed now|db d now|db task scope c db' Hs|db db' Hc Ha Htr Hac Hrun].
  - destruct (complete_superseded db d now id t Hact Ht Hsp) as [-> ->]. done.
  - apply (health_only _ _ _ Hs). by do 3 eexists.
  - unfold reconcile_writer_runtime_availability in Hs. destruct (negb healthy); [by injection Hs as <- <-|].
    by apply latch_only in Hs.
  - by eapply latch_only; [exact Hs|do 3 eexists].
  - by eapply latch_only; [exact Hs|do 3 eexists].
  - apply (health_only _ _ _ Hs). by do 3 eexists.
  - unfold clear_writer_blocked_by_running_owner in Hs. by apply latch_only in Hs.
  - unfold claim_observed_import_task_for_worker. by destruct (negb _).
  - done.
  - apply submit_spec in Hs as (_ & _ & -> & -> & _). done.
  - by rewrite Ha, Htr.
Qed.

(** A transition is only ever finished by a request for its own target or dropped
    by a hard cut: through any other sequence of calls, requests for other contracts
    included, it stays under way with the same row, and writers stay closed. *)
Theorem superseded_transition_stays db db' id t :
  reachable db → a_active_transition_id (db_authority db) = Some id →
  db_transitions db !! id = Some t →
  rtc (λ x y, ∃ call, spares (tr_target_contract_id t) call ∧ store_step call x y) db db' →
  a_active_transition_id (db_authority db') = Some id ∧ db_transitions db' !! id = Some t
  ∧ public_writer_claims_admitted db' = false.
Proof.
  intros Hok%reachable_ok Hact Ht Hrun.
  induction Hrun as [db|db db1 db' (call & Hsp & Hstep) _ IH].
  - split_and!; [done|done|]. apply not_true_iff_false. intros Hr%ready_no_transition; [congruence|done].
  - destruct (superseded_step _ _ _ _ _ Hact Ht Hsp Hstep) as [Hact1 Ht1].
    apply IH; [|done|done]. by apply (store_step_ok _ _ _ Hstep).
Qed.
End lemmas.

(** ** A concrete upgrade *)

Module Demo.
#[local] Existing Instance toy_sha256.
#[local] Existing Instance toy_sha256_laws.

Definition parts (parser : string) : ContractParts :=
  MkParts (lit parser) (lit "ocr-1") (lit "derived-1") CLASSIFIER_EPOCH.
Definition contract (parser : string) : ImportProcessingContract :=
  match contract_new (parts parser) with Ok c => c | Err _ => MkContract [] (parts parser) end.
Definition old_contract : ImportProcessingContract := contract "pdf-1".
Definition new_contract : ImportProcessingContract := contract "pdf-2".
Definition newer_contract : ImportProcessingContract := contract "pdf-3".

Definition task (status : ImportTaskStatus) (started finished : option Z) (updated : Z) : TaskRow :=
  MkTask (lit "t1") (lit "/resumes") status 2 started finished updated (contract_id old_contract) None.
Definition scope : ImportScanScope :=
  MkScope (lit "t1") RootExplicit None ProfileExplicit (lit "/resumes") (lit "/resumes") [] None None
    None false 2.

(** Activate the old contract, publish, queue a task, claim it, and ask for the new
    contract while it runs; later the task fails and waits for a retry. *)
Definition store0 : Db := initial_db (MkProj ProjectionRepairing None (Some RepairMigrationRebuild) None).
Definition store1 : Db := (activate_migration_rebuild_contract store0 old_contract 1).1.
Definition store2 : Db :=
  with_projection store1 (MkProj ProjectionReady (Some (lit "g1")) None (Some 1)).
Definition unwrap_or (dflt : Db) (r : result Db MetaStoreError) : Db :=
  match r with Ok db => db | Err _ => dflt end.
Definition accepted (r : result Db MetaStoreError) : bool :=
  match r with Ok _ => true | Err _ => false end.
Definition store3 : Db :=
  unwrap_or store2
    (insert_import_task_with_scan_scope store2 (task Queued None None 2) scope old_contract).
Definition store4 : Db :=
  (claim_observed_import_task_for_worker store3 (task Queued None None 2) 5).1.
Definition store5 : Db := (complete_online_writer_transition store4 new_contract 10).1.
Definition store6 : Db := with_tasks store5 [task FailedRetryable (Some 5) (Some 12) 12].

(** The transition that waits in [store5]. *)
Definition open_id : str := default [] (a_active_transition_id (db_authority store5)).
Definition open_row : TransitionRecord :=
  default (new_transition_record None [] [] 0 None 0 0 0 0 None false 0)
    (db_transitions store5 !! open_id).

Lemma publish_step db p : store_step CallOther db (with_projection db p).
Proof. by apply step_other. Qed.

Lemma retask_step db tasks :
  running_count (with_tasks db tasks) ≤ running_count db → store_step CallOther db (with_tasks db tasks).
Proof. intros Hrun. by apply step_other. Qed.

Lemma unwrap_accepted dflt r : accepted r = true → r = Ok (unwrap_or dflt r).
Proof. by destruct r. Qed.

Lemma step01 : store_step (CallActivate old_contract) store0 store1.
Proof. unfold store1. exact (step_activate store0 old_contract 1). Qed.

Lemma step12 : store_step CallOther store1 store2.
Proof. unfold store2. exact (publish_step store1 _). Qed.

Lemma step23 : store_step CallOther store2 store3.
Proof.
  unfold store3. apply (step_submit _ (task Queued None None 2) scope old_contract).
  apply unwrap_accepted. vm_compute. reflexivity.
Qed.

Lemma step34 : store_step CallOther store3 store4.
Proof. unfold store4. exact (step_claim store3 (task Queued None None 2) 5). Qed.

Lemma step45 : store_step (CallComplete new_contract) store4 store5.
Proof. unfold store5. exact (step_complete store4 new_contract 10). Qed.

Lemma step56 : store_step CallOther store5 store6.
Proof. unfold store6. apply (retask_step store5 _). by vm_compute. Qed.

Lemma reachable_step call db db' : reachable db → store_step call db db' → reachable db'.
Proof. intros [p Hp] Hstep. exists p. eapply rtc_r; [exact Hp|]. by exists call. Qed.

Lemma store0_reachable : reachable store0.
Proof. unfold store0. eexists. apply rtc_refl. Qed.

Lemma store3_reachable : reachable store3.
Proof.
  pose proof (reachable_step _ store0 store1 store0_reachable step01) as Hr.
  exact (reachable_step _ store2 store3 (reachable_step _ store1 store2 Hr step12) step23).
Qed.

Lemma store5_reachable : reachable store5.
Proof.
  exact (reachable_step _ store4 store5 (reachable_step _ store3 store4 store3_reachable step34) step45).
Qed.

Lemma store6_reachable : reachable store6.
Proof. exact (reachable_step _ store5 store6 store5_reachable step56). Qed.

Lemma writer_authority_reachable_witness :
  reachable store5 ∧ authority_wf (writer_authority_snapshot store5).
Proof.
  split; [exact store5_reachable|]. exact (proj1 (writer_authority_reachable store5 20 store5_reachable)).
Defined.

Lemma store5_open : is_Some (a_active_transition_id (db_authority store5)).
Proof. vm_compute. eexists. reflexivity. Qed.

Lemma transition_fences_claims_witness :
  reachable store5 ∧ is_Some (a_active_transition_id (db_authority store5))
  ∧ claim_observed_import_task_for_worker store5 (task Queued None None 2) 11 = (store5, None)
  ∧ running_count (complete_online_writer_transition store5 newer_contract 11).1 ≤ running_count store5.
Proof.
  split; [exact store5_reachable|]. split; [exact store5_open|].
  destruct (transition_fences_claims (CallComplete newer_contract) store5
    (complete_online_writer_transition store5 newer_contract 11).1 (task Queued None None 2) 11 store5_reachable store5_open)
    as [Hc Hr]. split; [exact Hc|]. apply Hr; [exact (step_complete store5 newer_contract 11)|].
  vm_compute. eexists. reflexivity.
Defined.

Lemma target_commit_moves_intents_witness :
  let r := complete_online_writer_transition store6 new_contract 20 in
  reachable store6 ∧ r.2 = Ok OutcomeTargetCommitted ∧ running_count store6 = 0
  ∧ public_writer_claims_admitted r.1 = true.
Proof.
  cbn zeta. split; [exact store6_reachable|].
  assert ((complete_online_writer_transition store6 new_contract 20).2 = Ok OutcomeTargetCommitted) as Ho
    by (vm_compute; reflexivity).
  split; [exact Ho|].
  destruct (target_commit_moves_intents store6 new_contract 20
    (complete_online_writer_transition store6 new_contract 20).1 store6_reachable) as (Hq & Hp & _).
  { rewrite <- Ho. apply surjective_pairing. }
  split; [exact Hq|exact Hp].
Defined.

Lemma store6_intents : intents_movable store6 (contract_id new_contract) 20.
Proof.
  assert (pending_intents store6 (contract_id new_contract) = [task FailedRetryable (Some 5) (Some 12) 12])
    as Hp by (vm_compute; reflexivity).
  split; rewrite Hp.
  - intros t ->%list_elem_of_singleton. vm_compute. eexists. split; reflexivity.
  - intros t ->%list_elem_of_singleton.
    split; apply (bool_decide_unpack _); vm_compute; constructor.
  - by intros t1 t2 ->%list_elem_of_singleton ->%list_elem_of_singleton.
Qed.

Lemma store6_ready : handover_ready store6 new_contract 20.
Proof.
  assert (db_contracts store6 !! contract_id new_contract = Some (contract_parts new_contract)) as Hc
    by (vm_compute; reflexivity).
  split.
  - unfold contract_wf. vm_compute. reflexivity.
  - intros p Hp. rewrite Hc in Hp. by injection Hp.
  - vm_compute. reflexivity.
  - vm_compute. discriminate.
  - vm_compute. reflexivity.
  - lia.
  - exact store6_intents.
  - assert (a_active_transition_id (db_authority store6) = Some open_id) as -> by (vm_compute; reflexivity).
    exists open_row, (contract_id old_contract), old_contract.
    split_and!; vm_compute; reflexivity || discriminate.
Qed.

Lemma quiet_store_commits_witness :
  reachable store6 ∧ handover_ready store6 new_contract 20
  ∧ ∃ db', complete_online_writer_transition store6 new_contract 20 = (db', Ok OutcomeTargetCommitted).
Proof.
  split; [exact store6_reachable|]. split; [exact store6_ready|].
  exact (quiet_store_commits store6 new_contract 20 store6_reachable store6_ready).
Defined.

Lemma superseded_transition_stays_witness :
  let db' := (complete_online_writer_transition store5 newer_contract 30).1 in
  reachable store5 ∧ a_active_transition_id (db_authority db') = Some open_id
  ∧ public_writer_claims_admitted db' = false.
Proof.
  cbn zeta. split; [exact store5_reachable|].
  destruct (superseded_transition_stays store5 (complete_online_writer_transition store5 newer_contract 30).1
    open_id open_row) as (Ha & _ & Hc).
  - exact store5_reachable.
  - vm_compute. reflexivity.
  - vm_compute. reflexivity.
  - apply rtc_once. exists (CallComplete newer_contract).
    split; [apply (bool_decide_unpack _); vm_compute; constructor|].
    exact (step_complete store5 newer_contract 30).
  - split; [exact Ha|exact Hc].
Defined.
End Demo.
