(* ===== verification/UpgradeCoordinator.v ===== *)
(** * The upgrade coordinator (crates/daemon/src/upgrade_coordinator.rs)

    How the daemon moves a store to the contract of its own build: what it observes,
    the barrier it runs at startup and on a worker tick, and whom the outcome admits.
    The store is [WriterStore]; a call is a step on it that may fail, and the calls
    made before a failure stay.  The theorems compose the two: the barrier only moves
    through reachable stores, it admits ordinary writers only under the desired
    contract, a tick in a quiet store finishes the transition, and the writer health the
    daemon publishes admits exactly when the store admits claims. *)

From Stdlib Require Import ZArith String.
From stdpp Require Import prelude gmap.
From S2P Require Import Prelude Collections Text Identity Health WriterStore WriterTransition.
Import Health.Store.

Local Open Scope Z_scope.

(** [DaemonError], with the constructors these functions build. *)
Inductive DaemonError :=
| DaemonStore (e : MetaStoreError)
| OwnershipConflict
| RecoverableDependency.

(** A token carries the claim fence epoch it was issued under. *)
Definition WriterAuthorityToken : Type := Z.

Inductive WriterPriority :=
| MetadataRecovery | SearchArtifactRepair | PrivacyDeletion | WriterContractTransition
| OrdinaryImport.

Inductive UpgradeCoordinatorOutcome :=
| AlreadyActive | CoordinatorTargetCommitted | TransitionRequired | CoordinatorInProgress
| CoordinatorUnsupported | CoordinatorUnavailable | HardCutActivated.

#[export] Instance UpgradeCoordinatorOutcome_eq_dec : EqDecision UpgradeCoordinatorOutcome.
Proof. solve_decision. Defined.

Definition Pass : Type := UpgradeCoordinatorOutcome * option WriterAuthorityToken.

(** A latch statement of the store as a daemon step. *)
Definition latch (db : Db) (r : result (Db * bool) MetaStoreError) : Db * result bool DaemonError :=
  match r with
  | Ok (db', changed) => (db', Ok changed)
  | Err e => (db, Err (DaemonStore e))
  end.

Definition mark (db : Db) (r : result Db MetaStoreError) : Db * result unit DaemonError :=
  match r with
  | Ok db' => (db', Ok tt)
  | Err e => (db, Err (DaemonStore e))
  end.

Definition daemon_call {A} (r : Db * result A MetaStoreError) : Db * result A DaemonError :=
  (r.1, map_err DaemonStore r.2).

Section coordinator.
Context `{Sha256}.

Definition token_from_store (db : Db) : WriterAuthorityToken := a_claim_fence_epoch (db_authority db).

Definition observe_desired_contract (db : Db) (desired : ImportProcessingContract)
    : result Pass DaemonError :=
  match a_health_state (db_authority db) with
  | Store.Unavailable | Store.Blocked => Ok (CoordinatorUnavailable, None)
  | Store.Ready | Store.Transitioning =>
      let? committed := map_err DaemonStore (active_contract db) in
      match committed with
      | None => Ok (TransitionRequired, None)
      | Some _ =>
          let '(_, outcome) :=
            observe_writer_contract_transition committed desired (running_count db) in
          let token := a_claim_fence_epoch (db_authority db) in
          Ok (match outcome with
              | OutcomeAlreadyActive => (AlreadyActive, Some token)
              | OutcomeTargetCommitted => (CoordinatorTargetCommitted, Some token)
              | OutcomeTransitionRequired => (TransitionRequired, None)
              | OutcomeTransitionInProgress | OutcomeBlockedByRunningOwner =>
                  (CoordinatorInProgress, None)
              | OutcomeUnsupportedTransition => (CoordinatorUnsupported, None)
              | OutcomeRuntimeUnavailable | OutcomePersistedStateInvalid =>
                  (CoordinatorUnavailable, None)
              end)
      end
  end.

(** The hard-cut tail of the barrier. *)
Definition hard_cut (db : Db) (desired : ImportProcessingContract) (now : Z)
    : Db * result Pass DaemonError :=
  step_bind (daemon_call (activate_migration_rebuild_contract db desired now)) (λ db activation,
    match activation with
    | Activated | ActivationAlreadyActive =>
        (db, Ok (HardCutActivated, Some (token_from_store db)))
    | Superseded =>
        match active_contract db with
        | Err e => (db, Err (DaemonStore e))
        | Ok (Some active) =>
            if str_eqb (contract_id active) (contract_id desired)
            then (db, Ok (AlreadyActive, Some (token_from_store db)))
            else (db, Ok (TransitionRequired, None))
        | Ok None => (db, Ok (TransitionRequired, None))
        end
    | RunningTaskConflict => (db, Ok (CoordinatorInProgress, None))
    end).

(** The arm of a pass that requires a transition. *)
Definition complete_or_cut (db : Db) (desired : ImportProcessingContract) (now : Z)
    : Db * result Pass DaemonError :=
  step_bind (daemon_call (complete_online_writer_transition db desired now)) (λ db outcome,
    match outcome with
    | OutcomeAlreadyActive => (db, Ok (AlreadyActive, Some (token_from_store db)))
    | OutcomeTargetCommitted => (db, Ok (CoordinatorTargetCommitted, Some (token_from_store db)))
    | OutcomeBlockedByRunningOwner | OutcomeTransitionInProgress =>
        (db, Ok (CoordinatorInProgress, None))
    | OutcomePersistedStateInvalid => hard_cut db desired now
    | OutcomeUnsupportedTransition =>
        step_bind (latch db (mark_writer_unsupported_transition db now)) (λ db _,
          (db, Ok (CoordinatorUnavailable, None)))
    | OutcomeTransitionRequired | OutcomeRuntimeUnavailable =>
        (db, Ok (CoordinatorUnavailable, None))
    end).

Definition bootstrap_writer_barrier (db : Db) (desired : ImportProcessingContract) (now : Z)
    : Db * result Pass DaemonError :=
  step_bind (latch db (reconcile_writer_runtime_availability db true now)) (λ db _,
  step_bind (latch db (clear_writer_unsupported_transition db now)) (λ db _,
    match observe_desired_contract db desired with
    | Err e => (db, Err e)
    | Ok (outcome, token) =>
        match outcome with
        | AlreadyActive | CoordinatorTargetCommitted => (db, Ok (outcome, token))
        | TransitionRequired => complete_or_cut db desired now
        | CoordinatorUnsupported =>
            step_bind (latch db (mark_writer_unsupported_transition db now)) (λ db _,
              (db, Ok (CoordinatorUnavailable, None)))
        | other => (db, Ok (other, None))
        end
    end)).

Definition public_writer_admitted (outcome : UpgradeCoordinatorOutcome) : bool :=
  match outcome with
  | AlreadyActive | CoordinatorTargetCommitted | HardCutActivated => true
  | _ => false
  end.

Definition admits_priority (outcome : UpgradeCoordinatorOutcome) (priority : WriterPriority) : bool :=
  match priority with
  | MetadataRecovery | SearchArtifactRepair | PrivacyDeletion => true
  | WriterContractTransition =>
      match outcome with
      | CoordinatorUnsupported | CoordinatorUnavailable => false
      | _ => true
      end
  | OrdinaryImport => public_writer_admitted outcome
  end.

(** The writer part of [run_worker_tick]: whether ordinary writers run in this tick. *)
Definition tick_writer_admission (db : Db) (desired : ImportProcessingContract) (now : Z)
    : Db * result bool DaemonError :=
  match observe_desired_contract db desired with
  | Err e => (db, Err e)
  | Ok (outcome, _) =>
      if match outcome with TransitionRequired | CoordinatorInProgress => true | _ => false end
         && admits_priority outcome WriterContractTransition
      then
        step_bind (bootstrap_writer_barrier db desired now) (λ db pass,
          (db, Ok (public_writer_admitted pass.1)))
      else (db, Ok (public_writer_admitted outcome))
  end.

(** [RuntimeGates]: which runtimes the tick may use. *)
Record RuntimeGates := MkRuntimeGates {
  gate_import : bool;
  gate_pdf_import : bool;
  gate_ocr : bool;
  gate_index : bool;
}.

Definition gates_open (gates : RuntimeGates) : bool :=
  gate_import gates || gate_ocr gates || gate_index gates.

(** [run_worker_tick] up to the admission of ordinary writers; [None] is a tick that
    returns before it looks at the writer. *)
Definition worker_tick_admission (stop_requested : bool) (gates : RuntimeGates) (db : Db)
    (desired : ImportProcessingContract) (now : Z) : Db * result (option bool) DaemonError :=
  if stop_requested then (db, Ok None)
  else if negb (gate_import gates) && negb (gate_ocr gates) && negb (gate_index gates) then (db, Ok None)
  else step_bind (tick_writer_admission db desired now) (λ db ordinary, (db, Ok (Some ordinary))).

(** What the startup scan for orphaned running tasks reported. *)
Inductive OrphanScan :=
| Recovered (n : Z) | OwnerLockContended | ScanStore (e : MetaStoreError) | OwnerLockStorage.

Definition normalize_orphaned_running_tasks_for_writer_bootstrap (db : Db) (scan : OrphanScan)
    (now : Z) : Db * result Z DaemonError :=
  match scan with
  | Recovered n =>
      step_bind (latch db (clear_writer_blocked_by_running_owner db now)) (λ db _, (db, Ok n))
  | OwnerLockContended =>
      step_bind (mark db (mark_writer_blocked_by_running_owner db now)) (λ db _, (db, Ok 0))
  | ScanStore e => (db, Err (DaemonStore e))
  | OwnerLockStorage => (db, Err RecoverableDependency)
  end.

(** The writer part of [PersistentRuntime]'s bootstrap, with a worker loop. *)
Definition bootstrap_writer (db : Db) (scan : OrphanScan)
    (classifier_configured classifier_runtime_available : bool)
    (desired : ImportProcessingContract) (now : Z) : Db * result Z DaemonError :=
  step_bind (normalize_orphaned_running_tasks_for_writer_bootstrap db scan now) (λ db recovered,
    if classifier_configured && negb classifier_runtime_available then
      step_bind (mark db (mark_writer_runtime_unavailable db now)) (λ db _, (db, Ok recovered))
    else
      step_bind (latch db (reconcile_writer_runtime_availability db true now)) (λ db _,
      step_bind (bootstrap_writer_barrier db desired now) (λ db _, (db, Ok recovered)))).
End coordinator.

(** ** The coordinator moves through reachable stores *)

Section theorems.
Context `{Sha256Laws}.

Definition reaches (db db' : Db) : Prop := rtc (λ x y, ∃ call, store_step call x y) db db'.

#[local] Instance reaches_preorder : PreOrder reaches.
Proof. split; [intros db; apply rtc_refl|intros x y z; apply rtc_trans]. Qed.

Lemma reaches_step call db db' : store_step call db db' → reaches db db'.
Proof. intros Hs. apply rtc_once. by exists call. Qed.

Lemma reachable_reaches db db' : reachable db → reaches db db' → reachable db'.
Proof. intros [p Hp] Hr. exists p. by etrans. Qed.

(** A bind moves from store to store when both halves do. *)
Lemma bind_reaches {A B} db (r : Db * result A DaemonError) (k : Db → A → Db * result B DaemonError) :
  reaches db r.1 → (∀ db1 a, reaches db1 (k db1 a).1) → reaches db (step_bind r k).1.
Proof.
  intros Hr Hk. destruct r as [db1 [a|e]]; cbn in *; [|done]. etrans; [exact Hr|]. apply Hk.
Qed.

Lemma latch_reaches db r :
  (∀ db' b, r = Ok (db', b) → store_step CallOther db db') → reaches db (latch db r).1.
Proof.
  intros Hr. destruct r as [[db' b]|e]; cbn; [|apply rtc_refl]. by apply (reaches_step CallOther), (Hr _ b).
Qed.

Lemma mark_reaches db r :
  (∀ db', r = Ok db' → store_step CallOther db db') → reaches db (mark db r).1.
Proof.
  intros Hr. destruct r as [db'|e]; cbn; [|apply rtc_refl]. by apply (reaches_step CallOther), Hr.
Qed.

Lemma reconcile_reaches db now : reaches db (latch db (reconcile_writer_runtime_availability db true now)).1.
Proof. apply latch_reaches. intros db' b. apply step_reconcile. Qed.

Lemma clear_unsupported_reaches db now : reaches db (latch db (clear_writer_unsupported_transition db now)).1.
Proof. apply latch_reaches. intros db' b. apply step_clear_unsupported. Qed.

Lemma mark_unsupported_reaches db now : reaches db (latch db (mark_writer_unsupported_transition db now)).1.
Proof. apply latch_reaches. intros db' b. apply step_mark_unsupported. Qed.

Create HintDb coordinator.
Hint Resolve reconcile_reaches clear_unsupported_reaches mark_unsupported_reaches rtc_refl : coordinator.

Lemma hard_cut_reaches db d now : reaches db (hard_cut db d now).1.
Proof.
  unfold hard_cut. apply bind_reaches.
  - apply (reaches_step (CallActivate d)), step_activate.
  - intros db1 []; try apply rtc_refl. destruct (active_contract db1) as [[c|]|]; try apply rtc_refl.
    destruct (str_eqb _ _); apply rtc_refl.
Qed.

Lemma complete_or_cut_reaches db d now : reaches db (complete_or_cut db d now).1.
Proof.
  unfold complete_or_cut. apply bind_reaches.
  - apply (reaches_step (CallComplete d)), step_complete.
  - intros db1 []; try apply rtc_refl; [apply hard_cut_reaches|].
    apply bind_reaches; [auto with coordinator|]. intros db2 _. apply rtc_refl.
Qed.

Lemma barrier_reaches db d now : reaches db (bootstrap_writer_barrier db d now).1.
Proof.
  unfold bootstrap_writer_barrier. apply bind_reaches; [auto with coordinator|]. intros db1 _.
  apply bind_reaches; [auto with coordinator|]. intros db2 _.
  destruct (observe_desired_contract db2 d) as [[o tok]|e]; [|apply rtc_refl].
  destruct o; try apply rtc_refl; [apply complete_or_cut_reaches|].
  apply bind_reaches; [auto with coordinator|]. intros db3 _. apply rtc_refl.
Qed.

(** ** Admission *)

(** Writers are admitted under the desired contract, by a token of the current
    fence. *)
Definition admission_sound (d : ImportProcessingContract) (db' : Db) (pass : Pass) : Prop :=
  public_writer_admitted pass.1 = true →
  (∃ c, active_contract db' = Ok (Some c) ∧ contract_id c = contract_id d)
  ∧ (public_writer_claims_admitted db' = true ∨ is_Some (a_active_transition_id (db_authority db')))
  ∧ pass.2 = Some (a_claim_fence_epoch (db_authority db')).

Lemma committed_active db id :
  db_ok db → a_committed_contract_id (db_authority db) = Some id →
  ∃ c, active_contract db = Ok (Some c) ∧ contract_id c = id.
Proof.
  intros [Hr _] Hid. destruct (stored_contract_total db id) as (Hs & c & Hc & Hcid);
    [done|apply (ro_refs _ Hr); by left|].
  exists c. unfold active_contract. by rewrite Hid, Hs.
Qed.

Lemma observe_sound db d o tok :
  db_ok db → observe_desired_contract db d = Ok (o, tok) → admission_sound d db (o, tok).
Proof.
  intros [_ [A1 _ _]]. unfold observe_desired_contract, admission_sound.
  destruct (a_health_state (db_authority db)) eqn:Eh; intros Ho; try (by injection Ho as <- <-).
  all: peel Ho; destruct a as [c|]; [|by injection Ho as <- <-].
  all: unfold observe_writer_contract_transition, delta_between in Ho;
    destruct (str_eqb (contract_id c) (contract_id d)) eqn:Eq;
    [|cbn [delta_strategy] in Ho; repeat case_match; simplify_eq; done].
  all: injection Ho as <- <-; intros _; apply str_eqb_eq in Eq; split_and!; [by exists c| |done].
  - left. unfold public_writer_claims_admitted. by rewrite Eh.
  - right. unfold authority_check in A1. rewrite Eh in A1. bools.
    destruct (a_active_transition_id _); [by eexists|done].
Qed.

Lemma observe_no_cut db d tok : observe_desired_contract db d ≠ Ok (HardCutActivated, tok).
Proof.
  unfold observe_desired_contract. intros Ho.
  destruct (a_health_state (db_authority db)); try done; peel Ho; destruct a as [c|]; try done;
    destruct (observe_writer_contract_transition _ _ _) as [delta []]; done.
Qed.

Lemma hard_cut_sound db d now db' pass :
  db_ok db → a_health_state (db_authority db) = Store.Ready ∨ is_Some (a_active_transition_id (db_authority db)) →
  hard_cut db d now = (db', Ok pass) → admission_sound d db' pass.
Proof.
  intros Hok Hopen. unfold hard_cut, activate_migration_rebuild_contract.
  destruct (activate_in_transaction db d now) as [[db1 o]|e] eqn:E; [|done].
  assert (o = Activated ∨ o = ActivationAlreadyActive →
    ∀ tok, tok = Some (token_from_store db1) → admission_sound d db1 (HardCutActivated, tok)) as Hdone.
  { intros Ho tok ->. apply activate_spec in E as (Hok1 & _ & Hact & Hh & Hc); [|done|done].
    intros _. split_and!; [by apply committed_active| |done].
    left. unfold public_writer_claims_admitted. by rewrite Hh. }
  destruct o; cbn; intros Hx; try (injection Hx as <- <-); [by apply Hdone; auto|by apply Hdone; auto| |done].
  destruct (active_contract db) as [[c|]|] eqn:Eac; [|by injection Hx as <- <-|done].
  destruct (str_eqb _ _) eqn:Eq; injection Hx as <- <-; [|done]. intros _.
  apply str_eqb_eq in Eq. split_and!; [by exists c| |done].
  destruct Hopen as [Hh|Hact]; [left|by right]. unfold public_writer_claims_admitted. by rewrite Hh.
Qed.

Lemma complete_or_cut_sound db d now db' pass :
  db_ok db → a_health_state (db_authority db) = Store.Ready ∨ is_Some (a_active_transition_id (db_authority db)) →
  complete_or_cut db d now = (db', Ok pass) → admission_sound d db' pass.
Proof.
  intros Hok Hopen. unfold complete_or_cut.
  destruct (complete_online_writer_transition db d now) as [db1 [o|e]] eqn:E; [|done].
  apply complete_outcome in E as [Hok1 Ho]; [|done].
  destruct o; cbn in Ho |- *; intros Hx; try (injection Hx as <- <-); try done.
  - destruct Ho as (_ & Hh & Hc). intros _. split_and!; [by apply committed_active| |done].
    left. unfold public_writer_claims_admitted. by rewrite Hh.
  - destruct Ho as [id [_ Ha _ _ _]]. intros _. split_and!; [| |done].
    + apply committed_active; [done|]. by rewrite Ha.
    + left. unfold public_writer_claims_admitted. by rewrite Ha.
  - subst db1. by apply (hard_cut_sound db d now).
  - subst db1. destruct (latch _ _) as [db2 [b|e]]; [|done]. by injection Hx as <- <-.
Qed.

(** C28: The startup barrier only moves the store through the calls of its interface;
    and when its outcome admits ordinary writers, the contract in force is the desired one
    and can be loaded, the token is the one of the current claim fence, and either
    claims are open or a transition is still under way, which keeps them closed. *)
Theorem barrier_admission_sound db d now db' pass :
  reachable db → bootstrap_writer_barrier db d now = (db', Ok pass) →
  reachable db'
  ∧ (public_writer_admitted pass.1 = true →
     (∃ c, active_contract db' = Ok (Some c) ∧ contract_id c = contract_id d)
     ∧ (public_writer_claims_admitted db' = true ∨ is_Some (a_active_transition_id (db_authority db')))
     ∧ pass.2 = Some (a_claim_fence_epoch (db_authority db'))).
Proof.
  intros Hdb Hb. split.
  { apply (reachable_reaches db); [done|]. pose proof (barrier_reaches db d now) as Hr. by rewrite Hb in Hr. }
  fold (admission_sound d db' pass). unfold bootstrap_writer_barrier in Hb.
  pose proof (reachable_reaches _ _ Hdb (reconcile_reaches db now)) as Hdb1.
  destruct (latch db (reconcile_writer_runtime_availability db true now)) as [db1 [b1|e1]]; [|done].
  cbn in Hb, Hdb1. pose proof (reachable_reaches _ _ Hdb1 (clear_unsupported_reaches db1 now)) as Hdb2.
  destruct (latch db1 (clear_writer_unsupported_transition db1 now)) as [db2 [b2|e2]]; [|done].
  cbn in Hb, Hdb2. apply reachable_ok in Hdb2.
  destruct (observe_desired_contract db2 d) as [[o tok]|e] eqn:Eo; [|done].
  pose proof (observe_sound _ _ _ _ Hdb2 Eo) as Hs.
  destruct o; try (by injection Hb as <- <-).
  - apply (complete_or_cut_sound db2 d now); [done| |done].
    unfold observe_desired_contract in Eo. destruct Hdb2 as [_ [A1 _ _]]. unfold authority_check in A1.
    destruct (a_health_state (db_authority db2)); try done; [by left|right]. bools.
    destruct (a_active_transition_id _); [by eexists|done].
  - destruct (latch _ _) as [db3 [b3|e3]]; [|done]. by injection Hb as <- <-.
  - by apply observe_no_cut in Eo.
Qed.

(** ** Progress of a tick *)

Lemma latches_idle db now :
  a_health_state (db_authority db) = Store.Ready ∨ a_health_state (db_authority db) = Store.Transitioning →
  reconcile_writer_runtime_availability db true now = Ok (db, false)
  ∧ clear_writer_unsupported_transition db now = Ok (db, false).
Proof.
  intros Hh. unfold reconcile_writer_runtime_availability, clear_writer_unsupported_transition,
    update_authority_where. by destruct Hh as [-> | ->].
Qed.

Lemma observe_rescan db d c :
  a_health_state (db_authority db) = Store.Ready ∨ a_health_state (db_authority db) = Store.Transitioning →
  active_contract db = Ok (Some c) → delta_strategy (delta_between (Some c) d) = PdfRootRescan →
  running_count db = 0 →
  observe_desired_contract db d = Ok (TransitionRequired, None).
Proof.
  intros Hh Hc Hd Hrun. unfold observe_desired_contract, observe_writer_contract_transition.
  rewrite Hc. cbn [map_err result_bind]. rewrite Hd, Hrun. by destruct Hh as [-> | ->].
Qed.

(** C21: In a quiet store whose writer is not latched shut and whose committed contract
    can move to the desired one, a single worker tick finishes the transition: ordinary
    writers run in that very tick, the store admits claims, and the desired contract is
    committed.  A whole tick does so whenever one of its runtimes is available and no stop
    is requested; without a runtime it leaves the store alone. *)
Theorem tick_completes_transition db d c now :
  reachable db → handover_ready db d now →
  a_health_state (db_authority db) = Store.Ready ∨ a_health_state (db_authority db) = Store.Transitioning →
  active_contract db = Ok (Some c) → delta_strategy (delta_between (Some c) d) = PdfRootRescan →
  ∃ db', tick_writer_admission db d now = (db', Ok true)
         ∧ public_writer_claims_admitted db' = true
         ∧ a_committed_contract_id (db_authority db') = Some (contract_id d)
         ∧ ∀ gates, worker_tick_admission false gates db d now
                    = if gates_open gates then (db', Ok (Some true)) else (db, Ok None).
Proof.
  intros Hdb Hready Hh Hc Hd.
  assert (∃ db', complete_online_writer_transition db d now = (db', Ok OutcomeTargetCommitted)) as [db' Hx]
    by (by apply quiet_commits; [apply reachable_ok|]).
  exists db'.
  assert (tick_writer_admission db d now = (db', Ok true)) as Ht.
  { unfold tick_writer_admission, bootstrap_writer_barrier.
    rewrite (observe_rescan db d c) by (done || apply Hready).
    cbn [admits_priority andb]. destruct (latches_idle db now Hh) as [Hr Hcl].
    rewrite Hr. cbn [latch step_bind]. rewrite Hcl. cbn [latch step_bind].
    rewrite (observe_rescan db d c) by (done || apply Hready). unfold complete_or_cut. by rewrite Hx. }
  apply complete_outcome in Hx as [_ [id [_ Ha _ _ _]]]; [|by apply reachable_ok].
  split; [done|]. unfold public_writer_claims_admitted. split_and!; [by rewrite Ha..|].
  intros [i p o x]. unfold worker_tick_admission, gates_open. cbn. rewrite Ht. by destruct i, o, x.
Qed.

(** ** What the daemon publishes *)

(** For every reachable store, the writer health the daemon publishes passes the health
    contract, and it admits public writers exactly when the store admits claims. *)
Theorem published_health_matches_fence db :
  reachable db →
  let w := writer_health_from_store (Some (writer_authority_snapshot db)) in
  valid_writer w = true ∧ admits_public_writers w = public_writer_claims_admitted db
  ∧ (writer_gate w = None ↔ public_writer_claims_admitted db = true).
Proof.
  intros Hdb. cbn zeta. split_and!.
  - apply writer_health_from_store_valid. intros s [= <-]. by apply reachable_authority_wf.
  - unfold writer_health_from_store, writer_health_from_snapshot, writer_authority_snapshot,
      admits_public_writers, public_writer_claims_admitted. cbn. by destruct (a_health_state _).
  - unfold writer_health_from_store, writer_health_from_snapshot, writer_authority_snapshot,
      writer_gate, public_writer_claims_admitted. cbn. by destruct (a_health_state _).
Qed.

(** A daemon whose configured classifier runtime failed to start never moves the
    writer contract: its bootstrap leaves the committed and the desired contract, the
    transition under way, every transition row and every task as they were, and writers
    are unavailable afterwards. *)
Theorem unavailable_runtime_commits_nothing db scan d now db' recovered :
  bootstrap_writer db scan true false d now = (db', Ok recovered) →
  a_committed_contract_id (db_authority db') = a_committed_contract_id (db_authority db)
  ∧ a_desired_contract_id (db_authority db') = a_desired_contract_id (db_authority db)
  ∧ a_active_transition_id (db_authority db') = a_active_transition_id (db_authority db)
  ∧ db_active_contract db' = db_active_contract db ∧ db_contracts db' = db_contracts db
  ∧ db_transitions db' = db_transitions db ∧ db_tasks db' = db_tasks db
  ∧ a_health_state (db_authority db') = Store.Unavailable.
Proof.
  unfold bootstrap_writer. intros Hb.
  assert (∃ db1 n, (db1 = db ∨ ∃ s r u, db1 = with_authority db (set_health (db_authority db) s r u))
    ∧ step_bind (mark db1 (mark_writer_runtime_unavailable db1 now)) (λ db _, (db, Ok n))
      = (db', Ok recovered)) as (db1 & n & Hdb1 & Hm).
  { unfold normalize_orphaned_running_tasks_for_writer_bootstrap in Hb. destruct scan; try done.
    - destruct (clear_writer_blocked_by_running_owner db now) as [[db1 b]|e] eqn:E; [|done]. cbn in Hb.
      unfold clear_writer_blocked_by_running_owner in E.
      apply update_authority_where_ok in E as [_ E]. exists db1. eexists. split; [|exact Hb].
      destruct b; [right|by left]. apply update_authority_ok in E as [_ ->].
      destruct (cleared_health_shape (db_authority db) now) as (s & r & u & -> & _). by do 3 eexists.
    - destruct (mark_writer_blocked_by_running_owner db now) as [db1|e] eqn:E; [|done]. cbn in Hb.
      exists db1. eexists. split; [|exact Hb].
      apply update_authority_ok in E as [_ ->]. right. by do 3 eexists. }
  destruct (mark_writer_runtime_unavailable db1 now) as [db2|e] eqn:E; [|done].
  apply update_authority_ok in E as [_ ->]. injection Hm as <- _.
  by destruct Hdb1 as [->|(s & r & u & ->)].
Qed.
End theorems.

(** ** The upgrade of [WriterTransition.Demo], seen by the daemon *)

Module CoordinatorDemo.
Import WriterTransition.Demo.
#[local] Existing Instance toy_sha256.
#[local] Existing Instance toy_sha256_laws.

Lemma pair_result {A B} (r : A * B) b : r.2 = b → r = (r.1, b).
Proof. destruct r. by intros <-. Qed.

Lemma barrier6_admits :
  (bootstrap_writer_barrier store6 new_contract 20).2 = Ok (CoordinatorTargetCommitted, Some 1).
Proof. vm_compute. reflexivity. Qed.

Lemma barrier_admission_sound_witness :
  let r := bootstrap_writer_barrier store6 new_contract 20 in
  reachable store6 ∧ r.2 = Ok (CoordinatorTargetCommitted, Some 1)
  ∧ ∃ c, active_contract r.1 = Ok (Some c) ∧ contract_id c = contract_id new_contract.
Proof.
  cbn zeta. split; [exact store6_reachable|]. split; [exact barrier6_admits|].
  destruct (barrier_admission_sound store6 new_contract 20 _ _ store6_reachable
    (pair_result (bootstrap_writer_barrier store6 new_contract 20) _ barrier6_admits)) as [_ Hs].
  destruct (Hs eq_refl) as [Hc _]. exact Hc.
Defined.

Lemma store6_contract : active_contract store6 = Ok (Some old_contract).
Proof. vm_compute. reflexivity. Qed.

Lemma tick_completes_transition_witness :
  reachable store6 ∧ handover_ready store6 new_contract 20
  ∧ ∃ db', tick_writer_admission store6 new_contract 20 = (db', Ok true)
           ∧ public_writer_claims_admitted db' = true
           ∧ a_committed_contract_id (db_authority db') = Some (contract_id new_contract)
           ∧ ∀ gates, worker_tick_admission false gates store6 new_contract 20
                      = if gates_open gates then (db', Ok (Some true)) else (store6, Ok None).
Proof.
  split; [exact store6_reachable|]. split; [exact store6_ready|].
  apply (tick_completes_transition store6 new_contract old_contract 20).
  - exact store6_reachable.
  - exact store6_ready.
  - right. vm_compute. reflexivity.
  - exact store6_contract.
  - vm_compute. reflexivity.
Defined.

Lemma published_health_matches_fence_witness :
  reachable store5
  ∧ valid_writer (writer_health_from_store (Some (writer_authority_snapshot store5))) = true.
Proof.
  split; [exact store5_reachable|].
  exact (proj1 (published_health_matches_fence store5 store5_reachable)).
Defined.

Lemma failed_runtime_starts :
  (bootstrap_writer store5 (Recovered 1) true false newer_contract 40).2 = Ok 1.
Proof. vm_compute. reflexivity. Qed.

Lemma unavailable_runtime_commits_nothing_witness :
  let r := bootstrap_writer store5 (Recovered 1) true false newer_contract 40 in
  r.2 = Ok 1
  ∧ a_committed_contract_id (db_authority r.1) = a_committed_contract_id (db_authority store5).
Proof.
  cbn zeta. split; [exact failed_runtime_starts|].
  destruct (unavailable_runtime_commits_nothing store5 (Recovered 1) newer_contract 40 _ _
    (pair_result (bootstrap_writer store5 (Recovered 1) true false newer_contract 40) _
       failed_runtime_starts)) as [Hc _]. exact Hc.
Defined.

(** A daemon that desires the committed contract again finds it active and admits
    ordinary writers, while the transition that an intermediate build opened still
    keeps the store closed to every claim. *)
Example downgrade_admits_into_a_closed_store :
  match bootstrap_writer_barrier store6 old_contract 20 with
  | (db', Ok (outcome, _)) =>
      public_writer_admitted outcome = true ∧ public_writer_claims_admitted db' = false
      ∧ a_active_transition_id (db_authority db') = Some open_id
  | _ => False
  end.
Proof. vm_compute. split_and!; reflexivity. Qed.
End CoordinatorDemo.
