(* ===== verification/VectorSnapshot.v ===== *)
(** * Vector snapshots (crates/index-vector)

    Immutable generations of embedding vectors: documents and their validation
    (model.rs), canonical digests (snapshot_identity.rs), successor updates
    (snapshot_model.rs), the encrypted payload with its manifest (codec.rs) and the
    publication of a generation through a staging directory (store.rs).

    Everything that happens outside the crate is an argument.  A [World] scripts
    the cancellation checks and the system calls: the calls succeed once the script is
    used up, and a scripted fault makes one fail after some bytes.  [serde_json], the
    cipher and SHA-256 are parameters with the laws their users rely on. *)

From Stdlib Require Import ZArith String.
From stdpp Require Import prelude gmap.
From Corelib Require Import SpecFloat.
From S2P Require Import Prelude Collections Float32 Float64 Text Identity SearchMetadata Coordinator.

Local Open Scope Z_scope.

Inductive VectorIndexError :=
| Cancelled
| PublicationBusy
| InvalidDimension (expected actual : Z)
| InvalidVectorValue
| InvalidModelId
| InvalidIdentity
| InvalidGeneration
| InvalidModelContract
| SemanticUnavailable
| PublicationProjectionMismatch
| DuplicateVectorId
| ConflictingDocumentVersion
| GenerationAlreadyExists
| GenerationNotFound
| LeaseRootMismatch
| SchemaMismatch
| CorruptSnapshot
| StorageLayoutInvalid
| Storage.

#[export] Instance VectorIndexError_eq_dec : EqDecision VectorIndexError.
Proof. solve_decision. Defined.

(** ** Computations *)

(** The remaining cancellation answers, and the remaining faults: [Some (e, n)] fails a
    system call with [e], after [n] bytes when it writes. *)
Record World := MkWorld {
  w_cancel : list bool;
  w_faults : list (option (VectorIndexError * nat));
}.

Definition quiet : World := MkWorld [] [].

(** A fallible step on the world and a state [S]. *)
Definition M (S A : Type) : Type := World * S → (World * S) * result A VectorIndexError.

#[export] Instance M_ret S : MRet (M S) := λ A a st, (st, Ok a).
#[export] Instance M_bind S : MBind (M S) := λ A B f m st,
  match m st with
  | (st', Ok a) => f a st'
  | (st', Err e) => (st', Err e)
  end.

Definition fail {S A} (e : VectorIndexError) : M S A := λ st, (st, Err e).
Definition lift {S A} (r : result A VectorIndexError) : M S A := λ st, (st, r).
Definition get {S} : M S S := λ st, (st, Ok st.2).
Definition put {S} (s : S) : M S () := λ st, ((st.1, s), Ok tt).

(** [publish_control.rs]. *)
Definition SNAPSHOT_PUBLISH_RECORD_INTERVAL : Z := 64.

Definition check {S} : M S () := λ '(w, s),
  match w_cancel w with
  | [] => ((w, s), Ok tt)
  | answer :: rest =>
      ((MkWorld rest (w_faults w), s), if answer then Err Cancelled else Ok tt)
  end.

Definition check_after_record {S} (completed : Z) : M S () :=
  if completed mod SNAPSHOT_PUBLISH_RECORD_INTERVAL =? 0 then check else mret tt.

(** A system call that writes at most [n] bytes before it fails. *)
Definition sys {S} : M S (option (VectorIndexError * nat)) := λ '(w, s),
  match w_faults w with
  | [] => ((w, s), Ok None)
  | fault :: rest => ((MkWorld (w_cancel w) rest, s), Ok fault)
  end.

Definition sys_ok {S} : M S () :=
  fault ← sys;
  match fault with Some (e, _) => fail e | None => mret tt end.

(** [for (index, x) in xs.iter().enumerate() { .. control.check_after_record(index + 1)?; }]. *)
Fixpoint for_records {S A B} (f : A → M S B) (index : Z) (xs : list A) : M S (list B) :=
  match xs with
  | [] => mret []
  | x :: xs =>
      y ← f x;
      _ ← check_after_record (index + 1);
      ys ← for_records f (index + 1) xs;
      mret (y :: ys)
  end.

(** The same loop with an accumulator. *)
Fixpoint fold_records {S A C} (f : C → A → M S C) (index : Z) (acc : C) (xs : list A) : M S C :=
  match xs with
  | [] => mret acc
  | x :: xs =>
      acc ← f acc x;
      _ ← check_after_record (index + 1);
      fold_records f (index + 1) acc xs
  end.

(** ** Documents (model.rs) *)

Record VectorDocumentIdentity := MkIdentity {
  vi_vector_id : str;
  vi_document_id : str;
  vi_resume_version_id : str;
  vi_model_id : str;
}.

Record VectorDocument := MkDocument {
  vd_identity : VectorDocumentIdentity;
  vd_values : list f32;
}.

#[export] Instance VectorDocumentIdentity_eq_dec : EqDecision VectorDocumentIdentity.
Proof. solve_decision. Defined.
#[export] Instance VectorDocument_eq_dec : EqDecision VectorDocument.
Proof. solve_decision. Defined.

Definition doc_vector_id (d : VectorDocument) : str := vi_vector_id (vd_identity d).
Definition doc_document_id (d : VectorDocument) : str := vi_document_id (vd_identity d).
Definition doc_resume_version_id (d : VectorDocument) : str := vi_resume_version_id (vd_identity d).
Definition doc_model_id (d : VectorDocument) : str := vi_model_id (vd_identity d).

Definition STABLE_ID_DIGEST_LEN : Z := 32.

Definition vector_stable_id (value prefix : str) : result unit VectorIndexError :=
  match strip_prefix prefix value with
  | None => Err InvalidIdentity
  | Some digest =>
      if (str_len digest =? STABLE_ID_DIGEST_LEN) && forallb is_lower_hexdigit (utf8 digest)
      then Ok tt
      else Err InvalidIdentity
  end.

Definition validate_vector_values (values : list f32) : result unit VectorIndexError :=
  match values with
  | [] => Err (InvalidDimension 1 0)
  | _ => if forallb f32_is_finite values then Ok tt else Err InvalidVectorValue
  end.

Definition validate_dimension (expected : Z) (values : list f32) : result unit VectorIndexError :=
  if len values =? expected then Ok tt else Err (InvalidDimension expected (len values)).

Definition check_model_id (model_id : str) : result unit VectorIndexError :=
  if validate_model_id model_id then Ok tt else Err InvalidModelId.

Definition document_identity_new (vector_id document_id resume_version_id model_id : str)
    : result VectorDocumentIdentity VectorIndexError :=
  let? _ := vector_stable_id vector_id (lit "vec_") in
  let? _ := vector_stable_id document_id (lit "doc_") in
  let? _ := vector_stable_id resume_version_id (lit "ver_") in
  let? _ := check_model_id model_id in
  Ok (MkIdentity vector_id document_id resume_version_id model_id).

Definition document_new (identity : VectorDocumentIdentity) (values : list f32)
    : result VectorDocument VectorIndexError :=
  let? _ := validate_vector_values values in
  Ok (MkDocument identity values).

(** [VectorModelContract::validate] with its errors. *)
Definition contract_validate (c : VectorModelContract) : result unit VectorIndexError :=
  match c with
  | ContractDisabled => Ok tt
  | ContractEnabled model_id dimension =>
      let? _ := check_model_id model_id in
      if dimension =? 0 then Err (InvalidDimension 1 0)
      else if MAX_VECTOR_DIMENSION <? dimension then Err (InvalidDimension MAX_VECTOR_DIMENSION dimension)
      else Ok tt
  end.

(** [VectorModelContract::enabled]. *)
Definition model_contract_enabled (model_id : str) (dimension : Z)
    : result VectorModelContract VectorIndexError :=
  let contract := ContractEnabled model_id dimension in
  let? _ := contract_validate contract in
  Ok contract.

(** [f32::to_bits]: sign, biased exponent, fraction. *)
Definition f32_to_bits (x : f32) : Z :=
  let sign (s : bool) : Z := if s then 2 ^ 31 else 0 in
  match x with
  | S754_zero s => sign s
  | S754_infinity s => sign s + 0x7f800000
  | S754_nan => 0x7fc00000
  | S754_finite s m e =>
      if Z.pos m <? 2 ^ 23 then sign s + Z.pos m
      else sign s + (e + 150) * 2 ^ 23 + (Z.pos m - 2 ^ 23)
  end.

Section snapshot.
Context `{Sha256} {S : Type}.

(** ** Projections and digests (snapshot_model.rs, snapshot_identity.rs) *)

Definition projection_pair (p : ActiveSearchProjection) : str * str :=
  (id_str (proj_document_id p), id_str (proj_resume_version_id p)).

Definition projection_digest_of (pairs : list (str * str)) : result ContentDigest VectorIndexError :=
  map_err (λ _, PublicationProjectionMismatch) (search_projection_digest_from_pairs pairs).

Definition validate_projection_with_control (projection : list ActiveSearchProjection)
    : M S (list (str * str)) :=
  _ ← check;
  pairs ← for_records (λ p, mret (projection_pair p)) 0 projection;
  _ ← lift (projection_digest_of pairs);
  _ ← check;
  validated ← fold_records (λ m p, mret (bmap_entry p.1 (λ _, p.2) m)) 0 [] pairs;
  _ ← check;
  mret validated.

Definition projection_digest_with_control (projection : list ActiveSearchProjection)
    : M S ContentDigest :=
  _ ← check;
  pairs ← for_records (λ p, mret (projection_pair p)) 0 projection;
  digest ← lift (projection_digest_of pairs);
  _ ← check;
  mret digest.

Definition projection_order (x y : ActiveSearchProjection) : comparison :=
  then_with (cmp (id_str (proj_document_id x)) (id_str (proj_document_id y)))
    (cmp (id_str (proj_resume_version_id x)) (id_str (proj_resume_version_id y))).

Definition canonical_projection_with_control (projection : list ActiveSearchProjection)
    : M S (list ActiveSearchProjection) :=
  _ ← validate_projection_with_control projection;
  canonical ← for_records mret 0 projection;
  _ ← check;
  let canonical := sort_by projection_order canonical in
  _ ← check;
  mret canonical.

Definition coverage_digest_with_control (documents : list VectorDocument) : M S ContentDigest :=
  _ ← check;
  pairs ← fold_records
    (λ set d, mret (bset_insert (doc_document_id d, doc_resume_version_id d) set)) 0 [] documents;
  digest ← lift (projection_digest_of pairs);
  _ ← check;
  mret digest.

Definition value_digest (value : list Z) : list Z := utf8 (digest_str (content_digest_from_bytes value)).

Definition document_content (d : VectorDocument) : M S (list Z) :=
  let ids :=
    concat (map (λ s, value_digest (utf8 s))
      [doc_vector_id d; doc_document_id d; doc_resume_version_id d; doc_model_id d]) in
  bits ← for_records (λ x, mret (to_le_bytes 4 (f32_to_bits x))) 0 (vd_values d);
  mret (value_digest (ids ++ to_le_bytes 8 (len (vd_values d)) ++ concat bits)).

Definition contract_content (c : VectorModelContract) : list Z :=
  match c with
  | ContractDisabled => [0]
  | ContractEnabled model_id dimension =>
      1 :: value_digest (utf8 model_id) ++ to_le_bytes 8 dimension
  end.

Definition vector_order (x y : VectorDocument) : comparison :=
  cmp (doc_vector_id x) (doc_vector_id y).

Definition logical_content_digest_with_control (c : VectorModelContract)
    (projection : list ActiveSearchProjection) (documents : list VectorDocument)
    : M S ContentDigest :=
  _ ← check;
  projection_digest ← projection_digest_with_control projection;
  sorted ← for_records mret 0 documents;
  _ ← check;
  let sorted := sort_by vector_order sorted in
  _ ← check;
  contents ← for_records document_content 0 sorted;
  _ ← check;
  mret (content_digest_from_bytes
          (utf8 (lit "resume-ir.vector.logical-content.v4") ++ contract_content c
           ++ utf8 (digest_str projection_digest) ++ to_le_bytes 8 (len sorted) ++ concat contents)).

(** ** Documents against a projection *)

Definition is_contract_disabled (c : VectorModelContract) : bool :=
  match c with ContractDisabled => true | _ => false end.

Definition opt_is (o : option str) (s : str) : bool :=
  match o with Some x => str_eqb x s | None => false end.

(** The body of the loop: the vector ids and the version of each document so far. *)
Definition validate_document (c : VectorModelContract) (active : list (str * str))
    (acc : list str * list (str * str)) (d : VectorDocument)
    : result (list str * list (str * str)) VectorIndexError :=
  match c with
  | ContractDisabled => Err InvalidModelContract
  | ContractEnabled model_id dimension =>
      let? _ := validate_dimension dimension (vd_values d) in
      let? _ := validate_vector_values (vd_values d) in
      if negb (str_eqb (doc_model_id d) model_id) then Err InvalidModelContract
      else if negb (opt_is (bmap_lookup (doc_document_id d) active) (doc_resume_version_id d))
      then Err PublicationProjectionMismatch
      else if bset_contains (doc_vector_id d) acc.1 then Err DuplicateVectorId
      else
        match bmap_lookup (doc_document_id d) acc.2 with
        | Some version =>
            if negb (str_eqb version (doc_resume_version_id d)) then Err ConflictingDocumentVersion
            else Ok (bset_insert (doc_vector_id d) acc.1,
                     bmap_entry (doc_document_id d) (λ _, doc_resume_version_id d) acc.2)
        | None =>
            Ok (bset_insert (doc_vector_id d) acc.1,
                bmap_entry (doc_document_id d) (λ _, doc_resume_version_id d) acc.2)
        end
  end.

Definition validate_documents_with_control (c : VectorModelContract)
    (projection : list ActiveSearchProjection) (documents : list VectorDocument) : M S () :=
  _ ← check;
  _ ← lift (contract_validate c);
  active ← validate_projection_with_control projection;
  if is_contract_disabled c && negb (bool_decide (documents = [])) then fail InvalidModelContract
  else
    _ ← fold_records (λ acc d, lift (validate_document c active acc d)) 0 ([], []) documents;
    check.

(** ** Summaries and updates (snapshot_model.rs) *)

Record VectorSnapshotDigests := MkDigests {
  dg_projection : ContentDigest;
  dg_coverage : ContentDigest;
  dg_logical_content : ContentDigest;
  dg_artifact : ContentDigest;
}.

#[export] Instance VectorSnapshotSummary_eq_dec : EqDecision VectorSnapshotSummary.
Proof. solve_decision. Defined.

(** [VectorSnapshotSummary::from_contents_with_control]. *)
Definition summary_from_contents (generation : str) (c : VectorModelContract)
    (projection : list ActiveSearchProjection) (documents : list VectorDocument)
    (digests : VectorSnapshotDigests) : M S VectorSnapshotSummary :=
  _ ← check;
  vector_documents ← fold_records (λ set d, mret (bset_insert (doc_document_id d) set)) 0 [] documents;
  _ ← check;
  mret (MkSummary generation c (len documents) (len projection) (len vector_documents)
          (dg_projection digests) (dg_coverage digests) (dg_logical_content digests)
          (dg_artifact digests)).

Record VectorSnapshotUpdate := MkUpdate {
  up_active_projection : list ActiveSearchProjection;
  up_replacement_documents : list VectorDocument;
  up_removed_vector_ids : list str;
}.

Definition kept (update : VectorSnapshotUpdate) (versions : list (str * str)) (replaced : list str)
    (d : VectorDocument) : bool :=
  opt_is (bmap_lookup (doc_document_id d) versions) (doc_resume_version_id d)
  && negb (bset_contains (doc_vector_id d) (up_removed_vector_ids update))
  && negb (bset_contains (doc_vector_id d) replaced).

(** [apply_documents_with_control]. *)
Definition apply_documents_with_control (update : VectorSnapshotUpdate) (base : list VectorDocument)
    : M S (list ActiveSearchProjection * list VectorDocument) :=
  _ ← check;
  versions ← fold_records
    (λ m p, mret (bmap_entry (projection_pair p).1 (λ _, (projection_pair p).2) m)) 0 []
    (up_active_projection update);
  replaced ← fold_records (λ set d, mret (bset_insert (doc_vector_id d) set)) 0 []
    (up_replacement_documents update);
  documents ← fold_records
    (λ out d, mret (if kept update versions replaced d then out ++ [d] else out)) 0 [] base;
  documents ← fold_records (λ out d, mret (out ++ [d])) 0 documents (up_replacement_documents update);
  _ ← check;
  mret (up_active_projection update, documents).
End snapshot.

(** [validate_projection]: the control is disabled. *)
Definition validate_projection `{Sha256} (projection : list ActiveSearchProjection)
    : result (list (str * str)) VectorIndexError :=
  (validate_projection_with_control projection (quiet, tt)).2.

(** [VectorSnapshotUpdate::new]; the removed ids are a [BTreeSet]. *)
Definition update_new `{Sha256} (active : list ActiveSearchProjection) (replacements : list VectorDocument)
    (removed : list str) : result VectorSnapshotUpdate VectorIndexError :=
  let? versions := validate_projection active in
  let? _ := collect_results (λ id, vector_stable_id id (lit "vec_")) removed in
  let? _ := collect_results (λ d,
       if opt_is (bmap_lookup (doc_document_id d) versions) (doc_resume_version_id d)
       then Ok tt else Err PublicationProjectionMismatch) replacements in
  Ok (MkUpdate active replacements removed).

(** ** JSON values *)

Inductive Number := NPos (n : Z) | NNeg (n : Z) | NFloat (x : f64).

(** [serde_json::Value]; an object is a [BTreeMap]. *)
Inductive Value :=
| VNull
| VBool (b : bool)
| VNumber (n : Number)
| VString (s : str)
| VArray (values : list Value)
| VObject (members : list (str * Value)).

Definition as_u64 (v : Value) : option Z :=
  match v with VNumber (NPos n) => Some n | _ => None end.

Definition as_f64 (v : Value) : option f64 :=
  match v with
  | VNumber (NPos n) | VNumber (NNeg n) => Some (f64_of_Z n)
  | VNumber (NFloat x) => Some x
  | _ => None
  end.

Definition as_str (v : Value) : option str := match v with VString s => Some s | _ => None end.
Definition as_array (v : Value) : option (list Value) := match v with VArray l => Some l | _ => None end.
Definition as_object (v : Value) : option (list (str * Value)) :=
  match v with VObject m => Some m | _ => None end.

(** [json!] of an object, an optional string or number, and an [f32]. *)
Definition json_object (members : list (string * Value)) : Value :=
  VObject (fold_left (λ m kv, bmap_entry (lit kv.1) (λ _, kv.2) m) members []).
Definition json_opt_str (o : option str) : Value := match o with Some s => VString s | None => VNull end.
Definition json_usize (n : Z) : Value := VNumber (NPos n).
Definition json_opt_usize (o : option Z) : Value :=
  match o with Some n => json_usize n | None => VNull end.
Definition json_f32 (x : f32) : Value :=
  if f32_is_finite x then VNumber (NFloat (f64_of_f32 x)) else VNull.

(** What a text says of a value: its shape, strings and integers, and each float up
    to its rounding to [f32]. *)
Inductive json_close : Value → Value → Prop :=
| close_null : json_close VNull VNull
| close_bool b : json_close (VBool b) (VBool b)
| close_pos n : json_close (VNumber (NPos n)) (VNumber (NPos n))
| close_neg n : json_close (VNumber (NNeg n)) (VNumber (NNeg n))
| close_float x y : f64_to_f32 x = f64_to_f32 y → json_close (VNumber (NFloat x)) (VNumber (NFloat y))
| close_string s : json_close (VString s) (VString s)
| close_array l k : Forall2 json_close l k → json_close (VArray l) (VArray k)
| close_object m n :
    Forall2 (λ a b, a.1 = b.1 ∧ json_close a.2 b.2) m n → json_close (VObject m) (VObject n).

(** [serde_json]: a written value is read back close to what it was, and a line feed
    after the text is white space. *)
Class SerdeJson := {
  json_to_vec : Value → option (list Z);
  json_from_bytes : list Z → option Value;
}.
Class SerdeJsonLaws `{SerdeJson} : Prop := {
  json_to_vec_total v : is_Some (json_to_vec v);
  json_roundtrip v text : json_to_vec v = Some text →
    text ≠ [] ∧ ∃ v', json_from_bytes text = Some v' ∧ json_close v v';
  json_newline text : json_from_bytes (text ++ [10]) = json_from_bytes text;
}.

(** The XChaCha20-Poly1305 cipher with associated data. *)
Class Aead := {
  aead_encrypt : list Z → list Z → list Z → list Z → option (list Z);
  aead_decrypt : list Z → list Z → list Z → list Z → option (list Z);
}.
Class AeadLaws `{Aead} : Prop := {
  aead_roundtrip key nonce aad msg c :
    aead_encrypt key nonce aad msg = Some c → aead_decrypt key nonce aad c = Some msg;
  aead_bytes key nonce aad msg c : aead_encrypt key nonce aad msg = Some c → Forall is_byte c;
}.

(** ** Private files (private_storage.rs) *)

Definition KEY_LEN : nat := 32.
Definition NONCE_LEN : nat := 24.
Definition ENCODED_KEY_LEN : Z := 64.
Definition MAX_KEY_FILE_BYTES : Z := 65.
Definition MAX_MANIFEST_BYTES : Z := 4096.

(** One generation's directory. *)
Record Dir := MkDir {
  d_key : option (list Z);
  d_snapshot : option (list Z);
  d_manifest : option (list Z);
}.

Definition empty_dir : Dir := MkDir None None None.

Inductive FileName := KeyFile | SnapshotFile | ManifestFile.

Definition dir_file (d : Dir) (f : FileName) : option (list Z) :=
  match f with
  | KeyFile => d_key d
  | SnapshotFile => d_snapshot d
  | ManifestFile => d_manifest d
  end.

Definition dir_write (d : Dir) (f : FileName) (bytes : list Z) : Dir :=
  match f with
  | KeyFile => MkDir (Some bytes) (d_snapshot d) (d_manifest d)
  | SnapshotFile => MkDir (d_key d) (Some bytes) (d_manifest d)
  | ManifestFile => MkDir (d_key d) (d_snapshot d) (Some bytes)
  end.

(** [create_private_file] and [write_all]: creation is exclusive, and a failed call may
    leave a part of the file. *)
Definition create_and_write (f : FileName) (bytes : list Z) : M Dir () :=
  d ← get;
  match dir_file d f with
  | Some _ => fail Storage
  | None =>
      fault ← sys;
      match fault with
      | Some (_, n) => _ ← put (dir_write d f (take n bytes)); fail Storage
      | None => put (dir_write d f bytes)
      end
  end.

(** [write_all] on the open file. *)
Definition append_file (f : FileName) (bytes : list Z) : M Dir () :=
  d ← get;
  let written := default [] (dir_file d f) in
  fault ← sys;
  match fault with
  | Some (_, n) => _ ← put (dir_write d f (written ++ take n bytes)); fail Storage
  | None => put (dir_write d f (written ++ bytes))
  end.

Definition write_private_bytes (f : FileName) (bytes : list Z) : M Dir () :=
  create_and_write f (bytes ++ [10]).

Definition read_private_bytes_with_limit (f : FileName) (max_bytes : option Z) : M Dir (list Z) :=
  d ← get;
  match dir_file d f with
  | None => fail GenerationNotFound
  | Some bytes =>
      _ ← sys_ok;
      match max_bytes with
      | Some max => if max <? len bytes then fail CorruptSnapshot else mret bytes
      | None => mret bytes
      end
  end.

(** [u8::from_str_radix(pair, 16)]: a plus sign may stand before the digits. *)
Definition hex_value (c : Z) : option Z :=
  if (48 <=? c) && (c <=? 57) then Some (c - 48)
  else if (97 <=? c) && (c <=? 102) then Some (c - 87)
  else if (65 <=? c) && (c <=? 70) then Some (c - 55)
  else None.

Definition decode_pair (a b : Z) : option Z :=
  if a =? 43 then hex_value b
  else
    match hex_value a, hex_value b with
    | Some x, Some y => Some (16 * x + y)
    | _, _ => None
    end.

(** [decode_hex] on the bytes of the text. *)
Fixpoint decode_hex_bytes (bs : list Z) : result (list Z) VectorIndexError :=
  match bs with
  | [] => Ok []
  | [_] => Err CorruptSnapshot
  | a :: b :: bs =>
      match decode_pair a b with
      | None => Err CorruptSnapshot
      | Some x => let? xs := decode_hex_bytes bs in Ok (x :: xs)
      end
  end.

Definition decode_hex (value : str) : result (list Z) VectorIndexError :=
  if str_len value mod 2 =? 0 then decode_hex_bytes (utf8 value) else Err CorruptSnapshot.

Definition decode_fixed_hex (n : nat) (value : str) : result (list Z) VectorIndexError :=
  let? bytes := decode_hex value in
  if (length bytes =? n)%nat then Ok bytes else Err CorruptSnapshot.

(** [std::str::from_utf8]. *)
Definition valid_charb (c : Z) : bool :=
  ((0 <=? c) && (c <? 0xD800)) || ((0xE000 <=? c) && (c <? 0x110000)).

Definition from_utf8 (bytes : list Z) : option str :=
  let s := utf8_decode bytes in
  if forallb valid_charb s && bool_decide (utf8 s = bytes) then Some s else None.

Definition read_key : M Dir (list Z) :=
  bytes ← read_private_bytes_with_limit KeyFile (Some MAX_KEY_FILE_BYTES);
  let encoded :=
    if len bytes =? ENCODED_KEY_LEN then Some bytes
    else if (len bytes =? MAX_KEY_FILE_BYTES) && bool_decide (last bytes = Some 10)
    then Some (take (Z.to_nat ENCODED_KEY_LEN) bytes)
    else None in
  match encoded with
  | None => fail CorruptSnapshot
  | Some encoded =>
      match from_utf8 encoded with
      | None => fail CorruptSnapshot
      | Some value => lift (decode_fixed_hex KEY_LEN value)
      end
  end.

(** The fresh key is an argument; drawing it is a system call. *)
Definition load_or_create_key (fresh : list Z) : M Dir (list Z) :=
  d ← get;
  match d_key d with
  | Some _ => read_key
  | None =>
      _ ← sys_ok;
      _ ← write_private_bytes KeyFile (hex_bytes fresh);
      _ ← sys_ok;
      mret fresh
  end.

(** ** The codec (codec.rs) *)

Definition PAYLOAD_SCHEMA : str := lit "vector.payload.v4".
Definition SEARCH_BACKEND : str := lit "hnsw_ann".
Definition ENCRYPTION : str := lit "xchacha20poly1305.v1".
Definition ENCRYPTED_HEADER : str := lit "resume-ir-vector-index-encrypted-v4".
Definition SNAPSHOT_MANIFEST_SCHEMA_V4 : str := lit "vector.snapshot.v4".
Definition VECTOR_INDEX_SCHEMA_V4 : str := lit "hnsw-vector.v4".

(** The fresh key and nonce of one publication. *)
Record Entropy := MkEntropy { en_key : list Z; en_nonce : list Z; en_suffix : str }.

(** [str::lines]. *)
Definition strip_cr (s : str) : str :=
  match strip_suffix [13] s with Some s => s | None => s end.

Fixpoint lines_from (cur : str) (s : str) : list str :=
  match s with
  | [] => match cur with [] => [] | _ => [cur] end
  | c :: s => if c =? 10 then strip_cr cur :: lines_from [] s else lines_from (cur ++ [c]) s
  end.

Definition str_lines (s : str) : list str := lines_from [] s.

Definition contract_model_id (c : VectorModelContract) : option str :=
  match c with ContractDisabled => None | ContractEnabled m _ => Some m end.
Definition contract_dimension (c : VectorModelContract) : option Z :=
  match c with ContractDisabled => None | ContractEnabled _ d => Some d end.

(** *** Fields of an object *)

Definition ensure_exact_keys (members : list (str * Value)) (expected : list str)
    : result unit VectorIndexError :=
  if bool_decide (bset_collect (map fst members) = bset_collect expected) then Ok tt
  else Err CorruptSnapshot.

Definition string_field (members : list (str * Value)) (field : string) : result str VectorIndexError :=
  ok_or (bmap_lookup (lit field) members ≫= as_str) CorruptSnapshot.

Definition usize_field (members : list (str * Value)) (field : string) : result Z VectorIndexError :=
  ok_or (bmap_lookup (lit field) members ≫= as_u64) CorruptSnapshot.

Definition array_field (members : list (str * Value)) (field : string)
    : result (list Value) VectorIndexError :=
  ok_or (bmap_lookup (lit field) members ≫= as_array) CorruptSnapshot.

Definition digest_field (members : list (str * Value)) (field : string)
    : result ContentDigest VectorIndexError :=
  let? value := string_field members field in
  ok_or (content_digest_from_str value) CorruptSnapshot.

Definition parse_model_contract (members : list (str * Value))
    : result VectorModelContract VectorIndexError :=
  match bmap_lookup (lit "model_id") members, bmap_lookup (lit "dimension") members with
  | Some VNull, Some VNull => Ok ContractDisabled
  | Some (VString model_id), Some (VNumber dimension) =>
      match as_u64 (VNumber dimension) with
      | Some dimension => map_err (λ _, CorruptSnapshot) (model_contract_enabled model_id dimension)
      | None => Err CorruptSnapshot
      end
  | _, _ => Err CorruptSnapshot
  end.

Definition parse_projection_entry (value : Value) : result ActiveSearchProjection VectorIndexError :=
  let? members := ok_or (as_object value) CorruptSnapshot in
  let? _ := ensure_exact_keys members [lit "document_id"; lit "resume_version_id"] in
  let? document_id := string_field members "document_id" in
  let? document_id := map_err (λ _, CorruptSnapshot) (id_from_str DocumentId document_id) in
  let? version_id := string_field members "resume_version_id" in
  let? version_id := map_err (λ _, CorruptSnapshot) (id_from_str ResumeVersionId version_id) in
  Ok (MkProjection document_id version_id).

Definition parse_value (value : Value) : result f32 VectorIndexError :=
  match as_f64 value with
  | Some x => if f32_is_finite (f64_to_f32 x) then Ok (f64_to_f32 x) else Err CorruptSnapshot
  | None => Err CorruptSnapshot
  end.

Definition parse_document (value : Value) : result VectorDocument VectorIndexError :=
  let? members := ok_or (as_object value) CorruptSnapshot in
  let? _ := ensure_exact_keys members
    [lit "vector_id"; lit "document_id"; lit "resume_version_id"; lit "model_id"; lit "values"] in
  let? values := array_field members "values" in
  let? values := collect_results parse_value values in
  let? vector_id := string_field members "vector_id" in
  let? document_id := string_field members "document_id" in
  let? version_id := string_field members "resume_version_id" in
  let? model_id := string_field members "model_id" in
  let? identity := map_err (λ _, CorruptSnapshot)
    (document_identity_new vector_id document_id version_id model_id) in
  map_err (λ _, CorruptSnapshot) (document_new identity values).

Section codec.
Context `{Sha256} `{SerdeJson} `{Aead}.

(** *** Writing *)

Definition projection_json (p : ActiveSearchProjection) : Value :=
  json_object [("document_id"%string, VString (id_str (proj_document_id p)));
               ("resume_version_id"%string, VString (id_str (proj_resume_version_id p)))].

Definition document_json (d : VectorDocument) : Value :=
  json_object [("vector_id"%string, VString (doc_vector_id d));
               ("document_id"%string, VString (doc_document_id d));
               ("resume_version_id"%string, VString (doc_resume_version_id d));
               ("model_id"%string, VString (doc_model_id d));
               ("values"%string, VArray (map json_f32 (vd_values d)))].

Definition payload_json (generation : str) (c : VectorModelContract) (projection vectors : list Value)
    : Value :=
  json_object [("schema_version"%string, VString PAYLOAD_SCHEMA);
               ("generation"%string, VString generation);
               ("model_id"%string, json_opt_str (contract_model_id c));
               ("dimension"%string, json_opt_usize (contract_dimension c));
               ("active_projection"%string, VArray projection);
               ("vectors"%string, VArray vectors)].

Definition encrypted_text (nonce ciphertext : list Z) : list Z :=
  utf8 ENCRYPTED_HEADER ++ [10] ++ hex_bytes nonce ++ [10] ++ hex_bytes ciphertext ++ [10].

Definition ENCRYPTED_WRITE_CHUNK_BYTES : nat := Z.to_nat 65536.

Definition append_hex_with_control {S} (bytes : list Z) : M S (list Z) :=
  pairs ← for_records (λ b, mret (hex_byte b)) 0 bytes;
  mret (concat pairs).

(** [for chunk in encrypted.chunks(ENCRYPTED_WRITE_CHUNK_BYTES)]; there are at most as
    many chunks as bytes. *)
Fixpoint write_chunks (fuel : nat) (bytes : list Z) : M Dir () :=
  match fuel, bytes with
  | O, _ | _, [] => mret tt
  | Datatypes.S fuel, _ =>
      _ ← check;
      _ ← append_file SnapshotFile (take ENCRYPTED_WRITE_CHUNK_BYTES bytes);
      write_chunks fuel (drop ENCRYPTED_WRITE_CHUNK_BYTES bytes)
  end.

Definition write_encrypted_payload (entropy : Entropy) (plaintext : list Z) : M Dir ContentDigest :=
  _ ← check;
  key ← load_or_create_key (en_key entropy);
  _ ← sys_ok;
  _ ← check;
  ciphertext ← lift (ok_or (aead_encrypt key (en_nonce entropy) (utf8 ENCRYPTED_HEADER) plaintext) Storage);
  _ ← check;
  encoded ← append_hex_with_control ciphertext;
  let encrypted := utf8 ENCRYPTED_HEADER ++ [10] ++ hex_bytes (en_nonce entropy) ++ [10] ++ encoded ++ [10] in
  _ ← check;
  _ ← create_and_write SnapshotFile [];
  _ ← write_chunks (length encrypted) encrypted;
  _ ← check;
  _ ← sys_ok;
  _ ← check;
  mret (content_digest_from_bytes encrypted).

Definition manifest_json (s : VectorSnapshotSummary) : Value :=
  json_object [("schema_version"%string, VString SNAPSHOT_MANIFEST_SCHEMA_V4);
               ("index_schema"%string, VString VECTOR_INDEX_SCHEMA_V4);
               ("generation"%string, VString (vs_generation s));
               ("model_id"%string, json_opt_str (contract_model_id (vs_model_contract s)));
               ("dimension"%string, json_opt_usize (contract_dimension (vs_model_contract s)));
               ("vector_count"%string, json_usize (vs_vector_count s));
               ("projection_count"%string, json_usize (vs_projection_count s));
               ("vector_document_count"%string, json_usize (vs_vector_document_count s));
               ("projection_digest"%string, VString (digest_str (vs_projection_digest s)));
               ("coverage_digest"%string, VString (digest_str (vs_coverage_digest s)));
               ("logical_content_digest"%string, VString (digest_str (vs_logical_content_digest s)));
               ("artifact_digest"%string, VString (digest_str (vs_artifact_digest s)));
               ("search_backend"%string, VString SEARCH_BACKEND);
               ("encryption"%string, VString ENCRYPTION)].

Definition write_manifest (s : VectorSnapshotSummary) : M Dir () :=
  bytes ← lift (ok_or (json_to_vec (manifest_json s)) Storage);
  write_private_bytes ManifestFile bytes.

Definition write_snapshot_with_control (entropy : Entropy) (generation : str) (c : VectorModelContract)
    (projection : list ActiveSearchProjection) (documents : list VectorDocument)
    : M Dir VectorSnapshotSummary :=
  _ ← check;
  projection ← canonical_projection_with_control projection;
  _ ← validate_documents_with_control c projection documents;
  projection_digest ← projection_digest_with_control projection;
  coverage_digest ← coverage_digest_with_control documents;
  logical_content_digest ← logical_content_digest_with_control c projection documents;
  active_projection ← for_records (λ p, mret (projection_json p)) 0 projection;
  vectors ← for_records (λ d, mret (document_json d)) 0 documents;
  _ ← check;
  plaintext ← lift (ok_or (json_to_vec (payload_json generation c active_projection vectors)) Storage);
  _ ← check;
  artifact_digest ← write_encrypted_payload entropy plaintext;
  summary ← summary_from_contents generation c projection documents
    (MkDigests projection_digest coverage_digest logical_content_digest artifact_digest);
  _ ← check;
  _ ← write_manifest summary;
  _ ← check;
  _ ← sys_ok;
  _ ← check;
  mret summary.

(** *** Reading *)

Definition read_encrypted_payload (expected_artifact_digest : ContentDigest) : M Dir (list Z) :=
  encrypted ← read_private_bytes_with_limit SnapshotFile None;
  if negb (bool_decide (content_digest_from_bytes encrypted = expected_artifact_digest))
  then fail CorruptSnapshot
  else
    match from_utf8 encrypted with
    | None => fail CorruptSnapshot
    | Some text =>
        match str_lines text with
        | [] => fail CorruptSnapshot
        | header :: rest =>
            if negb (str_eqb header ENCRYPTED_HEADER) then fail SchemaMismatch
            else
              match rest with
              | [] => fail CorruptSnapshot
              | nonce :: rest =>
                  nonce ← lift (decode_fixed_hex NONCE_LEN nonce);
                  match rest with
                  | [] => fail CorruptSnapshot
                  | ciphertext :: rest =>
                      ciphertext ← lift (decode_hex ciphertext);
                      match rest with
                      | _ :: _ => fail CorruptSnapshot
                      | [] =>
                          key ← read_key;
                          lift (ok_or (aead_decrypt key nonce (utf8 ENCRYPTED_HEADER) ciphertext)
                                  CorruptSnapshot)
                      end
                  end
              end
        end
    end.

Definition map_staging_validation_error (e : VectorIndexError) : VectorIndexError :=
  match e with Cancelled => Cancelled | _ => CorruptSnapshot end.

(** [.map_err(map_staging_validation_error)]. *)
Definition staged {S A} (m : M S A) : M S A := λ st,
  let '(st', r) := m st in (st', map_err map_staging_validation_error r).

(** [VectorSnapshotManifestMetadata] has the columns of a summary. *)
Definition validate_manifest (members : list (str * Value)) (generation : str) (c : VectorModelContract)
    : result unit VectorIndexError :=
  let? schema := string_field members "schema_version" in
  if negb (str_eqb schema SNAPSHOT_MANIFEST_SCHEMA_V4) then Err SchemaMismatch
  else
    let? index_schema := string_field members "index_schema" in
    if negb (str_eqb index_schema VECTOR_INDEX_SCHEMA_V4) then Err SchemaMismatch
    else
      let? backend := string_field members "search_backend" in
      if negb (str_eqb backend SEARCH_BACKEND) then Err SchemaMismatch
      else
        let? encryption := string_field members "encryption" in
        if negb (str_eqb encryption ENCRYPTION) then Err SchemaMismatch
        else
          let? g := string_field members "generation" in
          if negb (str_eqb g generation) then Err CorruptSnapshot
          else
            let? contract := parse_model_contract members in
            if bool_decide (contract = c) then Ok tt else Err CorruptSnapshot.

Definition decode_manifest_metadata (bytes : list Z) (generation : str) (c : VectorModelContract)
    : result VectorSnapshotSummary VectorIndexError :=
  if bool_decide (bytes = []) || (MAX_MANIFEST_BYTES <? len bytes) then Err CorruptSnapshot
  else
    let? _ := contract_validate c in
    let? value := ok_or (json_from_bytes bytes) CorruptSnapshot in
    let? members := ok_or (as_object value) CorruptSnapshot in
    let? _ := ensure_exact_keys members
      [lit "schema_version"; lit "index_schema"; lit "generation"; lit "model_id"; lit "dimension";
       lit "vector_count"; lit "projection_count"; lit "vector_document_count";
       lit "projection_digest"; lit "coverage_digest"; lit "logical_content_digest";
       lit "artifact_digest"; lit "search_backend"; lit "encryption"] in
    let? _ := validate_manifest members generation c in
    let? vector_count := usize_field members "vector_count" in
    let? projection_count := usize_field members "projection_count" in
    let? vector_document_count := usize_field members "vector_document_count" in
    if (vector_count <? vector_document_count) || (projection_count <? vector_document_count)
       || (is_contract_disabled c
           && (negb (vector_count =? 0) || negb (vector_document_count =? 0)))
    then Err CorruptSnapshot
    else
      let? projection_digest := digest_field members "projection_digest" in
      let? coverage_digest := digest_field members "coverage_digest" in
      let? logical_content_digest := digest_field members "logical_content_digest" in
      let? artifact_digest := digest_field members "artifact_digest" in
      Ok (MkSummary generation c vector_count projection_count vector_document_count
            projection_digest coverage_digest logical_content_digest artifact_digest).

(** The header fields of the payload. *)
Definition decode_payload (value : Value) (generation : str) (c : VectorModelContract)
    : result (list (str * Value)) VectorIndexError :=
  let? members := ok_or (as_object value) CorruptSnapshot in
  let? _ := ensure_exact_keys members
    [lit "schema_version"; lit "generation"; lit "model_id"; lit "dimension";
     lit "active_projection"; lit "vectors"] in
  let? schema := string_field members "schema_version" in
  if negb (str_eqb schema PAYLOAD_SCHEMA) then Err SchemaMismatch
  else
    let? g := string_field members "generation" in
    if negb (str_eqb g generation) then Err CorruptSnapshot
    else
      let? contract := parse_model_contract members in
      if bool_decide (contract = c) then Ok members else Err CorruptSnapshot.

Definition read_snapshot_with_control (generation : str) (c : VectorModelContract)
    : M Dir (list ActiveSearchProjection * list VectorDocument * VectorSnapshotSummary) :=
  _ ← check;
  _ ← lift (contract_validate c);
  bytes ← read_private_bytes_with_limit ManifestFile (Some MAX_MANIFEST_BYTES);
  manifest ← lift (decode_manifest_metadata bytes generation c);
  _ ← check;
  plaintext ← read_encrypted_payload (vs_artifact_digest manifest);
  _ ← check;
  payload ← lift (ok_or (json_from_bytes plaintext) CorruptSnapshot);
  _ ← check;
  members ← lift (decode_payload payload generation c);
  projection_values ← lift (array_field members "active_projection");
  projection ← for_records (λ v, lift (parse_projection_entry v)) 0 projection_values;
  projection ← staged (canonical_projection_with_control projection);
  document_values ← lift (array_field members "vectors");
  documents ← for_records (λ v, lift (parse_document v)) 0 document_values;
  _ ← staged (validate_documents_with_control c projection documents);
  projection_digest ← staged (projection_digest_with_control projection);
  if negb (bool_decide (projection_digest = vs_projection_digest manifest)) then fail CorruptSnapshot
  else
    coverage_digest ← staged (coverage_digest_with_control documents);
    if negb (bool_decide (coverage_digest = vs_coverage_digest manifest)) then fail CorruptSnapshot
    else
      logical_content_digest ← staged (logical_content_digest_with_control c projection documents);
      if negb (bool_decide (logical_content_digest = vs_logical_content_digest manifest))
      then fail CorruptSnapshot
      else
        summary ← summary_from_contents generation c projection documents
          (MkDigests projection_digest coverage_digest logical_content_digest
             (vs_artifact_digest manifest));
        if negb (vs_vector_count manifest =? vs_vector_count summary)
           || negb (vs_projection_count manifest =? vs_projection_count summary)
           || negb (vs_vector_document_count manifest =? vs_vector_document_count summary)
        then fail CorruptSnapshot
        else
          _ ← check;
          mret (projection, documents, summary).
End codec.

(** ** Publication (store.rs) *)

Definition MAX_GENERATION_LEN : Z := 128.

Definition validate_generation (generation : str) : result unit VectorIndexError :=
  if is_empty generation || (MAX_GENERATION_LEN <? str_len generation)
     || str_eqb generation (lit ".") || str_eqb generation (lit "..")
     || starts_with (lit ".") generation
     || negb (forallb (λ b, is_ascii_alphanumeric b || (b =? 45) || (b =? 95) || (b =? 46))
                (utf8 generation))
  then Err InvalidGeneration
  else Ok tt.

(** The root directory: published generations, staging directories and pins. *)
Record Root := MkRoot {
  rt_snapshots : gmap str Dir;
  rt_staging : gmap str Dir;
  rt_pins : gset str;
}.

Definition with_snapshots (r : Root) x : Root := MkRoot x (rt_staging r) (rt_pins r).
Definition with_staging (r : Root) x : Root := MkRoot (rt_snapshots r) x (rt_pins r).
Definition with_pins (r : Root) x : Root := MkRoot (rt_snapshots r) (rt_staging r) x.

Definition modify {S} (f : S → S) : M S () := s ← get; put (f s).

(** Work inside a staging directory. *)
Definition in_staging {A} (name : str) (m : M Dir A) : M Root A := λ '(w, r),
  let '((w', d), result) := m (w, default empty_dir (rt_staging r !! name)) in
  ((w', with_staging r (<[name := d]> (rt_staging r))), result).

Definition collect_with_control {S A} (values : list A) : M S (list A) :=
  _ ← check;
  collected ← for_records mret 0 values;
  _ ← check;
  mret collected.

(** [reject_symlink_or_existing_generation]. *)
Definition reject_existing {S} (exists_ : bool) : M S () :=
  _ ← sys_ok;
  if exists_ then fail GenerationAlreadyExists else mret tt.

(** A cleanup whose failure is only observed. *)
Definition attempt {S} (m : M S ()) : M S () := λ st, ((m st).1, Ok tt).

Definition preserve_primary_after_cleanup {S A} (m : M S A) (cleanup : M S ()) : M S A := λ st,
  match m st with
  | (st', Ok a) => (st', Ok a)
  | (st', Err primary) => ((attempt cleanup st').1, Err primary)
  end.

Section store.
Context `{Sha256} `{SerdeJson} `{Aead}.

Definition create_staging (name : str) : M Root () :=
  r ← get;
  match rt_staging r !! name with
  | Some _ => fail Storage
  | None =>
      fault ← sys;
      match fault with
      | Some (_, O) => fail Storage
      | Some _ => _ ← put (with_staging r (<[name := empty_dir]> (rt_staging r))); fail Storage
      | None => put (with_staging r (<[name := empty_dir]> (rt_staging r)))
      end
  end.

(** [open_lock_file(&pin_path, true)]. *)
Definition create_pin (generation : str) : M Root () :=
  r ← get;
  fault ← sys;
  match fault with
  | Some (e, O) => fail e
  | Some (e, _) => _ ← put (with_pins r ({[generation]} ∪ rt_pins r)); fail e
  | None => put (with_pins r ({[generation]} ∪ rt_pins r))
  end.

Definition rename_into_place (name generation : str) : M Root () :=
  r ← get;
  fault ← sys;
  match fault with
  | Some _ => fail Storage
  | None =>
      put (MkRoot (<[generation := default empty_dir (rt_staging r !! name)]> (rt_snapshots r))
             (delete name (rt_staging r)) (rt_pins r))
  end.

Definition remove_pin (generation : str) : M Root () :=
  _ ← sys_ok;
  _ ← modify (λ r, with_pins r (rt_pins r ∖ {[generation]}));
  sys_ok.

Definition validate_and_publish_staging (c : VectorModelContract) (generation name : str)
    (expected : VectorSnapshotSummary) : M Root VectorSnapshotSummary :=
  _ ← check;
  _ ← sys_ok;
  _ ← sys_ok;
  validated ← in_staging name (read_snapshot_with_control generation c);
  _ ← sys_ok;
  if negb (bool_decide (validated.2 = expected)) then fail CorruptSnapshot
  else
    _ ← check;
    r ← get;
    _ ← reject_existing (bool_decide (is_Some (rt_snapshots r !! generation)));
    _ ← reject_existing (bool_decide (generation ∈ rt_pins r));
    _ ← create_pin generation;
    _ ← sys_ok;
    _ ← sys_ok;
    _ ← preserve_primary_after_cleanup (rename_into_place name generation) (remove_pin generation);
    _ ← sys_ok;
    _ ← sys_ok;
    _ ← sys_ok;
    _ ← sys_ok;
    mret expected.

Definition build_validate_and_publish (entropy : Entropy) (c : VectorModelContract)
    (generation name : str) (projection : list ActiveSearchProjection)
    (documents : list VectorDocument) : M Root VectorSnapshotSummary :=
  _ ← check;
  _ ← sys_ok;
  expected ← in_staging name (write_snapshot_with_control entropy generation c projection documents);
  _ ← check;
  _ ← sys_ok;
  validate_and_publish_staging c generation name expected.

Definition cleanup_failed_staging (name : str) : M Root () :=
  _ ← sys_ok;
  r ← get;
  match rt_staging r !! name with
  | None => mret tt
  | Some _ =>
      _ ← sys_ok;
      _ ← sys_ok;
      _ ← modify (λ r, with_staging r (delete name (rt_staging r)));
      sys_ok
  end.

Definition publish_generation_with_control (entropy : Entropy) (c : VectorModelContract)
    (generation : str) (projection : list ActiveSearchProjection) (documents : list VectorDocument)
    : M Root VectorSnapshotSummary :=
  _ ← lift (validate_generation generation);
  _ ← check;
  projection ← collect_with_control projection;
  documents ← collect_with_control documents;
  _ ← validate_documents_with_control c projection documents;
  _ ← check;
  _ ← sys_ok;
  _ ← check;
  _ ← sys_ok;
  _ ← sys_ok;
  _ ← check;
  r ← get;
  _ ← reject_existing (bool_decide (is_Some (rt_snapshots r !! generation)));
  _ ← sys_ok;
  let name := generation ++ lit ".tmp-" ++ en_suffix entropy in
  _ ← create_staging name;
  _ ← sys_ok;
  _ ← check;
  preserve_primary_after_cleanup
    (build_validate_and_publish entropy c generation name projection documents)
    (cleanup_failed_staging name).

(** A base reader: the root it belongs to, its contract and documents. *)
Definition publish_generation_from_with_control (entropy : Entropy) (c : VectorModelContract)
    (base_belongs : bool) (base_contract : VectorModelContract) (base : list VectorDocument)
    (generation : str) (update : VectorSnapshotUpdate) : M Root VectorSnapshotSummary :=
  if negb base_belongs then fail LeaseRootMismatch
  else if negb (bool_decide (base_contract = c)) then fail InvalidModelContract
  else
    _ ← check;
    materialized ← apply_documents_with_control update base;
    publish_generation_with_control entropy c generation materialized.1 materialized.2.
End store.
