(* ===== verification/VectorPublication.v ===== *)
(** * What vector snapshots guarantee (crates/index-vector)

    Theorems about [VectorSnapshot]: cancellation and faults never change a result
    that is delivered, a written snapshot is read back exactly, whatever a reader
    accepts is consistent, an update keeps one version per document, and publication is
    atomic: no published generation ever changes, and a new one is complete. *)

From Stdlib Require Import ZArith String Sorted.
From stdpp Require Import prelude gmap.
From Corelib Require Import SpecFloat.
From S2P Require Import Prelude Collections Float32 Float64 Text Identity SearchMetadata Coordinator VectorSnapshot.

Local Open Scope Z_scope.

(** ** Results do not depend on the world *)

(** What succeeds in some world succeeds in the quiet one with the same effect. *)
Definition stable {S A} (m : M S A) : Prop :=
  ∀ w s w' s' a, m (w, s) = ((w', s'), Ok a) → m (quiet, s) = ((quiet, s'), Ok a).

Create HintDb stable.

Lemma stable_ret {S A} (a : A) : stable (mret a : M S A).
Proof. intros w s w' s' b. by intros [= <- <- <-]. Qed.

Lemma stable_bind {S A B} (m : M S A) (f : A → M S B) :
  stable m → (∀ a, stable (f a)) → stable (m ≫= f).
Proof.
  intros Hm Hf w s w' s' b. unfold mbind, M_bind. destruct (m (w, s)) as [[w1 s1] [a|e]] eqn:E; [|done].
  intros Hb. rewrite (Hm _ _ _ _ _ E). by apply (Hf a) in Hb.
Qed.

Lemma stable_lift {S A} (r : result A VectorIndexError) : stable (lift r : M S A).
Proof. intros w s w' s' a. by intros [= <- <- ->]. Qed.

Lemma stable_fail {S A} e : stable (fail e : M S A).
Proof. intros w s w' s' a. done. Qed.

Lemma stable_get {S} : stable (get : M S S).
Proof. intros w s w' s' a. by intros [= <- <- <-]. Qed.

Lemma stable_put {S} (x : S) : stable (put x).
Proof. intros w s w' s' a. by intros [= <- <- <-]. Qed.

Lemma stable_check {S} : stable (check : M S ()).
Proof.
  intros w s w' s' []. unfold check. destruct (w_cancel w) as [|[] rest]; [|done|]; by intros [= _ <-].
Qed.

Lemma stable_check_after {S} n : stable (check_after_record n : M S ()).
Proof. unfold check_after_record. destruct (_ =? _); [apply stable_check|apply stable_ret]. Qed.

(** A system call whose fault is an error. *)
Lemma stable_sys_then {S A} (k : option (VectorIndexError * nat) → M S A) :
  stable (k None) → (∀ fault st st' a, k (Some fault) st ≠ (st', Ok a)) → stable (sys ≫= k).
Proof.
  intros Hk Hn w s w' s' a. unfold mbind, M_bind, sys. cbn.
  destruct (w_faults w) as [|[fault|] rest]; [apply Hk| |apply Hk]. intros Hx. by apply Hn in Hx.
Qed.

Lemma stable_sys_ok {S} : stable (sys_ok : M S ()).
Proof. apply stable_sys_then; [apply stable_ret|]. by intros [e n]. Qed.

Lemma stable_if {S A} (b : bool) (m n : M S A) : stable m → stable n → stable (if b then m else n).
Proof. by destruct b. Qed.

#[global] Hint Resolve stable_ret stable_lift stable_fail stable_get stable_put stable_check
  stable_check_after stable_sys_ok : stable.

Ltac stables :=
  repeat (first [ progress intros
                | solve [auto with stable nocore]
                | match goal with |- stable (sys ≫= _) => apply stable_sys_then; [|by intros [? [|?]]] end
                | apply stable_bind | apply stable_if | case_match ]).

Lemma stable_for_records {S A B} (f : A → M S B) i xs :
  (∀ x, stable (f x)) → stable (for_records f i xs).
Proof. intros Hf. revert i; induction xs as [|x xs IH]; intros i; cbn [for_records]; stables; auto. Qed.

Lemma stable_fold_records {S A C} (f : C → A → M S C) i acc xs :
  (∀ acc x, stable (f acc x)) → stable (fold_records f i acc xs).
Proof.
  intros Hf. revert i acc; induction xs as [|x xs IH]; intros i acc; cbn [fold_records]; stables; auto.
Qed.

Lemma stable_staged {S A} (m : M S A) : stable m → stable (staged m).
Proof.
  intros Hm w s w' s' a. unfold staged. destruct (m (w, s)) as [[w1 s1] [b|e]] eqn:E; [|done].
  cbn. intros [= <- <- <-]. by rewrite (Hm _ _ _ _ _ E).
Qed.

Lemma stable_create f bytes : stable (create_and_write f bytes).
Proof. unfold create_and_write. stables. Qed.

Lemma stable_append f bytes : stable (append_file f bytes).
Proof. unfold append_file. stables. Qed.

#[global] Hint Resolve stable_staged stable_create stable_append : stable.
#[global] Hint Extern 1 (stable (for_records _ _ _)) => apply stable_for_records; stables : stable.
#[global] Hint Extern 1 (stable (fold_records _ _ _ _)) => apply stable_fold_records; stables : stable.

Section stability.
Context `{Sha256} `{SerdeJson} `{Aead}.

Lemma stable_validate_projection {S} p : stable (validate_projection_with_control p : M S _).
Proof. unfold validate_projection_with_control. stables. Qed.
Hint Resolve stable_validate_projection : stable.

Lemma stable_canonical {S} p : stable (canonical_projection_with_control p : M S _).
Proof. unfold canonical_projection_with_control. stables. Qed.

Lemma stable_projection_digest {S} p : stable (projection_digest_with_control p : M S _).
Proof. unfold projection_digest_with_control. stables. Qed.

Lemma stable_coverage_digest {S} ds : stable (coverage_digest_with_control ds : M S _).
Proof. unfold coverage_digest_with_control. stables. Qed.
Hint Resolve stable_canonical stable_projection_digest stable_coverage_digest : stable.

Lemma stable_document_content {S} d : stable (document_content d : M S _).
Proof. unfold document_content. stables. Qed.
Hint Resolve stable_document_content : stable.

Lemma stable_logical_digest {S} c p ds : stable (logical_content_digest_with_control c p ds : M S _).
Proof. unfold logical_content_digest_with_control. stables. Qed.

Lemma stable_validate_documents {S} c p ds : stable (validate_documents_with_control c p ds : M S _).
Proof. unfold validate_documents_with_control. stables. Qed.

Lemma stable_summary {S} g c p ds dg : stable (summary_from_contents g c p ds dg : M S _).
Proof. unfold summary_from_contents. stables. Qed.

Lemma stable_apply {S} up base : stable (apply_documents_with_control up base : M S _).
Proof. unfold apply_documents_with_control. stables. Qed.
Hint Resolve stable_logical_digest stable_validate_documents stable_summary stable_apply : stable.

Lemma stable_read_bytes f max : stable (read_private_bytes_with_limit f max).
Proof. unfold read_private_bytes_with_limit. stables. Qed.
Hint Resolve stable_read_bytes : stable.

Lemma stable_read_key : stable read_key.
Proof. unfold read_key. stables. Qed.
Hint Resolve stable_read_key : stable.

Lemma stable_load_key fresh : stable (load_or_create_key fresh).
Proof. unfold load_or_create_key, write_private_bytes. stables. Qed.

Lemma stable_write_chunks fuel bytes : stable (write_chunks fuel bytes).
Proof. revert bytes; induction fuel; intros bytes; cbn [write_chunks]; stables; auto. Qed.

Lemma stable_append_hex {S} bytes : stable (append_hex_with_control bytes : M S _).
Proof. unfold append_hex_with_control. stables. Qed.
Hint Resolve stable_load_key stable_write_chunks stable_append_hex : stable.

Lemma stable_write_payload en plain : stable (write_encrypted_payload en plain).
Proof. unfold write_encrypted_payload. stables. Qed.

Lemma stable_write_manifest s : stable (write_manifest s).
Proof. unfold write_manifest, write_private_bytes. stables. Qed.
Hint Resolve stable_write_payload stable_write_manifest : stable.

Lemma stable_write_snapshot en g c p ds : stable (write_snapshot_with_control en g c p ds).
Proof. unfold write_snapshot_with_control. stables. Qed.

Lemma stable_read_payload dg : stable (read_encrypted_payload dg).
Proof. unfold read_encrypted_payload. stables. Qed.
Hint Resolve stable_read_payload : stable.

Lemma stable_read_snapshot g c : stable (read_snapshot_with_control g c).
Proof. unfold read_snapshot_with_control. stables. Qed.
End stability.

(** ** Steps that leave the state alone *)

Definition framed {S A} (m : M S A) : Prop := ∀ w s, (m (w, s)).1.2 = s.

Create HintDb framed.

Lemma framed_ret {S A} (a : A) : framed (mret a : M S A).
Proof. done. Qed.

Lemma framed_bind {S A B} (m : M S A) (f : A → M S B) :
  framed m → (∀ a, framed (f a)) → framed (m ≫= f).
Proof.
  intros Hm Hf w s. unfold mbind, M_bind. specialize (Hm w s).
  destruct (m (w, s)) as [[w1 s1] [a|e]]; cbn in Hm; subst; [apply Hf|done].
Qed.

Lemma framed_lift {S A} (r : result A VectorIndexError) : framed (lift r : M S A).
Proof. done. Qed.

Lemma framed_fail {S A} e : framed (fail e : M S A).
Proof. done. Qed.

Lemma framed_get {S} : framed (get : M S S).
Proof. done. Qed.

Lemma framed_check {S} : framed (check : M S ()).
Proof. intros w s. unfold check. by destruct (w_cancel w). Qed.

Lemma framed_check_after {S} n : framed (check_after_record n : M S ()).
Proof. unfold check_after_record. destruct (_ =? _); [apply framed_check|apply framed_ret]. Qed.

Lemma framed_sys_ok {S} : framed (sys_ok : M S ()).
Proof. intros w s. unfold sys_ok, mbind, M_bind, sys. by destruct (w_faults w) as [|[[]|]]. Qed.

Lemma framed_if {S A} (b : bool) (m n : M S A) : framed m → framed n → framed (if b then m else n).
Proof. by destruct b. Qed.

Lemma framed_staged {S A} (m : M S A) : framed m → framed (staged m).
Proof. intros Hm w s. specialize (Hm w s). unfold staged. by destruct (m (w, s)). Qed.

#[global] Hint Resolve framed_ret framed_lift framed_fail framed_get framed_check framed_check_after
  framed_sys_ok framed_staged : framed.

Ltac frames :=
  repeat (first [ progress intros | solve [auto with framed nocore] | apply framed_bind
                | apply framed_if | case_match ]).

Lemma framed_for_records {S A B} (f : A → M S B) i xs :
  (∀ x, framed (f x)) → framed (for_records f i xs).
Proof. intros Hf. revert i; induction xs as [|x xs IH]; intros i; cbn [for_records]; frames; auto. Qed.

Lemma framed_fold_records {S A C} (f : C → A → M S C) i acc xs :
  (∀ acc x, framed (f acc x)) → framed (fold_records f i acc xs).
Proof.
  intros Hf. revert i acc; induction xs as [|x xs IH]; intros i acc; cbn [fold_records]; frames; auto.
Qed.

#[global] Hint Extern 1 (framed (for_records _ _ _)) => apply framed_for_records; frames : framed.
#[global] Hint Extern 1 (framed (fold_records _ _ _ _)) => apply framed_fold_records; frames : framed.

Section frames.
Context `{Sha256} `{SerdeJson} `{Aead}.

Lemma framed_validate_projection {S} p : framed (validate_projection_with_control p : M S _).
Proof. unfold validate_projection_with_control. frames. Qed.
Hint Resolve framed_validate_projection : framed.

Lemma framed_canonical {S} p : framed (canonical_projection_with_control p : M S _).
Proof. unfold canonical_projection_with_control. frames. Qed.

Lemma framed_projection_digest {S} p : framed (projection_digest_with_control p : M S _).
Proof. unfold projection_digest_with_control. frames. Qed.

Lemma framed_coverage {S} ds : framed (coverage_digest_with_control ds : M S _).
Proof. unfold coverage_digest_with_control. frames. Qed.

Lemma framed_document_content {S} d : framed (document_content d : M S _).
Proof. unfold document_content. frames. Qed.
Hint Resolve framed_canonical framed_projection_digest framed_coverage framed_document_content : framed.

Lemma framed_logical {S} c p ds : framed (logical_content_digest_with_control c p ds : M S _).
Proof. unfold logical_content_digest_with_control. frames. Qed.

Lemma framed_validate_documents {S} c p ds : framed (validate_documents_with_control c p ds : M S _).
Proof. unfold validate_documents_with_control. frames. Qed.

Lemma framed_summary {S} g c p ds dg : framed (summary_from_contents g c p ds dg : M S _).
Proof. unfold summary_from_contents. frames. Qed.

Lemma framed_collect {S A} (xs : list A) : framed (collect_with_control xs : M S _).
Proof. unfold collect_with_control. frames. Qed.

Lemma framed_reject {S} b : framed (reject_existing b : M S ()).
Proof. unfold reject_existing. frames. Qed.

Lemma framed_apply {S} up base : framed (apply_documents_with_control up base : M S _).
Proof. unfold apply_documents_with_control. frames. Qed.

Lemma framed_read_bytes f max : framed (read_private_bytes_with_limit f max).
Proof. unfold read_private_bytes_with_limit. frames. Qed.
Hint Resolve framed_logical framed_validate_documents framed_summary framed_read_bytes : framed.

Lemma framed_read_key : framed read_key.
Proof. unfold read_key. frames. Qed.
Hint Resolve framed_read_key : framed.

Lemma framed_read_payload dg : framed (read_encrypted_payload dg).
Proof. unfold read_encrypted_payload. frames. Qed.
Hint Resolve framed_read_payload : framed.

Lemma framed_read_snapshot g c : framed (read_snapshot_with_control g c).
Proof. unfold read_snapshot_with_control. frames. Qed.
End frames.

(** ** Undisturbed runs *)

(** [m] succeeds in the quiet world. *)
Definition run {S A} (m : M S A) (s s' : S) (a : A) : Prop :=
  m (quiet, s) = ((quiet, s'), Ok a).

(** [m] only computes [r]. *)
Definition det {S A} (m : M S A) (r : result A VectorIndexError) : Prop :=
  ∀ s, m (quiet, s) = ((quiet, s), r).

Lemma run_bind {S A B} (m : M S A) (f : A → M S B) s s1 s' a b :
  run m s s1 a → run (f a) s1 s' b → run (m ≫= f) s s' b.
Proof. unfold run, mbind, M_bind. by intros ->. Qed.

Lemma run_bind_inv {S A B} (m : M S A) (f : A → M S B) s s' b :
  stable m → run (m ≫= f) s s' b → ∃ s1 a, run m s s1 a ∧ run (f a) s1 s' b.
Proof.
  intros Hm. unfold run, mbind, M_bind. destruct (m (quiet, s)) as [[w1 s1] [a|e]] eqn:E; [|done].
  pose proof (Hm _ _ _ _ _ E) as E'. rewrite E in E'. injection E' as ->. eauto.
Qed.

Lemma run_det {S A} (m : M S A) s a : det m (Ok a) → run m s s a.
Proof. intros Hm. apply Hm. Qed.

Lemma run_det_inv {S A} (m : M S A) r s s' a : det m r → run m s s' a → s' = s ∧ r = Ok a.
Proof. intros Hm. unfold run. rewrite Hm. by intros [= <- ->]. Qed.

Lemma run_framed {S A} (m : M S A) s s' a : framed m → run m s s' a → s' = s.
Proof. intros Hm Hrun. specialize (Hm quiet s). unfold run in Hrun. by rewrite Hrun in Hm. Qed.

Lemma det_ret {S A} (a : A) : det (mret a : M S A) (Ok a).
Proof. done. Qed.

Lemma det_lift {S A} (r : result A VectorIndexError) : det (lift r : M S A) r.
Proof. done. Qed.

Lemma det_fail {S A} e : det (fail e : M S A) (Err e).
Proof. done. Qed.

Lemma det_check {S} : det (check : M S ()) (Ok tt).
Proof. done. Qed.

Lemma det_sys_ok {S} : det (sys_ok : M S ()) (Ok tt).
Proof. done. Qed.

Lemma det_bind {S A B} (m : M S A) (f : A → M S B) r k :
  det m r → (∀ a, det (f a) (k a)) → det (m ≫= f) (let? a := r in k a).
Proof. intros Hm Hf s. unfold mbind, M_bind. rewrite Hm. destruct r; [apply Hf|done]. Qed.

Lemma det_then {S A B} (m : M S A) (f : A → M S B) a r :
  det m (Ok a) → det (f a) r → det (m ≫= f) r.
Proof. intros Hm Hf s. unfold mbind, M_bind. rewrite Hm. apply Hf. Qed.

Lemma det_check_after {S} n : det (check_after_record n : M S ()) (Ok tt).
Proof. unfold check_after_record. by destruct (_ =? _). Qed.

Lemma det_for_records {S A B} (f : A → M S B) g i xs :
  (∀ x, det (f x) (g x)) → det (for_records f i xs) (collect_results g xs).
Proof.
  intros Hf. revert i; induction xs as [|x xs IH]; intros i; [apply det_ret|]. cbn [for_records collect_results].
  apply det_bind; [apply Hf|]. intros y. eapply det_then; [apply det_check_after|].
  apply (det_bind _ _ _ _ (IH _)). intros ys. apply det_ret.
Qed.

Lemma collect_results_ok {A B E} (g : A → B) xs : collect_results (λ x, Ok (g x)) xs = (Ok (map g xs) : result _ E).
Proof. induction xs as [|x xs IH]; [done|]. cbn. by rewrite IH. Qed.

Lemma det_for_map {S A B} (f : A → M S B) g i xs :
  (∀ x, det (f x) (Ok (g x))) → det (for_records f i xs) (Ok (map g xs)).
Proof. intros Hf. rewrite <- collect_results_ok. by apply det_for_records. Qed.

(** The reference of a fallible loop. *)
Fixpoint fold_results {A C} (f : C → A → result C VectorIndexError) (acc : C) (xs : list A)
    : result C VectorIndexError :=
  match xs with
  | [] => Ok acc
  | x :: xs => let? acc := f acc x in fold_results f acc xs
  end.

Lemma det_fold_records {S A C} (f : C → A → M S C) g i acc xs :
  (∀ acc x, det (f acc x) (g acc x)) → det (fold_records f i acc xs) (fold_results g acc xs).
Proof.
  intros Hf. revert i acc; induction xs as [|x xs IH]; intros i acc; [apply det_ret|].
  cbn [fold_records fold_results]. apply det_bind; [apply Hf|]. intros acc'.
  eapply det_then; [apply det_check_after|]. apply IH.
Qed.

Lemma fold_results_ok {A C} (g : C → A → C) acc xs :
  fold_results (λ acc x, Ok (g acc x)) acc xs = Ok (fold_left g xs acc).
Proof. revert acc; induction xs as [|x xs IH]; intros acc; [done|]. apply IH. Qed.

Lemma det_fold_left {S A C} (f : C → A → M S C) g i acc xs :
  (∀ acc x, det (f acc x) (Ok (g acc x))) → det (fold_records f i acc xs) (Ok (fold_left g xs acc)).
Proof. intros Hf. rewrite <- fold_results_ok. by apply det_fold_records. Qed.

Lemma det_staged {S A} (m : M S A) r : det m r → det (staged m) (map_err map_staging_validation_error r).
Proof. intros Hm s. unfold staged. by rewrite Hm. Qed.

Lemma det_ext {S A} (m : M S A) r r' : det m r → r = r' → det m r'.
Proof. by intros ? <-. Qed.

(** ** Reference results *)

Section reference.
Context `{Sha256} {S : Type}.

(** The version of each document of a projection. *)
Definition versions_of (pairs : list (str * str)) : list (str * str) :=
  fold_left (λ m p, bmap_entry p.1 (λ _, p.2) m) pairs [].

Definition digest_of_projection (p : list ActiveSearchProjection) : result ContentDigest VectorIndexError :=
  projection_digest_of (map projection_pair p).

Lemma det_validate_projection p :
  det (validate_projection_with_control p : M S _)
    (let? _ := digest_of_projection p in Ok (versions_of (map projection_pair p))).
Proof.
  eapply det_then; [apply det_check|]. eapply det_then; [by apply det_for_map|].
  apply (det_bind _ _ (digest_of_projection p)); [done|]. intros _.
  eapply det_then; [apply det_check|]. eapply det_then; [by apply det_fold_left|].
  eapply det_then; [apply det_check|]. apply det_ret.
Qed.

Lemma det_projection_digest p : det (projection_digest_with_control p : M S _) (digest_of_projection p).
Proof.
  eapply det_then; [apply det_check|]. eapply det_then; [by apply det_for_map|].
  eapply det_ext; [apply det_bind; [apply det_lift|]; intros dg; eapply det_then; [apply det_check|]; apply det_ret|].
  unfold digest_of_projection. by destruct (projection_digest_of _).
Qed.

Lemma map_ret {A} (xs : list A) : map (λ x, x) xs = xs.
Proof. apply map_id. Qed.

Lemma det_canonical p :
  det (canonical_projection_with_control p : M S _)
    (let? _ := digest_of_projection p in Ok (sort_by projection_order p)).
Proof.
  eapply (det_ext _ (let? _ := (let? _ := digest_of_projection p in Ok _) in Ok _)).
  - eapply (det_bind _ _ _ (λ _, _)); [apply det_validate_projection|]. intros _.
    eapply det_then; [by apply det_for_map|]. rewrite map_ret. eapply det_then; [apply det_check|].
    eapply det_then; [apply det_check|]. apply det_ret.
  - by destruct (digest_of_projection p).
Qed.

(** The pairs covered by the documents, in order. *)
Definition covered (ds : list VectorDocument) : list (str * str) :=
  fold_left (λ set d, bset_insert (doc_document_id d, doc_resume_version_id d) set) ds [].

Lemma det_coverage ds :
  det (coverage_digest_with_control ds : M S _) (projection_digest_of (covered ds)).
Proof.
  eapply det_then; [apply det_check|]. eapply det_then; [by apply det_fold_left|].
  eapply det_ext; [apply det_bind; [apply det_lift|]; intros dg; eapply det_then; [apply det_check|]; apply det_ret|].
  fold (covered ds). by destruct (projection_digest_of _).
Qed.

Definition document_bytes (d : VectorDocument) : list Z :=
  value_digest
    (concat (map (λ s, value_digest (utf8 s))
       [doc_vector_id d; doc_document_id d; doc_resume_version_id d; doc_model_id d])
     ++ to_le_bytes 8 (len (vd_values d))
     ++ concat (map (λ x, to_le_bytes 4 (f32_to_bits x)) (vd_values d))).

Lemma det_document_content d : det (document_content d : M S _) (Ok (document_bytes d)).
Proof. eapply det_then; [by apply det_for_map|]. apply det_ret. Qed.

(** The bytes that a logical content digest is taken of. *)
Definition logical_bytes (c : VectorModelContract) (dg : ContentDigest) (ds : list VectorDocument) : list Z :=
  let sorted := sort_by vector_order ds in
  utf8 (lit "resume-ir.vector.logical-content.v4") ++ contract_content c ++ utf8 (digest_str dg)
  ++ to_le_bytes 8 (len sorted) ++ concat (map document_bytes sorted).

Lemma det_logical c p ds :
  det (logical_content_digest_with_control c p ds : M S _)
    (let? dg := digest_of_projection p in Ok (content_digest_from_bytes (logical_bytes c dg ds))).
Proof.
  eapply det_then; [apply det_check|]. apply det_bind; [apply det_projection_digest|]. intros dg.
  eapply det_then; [by apply det_for_map|]. rewrite map_ret. eapply det_then; [apply det_check|].
  eapply det_then; [apply det_check|]. eapply det_then; [apply det_for_map, det_document_content|].
  eapply det_then; [apply det_check|]. unfold logical_bytes. cbv zeta. apply det_ret.
Qed.

Definition documents_ok (c : VectorModelContract) (p : list ActiveSearchProjection)
    (ds : list VectorDocument) : result unit VectorIndexError :=
  let? _ := contract_validate c in
  let? _ := digest_of_projection p in
  if is_contract_disabled c && negb (bool_decide (ds = [])) then Err InvalidModelContract
  else
    let? _ := fold_results (validate_document c (versions_of (map projection_pair p))) ([], []) ds in
    Ok tt.

Lemma det_validate_documents c p ds :
  det (validate_documents_with_control c p ds : M S _) (documents_ok c p ds).
Proof.
  eapply det_then; [apply det_check|]. apply det_bind; [apply det_lift|]. intros _.
  eapply (det_ext _ (let? active := (let? _ := digest_of_projection p in Ok (versions_of (map projection_pair p))) in
    if is_contract_disabled c && negb (bool_decide (ds = [])) then Err InvalidModelContract
    else let? _ := fold_results (validate_document c active) ([], []) ds in Ok tt));
    [|by destruct (digest_of_projection p)].
  apply (det_bind _ _ _ (λ active,
    if is_contract_disabled c && negb (bool_decide (ds = [])) then Err InvalidModelContract
    else let? _ := fold_results (validate_document c active) ([], []) ds in Ok tt)).
  - apply det_validate_projection.
  - intros active. destruct (_ && _); [apply det_fail|]. apply det_bind; [|intros _; apply det_check].
    apply det_fold_records. intros acc d. apply det_lift.
Qed.

Definition vector_document_ids (ds : list VectorDocument) : list str :=
  fold_left (λ set d, bset_insert (doc_document_id d) set) ds [].

Lemma det_summary g c p ds dg :
  det (summary_from_contents g c p ds dg : M S _)
    (Ok (MkSummary g c (len ds) (len p) (len (vector_document_ids ds)) (dg_projection dg) (dg_coverage dg)
           (dg_logical_content dg) (dg_artifact dg))).
Proof.
  eapply det_then; [apply det_check|]. eapply det_then; [by apply det_fold_left|].
  eapply det_then; [apply det_check|]. apply det_ret.
Qed.
End reference.

(** ** Values read back from a text *)

Lemma close_string_inv s v : json_close (VString s) v → v = VString s.
Proof. by inversion 1. Qed.

Lemma close_usize_inv n v : json_close (json_usize n) v → v = json_usize n.
Proof. by inversion 1. Qed.

Lemma close_null_inv v : json_close VNull v → v = VNull.
Proof. by inversion 1. Qed.

Lemma close_array_inv l v : json_close (VArray l) v → ∃ k, v = VArray k ∧ Forall2 json_close l k.
Proof. inversion 1; subst. eauto. Qed.

Lemma close_lookup m n k v :
  Forall2 (λ a b : str * Value, a.1 = b.1 ∧ json_close a.2 b.2) m n →
  bmap_lookup k m = Some v → ∃ v', bmap_lookup k n = Some v' ∧ json_close v v'.
Proof.
  induction 1 as [|[j x] [j' y] m n [Hj Hxy] _ IH]; [done|]. cbn in Hj; subst j'. cbn [bmap_lookup].
  destruct (cmp k j); [|done|apply IH]. intros [= <-]. eauto.
Qed.

(** A member list read back from [m]: the same keys, close values. *)
Definition read_back (m n : list (str * Value)) : Prop :=
  map fst n = map fst m ∧
  ∀ k v, bmap_lookup k m = Some v → ∃ v', bmap_lookup k n = Some v' ∧ json_close v v'.

Lemma close_object_inv m v :
  json_close (VObject m) v → ∃ n, v = VObject n ∧ read_back m n.
Proof.
  inversion 1 as [| | | | | | |? n HF]; subst. exists n. split_and!; [done|].
  split; [|by intros k v Hk; eapply close_lookup].
  clear -HF. induction HF as [|a b ? ? [Hab _] _ IH]; [done|]. cbn. by rewrite Hab, IH.
Qed.

Lemma read_back_keys m n keys :
  read_back m n → ensure_exact_keys m keys = Ok tt → ensure_exact_keys n keys = Ok tt.
Proof. intros [Hk _]. unfold ensure_exact_keys. by rewrite Hk. Qed.

Lemma read_back_string m n f s :
  read_back m n → bmap_lookup (lit f) m = Some (VString s) → string_field n f = Ok s.
Proof.
  intros [_ Hl] Hk. destruct (Hl _ _ Hk) as (v & Hv & ->%close_string_inv).
  unfold string_field. by rewrite Hv.
Qed.

Lemma read_back_usize m n f x :
  read_back m n → bmap_lookup (lit f) m = Some (json_usize x) → usize_field n f = Ok x.
Proof.
  intros [_ Hl] Hk. destruct (Hl _ _ Hk) as (v & Hv & ->%close_usize_inv).
  unfold usize_field. by rewrite Hv.
Qed.

Lemma read_back_array m n f l :
  read_back m n → bmap_lookup (lit f) m = Some (VArray l) →
  ∃ k, array_field n f = Ok k ∧ Forall2 json_close l k.
Proof.
  intros [_ Hl] Hk. destruct (Hl _ _ Hk) as (v & Hv & (k & -> & Hlk)%close_array_inv).
  exists k. unfold array_field. by rewrite Hv.
Qed.

Lemma read_back_contract m n c :
  read_back m n → contract_validate c = Ok tt →
  bmap_lookup (lit "model_id") m = Some (json_opt_str (contract_model_id c)) →
  bmap_lookup (lit "dimension") m = Some (json_opt_usize (contract_dimension c)) →
  parse_model_contract n = Ok c.
Proof.
  intros [_ Hl] Hc (v & Hv & Cv)%Hl (x & Hx & Cx)%Hl. unfold parse_model_contract. rewrite Hv, Hx.
  destruct c as [|model dim].
  - by rewrite (close_null_inv _ Cv), (close_null_inv _ Cx).
  - rewrite (close_string_inv _ _ Cv), (close_usize_inv _ _ Cx). cbn [as_u64 json_usize].
    unfold model_contract_enabled. by rewrite Hc.
Qed.

(** *** Entries *)

Definition projection_members (a b : str) : list (str * Value) :=
  [(lit "document_id", VString a); (lit "resume_version_id", VString b)].

Lemma projection_json_members p :
  projection_json p = VObject (projection_members (projection_pair p).1 (projection_pair p).2).
Proof. by vm_compute. Qed.

Lemma id_from_str_eq k (i j : StableId k) : id_from_str k (id_str i) = Ok j → j = i.
Proof. unfold id_from_str. destruct (validate_stable_id _ _); [|done]. by destruct i; intros [= <-]. Qed.

Lemma parse_projection_entry_roundtrip p v :
  valid_pair (projection_pair p) → json_close (projection_json p) v →
  parse_projection_entry v = Ok p.
Proof.
  rewrite projection_json_members. intros [[i Hi] [j Hj]] (n & -> & Hn)%close_object_inv.
  unfold parse_projection_entry. cbn [as_object ok_or result_bind].
  rewrite (read_back_keys _ _ _ Hn) by reflexivity. cbn [result_bind].
  rewrite (read_back_string _ _ "document_id" (id_str (proj_document_id p)) Hn) by reflexivity. cbn [result_bind].
  cbn [projection_pair fst snd] in Hi, Hj. rewrite Hi. cbn [map_err result_bind].
  rewrite (read_back_string _ _ "resume_version_id" (id_str (proj_resume_version_id p)) Hn) by reflexivity.
  cbn [result_bind]. rewrite Hj. cbn [map_err result_bind].
  rewrite (id_from_str_eq _ _ _ Hi), (id_from_str_eq _ _ _ Hj). by destruct p.
Qed.

(** A document as its constructors make it. *)
Definition document_wf (d : VectorDocument) : Prop :=
  document_identity_new (doc_vector_id d) (doc_document_id d) (doc_resume_version_id d) (doc_model_id d)
  = Ok (vd_identity d) ∧
  validate_vector_values (vd_values d) = Ok tt ∧ forallb f32_valid (vd_values d) = true.

Definition document_members (d : VectorDocument) : list (str * Value) :=
  [(lit "document_id", VString (doc_document_id d)); (lit "model_id", VString (doc_model_id d));
   (lit "resume_version_id", VString (doc_resume_version_id d));
   (lit "values", VArray (map json_f32 (vd_values d))); (lit "vector_id", VString (doc_vector_id d))].

Lemma document_json_members d : document_json d = VObject (document_members d).
Proof. unfold document_json, document_members. generalize (VArray (map json_f32 (vd_values d))). by vm_compute. Qed.

Lemma parse_value_roundtrip x v :
  f32_valid x = true → f32_is_finite x = true → json_close (json_f32 x) v → parse_value v = Ok x.
Proof.
  intros Hv Hx. unfold json_f32. rewrite Hx. inversion 1 as [| | | |? y Hy| | |]; subst.
  unfold parse_value. cbn [as_f64]. rewrite <- Hy, f64_roundtrip, Hx by done. done.
Qed.

Lemma parse_values_roundtrip xs vs :
  forallb f32_valid xs = true → forallb f32_is_finite xs = true →
  Forall2 json_close (map json_f32 xs) vs → collect_results parse_value vs = Ok xs.
Proof.
  revert vs; induction xs as [|x xs IH]; intros vs; cbn [forallb map]; [by inversion 3|].
  intros [Hx Hxs]%andb_true_iff [Fx Fxs]%andb_true_iff. inversion 1 as [|? v ? vs' Hv Hvs]; subst.
  cbn [collect_results]. rewrite (parse_value_roundtrip x) by done. cbn [result_bind]. by rewrite IH.
Qed.

Lemma validate_vector_values_finite xs : validate_vector_values xs = Ok tt → forallb f32_is_finite xs = true.
Proof. unfold validate_vector_values. destruct xs; [done|]. by destruct (forallb _ _). Qed.

Lemma parse_document_roundtrip d v :
  document_wf d → json_close (document_json d) v → parse_document v = Ok d.
Proof.
  rewrite document_json_members. intros (Hid & Hval & Hf) (n & -> & Hn)%close_object_inv.
  unfold parse_document. cbn [as_object ok_or result_bind].
  rewrite (read_back_keys _ _ _ Hn) by reflexivity. cbn [result_bind].
  destruct (read_back_array _ _ "values" (map json_f32 (vd_values d)) Hn) as (k & -> & Hk); [reflexivity|].
  cbn [result_bind]. rewrite (parse_values_roundtrip (vd_values d)) by auto using validate_vector_values_finite.
  cbn [result_bind].
  rewrite (read_back_string _ _ "vector_id" (doc_vector_id d) Hn) by reflexivity. cbn [result_bind].
  rewrite (read_back_string _ _ "document_id" (doc_document_id d) Hn) by reflexivity. cbn [result_bind].
  rewrite (read_back_string _ _ "resume_version_id" (doc_resume_version_id d) Hn) by reflexivity. cbn [result_bind].
  rewrite (read_back_string _ _ "model_id" (doc_model_id d) Hn) by reflexivity. cbn [result_bind].
  rewrite Hid. cbn [map_err result_bind]. unfold document_new. rewrite Hval. by destruct d.
Qed.

(** A list of entries is read back entry by entry. *)
Lemma collect_roundtrip {A} (print : A → Value) (parse : Value → result A VectorIndexError) xs vs :
  (∀ x v, x ∈ xs → json_close (print x) v → parse v = Ok x) →
  Forall2 json_close (map print xs) vs → collect_results parse vs = Ok xs.
Proof.
  revert vs; induction xs as [|x xs IH]; intros vs Hp; cbn [map]; inversion 1 as [|? v ? vs' Hv Hvs]; subst; [done|].
  cbn [collect_results]. rewrite (Hp x v) by (try apply list_elem_of_here; done). cbn [result_bind].
  rewrite IH; [done| |done]. intros y u Hy. apply Hp. by apply list_elem_of_further.
Qed.

(** ** Texts *)

Lemma hex_value_digit n : 0 ≤ n < 16 → hex_value (hex_digit n) = Some n ∧ hex_digit n ≠ 43.
Proof.
  intros Hn. unfold hex_digit, hex_value.
  destruct (n <? 10) eqn:E; bools; split; try lia; repeat case_match; bools; f_equal; lia.
Qed.

Lemma decode_pair_byte b :
  is_byte b → decode_pair (hex_digit (Z.shiftr b 4)) (hex_digit (Z.land b 15)) = Some b.
Proof.
  intros (Hh & Hl & Hb)%byte_nibbles. unfold decode_pair.
  destruct (hex_value_digit _ Hh) as [-> Hn], (hex_value_digit _ Hl) as [-> _].
  destruct (hex_digit (Z.shiftr b 4) =? 43) eqn:E; bools; [done|]. by rewrite <- Hb.
Qed.

Lemma decode_hex_bytes_roundtrip bs : Forall is_byte bs → decode_hex_bytes (hex_bytes bs) = Ok bs.
Proof.
  induction 1 as [|b bs Hb Hbs IH]; [done|].
  change (hex_bytes (b :: bs)) with (hex_byte b ++ hex_bytes bs).
  unfold hex_byte. cbn [app decode_hex_bytes]. by rewrite decode_pair_byte, IH by done.
Qed.

Lemma hexdigits_ascii s : forallb is_ascii_hexdigit s = true → ascii_str s = true.
Proof.
  unfold ascii_str. rewrite !forallb_forall. intros Hs c Hc. apply andb_true_iff.
  pose proof (is_ascii_hexdigit_ascii c (Hs c Hc)). specialize (Hs c Hc).
  unfold is_ascii_hexdigit, is_ascii_digit in Hs.
  repeat match goal with H : (_ || _) = true |- _ => apply orb_true_iff in H as [H|H] end; bools; lia.
Qed.

Lemma utf8_ascii s : ascii_str s = true → utf8 s = s.
Proof.
  intros Hs%ascii_str_Forall. induction Hs as [|c s Hc Hs IH]; [done|].
  change (utf8 (c :: s)) with (utf8_char c ++ utf8 s). rewrite IH. unfold utf8_char.
  rewrite (proj2 (Z.ltb_lt c 0x80)) by lia. done.
Qed.

Lemma from_utf8_ascii s : ascii_str s = true → from_utf8 s = Some s.
Proof.
  intros Hs. pose proof (utf8_decode_utf8 _ (ascii_str_valid _ Hs)) as Hd. rewrite (utf8_ascii _ Hs) in Hd.
  unfold from_utf8. rewrite Hd, (utf8_ascii _ Hs), bool_decide_true by done.
  replace (forallb valid_charb s) with true; [done|]. symmetry. apply forallb_forall.
  intros c Hc. apply ascii_str_Forall in Hs. rewrite List.Forall_forall in Hs. specialize (Hs c Hc).
  unfold valid_charb. apply orb_true_iff; left. apply andb_true_iff. lia.
Qed.

Lemma decode_hex_roundtrip bs : Forall is_byte bs → decode_hex (hex_bytes bs) = Ok bs.
Proof.
  intros Hbs. pose proof (hex_bytes_hexdigit _ Hbs) as Hhex. unfold decode_hex.
  rewrite ascii_str_len, hex_bytes_length by done.
  replace (Z.of_nat (2 * length bs) mod 2) with 0 by (rewrite Nat2Z.inj_mul, Z.mul_comm; symmetry; apply Z.mod_mul; done).
  rewrite Z.eqb_refl, utf8_ascii by auto using hexdigits_ascii. by apply decode_hex_bytes_roundtrip.
Qed.

Lemma decode_fixed_hex_roundtrip n bs :
  Forall is_byte bs → length bs = n → decode_fixed_hex n (hex_bytes bs) = Ok bs.
Proof.
  intros Hbs Hn. unfold decode_fixed_hex. rewrite decode_hex_roundtrip by done. cbn [result_bind].
  by rewrite Hn, Nat.eqb_refl.
Qed.

(** A line without line feeds. *)
Lemma lines_line cur w s :
  Forall (λ c, c ≠ 10) w → lines_from cur (w ++ 10 :: s) = strip_cr (cur ++ w) :: lines_from [] s.
Proof.
  intros Hw. revert cur; induction Hw as [|c w Hc Hw IH]; intros cur; cbn [app lines_from].
  - by rewrite app_nil_r.
  - rewrite (proj2 (Z.eqb_neq c 10)) by done. rewrite IH. by rewrite <- app_assoc.
Qed.

Lemma strip_cr_free w : Forall (λ c, c ≠ 13) w → strip_cr w = w.
Proof.
  intros Hw. unfold strip_cr, strip_suffix. destruct (ends_with [13] w) eqn:E; [|done].
  apply ends_with_spec in E as [t ->]. apply Forall_app in Hw as [_ Hw]. by inversion Hw.
Qed.

Definition line_ok (w : str) : Prop := Forall (λ c, c ≠ 10 ∧ c ≠ 13) w.

Lemma lines_of_three a b c :
  line_ok a → line_ok b → line_ok c →
  str_lines (a ++ [10] ++ b ++ [10] ++ c ++ [10]) = [a; b; c].
Proof.
  intros Ha Hb Hc. unfold str_lines. cbn [app].
  assert (∀ w, line_ok w → Forall (λ c, c ≠ 10) w ∧ strip_cr w = w) as Hok.
  { intros w Hw. split; [|apply strip_cr_free]; eapply Forall_impl; [exact Hw|intros ? []; done|exact Hw|intros ? []; done]. }
  rewrite lines_line by (by apply Hok). rewrite lines_line by (by apply Hok). rewrite lines_line by (by apply Hok).
  cbn [app]. by rewrite (proj2 (Hok a Ha)), (proj2 (Hok b Hb)), (proj2 (Hok c Hc)).
Qed.

Lemma hex_line_ok bs : Forall is_byte bs → line_ok (hex_bytes bs).
Proof.
  intros Hhex%hex_bytes_hexdigit. apply List.Forall_forall. rewrite forallb_forall in Hhex.
  intros c Hc. specialize (Hhex c Hc). split; intros ->; done.
Qed.

(** ** Files *)

Lemma run_inj {S A} (m : M S A) s s1 s2 a b : run m s s1 a → run m s s2 b → s1 = s2 ∧ a = b.
Proof. unfold run. intros ->. by intros [= <- <-]. Qed.

Ltac step_det lem := eapply run_bind; [apply run_det; apply lem|].
Ltac quiet_step := first [step_det @det_check | step_det @det_sys_ok].

Section files.
Context `{Sha256} `{SerdeJson} `{Aead}.

Lemma run_create f bytes d :
  dir_file d f = None → run (create_and_write f bytes) d (dir_write d f bytes) tt.
Proof. intros Hf. unfold run, create_and_write, mbind, M_bind, get. cbn. by rewrite Hf. Qed.

Lemma run_append f bytes d w :
  dir_file d f = Some w → run (append_file f bytes) d (dir_write d f (w ++ bytes)) tt.
Proof. intros Hf. unfold run, append_file, mbind, M_bind, get. cbn. by rewrite Hf. Qed.

Lemma run_read_bytes f max d bytes :
  dir_file d f = Some bytes → (∀ m, max = Some m → len bytes ≤ m) →
  run (read_private_bytes_with_limit f max) d d bytes.
Proof.
  intros Hf Hmax. unfold run, read_private_bytes_with_limit, mbind, M_bind, get. cbn. rewrite Hf. cbn.
  destruct max as [m|]; [|done]. specialize (Hmax m eq_refl).
  rewrite (proj2 (Z.ltb_ge m (len bytes))) by done. done.
Qed.

Lemma dir_file_write d f bytes : dir_file (dir_write d f bytes) f = Some bytes.
Proof. by destruct f. Qed.

Lemma dir_write_write d f a b : dir_write (dir_write d f a) f b = dir_write d f b.
Proof. by destruct f. Qed.

Lemma chunk_positive : (0 < ENCRYPTED_WRITE_CHUNK_BYTES)%nat.
Proof. unfold ENCRYPTED_WRITE_CHUNK_BYTES. lia. Qed.

Lemma run_write_chunks fuel bytes d w :
  (length bytes ≤ fuel)%nat → d_snapshot d = Some w →
  run (write_chunks fuel bytes) d (dir_write d SnapshotFile (w ++ bytes)) tt.
Proof.
  revert bytes d w. induction fuel as [|fuel IH]; intros bytes d w Hlen Hd.
  - destruct bytes; [|cbn in Hlen; lia]. rewrite app_nil_r. destruct d; cbn in Hd; subst. reflexivity.
  - cbn [write_chunks]. destruct bytes as [|b bytes].
    { rewrite app_nil_r. destruct d; cbn in Hd; subst. reflexivity. }
    quiet_step. eapply run_bind; [apply (run_append SnapshotFile _ d w Hd)|].
    eapply eq_trans; [apply IH; [|reflexivity]|].
    + rewrite length_drop. pose proof chunk_positive. cbn [length] in *. lia.
    + by rewrite <- app_assoc, take_drop, dir_write_write.
Qed.

Definition entropy_wf (en : Entropy) : Prop :=
  length (en_key en) = KEY_LEN ∧ Forall is_byte (en_key en) ∧
  length (en_nonce en) = NONCE_LEN ∧ Forall is_byte (en_nonce en).

Lemma append_hex_run {S} bytes (s : S) : run (append_hex_with_control bytes) s s (hex_bytes bytes).
Proof.
  eapply run_bind; [apply run_det, (det_for_map _ hex_byte); intros x; apply det_ret|]. reflexivity.
Qed.

Definition keyed_dir (key : list Z) : Dir := MkDir (Some (hex_bytes key ++ [10])) None None.

Lemma load_key_run key : run (load_or_create_key key) empty_dir (keyed_dir key) key.
Proof.
  unfold load_or_create_key. eapply run_bind; [reflexivity|]. cbn [d_key empty_dir].
  quiet_step. eapply run_bind; [by apply run_create|]. quiet_step. reflexivity.
Qed.

(** The steps that follow the encoding. *)
Lemma write_bytes_run (bytes : list Z) (dg : ContentDigest) d :
  d_snapshot d = None →
  run (_ ← check; _ ← create_and_write SnapshotFile []; _ ← write_chunks (length bytes) bytes;
       _ ← check; _ ← sys_ok; _ ← check; mret dg) d (dir_write d SnapshotFile bytes) dg.
Proof.
  intros Hd. quiet_step. eapply run_bind; [by apply run_create|].
  eapply run_bind; [by eapply run_write_chunks; [lia|]|].
  quiet_step. quiet_step. quiet_step. reflexivity.
Qed.

(** What the payload writer leaves in a new directory. *)
Lemma write_payload_forward en plain ct :
  aead_encrypt (en_key en) (en_nonce en) (utf8 ENCRYPTED_HEADER) plain = Some ct →
  run (write_encrypted_payload en plain) empty_dir
    (dir_write (keyed_dir (en_key en)) SnapshotFile (encrypted_text (en_nonce en) ct))
    (content_digest_from_bytes (encrypted_text (en_nonce en) ct)).
Proof.
  intros E. unfold write_encrypted_payload, encrypted_text. quiet_step. eapply run_bind; [apply load_key_run|].
  quiet_step. quiet_step. rewrite E. eapply run_bind; [apply run_det, det_lift|]. quiet_step.
  eapply run_bind; [apply append_hex_run|]. by apply write_bytes_run.
Qed.

Lemma write_payload_run en plain d dg :
  run (write_encrypted_payload en plain) empty_dir d dg →
  ∃ ct, aead_encrypt (en_key en) (en_nonce en) (utf8 ENCRYPTED_HEADER) plain = Some ct ∧
    d = dir_write (keyed_dir (en_key en)) SnapshotFile (encrypted_text (en_nonce en) ct) ∧
    dg = content_digest_from_bytes (encrypted_text (en_nonce en) ct).
Proof.
  intros Hrun.
  destruct (aead_encrypt (en_key en) (en_nonce en) (utf8 ENCRYPTED_HEADER) plain) as [ct|] eqn:E.
  { exists ct. split; [reflexivity|]. exact (run_inj _ _ _ _ _ _ Hrun (write_payload_forward _ _ _ E)). }
  exfalso. unfold write_encrypted_payload in Hrun.
  apply run_bind_inv in Hrun as (s1 & [] & [-> _]%(run_det_inv _ _ _ _ _ det_check) & Hrun); [|apply stable_check].
  apply run_bind_inv in Hrun as (s2 & k & Hk & Hrun); [|apply stable_load_key].
  destruct (run_inj _ _ _ _ _ _ Hk (load_key_run _)) as [-> ->].
  apply run_bind_inv in Hrun as (s3 & [] & [-> _]%(run_det_inv _ _ _ _ _ det_sys_ok) & Hrun); [|apply stable_sys_ok].
  apply run_bind_inv in Hrun as (s4 & [] & [-> _]%(run_det_inv _ _ _ _ _ det_check) & Hrun); [|apply stable_check].
  rewrite E in Hrun.
  apply run_bind_inv in Hrun as (s5 & x & [_ Hx]%(run_det_inv _ _ _ _ _ (det_lift _)) & _); [|apply stable_lift].
  discriminate Hx.
Qed.

(** *** Reading the files back *)

Context `{!AeadLaws}.

Lemma read_key_run key d :
  length key = KEY_LEN → Forall is_byte key → d_key d = Some (hex_bytes key ++ [10]) →
  run read_key d d key.
Proof.
  intros Hlen Hk Hd. assert (len (hex_bytes key ++ [10]) = 65) as Hl.
  { unfold len. rewrite length_app, hex_bytes_length, Hlen. reflexivity. }
  unfold read_key. eapply run_bind; [apply (run_read_bytes KeyFile _ _ _ Hd)|].
  { intros m [= <-]. by rewrite Hl. }
  cbv zeta. rewrite Hl, last_snoc, bool_decide_true by done.
  assert (take (Z.to_nat ENCODED_KEY_LEN) (hex_bytes key ++ [10]) = hex_bytes key) as ->.
  { apply take_app_length'. rewrite hex_bytes_length, Hlen. reflexivity. }
  change (65 =? ENCODED_KEY_LEN) with false. change (65 =? MAX_KEY_FILE_BYTES) with true. cbn [andb].
  rewrite from_utf8_ascii by auto using hexdigits_ascii, hex_bytes_hexdigit.
  rewrite decode_fixed_hex_roundtrip by done. apply run_det, det_lift.
Qed.

Lemma header_ascii : ascii_str ENCRYPTED_HEADER = true.
Proof. by vm_compute. Qed.

Lemma header_line : line_ok ENCRYPTED_HEADER.
Proof. apply (bool_decide_unpack _). by vm_compute. Qed.

Lemma ascii_str_app s t : ascii_str (s ++ t) = ascii_str s && ascii_str t.
Proof. apply forallb_app. Qed.

Lemma encrypted_text_ascii nonce ct :
  Forall is_byte nonce → Forall is_byte ct → ascii_str (encrypted_text nonce ct) = true.
Proof.
  intros Hn Hc. unfold encrypted_text. rewrite utf8_ascii by apply header_ascii.
  rewrite !ascii_str_app, header_ascii.
  by rewrite (hexdigits_ascii _ (hex_bytes_hexdigit _ Hn)), (hexdigits_ascii _ (hex_bytes_hexdigit _ Hc)).
Qed.

Lemma encrypted_text_lines nonce ct :
  Forall is_byte nonce → Forall is_byte ct →
  str_lines (encrypted_text nonce ct) = [ENCRYPTED_HEADER; hex_bytes nonce; hex_bytes ct].
Proof.
  intros Hn Hc. unfold encrypted_text. rewrite utf8_ascii by apply header_ascii.
  apply lines_of_three; auto using header_line, hex_line_ok.
Qed.

Lemma read_payload_run en plain ct d :
  entropy_wf en →
  aead_encrypt (en_key en) (en_nonce en) (utf8 ENCRYPTED_HEADER) plain = Some ct →
  d_key d = Some (hex_bytes (en_key en) ++ [10]) → d_snapshot d = Some (encrypted_text (en_nonce en) ct) →
  run (read_encrypted_payload (content_digest_from_bytes (encrypted_text (en_nonce en) ct))) d d plain.
Proof.
  intros (Hkl & Hkb & Hnl & Hnb) E Hk Hs. pose proof (aead_bytes _ _ _ _ _ E) as Hcb.
  unfold read_encrypted_payload. eapply run_bind; [by apply (run_read_bytes SnapshotFile _ _ _ Hs)|].
  rewrite bool_decide_true by reflexivity. cbn [negb].
  rewrite from_utf8_ascii, encrypted_text_lines by auto using encrypted_text_ascii.
  rewrite (proj2 (str_eqb_eq _ _)) by reflexivity. cbn [negb].
  rewrite decode_fixed_hex_roundtrip by assumption. eapply run_bind; [apply run_det, det_lift|].
  rewrite decode_hex_roundtrip by assumption. eapply run_bind; [apply run_det, det_lift|].
  eapply run_bind; [by apply (read_key_run _ _ Hkl)|].
  rewrite (aead_roundtrip _ _ _ _ _ E). apply run_det, det_lift.
Qed.
End files.

(** ** Accepted documents *)

Section accepted.
Context `{Sha256}.

Lemma versions_of_acc pairs m :
  ssorted m.*1 → ssorted (fold_left (λ m p, bmap_entry p.1 (λ _, p.2) m) pairs m : list (str * str)).*1.
Proof.
  revert m; induction pairs as [|p pairs IH]; intros m Hm; [done|]. apply IH. by apply bmap_entry_sorted.
Qed.

Lemma versions_lookup_acc pairs m k v :
  ssorted m.*1 → NoDup pairs.*1 →
  bmap_lookup k (fold_left (λ m p, bmap_entry p.1 (λ _, p.2) m) pairs m : list (str * str)) = Some v ↔
  (k, v) ∈ pairs ∨ ((k ∉ pairs.*1) ∧ bmap_lookup k m = Some v).
Proof.
  revert m. induction pairs as [|[j x] pairs IH]; intros m Hm Hnd; cbn [fold_left].
  { split; [intros Hk; right; split; [apply not_elem_of_nil|done]|]. intros [Hk%elem_of_nil|[_ Hk]]; done. }
  cbn in Hnd. apply NoDup_cons in Hnd as [Hj Hnd]. rewrite IH by (done || by apply bmap_entry_sorted).
  cbn [fst snd fmap list_fmap]. rewrite !elem_of_cons. destruct (decide (k = j)) as [->|Hne].
  - rewrite bmap_lookup_entry by done. split.
    + intros [Hin|[_ [= <-]]]; left; [by right|by left].
    + intros [[[= ->]|Hin]|[Hn _]]; [by right|by left|]. exfalso. apply Hn. by left.
  - rewrite bmap_lookup_entry_ne by done. split.
    + intros [Hin|[Hn Hl]]; [left; by right|right]. split; [|done]. intros [->|Hin]; done.
    + intros [[[= -> _]|Hin]|[Hn Hl]]; [done|by left|right]. split; [|done]. intros Hin. apply Hn. by right.
Qed.

Lemma versions_lookup pairs k v :
  NoDup pairs.*1 → bmap_lookup k (versions_of pairs) = Some v ↔ (k, v) ∈ pairs.
Proof.
  intros Hnd. unfold versions_of. rewrite versions_lookup_acc by (done || constructor).
  split; [|by left]. by intros [?|[_ ?]].
Qed.

(** A document a contract and a projection accept. *)
Definition document_fits (c : VectorModelContract) (pairs : list (str * str)) (d : VectorDocument) : Prop :=
  match c with
  | ContractDisabled => False
  | ContractEnabled model_id dimension =>
      len (vd_values d) = dimension ∧ validate_vector_values (vd_values d) = Ok tt ∧
      doc_model_id d = model_id ∧ (doc_document_id d, doc_resume_version_id d) ∈ pairs
  end.

Lemma opt_is_spec o s : opt_is o s = true ↔ o = Some s.
Proof. destruct o as [x|]; cbn; [|done]. rewrite str_eqb_eq. naive_solver. Qed.

(** The accumulator: the ids seen, and versions that agree with the projection. *)
Definition acc_ok (pairs : list (str * str)) (acc : list str * list (str * str)) : Prop :=
  ssorted acc.1 ∧ ssorted acc.2.*1 ∧ ∀ k v, bmap_lookup k acc.2 = Some v → (k, v) ∈ pairs.

Lemma validate_document_ok c pairs acc d acc' :
  NoDup pairs.*1 → acc_ok pairs acc →
  validate_document c (versions_of pairs) acc d = Ok acc' ↔
  document_fits c pairs d ∧ (doc_vector_id d ∉ acc.1) ∧
  acc' = (bset_insert (doc_vector_id d) acc.1,
          bmap_entry (doc_document_id d) (λ _, doc_resume_version_id d) acc.2).
Proof.
  intros Hnd (Hs1 & Hs2 & Hacc). unfold validate_document, document_fits.
  destruct c as [|model dim]; [split; [done|by intros [[] _]]|].
  unfold validate_dimension. destruct (len (vd_values d) =? dim) eqn:Ed; bools; cbn [result_bind];
    [|split; [done|intros [[? _] _]; done]].
  destruct (validate_vector_values (vd_values d)) as [[]|e] eqn:Ev; cbn [result_bind];
    [|split; [done|intros [(_ & ? & _) _]; done]].
  destruct (str_eqb (doc_model_id d) model) eqn:Em; cbn [negb];
    [apply str_eqb_eq in Em|split; [done|intros [(_ & _ & Hm & _) _]; apply str_eqb_eq in Hm; congruence]].
  destruct (opt_is _ _) eqn:Eo; cbn [negb].
  2: { split; [done|]. intros [(_ & _ & _ & Hin) _]. apply (versions_lookup _ _ _ Hnd) in Hin.
       apply opt_is_spec in Hin. congruence. }
  apply opt_is_spec, (versions_lookup _ _ _ Hnd) in Eo.
  destruct (bset_contains _ _) eqn:Ec.
  { apply bset_contains_spec in Ec; [|done]. split; [done|intros (_ & Hn & _); done]. }
  assert (doc_vector_id d ∉ acc.1) as Hn by (rewrite <- bset_contains_spec by done; congruence).
  destruct (bmap_lookup (doc_document_id d) acc.2) as [v|] eqn:El; [|naive_solver].
  assert (v = doc_resume_version_id d) as ->.
  { apply Hacc, (versions_lookup _ _ _ Hnd) in El. apply (versions_lookup _ _ _ Hnd) in Eo. congruence. }
  rewrite (proj2 (str_eqb_eq _ _)) by done. cbn [negb]. naive_solver.
Qed.

Lemma acc_ok_step pairs acc d c :
  acc_ok pairs acc → document_fits c pairs d →
  acc_ok pairs (bset_insert (doc_vector_id d) acc.1,
                bmap_entry (doc_document_id d) (λ _, doc_resume_version_id d) acc.2).
Proof.
  intros (Hs1 & Hs2 & Hacc) Hfit. split_and!; cbn [fst snd].
  - by apply bset_insert_sorted.
  - by apply bmap_entry_sorted.
  - intros k v. destruct (decide (k = doc_document_id d)) as [->|Hne].
    + rewrite bmap_lookup_entry by done. intros [= <-]. destruct c; [done|]. apply Hfit.
    + rewrite bmap_lookup_entry_ne by done. apply Hacc.
Qed.

Lemma validate_documents_fold c pairs ds acc :
  NoDup pairs.*1 → acc_ok pairs acc →
  (∃ acc', fold_results (validate_document c (versions_of pairs)) acc ds = Ok acc') ↔
  Forall (document_fits c pairs) ds ∧ NoDup (map doc_vector_id ds) ∧
  Forall (λ d, doc_vector_id d ∉ acc.1) ds.
Proof.
  intros Hnd. revert acc. induction ds as [|d ds IH]; intros acc Hacc; cbn [fold_results map].
  { split; [intros _; split_and!; constructor|eauto]. }
  destruct (validate_document c (versions_of pairs) acc d) as [acc1|e] eqn:E; cbn [result_bind].
  - apply validate_document_ok in E as (Hfit & Hn & ->); [|done..].
    rewrite IH by (by eapply acc_ok_step). cbn [fst]. rewrite !Forall_cons, NoDup_cons, !Forall_forall.
    setoid_rewrite elem_of_bset_insert. setoid_rewrite list_elem_of_fmap. split.
    + intros (Hf & Hd & Hx). split_and!; try done.
      * intros (y & Heq & Hy). apply (Hx y Hy). by left.
      * intros y Hy Hin. apply (Hx y Hy). by right.
    + intros ((_ & Hf) & (Hne & Hd) & _ & Hx). split_and!; try done.
      intros y Hy [Heq|Hin]; [apply Hne; by exists y|by apply (Hx y Hy)].
  - split; [by intros [? [=]]|]. rewrite !Forall_cons. intros ((Hfit & _) & _ & Hn & _).
    assert (validate_document c (versions_of pairs) acc d = Ok (bset_insert (doc_vector_id d) acc.1,
          bmap_entry (doc_document_id d) (λ _, doc_resume_version_id d) acc.2)) as E'; [|congruence].
    by apply validate_document_ok.
Qed.

Lemma digest_of_projection_ok p dg :
  digest_of_projection p = Ok dg ↔
  Forall valid_pair (map projection_pair p) ∧ NoDup (map projection_pair p).*1 ∧
  NoDup (map projection_pair p).*2 ∧
  dg = digest_of_preimage (projection_preimage (sort_pairs (map projection_pair p))).
Proof.
  rewrite <- search_projection_digest_ok_iff. unfold digest_of_projection, projection_digest_of.
  destruct (search_projection_digest_from_pairs _); cbn [map_err]; [|done]. naive_solver.
Qed.

(** Documents are accepted exactly when the contract is valid, the projection is
    one-to-one, every document fits and the vector ids are distinct. *)
Lemma documents_ok_iff c p ds :
  documents_ok c p ds = Ok tt ↔
  contract_validate c = Ok tt ∧ (∃ dg, digest_of_projection p = Ok dg) ∧
  Forall (document_fits c (map projection_pair p)) ds ∧ NoDup (map doc_vector_id ds).
Proof.
  unfold documents_ok. destruct (contract_validate c) as [[]|e]; cbn [result_bind]; [|naive_solver].
  destruct (digest_of_projection p) as [dg|e] eqn:Ep; cbn [result_bind]; [|naive_solver].
  apply digest_of_projection_ok in Ep as (_ & Hnd & _ & _).
  pose proof (validate_documents_fold c (map projection_pair p) ds ([], []) Hnd) as Hfold.
  assert (acc_ok (map projection_pair p) ([], [])) as Hacc by (split_and!; [constructor..|done]).
  specialize (Hfold Hacc).
  destruct (is_contract_disabled c && negb (bool_decide (ds = []))) eqn:Eb.
  - split; [done|]. intros (_ & _ & Hf & _). bools. destruct c; [|done].
    destruct ds; [done|]. by inversion Hf.
  - assert (Forall (λ d, doc_vector_id d ∉ ([] : list str)) ds) as Hnil
      by (apply Forall_forall; intros ? ?; apply not_elem_of_nil).
    destruct (fold_results _ _ ds) as [acc|e]; cbn [result_bind].
    + split; [|done]. intros _. destruct Hfold as [(Hf & Hn & _) _]; [by eexists|]. eauto 10.
    + split; [done|]. intros (_ & _ & Hf & Hn). destruct Hfold as [_ [? [=]]]. done.
Qed.
End accepted.

(** ** Inverting runs *)

Lemma run_staged_inv {S A} (m : M S A) r s s' a :
  det m r → run (staged m) s s' a → s' = s ∧ r = Ok a.
Proof.
  intros Hm Hrun. apply (run_det_inv _ _ _ _ _ (det_staged _ _ Hm)) in Hrun as [-> Hr].
  split; [done|]. by destruct r; cbn in Hr; simplify_eq.
Qed.

(** One step of a run whose result is known. *)
Tactic Notation "run_step" ident(H) uconstr(lem) "as" ident(a) ident(Ha) :=
  let s := fresh "s" in
  apply run_bind_inv in H as (s & a & Ha & H); [|solve [auto with stable nocore]];
  apply (run_det_inv _ _ _ _ _ lem) in Ha as [-> Ha].

Ltac skip_quiet H :=
  repeat (let a := fresh "a" in let Ha := fresh "Ha" in
    first [run_step H (@det_check _) as a Ha | run_step H (@det_sys_ok _) as a Ha]; clear a Ha).

Tactic Notation "staged_step" ident(H) uconstr(lem) "as" ident(a) ident(Ha) :=
  let s := fresh "s" in
  apply run_bind_inv in H as (s & a & Ha & H); [|solve [auto with stable nocore]];
  apply (run_staged_inv _ _ _ _ _ lem) in Ha as [-> Ha].

(** ** A written snapshot is read back *)

(** A field that is compared with what is expected. *)
Ltac matching_field H :=
  rewrite H; cbn [result_bind]; rewrite (proj2 (str_eqb_eq _ _)) by reflexivity; cbn [negb].

Section roundtrip.
Context `{Sha256} `{SerdeJson} `{Aead}.
Context `{!Sha256Laws} `{!SerdeJsonLaws} `{!AeadLaws}.

Definition digest_wf (dg : ContentDigest) : Prop := content_digest_from_str (digest_str dg) = Some dg.

(** What the writer's summaries satisfy. *)
Definition summary_wf (s : VectorSnapshotSummary) : Prop :=
  contract_validate (vs_model_contract s) = Ok tt ∧
  vs_vector_document_count s ≤ vs_vector_count s ∧
  vs_vector_document_count s ≤ vs_projection_count s ∧
  (vs_model_contract s = ContractDisabled → vs_vector_count s = 0 ∧ vs_vector_document_count s = 0) ∧
  digest_wf (vs_projection_digest s) ∧ digest_wf (vs_coverage_digest s) ∧
  digest_wf (vs_logical_content_digest s) ∧ digest_wf (vs_artifact_digest s).

Definition manifest_keys : list str :=
  [lit "schema_version"; lit "index_schema"; lit "generation"; lit "model_id"; lit "dimension";
   lit "vector_count"; lit "projection_count"; lit "vector_document_count";
   lit "projection_digest"; lit "coverage_digest"; lit "logical_content_digest";
   lit "artifact_digest"; lit "search_backend"; lit "encryption"].

(** The members of a manifest, by value. *)
Lemma manifest_json_members s : ∃ m, manifest_json s = VObject m ∧
  ensure_exact_keys m manifest_keys = Ok tt ∧
  bmap_lookup (lit "schema_version") m = Some (VString SNAPSHOT_MANIFEST_SCHEMA_V4) ∧
  bmap_lookup (lit "index_schema") m = Some (VString VECTOR_INDEX_SCHEMA_V4) ∧
  bmap_lookup (lit "search_backend") m = Some (VString SEARCH_BACKEND) ∧
  bmap_lookup (lit "encryption") m = Some (VString ENCRYPTION) ∧
  bmap_lookup (lit "generation") m = Some (VString (vs_generation s)) ∧
  bmap_lookup (lit "model_id") m = Some (json_opt_str (contract_model_id (vs_model_contract s))) ∧
  bmap_lookup (lit "dimension") m = Some (json_opt_usize (contract_dimension (vs_model_contract s))) ∧
  bmap_lookup (lit "vector_count") m = Some (json_usize (vs_vector_count s)) ∧
  bmap_lookup (lit "projection_count") m = Some (json_usize (vs_projection_count s)) ∧
  bmap_lookup (lit "vector_document_count") m = Some (json_usize (vs_vector_document_count s)) ∧
  bmap_lookup (lit "projection_digest") m = Some (VString (digest_str (vs_projection_digest s))) ∧
  bmap_lookup (lit "coverage_digest") m = Some (VString (digest_str (vs_coverage_digest s))) ∧
  bmap_lookup (lit "logical_content_digest") m = Some (VString (digest_str (vs_logical_content_digest s))) ∧
  bmap_lookup (lit "artifact_digest") m = Some (VString (digest_str (vs_artifact_digest s))).
Proof.
  eexists. split; [reflexivity|]. unfold json_usize.
  generalize (json_opt_str (contract_model_id (vs_model_contract s))).
  generalize (json_opt_usize (contract_dimension (vs_model_contract s))).
  intros v v'. split_and!; vm_compute; reflexivity.
Qed.

Lemma read_back_digest m n f dg :
  read_back m n → digest_wf dg → bmap_lookup (lit f) m = Some (VString (digest_str dg)) →
  digest_field n f = Ok dg.
Proof.
  intros Hn Hdg Hl. unfold digest_field. rewrite (read_back_string _ _ _ _ Hn Hl). cbn [result_bind].
  by rewrite Hdg.
Qed.

Lemma decode_manifest_roundtrip s text :
  summary_wf s → json_to_vec (manifest_json s) = Some text → len (text ++ [10]) ≤ MAX_MANIFEST_BYTES →
  decode_manifest_metadata (text ++ [10]) (vs_generation s) (vs_model_contract s) = Ok s.
Proof.
  intros (Hc & H1' & H2' & Hdis & D1 & D2 & D3 & D4) Htext Hlen.
  destruct (json_roundtrip _ _ Htext) as (_ & v & Hv & Hclose).
  destruct (manifest_json_members s) as (m & Hm & Hkeys & F1 & F2 & F3 & F4 & F5 & F6 & F7 & F8 & F9 & F10
    & F11 & F12 & F13 & F14).
  rewrite Hm in Hclose. apply close_object_inv in Hclose as (n & -> & Hn).
  unfold manifest_keys in Hkeys. unfold decode_manifest_metadata. rewrite bool_decide_false by (by destruct text). cbn [orb].
  rewrite (proj2 (Z.ltb_ge _ _)) by exact Hlen. rewrite Hc. cbn [result_bind].
  rewrite json_newline, Hv. cbn [ok_or as_object result_bind].
  rewrite (read_back_keys _ _ _ Hn Hkeys). cbn [result_bind]. unfold validate_manifest.
  matching_field (read_back_string _ _ _ _ Hn F1).
  matching_field (read_back_string _ _ _ _ Hn F2).
  matching_field (read_back_string _ _ _ _ Hn F3).
  matching_field (read_back_string _ _ _ _ Hn F4).
  matching_field (read_back_string _ _ _ _ Hn F5).
  rewrite (read_back_contract _ _ _ Hn Hc F6 F7). cbn [result_bind]. rewrite bool_decide_true by reflexivity. cbn [result_bind].
  rewrite (read_back_usize _ _ _ _ Hn F8). cbn [result_bind].
  rewrite (read_back_usize _ _ _ _ Hn F9). cbn [result_bind].
  rewrite (read_back_usize _ _ _ _ Hn F10). cbn [result_bind].
  rewrite (proj2 (Z.ltb_ge _ _) H1'), (proj2 (Z.ltb_ge _ _) H2'). cbn [orb].
  assert (is_contract_disabled (vs_model_contract s)
    && (negb (vs_vector_count s =? 0) || negb (vs_vector_document_count s =? 0)) = false) as ->.
  { destruct (vs_model_contract s) eqn:Ec; [|reflexivity]. destruct (Hdis eq_refl) as [-> ->]. reflexivity. }
  rewrite (read_back_digest _ _ _ _ Hn D1 F11), (read_back_digest _ _ _ _ Hn D2 F12),
    (read_back_digest _ _ _ _ Hn D3 F13), (read_back_digest _ _ _ _ Hn D4 F14). cbn [result_bind].
  by destruct s.
Qed.

Lemma payload_json_members g c ps vs : ∃ m, payload_json g c ps vs = VObject m ∧
  ensure_exact_keys m [lit "schema_version"; lit "generation"; lit "model_id"; lit "dimension";
     lit "active_projection"; lit "vectors"] = Ok tt ∧
  bmap_lookup (lit "schema_version") m = Some (VString PAYLOAD_SCHEMA) ∧
  bmap_lookup (lit "generation") m = Some (VString g) ∧
  bmap_lookup (lit "model_id") m = Some (json_opt_str (contract_model_id c)) ∧
  bmap_lookup (lit "dimension") m = Some (json_opt_usize (contract_dimension c)) ∧
  bmap_lookup (lit "active_projection") m = Some (VArray ps) ∧
  bmap_lookup (lit "vectors") m = Some (VArray vs).
Proof.
  eexists. split; [reflexivity|].
  generalize (json_opt_str (contract_model_id c)) (json_opt_usize (contract_dimension c)).
  intros v v'. split_and!; vm_compute; reflexivity.
Qed.

Lemma decode_payload_roundtrip g c ps vs text :
  contract_validate c = Ok tt → json_to_vec (payload_json g c ps vs) = Some text →
  ∃ v members ps' vs', json_from_bytes text = Some v ∧ decode_payload v g c = Ok members ∧
    array_field members "active_projection" = Ok ps' ∧ Forall2 json_close ps ps' ∧
    array_field members "vectors" = Ok vs' ∧ Forall2 json_close vs vs'.
Proof.
  intros Hc Htext. destruct (json_roundtrip _ _ Htext) as (_ & v & Hv & Hclose).
  destruct (payload_json_members g c ps vs) as (m & Hm & Hkeys & F1 & F2 & F3 & F4 & F5 & F6).
  rewrite Hm in Hclose. apply close_object_inv in Hclose as (n & -> & Hn).
  destruct (read_back_array _ _ _ _ Hn F5) as (ps' & Hps & Cps).
  destruct (read_back_array _ _ _ _ Hn F6) as (vs' & Hvs & Cvs).
  exists (VObject n), n, ps', vs'. split_and!; [assumption| |assumption..].
  unfold decode_payload. cbn [ok_or as_object result_bind].
  rewrite (read_back_keys _ _ _ Hn Hkeys). cbn [result_bind].
  matching_field (read_back_string _ _ _ _ Hn F1).
  matching_field (read_back_string _ _ _ _ Hn F2).
  rewrite (read_back_contract _ _ _ Hn Hc F3 F4). cbn [result_bind]. by rewrite bool_decide_true by reflexivity.
Qed.

Lemma sort_by_id {A} (cmp : A → A → comparison) l : StronglySorted (sort_le cmp) l → sort_by cmp l = l.
Proof.
  induction 1 as [|x l Hl IH Hx]; [done|]. unfold sort_by in *. cbn [foldr]. rewrite IH.
  destruct Hx as [|y l Hy Hx]; [done|]. cbn. unfold sort_le in Hy. by destruct (cmp x y).
Qed.

Lemma projection_order_pair x y : projection_order x y = cmp (projection_pair x) (projection_pair y).
Proof. reflexivity. Qed.

Lemma projection_sorted p : StronglySorted (sort_le projection_order) (sort_by projection_order p).
Proof.
  apply (sort_by_sorted projection_order (λ _, True)); [..|by apply Forall_forall].
  - intros x y _ _. unfold sort_le. rewrite !projection_order_pair. apply sort_le_cmp_total.
  - intros x y z _ _ _. unfold sort_le. rewrite !projection_order_pair.
    apply (sort_le_cmp_trans (projection_pair x) (projection_pair y) (projection_pair z)).
Qed.

Lemma digest_wf_preimage bytes : digest_wf (digest_of_preimage bytes).
Proof. apply (content_digest_roundtrip bytes). Qed.

Lemma digest_of_pairs_wf pairs dg : projection_digest_of pairs = Ok dg → digest_wf dg.
Proof.
  unfold projection_digest_of. destruct (search_projection_digest_from_pairs pairs) as [x|] eqn:E; [|done].
  cbn [map_err]. intros [= <-]. apply search_projection_digest_ok_iff in E as (_ & _ & _ & ->).
  apply digest_wf_preimage.
Qed.

(** The documents' ids are among the projection's. *)
Lemma document_ids_acc (ds : list VectorDocument) (acc : list str) :
  ssorted acc →
  ssorted (fold_left (λ set d, bset_insert (doc_document_id d) set) ds acc) ∧
  (∀ x, x ∈ fold_left (λ set d, bset_insert (doc_document_id d) set) ds acc ↔
        x ∈ acc ∨ x ∈ map doc_document_id ds).
Proof.
  revert acc; induction ds as [|d ds IH]; intros acc Hacc; cbn [fold_left map].
  - split; [done|]. intros x. split; [by left|]. intros [?|?%elem_of_nil]; done.
  - destruct (IH (bset_insert (doc_document_id d) acc)) as [Hs Hx]; [by apply bset_insert_sorted|].
    split; [exact Hs|]. intros x. rewrite Hx, elem_of_bset_insert, elem_of_cons. tauto.
Qed.

Lemma vector_document_ids_spec ds :
  NoDup (vector_document_ids ds) ∧ ∀ x, x ∈ vector_document_ids ds ↔ x ∈ map doc_document_id ds.
Proof.
  destruct (document_ids_acc ds [] ltac:(constructor)) as [Hs Hx]. split.
  - apply ssorted_NoDup, Hs.
  - intros x. unfold vector_document_ids. rewrite Hx. split; [|by right]. intros [?%elem_of_nil|?]; done.
Qed.

Lemma vector_document_count_le ds (l : list str) :
  (∀ d, d ∈ ds → doc_document_id d ∈ l) → len (vector_document_ids ds) ≤ len l.
Proof.
  intros Hds. destruct (vector_document_ids_spec ds) as [Hnd Hx]. unfold len. apply Nat2Z.inj_le.
  apply submseteq_length, NoDup_submseteq; [done|]. intros x Hin. apply Hx in Hin.
  apply list_elem_of_fmap in Hin as (d & -> & Hd). by apply Hds.
Qed.

(** *** What a successful writer leaves *)

Definition written (en : Entropy) (g : str) (c : VectorModelContract) (p : list ActiveSearchProjection)
    (ds : list VectorDocument) (d : Dir) (s : VectorSnapshotSummary) : Prop :=
  documents_ok c p ds = Ok tt ∧
  ∃ dg cov plain ct text,
    digest_of_projection p = Ok dg ∧ projection_digest_of (covered ds) = Ok cov ∧
    json_to_vec (payload_json g c (map projection_json p) (map document_json ds)) = Some plain ∧
    aead_encrypt (en_key en) (en_nonce en) (utf8 ENCRYPTED_HEADER) plain = Some ct ∧
    s = MkSummary g c (len ds) (len p) (len (vector_document_ids ds)) dg cov
          (content_digest_from_bytes (logical_bytes c dg ds))
          (content_digest_from_bytes (encrypted_text (en_nonce en) ct)) ∧
    json_to_vec (manifest_json s) = Some text ∧
    d = MkDir (Some (hex_bytes (en_key en) ++ [10])) (Some (encrypted_text (en_nonce en) ct))
          (Some (text ++ [10])).

Lemma ok_or_inv {A} (o : option A) (e : VectorIndexError) a : ok_or o e = Ok a → o = Some a.
Proof. destruct o; cbn; [|done]. by intros [= ->]. Qed.

Lemma write_manifest_run s d d' :
  d_manifest d = None → run (write_manifest s) d d' tt →
  ∃ text, json_to_vec (manifest_json s) = Some text ∧ d' = dir_write d ManifestFile (text ++ [10]).
Proof.
  intros Hd Hrun. unfold write_manifest in Hrun. run_step Hrun (det_lift _) as text Htext.
  apply ok_or_inv in Htext. exists text. split; [done|].
  by destruct (run_inj _ _ _ _ _ _ Hrun (run_create ManifestFile (text ++ [10]) d Hd)) as [-> _].
Qed.

Hint Resolve stable_canonical stable_projection_digest stable_coverage_digest stable_logical_digest
  stable_validate_documents stable_summary stable_write_payload stable_write_manifest : stable.

Lemma write_snapshot_run en g c p ds d s :
  run (write_snapshot_with_control en g c p ds) empty_dir d s →
  (∃ dg, digest_of_projection p = Ok dg) ∧ written en g c (sort_by projection_order p) ds d s.
Proof.
  intros Hrun. unfold write_snapshot_with_control in Hrun. skip_quiet Hrun.
  run_step Hrun (det_canonical p) as p' Hp.
  destruct (digest_of_projection p) as [dg0|]; cbn [result_bind] in Hp; [|discriminate].
  injection Hp as <-. split; [by eexists|]. set (p' := sort_by projection_order p) in *. clearbody p'.
  run_step Hrun (det_validate_documents c p' ds) as u Hok. destruct u.
  run_step Hrun (det_projection_digest p') as dg Hdg.
  run_step Hrun (det_coverage ds) as cov Hcov.
  run_step Hrun (det_logical c p' ds) as lg Hlg. rewrite Hdg in Hlg. cbn [result_bind] in Hlg. injection Hlg as <-.
  run_step Hrun (det_for_map _ projection_json 0 p' (λ p, det_ret _)) as ps Hps. injection Hps as <-.
  run_step Hrun (det_for_map _ document_json 0 ds (λ d, det_ret _)) as vs Hvs. injection Hvs as <-.
  skip_quiet Hrun. run_step Hrun (det_lift _) as plain Hplain. apply ok_or_inv in Hplain. skip_quiet Hrun.
  apply run_bind_inv in Hrun as (d1 & adg & Hpay & Hrun); [|auto with stable nocore].
  apply write_payload_run in Hpay as (ct & Hct & -> & ->).
  run_step Hrun (det_summary _ _ _ _ _) as sm Hsm. injection Hsm as <-. skip_quiet Hrun.
  apply run_bind_inv in Hrun as (d2 & [] & Hman & Hrun); [|auto with stable nocore].
  apply write_manifest_run in Hman as (text & Htext & ->); [|reflexivity]. skip_quiet Hrun.
  apply (run_det_inv _ _ _ _ _ (det_ret _)) in Hrun as [-> Hs]. injection Hs as <-.
  split; [assumption|]. exists dg, cov, plain, ct, text. split_and!; [assumption..|reflexivity|assumption|reflexivity].
Qed.

Lemma written_summary_wf en g c p ds d s : written en g c p ds d s → summary_wf s.
Proof.
  intros [Hok (dg & cov & plain & ct & text & Hdg & Hcov & _ & _ & -> & _ & _)].
  apply documents_ok_iff in Hok as (Hc & _ & Hfit & _). rewrite Forall_forall in Hfit.
  unfold summary_wf. cbn [vs_model_contract vs_vector_count vs_projection_count vs_vector_document_count
    vs_projection_digest vs_coverage_digest vs_logical_content_digest vs_artifact_digest].
  split_and!; [exact Hc|..].
  - replace (len ds) with (len (map doc_document_id ds)) by (unfold len; by rewrite length_map).
    apply vector_document_count_le. intros d' Hd. apply list_elem_of_fmap. by exists d'.
  - replace (len p) with (len (map projection_pair p).*1) by (unfold len; by rewrite length_fmap, length_map).
    apply vector_document_count_le. intros d' Hd. specialize (Hfit _ Hd). destruct c; [done|].
    destruct Hfit as (_ & _ & _ & Hin). apply list_elem_of_fmap.
    by exists (doc_document_id d', doc_resume_version_id d').
  - intros ->. destruct ds as [|d' ds]; [done|]. destruct (Hfit d' (list_elem_of_here _ _)).
  - exact (digest_of_pairs_wf _ _ Hdg).
  - exact (digest_of_pairs_wf _ _ Hcov).
  - apply digest_wf_preimage.
  - apply digest_wf_preimage.
Qed.

Lemma run_staged {S A} (m : M S A) s a : det m (Ok a) → run (staged m) s s a.
Proof. intros Hm. apply run_det. apply (det_staged _ _ Hm). Qed.

Lemma written_reads_back en g c p ds d s :
  entropy_wf en → Forall document_wf ds → StronglySorted (sort_le projection_order) p →
  written en g c p ds d s → (∀ text, d_manifest d = Some text → len text ≤ MAX_MANIFEST_BYTES) →
  run (read_snapshot_with_control g c) d d (p, ds, s).
Proof.
  intros Hen Hds Hsorted Hw Hmax. pose proof (written_summary_wf _ _ _ _ _ _ _ Hw) as Hwf.
  destruct Hw as [Hok (dg & cov & plain & ct & text & Hdg & Hcov & Hplain & Hct & Hs & Htext & Hd)].
  assert (contract_validate c = Ok tt) as Hc by (by apply documents_ok_iff in Hok as (? & _)).
  assert (Forall valid_pair (map projection_pair p)) as Hvalid
    by (by apply digest_of_projection_ok in Hdg as (? & _)).
  rewrite List.Forall_map, Forall_forall in Hvalid. rewrite Forall_forall in Hds.
  destruct (decode_payload_roundtrip _ _ _ _ _ Hc Hplain) as (payload & members & ps & vs & Hpl & Hmem & Hps & Cps & Hvs & Cvs).
  unfold read_snapshot_with_control. quiet_step. rewrite Hc. step_det @det_lift.
  assert (d_manifest d = Some (text ++ [10])) as Hm by (rewrite Hd; reflexivity).
  eapply run_bind; [apply (run_read_bytes ManifestFile _ _ _ Hm); intros m [= <-]; by apply Hmax|].
  assert (decode_manifest_metadata (text ++ [10]) g c = Ok s) as ->.
  { pose proof (decode_manifest_roundtrip _ _ Hwf Htext (Hmax _ Hm)) as Hdec. by rewrite Hs in Hdec |- *. }
  step_det @det_lift. quiet_step.
  eapply run_bind.
  { replace (vs_artifact_digest s) with (content_digest_from_bytes (encrypted_text (en_nonce en) ct)) by (by rewrite Hs).
    apply (read_payload_run en plain ct); [done|done|by rewrite Hd..]. }
  quiet_step. rewrite Hpl. step_det @det_lift. quiet_step. rewrite Hmem. step_det @det_lift. rewrite Hps. step_det @det_lift.
  eapply run_bind.
  { apply run_det. eapply det_ext; [apply det_for_records; intros v; apply det_lift|].
    apply (collect_roundtrip projection_json _ p); [|done]. intros x v Hx. apply parse_projection_entry_roundtrip; auto. }
  eapply run_bind.
  { apply run_staged. eapply det_ext; [apply det_canonical|]. by rewrite Hdg, sort_by_id. }
  rewrite Hvs. step_det @det_lift. eapply run_bind.
  { apply run_det. eapply det_ext; [apply det_for_records; intros v; apply det_lift|].
    apply (collect_roundtrip document_json _ ds); [|done]. intros x v Hx. apply parse_document_roundtrip; auto. }
  eapply run_bind; [apply run_staged; rewrite <- Hok; apply det_validate_documents|].
  eapply run_bind; [apply run_staged; rewrite <- Hdg; apply det_projection_digest|].
  rewrite bool_decide_true by (by rewrite Hs). cbn [negb].
  eapply run_bind; [apply run_staged; rewrite <- Hcov; apply det_coverage|].
  rewrite bool_decide_true by (by rewrite Hs). cbn [negb].
  eapply run_bind; [apply run_staged; eapply det_ext; [apply det_logical|]; rewrite Hdg; reflexivity|].
  rewrite bool_decide_true by (by rewrite Hs). cbn [negb].
  eapply run_bind; [apply run_det, det_summary|].
  cbn [vs_vector_count vs_projection_count vs_vector_document_count dg_projection dg_coverage dg_logical_content dg_artifact].
  rewrite Hs at 1 2 3. cbn [vs_vector_count vs_projection_count vs_vector_document_count]. rewrite !Z.eqb_refl. cbn [negb orb].
  quiet_step. rewrite Hs. apply run_det, det_ret.
Qed.

(** C11: what the writer stores is what a reader gets.  When writing a generation into
    an empty directory succeeds, under any cancellation answers and faults, an undisturbed
    reader returns the projection in canonical order, the documents in the order they were
    given, bit for bit, and the summary the writer returned; a reader that is disturbed
    returns the same or an error.  The manifest has to fit its size limit, and the text of a
    value is only trusted up to the rounding of its floats to [f32]. *)
Theorem write_read_roundtrip en g c p ds w w' d s :
  entropy_wf en → Forall document_wf ds →
  write_snapshot_with_control en g c p ds (w, empty_dir) = ((w', d), Ok s) →
  (∀ text, d_manifest d = Some text → len text ≤ MAX_MANIFEST_BYTES) →
  read_snapshot_with_control g c (quiet, d) = ((quiet, d), Ok (sort_by projection_order p, ds, s)) ∧
  ∀ v v' d' r, read_snapshot_with_control g c (v, d) = ((v', d'), Ok r) →
    r = (sort_by projection_order p, ds, s) ∧ d' = d.
Proof.
  intros Hen Hds Hrun%stable_write_snapshot Hmax.
  destruct (write_snapshot_run _ _ _ _ _ _ _ Hrun) as [_ Hw].
  pose proof (written_reads_back _ _ _ _ _ _ _ Hen Hds (projection_sorted p) Hw Hmax) as Hread.
  split; [exact Hread|]. intros v v' d' r Hr%stable_read_snapshot.
  by destruct (run_inj _ _ _ _ _ _ Hr Hread) as [-> ->].
Qed.

(** *** What a reader accepts *)

(** A summary that tells the truth of the contents and of the stored payload. *)
Definition summary_describes (g : str) (c : VectorModelContract) (p : list ActiveSearchProjection)
    (ds : list VectorDocument) (payload : list Z) (s : VectorSnapshotSummary) : Prop :=
  ∃ dg cov,
    digest_of_projection p = Ok dg ∧ projection_digest_of (covered ds) = Ok cov ∧
    s = MkSummary g c (len ds) (len p) (len (vector_document_ids ds)) dg cov
          (content_digest_from_bytes (logical_bytes c dg ds)) (content_digest_from_bytes payload).

Lemma run_read_bytes_inv f max d d' bytes :
  run (read_private_bytes_with_limit f max) d d' bytes → d' = d ∧ dir_file d f = Some bytes.
Proof.
  unfold run, read_private_bytes_with_limit, mbind, M_bind, get. cbn.
  destruct (dir_file d f) as [b|]; [|done]. cbn. destruct max as [m|]; [destruct (m <? len b)|]; cbn; [done|..];
    by intros [= <- <-].
Qed.

Hint Resolve stable_read_bytes stable_read_payload : stable.

Lemma read_payload_digest dg d d' plain :
  run (read_encrypted_payload dg) d d' plain →
  d' = d ∧ ∃ payload, d_snapshot d = Some payload ∧ content_digest_from_bytes payload = dg.
Proof.
  intros Hrun. split; [exact (run_framed _ _ _ _ (framed_read_payload dg) Hrun)|].
  unfold read_encrypted_payload in Hrun.
  apply run_bind_inv in Hrun as (d1 & payload & Hr & Hrun); [|auto with stable nocore].
  apply run_read_bytes_inv in Hr as [-> Hd]. exists payload. split; [exact Hd|].
  destruct (bool_decide (content_digest_from_bytes payload = dg)) eqn:E; [by apply bool_decide_eq_true in E|].
  discriminate Hrun.
Qed.

(** C23: whatever a reader accepts is consistent, under any cancellation answers and
    faults and for any bytes on disk: the contract is valid, the projection is one-to-one
    and in canonical order, every document has the contract's model and dimension and
    the version its projection names, no vector id occurs twice, and the returned summary
    carries the digests and counts of exactly these contents and of the stored payload.
    Reading leaves the directory as it was. *)
Theorem read_snapshot_sound g c w d w' d' p ds s :
  read_snapshot_with_control g c (w, d) = ((w', d'), Ok (p, ds, s)) →
  d' = d ∧ contract_validate c = Ok tt ∧ StronglySorted (sort_le projection_order) p ∧
  Forall valid_pair (map projection_pair p) ∧
  NoDup (map projection_pair p).*1 ∧ NoDup (map projection_pair p).*2 ∧
  Forall (document_fits c (map projection_pair p)) ds ∧ NoDup (map doc_vector_id ds) ∧
  ∃ payload, d_snapshot d = Some payload ∧ summary_describes g c p ds payload s.
Proof.
  intros Hrun%stable_read_snapshot. split; [exact (run_framed _ _ _ _ (framed_read_snapshot g c) Hrun)|].
  change (run (read_snapshot_with_control g c) d d' (p, ds, s)) in Hrun.
  unfold read_snapshot_with_control in Hrun. skip_quiet Hrun.
  run_step Hrun (det_lift _) as u Hc. skip_quiet Hrun.
  apply run_bind_inv in Hrun as (d1 & bytes & Hb & Hrun); [|auto with stable nocore].
  apply run_read_bytes_inv in Hb as [-> _].
  run_step Hrun (det_lift _) as manifest Hm. skip_quiet Hrun.
  apply run_bind_inv in Hrun as (d2 & plain & Hp & Hrun); [|auto with stable nocore].
  apply read_payload_digest in Hp as [-> (payload & Hpay & Hdig)]. skip_quiet Hrun.
  run_step Hrun (det_lift _) as value Hvalue. skip_quiet Hrun. run_step Hrun (det_lift _) as members Hmem. run_step Hrun (det_lift _) as pvs Hpvs.
  run_step Hrun (det_for_records _ _ _ _ (λ v, det_lift _)) as p0 Hp0.
  staged_step Hrun (det_canonical p0) as p1 Hp1.
  destruct (digest_of_projection p0) as [dg0|]; cbn [result_bind] in Hp1; [|discriminate]. injection Hp1 as <-.
  run_step Hrun (det_lift _) as dvs Hdvs.
  run_step Hrun (det_for_records _ _ _ _ (λ v, det_lift _)) as ds0 Hds0.
  staged_step Hrun (det_validate_documents c _ ds0) as u' Hok.
  staged_step Hrun (det_projection_digest _) as dg Hdg.
  destruct (negb _); [discriminate Hrun|].
  staged_step Hrun (det_coverage ds0) as cov Hcov.
  destruct (negb _); [discriminate Hrun|].
  staged_step Hrun (det_logical c _ ds0) as lg Hlg.
  rewrite Hdg in Hlg. cbn [result_bind] in Hlg. injection Hlg as <-.
  destruct (negb _); [discriminate Hrun|].
  run_step Hrun (det_summary _ _ _ _ _) as sm Hsm. injection Hsm as <-.
  destruct (_ || _); [discriminate Hrun|]. skip_quiet Hrun.
  apply (run_det_inv _ _ _ _ _ (det_ret _)) in Hrun as [-> Hs]. injection Hs as <- <- <-.
  destruct u'. apply documents_ok_iff in Hok as (Hc' & _ & Hfit & Hnd).
  destruct (proj1 (digest_of_projection_ok _ _) Hdg) as (Hv & Hn1 & Hn2 & _).
  split_and!; [exact Hc'|apply projection_sorted|assumption..|].
  exists payload. split; [assumption|]. exists dg, cov. rewrite Hdig. split_and!; [assumption..|reflexivity].
Qed.
End roundtrip.

(** ** Publication is atomic *)

(** Whatever the world, [m] from a state with [P] ends with [Q]. *)
Definition triple {S A} (P : S → Prop) (m : M S A) (Q : S → result A VectorIndexError → Prop) : Prop :=
  ∀ w s w' s' r, P s → m (w, s) = ((w', s'), r) → Q s' r.

Lemma triple_bind {S A B} P (m : M S A) (f : A → M S B) R Q :
  triple P m (λ s r, match r with Ok a => R a s | Err e => Q s (Err e) end) →
  (∀ a, triple (R a) (f a) Q) → triple P (m ≫= f) Q.
Proof.
  intros Hm Hf w s w' s' r HP. unfold mbind, M_bind.
  destruct (m (w, s)) as [[w1 s1] [a|e]] eqn:E; specialize (Hm _ _ _ _ _ HP E); cbn in Hm.
  - by apply Hf.
  - by intros [= <- <- <-].
Qed.

Lemma triple_framed {S A} (P : S → Prop) (m : M S A) Q :
  framed m → (∀ s r, P s → Q s r) → triple P m Q.
Proof.
  intros Hm HQ w s w' s' r HP E. specialize (Hm w s). rewrite E in Hm. cbn in Hm. subst. by apply HQ.
Qed.

(** A step that leaves the state alone, before the rest. *)
Lemma triple_skip {S A B} (P : S → Prop) (m : M S A) (f : A → M S B) Q :
  framed m → (∀ s e, P s → Q s (Err e)) → (∀ a, triple P (f a) Q) → triple P (m ≫= f) Q.
Proof.
  intros Hm HQ Hf. apply (triple_bind P m f (λ _, P)); [|done]. apply triple_framed; [done|].
  intros s [a|e]; auto.
Qed.

Lemma triple_fail {S A} (P : S → Prop) e (Q : S → result A VectorIndexError → Prop) :
  (∀ s, P s → Q s (Err e)) → triple P (fail e) Q.
Proof. intros HQ w s w' s' r HP. intros [= <- <- <-]. by apply HQ. Qed.

Lemma triple_ret {S A} (P : S → Prop) a (Q : S → result A VectorIndexError → Prop) :
  (∀ s, P s → Q s (Ok a)) → triple P (mret a) Q.
Proof. intros HQ w s w' s' r HP. intros [= <- <- <-]. by apply HQ. Qed.

(** The same with the value of the state. *)
Lemma triple_get {S B} (P : S → Prop) (f : S → M S B) Q :
  (∀ s, P s → triple (λ x, x = s) (f s) Q) → triple P (get ≫= f) Q.
Proof. intros Hf w s w' s' r HP E. exact (Hf s HP w s w' s' r eq_refl E). Qed.

Lemma triple_weaken {S A} (P P' : S → Prop) (m : M S A) (Q Q' : S → result A VectorIndexError → Prop) :
  (∀ s, P s → P' s) → (∀ s r, Q' s r → Q s r) → triple P' m Q' → triple P m Q.
Proof. intros HP HQ Hm w s w' s' r Hs E. apply HQ. eapply Hm; eauto. Qed.

Lemma triple_reject {S B} (P : S → Prop) (b : bool) (f : () → M S B) Q :
  (∀ s e, P s → Q s (Err e)) → triple (λ s, P s ∧ b = false) (f tt) Q →
  triple P (reject_existing b ≫= f) Q.
Proof.
  intros HQ Hf. apply (triple_bind P _ _ (λ _ s, P s ∧ b = false)); [|by intros []].
  intros w s w' s' r HP E. pose proof (framed_reject (S := S) b w s) as Hs. rewrite E in Hs. cbn in Hs. subst s'.
  destruct r as [[]|e]; [|by apply HQ]. split; [done|]. destruct b; [|done].
  unfold reject_existing, sys_ok, mbind, M_bind, sys in E.
  destruct (w_faults w) as [|[[]|]]; cbn in E; discriminate E.
Qed.

(** Steps that leave a part of the state alone. *)
Definition keeps {S A B} (f : S → B) (m : M S A) : Prop := ∀ w s, f (m (w, s)).1.2 = f s.

Lemma keeps_bind {S A B C} (f : S → C) (m : M S A) (k : A → M S B) :
  keeps f m → (∀ a, keeps f (k a)) → keeps f (m ≫= k).
Proof.
  intros Hm Hk w s. unfold mbind, M_bind. specialize (Hm w s).
  destruct (m (w, s)) as [[w1 s1] [a|e]]; cbn in Hm |- *; [|done]. by rewrite (Hk a w1 s1).
Qed.

Lemma keeps_framed {S A B} (f : S → B) (m : M S A) : framed m → keeps f m.
Proof. intros Hm w s. by rewrite Hm. Qed.

Lemma keeps_modify {S B} (f : S → B) (g : S → S) : (∀ s, f (g s) = f s) → keeps f (modify g).
Proof. intros Hg w s. apply Hg. Qed.

Section publish.
Context `{Sha256} `{SerdeJson} `{Aead}.

(** Work in a staging directory reaches only that directory. *)
Lemma in_staging_run {A} name (m : M Dir A) w r w' r' res d :
  rt_staging r !! name = Some d → in_staging name m (w, r) = ((w', r'), res) →
  ∃ d', m (w, d) = ((w', d'), res) ∧ r' = with_staging r (<[name := d']> (rt_staging r)).
Proof.
  intros Hd. unfold in_staging. rewrite Hd. change (default empty_dir (Some d)) with d.
  destruct (m (w, d)) as [[w1 d1] res1]. cbn beta iota. intros E. injection E as <- <- <-. by exists d1.
Qed.

(** How far a publication of [g] over [r0] has come in the root [r]. *)
Definition staged_in (r0 : Root) (name : str) (d : Dir) (r : Root) : Prop :=
  rt_snapshots r = rt_snapshots r0 ∧ rt_staging r !! name = Some d.

(** The outcomes of a publication: nothing is published, or exactly the generation
    that a reader accepted with the summary [s]. *)
Definition outcome (r0 : Root) (g : str) (c : VectorModelContract) (good : Dir → VectorSnapshotSummary → Prop)
    (r : Root) (res : result VectorSnapshotSummary VectorIndexError) : Prop :=
  (rt_snapshots r = rt_snapshots r0 ∧ ∃ e, res = Err e) ∨
  (rt_snapshots r0 !! g = None ∧ ∃ d s, good d s ∧
     (∃ w w' p ds, read_snapshot_with_control g c (w, d) = ((w', d), Ok (p, ds, s))) ∧
     rt_snapshots r = <[g := d]> (rt_snapshots r0) ∧ g ∈ rt_pins r ∧
     (res = Ok s ∨ ∃ e, res = Err e)).

Lemma outcome_err r0 g c good r e : rt_snapshots r = rt_snapshots r0 → outcome r0 g c good r (Err e).
Proof. intros Hr. left. eauto. Qed.

Lemma create_pin_triple g (r : Root) :
  triple (λ x, x = r) (create_pin g)
    (λ r' res, rt_snapshots r' = rt_snapshots r ∧ rt_staging r' = rt_staging r ∧
               (res = Ok tt → g ∈ rt_pins r')).
Proof.
  intros w s w' s' res -> E. unfold create_pin, mbind, M_bind, get, sys, put in E. cbn in E.
  destruct (w_faults w) as [|[[e [|n]]|] rest]; cbn in E; injection E as <- <- <-; cbn;
    (split_and!; [done|done|]); try discriminate; intros _; set_solver.
Qed.

Lemma rename_run name g w r w' r' res :
  rename_into_place name g (w, r) = ((w', r'), res) →
  (r' = r ∧ ∃ e, res = Err e) ∨
  (res = Ok tt ∧ r' = MkRoot (<[g := default empty_dir (rt_staging r !! name)]> (rt_snapshots r))
                       (delete name (rt_staging r)) (rt_pins r)).
Proof.
  unfold rename_into_place, mbind, M_bind, get, sys, put. cbn.
  destruct (w_faults w) as [|[[e n]|] rest]; cbn; intros E; injection E as <- <- <-; eauto.
Qed.

Lemma remove_pin_keeps g : keeps rt_snapshots (remove_pin g).
Proof.
  apply keeps_bind; [apply keeps_framed, framed_sys_ok|]. intros _.
  apply keeps_bind; [by apply keeps_modify|]. intros _. apply keeps_framed, framed_sys_ok.
Qed.

Lemma cleanup_staging_keeps name :
  keeps (λ r, (rt_snapshots r, rt_pins r)) (cleanup_failed_staging name).
Proof.
  apply keeps_bind; [apply keeps_framed, framed_sys_ok|]. intros _.
  apply keeps_bind; [apply keeps_framed, framed_get|]. intros r.
  destruct (rt_staging r !! name); [|apply keeps_framed, framed_ret].
  do 2 (apply keeps_bind; [apply keeps_framed, framed_sys_ok|]; intros _).
  apply keeps_bind; [by apply keeps_modify|]. intros _. apply keeps_framed, framed_sys_ok.
Qed.

Ltac skip_frame lem := apply triple_skip; [auto with framed nocore|lem|intros _].

(** What holds once the generation is in place. *)
Definition in_place (r0 : Root) (g : str) (c : VectorModelContract) (good : Dir → VectorSnapshotSummary → Prop)
    (s : VectorSnapshotSummary) (r : Root) : Prop :=
  rt_snapshots r0 !! g = None ∧ ∃ d, good d s ∧
     (∃ w w' p ds, read_snapshot_with_control g c (w, d) = ((w', d), Ok (p, ds, s))) ∧
     rt_snapshots r = <[g := d]> (rt_snapshots r0) ∧ g ∈ rt_pins r.

Lemma in_place_outcome r0 g c good s r res :
  in_place r0 g c good s r → res = Ok s ∨ (∃ e, res = Err e) → outcome r0 g c good r res.
Proof. intros (Hg & d & Hgood & Hread & Hr & Hp) Hres. right. split; [done|]. exists d, s. auto. Qed.

Lemma rename_triple r0 g c good s name d :
  rt_snapshots r0 !! g = None → good d s →
  (∃ w w' p ds, read_snapshot_with_control g c (w, d) = ((w', d), Ok (p, ds, s))) →
  triple (λ r, staged_in r0 name d r ∧ g ∈ rt_pins r)
    (preserve_primary_after_cleanup (rename_into_place name g) (remove_pin g))
    (λ r res, match res with
              | Ok _ => in_place r0 g c good s r
              | Err e => rt_snapshots r = rt_snapshots r0
              end).
Proof.
  intros Hg Hgood Hread w r w' r' res [[Hr Hd] Hpin]. unfold preserve_primary_after_cleanup.
  destruct (rename_into_place name g (w, r)) as [[w1 r1] res1] eqn:E.
  destruct (rename_run _ _ _ _ _ _ _ E) as [[-> [e ->]]|[-> ->]].
  - unfold attempt. pose proof (remove_pin_keeps g w1 r) as Hk.
    destruct (remove_pin g (w1, r)) as [[w2 r2] res2]. cbn in *. intros [= <- <- <-]. by rewrite Hk.
  - intros [= <- <- <-]. rewrite Hd. cbn [default]. split; [done|]. exists d. cbn. by rewrite Hr.
Qed.

Lemma publish_staging_triple r0 g c good s name d :
  good d s →
  triple (staged_in r0 name d) (validate_and_publish_staging c g name s) (outcome r0 g c good).
Proof.
  intros Hgood. unfold validate_and_publish_staging.
  assert (∀ r e, staged_in r0 name d r → outcome r0 g c good r (Err e)) as Herr
    by (intros r e [Hr _]; by apply outcome_err).
  do 3 (skip_frame ltac:(exact Herr)).
  eapply (triple_bind _ _ _ (λ v r, staged_in r0 name d r ∧
    ∃ w w', read_snapshot_with_control g c (w, d) = ((w', d), Ok v))).
  { intros w r w' r' res [Hr Hd] E. destruct (in_staging_run _ _ _ _ _ _ _ _ Hd E) as (d' & Em & ->).
    pose proof (framed_read_snapshot g c w d) as Hf. rewrite Em in Hf. cbn in Hf. subst d'.
    destruct res as [v|e]; [|by apply outcome_err]. split; [|by eauto]. split; [done|]. cbn. apply lookup_insert_eq. }
  intros [[p ds] s']. skip_frame ltac:(intros r e [Hst _]; by apply Herr).
  destruct (bool_decide _) eqn:Es; cbn [negb].
  2: { apply triple_fail. intros r [Hst _]. by apply Herr. }
  apply bool_decide_eq_true in Es. cbn in Es. subst s'.
  skip_frame ltac:(intros r e [Hst _]; by apply Herr).
  apply triple_get. intros r [Hst (w1 & w1' & Hread)].
  assert (∀ x e, x = r → outcome r0 g c good x (Err e)) as Herr' by (intros x e ->; by apply Herr).
  apply triple_reject; [done|]. apply triple_reject; [intros x e [? _]; by apply Herr'|].
  eapply (triple_bind _ _ _ (λ _ x, rt_snapshots r0 !! g = None ∧ staged_in r0 name d x ∧ g ∈ rt_pins x)).
  { intros w x w' x' res [[-> Hex] _] E. destruct Hst as [Hr Hd].
    destruct (create_pin_triple g _ _ _ _ _ _ eq_refl E) as (Hs & Ht & Hp).
    destruct res as [[]|e]; [|apply outcome_err; by rewrite Hs].
    split_and!; [|split; [by rewrite Hs|by rewrite Ht]|by apply Hp].
    apply bool_decide_eq_false in Hex. rewrite <- Hr. by apply eq_None_not_Some. }
  intros _. do 2 (skip_frame ltac:(intros x e (_ & Hx & _); by apply Herr)).
  eapply (triple_bind _ _ _ (λ _, in_place r0 g c good s)).
  { intros w x w' x' res (Hg & Hx & Hp) E.
    pose proof (rename_triple r0 g c good s name d Hg Hgood ltac:(by eauto) _ _ _ _ _ (conj Hx Hp) E) as Hren.
    destruct res as [?|e]; [exact Hren|by apply outcome_err]. }
  intros _. do 4 (skip_frame ltac:(intros x e Hx; eapply in_place_outcome; eauto)).
  apply triple_ret. intros x Hx. eapply in_place_outcome; eauto.
Qed.

Lemma staging_step r0 name {A} (m : M Dir A) w r w' r' res :
  staged_in r0 name empty_dir r → in_staging name m (w, r) = ((w', r'), res) →
  ∃ d, m (w, empty_dir) = ((w', d), res) ∧ staged_in r0 name d r'.
Proof.
  intros [Hr Hd] E. destruct (in_staging_run _ _ _ _ _ _ _ _ Hd E) as (d & Em & ->).
  exists d. split; [done|]. split; [done|]. cbn. apply lookup_insert_eq.
Qed.

(** A generation whose writer succeeded. *)
Definition was_written (en : Entropy) (c : VectorModelContract) (g : str) (p : list ActiveSearchProjection)
    (ds : list VectorDocument) (d : Dir) (s : VectorSnapshotSummary) : Prop :=
  ∃ w w', write_snapshot_with_control en g c p ds (w, empty_dir) = ((w', d), Ok s).

Lemma build_triple r0 en c g name p ds :
  triple (staged_in r0 name empty_dir) (build_validate_and_publish en c g name p ds)
    (outcome r0 g c (was_written en c g p ds)).
Proof.
  assert (∀ d r e, staged_in r0 name d r → outcome r0 g c (was_written en c g p ds) r (Err e)) as Herr
    by (intros d r e [Hr _]; by apply outcome_err).
  unfold build_validate_and_publish. do 2 (skip_frame ltac:(apply Herr)).
  eapply (triple_bind _ _ _ (λ s r, ∃ d, was_written en c g p ds d s ∧ staged_in r0 name d r)).
  { intros w r w' r' res Hst E. destruct (staging_step _ _ _ _ _ _ _ _ Hst E) as (d & Em & Hst').
    destruct res as [s|e]; [|by apply (Herr d)]. exists d. split; [|done]. by exists w, w'. }
  intros s. do 2 (skip_frame ltac:(intros r e (d & _ & Hst); by apply (Herr d))).
  intros w r w' r' res (d & Hw & Hst). by eapply publish_staging_triple.
Qed.

Lemma collect_run {S A} (xs ys : list A) w (s : S) w' s' :
  collect_with_control xs (w, s) = ((w', s'), Ok ys) → ys = xs ∧ s' = s.
Proof.
  intros E. pose proof (framed_collect xs w s) as Hf. rewrite E in Hf. cbn in Hf. subst s'. split; [|done].
  assert (stable (collect_with_control xs : M S _)) as Hst by (unfold collect_with_control; stables).
  apply Hst in E. assert (run (collect_with_control xs) s s ys) as Hrun by exact E.
  assert (run (collect_with_control xs) s s xs) as Hxs.
  { unfold collect_with_control. quiet_step. eapply run_bind; [apply run_det, (det_for_map _ (λ x, x)); intros x; apply det_ret|].
    quiet_step. rewrite map_ret. apply run_det, det_ret. }
  by destruct (run_inj _ _ _ _ _ _ Hrun Hxs).
Qed.

Lemma run_collect {S A} (xs : list A) (s : S) : run (collect_with_control xs) s s xs.
Proof.
  unfold collect_with_control. quiet_step.
  eapply run_bind; [apply run_det, (det_for_map _ (λ x, x)); intros x; apply det_ret|].
  quiet_step. rewrite map_ret. apply run_det, det_ret.
Qed.

Lemma triple_collect {S A B} (P : S → Prop) (xs : list A) (f : list A → M S B) Q :
  (∀ s e, P s → Q s (Err e)) → triple P (f xs) Q → triple P (collect_with_control xs ≫= f) Q.
Proof.
  intros HQ Hf. apply (triple_bind _ _ _ (λ ys s, ys = xs ∧ P s)).
  - intros w s w' s' res HP E. pose proof (framed_collect xs w s) as Hs. rewrite E in Hs. cbn in Hs. subst s'.
    destruct res as [ys|e]; [|by apply HQ]. by destruct (collect_run _ _ _ _ _ _ E) as [-> _].
  - intros ys w s w' s' res [-> HP]. by apply Hf.
Qed.

Lemma create_staging_run name w r w' r' res :
  create_staging name (w, r) = ((w', r'), res) →
  rt_snapshots r' = rt_snapshots r ∧ (res = Ok tt → rt_staging r' !! name = Some empty_dir).
Proof.
  unfold create_staging, mbind, M_bind, get, sys, put. cbn. destruct (rt_staging r !! name); [by intros [= <- <- <-]|].
  destruct (w_faults w) as [|[[e [|n]]|] rest]; cbn; intros E; injection E as <- <- <-;
    (split; [done|]); try discriminate; intros _; cbn; apply lookup_insert_eq.
Qed.

Hint Resolve framed_validate_documents : framed.

Lemma publish_triple r0 en c g p ds :
  triple (λ r, r = r0) (publish_generation_with_control en c g p ds)
    (outcome r0 g c (was_written en c g p ds)).
Proof.
  assert (∀ r e, r = r0 → outcome r0 g c (was_written en c g p ds) r (Err e)) as Herr
    by (intros r e ->; by apply outcome_err).
  unfold publish_generation_with_control. do 2 (skip_frame ltac:(exact Herr)).
  apply triple_collect; [exact Herr|]. apply triple_collect; [exact Herr|].
  do 7 (skip_frame ltac:(exact Herr)). apply triple_get. intros r ->.
  apply triple_reject; [exact Herr|]. set (name := g ++ lit ".tmp-" ++ en_suffix en). clearbody name.
  skip_frame ltac:(intros r e [Hr _]; by apply Herr).
  eapply (triple_bind _ _ _ (λ _, staged_in r0 name empty_dir)).
  { intros w r w' r' res [-> _] E. destruct (create_staging_run _ _ _ _ _ _ E) as [Hs Ht].
    destruct res as [[]|e]; [by split; [|apply Ht]|by apply outcome_err]. }
  intros _. do 2 (skip_frame ltac:(intros r e [Hr _]; by apply outcome_err)).
  intros w r w' r' res Hst. unfold preserve_primary_after_cleanup.
  destruct (build_validate_and_publish en c g name p ds (w, r)) as [[w1 r1] res1] eqn:E.
  pose proof (build_triple _ _ _ _ _ _ _ _ _ _ _ _ Hst E) as Hout. destruct res1 as [s|e].
  { by intros [= <- <- <-]. }
  unfold attempt. pose proof (cleanup_staging_keeps name w1 r1) as Hk.
  destruct (cleanup_failed_staging name (w1, r1)) as [[w2 r2] res2]. cbn in Hk |- *. intros [= <- <- <-].
  injection Hk as Hk1 Hk2. destruct Hout as [[Hr He]|(Hg & d & s & Hgood & Hread & Hr & Hp & He)].
  - left. by rewrite Hk1.
  - right. split; [done|]. exists d, s. rewrite Hk1, Hk2. auto.
Qed.

(** ** Disturbances *)

Lemma stable_in_staging {A} name (m : M Dir A) : stable m → stable (in_staging name m).
Proof.
  intros Hm w r w' r' a. unfold in_staging.
  destruct (m (w, default empty_dir (rt_staging r !! name))) as [[w1 d1] [b|e]] eqn:E; [|discriminate].
  rewrite (Hm _ _ _ _ _ E). by intros [= <- <- <-].
Qed.

Lemma stable_preserve {S A} (m : M S A) cleanup :
  stable m → stable (preserve_primary_after_cleanup m cleanup).
Proof.
  intros Hm w s w' s' a. unfold preserve_primary_after_cleanup.
  destruct (m (w, s)) as [[w1 s1] [b|e]] eqn:E; [|discriminate].
  intros [= <- <- <-]. by rewrite (Hm _ _ _ _ _ E).
Qed.

Lemma stable_collect {S A} (xs : list A) : stable (collect_with_control xs : M S _).
Proof. unfold collect_with_control. stables. Qed.

Lemma stable_reject {S} b : stable (reject_existing b : M S ()).
Proof. unfold reject_existing. stables. Qed.

Lemma stable_create_staging name : stable (create_staging name).
Proof. unfold create_staging. stables. Qed.

Lemma stable_create_pin g : stable (create_pin g).
Proof. unfold create_pin. stables. Qed.

Lemma stable_rename name g : stable (rename_into_place name g).
Proof. unfold rename_into_place. stables. Qed.
Hint Resolve stable_in_staging stable_preserve stable_collect stable_reject stable_create_staging
  stable_create_pin stable_rename stable_read_snapshot stable_write_snapshot
  stable_validate_documents stable_apply : stable.

Lemma stable_publish en c g p ds : stable (publish_generation_with_control en c g p ds).
Proof.
  unfold publish_generation_with_control, build_validate_and_publish, validate_and_publish_staging.
  stables; apply stable_preserve; stables.
Qed.
End publish.

(** ** Theorems on publication *)

Section publication.
Context `{Sha256} `{SerdeJson} `{Aead}.
Context `{!Sha256Laws} `{!SerdeJsonLaws} `{!AeadLaws}.

Hint Resolve stable_read_bytes : stable.

Lemma read_manifest_limit g c d d' x :
  run (read_snapshot_with_control g c) d d' x →
  ∀ text, d_manifest d = Some text → len text ≤ MAX_MANIFEST_BYTES.
Proof.
  intros Hrun text Ht. unfold read_snapshot_with_control in Hrun. skip_quiet Hrun.
  run_step Hrun (det_lift _) as u Hc.
  apply run_bind_inv in Hrun as (d1 & bytes & Hb & _); [|auto with stable nocore].
  unfold run, read_private_bytes_with_limit, mbind, M_bind, get in Hb. cbn in Hb. rewrite Ht in Hb. cbn in Hb.
  destruct (MAX_MANIFEST_BYTES <? len text) eqn:E; [discriminate Hb|]. by apply Z.ltb_ge in E.
Qed.

(** C6: publication is atomic, whatever the cancellation answers and whichever system
    call fails part way.  No other generation and no generation already published changes;
    when the name [g] appears it is pinned and its directory is complete: a reader gets
    exactly the given projection and documents, with the summary the publisher returns if it
    returns one; and a publication that reports success was of a new name and is there. *)
Theorem publish_atomic en c g p ds w r w' r' res :
  entropy_wf en → Forall document_wf ds →
  publish_generation_with_control en c g p ds (w, r) = ((w', r'), res) →
  (∀ g', g' ≠ g → rt_snapshots r' !! g' = rt_snapshots r !! g') ∧
  (∀ d, rt_snapshots r !! g = Some d → rt_snapshots r' !! g = Some d) ∧
  (∀ d, rt_snapshots r !! g = None → rt_snapshots r' !! g = Some d →
     g ∈ rt_pins r' ∧ ∃ s,
     read_snapshot_with_control g c (quiet, d) = ((quiet, d), Ok (sort_by projection_order p, ds, s)) ∧
     ∀ s', res = Ok s' → s' = s) ∧
  (∀ s, res = Ok s → rt_snapshots r !! g = None ∧ is_Some (rt_snapshots r' !! g)).
Proof.
  intros Hen Hds E. destruct (publish_triple r en c g p ds _ _ _ _ _ eq_refl E)
    as [[-> [e ->]]|(Hg & d & s & (v & v' & Hw) & (u & u' & p0 & ds0 & Hread) & -> & Hp & Hres)].
  { split_and!; [done|done|intros ? Hn Hs; congruence|done]. }
  split_and!.
  - intros g' Hne. by rewrite lookup_insert_ne.
  - intros d' Hd. congruence.
  - intros d' _ Hd. rewrite lookup_insert_eq in Hd. injection Hd as <-. split; [done|]. exists s. split.
    + apply stable_read_snapshot in Hread. pose proof (read_manifest_limit _ _ _ _ _ Hread) as Hmax.
      apply stable_write_snapshot, write_snapshot_run in Hw as [_ Hw].
      exact (written_reads_back _ _ _ _ _ _ _ Hen Hds (projection_sorted p) Hw Hmax).
    + intros s' ->. by destruct Hres as [[= ->]|[? [=]]].
  - intros s' ->. split; [done|]. rewrite lookup_insert_eq. by eexists.
Qed.

(** Cancellation checks and faults decide whether a publication is delivered, never
    what is delivered: a publication that succeeds under any script of cancellation answers
    and faults returns the same summary and leaves the same root, file by file, as the
    undisturbed one.  The same holds of a successor generation computed from a base. *)
Theorem delivered_publication_undisturbed en c belongs bc base g up w r w' r' s :
  publish_generation_from_with_control en c belongs bc base g up (w, r) = ((w', r'), Ok s) →
  publish_generation_from_with_control en c belongs bc base g up (quiet, r) = ((quiet, r'), Ok s).
Proof.
  assert (stable (publish_generation_from_with_control en c belongs bc base g up)) as Hst; [|apply Hst].
  unfold publish_generation_from_with_control. pose proof (stable_publish en c g).
  pose proof (stable_apply (S := Root) up base). stables; auto.
Qed.

(** *** Updates *)

Lemma fold_left_map {A B C} (f : C → B → C) (g : A → B) xs acc :
  fold_left f (map g xs) acc = fold_left (λ acc x, f acc (g x)) xs acc.
Proof. revert acc; induction xs as [|x xs IH]; intros acc; cbn; auto. Qed.

Lemma sublist_filter {A} (keep : A → bool) xs : List.filter keep xs `sublist_of` xs.
Proof. induction xs as [|x xs IH]; cbn; [constructor|]. destruct (keep x); by constructor. Qed.

Lemma sublist_map_filter {A B} (f : A → B) (keep : A → bool) xs :
  map f (List.filter keep xs) `sublist_of` map f xs.
Proof. induction xs as [|x xs IH]; cbn; [constructor|]. destruct (keep x); by constructor. Qed.

Lemma det_apply {S} up base :
  det (apply_documents_with_control up base : M S _)
    (Ok (up_active_projection up,
         List.filter (kept up (versions_of (map projection_pair (up_active_projection up)))
                        (bset_collect (map doc_vector_id (up_replacement_documents up)))) base
         ++ up_replacement_documents up)).
Proof.
  assert (∀ {A} (keep : A → bool) xs out,
    fold_left (λ out d, if keep d then out ++ [d] else out) xs out = out ++ List.filter keep xs) as Hfilter.
  { intros A keep xs. induction xs as [|x xs IH]; intros out; cbn; [by rewrite app_nil_r|].
    destruct (keep x); rewrite IH; [by rewrite <- app_assoc|done]. }
  assert (∀ {A} (xs out : list A), fold_left (λ out d, out ++ [d]) xs out = out ++ xs) as Happ.
  { intros A xs out. rewrite (Hfilter _ (λ _, true)). f_equal. induction xs; cbn; congruence. }
  unfold apply_documents_with_control. eapply det_then; [apply det_check|].
  eapply det_then; [by apply (det_fold_left _ (λ m p, bmap_entry (projection_pair p).1 (λ _, (projection_pair p).2) m))|].
  eapply det_then; [by apply (det_fold_left _ (λ set d, bset_insert (doc_vector_id d) set))|].
  eapply det_then; [by apply det_fold_left|]. eapply det_then; [by apply det_fold_left|].
  eapply det_then; [apply det_check|]. rewrite Happ, Hfilter. cbn [app]. eapply det_ext; [apply det_ret|].
  unfold versions_of, bset_collect. by rewrite !fold_left_map.
Qed.

Lemma update_new_ok active reps removed up :
  update_new active reps removed = Ok up →
  up = MkUpdate active reps removed ∧ NoDup (map projection_pair active).*1 ∧
  Forall (λ d, (doc_document_id d, doc_resume_version_id d) ∈ map projection_pair active) reps.
Proof.
  unfold update_new, validate_projection. rewrite det_validate_projection. cbn [snd].
  destruct (digest_of_projection active) as [dg|] eqn:Ed; cbn [result_bind]; [|discriminate].
  destruct (collect_results _ removed); cbn [result_bind]; [|discriminate].
  destruct (collect_results _ reps) as [us|] eqn:Er; cbn [result_bind]; [|discriminate]. intros [= <-].
  apply digest_of_projection_ok in Ed as (_ & Hnd & _). split_and!; [done..|].
  apply collect_results_Forall2 in Er. clear -Er Hnd. induction Er as [|d u reps us Hd _ IH]; [constructor|].
  constructor; [|exact IH]. destruct (opt_is _ _) eqn:Eo; [|discriminate].
  by apply opt_is_spec, versions_lookup in Eo.
Qed.

(** An update is applied exactly.  The documents of the successor are the base
    documents that the new projection still names with their version, less those whose
    vector id is removed or replaced, in their order, followed by the replacements; every one
    of them has the version its projection names, and no vector id occurs twice if none did in
    the base and in the replacements. *)
Theorem update_applied_exactly {S} active reps removed base up v v' (x x' : S) p ds :
  ssorted removed →
  update_new active reps removed = Ok up →
  apply_documents_with_control up base (v, x) = ((v', x'), Ok (p, ds)) →
  p = active ∧
  Forall (λ d, (doc_document_id d, doc_resume_version_id d) ∈ map projection_pair active) ds ∧
  (∃ still, ds = still ++ reps ∧ still `sublist_of` base ∧
    ∀ d, d ∈ still ↔ d ∈ base ∧
      (doc_document_id d, doc_resume_version_id d) ∈ map projection_pair active ∧
      (doc_vector_id d ∉ removed) ∧ doc_vector_id d ∉ map doc_vector_id reps) ∧
  (NoDup (map doc_vector_id base) → NoDup (map doc_vector_id reps) → NoDup (map doc_vector_id ds)).
Proof.
  intros Hrem (-> & Hnd & Hreps)%update_new_ok E%stable_apply. rewrite det_apply in E.
  cbn [up_active_projection up_replacement_documents] in E. injection E as _ <- <-. split; [done|].
  set (keep := kept _ _ _).
  assert (∀ d, keep d = true ↔ (doc_document_id d, doc_resume_version_id d) ∈ map projection_pair active ∧
      (doc_vector_id d ∉ removed) ∧ doc_vector_id d ∉ map doc_vector_id reps) as Hkeep.
  { intros d. unfold keep, kept. cbn [up_removed_vector_ids].
    rewrite !andb_true_iff, !negb_true_iff, opt_is_spec, versions_lookup by done.
    rewrite <- (bset_contains_spec _ removed), <- (bset_contains_collect _ (map doc_vector_id reps)) by done.
    rewrite !not_true_iff_false. tauto. }
  clearbody keep.
  assert (∀ d, d ∈ List.filter keep base ↔ d ∈ base ∧ keep d = true) as Hin.
  { intros d. rewrite !list_elem_of_In. apply filter_In. }
  split_and!.
  - apply Forall_app. split; [|done]. apply Forall_forall. intros d [_ Hd%Hkeep]%Hin. by destruct Hd.
  - exists (List.filter keep base). split_and!; [done| |intros d; by rewrite Hin, Hkeep]. apply sublist_filter.
  - intros Hb Hr. rewrite map_app. apply NoDup_app. split_and!; [|intros i Hi Hi'|done].
    + eapply sublist_NoDup; [exact Hb|]. apply sublist_map_filter.
    + apply list_elem_of_fmap in Hi as (d & -> & Hd). apply Hin in Hd as [_ Hd]. by apply Hkeep in Hd as (_ & _ & ?).
Qed.

(** *** Progress *)

Lemma digest_of_projection_perm p q dg :
  p ≡ₚ q → digest_of_projection p = Ok dg → digest_of_projection q = Ok dg.
Proof.
  intros Hpq. rewrite !digest_of_projection_ok.
  assert (map projection_pair p ≡ₚ map projection_pair q) as Hm by (by apply fmap_Permutation).
  intros (Hv & H1' & H2' & ->). split_and!; [by rewrite <- Hm..|]. unfold sort_pairs. by rewrite (sort_by_cmp_perm _ _ Hm).
Qed.

Lemma documents_ok_perm c p q ds : p ≡ₚ q → documents_ok c p ds = Ok tt → documents_ok c q ds = Ok tt.
Proof.
  intros Hpq. rewrite !documents_ok_iff. intros (Hc & [dg Hdg] & Hf & Hn).
  split_and!; [done|exists dg; by eapply digest_of_projection_perm| |done].
  assert (map projection_pair p ≡ₚ map projection_pair q) as Hm by (by apply fmap_Permutation).
  eapply Forall_impl; [exact Hf|]. intros d. unfold document_fits. destruct c; [done|]. by rewrite Hm.
Qed.

Lemma covered_spec ds :
  NoDup (covered ds) ∧ ∀ x, x ∈ covered ds → ∃ d, d ∈ ds ∧ x = (doc_document_id d, doc_resume_version_id d).
Proof.
  assert (covered ds = bset_collect (map (λ d, (doc_document_id d, doc_resume_version_id d)) ds)) as ->.
  { unfold covered, bset_collect. by rewrite fold_left_map. }
  split; [apply bset_collect_NoDup|]. intros x. rewrite elem_of_bset_collect.
  intros (d & -> & Hd)%list_elem_of_fmap. eauto.
Qed.

Lemma coverage_exists c p ds dg :
  digest_of_projection p = Ok dg → Forall (document_fits c (map projection_pair p)) ds →
  ∃ cov, projection_digest_of (covered ds) = Ok cov.
Proof.
  intros (Hv & Hn1 & Hn2 & _)%digest_of_projection_ok Hf. destruct (covered_spec ds) as [Hnd Hc].
  assert (covered ds ⊆+ map projection_pair p) as Hsub.
  { apply NoDup_submseteq; [done|]. intros x (d & Hd & ->)%Hc. rewrite Forall_forall in Hf.
    specialize (Hf d Hd). destruct c; [done|]. apply Hf. }
  exists (digest_of_preimage (projection_preimage (sort_pairs (covered ds)))).
  apply submseteq_Permutation in Hsub as [k Hk]. rewrite Hk in Hv, Hn1, Hn2.
  apply Forall_app in Hv as [Hv _]. rewrite fmap_app in Hn1, Hn2.
  apply NoDup_app in Hn1 as [Hn1 _]. apply NoDup_app in Hn2 as [Hn2 _].
  unfold projection_digest_of. by rewrite (proj2 (search_projection_digest_ok_iff (covered ds) _) (conj Hv (conj Hn1 (conj Hn2 eq_refl)))).
Qed.

(** The cipher takes every message, and the manifests of a generation fit the limit. *)
Definition cipher_total : Prop := ∀ key nonce aad msg, is_Some (aead_encrypt key nonce aad msg).

Definition manifests_fit (g : str) (c : VectorModelContract) : Prop := ∀ s text,
  summary_wf s → vs_generation s = g → vs_model_contract s = c →
  vs_vector_count s ≤ usize_MAX → vs_projection_count s ≤ usize_MAX →
  json_to_vec (manifest_json s) = Some text → len text < MAX_MANIFEST_BYTES.

Lemma write_snapshot_forward en g c p ds dg :
  cipher_total → digest_of_projection p = Ok dg → documents_ok c p ds = Ok tt →
  ∃ d s, run (write_snapshot_with_control en g c p ds) empty_dir d s.
Proof.
  intros Hcipher Hdg Hok. pose proof (sort_by_perm projection_order p) as Hperm.
  set (p' := sort_by projection_order p) in *.
  pose proof (digest_of_projection_perm _ _ _ (symmetry Hperm) Hdg) as Hdg'.
  pose proof (documents_ok_perm _ _ _ _ (symmetry Hperm) Hok) as Hok'.
  destruct (coverage_exists c p' ds dg Hdg') as [cov Hcov]; [by apply documents_ok_iff in Hok' as (_ & _ & ? & _)|].
  destruct (json_to_vec_total (payload_json g c (map projection_json p') (map document_json ds))) as [plain Hplain].
  destruct (Hcipher (en_key en) (en_nonce en) (utf8 ENCRYPTED_HEADER) plain) as [ct Hct].
  set (s := MkSummary g c (len ds) (len p') (len (vector_document_ids ds)) dg cov
          (content_digest_from_bytes (logical_bytes c dg ds))
          (content_digest_from_bytes (encrypted_text (en_nonce en) ct))).
  destruct (json_to_vec_total (manifest_json s)) as [text Htext].
  eexists _, s. unfold write_snapshot_with_control. quiet_step.
  eapply run_bind; [apply run_det; eapply det_ext; [apply det_canonical|]; rewrite Hdg; reflexivity|].
  fold p'. clearbody p'. eapply run_bind; [apply run_det; rewrite <- Hok'; apply det_validate_documents|].
  eapply run_bind; [apply run_det; rewrite <- Hdg'; apply det_projection_digest|].
  eapply run_bind; [apply run_det; rewrite <- Hcov; apply det_coverage|].
  eapply run_bind; [apply run_det; eapply det_ext; [apply det_logical|]; rewrite Hdg'; reflexivity|].
  eapply run_bind; [apply run_det, (det_for_map _ projection_json); intros x; apply det_ret|].
  eapply run_bind; [apply run_det, (det_for_map _ document_json); intros x; apply det_ret|].
  quiet_step. rewrite Hplain. step_det @det_lift. quiet_step.
  eapply run_bind; [apply write_payload_forward, Hct|].
  eapply run_bind; [apply run_det, det_summary|]. cbn [dg_projection dg_coverage dg_logical_content dg_artifact].
  fold s. clearbody s. quiet_step.
  eapply run_bind; [unfold write_manifest; rewrite Htext; step_det @det_lift; by apply run_create|].
  do 3 quiet_step. apply run_det, det_ret.
Qed.

Lemma len_perm {A} (l k : list A) : l ≡ₚ k → len l = len k.
Proof. intros Hlk. unfold len. by rewrite Hlk. Qed.

Lemma written_manifest_fits en g c p ds d s :
  manifests_fit g c → len ds ≤ usize_MAX → len p ≤ usize_MAX → written en g c p ds d s →
  ∀ text, d_manifest d = Some text → len text ≤ MAX_MANIFEST_BYTES.
Proof.
  intros Hfit Hds Hp Hw. pose proof (written_summary_wf _ _ _ _ _ _ _ Hw) as Hs.
  destruct Hw as [_ (dg & cov & plain & ct & text & _ & _ & _ & _ & -> & Htext & ->)].
  pose proof (Hfit _ _ Hs eq_refl eq_refl Hds Hp Htext) as Hlen.
  intros t [= <-]. unfold len in *. rewrite length_app. cbn [length]. lia.
Qed.

Lemma run_in_staging {A} name (m : M Dir A) r d d' a :
  rt_staging r !! name = Some d → run m d d' a →
  run (in_staging name m) r (with_staging r (<[name := d']> (rt_staging r))) a.
Proof.
  intros Hd Hm. unfold run, in_staging. rewrite Hd. change (default empty_dir (Some d)) with d.
  unfold run in Hm. by rewrite Hm.
Qed.

Lemma run_create_staging name r :
  rt_staging r !! name = None →
  run (create_staging name) r (with_staging r (<[name := empty_dir]> (rt_staging r))) tt.
Proof. intros Hn. unfold run, create_staging, mbind, M_bind, get, sys, put. cbn. by rewrite Hn. Qed.

Lemma run_reject {S} (s : S) : run (reject_existing false) s s tt.
Proof. reflexivity. Qed.

Lemma run_preserve {S A} (m : M S A) cleanup s s' a :
  run m s s' a → run (preserve_primary_after_cleanup m cleanup) s s' a.
Proof. unfold run, preserve_primary_after_cleanup. by intros ->. Qed.

Lemma build_forward en c g name p ds r d s v :
  rt_staging r !! name = Some empty_dir → rt_snapshots r !! g = None → g ∉ rt_pins r →
  run (write_snapshot_with_control en g c p ds) empty_dir d s →
  run (read_snapshot_with_control g c) d d (v, s) →
  run (build_validate_and_publish en c g name p ds) r
    (MkRoot (<[g := d]> (rt_snapshots r)) (delete name (rt_staging r)) ({[g]} ∪ rt_pins r)) s.
Proof.
  intros Hst Hg Hp Hw Hr. unfold build_validate_and_publish. do 2 quiet_step.
  eapply run_bind; [exact (run_in_staging _ _ _ _ _ _ Hst Hw)|]. do 2 quiet_step.
  unfold validate_and_publish_staging. do 3 quiet_step.
  eapply run_bind; [apply (run_in_staging _ _ _ d d); [cbn; apply lookup_insert_eq|exact Hr]|].
  quiet_step. cbn [snd]. rewrite bool_decide_true by done. cbn [negb]. quiet_step.
  eapply run_bind; [reflexivity|]. cbn [rt_snapshots rt_pins with_staging].
  rewrite (bool_decide_false (is_Some (rt_snapshots r !! g))) by (rewrite Hg; by intros [? [=]]).
  eapply run_bind; [apply run_reject|]. rewrite bool_decide_false by done.
  eapply run_bind; [apply run_reject|]. eapply run_bind; [reflexivity|]. do 2 quiet_step.
  eapply run_bind; [apply run_preserve; reflexivity|]. do 4 quiet_step.
  cbn [rt_snapshots rt_staging rt_pins with_staging with_pins snd].
  rewrite lookup_insert_eq, !delete_insert_eq. cbn [default]. apply run_det, det_ret.
Qed.

(** C30: publication makes progress.  Undisturbed, a valid generation name that is neither
    published nor pinned is published in one call, for every valid contract, one-to-one
    projection and set of fitting documents with distinct vector ids; the generation and its pin
    are all that is added to the root, and the staging directory is gone. *)
Theorem publication_succeeds en c g p ds r :
  entropy_wf en → cipher_total → manifests_fit g c → len ds ≤ usize_MAX → len p ≤ usize_MAX →
  validate_generation g = Ok tt → contract_validate c = Ok tt →
  Forall valid_pair (map projection_pair p) →
  NoDup (map projection_pair p).*1 → NoDup (map projection_pair p).*2 →
  Forall document_wf ds → Forall (document_fits c (map projection_pair p)) ds →
  NoDup (map doc_vector_id ds) →
  rt_snapshots r !! g = None → g ∉ rt_pins r →
  rt_staging r !! (g ++ lit ".tmp-" ++ en_suffix en) = None →
  ∃ d s, publish_generation_with_control en c g p ds (quiet, r)
         = ((quiet, MkRoot (<[g := d]> (rt_snapshots r)) (rt_staging r) ({[g]} ∪ rt_pins r)), Ok s).
Proof.
  intros Hen Hcipher Hfit Hlds Hlp Hgen Hc Hv Hn1 Hn2 Hwf Hdf Hnd Hg Hpin Hst.
  pose proof (proj2 (digest_of_projection_ok p _) (conj Hv (conj Hn1 (conj Hn2 eq_refl)))) as Hdg.
  assert (documents_ok c p ds = Ok tt) as Hok by (apply documents_ok_iff; eauto 10).
  destruct (write_snapshot_forward en g c p ds _ Hcipher Hdg Hok) as (d & s & Hw). exists d, s.
  assert (run (read_snapshot_with_control g c) d d (sort_by projection_order p, ds, s)) as Hr.
  { destruct (write_snapshot_run _ _ _ _ _ _ _ Hw) as [_ Hwr].
    apply (written_reads_back en); [done|done|apply projection_sorted|done|].
    apply (written_manifest_fits en g c (sort_by projection_order p) ds d s Hfit Hlds); [|done].
    by rewrite (len_perm _ _ (sort_by_perm projection_order p)). }
  set (name := g ++ lit ".tmp-" ++ en_suffix en) in *.
  change (run (publish_generation_with_control en c g p ds) r
    (MkRoot (<[g := d]> (rt_snapshots r)) (rt_staging r) ({[g]} ∪ rt_pins r)) s).
  unfold publish_generation_with_control. rewrite Hgen. step_det @det_lift. quiet_step.
  do 2 (eapply run_bind; [apply run_collect|]).
  eapply run_bind; [apply run_det; rewrite <- Hok; apply det_validate_documents|]. do 6 quiet_step.
  eapply run_bind; [reflexivity|].
  rewrite (bool_decide_false (is_Some (rt_snapshots r !! g))) by (rewrite Hg; by intros [? [=]]).
  eapply run_bind; [apply run_reject|]. quiet_step. fold name. clearbody name.
  eapply run_bind; [exact (run_create_staging _ _ Hst)|].
  do 2 quiet_step. apply run_preserve.
  pose proof (build_forward en c g name p ds (with_staging r (<[name := empty_dir]> (rt_staging r))) d s _
    (lookup_insert_eq _ _ _) Hg Hpin Hw Hr) as Hb.
  cbn [rt_snapshots rt_staging rt_pins with_staging] in Hb.
  rewrite delete_insert_id in Hb by exact Hst. exact Hb.
Qed.
End publication.

(** ** Stand-ins for [serde_json] and the cipher

    A token format and a plain encoding that satisfy the laws, to evaluate
    publications on concrete inputs. *)
Module VectorDemo.

Section value_ind.
Variable P : Value → Prop.
Hypotheses (Hnull : P VNull) (Hbool : ∀ b, P (VBool b)) (Hnum : ∀ n, P (VNumber n))
  (Hstr : ∀ s, P (VString s)) (Harr : ∀ l, Forall P l → P (VArray l))
  (Hobj : ∀ m, Forall (λ kv, P kv.2) m → P (VObject m)).

Fixpoint value_induction (v : Value) : P v :=
  match v with
  | VNull => Hnull
  | VBool b => Hbool b
  | VNumber n => Hnum n
  | VString s => Hstr s
  | VArray l => Harr l
      ((fix go l := match l return Forall P l with
                    | [] => Forall_nil_2 _
                    | x :: l => Forall_cons_2 _ _ _ (value_induction x) (go l)
                    end) l)
  | VObject m => Hobj m
      ((fix go m := match m return Forall (λ kv, P kv.2) m with
                    | [] => Forall_nil_2 _
                    | kv :: m => Forall_cons_2 _ _ _ (value_induction kv.2) (go m)
                    end) m)
  end.
End value_ind.

Lemma json_close_refl v : json_close v v.
Proof.
  induction v as [| |[]| |l IH|m IH] using value_induction; try by constructor.
  - constructor. induction IH; by constructor.
  - constructor. induction IH; by constructor.
Qed.

Definition bit (b : bool) : Z := if b then 1 else 0.

(** Integers as bytes: a sign, the bits from the lowest, and a mark at the highest. *)
Fixpoint put_pos (p : positive) : list Z :=
  match p with xO p => 0 :: put_pos p | xI p => 1 :: put_pos p | xH => [2] end.

Definition put_int (z : Z) : list Z :=
  match z with Z0 => [2] | Z.pos p => 0 :: put_pos p | Z.neg p => 1 :: put_pos p end.

Fixpoint get_pos (l : list Z) : option (positive * list Z) :=
  match l with
  | 0 :: l => match get_pos l with Some (p, l) => Some (xO p, l) | None => None end
  | 1 :: l => match get_pos l with Some (p, l) => Some (xI p, l) | None => None end
  | 2 :: l => Some (xH, l)
  | _ => None
  end.

Definition get_int (l : list Z) : option (Z * list Z) :=
  match l with
  | 2 :: l => Some (0, l)
  | 0 :: l => match get_pos l with Some (p, l) => Some (Z.pos p, l) | None => None end
  | 1 :: l => match get_pos l with Some (p, l) => Some (Z.neg p, l) | None => None end
  | _ => None
  end.

Lemma get_put_pos p r : get_pos (put_pos p ++ r) = Some (p, r).
Proof. induction p as [p IH|p IH|]; cbn; [by rewrite IH..|done]. Qed.

Lemma get_put_int z r : get_int (put_int z ++ r) = Some (z, r).
Proof. destruct z; cbn; by rewrite ?get_put_pos. Qed.

Definition put_float (x : f64) : list Z :=
  match x with
  | S754_zero s => [0; bit s]
  | S754_infinity s => [1; bit s]
  | S754_nan => [2]
  | S754_finite s m e => 3 :: bit s :: put_pos m ++ put_int e
  end.

Definition get_float (l : list Z) : option (f64 * list Z) :=
  match l with
  | 0 :: s :: r => Some (S754_zero (s =? 1), r)
  | 1 :: s :: r => Some (S754_infinity (s =? 1), r)
  | 2 :: r => Some (S754_nan, r)
  | 3 :: s :: r =>
      match get_pos r with
      | None => None
      | Some (m, r) =>
          match get_int r with None => None | Some (e, r) => Some (S754_finite (s =? 1) m e, r) end
      end
  | _ => None
  end.

Fixpoint put_value (v : Value) : list Z :=
  match v with
  | VNull => [0]
  | VBool b => [1; bit b]
  | VNumber (NPos n) => [2; n]
  | VNumber (NNeg n) => [3; n]
  | VNumber (NFloat x) => 4 :: put_float x
  | VString s => 5 :: len s :: s
  | VArray l => 6 :: len l :: concat (map put_value l)
  | VObject m => 7 :: len m :: concat (map (λ kv, len kv.1 :: kv.1 ++ put_value kv.2) m)
  end.

Fixpoint get_many {A} (get_one : list Z → option (A * list Z)) (n : nat) (l : list Z)
    : option (list A * list Z) :=
  match n with
  | O => Some ([], l)
  | Datatypes.S n =>
      match get_one l with
      | None => None
      | Some (x, l) =>
          match get_many get_one n l with
          | None => None
          | Some (xs, l) => Some (x :: xs, l)
          end
      end
  end.

Definition get_member (get_value : list Z → option (Value * list Z)) (l : list Z)
    : option ((str * Value) * list Z) :=
  match l with
  | [] => None
  | n :: l =>
      match get_value (drop (Z.to_nat n) l) with
      | None => None
      | Some (v, r) => Some ((take (Z.to_nat n) l, v), r)
      end
  end.

Fixpoint get_value (fuel : nat) (l : list Z) : option (Value * list Z) :=
  match fuel with
  | O => None
  | Datatypes.S fuel =>
      match l with
      | 0 :: r => Some (VNull, r)
      | 1 :: b :: r => Some (VBool (b =? 1), r)
      | 2 :: n :: r => Some (VNumber (NPos n), r)
      | 3 :: n :: r => Some (VNumber (NNeg n), r)
      | 4 :: r => match get_float r with Some (x, r) => Some (VNumber (NFloat x), r) | None => None end
      | 5 :: n :: r => Some (VString (take (Z.to_nat n) r), drop (Z.to_nat n) r)
      | 6 :: n :: r =>
          match get_many (get_value fuel) (Z.to_nat n) r with
          | Some (vs, r) => Some (VArray vs, r)
          | None => None
          end
      | 7 :: n :: r =>
          match get_many (get_member (get_value fuel)) (Z.to_nat n) r with
          | Some (m, r) => Some (VObject m, r)
          | None => None
          end
      | _ => None
      end
  end.

Lemma get_many_put {A} (get_one : list Z → option (A * list Z)) put xs r :
  (∀ x r, x ∈ xs → get_one (put x ++ r) = Some (x, r)) →
  get_many get_one (length xs) (concat (map put xs) ++ r) = Some (xs, r).
Proof.
  induction xs as [|x xs IH]; intros Hx; [done|]. cbn. rewrite <- app_assoc, Hx by apply list_elem_of_here.
  rewrite IH; [done|]. intros y k Hy. apply Hx. by apply list_elem_of_further.
Qed.

Lemma length_concat_elem {A} (f : A → list Z) xs x :
  x ∈ xs → (length (f x) ≤ length (concat (map f xs)))%nat.
Proof. induction 1; cbn; rewrite length_app; lia. Qed.

Lemma get_float_put x r : get_float (put_float x ++ r) = Some (x, r).
Proof.
  destruct x as [[]|[]| |s m e]; [done..|]. unfold put_float. cbn [app get_float].
  rewrite <- app_assoc, get_put_pos, get_put_int. by destruct s.
Qed.

Lemma get_put_value v fuel r :
  (length (put_value v) ≤ fuel)%nat → get_value fuel (put_value v ++ r) = Some (v, r).
Proof.
  revert fuel r. induction v as [|b|[n|n|x]|s|l IH|m IH] using value_induction;
    intros [|fuel] r Hlen; cbn [put_value length] in Hlen; try lia; cbn [put_value app get_value].
  - done.
  - by destruct b.
  - done.
  - done.
  - by rewrite get_float_put.
  - unfold len. rewrite Nat2Z.id. by rewrite take_app_length, drop_app_length.
  - unfold len. rewrite Nat2Z.id. rewrite get_many_put; [done|]. intros x k Hx.
    rewrite Forall_forall in IH. apply IH; [done|]. pose proof (length_concat_elem put_value l x Hx). lia.
  - unfold len at 1. rewrite Nat2Z.id. rewrite get_many_put; [done|]. intros [k v] r' Hx.
    rewrite Forall_forall in IH. cbn [app get_member fst snd]. unfold len. rewrite Nat2Z.id, <- app_assoc.
    rewrite drop_app_length, take_app_length. rewrite (IH _ Hx); [done|].
    pose proof (length_concat_elem (λ kv : str * Value, len kv.1 :: kv.1 ++ put_value kv.2) m _ Hx) as Hle.
    cbn [length fst snd] in Hle. rewrite length_app in Hle. cbn [snd]. lia.
Qed.

Definition trim_newlines (text : list Z) : list Z :=
  reverse (trim_start_matches (Z.eqb 10) (reverse text)).

#[export] Instance token_json : SerdeJson := {
  json_to_vec v := Some (put_value v ++ [0]);
  json_from_bytes text :=
    let text := trim_newlines text in
    match get_value (length text) text with Some (v, [0]) => Some v | _ => None end;
}.

#[export] Instance token_json_laws : SerdeJsonLaws.
Proof.
  split.
  - intros v. by eexists.
  - intros v text [= <-]. split; [by destruct (put_value v)|]. exists v. split; [|apply json_close_refl].
    cbn. assert (trim_newlines (put_value v ++ [0]) = put_value v ++ [0]) as ->.
    { unfold trim_newlines. rewrite reverse_snoc. cbn [trim_start_matches Z.eqb].
      by rewrite reverse_cons, reverse_involutive. }
    rewrite get_put_value; [done|]. rewrite length_app. lia.
  - intros text. cbn. unfold trim_newlines. by rewrite reverse_snoc.
Qed.

Fixpoint get_ints (fuel : nat) (l : list Z) : option (list Z) :=
  match fuel, l with
  | _, [] => Some []
  | O, _ => None
  | Datatypes.S fuel, _ =>
      match get_int l with
      | None => None
      | Some (z, l) => match get_ints fuel l with Some zs => Some (z :: zs) | None => None end
      end
  end.

Lemma put_int_cons z : ∃ x l, put_int z = x :: l.
Proof. destruct z; cbn; eauto. Qed.

Lemma get_put_ints zs fuel :
  (length (concat (map put_int zs)) ≤ fuel)%nat → get_ints fuel (concat (map put_int zs)) = Some zs.
Proof.
  revert fuel; induction zs as [|z zs IH]; intros fuel Hf; cbn [map concat] in *; [by destruct fuel|].
  rewrite length_app in Hf. destruct (put_int_cons z) as (x & l & E).
  destruct fuel as [|fuel]; [rewrite E in Hf; cbn in Hf; lia|].
  destruct (put_int z ++ concat (map put_int zs)) as [|y k] eqn:Ek; [by rewrite E in Ek|].
  cbn [get_ints]. rewrite <- Ek, get_put_int, IH; [done|]. rewrite E in Hf. cbn in Hf. lia.
Qed.

(** A message of bytes is kept as it is. *)
#[export] Instance plain_cipher : Aead := {
  aead_encrypt _ _ _ msg :=
    Some (if forallb (λ b, (0 <=? b) && (b <? 256)) msg then 0 :: msg else 1 :: concat (map put_int msg));
  aead_decrypt _ _ _ c :=
    match c with
    | 0 :: msg => Some msg
    | 1 :: c => get_ints (length c) c
    | _ => None
    end;
}.

#[export] Instance plain_cipher_laws : AeadLaws.
Proof.
  split; intros key nonce aad msg c; cbn; destruct (forallb _ msg) eqn:E; intros [= <-].
  - done.
  - by apply get_put_ints.
  - constructor; [unfold is_byte; lia|]. rewrite forallb_forall in E. apply List.Forall_forall.
    intros b Hb%E. unfold is_byte. lia.
  - assert (∀ p, Forall is_byte (put_pos p)) as Hp.
    { intros p. unfold is_byte. induction p; cbn; repeat constructor; done || lia. }
    constructor; [unfold is_byte; lia|]. clear E. induction msg as [|z msg IH]; cbn; [constructor|].
    apply Forall_app. split; [|done]. destruct z; cbn; repeat constructor; unfold is_byte; auto; lia.
Qed.

Lemma plain_cipher_total : cipher_total.
Proof. intros key nonce aad msg. by eexists. Qed.

(** *** A concrete publication *)

#[local] Existing Instance toy_sha256.
#[local] Existing Instance toy_sha256_laws.

Definition ids (prefix : str) (c : char) : str := prefix ++ repeat c 32.
Definition one_projection (c : char) : ActiveSearchProjection :=
  MkProjection (MkId (ids (lit "doc_") c)) (MkId (ids (lit "ver_") c)).
Definition projection : list ActiveSearchProjection := [one_projection 98; one_projection 97].

Definition one : f32 := S754_finite false 8388608 (-23).
Definition half : f32 := S754_finite true 8388608 (-24).
Definition one_document (v c : char) : VectorDocument :=
  MkDocument (MkIdentity (ids (lit "vec_") v) (ids (lit "doc_") c) (ids (lit "ver_") c) (lit "model-a"))
    [one; half].
Definition documents : list VectorDocument := [one_document 49 97; one_document 50 97].

Definition contract : VectorModelContract := ContractEnabled (lit "model-a") 2.
Definition entropy : Entropy := MkEntropy (repeat 7 32) (repeat 9 24) (lit "0a").
Definition generation : str := lit "gen-1".
Definition bumpy : World := MkWorld [false; false; false] [None; None].
Definition no_root : Root := MkRoot ∅ ∅ ∅.

Lemma entropy_ok : entropy_wf entropy.
Proof. split_and!; try reflexivity; apply (bool_decide_unpack _); by vm_compute. Qed.

Lemma documents_wf : Forall document_wf documents.
Proof. repeat constructor. Qed.

Definition written_dir : Dir :=
  (write_snapshot_with_control entropy generation contract projection documents (bumpy, empty_dir)).1.2.
Definition written_summary : VectorSnapshotSummary :=
  match (write_snapshot_with_control entropy generation contract projection documents (bumpy, empty_dir)).2 with
  | Ok s => s
  | Err _ => MkSummary [] ContractDisabled 0 0 0 (MkDigest []) (MkDigest []) (MkDigest []) (MkDigest [])
  end.

Lemma manifest_checked text :
  d_manifest written_dir = Some text → (len text <=? MAX_MANIFEST_BYTES) = true.
Proof.
  intros Ht. assert (from_option (λ t, len t <=? MAX_MANIFEST_BYTES) true (d_manifest written_dir) = true) as E
    by (vm_compute; reflexivity).
  by rewrite Ht in E.
Qed.

Lemma write_read_roundtrip_witness :
  read_snapshot_with_control generation contract (quiet, written_dir)
  = ((quiet, written_dir), Ok (reverse projection, documents, written_summary)).
Proof.
  destruct (write_read_roundtrip entropy generation contract projection documents bumpy
              (MkWorld [] []) written_dir written_summary) as [Hread _].
  - apply entropy_ok.
  - apply documents_wf.
  - vm_compute. reflexivity.
  - intros text Ht. apply Z.leb_le, manifest_checked, Ht.
  - exact Hread.
Defined.

Lemma read_snapshot_sound_witness :
  Forall (document_fits contract (map projection_pair (reverse projection))) documents.
Proof.
  destruct (read_snapshot_sound generation contract bumpy written_dir (MkWorld [] []) written_dir
              (reverse projection) documents written_summary) as (_ & _ & _ & _ & _ & _ & Hfit & _).
  - vm_compute. reflexivity.
  - exact Hfit.
Defined.

(** The root after a publication in which checks and calls are answered. *)
Definition published_root : Root :=
  (publish_generation_with_control entropy contract generation projection documents (bumpy, no_root)).1.2.

Lemma publish_atomic_witness :
  is_Some (rt_snapshots published_root !! generation).
Proof.
  refine (proj2 (proj2 (proj2 (proj2 (publish_atomic entropy contract generation projection documents bumpy
    no_root (MkWorld [] []) published_root (Ok written_summary) entropy_ok documents_wf _))) written_summary _)).
  - vm_compute. reflexivity.
  - reflexivity.
Defined.

Lemma delivered_publication_undisturbed_witness :
  publish_generation_from_with_control entropy contract true contract [one_document 51 98] generation
    (MkUpdate projection documents [ids (lit "vec_") 51]) (quiet, no_root)
  = ((quiet, published_root), Ok written_summary).
Proof.
  apply (delivered_publication_undisturbed entropy contract true contract [one_document 51 98] generation
    (MkUpdate projection documents [ids (lit "vec_") 51]) bumpy no_root (MkWorld [] []) published_root).
  vm_compute. reflexivity.
Defined.

Lemma update_applied_exactly_witness :
  NoDup (map doc_vector_id ([one_document 52 98] ++ documents)).
Proof.
  destruct (update_applied_exactly (S := ()) projection documents [ids (lit "vec_") 51]
    [one_document 51 98; one_document 52 98; one_document 53 99]
    (MkUpdate projection documents [ids (lit "vec_") 51]) quiet quiet tt tt projection
    ([one_document 52 98] ++ documents)) as (_ & _ & _ & Hnd).
  - repeat constructor.
  - vm_compute. reflexivity.
  - vm_compute. reflexivity.
  - apply Hnd; apply (bool_decide_unpack _); vm_compute; exact I.
Defined.

Lemma digest_wf_length dg : digest_wf dg → len (digest_str dg) = 71.
Proof.
  unfold digest_wf, content_digest_from_str, strip_prefix. destruct (starts_with SHA256_PREFIX (digest_str dg)) eqn:E; [|done].
  apply starts_with_spec in E as [t E]. rewrite E, drop_app_length.
  destruct (str_len t =? SHA256_HEX_LEN) eqn:El; [|done]. cbn [negb orb].
  destruct (forallb is_lower_hexdigit (utf8 t)) eqn:Eh; [|done]. intros _.
  apply Z.eqb_eq in El. rewrite forallb_utf8_ascii in Eh by apply is_lower_hexdigit_ascii.
  rewrite ascii_str_len in El.
  - unfold len, SHA256_HEX_LEN in *. rewrite length_app. change (length SHA256_PREFIX) with 7%nat. lia.
  - apply forallb_forall. rewrite forallb_forall in Eh. intros x Hx. by apply lower_hex_hexdigit, Eh.
Qed.

Definition manifest_members (s : VectorSnapshotSummary) : list (str * Value) :=
  [(lit "artifact_digest", VString (digest_str (vs_artifact_digest s)));
   (lit "coverage_digest", VString (digest_str (vs_coverage_digest s)));
   (lit "dimension", json_opt_usize (contract_dimension (vs_model_contract s)));
   (lit "encryption", VString ENCRYPTION);
   (lit "generation", VString (vs_generation s));
   (lit "index_schema", VString VECTOR_INDEX_SCHEMA_V4);
   (lit "logical_content_digest", VString (digest_str (vs_logical_content_digest s)));
   (lit "model_id", json_opt_str (contract_model_id (vs_model_contract s)));
   (lit "projection_count", json_usize (vs_projection_count s));
   (lit "projection_digest", VString (digest_str (vs_projection_digest s)));
   (lit "schema_version", VString SNAPSHOT_MANIFEST_SCHEMA_V4);
   (lit "search_backend", VString SEARCH_BACKEND);
   (lit "vector_count", json_usize (vs_vector_count s));
   (lit "vector_document_count", json_usize (vs_vector_document_count s))].

Lemma manifest_json_eq s : manifest_json s = VObject (manifest_members s).
Proof.
  unfold manifest_json, manifest_members, json_usize.
  generalize (json_opt_str (contract_model_id (vs_model_contract s))).
  generalize (json_opt_usize (contract_dimension (vs_model_contract s))).
  intros v v'. vm_compute. reflexivity.
Qed.

Lemma length_concat_map {A} (f : A → list Z) xs :
  length (concat (map f xs)) = sum_list_with (λ x, length (f x)) xs.
Proof. induction xs as [|x xs IH]; [reflexivity|]. cbn [map concat sum_list_with]. by rewrite length_app, IH. Qed.

Lemma token_text v text : json_to_vec v = Some text → text = put_value v ++ [0].
Proof. by intros [= <-]. Qed.

Ltac literal_lengths :=
  repeat match goal with
         | |- context [length (lit ?s)] =>
             let n := eval vm_compute in (length (lit s)) in change (length (lit s)) with n
         end.

Lemma manifests_fit_demo : manifests_fit generation contract.
Proof.
  intros s text (_ & _ & _ & _ & D1 & D2 & D3 & D4) Hg Hc _ _ ->%token_text.
  apply digest_wf_length in D1, D2, D3, D4. unfold len in *.
  rewrite length_app, manifest_json_eq. cbn [put_value length]. rewrite length_concat_map.
  unfold manifest_members. rewrite Hg, Hc.
  cbn [sum_list_with fst snd contract contract_dimension contract_model_id json_opt_usize json_opt_str json_usize
    put_value length]. rewrite !length_app. cbn [length].
  unfold ENCRYPTION, VECTOR_INDEX_SCHEMA_V4, SNAPSHOT_MANIFEST_SCHEMA_V4, SEARCH_BACKEND, generation.
  literal_lengths. unfold MAX_MANIFEST_BYTES. lia.
Qed.

Lemma publication_succeeds_witness : ∃ d s,
  publish_generation_with_control entropy contract generation projection documents (quiet, no_root)
  = ((quiet, MkRoot (<[generation := d]> ∅) ∅ ({[generation]} ∪ ∅)), Ok s).
Proof.
  apply (publication_succeeds entropy contract generation projection documents no_root
    entropy_ok plain_cipher_total manifests_fit_demo).
  - vm_compute. discriminate.
  - vm_compute. discriminate.
  - vm_compute. reflexivity.
  - vm_compute. reflexivity.
  - repeat constructor; eexists; vm_compute; reflexivity.
  - apply (bool_decide_unpack _). vm_compute. exact I.
  - apply (bool_decide_unpack _). vm_compute. exact I.
  - apply documents_wf.
  - repeat constructor; apply (bool_decide_unpack _); vm_compute; exact I.
  - apply (bool_decide_unpack _). vm_compute. exact I.
  - reflexivity.
  - apply (bool_decide_unpack _). vm_compute. exact I.
  - reflexivity.
Defined.
End VectorDemo.
