(* ===== verification/VectorGc.v ===== *)
(** * Reclaiming vector generations (crates/index-vector)

    The readers' leases (snapshot_root.rs) and the collector that removes generations
    nobody retains (snapshot_gc.rs, snapshot_gc_candidates.rs), with the advisory locks
    that keep them apart.  The collector is a computation of [VectorSnapshot.M]: at each
    of its system calls the [World] decides whether the call fails, and other processes,
    readers and a publisher, take the steps that the [turns] of the shared state list.
    Directories and pin files are their inodes, which is what the code compares. *)

From Stdlib Require Import ZArith String.
From stdpp Require Import prelude gmap.
From S2P Require Import Prelude Collections Text VectorSnapshot.

Local Open Scope Z_scope.

Abbreviation inode := Z.

(** [flock]: shared by readers, or exclusive. *)
Inductive Lock := SharedBy (holders : gset nat) | ByCollector | ByPublisher.

(** The progress of [acquire_read_lease] and [open_generation_payload]; [Reading] holds
    the shared pin and, until the second validation, the lease. *)
Inductive ReaderPhase :=
| Leased
| DirectoryPinned (generation : str) (dir : inode)
| PinOpened (generation : str) (dir pin : inode)
| PinShared (generation : str) (dir pin : inode)
| Reading (leased : bool) (generation : str) (dir pin : inode).

(** A publication under its lock: before its pin file, before the rename, and after the
    rename or a failure. *)
Inductive PublisherPhase :=
| PublishStaged (generation staging_name : str)
| PublishPinned (generation staging_name : str)
| PublishEnding (staging_name : str).

(** Steps of other processes. *)
Inductive Action :=
| RAcquire (r : nat)
| ROpen (r : nat) (generation : str)
| ROpenPin (r : nat)
| RLockPin (r : nat)
| RValidate (r : nat)
| RFinish (r : nat)
| RUse (r : nat)
| RDrop (r : nat)
| PBegin (generation suffix : str)
| PPin
| PRename
| PUnpin
| PClean
| PEnd.

(** The index root as all processes see it.  [lost] records that a reader used a
    generation whose directory was gone. *)
Record Shared := MkShared {
  snapshots : gmap str inode;
  staging : gmap str inode;
  pins : gmap str inode;
  locks : gmap inode Lock;
  root_lock : Lock;
  publication_lock : Lock;
  next_inode : inode;
  readers : gmap nat ReaderPhase;
  publisher : option PublisherPhase;
  lost : bool;
  turns : list (list Action);
}.

Definition set_snapshots x (s : Shared) : Shared :=
  MkShared x (staging s) (pins s) (locks s) (root_lock s) (publication_lock s) (next_inode s)
    (readers s) (publisher s) (lost s) (turns s).
Definition set_staging x (s : Shared) : Shared :=
  MkShared (snapshots s) x (pins s) (locks s) (root_lock s) (publication_lock s) (next_inode s)
    (readers s) (publisher s) (lost s) (turns s).
Definition set_pins x (s : Shared) : Shared :=
  MkShared (snapshots s) (staging s) x (locks s) (root_lock s) (publication_lock s) (next_inode s)
    (readers s) (publisher s) (lost s) (turns s).
Definition set_locks x (s : Shared) : Shared :=
  MkShared (snapshots s) (staging s) (pins s) x (root_lock s) (publication_lock s) (next_inode s)
    (readers s) (publisher s) (lost s) (turns s).
Definition set_root_lock x (s : Shared) : Shared :=
  MkShared (snapshots s) (staging s) (pins s) (locks s) x (publication_lock s) (next_inode s)
    (readers s) (publisher s) (lost s) (turns s).
Definition set_publication_lock x (s : Shared) : Shared :=
  MkShared (snapshots s) (staging s) (pins s) (locks s) (root_lock s) x (next_inode s)
    (readers s) (publisher s) (lost s) (turns s).
Definition set_next_inode x (s : Shared) : Shared :=
  MkShared (snapshots s) (staging s) (pins s) (locks s) (root_lock s) (publication_lock s) x
    (readers s) (publisher s) (lost s) (turns s).
Definition set_readers x (s : Shared) : Shared :=
  MkShared (snapshots s) (staging s) (pins s) (locks s) (root_lock s) (publication_lock s)
    (next_inode s) x (publisher s) (lost s) (turns s).
Definition set_publisher x (s : Shared) : Shared :=
  MkShared (snapshots s) (staging s) (pins s) (locks s) (root_lock s) (publication_lock s)
    (next_inode s) (readers s) x (lost s) (turns s).
Definition set_lost x (s : Shared) : Shared :=
  MkShared (snapshots s) (staging s) (pins s) (locks s) (root_lock s) (publication_lock s)
    (next_inode s) (readers s) (publisher s) x (turns s).
Definition set_turns x (s : Shared) : Shared :=
  MkShared (snapshots s) (staging s) (pins s) (locks s) (root_lock s) (publication_lock s)
    (next_inode s) (readers s) (publisher s) (lost s) x.

(** [generation_pin_path]. *)
Definition LOCK_SUFFIX : str := lit ".lock".
Definition pin_name (generation : str) : str := generation ++ LOCK_SUFFIX.

Definition lock_of (s : Shared) (i : inode) : Lock := default (SharedBy ∅) (locks s !! i).

(** ** Readers and the publisher *)

Definition share (r : nat) (l : Lock) : option Lock :=
  match l with SharedBy h => Some (SharedBy ({[r]} ∪ h)) | _ => None end.
Definition unshare (r : nat) (l : Lock) : Lock :=
  match l with SharedBy h => SharedBy (h ∖ {[r]}) | _ => l end.

(** What a reader holds is released when it is dropped. *)
Definition drop_lease (r : nat) (s : Shared) : Shared := set_root_lock (unshare r (root_lock s)) s.
Definition drop_pin (r : nat) (pin : inode) (s : Shared) : Shared :=
  set_locks (<[pin := unshare r (lock_of s pin)]> (locks s)) s.
Definition drop_reader (r : nat) (s : Shared) : Shared :=
  match readers s !! r with
  | None => s
  | Some phase =>
      let s := set_readers (delete r (readers s)) s in
      match phase with
      | Leased | DirectoryPinned _ _ | PinOpened _ _ _ => drop_lease r s
      | PinShared _ _ pin | Reading true _ _ pin => drop_lease r (drop_pin r pin s)
      | Reading false _ _ pin => drop_pin r pin s
      end
  end.

Definition set_phase (r : nat) (phase : ReaderPhase) (s : Shared) : Shared :=
  set_readers (<[r := phase]> (readers s)) s.

(** [validate_current] of a generation's directory. *)
Definition current (s : Shared) (generation : str) (dir : inode) : bool :=
  bool_decide (snapshots s !! generation = Some dir).

Definition staging_name (phase : PublisherPhase) : str :=
  match phase with PublishStaged _ name | PublishPinned _ name | PublishEnding name => name end.

(** A publication takes its lock and creates its staging directory. *)
Definition begin_publication (generation suffix : str) (s : Shared) : Shared :=
  match publisher s, publication_lock s, validate_generation generation, snapshots s !! generation with
  | None, SharedBy h, Ok _, None =>
      let name := generation ++ lit ".tmp-" ++ suffix in
      match bool_decide (h = ∅), staging s !! name with
      | true, None =>
          set_publisher (Some (PublishStaged generation name))
            (set_publication_lock ByPublisher
               (set_staging (<[name := next_inode s]> (staging s))
                  (set_next_inode (next_inode s + 1) s)))
      | _, _ => s
      end
  | _, _, _, _ => s
  end.

(** Then the pin file, the rename, and the cleanup of a failure. *)
Definition publisher_step (a : Action) (s : Shared) : Shared :=
  match a with
  | PPin =>
      match publisher s with
      | Some (PublishStaged generation name) =>
          match snapshots s !! generation, pins s !! pin_name generation with
          | None, None =>
              set_publisher (Some (PublishPinned generation name))
                (set_pins (<[pin_name generation := next_inode s]> (pins s))
                   (set_next_inode (next_inode s + 1) s))
          | _, _ => s
          end
      | _ => s
      end
  | PRename =>
      match publisher s with
      | Some (PublishPinned generation name) =>
          match staging s !! name, snapshots s !! generation with
          | Some dir, None =>
              set_publisher (Some (PublishEnding name))
                (set_snapshots (<[generation := dir]> (snapshots s)) (set_staging (delete name (staging s)) s))
          | _, _ => s
          end
      | _ => s
      end
  | PUnpin =>
      match publisher s with
      | Some (PublishPinned generation name) =>
          set_pins (delete (pin_name generation) (pins s)) (set_publisher (Some (PublishEnding name)) s)
      | _ => s
      end
  | PClean =>
      match publisher s with
      | Some phase =>
          set_staging (delete (staging_name phase) (staging s))
            (set_publisher (Some (PublishEnding (staging_name phase))) s)
      | None => s
      end
  | PEnd =>
      match publisher s with
      | Some _ => set_publisher None (set_publication_lock (SharedBy ∅) s)
      | None => s
      end
  | _ => s
  end.

(** A call that has to wait leaves the state as it is. *)
Definition act (a : Action) (s : Shared) : Shared :=
  match a with
  | RAcquire r =>
      match readers s !! r, share r (root_lock s) with
      | None, Some l => set_phase r Leased (set_root_lock l s)
      | _, _ => s
      end
  | ROpen r generation =>
      match readers s !! r with
      | Some Leased =>
          match validate_generation generation, snapshots s !! generation with
          | Ok _, Some dir => set_phase r (DirectoryPinned generation dir) s
          | _, _ => drop_reader r s
          end
      | _ => s
      end
  | ROpenPin r =>
      match readers s !! r with
      | Some (DirectoryPinned generation dir) =>
          match pins s !! pin_name generation with
          | Some pin => set_phase r (PinOpened generation dir pin) s
          | None => drop_reader r s
          end
      | _ => s
      end
  | RLockPin r =>
      match readers s !! r with
      | Some (PinOpened generation dir pin) =>
          match share r (lock_of s pin) with
          | Some l => set_phase r (PinShared generation dir pin) (set_locks (<[pin := l]> (locks s)) s)
          | None => s
          end
      | _ => s
      end
  | RValidate r =>
      match readers s !! r with
      | Some (PinShared generation dir pin) =>
          if current s generation dir then set_phase r (Reading true generation dir pin) s
          else drop_reader r s
      | _ => s
      end
  | RFinish r =>
      match readers s !! r with
      | Some (Reading true generation dir pin) =>
          if current s generation dir
          then drop_lease r (set_phase r (Reading false generation dir pin) s)
          else drop_reader r s
      | _ => s
      end
  | RUse r =>
      match readers s !! r with
      | Some (Reading _ generation dir _) =>
          if current s generation dir then s else set_lost true s
      | _ => s
      end
  | RDrop r => drop_reader r s
  | PBegin generation suffix => begin_publication generation suffix s
  | PPin | PRename | PUnpin | PClean | PEnd => publisher_step a s
  end.

Definition run_actions (l : list Action) (s : Shared) : Shared := fold_left (λ s a, act a s) l s.

(** ** The collector's system calls *)

(** Other processes move while the collector is in a system call. *)
Definition turn : M Shared () :=
  s ← get;
  match turns s with
  | [] => mret tt
  | l :: rest => put (run_actions l (set_turns rest s))
  end.

Definition call : M Shared () := _ ← turn; sys_ok.

Fixpoint calls (n : nat) : M Shared () :=
  match n with
  | O => mret tt
  | S n => _ ← call; calls n
  end.

(** [sync_directory]. *)
Definition sync_directory : M Shared () := λ st,
  match call st with
  | (st, Err _) => (st, Err Storage)
  | r => r
  end.

(** [cancel_check()]. *)
Definition cancel_check : M Shared bool := λ '(w, s),
  match w_cancel w with
  | [] => ((w, s), Ok false)
  | answer :: rest => ((MkWorld rest (w_faults w), s), Ok answer)
  end.

Definition release (l : Lock) : Lock := match l with ByCollector => SharedBy ∅ | _ => l end.

Definition release_root (s : Shared) : Shared := set_root_lock (release (root_lock s)) s.
Definition release_pins (s : Shared) : Shared := set_locks (release <$> locks s) s.
(** Closing the lock files of an acquisition or of a plan. *)
Definition release_all (s : Shared) : Shared :=
  set_publication_lock (release (publication_lock s)) (release_root (release_pins s)).

(** The locks of a computation that fails are released with its values. *)
Definition releasing_on_error {A} (m : M Shared A) : M Shared A := λ st,
  match m st with
  | ((w, s), Err e) => ((w, release_all s), Err e)
  | r => r
  end.

(** [try_lock_exclusive]. *)
Definition lock_is_free (l : Lock) : bool :=
  match l with SharedBy h => bool_decide (h = ∅) | _ => false end.

Definition try_lock_root : M Shared bool :=
  _ ← call;
  s ← get;
  if lock_is_free (root_lock s) then _ ← put (set_root_lock ByCollector s); mret true else mret false.

Definition try_lock_publication : M Shared bool :=
  _ ← call;
  s ← get;
  if lock_is_free (publication_lock s)
  then _ ← put (set_publication_lock ByCollector s); mret true else mret false.

Definition try_lock_pin (pin : inode) : M Shared bool :=
  _ ← call;
  s ← get;
  if lock_is_free (lock_of s pin)
  then _ ← put (set_locks (<[pin := ByCollector]> (locks s)) s); mret true else mret false.

(** [open_lock_file(path, false)] on a pin file. *)
Definition open_pin (name : str) : M Shared inode :=
  _ ← call;
  s ← get;
  match pins s !! name with
  | Some pin => mret pin
  | None => fail GenerationNotFound
  end.

(** [PinnedPrivateDirectory::acquire] and [validate_current] on an entry. *)
Definition acquire_entry (entries : Shared → gmap str inode) (name : str) : M Shared inode :=
  _ ← call;
  s ← get;
  match entries s !! name with
  | Some dir => mret dir
  | None => fail Storage
  end.

Definition validate_entry (entries : Shared → gmap str inode) (name : str) (dir : inode) : M Shared () :=
  _ ← call;
  s ← get;
  match entries s !! name with
  | Some dir' => if bool_decide (dir' = dir) then mret tt else fail StorageLayoutInvalid
  | None => fail Storage
  end.

(** [fs::remove_dir_all] and [fs::remove_file]; a failed call may have removed the entry. *)
Definition remove_entry (remove : Shared → Shared) : M Shared () :=
  _ ← turn;
  fault ← sys;
  match fault with
  | None => modify remove
  | Some (_, O) => fail Storage
  | Some (_, _) => _ ← modify remove; fail Storage
  end.

Definition remove_snapshot (generation : str) (s : Shared) : Shared :=
  set_snapshots (delete generation (snapshots s)) s.
Definition remove_staging (name : str) (s : Shared) : Shared := set_staging (delete name (staging s)) s.
Definition remove_pin_file (name : str) (s : Shared) : Shared := set_pins (delete name (pins s)) s.

(** ** Acquisition *)

(** [VectorSnapshotGcAcquisition::validate_for]: five identities. *)
Definition validate_for : M Shared () := calls 5.

(** [try_acquire_snapshot_gc]: [false] is [Ok(None)]. *)
Definition try_acquire_snapshot_gc : M Shared bool :=
  releasing_on_error (
    _ ← calls 6;
    root_locked ← try_lock_root;
    if negb root_locked then mret false
    else
      _ ← call;
      publication_locked ← try_lock_publication;
      if negb publication_locked then _ ← modify release_all; mret false
      else _ ← validate_for; mret true).

(** ** Candidates *)

Definition STAGING_SUFFIX_HEX_LEN : Z := 24.

(** [str::rsplit_once]. *)
Definition rsplit_once (pat s : str) : option (str * str) :=
  match split_once (reverse pat) (reverse s) with
  | Some (a, b) => Some (reverse b, reverse a)
  | None => None
  end.

Definition is_lower_hex (b : Z) : bool := is_ascii_digit b || ((97 <=? b) && (b <=? 102)).

Definition staging_generation (name : str) : result str VectorIndexError :=
  match rsplit_once (lit ".tmp-") name with
  | None => Err StorageLayoutInvalid
  | Some (generation, suffix) =>
      match validate_generation generation with
      | Err _ => Err StorageLayoutInvalid
      | Ok _ =>
          if (str_len suffix =? STAGING_SUFFIX_HEX_LEN) && forallb is_lower_hex (utf8 suffix)
          then Ok generation else Err StorageLayoutInvalid
      end
  end.

Definition by_name : str * inode → str * inode → comparison := λ a b, cmp a.1 b.1.

(** The entries of [snapshots], each validated and pinned: published names and those to
    reclaim, in the order of their names. *)
Fixpoint collect_entries (valid : str → result unit VectorIndexError)
    (entries : Shared → gmap str inode) (names : list str) : M Shared (list (str * inode)) :=
  match names with
  | [] => mret []
  | name :: names =>
      _ ← call;
      _ ← lift (valid name);
      dir ← acquire_entry entries name;
      rest ← collect_entries valid entries names;
      mret ((name, dir) :: rest)
  end.

Definition names_of (entries : gmap str inode) : list str := (map_to_list entries).*1.

Definition valid_entry (name : str) : result unit VectorIndexError :=
  map_err (λ _, StorageLayoutInvalid) (validate_generation name).

Definition retains (retained : list str) (generation : str) : bool := bool_decide (generation ∈ retained).

Definition collect_generation_candidates (retained : list str)
    : M Shared (list str * list (str * inode)) :=
  _ ← calls 2;
  s ← get;
  entries ← collect_entries valid_entry snapshots (names_of (snapshots s));
  let published := entries.*1 in
  let reclaim := List.filter (λ e, negb (retains retained e.1)) entries in
  mret (published, sort_by by_name reclaim).

Definition validate_staging_name (name : str) : result unit VectorIndexError :=
  let? _ := staging_generation name in Ok tt.

Definition collect_staging_candidates : M Shared (list (str * inode)) :=
  _ ← calls 2;
  s ← get;
  candidates ← collect_entries validate_staging_name staging (names_of (staging s));
  mret (sort_by by_name candidates).

Definition pin_generation (name : str) : result str VectorIndexError :=
  let? generation := ok_or (strip_suffix LOCK_SUFFIX name) StorageLayoutInvalid in
  let? _ := valid_entry generation in
  Ok generation.

(** The generations that have a pin file, in order. *)
Fixpoint collect_pins (entries names : list str) : M Shared (list str) :=
  match names with
  | [] => mret entries
  | name :: names =>
      _ ← call;
      generation ← lift (pin_generation name);
      _ ← open_pin name;
      if bool_decide (generation ∈ entries) then fail StorageLayoutInvalid
      else collect_pins (entries ++ [generation]) names
  end.

Definition collect_generation_pins : M Shared (list str) :=
  _ ← calls 2;
  s ← get;
  entries ← collect_pins [] (names_of (pins s));
  mret (sort_by cmp entries).

(** ** Preparation *)

(** [PinnedVectorGcCandidate]. *)
Record GcCandidate := MkCandidate {
  gc_generation : str;
  gc_snapshot : option inode;
  gc_pin : inode;
}.

Definition gc_pin_path (c : GcCandidate) : str := pin_name (gc_generation c).

Record PreparedVectorSnapshotGc := MkPrepared {
  generation_candidates : list GcCandidate;
  staging_candidates : list (str * inode);
}.

Inductive VectorSnapshotGcPreparation :=
| Deferred
| Prepared (plan : PreparedVectorSnapshotGc).

(** The two loops that pin candidates; [None] is a busy pin. *)
Fixpoint pin_candidates (pin_entries : list str) (targets : list (str * option inode))
    : M Shared (option (list GcCandidate)) :=
  match targets with
  | [] => mret (Some [])
  | (generation, snapshot) :: targets =>
      if negb (bool_decide (generation ∈ pin_entries)) then fail StorageLayoutInvalid
      else
        pin ← open_pin (pin_name generation);
        locked ← try_lock_pin pin;
        if negb (locked : bool) then mret None
        else
          rest ← pin_candidates pin_entries targets;
          mret (match rest with
                | Some rest => Some (MkCandidate generation snapshot pin :: rest)
                | None => None
                end)
  end.

Fixpoint validate_snapshots (candidates : list GcCandidate) : M Shared () :=
  match candidates with
  | [] => mret tt
  | c :: candidates =>
      _ ← match gc_snapshot c with
          | Some dir => validate_entry snapshots (gc_generation c) dir
          | None => mret tt
          end;
      validate_snapshots candidates
  end.

Fixpoint validate_stagings (candidates : list (str * inode)) : M Shared () :=
  match candidates with
  | [] => mret tt
  | (name, dir) :: candidates => _ ← validate_entry staging name dir; validate_stagings candidates
  end.

Definition validate_candidate_identities (plan : PreparedVectorSnapshotGc) : M Shared () :=
  _ ← validate_snapshots (generation_candidates plan);
  validate_stagings (staging_candidates plan).

Fixpoint validate_generations (generations : list str) : result unit VectorIndexError :=
  match generations with
  | [] => Ok tt
  | g :: generations => let? _ := validate_generation g in validate_generations generations
  end.

Definition prepare_snapshot_gc (retained : list str) : M Shared VectorSnapshotGcPreparation :=
  releasing_on_error (
    _ ← validate_for;
    _ ← lift (validate_generations retained);
    candidates ← collect_generation_candidates retained;
    staging_found ← collect_staging_candidates;
    pin_entries ← collect_generation_pins;
    let '(published, reclaim) := candidates in
    if existsb (λ g, negb (bool_decide (g ∈ pin_entries))) published then fail StorageLayoutInvalid
    else
      let unpublished := List.filter (λ g, negb (bool_decide (g ∈ published))) pin_entries in
      pinned ← pin_candidates pin_entries
                 (map (λ e, (e.1, Some e.2)) reclaim ++ map (λ g, (g, None)) unpublished);
      match pinned with
      | None => _ ← modify release_all; mret Deferred
      | Some pinned =>
          let plan := MkPrepared pinned staging_found in
          _ ← validate_for;
          _ ← validate_candidate_identities plan;
          _ ← modify release_root;
          mret (Prepared plan)
      end).

(** ** Commit *)

Record VectorGcSummary := MkGcSummary {
  removed_generations : Z;
  removed_staging : Z;
  removed_generation_pins : Z;
}.

Inductive VectorSnapshotGcFailurePhase :=
| Preflight | GenerationRemoval | StagingRemoval | GenerationDurability | StagingDurability
| PinRemoval | PinDurability | FinalValidation.

Inductive VectorSnapshotGcFailureClass := LayoutChanged | StorageUnavailable.

Definition failure_class_from_error (e : VectorIndexError) : VectorSnapshotGcFailureClass :=
  match e with
  | LeaseRootMismatch | StorageLayoutInvalid => LayoutChanged
  | _ => StorageUnavailable
  end.

Record VectorGcPartialFailure := MkPartialFailure {
  pf_progress : VectorGcSummary;
  remaining_generations : Z;
  remaining_staging : Z;
  remaining_generation_pins : Z;
  failure_phase : VectorSnapshotGcFailurePhase;
  failure_class : VectorSnapshotGcFailureClass;
}.

Inductive VectorSnapshotGcCommitReport :=
| Complete (summary : VectorGcSummary)
| Interrupted (summary : VectorGcSummary)
| PartialFailure (failure : VectorGcPartialFailure).

Definition count {A} (l : list A) : Z := Z.of_nat (length l).
Definition has_snapshot (c : GcCandidate) : bool := bool_decide (is_Some (gc_snapshot c)).

Section commit.
Variable plan : PreparedVectorSnapshotGc.

Definition partial_report (progress : VectorGcSummary) (phase : VectorSnapshotGcFailurePhase)
    (e : VectorIndexError) : VectorSnapshotGcCommitReport :=
  PartialFailure (MkPartialFailure progress
    (Z.max 0 (count (List.filter has_snapshot (generation_candidates plan)) - removed_generations progress))
    (Z.max 0 (count (staging_candidates plan) - removed_staging progress))
    (Z.max 0 (count (generation_candidates plan) - removed_generation_pins progress))
    phase (failure_class_from_error e)).

(** Early returns of the commit. *)
Definition unless_cancelled (progress : VectorGcSummary) (k : M Shared VectorSnapshotGcCommitReport)
    : M Shared VectorSnapshotGcCommitReport :=
  cancelled ← cancel_check;
  if cancelled : bool then mret (Interrupted progress) else k.

Definition or_partial {A} (progress : VectorGcSummary) (phase : VectorSnapshotGcFailurePhase)
    (m : M Shared A) (k : A → M Shared VectorSnapshotGcCommitReport)
    : M Shared VectorSnapshotGcCommitReport := λ st,
  match m st with
  | (st, Ok a) => k a st
  | (st, Err e) => (st, Ok (partial_report progress phase e))
  end.

Fixpoint remove_generations (progress : VectorGcSummary) (candidates : list GcCandidate)
    (k : VectorGcSummary → M Shared VectorSnapshotGcCommitReport)
    : M Shared VectorSnapshotGcCommitReport :=
  match candidates with
  | [] => k progress
  | c :: candidates =>
      match gc_snapshot c with
      | None => remove_generations progress candidates k
      | Some dir =>
          unless_cancelled progress
            (or_partial progress GenerationRemoval (validate_entry snapshots (gc_generation c) dir) (λ _,
             or_partial progress GenerationRemoval (remove_entry (remove_snapshot (gc_generation c))) (λ _,
             remove_generations
               (MkGcSummary (removed_generations progress + 1) (removed_staging progress)
                  (removed_generation_pins progress)) candidates k)))
      end
  end.

Fixpoint remove_stagings (progress : VectorGcSummary) (candidates : list (str * inode))
    (k : VectorGcSummary → M Shared VectorSnapshotGcCommitReport)
    : M Shared VectorSnapshotGcCommitReport :=
  match candidates with
  | [] => k progress
  | (name, dir) :: candidates =>
      unless_cancelled progress
        (or_partial progress StagingRemoval (validate_entry staging name dir) (λ _,
         or_partial progress StagingRemoval (remove_entry (remove_staging name)) (λ _,
         remove_stagings
           (MkGcSummary (removed_generations progress) (removed_staging progress + 1)
              (removed_generation_pins progress)) candidates k)))
  end.

Fixpoint remove_pins (progress : VectorGcSummary) (paths : list str)
    (k : VectorGcSummary → M Shared VectorSnapshotGcCommitReport)
    : M Shared VectorSnapshotGcCommitReport :=
  match paths with
  | [] => k progress
  | name :: paths =>
      unless_cancelled progress
        (or_partial progress PinRemoval (remove_entry (remove_pin_file name)) (λ _,
         remove_pins
           (MkGcSummary (removed_generations progress) (removed_staging progress)
              (removed_generation_pins progress + 1)) paths k))
  end.

Definition commit_pins (progress : VectorGcSummary) : M Shared VectorSnapshotGcCommitReport :=
  _ ← modify release_pins;
  remove_pins progress (map gc_pin_path (generation_candidates plan)) (λ progress,
    let final :=
      unless_cancelled progress
        (or_partial progress FinalValidation (calls 4) (λ _, mret (Complete progress))) in
    if negb (removed_generation_pins progress =? 0)
    then unless_cancelled progress (or_partial progress PinDurability sync_directory (λ _, final))
    else final).

Definition commit_durability (progress : VectorGcSummary) : M Shared VectorSnapshotGcCommitReport :=
  unless_cancelled progress
    (let staging_sync :=
       if negb (removed_staging progress =? 0)
       then unless_cancelled progress
              (or_partial progress StagingDurability sync_directory (λ _, commit_pins progress))
       else commit_pins progress in
     if negb (removed_generations progress =? 0)
     then or_partial progress GenerationDurability sync_directory (λ _, staging_sync)
     else staging_sync).

Definition commit_body : M Shared VectorSnapshotGcCommitReport :=
  let progress := MkGcSummary 0 0 0 in
  unless_cancelled progress
    (or_partial progress Preflight
       (_ ← calls 4; validate_candidate_identities plan)
       (λ _, remove_generations progress (generation_candidates plan) (λ progress,
             remove_stagings progress (staging_candidates plan) commit_durability))).

(** Every return drops the plan with its locks. *)
Definition commit_snapshot_gc : M Shared VectorSnapshotGcCommitReport :=
  report ← commit_body;
  _ ← modify release_all;
  mret report.
End commit.

(** ** Retiring one generation *)

(** What the root directory holds: whether it exists, how many of the five controlled
    entries are present, and whether there are others. *)
Record RootLayout := MkLayout { root_exists : bool; controlled_present : Z; other_entries : bool }.

Definition exact_retirement_layout_is_absent (layout : RootLayout) : result bool VectorIndexError :=
  if controlled_present layout =? 0 then Ok (negb (other_entries layout))
  else if negb (controlled_present layout =? 5) then Err StorageLayoutInvalid
  else Ok false.

Record VectorGenerationRetirementSummary := MkRetirementSummary {
  retired_generation : bool;
  retired_staging : Z;
  retired_generation_pin : bool;
}.

Inductive VectorGenerationRetirement :=
| Absent
| RetirementDeferred
| Retired (summary : VectorGenerationRetirementSummary).

Definition acquire_optional_generation (generation : str) : M Shared (option inode) :=
  _ ← call;
  s ← get;
  match snapshots s !! generation with
  | Some _ => dir ← acquire_entry snapshots generation; mret (Some dir)
  | None => mret None
  end.

Fixpoint collect_exact (generation : str) (names : list str) : M Shared (list (str * inode)) :=
  match names with
  | [] => mret []
  | name :: names =>
      _ ← call;
      owner ← lift (staging_generation name);
      if str_eqb owner generation then
        dir ← acquire_entry staging name;
        rest ← collect_exact generation names;
        mret ((name, dir) :: rest)
      else collect_exact generation names
  end.

Definition collect_exact_staging_candidates (generation : str) : M Shared (list (str * inode)) :=
  _ ← call;
  s ← get;
  candidates ← collect_exact generation (names_of (staging s));
  mret (sort_by by_name candidates).

(** [validate_generation_pin]. *)
Definition validate_generation_pin (generation : str) (pin : inode) : M Shared () :=
  validate_entry pins (pin_name generation) pin.

Fixpoint retire_stagings (candidates : list (str * inode)) : M Shared () :=
  match candidates with
  | [] => mret tt
  | (name, dir) :: candidates =>
      _ ← validate_entry staging name dir;
      _ ← remove_entry (remove_staging name);
      retire_stagings candidates
  end.

Definition when {A} (o : option A) (f : A → M Shared ()) : M Shared () :=
  match o with Some a => f a | None => mret tt end.

(** The removals, after the root fence is released. *)
Definition retire_artifacts (generation : str) (snapshot : option inode) (found : list (str * inode))
    (pin : option inode) : M Shared VectorGenerationRetirement :=
  _ ← modify release_root;
  _ ← calls 4;
  _ ← when snapshot (λ dir,
        _ ← validate_entry snapshots generation dir;
        _ ← remove_entry (remove_snapshot generation);
        sync_directory);
  _ ← retire_stagings found;
  _ ← when (match found with [] => None | _ => Some tt end) (λ _, sync_directory);
  _ ← when pin (λ pin,
        _ ← validate_generation_pin generation pin;
        _ ← modify release_pins;
        _ ← remove_entry (remove_pin_file (pin_name generation));
        sync_directory);
  _ ← calls 4;
  mret (Retired (MkRetirementSummary (bool_decide (is_Some snapshot)) (count found)
                   (bool_decide (is_Some pin)))).

(** The pin of the target: [None] is a busy pin. *)
Definition pin_target (generation : str) : M Shared (option (option inode)) :=
  _ ← call;
  s ← get;
  match pins s !! pin_name generation with
  | None => mret (Some None)
  | Some _ =>
      pin ← open_pin (pin_name generation);
      locked ← try_lock_pin pin;
      mret (if locked : bool then Some (Some pin) else None)
  end.

Definition retire_validated (generation : str) (snapshot : option inode) (found : list (str * inode))
    (pin : option inode) : M Shared VectorGenerationRetirement :=
  _ ← validate_for;
  _ ← when snapshot (validate_entry snapshots generation);
  _ ← validate_stagings found;
  _ ← when pin (validate_generation_pin generation);
  retire_artifacts generation snapshot found pin.

Definition retire_acquired (generation : str) : M Shared VectorGenerationRetirement :=
  _ ← validate_for;
  snapshot ← acquire_optional_generation generation;
  found ← collect_exact_staging_candidates generation;
  pinned ← pin_target generation;
  match pinned with
  | None => mret RetirementDeferred
  | Some pin =>
      match snapshot, found, pin with
      | Some _, _, None => fail StorageLayoutInvalid
      | None, [], None => mret Absent
      | _, _, _ => retire_validated generation snapshot found pin
      end
  end.

Definition try_retire_unpublished_generation (layout : RootLayout) (generation : str)
    (retained : list str) : M Shared VectorGenerationRetirement :=
  _ ← lift (validate_generation generation);
  if retains retained generation then fail StorageLayoutInvalid
  else
    _ ← call;
    if negb (root_exists layout) then mret Absent
    else
      _ ← calls (if controlled_present layout =? 0 then 7%nat else 5%nat);
      absent ← lift (exact_retirement_layout_is_absent layout);
      if absent : bool then mret Absent
      else
        _ ← calls 2;
        if controlled_present layout =? 0 then fail Storage
        else
          acquired ← try_acquire_snapshot_gc;
          if negb (acquired : bool) then mret RetirementDeferred
          else
            retirement ← releasing_on_error (retire_acquired generation);
            _ ← modify release_all;
            mret retirement.

(** ** Histories *)

Inductive GcOperation :=
| Others (a : Action)
| Collect (w : World) (others : list (list Action)) (retained : list str)
| Retire (w : World) (others : list (list Action)) (layout : RootLayout) (generation : str)
    (retained : list str).

(** A collection under its fences: prepare and commit.  [None] is a preparation that was
    deferred. *)
Definition reclaim (retained : list str) : M Shared (option VectorSnapshotGcCommitReport) :=
  prepared ← prepare_snapshot_gc retained;
  match prepared with
  | Deferred => mret None
  | Prepared plan => report ← commit_snapshot_gc plan; mret (Some report)
  end.

Definition collect (retained : list str) : M Shared (option VectorSnapshotGcCommitReport) :=
  acquired ← try_acquire_snapshot_gc;
  if negb (acquired : bool) then mret None else reclaim retained.

Definition run_gc_operation (s : Shared) (op : GcOperation) : Shared :=
  match op with
  | Others a => act a s
  | Collect w others retained => (collect retained (w, set_turns others s)).1.2
  | Retire w others layout generation retained =>
      (try_retire_unpublished_generation layout generation retained (w, set_turns others s)).1.2
  end.

Definition run_gc_operations (ops : list GcOperation) (s : Shared) : Shared :=
  fold_left run_gc_operation ops s.

(** An index root with its layout and nothing published. *)
Definition empty_root : Shared :=
  MkShared ∅ ∅ ∅ ∅ (SharedBy ∅) (SharedBy ∅) 1 ∅ None false [].

(** ** The invariant of readers and publications *)

Definition shared_by (s : Shared) (pin : inode) (r : nat) : Prop :=
  ∃ h, lock_of s pin = SharedBy h ∧ r ∈ h.

(** A directory that was published: not a new one, and not in staging. *)
Definition was_published (s : Shared) (dir : inode) : Prop :=
  dir < next_inode s ∧ ∀ name, staging s !! name ≠ Some dir.

(** A pin that was opened is the pin of the generation while its directory is there. *)
Definition pin_matches (s : Shared) (generation : str) (dir pin : inode) : Prop :=
  snapshots s !! generation = Some dir → pins s !! pin_name generation = Some pin.

Definition reader_inv (s : Shared) (r : nat) (phase : ReaderPhase) : Prop :=
  match phase with
  | Leased => True
  | DirectoryPinned _ dir => was_published s dir
  | PinOpened g dir pin => was_published s dir ∧ pin_matches s g dir pin
  | PinShared g dir pin => was_published s dir ∧ pin_matches s g dir pin ∧ shared_by s pin r
  | Reading _ g dir pin =>
      snapshots s !! g = Some dir ∧ pins s !! pin_name g = Some pin ∧ shared_by s pin r
  end.

Record GcInv (s : Shared) : Prop := {
  inv_lost : lost s = false;
  inv_snapshot_fresh g i : snapshots s !! g = Some i → i < next_inode s;
  inv_staging_fresh n i : staging s !! n = Some i → i < next_inode s;
  inv_staging_unpublished n g i : staging s !! n = Some i → snapshots s !! g ≠ Some i;
  inv_staging_inj n m i : staging s !! n = Some i → staging s !! m = Some i → n = m;
  inv_pinned g i : snapshots s !! g = Some i → is_Some (pins s !! pin_name g);
  inv_publisher : publication_lock s = ByPublisher ↔ is_Some (publisher s);
  inv_publisher_pin g n : publisher s = Some (PublishPinned g n) → is_Some (pins s !! pin_name g);
  inv_publisher_new g n : publisher s = Some (PublishPinned g n) → snapshots s !! g = None;
  inv_readers r phase : readers s !! r = Some phase → reader_inv s r phase;
}.

Lemma pin_name_inj g h : pin_name g = pin_name h → g = h.
Proof. apply app_inv_tail. Qed.

(** States that differ in readers and locks only. *)
Definition same_root (s t : Shared) : Prop :=
  snapshots t = snapshots s ∧ staging t = staging s ∧ pins t = pins s ∧ next_inode t = next_inode s
  ∧ publisher t = publisher s ∧ lost t = lost s
  ∧ (publication_lock t = ByPublisher ↔ publication_lock s = ByPublisher).

Lemma reader_inv_same s t r phase :
  same_root s t → (∀ pin, shared_by s pin r → shared_by t pin r) →
  reader_inv s r phase → reader_inv t r phase.
Proof.
  intros (H1 & H2 & H3 & H4 & _) Hsh.
  destruct phase; unfold reader_inv, was_published, pin_matches; rewrite ?H1, ?H2, ?H3, ?H4; naive_solver.
Qed.

Lemma inv_same s t :
  same_root s t → (∀ r phase, readers t !! r = Some phase → reader_inv t r phase) → GcInv s → GcInv t.
Proof.
  intros (H1 & H2 & H3 & H4 & H5 & H6 & H7) Hr [].
  split; rewrite ?H1, ?H2, ?H3, ?H4, ?H5, ?H6; try done. by rewrite H7.
Qed.

(** A reader's move: its own phase changes, the shares of the others stay. *)
Lemma inv_reader_move s t r phase :
  GcInv s → same_root s t →
  (∀ q pin, q ≠ r → shared_by s pin q → shared_by t pin q) →
  (∀ q, q ≠ r → readers t !! q = readers s !! q) →
  (readers t !! r = None ∨ readers t !! r = Some phase ∧ reader_inv t r phase) → GcInv t.
Proof.
  intros Hs Hsame Hsh Hother Hr. apply (inv_same s); [done| |done]. intros q ph Hq.
  destruct (decide (q = r)) as [->|Hne].
  - destruct Hr as [Hr|[Hr Hinv]]; [congruence|]. congruence.
  - rewrite Hother in Hq by done. apply (reader_inv_same s); [done|auto|]. by apply inv_readers.
Qed.

Lemma unshare_other s pin p r q :
  q ≠ r → shared_by s p q → shared_by (drop_pin r pin s) p q.
Proof.
  intros Hne (h & Hl & Hq). unfold shared_by, lock_of, drop_pin. cbn.
  destruct (decide (p = pin)) as [->|Hp].
  - rewrite lookup_insert_eq. cbn. unfold lock_of in *. rewrite Hl. cbn. exists (h ∖ {[r]}). set_solver.
  - rewrite lookup_insert_ne by done. eauto.
Qed.

Lemma drop_reader_inv r s : GcInv s → GcInv (drop_reader r s).
Proof.
  intros Hs. unfold drop_reader. destruct (readers s !! r) as [phase|] eqn:Hr; [|done].
  assert (∀ t, same_root s t → readers t = delete r (readers s) →
    (∀ q pin, q ≠ r → shared_by s pin q → shared_by t pin q) → GcInv t) as Hgo.
  { intros t Hsame Hrd Hsh. apply (inv_reader_move s t r Leased Hs Hsame Hsh).
    - intros q Hq. rewrite Hrd. by rewrite lookup_delete_ne.
    - left. rewrite Hrd. apply lookup_delete_eq. }
  destruct phase as [| | | |[]]; apply Hgo; try (split_and!; reflexivity); try reflexivity;
    intros q p Hq Hsh; first [exact Hsh|exact (unshare_other s _ p r q Hq Hsh)].
Qed.

Lemma same_root_refl s : same_root s s.
Proof. by split_and!. Qed.

(** A reader that stays in the table moves to a phase that holds. *)
Lemma set_phase_inv r phase s t :
  GcInv s → same_root s t → readers t = readers s →
  (∀ q pin, q ≠ r → shared_by s pin q → shared_by t pin q) →
  reader_inv (set_phase r phase t) r phase → GcInv (set_phase r phase t).
Proof.
  intros Hs Hsame Hrd Hsh Hr. apply (inv_reader_move s _ r phase); [done|done|done| |].
  - intros q Hq. cbn. rewrite Hrd. by rewrite lookup_insert_ne.
  - right. split; [apply lookup_insert_eq|done].
Qed.

Lemma current_true s g dir : current s g dir = true ↔ snapshots s !! g = Some dir.
Proof. apply bool_decide_eq_true. Qed.

Lemma published_dir s g dir : GcInv s → snapshots s !! g = Some dir → was_published s dir.
Proof.
  intros Hs Hg. split; [by eapply inv_snapshot_fresh|]. intros n Hn. by eapply inv_staging_unpublished.
Qed.

Lemma share_lock s t r pin l :
  share r (lock_of s pin) = Some l → locks t = <[pin := l]> (locks s) →
  shared_by t pin r ∧ (∀ q p, shared_by s p q → shared_by t p q).
Proof.
  unfold share, shared_by, lock_of. intros Hl Ht. rewrite Ht.
  destruct (default _ _) as [h| |] eqn:E; [|done..]. injection Hl as <-. split.
  - rewrite lookup_insert_eq. eexists. split; [reflexivity|]. set_solver.
  - intros q p (h' & Hh & Hq). destruct (decide (p = pin)) as [->|Hp].
    + rewrite lookup_insert_eq. rewrite E in Hh. injection Hh as <-.
      eexists. split; [reflexivity|]. set_solver.
    + rewrite lookup_insert_ne by done. eauto.
Qed.

Lemma reader_act_inv a s :
  match a with PBegin _ _ | PPin | PRename | PUnpin | PClean | PEnd => False | _ => True end → GcInv s → GcInv (act a s).
Proof.
  intros Ha Hs. pose proof (same_root_refl s) as Hrefl.
  destruct a as [r|r g|r|r|r|r|r|r|g x| | | | |]; try done; cbn [act publisher_step]; unfold begin_publication; [..|by apply drop_reader_inv].
  - destruct (readers s !! r); [done|]. destruct (share r (root_lock s)) as [l|]; [|done].
    by apply (set_phase_inv r Leased s).
  - destruct (readers s !! r) as [[]|] eqn:Hr; try done.
    destruct (validate_generation g), (snapshots s !! g) as [dir|] eqn:Hg; try by apply drop_reader_inv.
    apply (set_phase_inv r (DirectoryPinned g dir) s); try done. by apply published_dir in Hg.
  - destruct (readers s !! r) as [[|g dir| | |]|] eqn:Hr; try done.
    destruct (pins s !! pin_name g) as [pin|] eqn:Hp; [|by apply drop_reader_inv].
    apply inv_readers in Hr as Hi; [|done].
    apply (set_phase_inv r (PinOpened g dir pin) s); try done. split; [exact Hi|]. intros _. exact Hp.
  - destruct (readers s !! r) as [[| |g dir pin| |]|] eqn:Hr; try done.
    destruct (share r (lock_of s pin)) as [l|] eqn:Hl; [|done].
    apply inv_readers in Hr as [Hi Hm]; [|done].
    edestruct (share_lock s (set_locks (<[pin := l]> (locks s)) s) r pin l Hl eq_refl) as [H1 H2].
    apply (set_phase_inv r (PinShared g dir pin) s); try done; intros; first [by apply H2|split_and!; [exact Hi|exact Hm|exact H1]].
  - destruct (readers s !! r) as [[| | |g dir pin|]|] eqn:Hr; try done.
    destruct (current s g dir) eqn:Hc; [|by apply drop_reader_inv]. apply current_true in Hc.
    apply inv_readers in Hr as (Hi & Hm & Hsh); [|done].
    apply (set_phase_inv r (Reading true g dir pin) s); try done. split_and!; [exact Hc|by apply Hm|exact Hsh].
  - destruct (readers s !! r) as [[| | | |[] g dir pin]|] eqn:Hr; try done.
    destruct (current s g dir) eqn:Hc; [|by apply drop_reader_inv].
    apply inv_readers in Hr as Hi; [|done].
    apply (inv_reader_move s _ r (Reading false g dir pin)); [done|done|done| |].
    + intros q Hq. cbn. by rewrite lookup_insert_ne.
    + right. split; [apply lookup_insert_eq|exact Hi].
  - destruct (readers s !! r) as [[| | | |b g dir pin]|] eqn:Hr; try done.
    apply inv_readers in Hr as (Hi & _); [|done]. apply current_true in Hi. by rewrite Hi.
Qed.

Lemma publish_begin_inv g x s : GcInv s → GcInv (act (PBegin g x) s).
Proof.
  intros Hs. cbn [act publisher_step]; unfold begin_publication. destruct (publisher s) as [|] eqn:Hp; [done|].
  destruct (publication_lock s) as [h| |]; [|done..]. destruct (validate_generation g); [|done].
  destruct (snapshots s !! g) eqn:Hg; [done|]. destruct (bool_decide (h = ∅)); [|done].
  set (name := g ++ lit ".tmp-" ++ x). destruct (staging s !! name) eqn:Hn; [done|].
  destruct Hs as [Hl Hsf Htf Hts Hti Hpn Hpub Hpp Hpw Hrd]. split; cbn; try done.
  - intros k i Hi%Hsf. lia.
  - intros n i. rewrite lookup_insert_Some. intros [[_ <-]|[_ Hi%Htf]]; lia.
  - intros n k i. rewrite lookup_insert_Some. intros [[_ <-]|[_ Hi]]; [|by apply (Hts n)].
    intros Hk%Hsf. lia.
  - intros n m i. rewrite !lookup_insert_Some.
    intros [[<- <-]|[_ Hi]] [[<- Hm]|[_ Hj]]; [done| | |by eapply Hti].
    + apply Htf in Hj. lia.
    + apply Htf in Hi. lia.
  - intros r phase Hr%Hrd. assert (∀ dir, was_published s dir →
      dir < next_inode s + 1 ∧ ∀ n, <[name := next_inode s]> (staging s) !! n ≠ Some dir) as Hw.
    { intros dir [H1 H2]. split; [lia|]. intros n. rewrite lookup_insert_Some.
      intros [[_ <-]|[_ Hi]]; [lia|by eapply H2]. }
    destruct phase; unfold reader_inv, was_published, pin_matches in *; cbn; naive_solver.
Qed.

Lemma publish_pin_inv s : GcInv s → GcInv (act PPin s).
Proof.
  intros Hs. cbn [act publisher_step]; unfold begin_publication. destruct (publisher s) as [[g name| |]|] eqn:Hp; try done.
  destruct (snapshots s !! g) eqn:Hg; [done|]. destruct (pins s !! pin_name g) eqn:Hpin; [done|].
  destruct Hs as [Hl Hsf Htf Hts Hti Hpn Hpub Hpp Hpw Hrd]. split; cbn; try done.
  - intros k i Hi%Hsf. lia.
  - intros n i Hi%Htf. lia.
  - intros k i Hi%Hpn. rewrite lookup_insert_is_Some'. by right.
  - rewrite Hpub, Hp. done.
  - intros k n [= -> _]. rewrite lookup_insert_eq. eauto.
  - by intros k n [= <- _].
  - intros r phase Hr%Hrd. assert (∀ k dir pin, snapshots s !! k = Some dir → pins s !! pin_name k = Some pin →
      <[pin_name g := next_inode s]> (pins s) !! pin_name k = Some pin) as Hk.
    { intros k dir pin H1 H2. rewrite lookup_insert_ne; [done|]. intros ->%pin_name_inj. congruence. }
    destruct phase; unfold reader_inv, was_published, pin_matches in *; cbn; naive_solver lia.
Qed.

Lemma publish_rename_inv s : GcInv s → GcInv (act PRename s).
Proof.
  intros Hs. cbn [act publisher_step]; unfold begin_publication. destruct (publisher s) as [[|g name|]|] eqn:Hp; try done.
  destruct (staging s !! name) as [dir|] eqn:Hn; [|done]. destruct (snapshots s !! g) eqn:Hg; [done|].
  destruct Hs as [Hl Hsf Htf Hts Hti Hpn Hpub Hpp Hpw Hrd]. split; cbn; try done.
  - intros k i. rewrite lookup_insert_Some. intros [[_ <-]|[_ Hi%Hsf]]; [by eapply Htf|done].
  - intros n i [_ Hi]%lookup_delete_Some. by eapply Htf.
  - intros n k i [Hne Hi]%lookup_delete_Some. rewrite lookup_insert_Some.
    intros [[_ <-]|[_ Hk]]; [|by eapply Hts]. apply Hne. by eapply Hti.
  - intros n m i [_ Hi]%lookup_delete_Some [_ Hj]%lookup_delete_Some. by eapply Hti.
  - intros k i. rewrite lookup_insert_Some. intros [[<- _]|[_ Hk]]; [by eapply Hpp|by eapply Hpn].
  - rewrite Hpub, Hp. done.
  - intros r phase Hr%Hrd. assert (∀ d, was_published s d → d ≠ dir) as Hd.
    { intros d [_ H2] ->. by eapply H2. }
    assert (∀ n i, delete name (staging s) !! n = Some i → staging s !! n = Some i) as Hdel.
    { intros n i [_ Hi]%lookup_delete_Some. done. }
    destruct phase as [|k d|k d p|k d p|b k d p]; unfold reader_inv, was_published, pin_matches in *; cbn.
    + done.
    + split; [tauto|]. intros n Hi%Hdel. by eapply Hr.
    + destruct Hr as [[H1 H2] H3]. split; [split; [done|intros n Hi%Hdel; by eapply H2]|].
      rewrite lookup_insert_Some. intros [[_ <-]|[_ Hk]]; [by edestruct Hd|by apply H3].
    + destruct Hr as ([H1 H2] & H3 & H4). split_and!; [done|intros n Hi%Hdel; by eapply H2| |done].
      rewrite lookup_insert_Some. intros [[_ <-]|[_ Hk]]; [by edestruct Hd|by apply H3].
    + destruct Hr as (H1 & H2 & H3). split_and!; [|done..]. rewrite lookup_insert_ne; [done|congruence].
Qed.

Lemma remove_staging_inv n s : GcInv s → GcInv (remove_staging n s).
Proof.
  assert (∀ k i, delete n (staging s) !! k = Some i → staging s !! k = Some i) as Hd.
  { by intros k i [_ Hi]%lookup_delete_Some. }
  intros [Hl Hsf Htf Hts Hti Hpn Hpub Hpp Hpw Hrd]. split; cbn; try done; [naive_solver..|].
  intros r phase Hr%Hrd. destruct phase; unfold reader_inv, was_published in *; cbn; naive_solver.
Qed.

(** The pin file of a generation that has no directory and is not about to have one. *)
Lemma remove_pin_inv g s :
  snapshots s !! g = None → (∀ n, publisher s ≠ Some (PublishPinned g n)) → GcInv s →
  GcInv (remove_pin_file (pin_name g) s).
Proof.
  intros Hg Hnone Hs.
  assert (∀ k i, snapshots s !! k = Some i → delete (pin_name g) (pins s) !! pin_name k = pins s !! pin_name k) as Hk.
  { intros k i Hi. rewrite lookup_delete_ne; [done|]. intros ->%pin_name_inj. congruence. }
  destruct Hs as [Hl Hsf Htf Hts Hti Hpn Hpub Hpp Hpw Hrd]. split; cbn; try done.
  - intros k i Hi. rewrite (Hk k i Hi). eauto.
  - intros k n Hp. rewrite lookup_delete_ne; [eauto|]. intros ->%pin_name_inj. by eapply Hnone.
  - intros r phase Hr%Hrd. destruct phase as [|k d|k d p|k d p|b k d p]; unfold reader_inv, pin_matches in *; cbn.
    + done.
    + done.
    + destruct Hr as [? Hm]. split; [done|]. intros Hi. rewrite (Hk k d Hi). auto.
    + destruct Hr as (? & Hm & ?). split_and!; [done| |done]. intros Hi. rewrite (Hk k d Hi). auto.
    + destruct Hr as (Hi & Hm & ?). split_and!; [done| |done]. by rewrite (Hk k d Hi).
Qed.

Lemma publish_ending_inv n phase s :
  publisher s = Some phase → GcInv s → GcInv (set_publisher (Some (PublishEnding n)) s).
Proof. intros Hp []. split; cbn; try done. by rewrite inv_publisher0, Hp. Qed.

Lemma publish_unpin_inv s : GcInv s → GcInv (act PUnpin s).
Proof.
  intros Hs. cbn [act publisher_step]; unfold begin_publication. destruct (publisher s) as [[|g name|]|] eqn:Hp; try done.
  apply (remove_pin_inv g (set_publisher (Some (PublishEnding name)) s)); [|done|by eapply publish_ending_inv].
  exact (inv_publisher_new s Hs g name Hp).
Qed.

Lemma publish_clean_inv s : GcInv s → GcInv (act PClean s).
Proof.
  intros Hs. cbn [act publisher_step]; unfold begin_publication. destruct (publisher s) as [phase|] eqn:Hp; [|done].
  apply (remove_staging_inv (staging_name phase) (set_publisher (Some (PublishEnding (staging_name phase))) s)).
  by eapply publish_ending_inv.
Qed.

Lemma publish_end_inv s : GcInv s → GcInv (act PEnd s).
Proof.
  intros Hs. cbn [act publisher_step]; unfold begin_publication. destruct (publisher s) eqn:Hp; [|done].
  destruct Hs. by split; cbn.
Qed.

Lemma act_inv a s : GcInv s → GcInv (act a s).
Proof.
  destruct a; auto using reader_act_inv, publish_begin_inv, publish_pin_inv, publish_rename_inv, publish_unpin_inv,
    publish_clean_inv, publish_end_inv.
Qed.

Lemma run_actions_inv l s : GcInv s → GcInv (run_actions l s).
Proof. unfold run_actions. revert s. induction l as [|a l IH]; cbn; auto using act_inv. Qed.

(** ** While the collector holds the publication lock *)

Lemma no_publisher s : GcInv s → publication_lock s = ByCollector → publisher s = None.
Proof.
  intros Hs Hp. destruct (publisher s) eqn:E; [|done].
  assert (publication_lock s = ByPublisher) by (apply inv_publisher; [done|by rewrite E]). congruence.
Qed.

(** Directories and pins stay, and so do the collector's locks. *)
Record frozen (s t : Shared) : Prop := {
  frozen_snapshots : snapshots t = snapshots s;
  frozen_staging : staging t = staging s;
  frozen_pins : pins t = pins s;
  frozen_publication : publication_lock t = ByCollector;
  frozen_lock i : lock_of s i = ByCollector → lock_of t i = ByCollector;
}.

Lemma drop_pin_collector r pin s i :
  lock_of s i = ByCollector → lock_of (drop_pin r pin s) i = ByCollector.
Proof.
  unfold lock_of, drop_pin. cbn. intros Hi. destruct (decide (i = pin)) as [->|Hne].
  - rewrite lookup_insert_eq. cbn. unfold lock_of. by rewrite Hi.
  - by rewrite lookup_insert_ne.
Qed.

Lemma drop_reader_frozen r s :
  publication_lock s = ByCollector → frozen s (drop_reader r s).
Proof.
  intros Hp. unfold drop_reader. destruct (readers s !! r) as [phase|]; [|by split].
  destruct phase as [| | | |[]]; split; try done; intros i Hi; first [exact Hi|exact (drop_pin_collector r _ s i Hi)].
Qed.

Lemma act_frozen a s : GcInv s → publication_lock s = ByCollector → frozen s (act a s).
Proof.
  intros Hs Hp. pose proof (no_publisher s Hs Hp) as Hn.
  assert (frozen s s) as Hrefl by (by split).
  destruct a as [r|r g|r|r|r|r|r|r|g x| | | | |]; cbn [act publisher_step]; unfold begin_publication; rewrite ?Hn, ?Hp;
    repeat case_match; try done; try (by apply drop_reader_frozen); try (by split).
  split; try done. intros i Hi. unfold lock_of, set_phase, set_locks in *. cbn.
  destruct (decide (i = pin)) as [->|Hne]; [|by rewrite lookup_insert_ne].
  rewrite Hi in *. done.
Qed.

Lemma run_actions_frozen l s : GcInv s → publication_lock s = ByCollector → frozen s (run_actions l s).
Proof.
  unfold run_actions. revert s. induction l as [|a l IH]; intros s Hs Hp; cbn; [by split|].
  destruct (act_frozen a s Hs Hp) as [H1 H2 H3 H4 H5].
  destruct (IH (act a s) (act_inv a s Hs) H4) as [K1 K2 K3 K4 K5]. split; [congruence..|auto].
Qed.

(** ** Triples *)

Definition hoare {A} (P : Shared → Prop) (m : M Shared A) (Q : A → Shared → Prop) (E : Shared → Prop) : Prop :=
  ∀ w s, P s →
  match m (w, s) with
  | ((_, s'), Ok a) => Q a s'
  | ((_, s'), Err _) => E s'
  end.

Lemma hoare_bind {A B} P (m : M Shared A) (k : A → M Shared B) Q R E :
  hoare P m Q E → (∀ a, hoare (Q a) (k a) R E) → hoare P (a ← m; k a) R E.
Proof.
  intros Hm Hk w s Hs. unfold mbind, M_bind. specialize (Hm w s Hs).
  destruct (m (w, s)) as [[w' s'] [a|e]]; [|done]. by apply Hk.
Qed.

Lemma hoare_ret {A} (P : Shared → Prop) (a : A) Q E : (∀ s, P s → Q a s) → hoare P (mret a) Q E.
Proof. intros HQ w s Hs. by apply HQ. Qed.

Lemma hoare_fail {A} (P : Shared → Prop) e (Q : A → Shared → Prop) E : (∀ s, P s → E s) → hoare P (fail e) Q E.
Proof. intros HE w s Hs. by apply HE. Qed.

Lemma hoare_get (P : Shared → Prop) (E : Shared → Prop) : hoare P get (λ t s, t = s ∧ P s) E.
Proof. by intros w s Hs. Qed.

Lemma hoare_put (P : Shared → Prop) t (Q : unit → Shared → Prop) E : (∀ s, P s → Q tt t) → hoare P (put t) Q E.
Proof. intros HQ w s Hs. by apply (HQ s). Qed.

Lemma hoare_modify (P : Shared → Prop) f (Q : unit → Shared → Prop) E :
  (∀ s, P s → Q tt (f s)) → hoare P (modify f) Q E.
Proof. intros HQ w s Hs. by apply HQ. Qed.

Lemma hoare_lift {A} (P : Shared → Prop) (r : result A VectorIndexError) (Q : A → Shared → Prop) E :
  (∀ a s, r = Ok a → P s → Q a s) → (∀ s, P s → E s) → hoare P (lift r) Q E.
Proof. intros HQ HE w s Hs. cbn. destruct r; [by apply HQ|by apply HE]. Qed.

Lemma hoare_conseq {A} (P P' : Shared → Prop) (m : M Shared A) (Q Q' : A → Shared → Prop) (E E' : Shared → Prop) :
  hoare P' m Q' E' → (∀ s, P s → P' s) → (∀ a s, Q' a s → Q a s) → (∀ s, E' s → E s) → hoare P m Q E.
Proof.
  intros Hm HP HQ HE w s Hs. specialize (Hm w s (HP s Hs)).
  destruct (m (w, s)) as [[w' s'] [a|e]]; auto.
Qed.

Lemma hoare_pure {A} (φ : Prop) P (m : M Shared A) Q E : (φ → hoare P m Q E) → hoare (λ s, φ ∧ P s) m Q E.
Proof. intros Hm w s [Hφ Hs]. by apply Hm. Qed.

Lemma hoare_ex {A B} (P : B → Shared → Prop) (m : M Shared A) Q E :
  (∀ y, hoare (P y) m Q E) → hoare (λ s, ∃ y, P y s) m Q E.
Proof. intros Hm w s [y Hs]. by apply (Hm y). Qed.

(** What is stable under the moves of the others is stable under a call. *)
Definition stable_pred (P : Shared → Prop) : Prop :=
  (∀ l s, P s → P (run_actions l s)) ∧ (∀ l s, P s → P (set_turns l s)).

Lemma hoare_turn P E : stable_pred P → hoare P turn (λ _, P) E.
Proof.
  intros [Hact Hset] w s Hs. unfold turn, get, put, mbind, M_bind. cbn.
  destruct (turns s); cbn; auto.
Qed.

Lemma hoare_sys P E : hoare P sys (λ _, P) E.
Proof. intros w s Hs. unfold sys. by destruct (w_faults w). Qed.

Lemma hoare_call P : stable_pred P → hoare P call (λ _, P) P.
Proof.
  intros HP. eapply hoare_bind; [by apply hoare_turn|]. intros ?. eapply hoare_bind; [apply hoare_sys|].
  intros [[e n]|]; [by apply hoare_fail|by apply hoare_ret].
Qed.

Lemma hoare_calls P n : stable_pred P → hoare P (calls n) (λ _, P) P.
Proof.
  intros HP. induction n as [|n IH]; [by apply hoare_ret|].
  eapply hoare_bind; [by apply hoare_call|]. done.
Qed.

(** ** A collection in progress *)

Definition held (s : Shared) (c : GcCandidate) : Prop :=
  lock_of s (gc_pin c) = ByCollector ∧ pins s !! gc_pin_path c = Some (gc_pin c).

(** The collector has the publication lock and the pins of its candidates; directories
    and pin files are [X], [Y] and [Z]. *)
Record collecting (X Y Z : gmap str inode) (cands : list GcCandidate) (s : Shared) : Prop := {
  col_inv : GcInv s;
  col_publication : publication_lock s = ByCollector;
  col_snapshots : snapshots s = X;
  col_staging : staging s = Y;
  col_pins : pins s = Z;
  col_held c : c ∈ cands → held s c;
}.

(** The same directories without locks. *)
Record settled (X Y Z : gmap str inode) (s : Shared) : Prop := {
  set_inv : GcInv s;
  settled_snapshots : snapshots s = X;
  settled_staging : staging s = Y;
  settled_pins : pins s = Z;
}.

Lemma set_turns_inv l s : GcInv s → GcInv (set_turns l s).
Proof. intros []. by split. Qed.

Lemma stable_inv : stable_pred GcInv.
Proof. split; intros l s; [apply run_actions_inv|apply set_turns_inv]. Qed.

Lemma stable_collecting X Y Z cands : stable_pred (collecting X Y Z cands).
Proof.
  split; intros l s [H1 H2 H3 H4 H5 H6].
  - destruct (run_actions_frozen l s H1 H2) as [F1 F2 F3 F4 F5]. split; try congruence.
    + by apply run_actions_inv.
    + intros c Hc. destruct (H6 c Hc) as [Hl Hp]. split; [by apply F5|by rewrite F3].
  - split; try done. by apply set_turns_inv.
Qed.

(** Closing lock files changes no share. *)
Lemma release_pins_lock s i :
  lock_of (release_pins s) i = release (lock_of s i).
Proof. unfold lock_of, release_pins. cbn. rewrite lookup_fmap. by destruct (locks s !! i). Qed.

Lemma inv_same_shares s t :
  same_root s t → readers t = readers s → (∀ p q, shared_by s p q → shared_by t p q) → GcInv s → GcInv t.
Proof.
  intros Hsame Hrd Hsh Hs. apply (inv_same s); [done| |done]. intros r phase Hr. rewrite Hrd in Hr.
  apply (reader_inv_same s); [done|auto|]. by apply inv_readers.
Qed.

Lemma release_pins_shares s p q : shared_by s p q → shared_by (release_pins s) p q.
Proof. intros (h & Hl & Hq). exists h. by rewrite release_pins_lock, Hl. Qed.

Lemma release_pins_inv s : GcInv s → GcInv (release_pins s).
Proof. intros Hs. apply (inv_same_shares s); [by split_and!|done|apply release_pins_shares|done]. Qed.

Lemma release_root_inv s : GcInv s → GcInv (release_root s).
Proof. intros Hs. by apply (inv_same_shares s). Qed.

Lemma release_all_inv s : GcInv s → GcInv (release_all s).
Proof.
  intros Hs. apply (inv_same_shares s); [|done|apply release_pins_shares|done].
  split_and!; try done. cbn. by destruct (publication_lock s).
Qed.

Lemma collecting_settled X Y Z cands s : collecting X Y Z cands s → settled X Y Z (release_all s).
Proof. intros []. split; try done. by apply release_all_inv. Qed.

Lemma collecting_release_pins X Y Z cands s : collecting X Y Z cands s → collecting X Y Z [] (release_pins s).
Proof.
  intros []. split; try done; [by apply release_pins_inv|]. by intros c ?%elem_of_nil.
Qed.

Lemma collecting_release_root X Y Z cands s : collecting X Y Z cands s → collecting X Y Z cands (release_root s).
Proof. intros []. split; try done. by apply release_root_inv. Qed.

(** A reader never holds what the collector holds. *)
Lemma held_unread s c : GcInv s → held s c → ∀ r b dir pin,
  readers s !! r ≠ Some (Reading b (gc_generation c) dir pin).
Proof.
  intros Hs [Hl Hp] r b dir pin Hr. apply inv_readers in Hr as (_ & H2 & (h & Hh & _)); [|done].
  unfold gc_pin_path in Hp. congruence.
Qed.

(** Removing the directory of a candidate. *)
Lemma collecting_remove_snapshot X Y Z cands c s :
  c ∈ cands → collecting X Y Z cands s →
  collecting (delete (gc_generation c) X) Y Z cands (remove_snapshot (gc_generation c) s).
Proof.
  intros Hc [H1 H2 H3 H4 H5 H6]. split; try done; [|by rewrite <-H3].
  pose proof (held_unread s c H1 (H6 c Hc)) as Hun. set (g := gc_generation c) in *.
  assert (∀ k i, delete g (snapshots s) !! k = Some i → snapshots s !! k = Some i) as Hd.
  { by intros k i [_ Hi]%lookup_delete_Some. }
  destruct H1 as [Hl Hsf Htf Hts Hti Hpn Hpub Hpp Hpw Hrd]. split; cbn; try done.
  - intros k i Hi%Hd. eauto.
  - intros n k i Hn Hi%Hd. by eapply Hts.
  - intros k i Hi%Hd. eauto.
  - intros k n Hk%Hpw. apply lookup_delete_None. by right.
  - intros r phase Hr. specialize (Hrd r phase Hr).
    destruct phase as [|k d|k d p|k d p|b k d p]; unfold reader_inv, pin_matches in *; cbn.
    + done.
    + done.
    + naive_solver.
    + naive_solver.
    + assert (k ≠ g) by (intros ->; by eapply Hun). by rewrite lookup_delete_ne.
Qed.

Lemma collecting_remove_staging X Y Z cands n s :
  collecting X Y Z cands s → collecting X (delete n Y) Z cands (remove_staging n s).
Proof.
  intros [H1 H2 H3 H4 H5 H6]. split; try done; [by apply remove_staging_inv|by rewrite <-H4].
Qed.

(** Removing the pin file of a generation whose directory is gone. *)
Lemma collecting_remove_pin X Y Z g s :
  X !! g = None → collecting X Y Z [] s →
  collecting X Y (delete (pin_name g) Z) [] (remove_pin_file (pin_name g) s).
Proof.
  intros Hg [H1 H2 H3 H4 H5 H6]. split; try done; [|by rewrite <-H5|by intros c ?%elem_of_nil].
  apply remove_pin_inv; [by rewrite H3|by rewrite no_publisher|done].
Qed.

(** Taking a free pin. *)
Lemma collecting_lock_pin X Y Z cands g pin snap s :
  lock_is_free (lock_of s pin) = true → Z !! pin_name g = Some pin → collecting X Y Z cands s →
  collecting X Y Z (MkCandidate g snap pin :: cands) (set_locks (<[pin := ByCollector]> (locks s)) s).
Proof.
  intros Hfree Hz [H1 H2 H3 H4 H5 H6].
  assert (∀ p q, shared_by s p q → shared_by (set_locks (<[pin := ByCollector]> (locks s)) s) p q) as Hsh.
  { intros p q (h & Hh & Hq). exists h. split; [|done]. unfold lock_of. cbn.
    rewrite lookup_insert_ne; [done|]. intros <-. rewrite Hh in Hfree. cbn in Hfree. bools. set_solver. }
  split; try done; [by apply (inv_same_shares s)|].
  assert (∀ i, i = pin ∨ lock_of s i = ByCollector →
    lock_of (set_locks (<[pin := ByCollector]> (locks s)) s) i = ByCollector) as Hl.
  { intros i Hi. unfold lock_of in *. cbn. destruct (decide (i = pin)) as [->|Hne];
      [by rewrite lookup_insert_eq|rewrite lookup_insert_ne by done]. naive_solver. }
  intros c [->|Hc]%elem_of_cons; split; cbn.
  - apply Hl. by left.
  - by rewrite H5.
  - apply Hl. right. by apply H6.
  - by apply H6.
Qed.

(** ** Acquisition *)

Lemma hoare_releasing {A} P (m : M Shared A) Q (E E' : Shared → Prop) :
  hoare P m Q E → (∀ s, E s → E' (release_all s)) → hoare P (releasing_on_error m) Q E'.
Proof.
  intros Hm HE w s Hs. unfold releasing_on_error. specialize (Hm w s Hs).
  destruct (m (w, s)) as [[w' s'] [a|e]]; auto.
Qed.

(** The collector has the publication lock. *)
Definition acquired (s : Shared) : Prop := collecting (snapshots s) (staging s) (pins s) [] s.

Lemma acquired_iff s : acquired s ↔ GcInv s ∧ publication_lock s = ByCollector.
Proof. split; [by intros []|]. intros []. split; try done. by intros c ?%elem_of_nil. Qed.

Lemma stable_acquired : stable_pred acquired.
Proof.
  split; intros l s [H1 H2]%acquired_iff; apply acquired_iff.
  - split; [by apply run_actions_inv|]. by apply run_actions_frozen.
  - split; [by apply set_turns_inv|done].
Qed.

Lemma root_locked_inv s : GcInv s → GcInv (set_root_lock ByCollector s).
Proof. intros Hs. by apply (inv_same_shares s). Qed.

Lemma publication_locked_acquired s :
  GcInv s → lock_is_free (publication_lock s) = true → acquired (set_publication_lock ByCollector s).
Proof.
  intros Hs Hf. apply acquired_iff. split; [|done]. apply (inv_same_shares s); try done.
  split_and!; try done. cbn. split; [done|]. intros E. by rewrite E in Hf.
Qed.

Lemma try_acquire_sound : hoare GcInv try_acquire_snapshot_gc (λ b : bool, λ s, if b then acquired s else GcInv s) GcInv.
Proof.
  apply (hoare_releasing _ _ _ GcInv); [|apply release_all_inv].
  eapply hoare_bind; [apply hoare_calls, stable_inv|]. intros ?.
  apply (hoare_bind _ _ _ (λ _, GcInv)).
  { eapply hoare_bind; [apply hoare_call, stable_inv|]. intros ?.
    eapply hoare_bind; [apply hoare_get|]. intros t. 
    destruct (lock_is_free (root_lock t)).
    - eapply hoare_bind; [apply (hoare_put _ _ (λ _, GcInv)); intros s [<- Hs]; by apply root_locked_inv|].
      intros ?. by apply hoare_ret.
    - apply hoare_ret. by intros s [_ Hs]. }
  intros []; cbn [negb]; [|by apply hoare_ret].
  eapply hoare_bind; [apply hoare_call, stable_inv|]. intros ?.
  apply (hoare_bind _ _ _ (λ (b : bool) s, if b then acquired s else GcInv s)).
  { eapply hoare_bind; [apply hoare_call, stable_inv|]. intros ?.
    eapply hoare_bind; [apply hoare_get|]. intros t.
    destruct (lock_is_free (publication_lock t)) eqn:E.
    - eapply hoare_bind; [apply (hoare_put _ _ (λ _, acquired)); intros s [<- Hs]; by apply publication_locked_acquired|].
      intros ?. by apply hoare_ret.
    - apply hoare_ret. by intros s [_ Hs]. }
  intros []; cbn [negb].
  - apply (hoare_bind _ _ _ (λ _, acquired)); [|intros ?; by apply hoare_ret].
    eapply hoare_conseq; [apply hoare_calls, stable_acquired|done|done|]. by intros s [].
  - apply (hoare_bind _ _ _ (λ _, GcInv)); [|intros ?; by apply hoare_ret].
    apply hoare_modify. apply release_all_inv.
Qed.

(** ** Entries *)

Section collecting.
Variables (X Y Z : gmap str inode) (cands : list GcCandidate).
Abbreviation C := (collecting X Y Z cands).

Lemma hoare_C_call : hoare C call (λ _, C) C.
Proof. apply hoare_call, stable_collecting. Qed.

Lemma hoare_C_calls n : hoare C (calls n) (λ _, C) C.
Proof. apply hoare_calls, stable_collecting. Qed.

(** A call, then an answer that depends on the state. *)
Lemma hoare_C_read {A} (f : Shared → M Shared A) Q (E : Shared → Prop) :
  (∀ s, C s → E s) → (∀ t, C t → hoare (λ s, s = t) (f t) Q E) → hoare C (_ ← call; s ← get; f s) Q E.
Proof.
  intros HE Hf. eapply hoare_bind; [eapply hoare_conseq; [apply hoare_C_call|done|intros ? s Hs; exact Hs|done]|].
  intros ?. eapply hoare_bind; [apply hoare_get|]. intros t w s [-> Hs]. by apply (Hf s Hs).
Qed.

Lemma acquire_entry_sound ent W name :
  (∀ s, C s → ent s = W) →
  hoare C (acquire_entry ent name) (λ dir s, C s ∧ W !! name = Some dir) C.
Proof.
  intros Hent. apply hoare_C_read; [done|]. intros t Ht. rewrite (Hent t Ht).
  destruct (W !! name) as [dir|]; [apply hoare_ret|apply hoare_fail]; by intros s ->.
Qed.

Lemma validate_entry_sound ent name dir :
  hoare C (validate_entry ent name dir) (λ _ s, C s) C.
Proof.
  apply hoare_C_read; [done|]. intros t Ht.
  destruct (ent t !! name); [|by apply hoare_fail; intros s ->].
  destruct (bool_decide _); [by apply hoare_ret; intros s ->|by apply hoare_fail; intros s ->].
Qed.

Lemma open_pin_sound name : hoare C (open_pin name) (λ pin s, C s ∧ Z !! name = Some pin) C.
Proof.
  apply hoare_C_read; [done|]. intros t Ht. pose proof (col_pins _ _ _ _ _ Ht) as Hz.
  destruct (pins t !! name) as [pin|] eqn:E; [apply hoare_ret|apply hoare_fail]; intros s ->;
    [|done]. split; [done|]. by rewrite <-Hz.
Qed.

Lemma collect_entries_sound valid ent W names :
  (∀ s, C s → ent s = W) →
  hoare C (collect_entries valid ent names)
    (λ l s, C s ∧ l.*1 = names ∧ ∀ e, e ∈ l → W !! e.1 = Some e.2) C.
Proof.
  intros Hent. induction names as [|name names IH]; cbn [collect_entries].
  { apply hoare_ret. intros s Hs. split_and!; [done..|]. by intros e ?%elem_of_nil. }
  eapply hoare_bind; [apply hoare_C_call|]. intros ?.
  apply (hoare_bind _ _ _ (λ _, C)); [by apply hoare_lift|]. intros ?.
  eapply hoare_bind; [by apply acquire_entry_sound|]. intros dir w s [Hs Hd]. revert w s Hs.
  change (hoare C (rest ← collect_entries valid ent names; mret ((name, dir) :: rest))
    (λ l s, C s ∧ l.*1 = name :: names ∧ ∀ e, e ∈ l → W !! e.1 = Some e.2) C).
  eapply hoare_bind; [exact IH|]. intros rest. apply hoare_ret. intros s (Hs & Hn & Hr).
  split_and!; [done|by cbn; f_equal|]. intros e [->|He]%elem_of_cons; auto.
Qed.

Lemma collect_pins_sound names : ∀ entries,
  hoare C (collect_pins entries names)
    (λ l s, C s ∧ ∃ found, l = entries ++ found ∧ Forall2 (λ g n, pin_generation n = Ok g) found names) C.
Proof.
  induction names as [|name names IH]; intros entries; cbn [collect_pins].
  { apply hoare_ret. intros s Hs. split; [done|]. exists []. by rewrite app_nil_r. }
  eapply hoare_bind; [apply hoare_C_call|]. intros ?.
  apply (hoare_bind _ _ _ (λ g s, pin_generation name = Ok g ∧ C s)); [by apply hoare_lift|].
  intros g. apply hoare_pure. intros Hg.
  apply (hoare_bind _ _ _ (λ _, C)).
  { eapply hoare_conseq; [apply open_pin_sound|done| |done]. by intros ? s []. }
  intros ?. destruct (bool_decide _); [by apply hoare_fail|].
  eapply hoare_conseq; [apply IH|done| |done]. intros l s (Hs & found & -> & HF). split; [done|].
  exists (g :: found). rewrite <-app_assoc. split; [done|]. by constructor.
Qed.
End collecting.

(** ** Preparation *)

Lemma collecting_sub X Y Z cs cs' s : cs' ⊆ cs → collecting X Y Z cs s → collecting X Y Z cs' s.
Proof. intros Hsub []. split; auto. Qed.

(** Some pins are held. *)
Definition pinning (X Y Z : gmap str inode) (s : Shared) : Prop := ∃ cs, collecting X Y Z cs s.

Lemma pinning_settled X Y Z s : pinning X Y Z s → settled X Y Z (release_all s).
Proof. intros [cs Hs]. by eapply collecting_settled. Qed.

Lemma try_lock_pin_sound X Y Z cands g pin snap :
  Z !! pin_name g = Some pin →
  hoare (collecting X Y Z cands) (try_lock_pin pin)
    (λ b : bool, λ s, if b then collecting X Y Z (MkCandidate g snap pin :: cands) s else pinning X Y Z s)
    (pinning X Y Z).
Proof.
  intros Hpin. apply hoare_C_read; [by eexists|]. intros t Ht. destruct (lock_is_free (lock_of t pin)) eqn:E.
  - eapply hoare_bind; [|intros ?; apply hoare_ret; intros s Hs; exact Hs]. apply hoare_put.
    intros s _. by apply collecting_lock_pin.
  - apply hoare_ret. intros s ->. by eexists.
Qed.

Lemma pin_candidates_sound X Y Z entries targets : ∀ cands,
  hoare (collecting X Y Z cands) (pin_candidates entries targets)
    (λ o s, match o with
            | None => pinning X Y Z s
            | Some l => collecting X Y Z (l ++ cands) s
                        ∧ map (λ c, (gc_generation c, gc_snapshot c)) l = targets
            end) (pinning X Y Z).
Proof.
  induction targets as [|[g snap] targets IH]; intros cands; cbn [pin_candidates]; [by apply hoare_ret|].
  destruct (negb _); [apply hoare_fail; by eexists|].
  apply (hoare_bind _ _ _ (λ pin s, Z !! pin_name g = Some pin ∧ collecting X Y Z cands s)).
  { eapply hoare_conseq; [apply open_pin_sound|done|by intros ? s []|by eexists]. }
  intros pin. apply hoare_pure. intros Hpin.
  eapply hoare_bind; [by apply (try_lock_pin_sound X Y Z cands g pin snap)|].
  intros []; cbn [negb]; [|by apply hoare_ret].
  eapply hoare_bind; [apply IH|]. intros [l|]; apply hoare_ret; [|done]. intros s [Hs Hl].
  split; [|by cbn; rewrite Hl]. eapply collecting_sub; [|exact Hs]. set_solver.
Qed.

Lemma names_of_elem (m : gmap str inode) g : g ∈ names_of m ↔ is_Some (m !! g).
Proof.
  unfold names_of. rewrite list_elem_of_fmap. split.
  - intros ([k i] & -> & Hi%elem_of_map_to_list). eauto.
  - intros [i Hi]. exists (g, i). split; [done|]. by apply elem_of_map_to_list.
Qed.

Lemma pin_generation_name n g : pin_generation n = Ok g → n = pin_name g.
Proof.
  unfold pin_generation, strip_suffix. destruct (ends_with LOCK_SUFFIX n) eqn:E; [|done].
  apply ends_with_spec in E as [t ->]. rewrite length_app, Nat.add_sub, take_app_length.
  cbn [ok_or result_bind]. destruct (valid_entry t); [|done]. by intros [= <-].
Qed.

(** What a plan has to contain. *)
Record plan_ok (X Y Z : gmap str inode) (retained : list str) (plan : PreparedVectorSnapshotGc) : Prop := {
  plan_snapshot c i : c ∈ generation_candidates plan → gc_snapshot c = Some i →
    X !! gc_generation c = Some i ∧ gc_generation c ∉ retained;
  plan_unpublished c : c ∈ generation_candidates plan → gc_snapshot c = None → X !! gc_generation c = None;
  plan_generations g i : X !! g = Some i → g ∉ retained →
    ∃ c, c ∈ generation_candidates plan ∧ gc_generation c = g ∧ gc_snapshot c = Some i;
  plan_pins n : is_Some (Z !! n) →
    ∃ g, n = pin_name g ∧ (X !! g = None → ∃ c, c ∈ generation_candidates plan ∧ gc_generation c = g);
  plan_staging n i : Y !! n = Some i → (n, i) ∈ staging_candidates plan;
}.

Section preparation.
Variables (X Y Z : gmap str inode) (retained : list str).
Abbreviation C := (collecting X Y Z []).

(** A listed directory: its names, and their inodes. *)
Lemma listed_entries (W : gmap str inode) (l : list (str * inode)) :
  l.*1 = names_of W → (∀ e, e ∈ l → W !! e.1 = Some e.2) → ∀ g i, (g, i) ∈ l ↔ W !! g = Some i.
Proof.
  intros Hn Hl g i. split; [by intros ?%Hl|]. intros Hg.
  assert (g ∈ l.*1) as ([k j] & -> & He)%list_elem_of_fmap by (rewrite Hn; apply names_of_elem; eauto).
  pose proof (Hl _ He) as Hj. cbn in *. congruence.
Qed.

(** Reading the state only for a directory that does not change. *)
Lemma hoare_C_get {A} (f : Shared → M Shared A) (m : M Shared A) Q E :
  (∀ t, C t → f t = m) → hoare C m Q E → hoare C (s ← get; f s) Q E.
Proof.
  intros Hf Hm w s Hs. unfold mbind, M_bind, get. cbn. rewrite (Hf s Hs). by apply Hm.
Qed.

Lemma elem_of_sort_by {A} (c : A → A → comparison) (l : list A) x : x ∈ sort_by c l ↔ x ∈ l.
Proof. by rewrite sort_by_perm. Qed.

Lemma collect_generations_sound :
  hoare C (collect_generation_candidates retained)
    (λ r s, C s ∧ r.1 = names_of X ∧ ∀ g i, (g, i) ∈ r.2 ↔ X !! g = Some i ∧ g ∉ retained) C.
Proof.
  unfold collect_generation_candidates. eapply hoare_bind; [apply hoare_C_calls|]. intros ?.
  eapply hoare_C_get; [intros t Ht; rewrite (col_snapshots _ _ _ _ _ Ht); reflexivity|].
  eapply hoare_bind; [apply (collect_entries_sound X Y Z [] valid_entry snapshots X); by intros s []|].
  intros l. apply hoare_ret. intros s (Hs & Hn & Hl). split_and!; [done..|]. intros g i. cbn.
  rewrite elem_of_sort_by, list_elem_of_In, filter_In, <-list_elem_of_In, (listed_entries X l) by done.
  unfold retains. cbn. rewrite negb_true_iff, bool_decide_eq_false. done.
Qed.

Lemma collect_staging_sound :
  hoare C collect_staging_candidates (λ l s, C s ∧ ∀ n i, (n, i) ∈ l ↔ Y !! n = Some i) C.
Proof.
  unfold collect_staging_candidates. eapply hoare_bind; [apply hoare_C_calls|]. intros ?.
  eapply hoare_C_get; [intros t Ht; rewrite (col_staging _ _ _ _ _ Ht); reflexivity|].
  eapply hoare_bind; [apply (collect_entries_sound X Y Z [] validate_staging_name staging Y); by intros s []|].
  intros l. apply hoare_ret. intros s (Hs & Hn & Hl). split; [done|]. intros n i.
  by rewrite elem_of_sort_by, (listed_entries Y l).
Qed.

Lemma collect_pin_entries_sound :
  hoare C collect_generation_pins
    (λ l s, C s ∧ (∀ n, is_Some (Z !! n) → ∃ g, n = pin_name g ∧ g ∈ l)) C.
Proof.
  unfold collect_generation_pins. eapply hoare_bind; [apply hoare_C_calls|]. intros ?.
  eapply hoare_C_get; [intros t Ht; rewrite (col_pins _ _ _ _ _ Ht); reflexivity|].
  eapply hoare_bind; [apply collect_pins_sound|].
  intros l. apply hoare_ret. intros s (Hs & found & -> & HF). split; [done|].
  intros n Hn%names_of_elem. apply list_elem_of_lookup in Hn as [k Hk].
  eapply Forall2_lookup_r in HF as (g & Hg & Hp); [|exact Hk].
  exists g. split; [by apply pin_generation_name|]. apply elem_of_sort_by. by eapply list_elem_of_lookup_2.
Qed.

Lemma validate_snapshots_sound cands cs :
  hoare (collecting X Y Z cands) (validate_snapshots cs) (λ _, collecting X Y Z cands) (collecting X Y Z cands).
Proof.
  induction cs as [|c cs IH]; cbn; [by apply hoare_ret|].
  apply (hoare_bind _ _ _ (λ _, collecting X Y Z cands)); [|done].
  destruct (gc_snapshot c); [apply validate_entry_sound|by apply hoare_ret].
Qed.

Lemma validate_stagings_sound cands cs :
  hoare (collecting X Y Z cands) (validate_stagings cs) (λ _, collecting X Y Z cands) (collecting X Y Z cands).
Proof.
  induction cs as [|[n i] cs IH]; cbn; [by apply hoare_ret|].
  apply (hoare_bind _ _ _ (λ _, collecting X Y Z cands)); [apply validate_entry_sound|done].
Qed.

Lemma validate_identities_sound cands plan :
  hoare (collecting X Y Z cands) (validate_candidate_identities plan) (λ _, collecting X Y Z cands)
    (collecting X Y Z cands).
Proof. eapply hoare_bind; [apply validate_snapshots_sound|]. intros ?. apply validate_stagings_sound. Qed.

Lemma hoare_C_weaken {A} cands (m : M Shared A) (Q : A → Shared → Prop) :
  hoare (collecting X Y Z cands) m Q (collecting X Y Z cands) →
  hoare (collecting X Y Z cands) m Q (pinning X Y Z).
Proof. intros Hm. eapply hoare_conseq; [exact Hm|done|done|]. by eexists. Qed.

(** The plan made of the entries found. *)
Lemma plan_of_entries pinned found reclaim pin_entries :
  map (λ c, (gc_generation c, gc_snapshot c)) pinned
    = map (λ e, (e.1, Some e.2)) reclaim
      ++ map (λ g, (g, None)) (List.filter (λ g, negb (bool_decide (g ∈ names_of X))) pin_entries) →
  (∀ g i, (g, i) ∈ reclaim ↔ X !! g = Some i ∧ g ∉ retained) →
  (∀ n i, (n, i) ∈ found ↔ Y !! n = Some i) →
  (∀ n, is_Some (Z !! n) → ∃ g, n = pin_name g ∧ g ∈ pin_entries) →
  plan_ok X Y Z retained (MkPrepared pinned found).
Proof.
  intros Hmap Hre Hst Hpin.
  assert (∀ g sn, (∃ c, c ∈ pinned ∧ gc_generation c = g ∧ gc_snapshot c = sn) ↔
    (∃ i, sn = Some i ∧ (g, i) ∈ reclaim) ∨ (sn = None ∧ g ∈ pin_entries ∧ X !! g = None)) as Hc.
  { intros g sn. transitivity ((g, sn) ∈ map (λ c, (gc_generation c, gc_snapshot c)) pinned).
    - rewrite list_elem_of_In, in_map_iff. setoid_rewrite <-list_elem_of_In. naive_solver.
    - rewrite Hmap, elem_of_app, !list_elem_of_In, !in_map_iff. setoid_rewrite filter_In.
      setoid_rewrite <-list_elem_of_In. setoid_rewrite negb_true_iff. setoid_rewrite bool_decide_eq_false.
      setoid_rewrite names_of_elem. setoid_rewrite <-eq_None_not_Some.
      split; [|intros [(i & -> & Hi)|(-> & ? & ?)]; [left; by exists (g, i)|right; by exists g]].
      intros [([k i] & [= -> <-] & Hi)|(k & [= -> <-] & ? & ?)]; [left; eauto|right; done]. }
  split; cbn.
  - intros c i Hin Hs. apply Hre. destruct (proj1 (Hc (gc_generation c) (Some i))) as [(j & [= <-] & Hj)|[? _]];
      [eauto|done..].
  - intros c Hin Hs. destruct (proj1 (Hc (gc_generation c) None)) as [(j & ? & _)|(_ & _ & ?)]; [eauto|done..].
  - intros g i Hg Hr. apply Hc. left. exists i. split; [done|]. by apply Hre.
  - intros n Hn. destruct (Hpin n Hn) as (g & -> & Hg). exists g. split; [done|]. intros Hx.
    destruct (proj2 (Hc g None)) as (c & ? & ? & _); [by right|eauto].
  - intros n i. apply Hst.
Qed.

Lemma prepare_sound :
  hoare C (prepare_snapshot_gc retained)
    (λ p s, match p with
            | Deferred => settled X Y Z s
            | Prepared plan =>
                collecting X Y Z (generation_candidates plan) s ∧ plan_ok X Y Z retained plan
            end) (settled X Y Z).
Proof.
  apply (hoare_releasing _ _ _ (pinning X Y Z)); [|apply pinning_settled].
  eapply hoare_bind; [apply hoare_C_weaken, hoare_C_calls|]. intros ?.
  apply (hoare_bind _ _ _ (λ _, C)); [apply hoare_lift; [done|by eexists]|]. intros ?.
  eapply hoare_bind; [apply hoare_C_weaken, collect_generations_sound|]. intros [published reclaim].
  eapply hoare_conseq; [|intros s (Hs & Hp & Hr); exact (conj Hp (conj Hr Hs))|intros ? s Hs; exact Hs|done].
  apply hoare_pure. cbn [fst snd]. intros ->. apply hoare_pure. intros Hre.
  eapply hoare_bind; [apply hoare_C_weaken, collect_staging_sound|]. intros found.
  eapply hoare_conseq; [|intros s (Hs & Hf); exact (conj Hf Hs)|intros ? s Hs; exact Hs|done].
  apply hoare_pure. intros Hst.
  eapply hoare_bind; [apply hoare_C_weaken, collect_pin_entries_sound|]. intros pin_entries.
  eapply hoare_conseq; [|intros s (Hs & Hf); exact (conj Hf Hs)|intros ? s Hs; exact Hs|done].
  apply hoare_pure. intros Hpin.
  destruct (existsb _ _); [apply hoare_fail; by eexists|].
  eapply hoare_bind; [apply pin_candidates_sound|]. intros [pinned|].
  - eapply hoare_conseq; [|intros s [Hs Hm]; rewrite app_nil_r in Hs; exact (conj Hm Hs)|intros ? s Hs; exact Hs|done].
    apply hoare_pure. intros Hm.
    eapply hoare_bind; [apply hoare_C_weaken, hoare_C_calls|]. intros ?.
    eapply hoare_bind; [apply hoare_C_weaken, validate_identities_sound|]. intros ?.
    apply (hoare_bind _ _ _ (λ _, collecting X Y Z pinned)); [apply hoare_modify, collecting_release_root|].
    intros ?. apply hoare_ret. intros s Hs. split; [done|]. by eapply plan_of_entries.
  - apply (hoare_bind _ _ _ (λ _, settled X Y Z)); [apply hoare_modify, pinning_settled|].
    intros ?. by apply hoare_ret.
Qed.
End preparation.

(** ** Commit *)

Lemma hoare_unless_cancelled (P : Shared → Prop) progress k Q E :
  hoare P k Q E → (∀ s, P s → Q (Interrupted progress) s) → hoare P (unless_cancelled progress k) Q E.
Proof.
  intros Hk HI w s Hs. unfold unless_cancelled, cancel_check, mbind, M_bind.
  destruct (w_cancel w) as [|[] rest]; [by apply Hk|by apply HI|by apply Hk].
Qed.

Lemma hoare_or_partial {A} plan (P : Shared → Prop) progress phase (m : M Shared A) k R E Q F :
  hoare P m R E → (∀ a, hoare (R a) (k a) Q F) →
  (∀ e s, E s → Q (partial_report plan progress phase e) s) →
  hoare P (or_partial plan progress phase m k) Q F.
Proof.
  intros Hm Hk HE w s Hs. unfold or_partial. specialize (Hm w s Hs).
  destruct (m (w, s)) as [[w' s'] [a|e]]; [by apply Hk|by apply HE].
Qed.

Lemma hoare_remove (P P' : Shared → Prop) f :
  stable_pred P → (∀ s, P s → P' (f s)) → hoare P (remove_entry f) (λ _, P') (λ s, P s ∨ P' s).
Proof.
  intros HP Hf. eapply hoare_bind; [by apply hoare_turn|]. intros ?.
  eapply hoare_bind; [apply hoare_sys|]. intros [[e [|n]]|].
  - apply hoare_fail. by left.
  - apply (hoare_bind _ _ _ (λ _, P')); [by apply hoare_modify|]. intros ?. apply hoare_fail. by right.
  - by apply hoare_modify.
Qed.

Lemma hoare_sync (P : Shared → Prop) : stable_pred P → hoare P sync_directory (λ _, P) P.
Proof.
  intros HP w s Hs. unfold sync_directory. pose proof (hoare_call P HP w s Hs) as Hc.
  by destruct (call (w, s)) as [[w' s'] [a|e]].
Qed.

(** [X'] is [X] without the names listed. *)
Definition without (names : list str) (X X' : gmap str inode) : Prop :=
  ∀ g, X' !! g = if bool_decide (g ∈ names) then None else X !! g.

Lemma without_nil X : without [] X X.
Proof. intros g. by rewrite bool_decide_false by apply not_elem_of_nil. Qed.

Lemma without_cons n names X X' : without names (delete n X) X' → without (n :: names) X X'.
Proof.
  intros Hw g. rewrite Hw. destruct (decide (g = n)) as [->|Hne].
  - rewrite lookup_delete_eq, (bool_decide_true (n ∈ n :: names)) by left. by case_bool_decide.
  - rewrite lookup_delete_ne by done.
    rewrite (bool_decide_ext (g ∈ names) (g ∈ n :: names)) by set_solver. done.
Qed.

Section committing.
Variables (X Y Z : gmap str inode) (retained : list str) (plan : PreparedVectorSnapshotGc).
Hypothesis Hplan : plan_ok X Y Z retained plan.
Abbreviation cands := (generation_candidates plan).

(** What is left of the directories and pins at any point of a commit. *)
Record spared (X1 Z1 : gmap str inode) : Prop := {
  spared_sub : X1 ⊆ X;
  spared_retained g : g ∈ retained → X1 !! g = X !! g;
  spared_pins g : g ∈ retained → is_Some (X !! g) → Z1 !! pin_name g = Z !! pin_name g;
}.

Definition working (s : Shared) : Prop :=
  ∃ X1 Y1 Z1 cs, spared X1 Z1 ∧ collecting X1 Y1 Z1 cs s.

(** Everything of the plan is gone. *)
Definition reclaimed (s : Shared) : Prop :=
  (∀ g i, snapshots s !! g = Some i ↔ X !! g = Some i ∧ g ∈ retained)
  ∧ staging s = ∅
  ∧ (∀ n, is_Some (pins s !! n) → ∃ g, n = pin_name g ∧ g ∈ retained ∧ is_Some (X !! g)).

Definition committed (r : VectorSnapshotGcCommitReport) (s : Shared) : Prop :=
  working s ∧ ∀ summary, r = Complete summary → reclaimed s.

Lemma committed_early r s : working s → (∀ summary, r ≠ Complete summary) → committed r s.
Proof. intros Hw Hr. split; [done|]. by intros summary ?%Hr. Qed.

Lemma spared_delete X1 Z1 c i :
  c ∈ cands → gc_snapshot c = Some i → spared X1 Z1 → spared (delete (gc_generation c) X1) Z1.
Proof using Hplan.
  intros Hc Hi [H1 H2 H3]. destruct (plan_snapshot _ _ _ _ _ Hplan c i Hc Hi) as [_ Hr]. split; [|..|done].
  - etrans; [apply delete_subseteq|done].
  - intros g Hg. rewrite lookup_delete_ne; [auto|]. by intros <-.
Qed.

Lemma spared_delete_pin X1 Z1 c :
  c ∈ cands → spared X1 Z1 → spared X1 (delete (gc_pin_path c) Z1).
Proof using Hplan.
  intros Hc [H1 H2 H3]. split; [done..|]. intros g Hg Hx. rewrite lookup_delete_ne; [auto|].
  intros <-%pin_name_inj. destruct (gc_snapshot c) as [i|] eqn:Hi.
  - by destruct (plan_snapshot _ _ _ _ _ Hplan c i Hc Hi).
  - rewrite (plan_unpublished _ _ _ _ _ Hplan c Hc Hi) in Hx. by destruct Hx.
Qed.

Lemma working_intro X1 Y1 Z1 cs s : collecting X1 Y1 Z1 cs s → spared X1 Z1 → working s.
Proof. intros. by exists X1, Y1, Z1, cs. Qed.

(** A return before the end. *)
Ltac early :=
  cbv beta; intros;
  repeat match goal with H : _ ∨ _ |- _ => destruct H end;
  (apply committed_early; [eapply working_intro; [eassumption|auto using spared_delete_pin]|done]).

Lemma remove_generations_sound cs : ∀ X1 progress k,
  cs ⊆ cands → spared X1 Z →
  (∀ X2 progress', spared X2 Z → without (map gc_generation (List.filter has_snapshot cs)) X1 X2 →
     hoare (collecting X2 Y Z cands) (k progress') committed (λ _, False)) →
  hoare (collecting X1 Y Z cands) (remove_generations plan progress cs k) committed (λ _, False).
Proof using Hplan.
  induction cs as [|c cs IH]; intros X1 progress k Hsub Hsp Hk; cbn [remove_generations].
  { apply Hk; [done|apply without_nil]. }
  cbn [List.filter] in Hk. unfold has_snapshot at 1 in Hk.
  destruct (gc_snapshot c) as [i|] eqn:Hi.
  - assert (c ∈ cands) as Hc by set_solver.
    pose proof (spared_delete X1 Z c i Hc Hi Hsp) as Hsp'.
    rewrite bool_decide_true in Hk by done. cbn [map] in Hk.
    apply hoare_unless_cancelled; [|early].
    eapply hoare_or_partial; [apply validate_entry_sound| |early]. intros ?.
    eapply hoare_or_partial;
      [apply (hoare_remove _ (collecting (delete (gc_generation c) X1) Y Z cands));
         [apply stable_collecting|intros s Hs; by apply collecting_remove_snapshot]| |].
    + intros ?. apply IH; [set_solver|done|]. intros X2 progress' H2 Hw. apply Hk; [done|by apply without_cons].
    + early.
  - rewrite bool_decide_false in Hk by (by intros []). apply IH; [set_solver|done|done].
Qed.

Lemma remove_stagings_sound X1 cs : ∀ Y1 progress k,
  spared X1 Z →
  (∀ Y2 progress', without cs.*1 Y1 Y2 → hoare (collecting X1 Y2 Z cands) (k progress') committed (λ _, False)) →
  hoare (collecting X1 Y1 Z cands) (remove_stagings plan progress cs k) committed (λ _, False).
Proof using Hplan.
  induction cs as [|[n i] cs IH]; intros Y1 progress k Hsp Hk; cbn [remove_stagings].
  { apply Hk, without_nil. }
  apply hoare_unless_cancelled; [|early].
  eapply hoare_or_partial; [apply validate_entry_sound| |early]. intros ?.
  eapply hoare_or_partial;
    [apply (hoare_remove _ (collecting X1 (delete n Y1) Z cands));
       [apply stable_collecting|apply collecting_remove_staging]| |].
  + intros ?. apply IH; [done|]. intros Y2 progress' Hw. apply Hk. by apply without_cons.
  + early.
Qed.

Lemma remove_pins_sound X1 Y1 cs : ∀ Z1 progress k,
  cs ⊆ cands → (∀ c, c ∈ cands → X1 !! gc_generation c = None) → spared X1 Z1 →
  (∀ Z2 progress', spared X1 Z2 → without (map gc_pin_path cs) Z1 Z2 →
     hoare (collecting X1 Y1 Z2 []) (k progress') committed (λ _, False)) →
  hoare (collecting X1 Y1 Z1 []) (remove_pins plan progress (map gc_pin_path cs) k) committed (λ _, False).
Proof using Hplan.
  induction cs as [|c cs IH]; intros Z1 progress k Hsub Hgone Hsp Hk; cbn [remove_pins map].
  { apply Hk; [done|apply without_nil]. }
  assert (c ∈ cands) as Hc by set_solver.
  apply hoare_unless_cancelled; [|early].
  eapply hoare_or_partial;
    [apply (hoare_remove _ (collecting X1 Y1 (delete (gc_pin_path c) Z1) []));
       [apply stable_collecting|intros s Hs; apply collecting_remove_pin; auto]| |].
  + intros ?. apply IH; [set_solver|done|by apply spared_delete_pin|].
    intros Z2 progress' H2 Hw. apply Hk; [done|by apply without_cons].
  + early.
Qed.

(** The directories once all candidates are removed. *)
Definition emptied (X1 : gmap str inode) : Prop :=
  ∀ g i, X1 !! g = Some i ↔ X !! g = Some i ∧ g ∈ retained.

Lemma emptied_gone X1 : emptied X1 → ∀ c, c ∈ cands → X1 !! gc_generation c = None.
Proof using Hplan.
  intros HX c Hc. apply eq_None_not_Some. intros [i [Hi Hr]%HX]. destruct (gc_snapshot c) as [j|] eqn:E.
  - by destruct (plan_snapshot _ _ _ _ _ Hplan c j Hc E).
  - by rewrite (plan_unpublished _ _ _ _ _ Hplan c Hc E) in Hi.
Qed.

Lemma without_emptied X1 : without (map gc_generation (List.filter has_snapshot cands)) X X1 → emptied X1.
Proof using Hplan.
  intros Hw g i. rewrite Hw. destruct (bool_decide_reflect (g ∈ map gc_generation (List.filter has_snapshot cands))) as [Hin|Hin].
  - split; [done|]. intros [_ Hr]. apply list_elem_of_In, in_map_iff in Hin as (c & <- & [Hc Hs]%filter_In).
    unfold has_snapshot in Hs. bools. destruct Hs as [j Hj]. apply list_elem_of_In in Hc.
    by destruct (plan_snapshot _ _ _ _ _ Hplan c j Hc Hj).
  - split; [|by intros []]. intros Hg. split; [done|]. destruct (decide (g ∈ retained)) as [|Hr]; [done|].
    destruct (plan_generations _ _ _ _ _ Hplan g i Hg Hr) as (c & Hc & <- & Hs). destruct Hin.
    apply list_elem_of_In, in_map_iff. exists c. split; [done|]. apply filter_In.
    split; [by apply list_elem_of_In|]. unfold has_snapshot. rewrite Hs. by apply bool_decide_eq_true.
Qed.

Lemma without_staging Y1 : without (staging_candidates plan).*1 Y Y1 → Y1 = ∅.
Proof using Hplan.
  intros Hw. apply map_empty. intros n. rewrite Hw. case_bool_decide as Hin; [done|].
  apply eq_None_not_Some. intros [i Hi%(plan_staging _ _ _ _ _ Hplan)]. destruct Hin.
  apply list_elem_of_fmap. by exists (n, i).
Qed.

Lemma reclaimed_collected X1 Z1 s :
  emptied X1 → without (map gc_pin_path cands) Z Z1 → collecting X1 ∅ Z1 [] s → reclaimed s.
Proof using Hplan.
  intros HX Hw [H1 H2 H3 H4 H5 _]. rewrite <-H3 in HX. split_and!; [done|done|].
  intros n Hn. rewrite H5, Hw in Hn. case_bool_decide as Hin; [by destruct Hn|].
  destruct (plan_pins _ _ _ _ _ Hplan n Hn) as (g & -> & Hg). exists g. split; [done|].
  assert (¬ ∃ c, c ∈ cands ∧ gc_generation c = g) as Hno.
  { intros (c & Hc & <-). destruct Hin. apply list_elem_of_In, in_map_iff. exists c.
    split; [done|by apply list_elem_of_In]. }
  destruct (X !! g) as [i|] eqn:E; [|by destruct Hno; apply Hg].
  split; [|done]. destruct (decide (g ∈ retained)) as [|Hr]; [done|]. destruct Hno.
  destruct (plan_generations _ _ _ _ _ Hplan g i E Hr) as (c & ? & ? & _). by exists c.
Qed.

Lemma commit_pins_sound X1 progress :
  emptied X1 → spared X1 Z → hoare (collecting X1 ∅ Z cands) (commit_pins plan progress) committed (λ _, False).
Proof using Hplan.
  intros HX Hsp. unfold commit_pins.
  apply (hoare_bind _ _ _ (λ _, collecting X1 ∅ Z [])); [apply hoare_modify, collecting_release_pins|]. intros ?.
  apply remove_pins_sound; [done|by apply emptied_gone|done|]. intros Z2 p H2 Hw. cbv zeta.
  assert (hoare (collecting X1 ∅ Z2 [])
    (unless_cancelled p (or_partial plan p FinalValidation (calls 4) (λ _, mret (Complete p)))) committed (λ _, False))
    as Hfinal.
  { apply hoare_unless_cancelled; [|early]. eapply hoare_or_partial; [apply hoare_C_calls| |early].
    intros ?. apply hoare_ret. intros s Hs. split; [by eapply working_intro|].
    intros ? _. by eapply reclaimed_collected. }
  destruct (negb _); [|done]. apply hoare_unless_cancelled; [|early].
  eapply hoare_or_partial; [apply hoare_sync, stable_collecting|done|early].
Qed.

Lemma commit_durability_sound X1 progress :
  emptied X1 → spared X1 Z → hoare (collecting X1 ∅ Z cands) (commit_durability plan progress) committed (λ _, False).
Proof using Hplan.
  intros HX Hsp. unfold commit_durability. apply hoare_unless_cancelled; [|early]. cbv zeta.
  assert (hoare (collecting X1 ∅ Z cands)
    (if negb (removed_staging progress =? 0)
     then unless_cancelled progress
            (or_partial plan progress StagingDurability sync_directory (λ _, commit_pins plan progress))
     else commit_pins plan progress) committed (λ _, False)) as Hstaging.
  { destruct (negb _); [|by apply commit_pins_sound]. apply hoare_unless_cancelled; [|early].
    eapply hoare_or_partial; [apply hoare_sync, stable_collecting|intros ?; by apply commit_pins_sound|early]. }
  destruct (negb (removed_generations _ =? 0)); [|done].
  eapply hoare_or_partial; [apply hoare_sync, stable_collecting|done|early].
Qed.

Lemma spared_all : spared X Z.
Proof. by split. Qed.

Lemma commit_body_sound : hoare (collecting X Y Z cands) (commit_body plan) committed (λ _, False).
Proof using Hplan.
  pose proof spared_all as Hsp. unfold commit_body. cbv zeta. apply hoare_unless_cancelled; [|early].
  eapply (hoare_or_partial _ _ _ _ _ _ (λ _, collecting X Y Z cands) (collecting X Y Z cands)); [| |early].
  { eapply hoare_bind; [apply hoare_C_calls|]. intros ?. apply validate_identities_sound. }
  intros ?. apply remove_generations_sound; [done..|]. intros X2 p H2 Hw.
  apply remove_stagings_sound; [done|]. intros Y2 p' ->%without_staging.
  apply commit_durability_sound; [by apply without_emptied|done].
Qed.

(** The root after a commit. *)
Definition kept (s : Shared) : Prop :=
  GcInv s ∧ spared (snapshots s) (pins s).

Lemma commit_sound :
  hoare (collecting X Y Z cands) (commit_snapshot_gc plan)
    (λ r s, kept s ∧ ∀ summary, r = Complete summary → reclaimed s) (λ _, False).
Proof using Hplan.
  eapply hoare_bind; [apply commit_body_sound|]. intros r.
  apply (hoare_bind _ _ _ (λ _ s, kept s ∧ ∀ summary, r = Complete summary → reclaimed s)).
  - apply hoare_modify. intros s [(X1 & Y1 & Z1 & cs & Hsp & Hs) Hr]. split; [|done].
    destruct (collecting_settled _ _ _ _ _ Hs) as [H1 <- _ <-]. by split.
  - intros ?. by apply hoare_ret.
Qed.
End committing.

(** ** Retirement *)

Section retirement.
Variables (X Y Z : gmap str inode) (g : str).
Abbreviation C := (collecting X Y Z []).

(** Only the generation's own directories and pin are touched. *)
Definition confined (X1 Y1 Z1 : gmap str inode) : Prop :=
  (∀ h, h ≠ g → X1 !! h = X !! h)
  ∧ (∀ n, staging_generation n ≠ Ok g → Y1 !! n = Y !! n)
  ∧ (∀ n, n ≠ pin_name g → Z1 !! n = Z !! n).

Definition retiring (s : Shared) : Prop :=
  ∃ X1 Y1 Z1 cs, confined X1 Y1 Z1 ∧ collecting X1 Y1 Z1 cs s.

Definition absent (s : Shared) : Prop :=
  snapshots s !! g = None ∧ pins s !! pin_name g = None
  ∧ ∀ n, staging_generation n = Ok g → staging s !! n = None.

Definition retirement_post (r : VectorGenerationRetirement) (s : Shared) : Prop :=
  retiring s ∧ (r ≠ RetirementDeferred → absent s).

Lemma confined_all : confined X Y Z.
Proof. done. Qed.

Lemma retiring_intro X1 Y1 Z1 cs s : collecting X1 Y1 Z1 cs s → confined X1 Y1 Z1 → retiring s.
Proof. intros. by exists X1, Y1, Z1, cs. Qed.

Lemma pinning_retiring s : pinning X Y Z s → retiring s.
Proof. intros [cs Hs]. eapply retiring_intro; [done|apply confined_all]. Qed.

Lemma acquire_optional_sound : hoare C (acquire_optional_generation g) (λ o s, o = X !! g ∧ C s) C.
Proof.
  apply hoare_C_read; [done|]. intros t Ht. rewrite (col_snapshots _ _ _ _ _ Ht).
  destruct (X !! g) as [dir|] eqn:E; [|by apply hoare_ret; intros s ->].
  eapply hoare_bind.
  - eapply hoare_conseq; [apply (acquire_entry_sound X Y Z [] snapshots X); by intros s []|by intros s ->| |done].
    intros a s Hs. exact Hs.
  - intros a. apply hoare_ret. intros s [Hs Ha]. by rewrite E in Ha.
Qed.

Lemma collect_exact_sound names :
  hoare C (collect_exact g names)
    (λ l s, (∀ n, n ∈ l.*1 ↔ n ∈ names ∧ staging_generation n = Ok g) ∧ C s) C.
Proof.
  induction names as [|n names IH]; cbn [collect_exact].
  { apply hoare_ret. intros s Hs. split; [|done]. intros n. cbn. set_solver. }
  eapply hoare_bind; [apply hoare_C_call|]. intros ?.
  apply (hoare_bind _ _ _ (λ owner s, staging_generation n = Ok owner ∧ C s)); [by apply hoare_lift|].
  intros owner. apply hoare_pure. intros Ho. destruct (str_eqb owner g) eqn:E.
  - apply str_eqb_eq in E as ->.
    apply (hoare_bind _ _ _ (λ _, C)).
    { eapply hoare_conseq; [apply (acquire_entry_sound X Y Z [] staging Y); by intros s []|done|by intros ? s []|done]. }
    intros dir. eapply hoare_bind; [exact IH|]. intros l. apply hoare_ret. intros s [Hl Hs].
    split; [|done]. intros m. cbn. rewrite !elem_of_cons, Hl. naive_solver.
  - eapply hoare_conseq; [exact IH|done| |done]. intros l s [Hl Hs]. split; [|done].
    intros m. rewrite Hl, elem_of_cons. split; [naive_solver|]. intros [[->|Hm] Hg]; [|done].
    rewrite Ho in Hg. injection Hg as ->.
    by rewrite (proj2 (str_eqb_eq g g) eq_refl) in E.
Qed.

Lemma collect_exact_candidates_sound :
  hoare C (collect_exact_staging_candidates g)
    (λ l s, (∀ n, n ∈ l.*1 ↔ is_Some (Y !! n) ∧ staging_generation n = Ok g) ∧ C s) C.
Proof.
  apply hoare_C_read; [done|]. intros t Ht. rewrite (col_staging _ _ _ _ _ Ht).
  eapply hoare_bind; [eapply hoare_conseq; [apply collect_exact_sound|by intros s ->|intros ? s Hs; exact Hs|done]|].
  intros l. apply hoare_ret. intros s [Hl Hs]. split; [|done]. intros n.
  rewrite sort_by_perm, Hl, names_of_elem. done.
Qed.

Definition pin_list (snapshot pin : option inode) : list GcCandidate :=
  match pin with Some p => [MkCandidate g snapshot p] | None => [] end.

Lemma pin_target_sound snapshot :
  hoare C (pin_target g)
    (λ o s, match o with
            | None => pinning X Y Z s
            | Some pin => Z !! pin_name g = pin ∧ collecting X Y Z (pin_list snapshot pin) s
            end) (pinning X Y Z).
Proof.
  apply hoare_C_read; [by eexists|]. intros t Ht. pose proof (col_pins _ _ _ _ _ Ht) as Hz.
  rewrite Hz. destruct (Z !! pin_name g) as [i|] eqn:E; [|by apply hoare_ret; intros s ->].
  apply (hoare_bind _ _ _ (λ pin s, Z !! pin_name g = Some pin ∧ C s)).
  { eapply hoare_conseq; [apply open_pin_sound|by intros s ->|by intros ? s []|by eexists]. }
  intros pin. apply hoare_pure. intros Hpin.
  eapply hoare_bind; [by apply (try_lock_pin_sound X Y Z [] g pin snapshot)|].
  intros []; apply hoare_ret; [|done]. intros s Hs. split; [congruence|done].
Qed.

Lemma hoare_retiring {A} X1 Y1 Z1 cs (m : M Shared A) (Q : A → Shared → Prop) :
  confined X1 Y1 Z1 → hoare (collecting X1 Y1 Z1 cs) m Q (collecting X1 Y1 Z1 cs) →
  hoare (collecting X1 Y1 Z1 cs) m Q retiring.
Proof.
  intros Hc Hm. eapply hoare_conseq; [exact Hm|done|done|]. intros s Hs. by eapply retiring_intro.
Qed.

(** One removal: the entry may be gone when it fails. *)
Lemma hoare_retire_remove X1 Y1 Z1 X2 Y2 Z2 cs f :
  confined X1 Y1 Z1 → confined X2 Y2 Z2 →
  (∀ s, collecting X1 Y1 Z1 cs s → collecting X2 Y2 Z2 cs (f s)) →
  hoare (collecting X1 Y1 Z1 cs) (remove_entry f) (λ _, collecting X2 Y2 Z2 cs) retiring.
Proof.
  intros H1 H2 Hf. eapply hoare_conseq; [by apply hoare_remove, Hf; apply stable_collecting|done|done|].
  intros s [Hs|Hs]; by eapply retiring_intro.
Qed.

Lemma confined_snapshot X1 Y1 Z1 : confined X1 Y1 Z1 → confined (delete g X1) Y1 Z1.
Proof. intros (H1 & H2 & H3). split_and!; [|done..]. intros h Hh. rewrite lookup_delete_ne; auto. Qed.

Lemma confined_staging X1 Y1 Z1 n : staging_generation n = Ok g → confined X1 Y1 Z1 → confined X1 (delete n Y1) Z1.
Proof.
  intros Hn (H1 & H2 & H3). split_and!; [done| |done]. intros m Hm. rewrite lookup_delete_ne; [auto|].
  by intros <-.
Qed.

Lemma confined_pin X1 Y1 Z1 : confined X1 Y1 Z1 → confined X1 Y1 (delete (pin_name g) Z1).
Proof. intros (H1 & H2 & H3). split_and!; [done..|]. intros n Hn. rewrite lookup_delete_ne; auto. Qed.

Lemma retire_stagings_sound X1 Z1 cs found : ∀ Y1,
  (∀ n, n ∈ found.*1 → staging_generation n = Ok g) → confined X1 Y1 Z1 →
  hoare (collecting X1 Y1 Z1 cs) (retire_stagings found)
    (λ _ s, ∃ Y2, confined X1 Y2 Z1 ∧ without found.*1 Y1 Y2 ∧ collecting X1 Y2 Z1 cs s) retiring.
Proof.
  induction found as [|[n i] found IH]; intros Y1 Hn Hc; cbn [retire_stagings].
  { apply hoare_ret. intros s Hs. exists Y1. split_and!; [done|apply without_nil|done]. }
  assert (confined X1 (delete n Y1) Z1) as Hc'.
  { apply confined_staging; [apply Hn; cbn; set_solver|done]. }
  eapply hoare_bind; [apply hoare_retiring, validate_entry_sound; done|]. intros ?.
  eapply hoare_bind; [apply (hoare_retire_remove _ _ _ X1 (delete n Y1) Z1); [done..|apply collecting_remove_staging]|].
  intros ?. eapply hoare_conseq; [apply IH; [|done]|done| |done].
  - intros m Hm. apply Hn. cbn. set_solver.
  - intros ? s (Y2 & H2 & Hw & Hs). exists Y2. split_and!; [done| |done]. cbn. by apply without_cons.
Qed.

(** The generation's directory is gone after the first removal. *)
Lemma retire_snapshot_sound pin :
  (is_Some (X !! g) → is_Some pin) →
  hoare (collecting X Y Z (pin_list (X !! g) pin))
    (when (X !! g) (λ dir,
       _ ← validate_entry snapshots g dir;
       _ ← remove_entry (remove_snapshot g);
       sync_directory))
    (λ _, collecting (delete g X) Y Z (pin_list (X !! g) pin)) retiring.
Proof.
  intros Hpin. destruct (X !! g) as [dir|] eqn:E; cbn [when].
  - destruct pin as [p|]; [|by destruct Hpin]. cbn [pin_list].
    eapply hoare_bind; [apply hoare_retiring, validate_entry_sound; apply confined_all|]. intros ?.
    eapply hoare_bind; [apply (hoare_retire_remove _ _ _ (delete g X) Y Z);
      [apply confined_all|apply confined_snapshot, confined_all|]|].
    { intros s Hs. apply (collecting_remove_snapshot X Y Z [MkCandidate g (Some dir) p] (MkCandidate g (Some dir) p) s);
        [by left|done]. }
    intros ?. apply hoare_retiring; [apply confined_snapshot, confined_all|]. apply hoare_sync, stable_collecting.
  - rewrite delete_id by done. by apply hoare_ret.
Qed.

Lemma retire_pin_sound X1 Y1 snapshot :
  X1 !! g = None → confined X1 Y1 Z →
  hoare (collecting X1 Y1 Z (pin_list snapshot (Z !! pin_name g)))
    (when (Z !! pin_name g) (λ pin,
       _ ← validate_generation_pin g pin;
       _ ← modify release_pins;
       _ ← remove_entry (remove_pin_file (pin_name g));
       sync_directory))
    (λ _, collecting X1 Y1 (delete (pin_name g) Z) []) retiring.
Proof.
  intros Hx Hc. destruct (Z !! pin_name g) as [pin|] eqn:E; cbn [when pin_list].
  - eapply hoare_bind; [apply hoare_retiring, validate_entry_sound; done|]. intros ?.
    apply (hoare_bind _ _ _ (λ _, collecting X1 Y1 Z [])); [apply hoare_modify, collecting_release_pins|]. intros ?.
    eapply hoare_bind; [apply (hoare_retire_remove _ _ _ X1 Y1 (delete (pin_name g) Z));
      [done|by apply confined_pin|by intros s Hs; apply collecting_remove_pin]|].
    intros ?. apply hoare_retiring; [by apply confined_pin|]. apply hoare_sync, stable_collecting.
  - rewrite delete_id by done. by apply hoare_ret.
Qed.

Lemma retire_artifacts_sound found :
  (is_Some (X !! g) → is_Some (Z !! pin_name g)) →
  (∀ n, n ∈ found.*1 ↔ is_Some (Y !! n) ∧ staging_generation n = Ok g) →
  hoare (collecting X Y Z (pin_list (X !! g) (Z !! pin_name g)))
    (retire_artifacts g (X !! g) found (Z !! pin_name g)) retirement_post retiring.
Proof.
  intros Hpin Hf. unfold retire_artifacts. pose proof confined_all as Hall.
  apply (hoare_bind _ _ _ (λ _, collecting X Y Z (pin_list (X !! g) (Z !! pin_name g))));
    [apply hoare_modify, collecting_release_root|]. intros ?.
  eapply hoare_bind; [by apply hoare_retiring, hoare_C_calls|]. intros ?.
  eapply hoare_bind; [by apply retire_snapshot_sound|]. intros ?.
  eapply hoare_bind; [apply retire_stagings_sound; [by intros n [_ ?]%Hf|by apply confined_snapshot]|].
  intros ?. apply hoare_ex. intros Y2. apply hoare_pure. intros Hc. apply hoare_pure. intros Hw.
  apply (hoare_bind _ _ _ (λ _, collecting (delete g X) Y2 Z (pin_list (X !! g) (Z !! pin_name g)))).
  { apply hoare_retiring; [done|]. destruct found; cbn [when]; [by apply hoare_ret|].
    apply hoare_sync, stable_collecting. }
  intros ?. eapply hoare_bind; [apply retire_pin_sound; [by apply lookup_delete_eq|done]|]. intros ?.
  apply confined_pin in Hc. eapply hoare_bind; [by apply hoare_retiring, hoare_C_calls|]. intros ?.
  apply hoare_ret. intros s Hs. split; [by eapply retiring_intro|]. intros _.
  destruct Hs as [_ _ H3 H4 H5 _]. unfold absent. rewrite H3, H4, H5.
  split_and!; [apply lookup_delete_eq..|]. intros n Hn. rewrite Hw. case_bool_decide as Hin; [done|].
  apply eq_None_not_Some. intros Hy. destruct Hin. by apply Hf.
Qed.

Lemma when_validates cs o (f : inode → M Shared ()) :
  (∀ i, hoare (collecting X Y Z cs) (f i) (λ _, collecting X Y Z cs) (collecting X Y Z cs)) →
  hoare (collecting X Y Z cs) (when o f) (λ _, collecting X Y Z cs) retiring.
Proof.
  intros Hf. apply hoare_retiring; [apply confined_all|]. destruct o; cbn [when]; [apply Hf|by apply hoare_ret].
Qed.

Lemma retire_validated_sound found :
  (is_Some (X !! g) → is_Some (Z !! pin_name g)) →
  (∀ n, n ∈ found.*1 ↔ is_Some (Y !! n) ∧ staging_generation n = Ok g) →
  hoare (collecting X Y Z (pin_list (X !! g) (Z !! pin_name g)))
    (retire_validated g (X !! g) found (Z !! pin_name g)) retirement_post retiring.
Proof.
  intros Hpin Hf. pose proof confined_all as Hall. unfold retire_validated.
  eapply hoare_bind; [by apply hoare_retiring, hoare_C_calls|]. intros ?.
  eapply hoare_bind; [apply when_validates; intros i; apply validate_entry_sound|]. intros ?.
  eapply hoare_bind; [by apply hoare_retiring, validate_stagings_sound|]. intros ?.
  eapply hoare_bind; [apply when_validates; intros i; apply validate_entry_sound|]. intros ?.
  by apply retire_artifacts_sound.
Qed.

Lemma nothing_absent cs s :
  X !! g = None → Z !! pin_name g = None →
  (∀ n, n ∈ ([] : list str) ↔ is_Some (Y !! n) ∧ staging_generation n = Ok g) →
  collecting X Y Z cs s → absent s.
Proof.
  intros Hx Hz Hf [_ _ H3 H4 H5 _]. unfold absent. rewrite H3, H4, H5. split_and!; [done..|].
  intros n Hn. apply eq_None_not_Some. intros Hy. by apply (not_elem_of_nil n), Hf.
Qed.

Lemma retire_acquired_sound : hoare C (retire_acquired g) retirement_post retiring.
Proof.
  assert (∀ A (m : M Shared A) Q, hoare C m Q C → hoare C m Q retiring) as Hweak.
  { intros A m Q. apply hoare_retiring, confined_all. }
  unfold retire_acquired. eapply hoare_bind; [apply Hweak, hoare_C_calls|]. intros ?.
  eapply hoare_bind; [apply Hweak, acquire_optional_sound|]. intros snapshot. apply hoare_pure. intros ->.
  eapply hoare_bind; [apply Hweak, collect_exact_candidates_sound|]. intros found. apply hoare_pure. intros Hf.
  eapply hoare_bind; [eapply hoare_conseq; [apply (pin_target_sound (X !! g))|done|intros ? s Hs; exact Hs|
    apply pinning_retiring]|].
  intros [pin|].
  2: { apply hoare_ret. intros s Hs. split; [by apply pinning_retiring|done]. }
  apply hoare_pure. intros <-.
  pose proof (retire_validated_sound found) as Hv.
  assert (∀ s, collecting X Y Z (pin_list (X !! g) (Z !! pin_name g)) s → retiring s) as Hret.
  { intros s Hs. eapply retiring_intro; [done|apply confined_all]. }
  destruct (X !! g) as [dir|] eqn:Ex, (Z !! pin_name g) as [pin|] eqn:Ez; [by apply Hv|by apply hoare_fail| |].
  - destruct found; by apply Hv.
  - destruct found as [|e found]; [|by apply Hv; [intros []|]].
    apply hoare_ret. intros s Hs. split; [by apply Hret|]. intros _. by eapply nothing_absent.
Qed.
End retirement.

(** ** Histories of the root *)

Definition outcome (X Y Z : gmap str inode) (retained : list str) (o : option VectorSnapshotGcCommitReport)
    (s : Shared) : Prop :=
  match o with
  | None => settled X Y Z s
  | Some report => kept X Z retained s ∧ ∀ summary, report = Complete summary → reclaimed X retained s
  end.

Lemma reclaim_sound X Y Z retained :
  hoare (collecting X Y Z []) (reclaim retained) (outcome X Y Z retained) (settled X Y Z).
Proof.
  eapply hoare_bind; [apply prepare_sound|]. intros [|plan]; [by apply hoare_ret|].
  eapply hoare_conseq; [|intros s [Hs Hp]; exact (conj Hp Hs)|intros ? s Hs; exact Hs|done].
  apply hoare_pure. intros Hp.
  apply (hoare_bind _ _ _ (λ r, outcome X Y Z retained (Some r))).
  - eapply hoare_conseq; [by apply commit_sound|done|by intros ? s Hs|done].
  - intros r. by apply hoare_ret.
Qed.

Lemma outcome_inv X Y Z retained o s : outcome X Y Z retained o s → GcInv s.
Proof. destruct o; [by intros [[] _]|by intros []]. Qed.

Lemma hoare_acquired {A} (m : M Shared A) Q E :
  (∀ X Y Z, hoare (collecting X Y Z []) m Q E) → hoare acquired m Q E.
Proof. intros Hm w s Hs. exact (Hm _ _ _ w s Hs). Qed.

Lemma collect_inv retained : hoare GcInv (collect retained) (λ _, GcInv) GcInv.
Proof.
  eapply hoare_bind; [apply try_acquire_sound|]. intros []; cbn [negb]; [|by apply hoare_ret].
  apply hoare_acquired. intros X Y Z.
  eapply hoare_conseq; [apply reclaim_sound|done|apply outcome_inv|by intros s []].
Qed.

Lemma retiring_released X Y Z g s : retiring X Y Z g s → GcInv (release_all s).
Proof. intros (? & ? & ? & ? & _ & []). by apply release_all_inv. Qed.

Lemma retire_inv layout g retained :
  hoare GcInv (try_retire_unpublished_generation layout g retained) (λ _, GcInv) GcInv.
Proof.
  unfold try_retire_unpublished_generation. pose proof stable_inv as Hinv.
  apply (hoare_bind _ _ _ (λ _, GcInv)); [by apply hoare_lift|]. intros ?.
  destruct (retains _ _); [by apply hoare_fail|].
  eapply hoare_bind; [by apply hoare_call|]. intros ?. destruct (negb _); [by apply hoare_ret|].
  eapply hoare_bind; [by apply hoare_calls|]. intros ?.
  apply (hoare_bind _ _ _ (λ _, GcInv)); [by apply hoare_lift|]. intros []; [by apply hoare_ret|].
  eapply hoare_bind; [by apply hoare_calls|]. intros ?. destruct (_ =? _); [by apply hoare_fail|].
  eapply hoare_bind; [apply try_acquire_sound|]. intros []; cbn [negb]; [|by apply hoare_ret].
  apply hoare_acquired. intros X Y Z.
  apply (hoare_bind _ _ _ (λ _, retiring X Y Z g)).
  { eapply hoare_releasing; [|apply (retiring_released X Y Z g)].
    eapply hoare_conseq; [apply retire_acquired_sound|done|by intros ? s []|done]. }
  intros ?. apply (hoare_bind _ _ _ (λ _, GcInv)); [apply hoare_modify, retiring_released|].
  intros ?. by apply hoare_ret.
Qed.

Lemma hoare_state {A} P (m : M Shared A) w s : hoare P m (λ _, P) P → P s → P (m (w, s)).1.2.
Proof. intros Hm Hs. specialize (Hm w s Hs). by destruct (m (w, s)) as [[w' s'] [a|e]]. Qed.

Lemma empty_root_inv : GcInv empty_root.
Proof. split; cbn; try done. Qed.

Lemma operation_inv s op : GcInv s → GcInv (run_gc_operation s op).
Proof.
  intros Hs. destruct op; [by apply act_inv|..];
    unfold run_gc_operation; apply (hoare_state GcInv); auto using collect_inv, retire_inv, set_turns_inv.
Qed.

Lemma operations_inv ops s : GcInv s → GcInv (run_gc_operations ops s).
Proof. revert s. induction ops as [|op ops IH]; intros s Hs; [done|]. apply IH, operation_inv, Hs. Qed.

Lemma acquired_history ops w others w' s :
  try_acquire_snapshot_gc (w, set_turns others (run_gc_operations ops empty_root)) = ((w', s), Ok true) →
  acquired s.
Proof.
  intros E. pose proof (operations_inv ops _ empty_root_inv) as Hs. apply (set_turns_inv others) in Hs.
  pose proof (try_acquire_sound w _ Hs) as Ha. by rewrite E in Ha.
Qed.

(** ** Theorems *)

(** C7: readers never lose a generation.  After any history of readers, publications,
    collections and retirements, whatever the faults, the cancellations and the
    interleaving at every system call, no reader has used a generation whose directory
    was gone, and the directory and the pin file of every generation that is being read
    are those the reader opened. *)
Theorem readers_keep_their_generation (ops : list GcOperation) :
  let s := run_gc_operations ops empty_root in
  lost s = false
  ∧ ∀ r leased g dir pin, readers s !! r = Some (Reading leased g dir pin) →
      snapshots s !! g = Some dir ∧ pins s !! pin_name g = Some pin.
Proof.
  pose proof (operations_inv ops _ empty_root_inv) as Hs. cbv zeta. split; [by apply inv_lost|].
  intros r leased g dir pin Hr. by apply inv_readers in Hr as (? & ? & _).
Qed.

(** C12: what a collection does.  With the fences acquired in state [s], reached by any
    history, a collection that is deferred or fails before its commit changes no
    directory and no pin; a commit always reports, adds nothing, and keeps every
    retained generation with its pin; and when the report is [Complete] exactly the
    retained generations are left, staging is empty, and only retained generations have
    a pin. *)
Theorem collection_outcome (ops : list GcOperation) (w : World) (others : list (list Action))
    (w' : World) (s : Shared) (retained : list str) :
  try_acquire_snapshot_gc (w, set_turns others (run_gc_operations ops empty_root)) = ((w', s), Ok true) →
  match reclaim retained (w', s) with
  | ((_, t), Ok (Some report)) =>
      snapshots t ⊆ snapshots s
      ∧ (∀ g, g ∈ retained → snapshots t !! g = snapshots s !! g)
      ∧ (∀ g, g ∈ retained → is_Some (snapshots s !! g) → pins t !! pin_name g = pins s !! pin_name g)
      ∧ ∀ summary, report = Complete summary →
          (∀ g dir, snapshots t !! g = Some dir ↔ snapshots s !! g = Some dir ∧ g ∈ retained)
          ∧ staging t = ∅
          ∧ ∀ n, is_Some (pins t !! n) → ∃ g, n = pin_name g ∧ g ∈ retained ∧ is_Some (snapshots s !! g)
  | ((_, t), _) => snapshots t = snapshots s ∧ staging t = staging s ∧ pins t = pins s
  end.
Proof.
  intros Ha%acquired_history. pose proof (reclaim_sound _ _ _ retained w' s Ha) as Hr.
  destruct (reclaim retained (w', s)) as [[w1 t] [[report|]|e]]; cbn in Hr.
  - destruct Hr as [[_ [H1 H2 H3]] Hc]. by split_and!.
  - by destruct Hr.
  - by destruct Hr.
Qed.

(** What a retirement does.  With the fences acquired in state [s], reached by any
    history, retiring a generation touches nothing but its own directory, staging
    directories and pin, whether it succeeds or fails, and when it reports [Retired] or
    [Absent] none of these is left. *)
Theorem retirement_outcome (ops : list GcOperation) (w : World) (others : list (list Action))
    (w' : World) (s : Shared) (g : str) :
  try_acquire_snapshot_gc (w, set_turns others (run_gc_operations ops empty_root)) = ((w', s), Ok true) →
  let '((_, t), r) := retire_acquired g (w', s) in
  (∀ h, h ≠ g → snapshots t !! h = snapshots s !! h)
  ∧ (∀ n, staging_generation n ≠ Ok g → staging t !! n = staging s !! n)
  ∧ (∀ n, n ≠ pin_name g → pins t !! n = pins s !! n)
  ∧ ∀ retirement, r = Ok retirement → retirement ≠ RetirementDeferred →
      snapshots t !! g = None ∧ pins t !! pin_name g = None
      ∧ ∀ n, staging_generation n = Ok g → staging t !! n = None.
Proof.
  intros Ha%acquired_history. pose proof (retire_acquired_sound _ _ _ g w' s Ha) as Hr.
  assert (∀ t, retiring (snapshots s) (staging s) (pins s) g t →
    (∀ h, h ≠ g → snapshots t !! h = snapshots s !! h)
    ∧ (∀ n, staging_generation n ≠ Ok g → staging t !! n = staging s !! n)
    ∧ (∀ n, n ≠ pin_name g → pins t !! n = pins s !! n)) as Hconf.
  { intros t (X1 & Y1 & Z1 & cs & Hc & [_ _ H3 H4 H5 _]). by rewrite H3, H4, H5. }
  destruct (retire_acquired g (w', s)) as [[w1 t] [retirement|e]]; cbn in Hr.
  - destruct Hr as [(? & ? & ?)%Hconf Habs]. split_and!; [done..|]. intros ? [= <-] Hd. by apply Habs.
  - apply Hconf in Hr as (? & ? & ?). by split_and!.
Qed.

(** ** A collection beside a reader *)

Module VectorGcDemo.

Definition suffix : str := lit "0123456789abcdef01234567".
Definition publish (generation : str) : list GcOperation :=
  [Others (PBegin generation suffix); Others PPin; Others PRename; Others PEnd].
Definition open_reader (r : nat) (generation : str) : list Action :=
  [RAcquire r; ROpen r generation; ROpenPin r; RLockPin r; RValidate r; RFinish r].

(** Two generations, a publication that crashed after its pin, and a reader of the first. *)
Definition history : list GcOperation :=
  publish (lit "generation-1") ++ publish (lit "generation-2")
  ++ [Others (PBegin (lit "generation-3") suffix); Others PPin; Others PEnd]
  ++ map Others (open_reader 1 (lit "generation-1")).
(** While the collector works the reader uses its generation and others open both. *)
Definition others : list (list Action) :=
  replicate 40 [RUse 1] ++ [open_reader 2 (lit "generation-1"); open_reader 3 (lit "generation-2")].
Definition quiet : World := MkWorld [] [].

Abbreviation acquisition := (try_acquire_snapshot_gc (quiet, set_turns others (run_gc_operations history empty_root))).

Example acquires : acquisition.2 = Ok true.
Proof. vm_compute. reflexivity. Qed.

Example completes : (reclaim [lit "generation-1"] (acquisition.1.1, acquisition.1.2)).2 = Ok (Some (Complete (MkGcSummary 1 1 2))).
Proof. vm_compute. reflexivity. Qed.

Example waits_for_a_reader : (reclaim [] (acquisition.1.1, acquisition.1.2)).2 = Ok None.
Proof. vm_compute. reflexivity. Qed.

Example retires : (retire_acquired (lit "generation-3") (acquisition.1.1, acquisition.1.2)).2 = Ok (Retired (MkRetirementSummary false 1 true)).
Proof. vm_compute. reflexivity. Qed.

Lemma outcome_eta {A} (x : World * Shared * A) r : x.2 = r → x = ((x.1.1, x.1.2), r).
Proof. intros <-. by destruct x as [[w s] r]. Qed.

(** The reader's generation survives the collection of the other one. *)
Lemma collection_outcome_witness :
  let t := (reclaim [lit "generation-1"] (acquisition.1.1, acquisition.1.2)).1.2 in
  (∀ g dir, snapshots t !! g = Some dir ↔ snapshots acquisition.1.2 !! g = Some dir ∧ g ∈ [lit "generation-1"])
  ∧ staging t = ∅.
Proof.
  pose proof (collection_outcome history quiet others _ _ [lit "generation-1"] (outcome_eta _ _ acquires)) as Ho.
  pose proof completes as Hc.
  destruct (reclaim _ _) as [[w1 t] r]. cbn [fst snd] in Hc |- *. subst r.
  destruct Ho as (_ & _ & _ & Ho). by destruct (Ho _ eq_refl) as (? & ? & _).
Defined.

Lemma retirement_outcome_witness :
  let t := (retire_acquired (lit "generation-3") (acquisition.1.1, acquisition.1.2)).1.2 in
  snapshots t !! lit "generation-1" = snapshots acquisition.1.2 !! lit "generation-1"
  ∧ pins t !! pin_name (lit "generation-3") = None.
Proof.
  pose proof (retirement_outcome history quiet others _ _ (lit "generation-3") (outcome_eta _ _ acquires)) as Ho.
  pose proof retires as Hc.
  destruct (retire_acquired _ _) as [[w1 t] r]. cbn [fst snd] in Hc |- *. subst r.
  destruct Ho as (Ho & _ & _ & Ha). split; [by apply Ho|]. by apply (Ha _ eq_refl).
Defined.
End VectorGcDemo.
