(* ===== verification/ContactKeys.v ===== *)
(** * Contact hash keys (crates/privacy/src/lib.rs)

    The local key that pseudonymizes contact values: its creation, inspection, backup
    under a passphrase and restoration, and the keyed hashes made with it.  Files,
    permissions, injected failures and the random generator are the state of a
    [Machine]; Argon2id, the XChaCha20-Poly1305 cipher and HMAC-SHA-256 are classes.  A
    step that panics answers [None]. *)

From Stdlib Require Import ZArith String.
From stdpp Require Import prelude gmap list_numbers.
From S2P Require Import Prelude Collections Text Identity VectorSnapshot VectorPublication.

Local Open Scope Z_scope.

Definition CONTACT_HASH_KEY_LEN : nat := 32.
Definition CONTACT_HASH_KEY_HEX_LEN : Z := 64.
Definition CONTACT_HASH_KEY_PATH : list str := [lit "secrets"; lit "contact-hash-key-v1"].
Definition CONTACT_HASH_KEY_BACKUP_SCHEMA_VERSION : str := lit "resume-ir-contact-hash-key-backup-v2".
Definition BACKUP_PASSPHRASE_MIN_BYTES : Z := 12.
Definition BACKUP_SALT_LEN : nat := 16.
Definition BACKUP_NONCE_LEN : nat := 24.
Definition BACKUP_KDF_MEMORY_KIB : Z := 19 * 1024.
Definition BACKUP_KDF_ITERATIONS : Z := 2.
Definition BACKUP_KDF_PARALLELISM : Z := 1.

Inductive PrivacyErrorKind :=
| Storage | Random | InvalidKey | WeakPassphrase | InvalidBackup | Crypto | AlreadyExists.

#[export] Instance PrivacyErrorKind_eq_dec : EqDecision PrivacyErrorKind.
Proof. solve_decision. Defined.

Inductive ContactHashKeyState := Missing | Ready | Invalid | WeakPermissions | Unreadable.

Inductive ContactKind := Email | Phone.

(** ** Cryptography *)

(** [Argon2id] with memory, iterations, lanes and output length, on a passphrase and a
    salt. *)
Class Argon2id := argon2id : Z → Z → Z → nat → list Z → list Z → option (list Z).

(** HMAC-SHA-256 takes a key of any length and answers 32 bytes. *)
Class HmacSha256 := hmac_sha256 : list Z → list Z → list Z.
Class HmacSha256Laws `{HmacSha256} : Prop := {
  hmac_length key msg : length (hmac_sha256 key msg) = 32%nat;
  hmac_bytes key msg : Forall is_byte (hmac_sha256 key msg);
}.

(** ** The machine *)

(** A path is the list of its components; the root directory is the component [/]. *)
Abbreviation path := (list str).

Definition path_parent (p : path) : option path :=
  match reverse p with
  | [] => None
  | c :: rest => if str_eqb c (lit "/") && bool_decide (rest = []) then None else Some (reverse rest)
  end.

Definition contact_hash_key_path (data_dir : path) : path :=
  fold_left (λ path component, path ++ [component]) CONTACT_HASH_KEY_PATH data_dir.

Record File := MkFile { file_bytes : list Z; file_mode : Z }.

(** What happens at a system call; [Partial n] is a write that fails after [n] bytes. *)
Inductive Fault := Fine | Fails | Partial (n : nat).

(** Answers that are not listed are [Fine]; a random answer gives each byte of the
    buffer, and a missing one is a failure of the generator. *)
Record Machine := MkMachine {
  files : gmap path File;
  umask : Z;
  faults : list Fault;
  entropy : list (nat → Z);
}.

Definition set_files (fs : gmap path File) (s : Machine) : Machine :=
  MkMachine fs (umask s) (faults s) (entropy s).
Definition set_faults (l : list Fault) (s : Machine) : Machine :=
  MkMachine (files s) (umask s) l (entropy s).
Definition set_entropy (l : list (nat → Z)) (s : Machine) : Machine :=
  MkMachine (files s) (umask s) (faults s) l.

(** A system call: [None] is an [io::Error]. *)
Definition Io (A : Type) : Type := Machine → Machine * option A.

Definition next_fault (s : Machine) : Machine * Fault :=
  match faults s with
  | [] => (s, Fine)
  | f :: l => (set_faults l s, f)
  end.

(** A call that has no effect when it fails. *)
Definition system_call {A} (call : Io A) : Io A := λ s,
  match next_fault s with
  | (s, Fine) => call s
  | (s, _) => (s, None)
  end.

Definition try_exists (p : path) : Io bool :=
  system_call (λ s, (s, Some (bool_decide (is_Some (files s !! p))))).

Definition read_to_string (p : path) : Io str :=
  system_call (λ s, (s, f ← files s !! p; from_utf8 (file_bytes f))).

Definition permissions_mode (p : path) : Io Z :=
  system_call (λ s, (s, file_mode <$> files s !! p)).

Definition set_permissions (p : path) (mode : Z) : Io unit :=
  system_call (λ s,
    match files s !! p with
    | Some f => (set_files (<[p := MkFile (file_bytes f) mode]> (files s)) s, Some tt)
    | None => (s, None)
    end).

(** Directories are not part of the machine; a path that runs through a regular file is a
    fault of the script. *)
Definition create_dir_all (p : path) : Io unit := system_call (λ s, (s, Some tt)).

(** [create_new(true).mode(mode)]. *)
Definition open_new (p : path) (mode : Z) : Io unit :=
  system_call (λ s,
    match files s !! p with
    | Some _ => (s, None)
    | None => (set_files (<[p := MkFile [] (Z.land mode (Z.lnot (umask s)))]> (files s)) s, Some tt)
    end).

(** [write_all] on the open file at [p]. *)
Definition append_bytes (p : path) (bytes : list Z) (s : Machine) : Machine :=
  match files s !! p with
  | Some f => set_files (<[p := MkFile (file_bytes f ++ bytes) (file_mode f)]> (files s)) s
  | None => s
  end.

Definition write_all (p : path) (bytes : list Z) : Io unit := λ s,
  match next_fault s with
  | (s, Fine) => (append_bytes p bytes s, Some tt)
  | (s, Fails) => (s, None)
  | (s, Partial n) => (append_bytes p (take n bytes) s, None)
  end.

Definition sync_all (p : path) : Io unit := system_call (λ s, (s, Some tt)).

(** [getrandom] on a buffer of [n] bytes. *)
Definition getrandom (n : nat) : Io (list Z) := λ s,
  match entropy s with
  | [] => (s, None)
  | g :: l => (set_entropy l s, Some (map (λ i, g i `mod` 256) (seq 0 n)))
  end.

(** ** Steps *)

(** [None] is a panic. *)
Definition Step (A : Type) : Type := Machine → Machine * option (result A PrivacyErrorKind).

Definition ret {A} (a : A) : Step A := λ s, (s, Some (Ok a)).
Definition fails {A} (e : PrivacyErrorKind) : Step A := λ s, (s, Some (Err e)).

Definition bind {A B} (m : Step A) (k : A → Step B) : Step B := λ s,
  match m s with
  | (s, Some (Ok a)) => k a s
  | (s, Some (Err e)) => (s, Some (Err e))
  | (s, None) => (s, None)
  end.

Declare Scope key_scope.
Notation "'let*' x ':=' m 'in' k" := (bind m (λ x, k))
  (at level 10, x pattern, m at level 100, k at level 200) : key_scope.
Delimit Scope key_scope with key.
Open Scope key_scope.

(** [map_err] on a system call, and [Result] values of pure code. *)
Definition io {A} (e : PrivacyErrorKind) (call : Io A) : Step A := λ s,
  let '(s, a) := call s in (s, Some (ok_or a e)).
Definition pure_result {A} (r : option (result A PrivacyErrorKind)) : Step A := λ s, (s, r).
Definition of_result {A} (r : result A PrivacyErrorKind) : Step A := pure_result (Some r).

(** ** Hexadecimal text *)

(** [u8::from_str_radix(value, 16)]: digits, after an optional plus sign. *)
Fixpoint hex_digits_value (acc : Z) (s : str) : option Z :=
  match s with
  | [] => Some acc
  | c :: s =>
      d ← hex_value c;
      let acc := acc * 16 + d in
      if acc <=? 255 then hex_digits_value acc s else None
  end.

Definition u8_from_str_radix_16 (s : str) : option Z :=
  match s with
  | [] => None
  | c :: rest => hex_digits_value 0 (if (c =? 43) && non_empty rest then rest else s)
  end.

(** The loops [&value[start..start + 2]]; a slice off a character boundary panics. *)
Fixpoint decode_slots (e : PrivacyErrorKind) (value : str) (starts : list Z)
    : option (result (list Z) PrivacyErrorKind) :=
  match starts with
  | [] => Some (Ok [])
  | start :: starts =>
      pair ← byte_slice value start (start + 2);
      match u8_from_str_radix_16 pair with
      | None => Some (Err e)
      | Some byte =>
          rest ← decode_slots e value starts;
          Some (let? bytes := rest in Ok (byte :: bytes))
      end
  end.

Definition pair_starts (n : Z) : list Z := map (λ index, index * 2) (seqZ 0 n).

Definition decode_key_hex (value : str) : option (result (list Z) PrivacyErrorKind) :=
  if negb (str_len value =? CONTACT_HASH_KEY_HEX_LEN) then Some (Err InvalidKey)
  else decode_slots InvalidKey value (pair_starts (Z.of_nat CONTACT_HASH_KEY_LEN)).

Definition decode_backup_hex (value : str) : option (result (list Z) PrivacyErrorKind) :=
  if negb (str_len value `mod` 2 =? 0) then Some (Err InvalidBackup)
  else decode_slots InvalidBackup value (pair_starts (str_len value / 2)).

Definition decode_fixed_backup_hex (n : nat) (value : str) : option (result (list Z) PrivacyErrorKind) :=
  decoded ← decode_backup_hex value;
  Some (let? bytes := decoded in if (length bytes =? n)%nat then Ok bytes else Err InvalidBackup).

(** ** Key files *)

(** [0o600] and [0o777]. *)
Definition PRIVATE_MODE : Z := 384.
Definition MODE_MASK : Z := 511.

Definition write_new_key_file (p : path) (bytes : list Z) : Step unit :=
  let* _ := io Storage (open_new p PRIVATE_MODE) in
  let* _ := io Storage (write_all p bytes) in
  let* _ := io Storage (write_all p [10]) in
  io Storage (sync_all p).

Definition key_permissions_are_weak (p : path) : Step bool :=
  let* mode := io Storage (permissions_mode p) in
  ret (negb (Z.land mode MODE_MASK =? PRIVATE_MODE)).

Definition restrict_key_permissions (p : path) : Step unit := io Storage (set_permissions p PRIVATE_MODE).

Definition create_private_file_parent (p : path) : Step unit :=
  match path_parent p with
  | None | Some [] => ret tt
  | Some parent => io Storage (create_dir_all parent)
  end.

Record ContactHasher := MkContactHasher { hasher_key : list Z }.

Definition from_key_bytes (key : list Z) : ContactHasher := MkContactHasher key.

(** [Path::exists]: an error counts as absence. *)
Definition path_exists (p : path) : Step bool := λ s,
  let '(s, answer) := try_exists p s in (s, Some (Ok (default false answer))).

Definition load_or_create (data_dir : path) : Step ContactHasher :=
  let key_path := contact_hash_key_path data_dir in
  let* exists_ := path_exists key_path in
  if exists_ then
    let* _ := restrict_key_permissions key_path in
    let* key_hex := io Storage (read_to_string key_path) in
    let* key := pure_result (decode_key_hex (trim key_hex)) in
    ret (MkContactHasher key)
  else
    let* parent := of_result (ok_or (path_parent key_path) InvalidKey) in
    let* _ := io Storage (create_dir_all parent) in
    let* key := io Random (getrandom CONTACT_HASH_KEY_LEN) in
    let* _ := write_new_key_file key_path (utf8 (hex_bytes key)) in
    let* _ := restrict_key_permissions key_path in
    ret (MkContactHasher key).

Definition inspect_contact_hash_key (data_dir : path) : Step ContactHashKeyState := λ s,
  let key_path := contact_hash_key_path data_dir in
  match try_exists key_path s with
  | (s, Some false) => (s, Some (Ok Missing))
  | (s, None) => (s, Some (Ok Unreadable))
  | (s, Some true) =>
      match read_to_string key_path s with
      | (s, None) => (s, Some (Ok Unreadable))
      | (s, Some key_hex) =>
          match decode_key_hex (trim key_hex) with
          | None => (s, None)
          | Some (Err _) => (s, Some (Ok Invalid))
          | Some (Ok _) =>
              (let* weak := key_permissions_are_weak key_path in
               ret (if weak : bool then WeakPermissions else Ready)) s
          end
      end
  end.

Definition read_ready_contact_hash_key (data_dir : path) : Step (list Z) :=
  let* state := inspect_contact_hash_key data_dir in
  match state with
  | Ready =>
      let* key_hex := io Storage (read_to_string (contact_hash_key_path data_dir)) in
      pure_result (decode_key_hex (trim key_hex))
  | _ => fails InvalidKey
  end.

(** ** Backups *)

(** [u8::is_ascii_whitespace]. *)
Definition is_ascii_whitespace (b : Z) : bool := existsb (Z.eqb b) [32; 9; 10; 12; 13].

Definition validate_backup_passphrase (passphrase : list Z) : Step unit :=
  if (Z.of_nat (length passphrase) <? BACKUP_PASSPHRASE_MIN_BYTES)
     || forallb is_ascii_whitespace passphrase
  then fails WeakPassphrase else ret tt.

Definition required_backup_value (fields : gmap str str) (key : str) : result str PrivacyErrorKind :=
  ok_or (fields !! key) InvalidBackup.

Definition require_backup_field (fields : gmap str str) (key expected : str)
    : result unit PrivacyErrorKind :=
  let? value := required_backup_value fields key in
  if negb (str_eqb value expected) then Err InvalidBackup else Ok tt.

Fixpoint parse_backup_fields (fields : gmap str str) (lines : list str)
    : result (gmap str str) PrivacyErrorKind :=
  match lines with
  | [] => Ok fields
  | line :: lines =>
      if is_empty line then parse_backup_fields fields lines
      else
        match split_once [61] line with
        | None => Err InvalidBackup
        | Some (key, value) =>
            if is_empty key || is_empty value || bool_decide (is_Some (fields !! key))
            then Err InvalidBackup
            else parse_backup_fields (<[key := value]> fields) lines
        end
  end.

Section backups.
Context `{Argon2id} `{Aead}.

Definition derive_backup_encryption_key (passphrase salt : list Z) : result (list Z) PrivacyErrorKind :=
  ok_or (argon2id BACKUP_KDF_MEMORY_KIB BACKUP_KDF_ITERATIONS BACKUP_KDF_PARALLELISM
           CONTACT_HASH_KEY_LEN passphrase salt) Crypto.

Definition encrypt_contact_hash_key_backup (encryption_key nonce contact_key : list Z)
    : result (list Z) PrivacyErrorKind :=
  ok_or (aead_encrypt encryption_key nonce (utf8 CONTACT_HASH_KEY_BACKUP_SCHEMA_VERSION) contact_key)
    Crypto.

Definition decrypt_contact_hash_key_backup (encryption_key nonce ciphertext : list Z)
    : result (list Z) PrivacyErrorKind :=
  let? plaintext :=
    ok_or (aead_decrypt encryption_key nonce (utf8 CONTACT_HASH_KEY_BACKUP_SCHEMA_VERSION) ciphertext)
      InvalidBackup in
  if (length plaintext =? CONTACT_HASH_KEY_LEN)%nat then Ok plaintext else Err InvalidBackup.

Definition field_line (key value : str) : str := key ++ [61] ++ value.

(** The lines of the [format!] text. *)
Definition backup_lines (salt nonce ciphertext : list Z) : list str :=
  [CONTACT_HASH_KEY_BACKUP_SCHEMA_VERSION;
   field_line (lit "kdf") (lit "argon2id");
   field_line (lit "kdf_memory_kib") (dec_digits BACKUP_KDF_MEMORY_KIB);
   field_line (lit "kdf_iterations") (dec_digits BACKUP_KDF_ITERATIONS);
   field_line (lit "kdf_parallelism") (dec_digits BACKUP_KDF_PARALLELISM);
   field_line (lit "cipher") (lit "xchacha20poly1305");
   field_line (lit "salt") (hex_bytes salt);
   field_line (lit "nonce") (hex_bytes nonce);
   field_line (lit "ciphertext") (hex_bytes ciphertext)].

Definition unlines (lines : list str) : str := concat (map (λ line, line ++ [10]) lines).

Definition backup_contact_hash_key (data_dir backup_path : path) (passphrase : list Z) : Step unit :=
  let* _ := validate_backup_passphrase passphrase in
  let* key := read_ready_contact_hash_key data_dir in
  let* _ := create_private_file_parent backup_path in
  let* salt := io Random (getrandom BACKUP_SALT_LEN) in
  let* nonce := io Random (getrandom BACKUP_NONCE_LEN) in
  let* encryption_key := of_result (derive_backup_encryption_key passphrase salt) in
  let* ciphertext := of_result (encrypt_contact_hash_key_backup encryption_key nonce key) in
  let backup := unlines (backup_lines salt nonce ciphertext) in
  let* _ := write_new_key_file backup_path (utf8 backup) in
  restrict_key_permissions backup_path.

Definition parse_backup (passphrase : list Z) (lines : list str) : Step (list Z) :=
  let* fields := of_result (parse_backup_fields ∅ lines) in
  let require key expected := of_result (require_backup_field fields key expected) in
  let value key := of_result (required_backup_value fields key) in
  let* _ := require (lit "kdf") (lit "argon2id") in
  let* _ := require (lit "kdf_memory_kib") (dec_digits BACKUP_KDF_MEMORY_KIB) in
  let* _ := require (lit "kdf_iterations") (dec_digits BACKUP_KDF_ITERATIONS) in
  let* _ := require (lit "kdf_parallelism") (dec_digits BACKUP_KDF_PARALLELISM) in
  let* _ := require (lit "cipher") (lit "xchacha20poly1305") in
  let* salt := value (lit "salt") in
  let* salt := pure_result (decode_fixed_backup_hex BACKUP_SALT_LEN salt) in
  let* nonce := value (lit "nonce") in
  let* nonce := pure_result (decode_fixed_backup_hex BACKUP_NONCE_LEN nonce) in
  let* ciphertext := value (lit "ciphertext") in
  let* ciphertext := pure_result (decode_backup_hex ciphertext) in
  let* encryption_key := of_result (derive_backup_encryption_key passphrase salt) in
  of_result (decrypt_contact_hash_key_backup encryption_key nonce ciphertext).

Definition read_backup_contact_hash_key (backup_path : path) (passphrase : list Z) : Step (list Z) :=
  let* backup := io Storage (read_to_string backup_path) in
  match str_lines backup with
  | [] => fails InvalidBackup
  | header :: lines =>
      if negb (str_eqb header CONTACT_HASH_KEY_BACKUP_SCHEMA_VERSION) then fails InvalidBackup
      else parse_backup passphrase lines
  end.

Definition restore_contact_hash_key (data_dir backup_path : path) (passphrase : list Z) : Step unit :=
  let* _ := validate_backup_passphrase passphrase in
  let key_path := contact_hash_key_path data_dir in
  let* exists_ := io Storage (try_exists key_path) in
  if exists_ : bool then fails AlreadyExists
  else
    let* key := read_backup_contact_hash_key backup_path passphrase in
    let* parent := of_result (ok_or (path_parent key_path) InvalidKey) in
    let* _ := io Storage (create_dir_all parent) in
    let* _ := write_new_key_file key_path (utf8 (hex_bytes key)) in
    restrict_key_permissions key_path.
End backups.

(** ** Keyed hashes *)

Definition domain_separator (kind : ContactKind) : str :=
  match kind with
  | Email => lit "resume-ir:contact:v1:email"
  | Phone => lit "resume-ir:contact:v1:phone"
  end.

Definition hash_contact `{HmacSha256} (h : ContactHasher) (kind : ContactKind) (normalized_value : str)
    : result ContactHash PrivacyErrorKind :=
  let digest := hmac_sha256 (hasher_key h) (utf8 (domain_separator kind) ++ [0] ++ utf8 normalized_value) in
  map_err (λ _, InvalidKey) (from_keyed_digest (hex_bytes digest)).

Definition hmac_hex `{HmacSha256} (h : ContactHasher) (domain : str) (value : list Z) : str :=
  hex_bytes (hmac_sha256 (hasher_key h) (utf8 domain ++ [0] ++ value)).

(** ** Files are never overwritten *)

(** The operations of the crate, in any order. *)
Inductive KeyOperation :=
| OpLoad (data_dir : path)
| OpInspect (data_dir : path)
| OpBackup (data_dir backup_path : path) (passphrase : list Z)
| OpRestore (data_dir backup_path : path) (passphrase : list Z).

Section histories.
Context `{Argon2id} `{Aead}.

Definition run_operation (s : Machine) (op : KeyOperation) : Machine :=
  match op with
  | OpLoad data_dir => (load_or_create data_dir s).1
  | OpInspect data_dir => (inspect_contact_hash_key data_dir s).1
  | OpBackup data_dir backup_path passphrase =>
      (backup_contact_hash_key data_dir backup_path passphrase s).1
  | OpRestore data_dir backup_path passphrase =>
      (restore_contact_hash_key data_dir backup_path passphrase s).1
  end.

Definition run_operations (ops : list KeyOperation) (s : Machine) : Machine :=
  fold_left run_operation ops s.
End histories.

(** Every file of [s] has its bytes in [t]. *)
Definition kept (s t : Machine) : Prop :=
  ∀ p f, files s !! p = Some f → ∃ g, files t !! p = Some g ∧ file_bytes g = file_bytes f.

#[export] Instance kept_preorder : PreOrder kept.
Proof.
  split; [intros s p f Hf; eauto|]. intros s t u Hst Htu p f (g & Hg & <-)%Hst.
  apply Htu in Hg as (k & ? & ?). eauto.
Qed.

(** Steps that keep every file. *)
Definition keeps {A} (m : Step A) : Prop := ∀ s, kept s (m s).1.
Definition io_keeps {A} (call : Io A) : Prop := ∀ s, kept s (call s).1.

Create HintDb keeps.

Lemma step_keeps_bind {A B} (m : Step A) (k : A → Step B) : keeps m → (∀ a, keeps (k a)) → keeps (bind m k).
Proof.
  intros Hm Hk s. unfold bind. specialize (Hm s). destruct (m s) as [t [[a|e]|]]; cbn in *; [|done..].
  etrans; [exact Hm|apply Hk].
Qed.

Lemma keeps_io {A} e (call : Io A) : io_keeps call → keeps (io e call).
Proof. intros Hc s. unfold io. specialize (Hc s). by destruct (call s). Qed.

Lemma keeps_pure {A} (r : option (result A PrivacyErrorKind)) : keeps (pure_result r).
Proof. intros s. reflexivity. Qed.

Lemma next_fault_files s : files (next_fault s).1 = files s.
Proof. unfold next_fault. by destruct (faults s). Qed.

Lemma kept_files s t : files t = files s → kept s t.
Proof. intros Heq p f Hf. rewrite Heq. eauto. Qed.

Lemma system_call_keeps {A} (call : Io A) : io_keeps call → io_keeps (system_call call).
Proof.
  intros Hc s. unfold system_call. pose proof (next_fault_files s) as Hf.
  destruct (next_fault s) as [t [| |n]]; cbn in *; [|by apply kept_files..].
  etrans; [by apply kept_files|apply Hc].
Qed.

Lemma query_keeps {A} (answer : Machine → option A) : io_keeps (λ s, (s, answer s)).
Proof. intros s. reflexivity. Qed.
#[export] Hint Resolve step_keeps_bind keeps_io keeps_pure system_call_keeps query_keeps : keeps.

Lemma set_permissions_keeps p mode : io_keeps (set_permissions p mode).
Proof.
  apply system_call_keeps. intros s. destruct (files s !! p) as [f|] eqn:E; [|reflexivity]. cbn.
  intros q g Hg. cbn. destruct (decide (q = p)) as [->|Hq].
  - rewrite lookup_insert_eq. simplify_eq. eauto.
  - rewrite lookup_insert_ne by done. eauto.
Qed.

Lemma getrandom_keeps n : io_keeps (getrandom n).
Proof. intros s. unfold getrandom. by destruct (entropy s); apply kept_files. Qed.
#[export] Hint Resolve set_permissions_keeps getrandom_keeps : keeps.

(** Steps that touch one path only. *)
Definition only (p : path) (s t : Machine) : Prop := ∀ q, q ≠ p → files t !! q = files s !! q.

#[export] Instance only_preorder p : PreOrder (only p).
Proof. split; [intros s q _; done|]. intros s t u Hst Htu q Hq. by rewrite Htu, Hst. Qed.

Lemma only_files p s t : files t = files s → only p s t.
Proof. by intros Heq q _; rewrite Heq. Qed.

Lemma only_bind {A B} p (m : Step A) (k : A → Step B) s :
  (∀ t, only p t (m t).1) → (∀ a t, only p t (k a t).1) → only p s (bind m k s).1.
Proof.
  intros Hm Hk. unfold bind. specialize (Hm s). destruct (m s) as [t [[a|e]|]]; cbn in *; [|done..].
  etrans; [exact Hm|apply Hk].
Qed.

Lemma append_only p bytes s : only p s (append_bytes p bytes s).
Proof.
  intros q Hq. unfold append_bytes. destruct (files s !! p); [|done]. cbn. by rewrite lookup_insert_ne.
Qed.

Lemma write_all_only p bytes s : only p s (write_all p bytes s).1.
Proof.
  unfold write_all. pose proof (only_files p _ _ (next_fault_files s)) as Hf.
  destruct (next_fault s) as [t [| |n]]; cbn in *; [|done|];
    (etrans; [exact Hf|apply append_only]).
Qed.

Lemma sync_all_only p s : only p s (sync_all p s).1.
Proof.
  unfold sync_all, system_call. pose proof (only_files p _ _ (next_fault_files s)) as Hf.
  by destruct (next_fault s) as [t [| |n]].
Qed.

Lemma io_only {A} p e (call : Io A) s : only p s (call s).1 → only p s (io e call s).1.
Proof. unfold io. by destruct (call s). Qed.

Lemma open_new_only p mode s : only p s (open_new p mode s).1.
Proof.
  unfold open_new, system_call. pose proof (only_files p _ _ (next_fault_files s)) as Hf.
  destruct (next_fault s) as [t [| |n]]; cbn in *; [|done..].
  destruct (files t !! p); [done|]. etrans; [exact Hf|]. intros q Hq. cbn. by rewrite lookup_insert_ne.
Qed.

(** An existing file is not opened for writing. *)
Lemma open_new_present p mode s f :
  files s !! p = Some f → ∃ t, open_new p mode s = (t, None) ∧ files t = files s.
Proof.
  intros Hp. unfold open_new, system_call. pose proof (next_fault_files s) as Hf.
  destruct (next_fault s) as [t [| |n]]; cbn in *; [|by eauto..]. rewrite Hf, Hp. eauto.
Qed.

Lemma write_new_key_file_keeps p bytes : keeps (write_new_key_file p bytes).
Proof.
  intros s. destruct (files s !! p) as [f|] eqn:Hp.
  - unfold write_new_key_file, bind at 1, io at 1.
    destruct (open_new_present p PRIVATE_MODE s f Hp) as (t & -> & Ht). by apply kept_files.
  - assert (only p s (write_new_key_file p bytes s).1) as Ho.
    { unfold write_new_key_file.
      repeat (apply only_bind; [intros; apply io_only;
        first [apply open_new_only|apply write_all_only]|intros ? ?]).
      apply io_only, sync_all_only. }
    intros q f Hq. exists f. split; [|done]. rewrite Ho; [done|]. intros ->. congruence.
Qed.
#[export] Hint Resolve write_new_key_file_keeps : keeps.

(** Decides [keeps] goals for straight-line steps. *)
Ltac keeps_auto :=
  repeat first
    [ progress eauto with keeps
    | apply step_keeps_bind; [|intros ?]
    | apply keeps_pure
    | match goal with |- keeps (match ?x with _ => _ end) => destruct x end
    | match goal with |- keeps (if ?x then _ else _) => destruct x end ].

Lemma path_exists_keeps p : keeps (path_exists p).
Proof.
  intros s. unfold path_exists.
  pose proof (system_call_keeps _ (query_keeps (λ s, Some (bool_decide (is_Some (files s !! p))))) s) as Hk.
  unfold try_exists. by destruct (system_call _ s).
Qed.
#[export] Hint Resolve path_exists_keeps : keeps.

Lemma load_or_create_keeps data_dir : keeps (load_or_create data_dir).
Proof. unfold load_or_create. keeps_auto. Qed.

Lemma try_exists_keeps p : io_keeps (try_exists p).
Proof. apply system_call_keeps, query_keeps. Qed.

Lemma read_to_string_keeps p : io_keeps (read_to_string p).
Proof. apply system_call_keeps. exact (query_keeps (λ s, f ← files s !! p; from_utf8 (file_bytes f))). Qed.

Lemma key_permissions_keeps p : keeps (key_permissions_are_weak p).
Proof. unfold key_permissions_are_weak, permissions_mode. keeps_auto. Qed.
#[export] Hint Resolve load_or_create_keeps try_exists_keeps read_to_string_keeps key_permissions_keeps : keeps.

Lemma inspect_keeps data_dir : keeps (inspect_contact_hash_key data_dir).
Proof.
  intros s. unfold inspect_contact_hash_key.
  pose proof (try_exists_keeps (contact_hash_key_path data_dir) s) as H1.
  destruct (try_exists _ s) as [t [[]|]]; cbn in H1; [|done..]. etrans; [exact H1|].
  pose proof (read_to_string_keeps (contact_hash_key_path data_dir) t) as H2.
  destruct (read_to_string _ t) as [u [key_hex|]]; cbn in H2; [|done]. etrans; [exact H2|].
  destruct (decode_key_hex _) as [[key|e]|]; [|reflexivity..].
  apply (step_keeps_bind (key_permissions_are_weak (contact_hash_key_path data_dir))
    (λ weak : bool, ret (if weak then WeakPermissions else Ready))); keeps_auto.
Qed.
#[export] Hint Resolve inspect_keeps : keeps.

Lemma read_ready_keeps data_dir : keeps (read_ready_contact_hash_key data_dir).
Proof. unfold read_ready_contact_hash_key. keeps_auto. Qed.

Lemma create_parent_keeps p : keeps (create_private_file_parent p).
Proof. unfold create_private_file_parent, create_dir_all. keeps_auto. Qed.

Lemma passphrase_keeps passphrase : keeps (validate_backup_passphrase passphrase).
Proof. unfold validate_backup_passphrase. keeps_auto. Qed.

Lemma read_backup_keeps `{Argon2id} `{Aead} backup_path passphrase :
  keeps (read_backup_contact_hash_key backup_path passphrase).
Proof. unfold read_backup_contact_hash_key, parse_backup. keeps_auto. Qed.
#[export] Hint Resolve read_ready_keeps create_parent_keeps passphrase_keeps read_backup_keeps : keeps.

(** No history of operations changes the bytes of a file, whatever fails. *)
Lemma run_operations_keep `{Argon2id} `{Aead} ops s : kept s (run_operations ops s).
Proof.
  revert s. induction ops as [|op ops IH]; intros s; [reflexivity|]. cbn.
  etrans; [|apply IH]. destruct op; cbn [run_operation].
  - apply load_or_create_keeps.
  - apply inspect_keeps.
  - revert s. change (keeps (backup_contact_hash_key data_dir backup_path passphrase)).
    unfold backup_contact_hash_key, restrict_key_permissions. keeps_auto.
  - revert s. change (keeps (restore_contact_hash_key data_dir backup_path passphrase)).
    unfold restore_contact_hash_key, restrict_key_permissions, create_dir_all. keeps_auto.
Qed.

(** ** Hexadecimal round trips *)

Lemma radix_16_hex_byte b : is_byte b → u8_from_str_radix_16 (hex_byte b) = Some b.
Proof.
  intros Hb. destruct (byte_nibbles b Hb) as (H1 & H2 & H3). unfold hex_byte, u8_from_str_radix_16.
  destruct (hex_value_digit _ H1) as [Hv1 Hne], (hex_value_digit _ H2) as [Hv2 _].
  rewrite (proj2 (Z.eqb_neq _ 43)) by done. cbn [andb hex_digits_value].
  rewrite Hv1, Hv2. cbn [mbind option_bind]. unfold is_byte in Hb.
  rewrite (proj2 (Z.leb_le (0 * 16 + Z.shiftr b 4) 255)) by lia.
  rewrite (proj2 (Z.leb_le ((0 * 16 + Z.shiftr b 4) * 16 + Z.land b 15) 255)) by lia. f_equal. lia.
Qed.

Lemma decode_slots_hex e bs : ∀ pre k,
  str_len pre = k * 2 → Forall is_byte bs →
  decode_slots e (pre ++ hex_bytes bs) (map (λ i, i * 2) (seqZ k (Z.of_nat (length bs)))) = Some (Ok bs).
Proof.
  induction bs as [|b bs IH]; intros pre k Hpre Hbs; [done|].
  apply Forall_cons in Hbs as [Hb Hbs]. rewrite seqZ_cons by (cbn; lia). cbn [map decode_slots].
  change (hex_bytes (b :: bs)) with (hex_byte b ++ hex_bytes bs).
  assert (str_len (hex_byte b) = 2) as H2.
  { rewrite ascii_str_len; [done|]. destruct (byte_nibbles b Hb) as (? & ? & _).
    unfold hex_byte. cbn. by rewrite !hex_digit_hexdigit. }
  rewrite (byte_slice_app pre (hex_byte b)) by lia. cbn [mbind option_bind].
  rewrite radix_16_hex_byte by done. rewrite app_assoc.
  replace (Z.pred (Z.of_nat (length (b :: bs)))) with (Z.of_nat (length bs)) by (cbn; lia).
  rewrite IH; [done| |done]. rewrite str_len_app. lia.
Qed.

Lemma hex_bytes_str_len bs : Forall is_byte bs → str_len (hex_bytes bs) = 2 * Z.of_nat (length bs).
Proof. intros Hbs. rewrite ascii_str_len by (by apply hex_bytes_hexdigit). rewrite hex_bytes_length. lia. Qed.

Lemma decode_key_hex_roundtrip key :
  Forall is_byte key → length key = CONTACT_HASH_KEY_LEN → decode_key_hex (hex_bytes key) = Some (Ok key).
Proof.
  intros Hk Hl. unfold decode_key_hex, pair_starts. rewrite hex_bytes_str_len, Hl by done.
  cbn [negb]. replace (2 * Z.of_nat CONTACT_HASH_KEY_LEN =? CONTACT_HASH_KEY_HEX_LEN) with true by done.
  cbn [negb]. rewrite <-Hl. exact (decode_slots_hex InvalidKey key [] 0 eq_refl Hk).
Qed.

Lemma decode_backup_hex_roundtrip bs : Forall is_byte bs → decode_backup_hex (hex_bytes bs) = Some (Ok bs).
Proof.
  intros Hb. unfold decode_backup_hex, pair_starts. rewrite hex_bytes_str_len by done.
  rewrite (Z.mul_comm 2), Z_mod_mult, Z.div_mul by done. cbn [negb Z.eqb].
  exact (decode_slots_hex InvalidBackup bs [] 0 eq_refl Hb).
Qed.

Lemma decode_fixed_roundtrip n bs :
  Forall is_byte bs → length bs = n → decode_fixed_backup_hex n (hex_bytes bs) = Some (Ok bs).
Proof.
  intros Hb Hn. unfold decode_fixed_backup_hex. rewrite decode_backup_hex_roundtrip by done. cbn.
  by rewrite Hn, Nat.eqb_refl.
Qed.

(** The content of a key file is read back as its key. *)
Definition key_content (bytes key : list Z) : Prop :=
  ∃ text, from_utf8 bytes = Some text ∧ decode_key_hex (trim text) = Some (Ok key).

Lemma trim_line w : free_of is_whitespace w → trim (w ++ [10]) = w.
Proof.
  intros Hw. destruct w as [|x w]; [done|].
  unfold trim, trim_matches, trim_end_matches. rewrite (trim_start_free _ ((x :: w) ++ [10])).
  - rewrite reverse_snoc.
    assert (∀ l, trim_start_matches is_whitespace (10 :: l) = trim_start_matches is_whitespace l) as -> by done.
    rewrite trim_start_free; [apply reverse_involutive|].
    intros c t Hc. apply free_of_reverse in Hw. rewrite Hc in Hw. by apply free_of_cons in Hw as [? _].
  - intros c t [= -> _]. by apply free_of_cons in Hw as [? _].
Qed.

Lemma key_file_content key :
  Forall is_byte key → length key = CONTACT_HASH_KEY_LEN →
  key_content (utf8 (hex_bytes key) ++ [10]) key.
Proof.
  intros Hk Hl. pose proof (hex_bytes_hexdigit _ Hk) as Hhex.
  assert (ascii_str (hex_bytes key) = true) as Ha by (by apply hexdigits_ascii).
  exists (hex_bytes key ++ [10]). rewrite utf8_ascii by done. split.
  - apply from_utf8_ascii. unfold ascii_str in *. rewrite forallb_app, Ha. done.
  - rewrite trim_line; [by apply decode_key_hex_roundtrip|].
    apply Forall_forall. intros c Hc%list_elem_of_In. rewrite forallb_forall in Hhex.
    apply Hhex in Hc as Hd. unfold is_ascii_hexdigit, is_ascii_digit, is_whitespace in *.
    destruct (_ || _) eqn:E in |- *; [|done]. exfalso. bools; lia.
Qed.

(** ** Steps that succeed *)

Lemma bind_ok {A B} (m : Step A) (k : A → Step B) s t b :
  bind m k s = (t, Some (Ok b)) → ∃ u a, m s = (u, Some (Ok a)) ∧ k a u = (t, Some (Ok b)).
Proof. unfold bind. destruct (m s) as [u [[a|e]|]]; [eauto|done..]. Qed.

Lemma io_ok {A} e (call : Io A) s t a : io e call s = (t, Some (Ok a)) → call s = (t, Some a).
Proof. unfold io. destruct (call s) as [u [x|]]; cbn; congruence. Qed.

Lemma system_call_ok {A} (call : Io A) s t a :
  system_call call s = (t, Some a) → ∃ u, files u = files s ∧ call u = (t, Some a).
Proof.
  unfold system_call. pose proof (next_fault_files s) as Hf. destruct (next_fault s) as [u [| |n]];
    cbn in *; [eauto|done..].
Qed.

Lemma write_all_ok p bytes s t :
  write_all p bytes s = (t, Some tt) → ∃ u, files u = files s ∧ t = append_bytes p bytes u.
Proof.
  unfold write_all. pose proof (next_fault_files s) as Hf. destruct (next_fault s) as [u [| |n]];
    cbn in *; [intros [= <-]; eauto|done..].
Qed.

Lemma append_lookup p bytes s f :
  files s !! p = Some f → files (append_bytes p bytes s) !! p = Some (MkFile (file_bytes f ++ bytes) (file_mode f)).
Proof. intros Hf. unfold append_bytes. rewrite Hf. cbn. apply lookup_insert_eq. Qed.

(** A new file holds the bytes and a line feed. *)
Lemma write_new_ok p bytes s t :
  write_new_key_file p bytes s = (t, Some (Ok tt)) →
  ∃ f, files t !! p = Some f ∧ file_bytes f = bytes ++ [10].
Proof.
  intros (u1 & [] & H1%io_ok & (u2 & [] & H2%io_ok & (u3 & [] & H3%io_ok & H4%io_ok)%bind_ok)%bind_ok)%bind_ok.
  apply system_call_ok in H1 as (v1 & _ & H1). destruct (files v1 !! p); [done|]. injection H1 as <-.
  apply write_all_ok in H2 as (v2 & Hv2 & ->). apply write_all_ok in H3 as (v3 & Hv3 & ->).
  apply system_call_ok in H4 as (v4 & Hv4 & [= <-]).
  set (mode := Z.land PRIVATE_MODE (Z.lnot (umask v1))) in *.
  assert (files v3 !! p = Some (MkFile bytes mode)) as Hp.
  { rewrite Hv3, (append_lookup p bytes v2 (MkFile [] mode)); [done|]. rewrite Hv2. apply lookup_insert_eq. }
  exists (MkFile (bytes ++ [10]) mode). by rewrite Hv4, (append_lookup _ _ _ _ Hp).
Qed.

Lemma restrict_ok p s t : restrict_key_permissions p s = (t, Some (Ok tt)) →
  ∃ f, files s !! p = Some f ∧ files t !! p = Some (MkFile (file_bytes f) PRIVATE_MODE).
Proof.
  intros (u & Hu & H)%io_ok%system_call_ok. rewrite Hu in H. destruct (files s !! p) as [f|]; [|done].
  injection H as <-. exists f. split; [done|]. apply lookup_insert_eq.
Qed.

Lemma read_ok p s t text : read_to_string p s = (t, Some text) →
  files t = files s ∧ ∃ f, files s !! p = Some f ∧ from_utf8 (file_bytes f) = Some text.
Proof.
  intros (u & Hu & H)%system_call_ok. injection H as <- H. split; [done|].
  rewrite Hu in H. destruct (files s !! p) as [f|]; [|done]. eauto.
Qed.

Lemma getrandom_ok n s t bytes : getrandom n s = (t, Some bytes) →
  Forall is_byte bytes ∧ length bytes = n.
Proof.
  unfold getrandom. destruct (entropy s) as [|g l]; [done|]. intros [= _ <-].
  split; [|by rewrite length_map, length_seq]. apply Forall_forall. intros x Hx.
  apply list_elem_of_In, in_map_iff in Hx as (i & <- & _). unfold is_byte. apply Z.mod_pos_bound. lia.
Qed.

(** The key file of a directory, and the key in it. *)
Definition holds_key (data_dir : path) (s : Machine) (key : list Z) : Prop :=
  ∃ f, files s !! contact_hash_key_path data_dir = Some f ∧ key_content (file_bytes f) key.

Lemma holds_key_kept data_dir s t key : kept s t → holds_key data_dir s key → holds_key data_dir t key.
Proof. intros Hk (f & Hf & Hc). apply Hk in Hf as (g & Hg & Hb). exists g. by rewrite Hb. Qed.

(** A successful load leaves a file with the key it returns. *)
Lemma load_ok_holds data_dir s t h :
  load_or_create data_dir s = (t, Some (Ok h)) → holds_key data_dir t (hasher_key h).
Proof.
  unfold load_or_create. intros (u & b & _ & H)%bind_ok. destruct b.
  - apply bind_ok in H as (u1 & [] & Hr & (u2 & text & Ht%io_ok%read_ok & H)%bind_ok).
    apply restrict_ok in Hr as (f & _ & Hf). apply bind_ok in H as (u3 & key & [= <- Hd] & [= <- <-]).
    destruct Ht as (Hfiles & g & Hg & Hu). exists g. rewrite Hfiles. split; [done|]. by exists text.
  - apply bind_ok in H as (u1 & parent & _ & (u2 & [] & _ & (u3 & key & Hk%io_ok%getrandom_ok & H)%bind_ok)%bind_ok).
    apply bind_ok in H as (u4 & [] & Hw%write_new_ok & (u5 & [] & Hr%restrict_ok & [= <- <-])%bind_ok).
    destruct Hw as (f & Hf & Hb), Hr as (g & Hg & Ht). simplify_eq. eexists. split; [exact Ht|].
    cbn [file_bytes]. rewrite Hb. apply key_file_content; tauto.
Qed.

(** ** Machines without failures *)

Lemma bind_step {A B} (m : Step A) (k : A → Step B) s t a :
  m s = (t, Some (Ok a)) → bind m k s = k a t.
Proof. unfold bind. by intros ->. Qed.

Lemma quiet_call {A} (call : Io A) s : faults s = [] → system_call call s = call s.
Proof. intros Hq. unfold system_call, next_fault. by rewrite Hq. Qed.

Section quiet.
Variables (p : path) (s : Machine) (f : File).
Hypotheses (Hquiet : faults s = []) (Hfile : files s !! p = Some f).

Lemma quiet_try_exists : try_exists p s = (s, Some true).
Proof. unfold try_exists. rewrite quiet_call by exact Hquiet. by rewrite Hfile. Qed.

Lemma quiet_exists : path_exists p s = (s, Some (Ok true)).
Proof. unfold path_exists. by rewrite quiet_try_exists. Qed.

Lemma quiet_restrict :
  restrict_key_permissions p s
  = (set_files (<[p := MkFile (file_bytes f) PRIVATE_MODE]> (files s)) s, Some (Ok tt)).
Proof. unfold restrict_key_permissions, set_permissions, io. rewrite quiet_call by done. by rewrite Hfile. Qed.

Lemma quiet_read_text text :
  from_utf8 (file_bytes f) = Some text → read_to_string p s = (s, Some text).
Proof.
  intros Ht. unfold read_to_string. rewrite quiet_call by exact Hquiet. rewrite Hfile.
  cbn [mbind option_bind]. by rewrite Ht.
Qed.

Lemma quiet_read e text :
  from_utf8 (file_bytes f) = Some text → io e (read_to_string p) s = (s, Some (Ok text)).
Proof. intros Ht. unfold io. by rewrite (quiet_read_text text Ht). Qed.
End quiet.

(** The key file is private and holds the key. *)
Definition ready_key (data_dir : path) (s : Machine) (key : list Z) : Prop :=
  ∃ f, files s !! contact_hash_key_path data_dir = Some f ∧ key_content (file_bytes f) key
       ∧ file_mode f = PRIVATE_MODE.

Lemma quiet_load data_dir s key :
  faults s = [] → holds_key data_dir s key →
  ∃ t, load_or_create data_dir s = (t, Some (Ok (MkContactHasher key)))
       ∧ faults t = [] ∧ ready_key data_dir t key.
Proof.
  intros Hq (f & Hf & text & Ht & Hd). set (p := contact_hash_key_path data_dir) in *.
  set (t := set_files (<[p := MkFile (file_bytes f) PRIVATE_MODE]> (files s)) s).
  assert (files t !! p = Some (MkFile (file_bytes f) PRIVATE_MODE)) as Hp by apply lookup_insert_eq.
  exists t. split_and!; [|done|].
  - unfold load_or_create. fold p. rewrite (bind_step _ _ _ _ _ (quiet_exists p s f Hq Hf)).
    rewrite (bind_step _ _ _ _ _ (quiet_restrict p s f Hq Hf)).
    rewrite (bind_step _ _ _ _ _ (quiet_read p t _ Hq Hp Storage text Ht)).
    unfold bind, pure_result. by rewrite Hd.
  - eexists. split_and!; [exact Hp| |done]. by exists text.
Qed.

Lemma quiet_inspect data_dir s key :
  faults s = [] → ready_key data_dir s key →
  inspect_contact_hash_key data_dir s = (s, Some (Ok Ready)).
Proof.
  intros Hq (f & Hf & (text & Ht & Hd) & Hm).
  unfold inspect_contact_hash_key. rewrite (quiet_try_exists _ _ f Hq Hf), (quiet_read_text _ _ f Hq Hf text Ht), Hd.
  unfold key_permissions_are_weak, permissions_mode, bind, io. rewrite quiet_call by exact Hq.
  rewrite Hf. cbn [fmap option_fmap option_map ok_or ret]. by rewrite Hm.
Qed.

(** C35: once a key was loaded or created, no later operation of the crate, whatever
    system calls fail in it and in whatever order, changes it: the next load without
    failures returns the same key, and the key file is private and inspected as ready. *)
Theorem contact_key_stable `{Argon2id} `{Aead} data_dir s t h ops :
  load_or_create data_dir s = (t, Some (Ok h)) →
  faults (run_operations ops t) = [] →
  ∃ u, load_or_create data_dir (run_operations ops t) = (u, Some (Ok h))
       ∧ inspect_contact_hash_key data_dir u = (u, Some (Ok Ready)).
Proof.
  intros Hload Hq. apply load_ok_holds in Hload.
  apply (holds_key_kept _ _ _ _ (run_operations_keep ops t)) in Hload.
  destruct (quiet_load _ _ _ Hq Hload) as (u & Hu & Hqu & Hr). exists u. destruct h as [key].
  split; [done|]. by eapply quiet_inspect.
Qed.

(** ** Backups are read back *)

Lemma hex_value_range c d : hex_value c = Some d → 0 ≤ d < 16.
Proof. unfold hex_value. repeat case_match; intros [= <-]; bools; lia. Qed.

Lemma hex_digits_value_byte s acc b : 0 ≤ acc ≤ 255 → hex_digits_value acc s = Some b → is_byte b.
Proof.
  revert acc. induction s as [|c s IH]; intros acc Hacc; cbn [hex_digits_value].
  - intros [= <-]. unfold is_byte. lia.
  - destruct (hex_value c) as [d|] eqn:Hd; [|done]. apply hex_value_range in Hd. cbn [mbind option_bind].
    destruct (acc * 16 + d <=? 255) eqn:E; [|done]. bools. apply IH. lia.
Qed.

Lemma radix_16_byte s b : u8_from_str_radix_16 s = Some b → is_byte b.
Proof. destruct s as [|c s]; [done|]. apply hex_digits_value_byte. lia. Qed.

Lemma decode_slots_ok e value starts bs :
  decode_slots e value starts = Some (Ok bs) → Forall is_byte bs ∧ length bs = length starts.
Proof.
  revert bs. induction starts as [|start starts IH]; intros bs; cbn [decode_slots]; [by intros [= <-]|].
  destruct (byte_slice _ _ _) as [pair|]; [|done]. cbn [mbind option_bind].
  destruct (u8_from_str_radix_16 pair) as [b|] eqn:Hb; [|done].
  destruct (decode_slots e value starts) as [[rest|]|]; [|done..]. intros [= <-].
  destruct (IH rest eq_refl) as [HF HL]. split; [|cbn; lia]. constructor; [by eapply radix_16_byte|done].
Qed.

Lemma key_content_shape bytes key :
  key_content bytes key → Forall is_byte key ∧ length key = CONTACT_HASH_KEY_LEN.
Proof.
  intros (text & _ & Hd). unfold decode_key_hex in Hd. destruct (negb _); [done|].
  apply decode_slots_ok in Hd as [HF HL]. split; [done|].
  unfold pair_starts in HL. by rewrite length_map, length_seqZ in HL.
Qed.

Lemma unlines_lines ls : Forall line_ok ls → str_lines (unlines ls) = ls.
Proof.
  unfold str_lines, unlines. induction 1 as [|w ls Hw _ IH]; [done|]. cbn [map concat].
  rewrite <-app_assoc. cbn [app]. rewrite lines_line by (eapply Forall_impl; [exact Hw|by intros ? []]).
  cbn [app]. rewrite IH, strip_cr_free by (eapply Forall_impl; [exact Hw|by intros ? []]). done.
Qed.

(** *** Fields *)

Definition fields_of (fields : gmap str str) (kvs : list (str * str)) : gmap str str :=
  fold_left (λ fields kv, <[kv.1 := kv.2]> fields) kvs fields.

Definition field_ok (kv : str * str) : Prop :=
  Forall (λ c, c ≠ 61) kv.1 ∧ kv.1 ≠ [] ∧ kv.2 ≠ [].

Lemma split_once_field k v : Forall (λ c, c ≠ 61) k → split_once [61] (field_line k v) = Some (k, v).
Proof.
  unfold field_line. induction 1 as [|c k Hc Hk IH]; [done|]. cbn [app split_once starts_with].
  rewrite (proj2 (Z.eqb_neq 61 c)) by congruence. cbn [andb]. cbn [app] in IH. by rewrite IH.
Qed.

Lemma parse_field_lines kvs : ∀ fields,
  NoDup kvs.*1 → Forall (λ k, fields !! k = None) kvs.*1 → Forall field_ok kvs →
  parse_backup_fields fields (map (λ kv, field_line kv.1 kv.2) kvs ++ [[]]) = Ok (fields_of fields kvs).
Proof.
  induction kvs as [|[k v] kvs IH]; intros fields Hnd Hfr Hok; [done|].
  cbn [fmap list_fmap fst] in *. apply NoDup_cons in Hnd as [Hk Hnd]. apply Forall_cons in Hfr as [Hfk Hfr].
  apply Forall_cons in Hok as [(H61 & Hk0 & Hv0) Hok]. cbn [fst snd] in *.
  cbn [map app parse_backup_fields fst snd]. replace (is_empty (field_line k v)) with false by (by destruct k).
  rewrite split_once_field by done. replace (is_empty k) with false by (by destruct k).
  replace (is_empty v) with false by (by destruct v).
  rewrite bool_decide_false by (apply eq_None_not_Some; exact Hfk). cbn [orb].
  rewrite IH; [reflexivity|exact Hnd| |exact Hok]. rewrite Forall_forall in Hfr |- *. intros x Hx.
  rewrite lookup_insert_ne by (intros ->; done). by apply Hfr.
Qed.

Lemma fields_of_other kvs : ∀ fields k, (k ∉ kvs.*1) → fields_of fields kvs !! k = fields !! k.
Proof.
  induction kvs as [|[x v] kvs IH]; intros fields k Hk; [done|].
  cbn [fmap list_fmap fst] in Hk. apply not_elem_of_cons in Hk as [Hx Hk].
  change (fields_of (<[x := v]> fields) kvs !! k = fields !! k). rewrite IH by done.
  by rewrite lookup_insert_ne.
Qed.

Lemma fields_of_lookup kvs fields k v :
  NoDup kvs.*1 → (k, v) ∈ kvs → fields_of fields kvs !! k = Some v.
Proof.
  revert fields. induction kvs as [|[x w] kvs IH]; intros fields Hnd Hin; [by apply elem_of_nil in Hin|].
  cbn [fmap list_fmap fst] in Hnd. apply NoDup_cons in Hnd as [Hx Hnd].
  change (fields_of (<[x := w]> fields) kvs !! k = Some v).
  apply elem_of_cons in Hin as [[= -> ->]|Hin]; [|by apply IH].
  rewrite fields_of_other by done. apply lookup_insert_eq.
Qed.

Definition backup_fields (salt nonce ciphertext : list Z) : list (str * str) :=
  [(lit "kdf", lit "argon2id");
   (lit "kdf_memory_kib", dec_digits BACKUP_KDF_MEMORY_KIB);
   (lit "kdf_iterations", dec_digits BACKUP_KDF_ITERATIONS);
   (lit "kdf_parallelism", dec_digits BACKUP_KDF_PARALLELISM);
   (lit "cipher", lit "xchacha20poly1305");
   (lit "salt", hex_bytes salt);
   (lit "nonce", hex_bytes nonce);
   (lit "ciphertext", hex_bytes ciphertext)].

Lemma backup_fields_keys salt nonce ciphertext : NoDup (backup_fields salt nonce ciphertext).*1.
Proof.
  change ((backup_fields salt nonce ciphertext).*1) with ((backup_fields [] [] []).*1).
  refine (bool_decide_eq_true_1 _ _). vm_compute. reflexivity.
Qed.

Lemma hex_bytes_ne bs : bs ≠ [] → hex_bytes bs ≠ [].
Proof. by destruct bs. Qed.

(** What a backup is made of. *)
Record backup_parts `{Argon2id} `{Aead} (passphrase key salt nonce ciphertext : list Z) : Prop := {
  parts_salt : Forall is_byte salt ∧ length salt = BACKUP_SALT_LEN;
  parts_nonce : Forall is_byte nonce ∧ length nonce = BACKUP_NONCE_LEN;
  parts_cipher : ∃ encryption_key,
    derive_backup_encryption_key passphrase salt = Ok encryption_key
    ∧ encrypt_contact_hash_key_backup encryption_key nonce key = Ok ciphertext;
  parts_key : Forall is_byte key ∧ length key = CONTACT_HASH_KEY_LEN;
}.

Section restore.
Context `{Argon2id} `{AeadLaws}.
(** A ciphertext carries its authentication tag. *)
Hypothesis aead_tagged : ∀ key nonce aad msg c, aead_encrypt key nonce aad msg = Some c → c ≠ [].
Variables (passphrase key salt nonce ciphertext : list Z).
Hypothesis (Hparts : backup_parts passphrase key salt nonce ciphertext).

Lemma ciphertext_shape : Forall is_byte ciphertext ∧ ciphertext ≠ [].
Proof using Hparts H1 aead_tagged.
  destruct (parts_cipher _ _ _ _ _ Hparts) as (ek & _ & He). unfold encrypt_contact_hash_key_backup in He.
  destruct (aead_encrypt _ _ _ _) as [c|] eqn:E; [|done]. injection He as <-.
  split; [by eapply aead_bytes|by eapply aead_tagged].
Qed.

Lemma backup_fields_ok : Forall field_ok (backup_fields salt nonce ciphertext).
Proof using Hparts H1 aead_tagged.
  destruct (parts_salt _ _ _ _ _ Hparts) as [_ Hs], (parts_nonce _ _ _ _ _ Hparts) as [_ Hn].
  destruct ciphertext_shape as [_ Hc]. unfold backup_fields.
  assert (∀ k v, forallb (λ c, negb (c =? 61)) k && non_empty k = true → v ≠ [] → field_ok (k, v)) as Hok.
  { intros k v [Hk Hne]%andb_prop Hv. split_and!; [|by destruct k|done]. cbn [fst].
    rewrite forallb_forall in Hk. apply Forall_forall. intros c Hin ->.
    by apply list_elem_of_In, Hk in Hin. }
  do 5 (apply Forall_cons; split; [apply Hok; [reflexivity|vm_compute; discriminate]|]).
  do 2 (apply Forall_cons; split; [apply Hok; [reflexivity|apply hex_bytes_ne; intros ->; discriminate]|]).
  apply Forall_cons. split; [apply Hok; [reflexivity|by apply hex_bytes_ne]|constructor].
Qed.

Lemma require_ok fields k v t :
  fields !! k = Some v → of_result (require_backup_field fields k v) t = (t, Some (Ok tt)).
Proof.
  intros Hk. unfold of_result, pure_result, require_backup_field, required_backup_value. rewrite Hk.
  cbn [ok_or result_bind]. by rewrite (proj2 (str_eqb_eq v v) eq_refl).
Qed.

Lemma value_ok fields k v t :
  fields !! k = Some v → of_result (required_backup_value fields k) t = (t, Some (Ok v)).
Proof. intros Hk. unfold of_result, pure_result, required_backup_value. by rewrite Hk. Qed.

Ltac find_field := unfold backup_fields; repeat first [left | right].

Lemma parse_backup_ok t :
  parse_backup passphrase (map (λ kv, field_line kv.1 kv.2) (backup_fields salt nonce ciphertext) ++ [[]]) t
  = (t, Some (Ok key)).
Proof using Hparts H1 aead_tagged.
  set (fields := fields_of ∅ (backup_fields salt nonce ciphertext)).
  assert (∀ k v, (k, v) ∈ backup_fields salt nonce ciphertext → fields !! k = Some v) as Hl.
  { intros k v. apply fields_of_lookup, backup_fields_keys. }
  unfold parse_backup. rewrite (bind_step _ _ t t fields).
  2: { unfold of_result, pure_result. rewrite parse_field_lines; [done|apply backup_fields_keys| |apply backup_fields_ok].
       apply Forall_forall. intros k _. apply lookup_empty. }
  do 5 (erewrite bind_step; [|apply require_ok, Hl; find_field]).
  destruct (parts_salt _ _ _ _ _ Hparts), (parts_nonce _ _ _ _ _ Hparts), ciphertext_shape as [Hc _].
  destruct (parts_cipher _ _ _ _ _ Hparts) as (ek & Hd & He).
  erewrite bind_step; [|apply value_ok, (Hl _ (hex_bytes salt)); find_field].
  erewrite bind_step; [|unfold pure_result; by rewrite decode_fixed_roundtrip].
  erewrite bind_step; [|apply value_ok, (Hl _ (hex_bytes nonce)); find_field].
  erewrite bind_step; [|unfold pure_result; by rewrite decode_fixed_roundtrip].
  erewrite bind_step; [|apply value_ok, (Hl _ (hex_bytes ciphertext)); find_field].
  erewrite bind_step; [|unfold pure_result; by rewrite decode_backup_hex_roundtrip].
  erewrite bind_step; [|unfold of_result, pure_result; by rewrite Hd].
  unfold of_result, pure_result, decrypt_contact_hash_key_backup. unfold encrypt_contact_hash_key_backup in He.
  destruct (aead_encrypt _ _ _ _) as [c|] eqn:E; [|done]. injection He as ->.
  apply aead_roundtrip in E. rewrite E. cbn [ok_or result_bind].
  by rewrite (proj2 (parts_key _ _ _ _ _ Hparts)).
Qed.
End restore.

(** Characters of a backup line. *)
Definition line_char (c : char) : bool := (0 <=? c) && (c <? 128) && negb (c =? 10) && negb (c =? 13).

Lemma line_chars_ok w : forallb line_char w = true → ascii_str w = true ∧ line_ok w.
Proof.
  intros Hw. rewrite forallb_forall in Hw. split.
  - apply forallb_forall. intros c Hc%Hw. unfold line_char in Hc. bools. lia.
  - apply Forall_forall. intros c Hc%list_elem_of_In%Hw. unfold line_char in Hc. bools. lia.
Qed.

Lemma hex_line_chars bs : Forall is_byte bs → forallb line_char (hex_bytes bs) = true.
Proof.
  intros Hb%hex_bytes_hexdigit. rewrite forallb_forall in Hb |- *. intros c Hc%Hb.
  unfold is_ascii_hexdigit, is_ascii_digit in Hc. unfold line_char. bools; lia.
Qed.

Lemma ascii_unlines ls : Forall (λ l, ascii_str l = true) ls → ascii_str (unlines ls) = true.
Proof.
  unfold unlines, ascii_str. induction 1 as [|w ls Hw _ IH]; [done|]. cbn [map concat].
  by rewrite !forallb_app, Hw, IH.
Qed.

(** A backup file of the parts, as it is read. *)
Lemma backup_text_ok `{Argon2id} `{AeadLaws} (passphrase key salt nonce ciphertext : list Z) :
  (∀ key nonce aad msg c, aead_encrypt key nonce aad msg = Some c → c ≠ []) →
  backup_parts passphrase key salt nonce ciphertext →
  ∃ text, from_utf8 (utf8 (unlines (backup_lines salt nonce ciphertext)) ++ [10]) = Some text
    ∧ str_lines text = CONTACT_HASH_KEY_BACKUP_SCHEMA_VERSION
        :: map (λ kv, field_line kv.1 kv.2) (backup_fields salt nonce ciphertext) ++ [[]].
Proof.
  intros Htag Hparts.
  destruct (parts_salt _ _ _ _ _ Hparts) as [Hs _], (parts_nonce _ _ _ _ _ Hparts) as [Hn _].
  destruct (ciphertext_shape Htag _ _ _ _ _ Hparts) as [Hc _].
  set (ls := backup_lines salt nonce ciphertext ++ [[]]).
  assert (Forall (λ l, forallb line_char l = true) ls) as Hls.
  { unfold ls, backup_lines. cbn [app].
    do 6 (apply Forall_cons; split; [reflexivity|]).
    do 3 (apply Forall_cons; split; [unfold field_line; rewrite !forallb_app, hex_line_chars by done; reflexivity|]).
    by apply Forall_cons. }
  assert (unlines (backup_lines salt nonce ciphertext) ++ [10] = unlines ls) as Heq.
  { unfold ls, unlines. by rewrite map_app, concat_app. }
  assert (ascii_str (unlines ls) = true) as Ha.
  { apply ascii_unlines. eapply Forall_impl; [exact Hls|]. intros l Hl. by apply line_chars_ok. }
  exists (unlines ls). split.
  - assert (ascii_str (unlines (backup_lines salt nonce ciphertext)) = true) as Hb.
    { unfold ascii_str in *. rewrite <-Heq, forallb_app in Ha. by apply andb_prop in Ha as [Ha _]. }
    rewrite utf8_ascii, Heq by done. by apply from_utf8_ascii.
  - rewrite unlines_lines; [done|]. eapply Forall_impl; [exact Hls|]. intros l Hl. by apply line_chars_ok.
Qed.

(** ** Restoring *)

Lemma key_path_parent data_dir :
  path_parent (contact_hash_key_path data_dir) = Some (data_dir ++ [lit "secrets"]).
Proof.
  change (contact_hash_key_path data_dir) with ((data_dir ++ [lit "secrets"]) ++ [lit "contact-hash-key-v1"]).
  unfold path_parent. rewrite reverse_snoc. replace (str_eqb _ (lit "/")) with false by done.
  cbn [andb]. by rewrite reverse_involutive.
Qed.

Lemma quiet_io {A} e (call : Io A) s t a :
  faults s = [] → call s = (t, Some a) → io e (system_call call) s = (t, Some (Ok a)).
Proof. intros Hq Hc. unfold io. by rewrite quiet_call, Hc. Qed.

Lemma quiet_write_all e p bytes s :
  faults s = [] → io e (write_all p bytes) s = (append_bytes p bytes s, Some (Ok tt)).
Proof. intros Hq. unfold io, write_all, next_fault. by rewrite Hq. Qed.

Lemma append_faults p bytes s : faults (append_bytes p bytes s) = faults s.
Proof. unfold append_bytes. by destruct (files s !! p). Qed.

(** A new key file is written and made private. *)
Lemma quiet_new_key data_dir key s :
  let p := contact_hash_key_path data_dir in
  faults s = [] → files s !! p = None → Forall is_byte key → length key = CONTACT_HASH_KEY_LEN →
  ∃ t, (let* _ := write_new_key_file p (utf8 (hex_bytes key)) in restrict_key_permissions p) s
       = (t, Some (Ok tt)) ∧ faults t = [] ∧ ready_key data_dir t key.
Proof.
  intros p Hq Hp Hk Hl. set (mode := Z.land PRIVATE_MODE (Z.lnot (umask s))).
  set (s1 := set_files (<[p := MkFile [] mode]> (files s)) s).
  assert (faults s1 = []) as Hq1 by done.
  set (s2 := append_bytes p (utf8 (hex_bytes key)) s1).
  assert (faults s2 = []) as Hq2 by (unfold s2; by rewrite append_faults).
  set (s3 := append_bytes p [10] s2).
  assert (faults s3 = []) as Hq3 by (unfold s3; by rewrite append_faults).
  assert (write_new_key_file p (utf8 (hex_bytes key)) s = (s3, Some (Ok tt))) as Hw.
  { unfold write_new_key_file, open_new, sync_all.
    rewrite (bind_step _ _ s s1 tt) by (apply quiet_io; [done|by rewrite Hp]).
    rewrite (bind_step _ _ s1 s2 tt) by (by apply quiet_write_all).
    rewrite (bind_step _ _ s2 s3 tt) by (by apply quiet_write_all). by apply quiet_io. }
  assert (files s2 !! p = Some (MkFile (utf8 (hex_bytes key)) mode)) as Hf2.
  { unfold s2. by rewrite (append_lookup _ _ s1 (MkFile [] mode)) by apply lookup_insert_eq. }
  pose proof (append_lookup p [10] s2 _ Hf2 : files s3 !! p = _) as Hf3. cbn [file_bytes file_mode] in Hf3.
  rewrite (bind_step _ _ _ _ _ Hw), (quiet_restrict p s3 _ Hq3 Hf3). eexists. split_and!; [done|done|].
  eexists. split_and!; [apply lookup_insert_eq| |done]. by apply key_file_content.
Qed.

Lemma read_ready_ok data_dir s t key :
  read_ready_contact_hash_key data_dir s = (t, Some (Ok key)) → holds_key data_dir t key.
Proof.
  unfold read_ready_contact_hash_key. intros (u & state & _ & H)%bind_ok.
  destruct state; try done. apply bind_ok in H as (v & text & Hr%io_ok%read_ok & [= <- Hd]).
  destruct Hr as (Hf & f & Hp & Ht). exists f. rewrite Hf. split; [done|]. by exists text.
Qed.

Section roundtrip.
Context `{Argon2id} `{AeadLaws}.

(** A successful backup leaves its file, made of the key of the directory. *)
Lemma backup_ok data_dir backup_path passphrase s t :
  backup_contact_hash_key data_dir backup_path passphrase s = (t, Some (Ok tt)) →
  (∀ u, validate_backup_passphrase passphrase u = (u, Some (Ok tt))) ∧
  ∃ key salt nonce ciphertext f, holds_key data_dir t key
    ∧ backup_parts passphrase key salt nonce ciphertext
    ∧ files t !! backup_path = Some f
    ∧ file_bytes f = utf8 (unlines (backup_lines salt nonce ciphertext)) ++ [10].
Proof.
  unfold backup_contact_hash_key. intros (u0 & [] & Hv & (u1 & key & Hk & H2)%bind_ok)%bind_ok.
  split. { unfold validate_backup_passphrase in *. by destruct (_ || _). }
  apply read_ready_ok in Hk as Hkey.
  assert (kept u1 t) as Hkept.
  { change t with (fst (t, Some (Ok tt : result unit PrivacyErrorKind))). rewrite <-H2. revert u1 Hk Hkey H2.
    intros u1 _ _ _. revert u1. match goal with |- ∀ u, kept u (?m u).1 => change (keeps m) end.
    unfold restrict_key_permissions. keeps_auto. }
  apply bind_ok in H2 as (u2 & [] & _ & (u3 & salt & Hs%io_ok%getrandom_ok & (u4 & nonce & Hn%io_ok%getrandom_ok & H2)%bind_ok)%bind_ok).
  apply bind_ok in H2 as (u5 & ek & [= _ Hd] & (u6 & ct & [= _ He] & H2)%bind_ok).
  apply bind_ok in H2 as (u7 & [] & (g & Hg & Hb)%write_new_ok & (f & Hf & Ht)%restrict_ok).
  exists key, salt, nonce, ct, (MkFile (file_bytes f) PRIVATE_MODE). split_and!.
  - by eapply holds_key_kept.
  - destruct Hkey as (kf & _ & Hc). apply key_content_shape in Hc. split; [done..|eauto|done].
  - done.
  - simplify_eq. done.
Qed.

Lemma quiet_read_backup backup_path passphrase key salt nonce ciphertext s f :
  (∀ key nonce aad msg c, aead_encrypt key nonce aad msg = Some c → c ≠ []) →
  backup_parts passphrase key salt nonce ciphertext →
  faults s = [] → files s !! backup_path = Some f →
  file_bytes f = utf8 (unlines (backup_lines salt nonce ciphertext)) ++ [10] →
  read_backup_contact_hash_key backup_path passphrase s = (s, Some (Ok key)).
Proof.
  intros Htag Hparts Hq Hf Hb. destruct (backup_text_ok _ _ _ _ _ Htag Hparts) as (text & Ht & Hl).
  rewrite <-Hb in Ht. unfold read_backup_contact_hash_key.
  rewrite (bind_step _ _ _ _ _ (quiet_read backup_path s f Hq Hf Storage text Ht)), Hl.
  rewrite (proj2 (str_eqb_eq _ _) eq_refl). cbn [negb]. by apply parse_backup_ok.
Qed.

(** C16: a backup that was written restores the key.  Whatever happens afterwards, and
    whatever failed before, restoring it with the same passphrase into a directory
    without a key succeeds on a machine without failures; the restored key is inspected
    as ready, and loading gives the key of the directory that was backed up. *)
Theorem backup_restores_key source target backup_path passphrase ops s t :
  (∀ key nonce aad msg c, aead_encrypt key nonce aad msg = Some c → c ≠ []) →
  backup_contact_hash_key source backup_path passphrase s = (t, Some (Ok tt)) →
  let u := run_operations ops t in
  faults u = [] → files u !! contact_hash_key_path target = None →
  ∃ v h, restore_contact_hash_key target backup_path passphrase u = (v, Some (Ok tt))
    ∧ inspect_contact_hash_key target v = (v, Some (Ok Ready))
    ∧ (load_or_create target v).2 = Some (Ok h)
    ∧ (load_or_create source u).2 = Some (Ok h).
Proof.
  intros Htag (Hv & key & salt & nonce & ct & f & Hkey & Hparts & Hf & Hb)%backup_ok u Hq Habs.
  pose proof (run_operations_keep ops t : kept t u) as Hkept.
  apply (holds_key_kept _ _ _ _ Hkept) in Hkey.
  apply Hkept in Hf as (g & Hg & Hgb). rewrite Hb in Hgb.
  destruct (parts_key _ _ _ _ _ Hparts) as [Hk Hl].
  destruct (quiet_new_key target key u Hq Habs Hk Hl) as (v & Hw & Hqv & Hr).
  exists v, (MkContactHasher key). split_and!.
  - unfold restore_contact_hash_key, create_dir_all. rewrite (bind_step _ _ _ _ _ (Hv u)).
    rewrite (bind_step _ _ u u false) by (apply quiet_io; [done|by rewrite Habs]).
    rewrite (bind_step _ _ u u key) by (by eapply quiet_read_backup).
    rewrite key_path_parent. rewrite (bind_step _ _ u u (target ++ [lit "secrets"])) by done.
    rewrite (bind_step _ _ u u tt) by (by apply quiet_io). exact Hw.
  - by eapply quiet_inspect.
  - destruct Hr as (kf & Hkf & Hc & _).
    destruct (quiet_load target v key Hqv) as (? & -> & _); [by exists kf|done].
  - by destruct (quiet_load source u key Hq Hkey) as (? & -> & _).
Qed.
End roundtrip.

(** ** A defect of the decoder *)

(** C37: a defect.  A key file of 64 bytes whose second character is not ASCII, a damaged
    file, should be inspected as invalid; the slice [&value[0..2]] ends inside that
    character, so inspecting and loading the key both panic. *)
Theorem multibyte_key_panics data_dir s f text c d rest :
  faults s = [] → files s !! contact_hash_key_path data_dir = Some f →
  from_utf8 (file_bytes f) = Some text → trim text = c :: d :: rest →
  c < 128 → 128 ≤ d → str_len (c :: d :: rest) = CONTACT_HASH_KEY_HEX_LEN →
  (inspect_contact_hash_key data_dir s).2 = None ∧ (load_or_create data_dir s).2 = None.
Proof.
  intros Hq Hf Ht Htrim Hc Hd Hlen.
  assert (decode_key_hex (trim text) = None) as Hnone.
  { unfold decode_key_hex. rewrite Htrim, Hlen, Z.eqb_refl. cbn [negb]. unfold pair_starts.
    change (seqZ 0 (Z.of_nat CONTACT_HASH_KEY_LEN)) with (0 :: seqZ 1 31). cbn [map decode_slots].
    assert (byte_slice (c :: d :: rest) (0 * 2) (0 * 2 + 2) = None) as ->; [|done].
    change (byte_take (c :: d :: rest) 2 = None). cbn [byte_take]. unfold len_utf8.
    rewrite (proj2 (Z.ltb_lt c 0x80)), (proj2 (Z.ltb_ge d 0x80)) by lia. by repeat case_match. }
  split.
  - unfold inspect_contact_hash_key. rewrite (quiet_try_exists _ _ f Hq Hf), (quiet_read_text _ _ f Hq Hf text Ht).
    by rewrite Hnone.
  - unfold load_or_create. set (p := contact_hash_key_path data_dir) in *.
    set (t := set_files (<[p := MkFile (file_bytes f) PRIVATE_MODE]> (files s)) s).
    assert (files t !! p = Some (MkFile (file_bytes f) PRIVATE_MODE)) as Hp by apply lookup_insert_eq.
    rewrite (bind_step _ _ _ _ _ (quiet_exists p s f Hq Hf)).
    rewrite (bind_step _ _ _ _ _ (quiet_restrict p s f Hq Hf)).
    rewrite (bind_step _ _ _ _ _ (quiet_read p t _ Hq Hp Storage text Ht)).
    unfold bind, pure_result. by rewrite Hnone.
Qed.

(** ** Keyed hashes are bound to their kind and value *)

Lemma contact_preimage_inj k k' v v' :
  Forall valid_char v → Forall valid_char v' →
  utf8 (domain_separator k) ++ [0] ++ utf8 v = utf8 (domain_separator k') ++ [0] ++ utf8 v' →
  k = k' ∧ v = v'.
Proof.
  intros Hv Hv' Heq. apply app_inj_1 in Heq as [Hd Hr]; [|destruct k, k'; vm_compute; reflexivity].
  injection Hr as Hr. split; [|by apply utf8_inj].
  destruct k, k'; try reflexivity; vm_compute in Hd; discriminate Hd.
Qed.

Lemma hash_contact_ok `{HmacSha256Laws} h kind value :
  hash_contact h kind value
  = Ok (MkContactHash (hex_bytes (hmac_sha256 (hasher_key h)
          (utf8 (domain_separator kind) ++ [0] ++ utf8 value)))).
Proof.
  unfold hash_contact. set (digest := hmac_sha256 _ _).
  pose proof (hmac_bytes _ _ : Forall is_byte digest) as Hb.
  pose proof (hmac_length _ _ : length digest = 32%nat) as Hl.
  assert (to_ascii_lowercase (hex_bytes digest) = hex_bytes digest) as Hlow.
  { pose proof (hex_bytes_lower _ Hb) as Hx. induction (hex_bytes digest) as [|c l IH]; [done|].
    cbn [forallb] in Hx. apply andb_prop in Hx as [Hc Hx]. cbn [to_ascii_lowercase map]. f_equal; [|by apply IH].
    unfold is_lower_hexdigit, is_ascii_digit in Hc. unfold char_to_ascii_lowercase, is_ascii_uppercase.
    destruct ((65 <=? c) && (c <=? 90)) eqn:E; [exfalso; bools; lia|done]. }
  unfold from_keyed_digest. rewrite Hlow. unfold validate_contact_hash.
  rewrite hex_bytes_str_len, Hl by done. cbn [negb].
  rewrite forallb_utf8_ascii by apply is_ascii_hexdigit_ascii. by rewrite hex_bytes_hexdigit.
Qed.

Definition contact_message (kind : ContactKind) (value : str) : list Z :=
  utf8 (domain_separator kind) ++ [0] ++ utf8 value.

(** Hashing a contact always gives a hash, and two equal hashes under one key are of
    the same kind and value, unless the messages of these very contacts have the same
    HMAC. *)
Theorem hash_contact_binding `{HmacSha256Laws} h kind kind' value value' :
  Forall valid_char value → Forall valid_char value' →
  (∃ hash, hash_contact h kind value = Ok hash ∧ str_len (contact_hash_str hash) = 64)
  ∧ (hash_contact h kind value = hash_contact h kind' value' →
     (kind = kind' ∧ value = value')
     ∨ collide (hmac_sha256 (hasher_key h)) (contact_message kind value) (contact_message kind' value')).
Proof.
  intros Hv Hv'. rewrite !hash_contact_ok. split.
  - eexists. split; [done|]. cbn [contact_hash_str]. by rewrite hex_bytes_str_len, hmac_length by apply hmac_bytes.
  - intros [= Heq]. apply hex_bytes_inj in Heq; [|apply hmac_bytes..].
    destruct (decide (utf8 (domain_separator kind) ++ [0] ++ utf8 value
                      = utf8 (domain_separator kind') ++ [0] ++ utf8 value')) as [Hp|Hp].
    + left. by apply contact_preimage_inj.
    + by right.
Qed.

(** ** A machine with a key *)

Module ContactKeysDemo.

#[local] Existing Instance VectorPublication.VectorDemo.plain_cipher.
#[local] Existing Instance VectorPublication.VectorDemo.plain_cipher_laws.
#[local] Instance sample_kdf : Argon2id := λ _ _ _ n passphrase salt, Some (replicate n (Z.of_nat (length passphrase))).
#[local] Instance sample_hmac : HmacSha256 := λ key msg,
  replicate 32 (fold_left (λ a b, a * 31 + b) (key ++ msg) 0 `mod` 256).

#[local] Instance sample_hmac_laws : HmacSha256Laws.
Proof.
  split; intros key msg; [apply length_replicate|]. apply Forall_replicate.
  unfold is_byte. apply Z.mod_pos_bound. lia.
Qed.

Definition home : path := [lit "d"].
Definition other : path := [lit "e"].
Definition backup_file : path := [lit "b"; lit "k"].
Definition passphrase : list Z := utf8 (lit "synthetic phrase").

(** A machine with three random answers. *)
Definition fresh_machine : Machine :=
  MkMachine ∅ 18 [] [(λ i, Z.of_nat i); (λ i, Z.of_nat i + 7); (λ i, Z.of_nat i + 9)].

Definition home_hasher : ContactHasher := MkContactHasher (map Z.of_nat (seq 0 32)).
Definition loaded : Machine := (load_or_create home fresh_machine).1.
Definition backed_up : Machine := (backup_contact_hash_key home backup_file passphrase loaded).1.

Lemma step_result {A B} (x : A * B) r : x.2 = r → x = (x.1, r).
Proof. intros <-. by destruct x. Qed.

Example backup_is_written :
  (backup_contact_hash_key home backup_file passphrase loaded).2 = Some (Ok tt).
Proof. vm_compute. reflexivity. Qed.

Example key_is_created : (load_or_create home fresh_machine).2 = Some (Ok home_hasher).
Proof. vm_compute. reflexivity. Qed.

Example blank_passphrase_is_refused :
  (backup_contact_hash_key home backup_file (replicate 20 32) loaded).2 = Some (Err WeakPassphrase).
Proof. vm_compute. reflexivity. Qed.

Example existing_key_is_not_restored :
  (restore_contact_hash_key home backup_file passphrase backed_up).2 = Some (Err AlreadyExists).
Proof. vm_compute. reflexivity. Qed.

(** A write that fails after ten bytes leaves a file that is inspected as invalid. *)
Example torn_key_is_invalid :
  let torn := (load_or_create home (set_faults [Fine; Fine; Fine; Partial 10] fresh_machine)).1 in
  (inspect_contact_hash_key home torn).2 = Some (Ok Invalid).
Proof. vm_compute. reflexivity. Qed.

Lemma contact_key_stable_witness :
  ∃ u, load_or_create home (run_operations [OpInspect home] loaded)
       = (u, Some (Ok home_hasher))
       ∧ inspect_contact_hash_key home u = (u, Some (Ok Ready)).
Proof.
  apply (contact_key_stable home fresh_machine).
  - exact (step_result _ _ key_is_created).
  - vm_compute. reflexivity.
Defined.

Lemma backup_restores_key_witness :
  ∃ v h, restore_contact_hash_key other backup_file passphrase backed_up = (v, Some (Ok tt))
    ∧ inspect_contact_hash_key other v = (v, Some (Ok Ready))
    ∧ (load_or_create other v).2 = Some (Ok h)
    ∧ (load_or_create home backed_up).2 = Some (Ok h).
Proof.
  apply (backup_restores_key home other backup_file passphrase [] loaded backed_up).
  - intros key nonce aad msg c [= <-]. by destruct (forallb _ msg).
  - exact (step_result _ _ backup_is_written).
  - vm_compute. reflexivity.
  - vm_compute. reflexivity.
Defined.

(** A key file of 64 bytes that starts with a letter and a two-byte character. *)
Definition damaged_text : str := 97 :: 233 :: replicate 61 97.
Definition damaged_machine : Machine :=
  MkMachine {[contact_hash_key_path home := MkFile (utf8 damaged_text) PRIVATE_MODE]} 18 [] [].

Lemma multibyte_key_panics_witness :
  (inspect_contact_hash_key home damaged_machine).2 = None
  ∧ (load_or_create home damaged_machine).2 = None.
Proof.
  apply (multibyte_key_panics home damaged_machine (MkFile (utf8 damaged_text) PRIVATE_MODE)
           damaged_text 97 233 (replicate 61 97)); vm_compute; reflexivity || discriminate.
Defined.

Lemma hash_contact_binding_witness :
  (∃ hash, hash_contact home_hasher Email [97] = Ok hash ∧ str_len (contact_hash_str hash) = 64)
  ∧ (hash_contact home_hasher Email [97] = hash_contact home_hasher Phone [97] →
     (Email = Phone ∧ [97 : Z] = [97])
     ∨ collide (hmac_sha256 (hasher_key home_hasher)) (contact_message Email [97]) (contact_message Phone [97])).
Proof.
  apply (hash_contact_binding home_hasher Email Phone [97] [97]);
    constructor; [left; lia|constructor|left; lia|constructor].
Defined.
End ContactKeysDemo.
