(* ===== verification/Classifier.v ===== *)
(** * Resume classifier (crates/resume-classifier)

    The deterministic, precision-first rules that decide whether a text is admitted to
    the search index, and the optional local linear model that may promote a review to
    an admission.  The Unicode tables of the standard library are the class [Unicode],
    the natural logarithm and the exponential of the mathematical library the class
    [Libm], and the JSON decoder of the model file the class [ArtifactCodec]. *)

From Stdlib Require Import ZArith String.
From stdpp Require Import prelude gmap list_numbers.
From Corelib Require Import SpecFloat.
From S2P Require Import Prelude Collections Float32 Float64 Text Identity Sectionizer WriterStore.

Local Open Scope Z_scope.

Definition MAX_REASON_CODES : nat := 8.
Definition MIN_RESUME_HEADING_FAMILIES : Z := 2.

(** ** Inputs and results *)

Inductive ClassifierInput := NormalizedText (text : str) | OcrBacklogInput | FailedInput.

Inductive ClassificationStatus := ResumeCandidate | NonResume | NeedsReview | OcrBacklogStatus | FailedStatus.

Inductive ReasonCode :=
| ProfileHeading | ExperienceHeading | EducationHeading | SkillsHeading | CareerHistoryDetail
| InvoiceHeading | InvoiceTerms | MeetingHeading | MeetingWorkflow | ManualHeading
| ManualInstructions | CorroboratedResumeSignals | CorroboratedNonResumeSignals
| ConflictingSignalFamilies | InsufficientSignalFamilies | EmptyNormalizedText
| ReasonOcrRequired | ReasonParserFailed.

#[export] Instance ClassificationStatus_eq_dec : EqDecision ClassificationStatus.
Proof. solve_decision. Defined.
#[export] Instance ReasonCode_eq_dec : EqDecision ReasonCode.
Proof. solve_decision. Defined.

Record ClassificationResult := MkClassificationResult {
  class_status : ClassificationStatus;
  class_reason_codes : list ReasonCode;
  class_positive_signal_components : Z;
  class_negative_signal_components : Z;
  class_classifier_epoch : str;
}.

Definition is_conflict_free_safe_gray (self : ClassificationResult) : bool :=
  bool_decide (class_status self = NeedsReview)
  && bool_decide (hd_error (class_reason_codes self) = Some InsufficientSignalFamilies).

Definition promote_to_resume_candidate (self : ClassificationResult) : ClassificationResult :=
  MkClassificationResult ResumeCandidate
    (take MAX_REASON_CODES (CorroboratedResumeSignals :: class_reason_codes self))
    (class_positive_signal_components self) (class_negative_signal_components self)
    (class_classifier_epoch self).

Definition set_classifier_epoch (epoch : str) (self : ClassificationResult) : ClassificationResult :=
  MkClassificationResult (class_status self) (class_reason_codes self)
    (class_positive_signal_components self) (class_negative_signal_components self) epoch.

(** ** Signals *)

Definition PROFILE_HEADINGS : list str := map lit ["profile"; "summary"; "professional summary"; "个人简介"]%string.
Definition EXPERIENCE_HEADINGS : list str :=
  map lit ["experience"; "work experience"; "professional experience"; "工作经历"]%string.
Definition EDUCATION_HEADINGS : list str :=
  map lit ["education"; "education background"; "教育经历"; "教育背景"]%string.
Definition SKILLS_HEADINGS : list str := map lit ["skills"; "technical skills"; "技能"; "专业技能"]%string.
Definition INVOICE_HEADINGS : list str := map lit ["invoice"; "tax invoice"; "发票"; "账单"]%string.
Definition MEETING_HEADINGS : list str :=
  map lit ["meeting notes"; "meeting minutes"; "会议纪要"; "会议记录"]%string.
Definition MANUAL_HEADINGS : list str := map lit ["device manual"; "user manual"; "设备手册"]%string.

Definition INVOICE_PHRASES : list str :=
  map lit ["subtotal"; "payment terms"; "amount due"; "invoice number"; "税额"; "应付金额"]%string.
Definition MEETING_PHRASES : list str :=
  map lit ["agenda"; "action items"; "meeting minutes"; "decision to"; "议程"; "行动项"]%string.
Definition MANUAL_PHRASES : list str :=
  map lit ["maintenance"; "safety"; "startup"; "connect the cable"; "installation steps";
           "troubleshooting"; "维护"; "安全指南"]%string.

Definition HISTORY_ACTIONS : list str :=
  map lit ["achieved"; "analyzed"; "architected"; "automated"; "built"; "collaborated"; "conducted";
           "coordinated"; "created"; "delivered"; "deployed"; "designed"; "developed"; "engineered";
           "established"; "implemented"; "improved"; "increased"; "launched"; "led"; "maintained";
           "managed"; "operated"; "optimized"; "owned"; "reduced"; "resolved"; "streamlined";
           "supported"]%string.
Definition HISTORY_PREFIXES : list str :=
  map lit ["主导"; "参与"; "协助"; "完成"; "搭建"; "推动"; "构建"; "管理"; "设计"; "负责"; "开发";
           "实现"; "优化"; "维护"; "制定"; "提升"; "分析"; "招聘"; "建立"; "编写"; "测试"; "运营";
           "组织"; "销售"; "监控"; "执行"; "担任"; "获得"; "降低"; "协调"; "培训"]%string.

(** [str::lines]. *)
Definition strip_line_ending (line : str) : str :=
  match strip_suffix [10] line with
  | None => line
  | Some line => default line (strip_suffix [13] line)
  end.
Definition lines (text : str) : list str := map strip_line_ending (split_inclusive text).

Section rules.
Context `{Unicode}.

Definition normalized_heading (line : str) : str :=
  str_to_lowercase (trim (trim_end_matches (λ c, (c =? 58) || (c =? 0xFF1A)) (trim line))).

Definition normalized_headings (text : str) : list str :=
  List.filter non_empty (map normalized_heading (lines text)).

Definition has_heading (headings accepted : list str) : bool :=
  existsb (λ heading, str_in heading accepted) headings.

Definition contains_at_least (text : str) (phrases : list str) (minimum : nat) : bool :=
  Nat.leb minimum (length (List.filter (λ phrase, contains phrase text) phrases)).

Definition is_bullet (c : char) : bool :=
  is_whitespace c || (c =? 45) || (c =? 42) || (c =? 0x2022) || (c =? 0xB7).

Definition starts_with_history_action (line : str) : bool :=
  let normalized := str_to_lowercase (trim_start_matches is_bullet line) in
  let first_token := default [] (hd_error (split_on (λ c, negb (is_alphanumeric c)) normalized)) in
  str_in first_token HISTORY_ACTIONS || existsb (λ p, starts_with p normalized) HISTORY_PREFIXES.

Definition is_section_boundary (line heading : str) : bool :=
  existsb (λ accepted, str_in heading accepted) [PROFILE_HEADINGS; EDUCATION_HEADINGS; SKILLS_HEADINGS]
  || ((chars_count heading <=? 40) && existsb is_ascii_alphabetic line
      && negb (existsb is_ascii_lowercase line)).

(** The loop of [experience_section_has_history_detail]. *)
Fixpoint history_detail_loop (in_experience : bool) (ls : list str) : bool :=
  match ls with
  | [] => false
  | line :: ls =>
      let heading := normalized_heading line in
      if str_in heading EXPERIENCE_HEADINGS then history_detail_loop true ls
      else if in_experience && is_section_boundary line heading then false
      else if negb in_experience then history_detail_loop in_experience ls
      else if starts_with_history_action line then true
      else history_detail_loop in_experience ls
  end.
Definition experience_section_has_history_detail (text : str) : bool :=
  history_detail_loop false (lines text).

(** ** Classification *)

Definition classification (status : ClassificationStatus) (reason_codes : list ReasonCode)
    (positive negative : Z) : ClassificationResult :=
  MkClassificationResult status (take MAX_REASON_CODES reason_codes) positive negative CLASSIFIER_EPOCH.

Definition collect_reasons (primary : ReasonCode) (signals : list (bool * ReasonCode)) : list ReasonCode :=
  take MAX_REASON_CODES
    (primary :: omap (λ x : bool * ReasonCode, if x.1 then Some x.2 else None) signals).

Definition count_matches (signals : list (bool * ReasonCode)) : Z :=
  Z.of_nat (length (List.filter fst signals)).

Definition positive_signals (text : str) : list (bool * ReasonCode) :=
  let headings := normalized_headings text in
  [(has_heading headings PROFILE_HEADINGS, ProfileHeading);
   (has_heading headings EXPERIENCE_HEADINGS, ExperienceHeading);
   (has_heading headings EDUCATION_HEADINGS, EducationHeading);
   (has_heading headings SKILLS_HEADINGS, SkillsHeading);
   (experience_section_has_history_detail text, CareerHistoryDetail)].

Definition negative_signals (text : str) : list (bool * ReasonCode) :=
  let headings := normalized_headings text in
  let normalized_text := str_to_lowercase text in
  [(has_heading headings INVOICE_HEADINGS, InvoiceHeading);
   (contains_at_least normalized_text INVOICE_PHRASES 2, InvoiceTerms);
   (has_heading headings MEETING_HEADINGS, MeetingHeading);
   (contains_at_least normalized_text MEETING_PHRASES 2, MeetingWorkflow);
   (has_heading headings MANUAL_HEADINGS, ManualHeading);
   (contains_at_least normalized_text MANUAL_PHRASES 2, ManualInstructions)].

Definition has_corroborated_resume (text : str) : bool :=
  let headings := normalized_headings text in
  (MIN_RESUME_HEADING_FAMILIES <=? count_matches (take 4 (positive_signals text)))
  && has_heading headings EXPERIENCE_HEADINGS
  && experience_section_has_history_detail text.

Definition has_corroborated_negative (text : str) : bool :=
  let headings := normalized_headings text in
  let normalized_text := str_to_lowercase text in
  (has_heading headings INVOICE_HEADINGS && contains_at_least normalized_text INVOICE_PHRASES 2)
  || (has_heading headings MEETING_HEADINGS && contains_at_least normalized_text MEETING_PHRASES 2)
  || (has_heading headings MANUAL_HEADINGS && contains_at_least normalized_text MANUAL_PHRASES 2).

Definition classify_normalized_text (text : str) : ClassificationResult :=
  if is_empty (trim text) then classification FailedStatus [EmptyNormalizedText] 0 0
  else
    let positive := positive_signals text in
    let negative := negative_signals text in
    let positive_count := count_matches positive in
    let negative_count := count_matches negative in
    if has_corroborated_resume text && has_corroborated_negative text then
      classification NeedsReview (collect_reasons ConflictingSignalFamilies (positive ++ negative))
        positive_count negative_count
    else if has_corroborated_resume text then
      classification ResumeCandidate (collect_reasons CorroboratedResumeSignals positive)
        positive_count negative_count
    else if has_corroborated_negative text then
      classification NonResume (collect_reasons CorroboratedNonResumeSignals negative)
        positive_count negative_count
    else
      classification NeedsReview (collect_reasons InsufficientSignalFamilies (positive ++ negative))
        positive_count negative_count.

(** [classify], imported by the pipeline as [classify_resume]. *)
Definition classify_resume (input : ClassifierInput) : ClassificationResult :=
  match input with
  | NormalizedText text => classify_normalized_text text
  | OcrBacklogInput => classification OcrBacklogStatus [ReasonOcrRequired] 0 0
  | FailedInput => classification FailedStatus [ReasonParserFailed] 0 0
  end.
End rules.

(** ** Local linear promotion (linear_promotion.rs) *)

Definition ARTIFACT_SCHEMA : str := lit "resume_ir_linear_promotion_v1".
Definition FEATURE_CONTRACT : str := lit "bounded_normalized_text_plus_structure_v1".
Definition MAX_ARTIFACT_BYTES : Z := 32 * 1024 * 1024.
Definition MAX_FEATURES : Z := 250000.
Definition MAX_INPUT_CHARS_LIMIT : Z := 32768.

Inductive PromotionSection :=
| PromoProfile | PromoContact | PromoEducation | PromoExperience | PromoProject
| PromoSkill | PromoCertificate | PromoOtherChunk.

Record ArtifactEnvelope := MkEnvelope { env_model_json : str; env_model_sha256 : str }.

Record ArtifactFeature := MkFeature { feat_ngram : str; feat_idf : f64; feat_coefficient : f64 }.

Record ArtifactModel := MkArtifactModel {
  art_schema : str;
  art_classifier_epoch : str;
  art_feature_contract : str;
  art_max_input_chars : Z;
  art_threshold : f64;
  art_intercept : f64;
  art_features : list ArtifactFeature;
}.

Record LinearModel := MkLinearModel {
  lm_classifier_epoch : str;
  lm_max_input_chars : Z;
  lm_threshold : f64;
  lm_intercept : f64;
  lm_feature_ids : gmap str Z;
  lm_feature_weights : list (f64 * f64);
}.

(** [LinearPromotionPolicy(Option<Arc<LinearModel>>)]. *)
Definition LinearPromotionPolicy : Type := option LinearModel.

(** serde_json on the derived types of the artifact; the file system behind [try_load]. *)
Class ArtifactCodec := {
  envelope_from_slice : list Z → option ArtifactEnvelope;
  model_from_str : str → option ArtifactModel;
}.

(** [f64::ln] and [f64::exp]. *)
Class Libm := { f64_ln : f64 → f64; f64_exp : f64 → f64 }.

Definition f64_zero : f64 := S754_zero false.
Definition f64_one : f64 := f64_of_Z 1.

(** *** Features *)

Definition section_token (section : PromotionSection) : str :=
  lit match section with
      | PromoProfile => "profile" | PromoContact => "contact" | PromoEducation => "education"
      | PromoExperience => "experience" | PromoProject => "project" | PromoSkill => "skill"
      | PromoCertificate => "certificate" | PromoOtherChunk => "other_chunk"
      end.

Definition reason_token (reason : ReasonCode) : str :=
  lit match reason with
      | ProfileHeading => "profileheading" | ExperienceHeading => "experienceheading"
      | EducationHeading => "educationheading" | SkillsHeading => "skillsheading"
      | CareerHistoryDetail => "careerhistorydetail" | InvoiceHeading => "invoiceheading"
      | InvoiceTerms => "invoiceterms" | MeetingHeading => "meetingheading"
      | MeetingWorkflow => "meetingworkflow" | ManualHeading => "manualheading"
      | ManualInstructions => "manualinstructions"
      | CorroboratedResumeSignals => "corroborated_resume_signals"
      | CorroboratedNonResumeSignals => "corroborated_non_resume_signals"
      | ConflictingSignalFamilies => "conflicting_signal_families"
      | InsufficientSignalFamilies => "insufficient_signal_families"
      | EmptyNormalizedText => "empty_normalized_text"
      | ReasonOcrRequired => "ocr_required" | ReasonParserFailed => "parser_failed"
      end.

Definition is_safe_primary_reason (reason : ReasonCode) : bool :=
  match reason with
  | ProfileHeading | ExperienceHeading | EducationHeading | SkillsHeading | CareerHistoryDetail
  | InvoiceHeading | InvoiceTerms | MeetingHeading | MeetingWorkflow | ManualHeading
  | ManualInstructions => true
  | _ => false
  end.

Definition take_chars (text : str) (cap : Z) : str := take (Z.to_nat cap) text.

(** [None]: the slices would be out of range. *)
Definition bounded_head_tail (text : str) (cap : Z) : option str :=
  let len := chars_count text in
  if len <=? cap then Some text
  else
    let head := cap * 3 / 5 in
    let tail := cap - head in
    if (0 <=? head) && (head <=? len) && (0 <=? tail) && (tail <=? len) then
      Some (take (Z.to_nat head) text ++ drop (Z.to_nat (len - tail)) text)
    else None.

Definition structure_tokens (sections : list PromotionSection) (reasons : list ReasonCode) : list str :=
  map (λ s, lit "__section_" ++ section_token s ++ lit "__") (take 64 sections)
  ++ map (λ r, lit "__reason_" ++ reason_token r ++ lit "__")
       (List.filter is_safe_primary_reason (take MAX_REASON_CODES reasons)).

Definition bounded_feature_text (text : str) (sections : list PromotionSection)
    (reasons : list ReasonCode) (cap : Z) : option str :=
  let structure_cap := Z.min 1024 (cap / 4) in
  let structure := take_chars (join (lit " ") (structure_tokens sections reasons)) structure_cap in
  let body_cap := Z.max (Z.max 0 (cap - (chars_count structure + 1))) 1 in
  body ← bounded_head_tail text body_cap;
  let value := if is_empty structure then body else body ++ [10] ++ structure in
  Some (take_chars value cap).

Definition collapse_whitespace (text : str) : str := join (lit " ") (split_whitespace text).

(** [slice::windows(n)]. *)
Fixpoint windows (n : nat) (l : str) : list str :=
  match l with
  | [] => []
  | _ :: rest => if decide (n ≤ length l)%nat then take n l :: windows n rest else []
  end.

(** *** The model *)

(** The loop over the features of the artifact. *)
Fixpoint collect_features (fs : list ArtifactFeature) (features : list (str * (f64 * f64)))
    : option (list (str * (f64 * f64))) :=
  match fs with
  | [] => Some features
  | f :: fs =>
      let n := chars_count (feat_ngram f) in
      if negb ((3 <=? n) && (n <=? 5))
         || negb (f64_is_finite (feat_idf f)) || f64_le (feat_idf f) f64_zero
         || negb (f64_is_finite (feat_coefficient f))
         || bool_decide (is_Some (bmap_lookup (feat_ngram f) features))
      then None
      else collect_features fs
             (bmap_entry (feat_ngram f) (λ _, (feat_idf f, feat_coefficient f)) features)
  end.

(** [feature_ids.insert(ngram, id)] for the features in order. *)
Fixpoint assign_ids (id : Z) (features : list (str * (f64 * f64))) (ids : gmap str Z) : gmap str Z :=
  match features with
  | [] => ids
  | (ngram, _) :: features => assign_ids (id + 1) features (<[ngram := id]> ids)
  end.

Definition from_artifact (artifact : ArtifactModel) (classifier_epoch : str) : option LinearModel :=
  let n := Z.of_nat (length (art_features artifact)) in
  if negb (str_eqb (art_schema artifact) ARTIFACT_SCHEMA)
     || negb (str_eqb (art_classifier_epoch artifact) CLASSIFIER_EPOCH)
     || negb (str_eqb (art_feature_contract artifact) FEATURE_CONTRACT)
     || (art_max_input_chars artifact =? 0) || (MAX_INPUT_CHARS_LIMIT <? art_max_input_chars artifact)
     || (n =? 0) || (MAX_FEATURES <? n)
     || negb (f64_is_finite (art_threshold artifact))
     || f64_le (art_threshold artifact) f64_zero || f64_lt f64_one (art_threshold artifact)
     || negb (f64_is_finite (art_intercept artifact))
  then None
  else
    features ← collect_features (art_features artifact) [];
    Some (MkLinearModel classifier_epoch (art_max_input_chars artifact) (art_threshold artifact)
            (art_intercept artifact) (assign_ids 0 features ∅) features.*2).

Section promotion.
Context `{Unicode} `{Libm}.

Definition logistic_probability (score : f64) : f64 :=
  if f64_le f64_zero score then f64_div f64_one (f64_add f64_one (f64_exp (f64_neg score)))
  else let e := f64_exp score in f64_div e (f64_add f64_one e).

(** The counts of the known n-grams, by feature id. *)
Definition count_window (model : LinearModel) (values : list (Z * f64)) (window : str)
    : list (Z * f64) :=
  match lm_feature_ids model !! window with
  | Some id => bmap_entry id (λ old, f64_add (default f64_zero old) f64_one) values
  | None => values
  end.
Definition ngram_counts (model : LinearModel) (chars : str) : list (Z * f64) :=
  fold_left (λ values n,
      if decide (length chars < n)%nat then values
      else fold_left (count_window model) (windows n chars) values)
    [3; 4; 5]%nat [].

(** The loop that weighs the counts; [None] is its early [return false]. *)
Fixpoint weigh (model : LinearModel) (values : list (Z * f64)) (norm_squared : f64)
    : option (list (Z * f64) * f64) :=
  match values with
  | [] => Some ([], norm_squared)
  | (id, count) :: values =>
      match lm_feature_weights model !! Z.to_nat id with
      | None => None
      | Some (idf, _) =>
          let count := f64_mul (f64_add f64_one (f64_ln count)) idf in
          '(rest, norm_squared) ← weigh model values (f64_add norm_squared (f64_mul count count));
          Some ((id, count) :: rest, norm_squared)
      end
  end.

Definition linear_score (model : LinearModel) (norm : f64) (values : list (Z * f64)) : f64 :=
  fold_left (λ score (x : Z * f64),
      let coefficient :=
        match lm_feature_weights model !! Z.to_nat x.1 with Some (_, c) => c | None => f64_zero end in
      f64_add score
        (if f64_lt f64_zero norm then f64_mul (f64_div x.2 norm) coefficient else f64_zero))
    values (lm_intercept model).

(** [None]: a panic of [bounded_head_tail]. *)
Definition predict (model : LinearModel) (normalized_text : str) (sections : list PromotionSection)
    (reasons : list ReasonCode) : option bool :=
  feature_text ← bounded_feature_text normalized_text sections reasons (lm_max_input_chars model);
  let chars := collapse_whitespace (str_to_lowercase feature_text) in
  Some (match weigh model (ngram_counts model chars) f64_zero with
        | None => false
        | Some (values, norm_squared) =>
            f64_le (lm_threshold model)
              (logistic_probability (linear_score model (f64_sqrt norm_squared) values))
        end).

Definition policy_classifier_epoch (policy : LinearPromotionPolicy) : option str :=
  lm_classifier_epoch <$> policy.

(** [LinearPromotionPolicy::apply]; a panic of [predict], which [apply_total] rules out for
    a loaded policy, counts as no promotion. *)
Definition promotion_apply (policy : LinearPromotionPolicy) (normalized_text : str)
    (sections : list PromotionSection) (deterministic : ClassificationResult)
    : ClassificationResult :=
  match policy with
  | None => deterministic
  | Some model =>
      let promoted :=
        if is_conflict_free_safe_gray deterministic
           && default false (predict model normalized_text sections (class_reason_codes deterministic))
        then promote_to_resume_candidate deterministic else deterministic in
      set_classifier_epoch (lm_classifier_epoch model) promoted
  end.
End promotion.

(** *** Loading *)

Definition constant_time_eq (left right : list Z) : bool :=
  if negb (Nat.eqb (length left) (length right)) then false
  else fold_left (λ difference (x : Z * Z), Z.lor difference (Z.lxor x.1 x.2)) (zip left right) 0 =? 0.

Inductive ArtifactAccess := OwnerOnly | BundledReadOnly.

(** The answers of [symlink_metadata] and of [mode] on Unix. *)
Record ArtifactMetadata := MkArtifactMetadata {
  meta_is_file : bool;
  meta_is_symlink : bool;
  meta_len : Z;
  meta_mode : Z;
}.

Section loading.
Context `{Sha256} `{ArtifactCodec}.

Definition try_load_bytes (bytes : list Z) : option LinearPromotionPolicy :=
  let n := Z.of_nat (length bytes) in
  if (n =? 0) || (MAX_ARTIFACT_BYTES <? n) then None
  else
    envelope ← envelope_from_slice bytes;
    let actual := hex_bytes (sha256 (utf8 (env_model_json envelope))) in
    if negb (constant_time_eq (utf8 actual) (utf8 (env_model_sha256 envelope))) then None
    else
      artifact ← model_from_str (env_model_json envelope);
      let epoch := PROMOTED_EPOCH_PREFIX ++ take 12 actual in
      model ← from_artifact artifact epoch;
      Some (Some model).

(** The octal modes 077 and 022. *)
Definition forbidden_mode (access : ArtifactAccess) : Z :=
  match access with OwnerOnly => 63 | BundledReadOnly => 18 end.

(** [metadata] and [contents] are what the file system answers for the path. *)
Definition try_load (access : ArtifactAccess) (metadata : option ArtifactMetadata)
    (contents : option (list Z)) : option LinearPromotionPolicy :=
  metadata ← metadata;
  if negb (meta_is_file metadata) || meta_is_symlink metadata || (meta_len metadata =? 0)
     || (MAX_ARTIFACT_BYTES <? meta_len metadata)
  then None
  else if negb (Z.land (meta_mode metadata) (forbidden_mode access) =? 0) then None
  else bytes ← contents; try_load_bytes bytes.

Definition load_local metadata contents : LinearPromotionPolicy :=
  default None (try_load OwnerOnly metadata contents).
Definition load_bundled metadata contents : LinearPromotionPolicy :=
  default None (try_load BundledReadOnly metadata contents).
Definition load_attested_bundled_bytes (bytes : list Z) : LinearPromotionPolicy :=
  default None (try_load_bytes bytes).
End loading.

(** ** What counts as evidence *)

Section evidence.
Context `{Unicode}.

(** A line is a heading of a family. *)
Definition heading_line (family : list str) (text : str) : Prop :=
  ∃ line, line ∈ lines text ∧ normalized_heading line ∈ family.

Definition is_experience_heading (line : str) : Prop := normalized_heading line ∈ EXPERIENCE_HEADINGS.
Definition ends_section (line : str) : Prop :=
  is_section_boundary line (normalized_heading line) = true.

(** After the first experience heading, and before a line that ends the section, some line
    starts with a career action. *)
Definition history_detail (ls : list str) : Prop :=
  ∃ before heading between line after, ls = before ++ heading :: between ++ line :: after ∧
    Forall (λ x, ¬ is_experience_heading x) before ∧ is_experience_heading heading ∧
    Forall (λ x, is_experience_heading x ∨ ¬ ends_section x) between ∧
    ¬ is_experience_heading line ∧ ¬ ends_section line ∧ starts_with_history_action line = true.

Definition two_phrases (phrases : list str) (text : str) : Prop :=
  ∃ p q, p ≠ q ∧ p ∈ phrases ∧ q ∈ phrases ∧
    (∃ a b, str_to_lowercase text = a ++ p ++ b) ∧ (∃ a b, str_to_lowercase text = a ++ q ++ b).

(** An experience section with a career action, and another heading of a resume. *)
Definition resume_evidence (text : str) : Prop :=
  heading_line EXPERIENCE_HEADINGS text ∧
  (heading_line PROFILE_HEADINGS text ∨ heading_line EDUCATION_HEADINGS text ∨
   heading_line SKILLS_HEADINGS text) ∧
  history_detail (lines text).

(** A heading of an invoice, of meeting notes or of a manual, with two of its phrases. *)
Definition non_resume_evidence (text : str) : Prop :=
  (heading_line INVOICE_HEADINGS text ∧ two_phrases INVOICE_PHRASES text) ∨
  (heading_line MEETING_HEADINGS text ∧ two_phrases MEETING_PHRASES text) ∨
  (heading_line MANUAL_HEADINGS text ∧ two_phrases MANUAL_PHRASES text).

Lemma has_heading_iff text accepted :
  [] ∉ accepted →
  has_heading (normalized_headings text) accepted = true ↔ heading_line accepted text.
Proof.
  intros Hne. unfold has_heading, normalized_headings, heading_line. rewrite existsb_exists. split.
  - intros (h & Hin & Hacc%str_in_spec). apply filter_In in Hin as [Hin _].
    apply in_map_iff in Hin as (line & <- & Hl%list_elem_of_In). eauto.
  - intros (line & Hl & Hacc). exists (normalized_heading line). split; [|by apply str_in_spec].
    apply filter_In. split; [apply in_map, list_elem_of_In; done|].
    destruct (normalized_heading line); [done|done].
Qed.

Lemma contains_iff p s : contains p s = true ↔ ∃ a b, s = a ++ p ++ b.
Proof.
  assert (∀ s, starts_with p s = true ↔ ∃ b, s = p ++ b) as Hsw.
  { intros t. split; [|intros [b ->]; apply starts_with_app].
    revert t. induction p as [|c p IH]; intros t Hp; [by exists t|].
    destruct t as [|d t]; [done|]. cbn in Hp. apply andb_prop in Hp as [Hc Hp]. apply Z.eqb_eq in Hc.
    subst d. destruct (IH _ Hp) as [b ->]. by exists b. }
  induction s as [|c s IH]; cbn [contains].
  - rewrite orb_false_r, Hsw. split; [intros [b Hb]; by exists [], b|].
    intros (a & b & Hab). destruct a; [by exists b|done].
  - rewrite orb_true_iff, Hsw, IH. split.
    + intros [[b Hb]|(a & b & ->)]; [by exists [], b|by exists (c :: a), b].
    + intros (a & b & Hab). destruct a as [|d a]; [left; by exists b|]. right. injection Hab as -> ->. eauto.
Qed.

Lemma contains_two_iff text phrases :
  NoDup phrases →
  contains_at_least (str_to_lowercase text) phrases 2 = true ↔ two_phrases phrases text.
Proof.
  intros Hn. unfold contains_at_least, two_phrases. rewrite Nat.leb_le.
  set (t := str_to_lowercase text). setoid_rewrite <- contains_iff. split.
  - assert (NoDup (List.filter (λ phrase, contains phrase t) phrases)) as Hf
      by (apply NoDup_ListNoDup, List.NoDup_filter, NoDup_ListNoDup, Hn).
    destruct (List.filter _ phrases) as [|p [|q rest]] eqn:E; cbn; [lia|lia|]. intros _.
    assert (∀ x, x ∈ p :: q :: rest → x ∈ phrases ∧ contains x t = true) as Hin.
    { intros x Hx. rewrite <- E in Hx. apply list_elem_of_In, filter_In in Hx as [Hx Hc].
      by apply list_elem_of_In in Hx. }
    destruct (Hin p) as [? ?]; [set_solver|]. destruct (Hin q) as [? ?]; [set_solver|].
    exists p, q. split_and!; try done. apply NoDup_cons in Hf as [Hf _]. set_solver.
  - intros (p & q & Hpq & Hp & Hq & Hcp & Hcq).
    assert (p ∈ List.filter (λ phrase, contains phrase t) phrases) as Hp'
      by (apply list_elem_of_In, filter_In; rewrite <- list_elem_of_In; done).
    assert (q ∈ List.filter (λ phrase, contains phrase t) phrases) as Hq'
      by (apply list_elem_of_In, filter_In; rewrite <- list_elem_of_In; done).
    destruct (List.filter _ phrases) as [|x [|y rest]]; cbn; [set_solver| |lia].
    apply list_elem_of_singleton in Hp', Hq'. congruence.
Qed.

(** Inside the experience section. *)
Lemma history_loop_inside ls :
  history_detail_loop true ls = true ↔
  ∃ between line after, ls = between ++ line :: after ∧
    Forall (λ x, is_experience_heading x ∨ ¬ ends_section x) between ∧
    ¬ is_experience_heading line ∧ ¬ ends_section line ∧ starts_with_history_action line = true.
Proof.
  induction ls as [|l ls IH]; cbn [history_detail_loop negb andb].
  { split; [done|]. intros (between & line & after & E & _). by destruct between. }
  destruct (str_in (normalized_heading l) EXPERIENCE_HEADINGS) eqn:Hx.
  { apply str_in_spec in Hx. rewrite IH. split.
    - intros (between & line & after & -> & Hb & Hl). exists (l :: between), line, after.
      split_and!; [done|by constructor; [left|]|apply Hl..].
    - intros ([|x between] & line & after & E & Hb & Hne & Hl); [injection E as -> ->; done|].
      injection E as -> ->. apply Forall_cons in Hb as [_ Hb]. by exists between, line, after. }
  assert (¬ is_experience_heading l) as Hnx.
  { intros Hin. apply str_in_spec in Hin. congruence. }
  destruct (is_section_boundary l (normalized_heading l)) eqn:He.
  { split; [done|]. intros ([|x between] & line & after & E & Hb & Hne & Hnb & Hl).
    - injection E as -> ->. done.
    - injection E as -> ->. apply Forall_cons in Hb as [[?|Hb] _]; [done|]. by destruct Hb. }
  assert (¬ ends_section l) as Hne by (unfold ends_section; congruence).
  destruct (starts_with_history_action l) eqn:Ha.
  { split; [|done]. intros _. by exists [], l, ls. }
  rewrite IH. split.
  - intros (between & line & after & -> & Hb & Hl). exists (l :: between), line, after.
    split_and!; [done|by constructor; [right|]|apply Hl..].
  - intros ([|x between] & line & after & E & Hb & Hnl & Hnb & Hl); [injection E as -> ->; congruence|].
    injection E as -> ->. apply Forall_cons in Hb as [_ Hb]. by exists between, line, after.
Qed.

Lemma history_loop_outside ls : history_detail_loop false ls = true ↔ history_detail ls.
Proof.
  unfold history_detail. induction ls as [|l ls IH]; cbn [history_detail_loop negb andb].
  { split; [done|]. intros ([|] & ? & ? & ? & ? & E & _); done. }
  destruct (str_in (normalized_heading l) EXPERIENCE_HEADINGS) eqn:Hx.
  - apply str_in_spec in Hx. rewrite history_loop_inside. split.
    + intros (between & line & after & -> & Hb & Hl). exists [], l, between, line, after.
      split_and!; [done|done|done|done|apply Hl..].
    + intros ([|x before] & h & between & line & after & E & Hbf & Hh & Hl); injection E as -> ->.
      * by exists between, line, after.
      * apply Forall_cons in Hbf as [Hbf _]. by destruct Hbf.
  - assert (¬ is_experience_heading l) as Hnx.
    { intros Hin. apply str_in_spec in Hin. congruence. }
    rewrite IH. split.
    + intros (before & h & between & line & after & -> & Hbf & Hl).
      exists (l :: before), h, between, line, after. split_and!; [done|by constructor|apply Hl..].
    + intros ([|x before] & h & between & line & after & E & Hbf & Hh & Hl); injection E as -> ->; [done|].
      apply Forall_cons in Hbf as [_ Hbf]. by exists before, h, between, line, after.
Qed.

Lemma corroborated_resume_iff text : has_corroborated_resume text = true ↔ resume_evidence text.
Proof.
  unfold has_corroborated_resume, resume_evidence, experience_section_has_history_detail.
  rewrite <- history_loop_outside.
  rewrite <- !has_heading_iff by (by vm_compute; set_solver).
  unfold positive_signals, count_matches. cbn [take List.filter fst].
  set (b1 := has_heading _ PROFILE_HEADINGS). set (b2 := has_heading _ EXPERIENCE_HEADINGS).
  set (b3 := has_heading _ EDUCATION_HEADINGS). set (b4 := has_heading _ SKILLS_HEADINGS).
  destruct b1, b2, b3, b4, (history_detail_loop false (lines text)); cbn; naive_solver.
Qed.

Lemma corroborated_negative_iff text :
  has_corroborated_negative text = true ↔ non_resume_evidence text.
Proof.
  unfold has_corroborated_negative, non_resume_evidence.
  rewrite !orb_true_iff, !andb_true_iff, !has_heading_iff, !contains_two_iff;
    [tauto|by apply (bool_decide_unpack _); vm_compute..].
Qed.
End evidence.

(** ** Admission *)

Section admission.
Context `{Unicode} `{Libm}.

Lemma hd_collect primary signals : hd_error (take MAX_REASON_CODES (collect_reasons primary signals)) = Some primary.
Proof. done. Qed.

(** The answer of the deterministic rules by the evidence, with its leading reason. *)
Lemma classify_text_by_evidence text :
  trim text ≠ [] →
  let r := classify_normalized_text text in
  class_classifier_epoch r = CLASSIFIER_EPOCH ∧
  match has_corroborated_resume text, has_corroborated_negative text with
  | true, true => class_status r = NeedsReview ∧ hd_error (class_reason_codes r) = Some ConflictingSignalFamilies
  | true, false => class_status r = ResumeCandidate ∧
      hd_error (class_reason_codes r) = Some CorroboratedResumeSignals
  | false, true => class_status r = NonResume ∧
      hd_error (class_reason_codes r) = Some CorroboratedNonResumeSignals
  | false, false => class_status r = NeedsReview ∧
      hd_error (class_reason_codes r) = Some InsufficientSignalFamilies
  end.
Proof.
  intros Ht. unfold classify_normalized_text.
  assert (is_empty (trim text) = false) as -> by (by destruct (trim text)).
  destruct (has_corroborated_resume text), (has_corroborated_negative text); done.
Qed.

Lemma blank_text_failed text :
  trim text = [] → class_status (classify_normalized_text text) = FailedStatus.
Proof. intros Ht. unfold classify_normalized_text. by rewrite Ht. Qed.

Lemma safe_gray_iff text :
  is_conflict_free_safe_gray (classify_normalized_text text) = true ↔
  trim text ≠ [] ∧ has_corroborated_resume text = false ∧ has_corroborated_negative text = false.
Proof.
  unfold is_conflict_free_safe_gray. rewrite andb_true_iff, !bool_decide_eq_true.
  destruct (decide (trim text = [])) as [Ht|Ht].
  { rewrite blank_text_failed by done. naive_solver. }
  destruct (classify_text_by_evidence text Ht) as [_ Hc].
  destruct (has_corroborated_resume text), (has_corroborated_negative text); destruct Hc as [-> ->];
    naive_solver.
Qed.

(** Promotion only adds an admission, and only to a review without conflict. *)
Lemma promotion_status policy text sections r :
  class_status (promotion_apply policy text sections r) = ResumeCandidate ↔
  class_status r = ResumeCandidate ∨
  (is_conflict_free_safe_gray r = true ∧
   ∃ model, policy = Some model ∧ predict model text sections (class_reason_codes r) = Some true).
Proof.
  destruct policy as [model|]; cbn [promotion_apply]; [|naive_solver].
  destruct (is_conflict_free_safe_gray r) eqn:Hg; cbn [andb].
  - destruct (predict model text sections (class_reason_codes r)) as [[]|] eqn:Hp; cbn; naive_solver.
  - cbn. naive_solver.
Qed.

(** C15: admission is precision-first.  The rules with an optional promotion model admit a
    text exactly when it is not blank and shows no evidence of an invoice, meeting notes or
    a manual, and either has an experience section that starts a line with a career action
    next to another resume heading, or lacks that evidence too and a loaded model predicts
    a resume.  No text with conflicting evidence is ever admitted. *)
Theorem admission_spec policy text sections :
  class_status (promotion_apply policy text sections (classify_resume (NormalizedText text)))
    = ResumeCandidate ↔
  trim text ≠ [] ∧ ¬ non_resume_evidence text ∧
  (resume_evidence text ∨
   ∃ model, policy = Some model ∧
     predict model text sections (class_reason_codes (classify_resume (NormalizedText text))) = Some true).
Proof.
  rewrite promotion_status. cbn [classify_resume]. rewrite safe_gray_iff.
  rewrite <- corroborated_resume_iff, <- corroborated_negative_iff.
  destruct (decide (trim text = [])) as [Ht|Ht]; [rewrite blank_text_failed by done; naive_solver|].
  destruct (classify_text_by_evidence text Ht) as [_ Hc].
  destruct (has_corroborated_resume text), (has_corroborated_negative text); destruct Hc as [-> _];
    naive_solver.
Qed.

(** Whatever the input, the codes are at most eight, also after a promotion. *)
Lemma reason_codes_bounded policy text sections input :
  (length (class_reason_codes (promotion_apply policy text sections (classify_resume input)))
   ≤ MAX_REASON_CODES)%nat.
Proof.
  assert (∀ s rs p n, (length (class_reason_codes (classification s rs p n)) ≤ MAX_REASON_CODES)%nat) as Hb.
  { intros. cbn [class_reason_codes classification]. rewrite length_take. lia. }
  assert (length (class_reason_codes (classify_resume input)) ≤ MAX_REASON_CODES)%nat as Hc.
  { destruct input; cbn [classify_resume]; [|apply Hb..]. unfold classify_normalized_text.
    repeat case_match; apply Hb. }
  destruct policy as [model|]; [|done]. unfold promotion_apply. case_match; [|done]. cbn [class_reason_codes
    set_classifier_epoch promote_to_resume_candidate]. rewrite length_take. lia.
Qed.
End admission.

(** ** Loaded models *)

(** What [from_artifact] guarantees: every id of an n-gram has a weight, weights are finite
    with a positive inverse document frequency, the threshold is a probability. *)
Record model_ok (model : LinearModel) : Prop := MkModelOk {
  mo_ids : ∀ ngram id, lm_feature_ids model !! ngram = Some id →
    0 ≤ id ∧ 3 ≤ chars_count ngram ≤ 5 ∧
    ∃ idf coefficient, lm_feature_weights model !! Z.to_nat id = Some (idf, coefficient) ∧
      f64_is_finite idf = true ∧ f64_le idf f64_zero = false ∧ f64_is_finite coefficient = true;
  mo_threshold : f64_is_finite (lm_threshold model) = true ∧
    f64_le (lm_threshold model) f64_zero = false ∧ f64_lt f64_one (lm_threshold model) = false;
  mo_intercept : f64_is_finite (lm_intercept model) = true;
  mo_chars : lm_max_input_chars model ≠ 0 ∧ lm_max_input_chars model ≤ MAX_INPUT_CHARS_LIMIT;
}.

Definition feature_ok (x : str * (f64 * f64)) : Prop :=
  3 ≤ chars_count x.1 ≤ 5 ∧ f64_is_finite x.2.1 = true ∧ f64_le x.2.1 f64_zero = false ∧
  f64_is_finite x.2.2 = true.

Lemma collect_features_ok fs features result :
  collect_features fs features = Some result →
  ssorted features.*1 → Forall feature_ok features →
  ssorted result.*1 ∧ Forall feature_ok result.
Proof.
  revert features. induction fs as [|f fs IH]; intros features E Hs Hok; cbn in E.
  { by injection E as <-. }
  destruct (negb _ || negb _ || _ || negb _ || _) eqn:Hg; [done|]. bools.
  apply IH in E; [done|by apply bmap_entry_sorted|].
  apply Forall_forall. intros [ngram w] Hin.
  apply elem_of_bmap_lookup in Hin; [|by apply bmap_entry_sorted].
  destruct (decide (ngram = feat_ngram f)) as [->|Hne].
  - rewrite bmap_lookup_entry in Hin by done. injection Hin as <-. unfold feature_ok. cbn [fst snd]. split_and!; [lia|lia|done..].
  - rewrite bmap_lookup_entry_ne in Hin by done. rewrite Forall_forall in Hok.
    apply (Hok (ngram, w)). by apply elem_of_bmap_lookup.
Qed.

Lemma assign_ids_lookup id features ids ngram k :
  assign_ids id features ids !! ngram = Some k →
  ids !! ngram = Some k ∨ ∃ i w, features !! i = Some (ngram, w) ∧ k = id + Z.of_nat i.
Proof.
  revert id ids. induction features as [|[g w] features IH]; intros id ids E; cbn in E; [by left|].
  apply IH in E as [E|(i & w' & Hi & ->)].
  - apply lookup_insert_Some in E as [[-> <-]|[_ E]]; [|by left]. right. exists 0%nat, w. split; [done|lia].
  - right. exists (S i), w'. split; [done|lia].
Qed.

Lemma from_artifact_ok artifact epoch model :
  from_artifact artifact epoch = Some model → lm_classifier_epoch model = epoch ∧ model_ok model.
Proof.
  unfold from_artifact. intros E. destruct (_ || _) eqn:Hg; [done|]. bools.
  apply bind_Some in E as (features & Hf & [= <-]). split; [done|].
  apply collect_features_ok in Hf as [Hs Hok]; [|by constructor|done].
  constructor; cbn [lm_feature_ids lm_feature_weights lm_threshold lm_intercept lm_max_input_chars];
    [|by split_and!|done|split; [done|lia]].
  intros ngram id Hid. apply assign_ids_lookup in Hid as [Hid|(i & [idf co] & Hi & ->)]; [done|].
  pose proof (proj1 (Forall_lookup _ _) Hok _ _ Hi) as (Hn & Hfin & Hpos & Hc). cbn in Hn, Hfin, Hpos, Hc.
  split; [lia|]. split; [done|]. exists idf, co. rewrite Z.add_0_l, Nat2Z.id, list_lookup_fmap, Hi. done.
Qed.

Lemma constant_time_eq_spec left right : constant_time_eq left right = true ↔ left = right.
Proof.
  assert (∀ l (acc : Z), fold_left (λ d (x : Z * Z), Z.lor d (Z.lxor x.1 x.2)) l acc = 0
    ↔ acc = 0 ∧ Forall (λ x, x.1 = x.2) l) as Hfold.
  { intros l; induction l as [|x l IH]; intros acc; cbn [fold_left]; [naive_solver|].
    rewrite IH, Z.lor_eq_0_iff, Z.lxor_eq_0_iff, Forall_cons. tauto. }
  unfold constant_time_eq. destruct (Nat.eqb (length left) (length right)) eqn:Hl; cbn [negb].
  - apply Nat.eqb_eq in Hl. rewrite Z.eqb_eq, Hfold. revert right Hl.
    induction left as [|x left IH]; intros [|y right] Hl; try done. cbn [zip].
    rewrite Forall_cons. cbn. injection Hl as Hl. specialize (IH _ Hl). naive_solver.
  - split; [done|]. intros ->. by rewrite Nat.eqb_refl in Hl.
Qed.

Section prediction.
Context `{Unicode} `{Libm}.

Lemma bounded_head_tail_total text cap : 1 ≤ cap → is_Some (bounded_head_tail text cap).
Proof.
  intros Hc. unfold bounded_head_tail, chars_count. destruct (_ <=? cap) eqn:Hl; [done|]. bools.
  assert (cap * 3 / 5 ≤ cap) as Hh by (apply Z.div_le_upper_bound; lia).
  assert (0 ≤ cap * 3 / 5) as Hp by (apply Z.div_pos; lia).
  destruct (_ && _ && _ && _) eqn:Hb; [done|]. exfalso.
  rewrite !andb_false_iff, !Z.leb_gt in Hb. lia.
Qed.

Lemma feature_text_total text sections reasons cap :
  ∃ feature_text, bounded_feature_text text sections reasons cap = Some feature_text ∧
    (length feature_text ≤ Z.to_nat cap)%nat.
Proof.
  unfold bounded_feature_text.
  destruct (bounded_head_tail_total text (Z.max (Z.max 0 (cap - (chars_count (take_chars
    (join (lit " ") (structure_tokens sections reasons)) (Z.min 1024 (cap / 4))) + 1))) 1)) as [body Hb];
    [lia|]. rewrite Hb. eexists. split; [done|]. unfold take_chars. rewrite length_take. lia.
Qed.

(** The counted ids are ids of the model. *)
Lemma ngram_counts_ids model chars :
  Forall (λ x : Z * f64, ∃ ngram, lm_feature_ids model !! ngram = Some x.1) (ngram_counts model chars).
Proof.
  assert (∀ ws values, Forall (λ x : Z * f64, ∃ ngram, lm_feature_ids model !! ngram = Some x.1) values →
    Forall (λ x : Z * f64, ∃ ngram, lm_feature_ids model !! ngram = Some x.1)
      (fold_left (count_window model) ws values)) as Hws.
  { intros ws. induction ws as [|w ws IH]; intros values Hv; cbn [fold_left]; [done|]. apply IH.
    unfold count_window. destruct (lm_feature_ids model !! w) as [id|] eqn:Hid; [|done].
    apply Forall_forall. intros [k v] Hin.
    assert (k ∈ (bmap_entry id (λ old, f64_add (default f64_zero old) f64_one) values).*1) as Hk
      by (apply list_elem_of_fmap; by exists (k, v)).
    apply elem_of_bmap_entry_keys in Hk as [->|Hk]; [by exists w|].
    apply list_elem_of_fmap in Hk as ([k' v'] & -> & Hin'). rewrite Forall_forall in Hv. apply (Hv _ Hin'). }
  unfold ngram_counts. generalize [3; 4; 5]%nat. intros ns.
  assert (Forall (λ x : Z * f64, ∃ ngram, lm_feature_ids model !! ngram = Some x.1) []) as Hnil by done.
  revert Hnil. generalize (@nil (Z * f64)). induction ns as [|n ns IH]; intros values Hv; cbn [fold_left]; [done|].
  apply IH. case_decide; [done|]. by apply Hws.
Qed.

(** In a loaded model the early return of the weighing loop is not taken. *)
Lemma weigh_total model values norm :
  model_ok model → Forall (λ x : Z * f64, ∃ ngram, lm_feature_ids model !! ngram = Some x.1) values →
  ∃ weighed norm', weigh model values norm = Some (weighed, norm') ∧ weighed.*1 = values.*1.
Proof.
  intros Hok Hv. revert norm. induction Hv as [|[id count] values [ngram Hid] _ IH]; intros norm; cbn [weigh].
  { by exists [], norm. }
  cbn [fst] in Hid. destruct (mo_ids _ Hok _ _ Hid) as (_ & _ & idf & co & -> & _).
  edestruct IH as (weighed & norm' & -> & Hw). eexists _, norm'. split; [done|]. cbn. by rewrite Hw.
Qed.
End prediction.

Section loaded.
Context `{Sha256Laws} `{ArtifactCodec}.

(** The epoch of a model names twelve digits of its checksum. *)
Lemma promoted_epoch_parses json :
  classifier_epoch_parse (PROMOTED_EPOCH_PREFIX ++ take 12 (hex_bytes (sha256 json)))
  = Some LocalLinearPromotion.
Proof.
  destruct (digest_hex_shape json) as [Hlow Hlen]. set (hex := hex_bytes (sha256 json)) in *. clearbody hex.
  pose proof (forallb_take _ 12 _ Hlow) as Htk.
  assert (length (take 12 hex) = 12%nat) as Hl by (rewrite length_take, Hlen; lia).
  unfold classifier_epoch_parse. assert (str_eqb (PROMOTED_EPOCH_PREFIX ++ take 12 hex) CLASSIFIER_EPOCH = false) as ->.
  { apply bool_decide_eq_false. intros E. apply (f_equal length) in E. rewrite length_app, Hl in E. done. }
  unfold strip_prefix. rewrite starts_with_app, drop_app_length.
  rewrite forallb_utf8_ascii by apply is_lower_hexdigit_ascii. rewrite Htk.
  rewrite ascii_str_len by (rewrite forallb_forall in Htk |- *; auto using lower_hex_hexdigit).
  by rewrite Hl.
Qed.

(** Loading checks the checksum and the model. *)
Lemma try_load_bytes_ok bytes policy :
  try_load_bytes bytes = Some policy →
  ∃ envelope model, policy = Some model ∧ envelope_from_slice bytes = Some envelope ∧
    utf8 (env_model_sha256 envelope) = utf8 (hex_bytes (sha256 (utf8 (env_model_json envelope)))) ∧
    classifier_epoch_parse (lm_classifier_epoch model) = Some LocalLinearPromotion ∧ model_ok model.
Proof.
  unfold try_load_bytes. intros E. destruct (_ || _); [done|].
  apply bind_Some in E as (envelope & Henv & E).
  destruct (constant_time_eq _ _) eqn:Hct; cbn [negb] in E; [|done]. apply constant_time_eq_spec in Hct.
  apply bind_Some in E as (artifact & _ & E). apply bind_Some in E as (model & Hm & [= <-]).
  apply from_artifact_ok in Hm as [Hepoch Hok]. exists envelope, model.
  split_and!; [done|done|done|rewrite Hepoch; apply promoted_epoch_parses|done].
Qed.

(** The epoch of any policy the bundle can yield is one the store accepts. *)
Lemma loaded_epoch_parses bytes :
  is_Some (classifier_epoch_parse
    (default CLASSIFIER_EPOCH (policy_classifier_epoch (load_attested_bundled_bytes bytes)))).
Proof.
  unfold load_attested_bundled_bytes. destruct (try_load_bytes bytes) as [policy|] eqn:E; [|done].
  apply try_load_bytes_ok in E as (envelope & model & -> & _ & _ & Hp & _). cbn. by rewrite Hp.
Qed.

(** A promotion model is enabled only by an artifact whose checksum is that of its
    model, and then it is safe to use: the epoch it gives to classifications is one that
    the store accepts as a local promotion, every n-gram has a finite weight with a
    positive frequency, the threshold is a probability, and predicting never panics and
    never misses a weight, on any text. *)
Theorem loaded_policy_sound `{Unicode} `{Libm} bytes policy :
  try_load_bytes bytes = Some policy →
  ∃ envelope model, policy = Some model ∧ envelope_from_slice bytes = Some envelope ∧
    utf8 (env_model_sha256 envelope) = utf8 (hex_bytes (sha256 (utf8 (env_model_json envelope)))) ∧
    classifier_epoch_parse (lm_classifier_epoch model) = Some LocalLinearPromotion ∧
    model_ok model ∧
    (∀ text sections reasons, ∃ answer, predict model text sections reasons = Some answer) ∧
    (∀ chars, is_Some (weigh model (ngram_counts model chars) f64_zero)).
Proof.
  intros (envelope & model & -> & Henv & Hsum & Hp & Hok)%try_load_bytes_ok.
  pose proof (λ chars, weigh_total model _ f64_zero Hok (ngram_counts_ids model chars)) as Hw.
  exists envelope, model. split_and!; [done..| |].
  - intros text sections reasons. unfold predict.
    destruct (feature_text_total text sections reasons (lm_max_input_chars model)) as (f & -> & _). eauto.
  - intros chars. destruct (Hw chars) as (? & ? & -> & _). done.
Qed.
End loaded.

(** ** Evaluation *)

Module ClassifierDemo.
#[local] Existing Instance toy_sha256.
#[local] Existing Instance sample_unicode.
#[local] Instance libm : Libm := {| f64_ln x := x; f64_exp x := x |}.

Example resume_admitted :
  class_status (classify_resume (NormalizedText (lit "PROFILE
Engineer.
EXPERIENCE
Built tools."))) = ResumeCandidate.
Proof. vm_compute. reflexivity. Qed.

Example vacancy_reviewed :
  class_status (classify_resume (NormalizedText (lit "SUMMARY
Template.
EXPERIENCE
Describe projects you developed."))) = NeedsReview.
Proof. vm_compute. reflexivity. Qed.

Definition artifact : ArtifactModel :=
  MkArtifactModel ARTIFACT_SCHEMA CLASSIFIER_EPOCH FEATURE_CONTRACT 16 f64_one f64_zero
    [MkFeature (lit "abc") f64_one f64_one].

#[local] Instance codec : ArtifactCodec := {|
  envelope_from_slice _ := Some (MkEnvelope (lit "m") (hex_bytes (sha256 (utf8 (lit "m")))));
  model_from_str _ := Some artifact;
|}.

Lemma loaded_policy_sound_witness :
  ∃ model, try_load_bytes [1] = Some (Some model) ∧ model_ok model ∧
    is_Some (predict model (lit "abcabc") [] []).
Proof.
  pose proof toy_sha256_laws as Hlaws.
  destruct (try_load_bytes [1]) as [policy|] eqn:E; [|vm_compute in E; discriminate E].
  destruct (loaded_policy_sound [1] policy E) as (envelope & model & -> & _ & _ & _ & Hok & Hp & _).
  exists model. split_and!; [done|done|]. destruct (Hp (lit "abcabc") [] []) as [answer ->]. by exists answer.
Defined.
End ClassifierDemo.
