(* ===== verification/ImportFile.v ===== *)
(** * Importing one file (crates/import-pipeline, file_processing)

    How a discovered file becomes a [ProcessedFile]: the metadata fast path, the
    exact rerun decision, the verified read, parsing, normalization, sections and
    admission.  The code has two paths, [process_file] (one thread does it all) and
    [prepare_file_for_parse] / [parse_work_item] / [commit_parse_work_result] (a
    worker parses); both are here, over the state [Run] of one import run.

    The file system, the metadata store, the cancellation poll and the contact key
    are the class [ImportWorld]: every call takes and returns the world, so files
    may change and tasks may be cancelled between any two calls.  The parsers, the
    classifier and the extraction rules are the class [ImportEngines].  Durations
    and instants are not modelled. *)

From Stdlib Require Import ZArith String SpecFloat.
From stdpp Require Import prelude.
From S2P Require Import Prelude Collections Float32 Text Identity TextNormalizer Sectionizer WriterStore SearchMetadata Classifier.

Local Open Scope Z_scope.

(** ** Errors (lib.rs) *)

Inductive CrawlErrorKind := CrawlCancelled | PermissionDenied | CrawlSourceUnavailable | LockedOrUnreadable | CrawlIo.

Inductive ImportPipelineErrorKind :=
| Cancelled | Interrupted | PipelineRepairing | ArtifactRetirement
| FullTextArtifactRetirement | VectorArtifactRetirement | Store
| StoreInvariant (class : MetaStoreErrorClass) | Crawl (kind : CrawlErrorKind)
| Index | FullTextPublicationBusy | VectorContract | VectorStorage
| VectorPublicationBusy | EmbeddingRuntime | PrivacyKind | ParserKind.

Record ImportPipelineError := MkError {
  err_kind : ImportPipelineErrorKind;
  err_retryable : bool;
}.

#[export] Instance CrawlErrorKind_eq_dec : EqDecision CrawlErrorKind.
Proof. solve_decision. Defined.
#[export] Instance ImportPipelineErrorKind_eq_dec : EqDecision ImportPipelineErrorKind.
Proof. solve_decision. Defined.
#[export] Instance ImportPipelineError_eq_dec : EqDecision ImportPipelineError.
Proof. solve_decision. Defined.

Definition error_store (class : MetaStoreErrorClass) : ImportPipelineError :=
  if negb (bool_decide (class = Storage)) then MkError (StoreInvariant class) false
  else MkError Store true.
Definition store_invariant : ImportPipelineError := MkError (StoreInvariant StorageInvariant) false.
Definition migration_scan_incomplete : ImportPipelineError :=
  MkError (Crawl CrawlSourceUnavailable) true.
Definition source_changed_during_import : ImportPipelineError := MkError (Crawl CrawlIo) true.
Definition error_cancelled : ImportPipelineError := MkError Cancelled true.
Definition error_interrupted : ImportPipelineError := MkError Interrupted true.
Definition error_privacy : ImportPipelineError := MkError PrivacyKind false.
Definition parallel_parse_error : ImportPipelineError := MkError ParserKind true.

(** The error classes of the two store files name the same [MetaStoreErrorClass]. *)
Definition contract_error_class (e : MetaStoreError) : MetaStoreErrorClass :=
  match e with
  | WriterStore.Storage => Storage
  | WriterStore.StorageInvariant => StorageInvariant
  | WriterStore.InvalidTransition => InvalidTransition
  | WriterStore.InvalidValue => InvalidValue
  | WriterStore.NotFound => NotFoundError
  | WriterStore.ImmutableIdentityConflict => ImmutableIdentityConflict
  end.

(** ** Discovered files (crates/fs-crawler) *)

Record FileObservationTime := MkObservationTime { obs_seconds : Z; obs_nanoseconds : Z }.

Record FileObservation := MkObservation {
  obs_stable_file_id : str;
  obs_byte_size : Z;
  obs_modified : FileObservationTime;
  obs_changed : FileObservationTime;
}.

#[export] Instance FileObservationTime_eq_dec : EqDecision FileObservationTime.
Proof. solve_decision. Defined.
#[export] Instance FileObservation_eq_dec : EqDecision FileObservation.
Proof. solve_decision. Defined.
#[export] Instance FileExtension_eq_dec : EqDecision FileExtension.
Proof. solve_decision. Defined.
#[export] Instance DocumentStatus_eq_dec : EqDecision DocumentStatus.
Proof. solve_decision. Defined.
#[export] Instance EntityType_eq_dec : EqDecision EntityType.
Proof. solve_decision. Defined.
#[export] Instance Document_eq_dec : EqDecision Document.
Proof. solve_decision. Defined.

(** The fields of [DiscoveredFile] the pipeline reads. *)
Record DiscoveredFile := MkDiscovered {
  file_document_id : StableId DocumentId;
  file_normalized_path : str;
  file_name : str;
  file_extension : FileExtension;
  file_byte_size : Z;
  file_mtime : Z;
  file_observation : option FileObservation;
}.

(** ** Classification (meta-store/src/classification.rs) *)

Inductive ReviewDisposition := NotRequired | PendingReview.

Record ResumeVersionClassification := MkVersionClassification {
  vclass_resume_version_id : StableId ResumeVersionId;
  vclass_status : ClassificationStatus;
  vclass_classifier_epoch : str;
  vclass_reason_codes : list ReasonCode;
  vclass_classified_at : Z;
  vclass_review_disposition : ReviewDisposition;
}.

Record SourceRevisionTriage := MkTriage {
  triage_source_revision_id : StableId SourceRevisionId;
  triage_status : ClassificationStatus;
  triage_triage_epoch : str;
  triage_reason_codes : list ReasonCode;
  triage_triaged_at : Z;
}.

(** ** Parsers and rules (parser-common, extractor-rules) *)

Inductive ParserErrorKind :=
| ParserUnsupportedInput | ParserCorruptedInput | ParserEncryptedInput | ParserTimedOut
| ParserOcrRequired | ParserExhausted | ParserIoFailure | ParserCancelledRun | ParserInternalFailure.

Record ParserError := MkParserError { perr_kind : ParserErrorKind; perr_retryable : bool }.

Inductive ParseStatus := StatusTextExtracted | StatusTextLayer | StatusOcrRequired.

Record ParseOutput := MkParseOutput {
  out_status : ParseStatus;
  out_text : str;
  out_page_count : option Z;
}.

#[export] Instance ParserErrorKind_eq_dec : EqDecision ParserErrorKind.
Proof. solve_decision. Defined.
#[export] Instance ParseStatus_eq_dec : EqDecision ParseStatus.
Proof. solve_decision. Defined.

Inductive FieldType :=
| FName | FEmail | FPhone | FWeChat | FDateRange | FSchool | FSchoolTier | FDegree | FMajor
| FCompany | FTitle | FLocation | FSkill | FCertificate | FYearsExperience.

Record RuleMatch := MkRuleMatch {
  rule_field_type : FieldType;
  rule_raw_value : str;
  rule_normalized_value : option str;
  rule_span_start : Z;
  rule_span_end : Z;
  rule_confidence : f32;
}.

Inductive RuleEvidenceKind := SourceSpan | DerivedAggregate.

Definition evidence_kind (self : RuleMatch) : RuleEvidenceKind :=
  match rule_field_type self with
  | FYearsExperience => DerivedAggregate
  | _ => SourceSpan
  end.

(** The parsers by format (the label and the bytes are their input), the tables and the
    mathematical functions the classifier uses, the promotion policy of the run's options,
    and the strong field rules. *)
Class ImportEngines := {
  docx_parse : str → list Z → result ParseOutput ParserError;
  doc_parse : str → list Z → result ParseOutput ParserError;
  pdf_parse : str → list Z → result ParseOutput ParserError;
  txt_parse : str → list Z → Z → result ParseOutput ParserError;
  engines_unicode :: Unicode;
  engines_libm :: Libm;
  linear_promotion : LinearPromotionPolicy;
  extract_strong_fields : str → list RuleMatch;
}.

(** ** What an import produces (core-domain, index-fulltext, file_processing/model.rs) *)

Record ResumeVersion := MkVersion {
  ver_id : StableId ResumeVersionId;
  ver_document_id : StableId DocumentId;
  ver_source_revision_id : StableId SourceRevisionId;
  ver_normalized_text_hash : ContentDigest;
  ver_parse_version : str;
  ver_schema_version : str;
  ver_language_set : list str;
  ver_page_count : option Z;
  ver_raw_text : option str;
  ver_clean_text : option str;
  ver_quality_score : option f32;
}.

Record IndexSection := MkIndexSection { isec_section_type : str; isec_text : str }.

Record IndexDocument := MkIndexDocument {
  idoc_doc_id : str;
  idoc_resume_version_id : str;
  idoc_file_name : str;
  idoc_clean_text : str;
  idoc_sections : list IndexSection;
}.

Inductive PendingSearchablePublicationKind := MetadataChangedKind | Replacement.
Inductive PendingSearchableCommitRoute := Uncommitted | RootBoundCommitted | MigrationRebuildPrepared.

#[export] Instance PendingSearchablePublicationKind_eq_dec : EqDecision PendingSearchablePublicationKind.
Proof. solve_decision. Defined.

Record PendingSourceRevalidation := MkRevalidation {
  reval_task_id : str;
  reval_normalized_path : str;
  reval_observed_at : Z;
  reval_strong_observation : option FileObservation;
}.

Record PendingSearchableDocument := MkPendingSearchable {
  ps_document : Document;
  ps_source_revision : SourceRevision;
  ps_classification : ResumeVersionClassification;
  ps_version : ResumeVersion;
  ps_mentions : list EntityMention;
  ps_email_hash : option ContactHash;
  ps_phone_hash : option ContactHash;
  ps_index_document : IndexDocument;
  ps_publication_kind : PendingSearchablePublicationKind;
  ps_commit_route : PendingSearchableCommitRoute;
  ps_source_revalidation : option PendingSourceRevalidation;
}.

Record PendingClassifiedDocument := MkPendingClassified {
  pc_document : Document;
  pc_source_revision : SourceRevision;
  pc_classification : ResumeVersionClassification;
  pc_version : ResumeVersion;
}.

Record PendingSourceTriageDocument := MkPendingTriage {
  pt_document : Document;
  pt_source_revision : SourceRevision;
  pt_triage : SourceRevisionTriage;
}.

Inductive PendingExistingDocument :=
| ExistingUnchanged (document : Document)
| ExistingMetadataChanged (document : Document).

Definition existing_document (self : PendingExistingDocument) : Document :=
  match self with ExistingUnchanged document | ExistingMetadataChanged document => document end.

Inductive ContentVerification := Unavailable | Strong | MetadataFastPath.

#[export] Instance ContentVerification_eq_dec : EqDecision ContentVerification.
Proof. solve_decision. Defined.

Inductive ImportFailureKind :=
| TextTooLarge | ReadError | UnsupportedExtension | ParserUnsupported | ParserCorrupted
| ParserEncrypted | ParserTimeout | ParserResourceExhausted | ParserIo | ParserCancelled
| ParserInternal | EmptyText.

#[export] Instance ImportFailureKind_eq_dec : EqDecision ImportFailureKind.
Proof. solve_decision. Defined.

Definition failure_from_parser_error (kind : ParserErrorKind) : ImportFailureKind :=
  match kind with
  | ParserUnsupportedInput => ParserUnsupported
  | ParserCorruptedInput => ParserCorrupted
  | ParserEncryptedInput => ParserEncrypted
  | ParserTimedOut => ParserTimeout
  | ParserExhausted => ParserResourceExhausted
  | ParserIoFailure => ParserIo
  | ParserCancelledRun => ParserCancelled
  | ParserOcrRequired | ParserInternalFailure => ParserInternal
  end.

Inductive ProcessedFile :=
| PSearchable (pending : PendingSearchableDocument)
| PUnchangedSearchable (source_revision_id : StableId SourceRevisionId)
    (resume_version_id : StableId ResumeVersionId)
| PUnchangedOcrRequired (document : PendingExistingDocument)
    (source_revision_id : StableId SourceRevisionId)
| PUnchangedExcluded (document : PendingExistingDocument)
    (source_revision_id : StableId SourceRevisionId) (resume_version_id : StableId ResumeVersionId)
| PExcluded (pending : PendingClassifiedDocument)
| POcrRequired (pending : PendingSourceTriageDocument)
| PFailed (kind : ImportFailureKind) (pending : option PendingSourceTriageDocument).

Inductive ExactRerunDecision :=
| ExactUnchangedSearchable (source_revision_id : StableId SourceRevisionId)
    (resume_version_id : StableId ResumeVersionId)
| ExactMetadataChangedSearchable (pending : PendingSearchableDocument)
| ExactUnchangedOcrRequired (document : PendingExistingDocument)
    (source_revision_id : StableId SourceRevisionId)
| ExactUnchangedExcluded (document : PendingExistingDocument)
    (source_revision_id : StableId SourceRevisionId) (resume_version_id : StableId ResumeVersionId).

(** [AdmissionDecision(ClassificationResult)]. *)
Record AdmissionDecision := MkDecision { decision_result : ClassificationResult }.

Inductive ParseWorkOutcome :=
| WorkSearchable (decision : AdmissionDecision) (version : ResumeVersion)
    (mentions : list EntityMention) (index_document : IndexDocument)
| WorkExcluded (decision : AdmissionDecision) (version : ResumeVersion)
| WorkOcrRequired
| WorkFailed (status : DocumentStatus) (kind : ImportFailureKind).

Record ProcessedImportFile := MkProcessedImport {
  pif_file : DiscoveredFile;
  pif_processed : ProcessedFile;
  pif_verification : ContentVerification;
}.

Record ParseWorkItem := MkWorkItem {
  work_index : Z;
  work_file : DiscoveredFile;
  work_document : Document;
  work_source_revision : SourceRevision;
  work_bytes : list Z;
  work_verification : ContentVerification;
}.

(** [ParseWorkResult] without its durations and instants. *)
Record ParseWorkResult := MkWorkResult {
  wr_index : Z;
  wr_file : DiscoveredFile;
  wr_document : Document;
  wr_source_revision : SourceRevision;
  wr_verification : ContentVerification;
  wr_outcome : ParseWorkOutcome;
}.

Inductive PreparedFile :=
| PreparedReady (result : ProcessedImportFile)
| PreparedParse (work : ParseWorkItem).

Inductive ImportFileResult :=
| ResultProcessed (result : ProcessedImportFile)
| ResultParsed (result : ParseWorkResult).

(** ** Store rows and mutations (crates/meta-store) *)

Inductive IngestJobStatus :=
| JobQueued | JobRunning | JobInterrupted | JobCompleted | JobFailedRetryable | JobFailedPermanent.

(** The fields of [IngestJob] the rerun decision reads. *)
Record IngestJob := MkIngestJob {
  job_status : IngestJobStatus;
  job_attempt_count : Z;
  job_max_attempts : Z;
}.

Record SourceFileObservation := MkSourceObservation {
  sfo_source_revision_id : StableId SourceRevisionId;
  sfo_content_hash : ContentDigest;
  sfo_stable_file_id : str;
  sfo_byte_size : Z;
  sfo_mtime_seconds : Z;
  sfo_mtime_nanoseconds : Z;
  sfo_ctime_seconds : Z;
  sfo_ctime_nanoseconds : Z;
  sfo_strongly_verified_at : Z;
  sfo_next_strong_verification_at : Z;
}.

Record StrongSourceFileObservation := MkStrongObservation {
  sso_source_revision_id : StableId SourceRevisionId;
  sso_stable_file_id : str;
  sso_byte_size : Z;
  sso_mtime_seconds : Z;
  sso_mtime_nanoseconds : Z;
  sso_ctime_seconds : Z;
  sso_ctime_nanoseconds : Z;
  sso_strongly_verified_at : Z;
  sso_next_strong_verification_at : Z;
}.

Inductive ImmutableIngestStage :=
| StageSourceTriage (document : Document) (source_revision : SourceRevision)
    (triage : SourceRevisionTriage)
| StageClassifiedResume (document : Document) (source_revision : SourceRevision)
    (version : ResumeVersion) (classification : ResumeVersionClassification)
    (mentions : list EntityMention) (email_hash phone_hash : option ContactHash).

Inductive SourceRootBoundImportMutation :=
| MutImmutable (stage : ImmutableIngestStage)
| MutOcrRequired (stage : ImmutableIngestStage)
| MutExistingRevision (document_id : StableId DocumentId)
    (source_revision_id : StableId SourceRevisionId)
| MutExistingRevisionMetadata (document : Document)
    (source_revision_id : StableId SourceRevisionId)
| MutReadFailureWithoutRevision.

Inductive SourceRootBoundImportObservation :=
| ObsMetadataOnly
| ObsStrong (observation : StrongSourceFileObservation).

Record SourceRootBoundImportCommit := MkCommit {
  commit_task_id : str;
  commit_normalized_path : str;
  commit_observed_at : Z;
  commit_mutation : SourceRootBoundImportMutation;
  commit_observation : SourceRootBoundImportObservation;
}.

Inductive ImportSourceDispositionKind := DispSearchable | DispExcluded | DispOcrBacklog | DispFailed.

Record ImportTaskSourceDisposition := MkDisposition {
  disp_source_ordinal : Z;
  disp_document_id : StableId DocumentId;
  disp_source_revision_id : StableId SourceRevisionId;
  disp_resume_version_id : option (StableId ResumeVersionId);
  disp_kind : ImportSourceDispositionKind;
}.

Inductive ImportTaskPurpose := ConfiguredCatchUp | MigrationRebuildFullCorpus.

#[export] Instance ImportTaskPurpose_eq_dec : EqDecision ImportTaskPurpose.
Proof. solve_decision. Defined.

Inductive SearchProjectionServiceState := ServiceRepairing | ServiceReady | ServiceRepairBlocked.

Record ImportProjectionState := MkImportProjection {
  ips_service_state : SearchProjectionServiceState;
  ips_generation : option str;
  ips_repair_reason : option SearchRepairReason;
  ips_publication : option SearchPublicationRecord;
}.

(** ** The state of an import run *)

Record ImportMetadataFallbackCounts := MkFallbackCounts {
  observation_missing : Z;
  unsupported_observation : Z;
  metadata_mismatch : Z;
  audit_due : Z;
  processing_contract_changed : Z;
  metadata_io : Z;
  changed_during_import : Z;
}.

Inductive ImportMetadataFallbackReason :=
| ObservationMissing | UnsupportedObservation | MetadataMismatch | AuditDue
| ProcessingContract | MetadataIo | ChangedDuringImport.

Definition fallback_increment (reason : ImportMetadataFallbackReason)
    (c : ImportMetadataFallbackCounts) : ImportMetadataFallbackCounts :=
  let 'MkFallbackCounts a b d e f g h := c in
  let up x := u64_saturating_add x 1 in
  match reason with
  | ObservationMissing => MkFallbackCounts (up a) b d e f g h
  | UnsupportedObservation => MkFallbackCounts a (up b) d e f g h
  | MetadataMismatch => MkFallbackCounts a b (up d) e f g h
  | AuditDue => MkFallbackCounts a b d (up e) f g h
  | ProcessingContract => MkFallbackCounts a b d e (up f) g h
  | MetadataIo => MkFallbackCounts a b d e f (up g) h
  | ChangedDuringImport => MkFallbackCounts a b d e f g (up h)
  end.

Record ImportIoMetrics := MkIo {
  discovery_content_open_count : Z;
  discovery_sampled_bytes : Z;
  metadata_handle_open_count : Z;
  full_content_open_count : Z;
  full_content_bytes : Z;
  strong_hashes_attempted : Z;
  strong_hashes_skipped : Z;
  strong_observations_persisted : Z;
  metadata_fast_path_hits : Z;
  metadata_fallbacks : ImportMetadataFallbackCounts;
}.

Definition with_metadata_handle_open (m : ImportIoMetrics) : ImportIoMetrics :=
  let 'MkIo a b c d e f g h i j := m in MkIo a b (u64_saturating_add c 1) d e f g h i j.
Definition with_full_content_open (m : ImportIoMetrics) : ImportIoMetrics :=
  let 'MkIo a b c d e f g h i j := m in MkIo a b c (u64_saturating_add d 1) e f g h i j.
Definition with_full_content_bytes (n : Z) (m : ImportIoMetrics) : ImportIoMetrics :=
  let 'MkIo a b c d e f g h i j := m in MkIo a b c d (u64_saturating_add e n) f g h i j.
Definition with_strong_hash_attempted (m : ImportIoMetrics) : ImportIoMetrics :=
  let 'MkIo a b c d e f g h i j := m in MkIo a b c d e (u64_saturating_add f 1) g h i j.
Definition with_strong_observation_persisted (m : ImportIoMetrics) : ImportIoMetrics :=
  let 'MkIo a b c d e f g h i j := m in MkIo a b c d e f g (u64_saturating_add h 1) i j.
Definition with_fast_path_hit (m : ImportIoMetrics) : ImportIoMetrics :=
  let 'MkIo a b c d e f g h i j := m in
  MkIo a b c d e f (u64_saturating_add g 1) h (u64_saturating_add i 1) j.
Definition record_metadata_fallback (reason : ImportMetadataFallbackReason) (m : ImportIoMetrics)
    : ImportIoMetrics :=
  let 'MkIo a b c d e f g h i j := m in MkIo a b c d e f g h i (fallback_increment reason j).

(** The counters of [ImportWorkerMetrics]. *)
Record ImportWorkerMetrics := MkWorkerMetrics {
  parse_worker_count : Z;
  parse_jobs_queued : Z;
  parse_queue_full_events : Z;
  changed_projection_count : Z;
}.

Record ImportScanBudget := MkScanBudget {
  budget_limit : Z;
  budget_observed : Z;
  budget_exhausted : bool;
}.

Record ImportSummary := MkSummary {
  files_discovered : Z;
  processed_documents : Z;
  deferred_pdf_documents : Z;
  source_truth_complete : bool;
  scan_errors : Z;
  ignored_entries : Z;
  content_bytes_read : Z;
  io_metrics : ImportIoMetrics;
  searchable_documents : Z;
  ocr_required_documents : Z;
  ocr_jobs_queued : Z;
  failed_documents : Z;
  failure_counts : list (ImportFailureKind * Z);
  deleted_documents : Z;
  scan_budget : option ImportScanBudget;
  worker_metrics : ImportWorkerMetrics;
}.

Inductive SearchProjectionRemovalReason :=
| ConfirmedSourceDeletion | PermanentClassificationExclusion | PrivacyRevocation.

#[export] Instance SearchProjectionRemovalReason_eq_dec : EqDecision SearchProjectionRemovalReason.
Proof. solve_decision. Defined.

Record ScheduledProjectionRemoval := MkRemoval {
  removal_reason : SearchProjectionRemovalReason;
  removal_document_update : option Document;
}.

(** [ImportDispositionBatches]. *)
Record ImportDispositionBatches := MkBatches {
  batch_task_id : str;
  batch_contract_id : str;
  batch_ready : list ImportTaskSourceDisposition;
  batch_pending_searchable : list ImportTaskSourceDisposition;
}.

(** What one publication is asked to do (publish_incremental_search_artifacts and
    the decision that commits it). *)
Record PublicationRequest := MkPublicationRequest {
  req_now : Z;
  req_classifier_epoch : str;
  req_replacements : list IndexDocument;
  req_removed_document_ids : list str;
  req_ocr_required_documents : Z;
  req_deleted_documents : Z;
  req_consume_cache : bool;
  req_documents : list Document;
}.

(** Whether the generation handoff was staged, and the outcome of the transaction:
    [Ok true] is a committed publication, [Ok false] one that was not committed. *)
Record PublicationOutcome := MkPublicationOutcome {
  outcome_stage_attempted : bool;
  outcome_committed : result bool ImportPipelineError;
}.

Record SourceScanProgress := MkScanProgress {
  prog_discovered : Z;
  prog_searchable : Z;
  prog_ocr : Z;
  prog_failed : Z;
  prog_ignored : Z;
  prog_processed : Z;
  prog_errors : Z;
}.

Inductive ContactKind := ContactEmail | ContactPhone.

(** The world of an import run.  A failed system call is [None]; a store call
    reports the class of its error.  Reads of the store do not change it; calls on
    the file system, the clock and the cancellation poll may see anything. *)
Class ImportWorld (W : Type) := {
  Handle : Type;
  (* std::fs and fs_crawler *)
  file_open : str → W → W * option Handle;
  observe_open_file : Handle → W → W * option (option FileObservation);
  observe_path : str → W → W * option (option FileObservation);
  read_to_end : Handle → W → W * option (list Z);
  (* the answers of successive reads of a 64 KiB buffer, up to the end of file *)
  read_chunks : Handle → W → W * list (option (list Z));
  system_unix_seconds : W → W * option Z;
  (* cancellation and shutdown *)
  poll_not_cancelled : W → W * result unit ImportPipelineError;
  (* privacy::ContactHasher *)
  ContactHasher : Type;
  contact_hasher_load_or_create : W → W * option ContactHasher;
  hash_contact : ContactHasher → ContactKind → str → option ContactHash;
  (* meta-store reads *)
  document_by_id : StableId DocumentId → W → result (option Document) MetaStoreErrorClass;
  active_search_projection_for_document :
    StableId DocumentId → W → result (option ActiveSearchProjection) MetaStoreErrorClass;
  resume_version_by_id :
    StableId ResumeVersionId → W → result (option ResumeVersion) MetaStoreErrorClass;
  resume_version_classification :
    StableId ResumeVersionId → str → W →
    result (option ResumeVersionClassification) MetaStoreErrorClass;
  active_search_document :
    ActiveSearchProjection → W → result (option Document) MetaStoreErrorClass;
  entity_mentions_for_version :
    StableId ResumeVersionId → W → result (list EntityMention) MetaStoreErrorClass;
  source_revision_triage :
    StableId SourceRevisionId → str → W → result (option SourceRevisionTriage) MetaStoreErrorClass;
  ocr_job_for_source_triage :
    StableId SourceRevisionId → str → W → result (option IngestJob) MetaStoreErrorClass;
  resume_versions_for_document :
    StableId DocumentId → W → result (list ResumeVersion) MetaStoreErrorClass;
  source_file_observation_for_import_task :
    str → str → W → result (option SourceFileObservation) MetaStoreErrorClass;
  search_projection_state : W → result ImportProjectionState MetaStoreErrorClass;
  visible_documents : W → result (list Document) MetaStoreErrorClass;
  import_scan_scope_by_task_id : str → W → result (option ImportScanScope) MetaStoreErrorClass;
  (* meta-store writes *)
  commit_source_root_bound_import :
    SourceRootBoundImportCommit → W → W * result bool MetaStoreErrorClass;
  stage_immutable_ingest : ImmutableIngestStage → W → W * result unit MetaStoreErrorClass;
  enqueue_ocr_job_for_source_triage :
    StableId SourceRevisionId → str → Z → W → W * result bool MetaStoreErrorClass;
  upsert_document : Document → W → W * result unit MetaStoreErrorClass;
  observe_import_task_source_occurrence :
    str → str → StableId DocumentId → StableId SourceRevisionId → Z → W →
    W * result unit MetaStoreErrorClass;
  record_strong_source_file_observation :
    str → str → StrongSourceFileObservation → W → W * result unit MetaStoreErrorClass;
  stage_import_task_source_dispositions :
    str → str → list ImportTaskSourceDisposition → W → W * result unit MetaStoreErrorClass;
  upsert_import_scan_scope : ImportScanScope → W → W * result unit MetaStoreErrorClass;
  update_source_scan_progress_for_import_task :
    str → SourceScanProgress → Z → W → W * result unit MetaStoreErrorClass;
  (* publication *)
  wait_for_search_publication_session : W → W * result unit MetaStoreErrorClass;
  publish_incremental_search_artifacts : PublicationRequest → W → W * PublicationOutcome;
  generation_handoff_finish : bool → W → W * result unit ImportPipelineError;
}.

(** ** The monad of the run: state passing with the error of [?] *)

Record Run (W : Type) := MkRun {
  world : W;
  summary : ImportSummary;
  pending_index_documents : list PendingSearchableDocument;
  pending_excluded_doc_ids : list (str * ScheduledProjectionRemoval);
  disposition_batches : ImportDispositionBatches;
}.
Arguments MkRun {W} _ _ _ _ _.
Arguments world {W} _.
Arguments summary {W} _.
Arguments pending_index_documents {W} _.
Arguments pending_excluded_doc_ids {W} _.
Arguments disposition_batches {W} _.

Definition set_world {W} (w : W) (r : Run W) : Run W :=
  MkRun w (summary r) (pending_index_documents r) (pending_excluded_doc_ids r) (disposition_batches r).
Definition set_summary {W} (s : ImportSummary) (r : Run W) : Run W :=
  MkRun (world r) s (pending_index_documents r) (pending_excluded_doc_ids r) (disposition_batches r).
Definition set_pending {W} (p : list PendingSearchableDocument) (r : Run W) : Run W :=
  MkRun (world r) (summary r) p (pending_excluded_doc_ids r) (disposition_batches r).
Definition set_excluded {W} p (r : Run W) : Run W :=
  MkRun (world r) (summary r) (pending_index_documents r) p (disposition_batches r).
Definition set_batches {W} (b : ImportDispositionBatches) (r : Run W) : Run W :=
  MkRun (world r) (summary r) (pending_index_documents r) (pending_excluded_doc_ids r) b.

Definition M (W A : Type) : Type := Run W → Run W * result A ImportPipelineError.

#[export] Instance M_ret W : MRet (M W) := λ A a r, (r, Ok a).
#[export] Instance M_bind W : MBind (M W) := λ A B k m r,
  match m r with
  | (r, Ok a) => k a r
  | (r, Err e) => (r, Err e)
  end.

Definition raise {W A} (e : ImportPipelineError) : M W A := λ r, (r, Err e).
Definition of_result {W A} (x : result A ImportPipelineError) : M W A := λ r, (r, x).
(** A system call, a store read, a store write ([map_err(ImportPipelineError::store)?]). *)
Definition sys {W A} (f : W → W * A) : M W A := λ r,
  let '(w, a) := f (world r) in (set_world w r, Ok a).
Definition store_read {W A} (f : W → result A MetaStoreErrorClass) : M W A := λ r,
  (r, map_err error_store (f (world r))).
Definition store_write {W A} (f : W → W * result A MetaStoreErrorClass) : M W A := λ r,
  let '(w, a) := f (world r) in (set_world w r, map_err error_store a).
Definition pipeline_call {W A} (f : W → W * result A ImportPipelineError) : M W A := λ r,
  let '(w, a) := f (world r) in (set_world w r, a).
Definition gets {W A} (f : Run W → A) : M W A := λ r, (r, Ok (f r)).
Definition modify {W} (f : Run W → Run W) : M W unit := λ r, (f r, Ok tt).

Definition update_io {W} (f : ImportIoMetrics → ImportIoMetrics) : M W unit :=
  modify (λ r,
    let 'MkSummary a b c d e g h io i j k l m n o p := summary r in
    set_summary (MkSummary a b c d e g h (f io) i j k l m n o p) r).
Definition update_content_bytes_read {W} (f : Z → Z) : M W unit :=
  modify (λ r,
    let 'MkSummary a b c d e g h io i j k l m n o p := summary r in
    set_summary (MkSummary a b c d e g (f h) io i j k l m n o p) r).

(** ** Constants and contracts *)

Definition PARSE_VERSION : str := lit "parser-pdfium-v2".
Definition OCR_PARSE_VERSION : str := lit "ocr-v1".
Definition SCHEMA_VERSION : str := lit "resume-ir-s9-v2".
Definition NON_PDF_PARSE_VERSION : str := lit "parser-v1".
Definition SOURCE_TRIAGE_EPOCH_PREFIX : str := lit "triage_v2_".
Definition SOURCE_TRIAGE_CONTRACT_HEX_BYTES : nat := 48.
Definition TXT_DEFAULT_MAX_BYTES : Z := 16 * 1024 * 1024.
Definition MIN_AUDIT_INTERVAL_SECONDS : Z := 6 * 60 * 60.
Definition AUDIT_JITTER_SECONDS : Z := 18 * 60 * 60.
(** [0.8_f32]. *)
Definition QUALITY_SCORE : f32 := S754_finite false 13421773 (-24).

Definition primary_parse_version_for (extension : FileExtension) : str :=
  match extension with
  | Pdf => PARSE_VERSION
  | Doc | Docx | Txt => NON_PDF_PARSE_VERSION
  | Image | OtherExtension _ => PARSE_VERSION
  end.

Section import_file.
Context {W : Type} `{ImportWorld W} `{ImportEngines} `{Sha256}.

(** The prefix is stripped with [expect], and the digest is sliced at byte 48; both
    are [None] when the identity has another shape. *)
Definition source_triage_epoch (contract : ImportProcessingContract) : option str :=
  contract_hex ← strip_prefix (lit "sha256:") (contract_id contract);
  guard (SOURCE_TRIAGE_CONTRACT_HEX_BYTES ≤ length contract_hex)%nat;;
  Some (SOURCE_TRIAGE_EPOCH_PREFIX ++ take SOURCE_TRIAGE_CONTRACT_HEX_BYTES contract_hex).

Definition source_triage_epoch_parse (value : str) : result str MetaStoreErrorClass :=
  match strip_prefix SOURCE_TRIAGE_EPOCH_PREFIX value with
  | None => Err InvalidValue
  | Some contract_hex =>
      if negb (str_len contract_hex =? Z.of_nat SOURCE_TRIAGE_CONTRACT_HEX_BYTES)
         || negb (forallb is_lower_hexdigit (utf8 contract_hex))
      then Err InvalidValue
      else Ok value
  end.

Definition classifier_epoch_of_promotion : str := default CLASSIFIER_EPOCH (policy_classifier_epoch linear_promotion).

Definition import_processing_contract_for_promotion
    : result ImportProcessingContract ImportPipelineError :=
  map_err (λ e, error_store (contract_error_class e))
    (contract_new (MkParts PARSE_VERSION OCR_PARSE_VERSION SCHEMA_VERSION
       classifier_epoch_of_promotion)).

(** [SourceTriageEpoch::for_processing_contract] cannot panic on an identity made by
    [contract_new] ([current_source_triage_epoch_total] below). *)
Definition current_source_triage_epoch : result str ImportPipelineError :=
  let? contract := import_processing_contract_for_promotion in
  ok_or (source_triage_epoch contract) store_invariant.

(** ** Formatting (file_processing/formatting.rs) *)

Definition file_uri (path : str) : str := lit "file://" ++ path.

Definition document_from_discovered_file (file : DiscoveredFile) (now : Z)
    (status : DocumentStatus) : Document :=
  {| doc_id := file_document_id file;
     doc_source_uri := file_uri (file_normalized_path file);
     doc_normalized_path := file_normalized_path file;
     doc_file_name := file_name file;
     doc_extension := file_extension file;
     doc_byte_size := file_byte_size file;
     doc_mtime := file_mtime file;
     doc_content_hash := None;
     doc_text_hash := None;
     doc_is_deleted := false;
     doc_created_at := now;
     doc_updated_at := now;
     doc_status := status |}.

Definition section_type_label (t : SectionType) : str :=
  match t with
  | Profile => lit "profile"
  | Contact => lit "contact"
  | Education => lit "education"
  | Experience => lit "experience"
  | Project => lit "project"
  | Skill => lit "skill"
  | Certificate => lit "certificate"
  | Other _ => lit "other"
  end.

Definition sections_to_index (sections : list SectionChunk) : list IndexSection :=
  map (λ s, MkIndexSection (section_type_label (section_type s)) (chunk_text s)) sections.

Definition file_extension_label (extension : FileExtension) : str :=
  match extension with
  | Docx => lit "docx"
  | Pdf => lit "pdf"
  | Doc => lit "doc"
  | Txt => lit "txt"
  | Image => lit "image"
  | OtherExtension _ => lit "other"
  end.

Definition is_cjk_character (c : char) : bool :=
  ((0x4e00 <=? c) && (c <=? 0x9fff)) || ((0x3400 <=? c) && (c <=? 0x4dbf)).

Fixpoint language_scan (has_english has_chinese : bool) (text : str) : bool * bool :=
  match text with
  | [] => (has_english, has_chinese)
  | c :: text =>
      let has_english := has_english || is_ascii_alphabetic c in
      let has_chinese := has_chinese || is_cjk_character c in
      if has_english && has_chinese then (has_english, has_chinese)
      else language_scan has_english has_chinese text
  end.

Definition classify_language_set (text : str) : list str :=
  let '(has_english, has_chinese) := language_scan false false text in
  let languages := (if has_english then [lit "en"] else []) ++ (if has_chinese then [lit "zh"] else []) in
  match languages with
  | [] => [lit "unknown"]
  | _ => languages
  end.

(** ** Immutable identities (immutable_ingest.rs) *)

Definition source_revision_of (document : Document) (bytes : list Z) : SourceRevision :=
  source_revision_for_content (doc_id document) (content_digest_from_bytes bytes)
    (Z.of_nat (length bytes)).

Definition resume_version (document : Document) (revision : SourceRevision)
    (clean_text parse_version schema_version : str) (language_set : list str)
    (page_count : option Z) (quality_score : option f32) : ResumeVersion :=
  let normalized_text_hash := content_digest_from_bytes (utf8 clean_text) in
  {| ver_id := resume_version_id_from_content (doc_id document) (revision_id revision)
                 normalized_text_hash parse_version schema_version;
     ver_document_id := doc_id document;
     ver_source_revision_id := revision_id revision;
     ver_normalized_text_hash := normalized_text_hash;
     ver_parse_version := parse_version;
     ver_schema_version := schema_version;
     ver_language_set := language_set;
     ver_page_count := page_count;
     ver_raw_text := None;
     ver_clean_text := Some clean_text;
     ver_quality_score := quality_score |}.

(** ** Admission (classification.rs) *)

Definition promotion_section (t : SectionType) : PromotionSection :=
  match t with
  | Profile => PromoProfile
  | Contact => PromoContact
  | Education => PromoEducation
  | Experience => PromoExperience
  | Project => PromoProject
  | Skill => PromoSkill
  | Certificate => PromoCertificate
  | Other _ => PromoOtherChunk
  end.

Definition after_sectionization (clean_text : str) (sections : list SectionChunk)
    : AdmissionDecision :=
  let deterministic := classify_resume (NormalizedText clean_text) in
  let section_types := map (λ s, promotion_section (section_type s)) sections in
  MkDecision (promotion_apply linear_promotion clean_text section_types deterministic).

Definition decision_ocr_backlog : AdmissionDecision :=
  MkDecision (promotion_apply linear_promotion [] [] (classify_resume OcrBacklogInput)).
Definition decision_failed : AdmissionDecision :=
  MkDecision (promotion_apply linear_promotion [] [] (classify_resume FailedInput)).

Definition admits_search_index (self : AdmissionDecision) : bool :=
  bool_decide (class_status (decision_result self) = ResumeCandidate).

Definition into_version_classification (self : AdmissionDecision)
    (resume_version_id : StableId ResumeVersionId) (classified_at : Z)
    : ResumeVersionClassification :=
  let status := class_status (decision_result self) in
  {| vclass_resume_version_id := resume_version_id;
     vclass_status := status;
     vclass_classifier_epoch := class_classifier_epoch (decision_result self);
     vclass_reason_codes := class_reason_codes (decision_result self);
     vclass_classified_at := classified_at;
     vclass_review_disposition :=
       if bool_decide (status = NeedsReview) then PendingReview else NotRequired |}.

Definition into_source_triage (self : AdmissionDecision)
    (source_revision_id : StableId SourceRevisionId) (triage_epoch : str) (triaged_at : Z)
    : SourceRevisionTriage :=
  {| triage_source_revision_id := source_revision_id;
     triage_status := class_status (decision_result self);
     triage_triage_epoch := triage_epoch;
     triage_reason_codes := class_reason_codes (decision_result self);
     triage_triaged_at := triaged_at |}.

(** ** Preparation of the results (file_processing/persistence.rs) *)

Definition entity_type_from_field_type (t : FieldType) : EntityType :=
  match t with
  | FName => EName | FEmail => EEmail | FPhone => EPhone | FWeChat => EWeChat
  | FDateRange => EDateRange | FSchool => ESchool | FSchoolTier => ESchoolTier
  | FDegree => EDegree | FMajor => EMajor | FCompany => ECompany | FTitle => ETitle
  | FLocation => ELocation | FSkill => ESkill | FCertificate => ECertificate
  | FYearsExperience => EYearsExperience
  end.

Definition entity_mention_from_rule (version_id : StableId ResumeVersionId) (index : Z)
    (field : RuleMatch) : EntityMention :=
  let '(raw_value, span_start, span_end, extractor) :=
    match evidence_kind field with
    | SourceSpan =>
        (rule_raw_value field, Some (rule_span_start field), Some (rule_span_end field),
         lit "rules-v2")
    | DerivedAggregate =>
        (default (rule_raw_value field) (rule_normalized_value field), None, None,
         lit "rules-v2-derived")
    end in
  {| mention_id := from_non_secret_parts EntityMentionId
                     [extractor; id_str version_id; dec_digits index];
     mention_resume_version_id := version_id;
     mention_section_id := None;
     mention_entity_type := entity_type_from_field_type (rule_field_type field);
     mention_raw_value := raw_value;
     mention_normalized_value := rule_normalized_value field;
     mention_span_start := span_start;
     mention_span_end := span_end;
     mention_confidence := rule_confidence field;
     mention_extractor := extractor |}.

Definition entity_mentions_from_rules (version_id : StableId ResumeVersionId) (clean_text : str)
    : list EntityMention :=
  imap (λ index field, entity_mention_from_rule version_id (Z.of_nat index) field)
    (extract_strong_fields clean_text).

Definition contact_candidate (entity_type : EntityType) (mention : EntityMention)
    : option (str * f32 * Z) :=
  if bool_decide (mention_entity_type mention = entity_type) then
    normalized ← mention_normalized_value mention;
    Some (normalized, mention_confidence mention, default usize_MAX (mention_span_start mention))
  else None.

(** The comparator: higher confidence first (incomparable values are equal), then
    the earlier span, then the text. *)
Definition contact_cmp (l r : str * f32 * Z) : comparison :=
  match default Eq (f32_partial_cmp r.1.2 l.1.2) with
  | Eq => match Z.compare l.2 r.2 with Eq => cmp l.1.1 r.1.1 | c => c end
  | c => c
  end.

Definition best_normalized_contact (mentions : list EntityMention) (entity_type : EntityType)
    : option str :=
  fst ∘ fst <$> hd_error (sort_by contact_cmp (omap (contact_candidate entity_type) mentions)).

Definition hash_contact_value (hasher : ContactHasher) (kind : ContactKind) (value : option str)
    : M W (option ContactHash) :=
  match value with
  | None => mret None
  | Some v =>
      match hash_contact hasher kind v with
      | Some h => mret (Some h)
      | None => raise error_privacy
      end
  end.

Definition contact_hashes_from_mentions (mentions : list EntityMention)
    : M W (option ContactHash * option ContactHash) :=
  let email := best_normalized_contact mentions EEmail in
  let phone := best_normalized_contact mentions EPhone in
  match email, phone with
  | None, None => mret (None, None)
  | _, _ =>
      hasher ← sys contact_hasher_load_or_create;
      match hasher with
      | None => raise error_privacy
      | Some hasher =>
          email_hash ← hash_contact_value hasher ContactEmail email;
          phone_hash ← hash_contact_value hasher ContactPhone phone;
          mret (email_hash, phone_hash)
      end
  end.

Definition prepare_pending_searchable_document (document : Document) (revision : SourceRevision)
    (decision : AdmissionDecision) (version : ResumeVersion) (mentions : list EntityMention)
    (index_document : IndexDocument) (now : Z) : M W ProcessedFile :=
  let classification := into_version_classification decision (ver_id version) now in
  '(email_hash, phone_hash) ← contact_hashes_from_mentions mentions;
  mret (PSearchable
    {| ps_document := document;
       ps_source_revision := revision;
       ps_classification := classification;
       ps_version := version;
       ps_mentions := mentions;
       ps_email_hash := email_hash;
       ps_phone_hash := phone_hash;
       ps_index_document := index_document;
       ps_publication_kind := Replacement;
       ps_commit_route := Uncommitted;
       ps_source_revalidation := None |}).

Definition prepare_non_searchable (document : Document) (revision : SourceRevision)
    (version : ResumeVersion) (decision : AdmissionDecision) (now : Z) : ProcessedFile :=
  PExcluded
    {| pc_document := document;
       pc_source_revision := revision;
       pc_classification := into_version_classification decision (ver_id version) now;
       pc_version := version |}.

Definition prepare_source_revision_failure (document : Document) (revision : SourceRevision)
    (now : Z) : M W PendingSourceTriageDocument :=
  triage_epoch ← of_result current_source_triage_epoch;
  mret {| pt_document := document;
          pt_source_revision := revision;
          pt_triage := into_source_triage decision_failed (revision_id revision) triage_epoch now |}.

Definition set_status (status : DocumentStatus) (updated_at : Z) (d : Document) : Document :=
  let 'MkDocument a b c e f g h i j k l _ _ := d in
  MkDocument a b c e f g h i j k l updated_at status.

Definition set_content (revision : SourceRevision) (d : Document) : Document :=
  let 'MkDocument a b c e f _ h _ j k l m n := d in
  MkDocument a b c e f (revision_byte_size revision) h
    (Some (digest_str (revision_content_hash revision))) j k l m n.

Definition prepare_ocr_required (document : Document) (revision : SourceRevision) (now : Z)
    : M W ProcessedFile :=
  let document := set_status OcrRequired now document in
  triage_epoch ← of_result current_source_triage_epoch;
  mret (POcrRequired
    {| pt_document := document;
       pt_source_revision := revision;
       pt_triage :=
         into_source_triage decision_ocr_backlog (revision_id revision) triage_epoch now |}).

(** ** The exact rerun decision (file_processing/rerun.rs) *)

Definition sectionize_default (clean_text : str) : list SectionChunk :=
  default [] (sectionize DEFAULT_MAX_CHARS clean_text).

(** search_artifacts.rs. *)
Definition index_document_from_resume_version (document : Document) (version : ResumeVersion)
    : option IndexDocument :=
  clean_text ← ver_clean_text version;
  if is_empty (trim clean_text) then None
  else Some
    {| idoc_doc_id := id_str (doc_id document);
       idoc_resume_version_id := id_str (ver_id version);
       idoc_file_name := doc_file_name document;
       idoc_clean_text := clean_text;
       idoc_sections := sections_to_index (sectionize_default clean_text) |}.

Definition source_metadata_matches (document : Document) (file : DiscoveredFile) : bool :=
  str_eqb (doc_source_uri document) (file_uri (file_normalized_path file))
  && str_eqb (doc_normalized_path document) (file_normalized_path file)
  && str_eqb (doc_file_name document) (file_name file)
  && (doc_mtime document =? file_mtime file).

Definition with_source_metadata (file : DiscoveredFile) (now : Z) (d : Document) : Document :=
  let 'MkDocument a _ _ _ f g _ i j k l _ n := d in
  MkDocument a (file_uri (file_normalized_path file)) (file_normalized_path file) (file_name file)
    f g (file_mtime file) i j k l now n.

Definition changed_projected_document (active : Document) (file : DiscoveredFile) (now : Z)
    : option Document :=
  if source_metadata_matches active file then None
  else Some (with_source_metadata file now active).

Definition existing_document_metadata (document : Document) (file : DiscoveredFile) (now : Z)
    : PendingExistingDocument :=
  if source_metadata_matches document file then ExistingUnchanged document
  else ExistingMetadataChanged (with_source_metadata file now document).

Definition classification_epoch_matches (expected actual : str) : bool :=
  match classifier_epoch_parse actual with
  | Some _ => str_eqb actual expected
  | None => false
  end.

Definition ocr_job_is_actionable (job : IngestJob) : bool :=
  match job_status job with
  | JobQueued | JobRunning => true
  | JobInterrupted | JobFailedRetryable => job_attempt_count job <? job_max_attempts job
  | JobCompleted | JobFailedPermanent => false
  end.

Definition parse_version_is_current (file : DiscoveredFile) (version : ResumeVersion) : bool :=
  str_eqb (ver_parse_version version) (primary_parse_version_for (file_extension file))
  || str_eqb (ver_parse_version version) OCR_PARSE_VERSION.

(** The arm of [Searchable] and [IndexedPartial] documents. *)
Definition exact_searchable (file : DiscoveredFile) (document : Document)
    (revision : SourceRevision) (now : Z) : M W (option ExactRerunDecision) :=
  projection ← store_read (active_search_projection_for_document (doc_id document));
  match projection with
  | None => mret None
  | Some projection =>
      version ← store_read (resume_version_by_id (proj_resume_version_id projection));
      match version with
      | None => raise store_invariant
      | Some version =>
          if negb (bool_decide (ver_source_revision_id version = revision_id revision))
             || negb (str_eqb (ver_schema_version version) SCHEMA_VERSION)
             || negb (parse_version_is_current file version)
          then mret None
          else
            classification ←
              store_read (resume_version_classification (ver_id version) classifier_epoch_of_promotion);
            match classification with
            | None => mret None
            | Some classification =>
                if negb (classification_epoch_matches classifier_epoch_of_promotion
                           (vclass_classifier_epoch classification))
                   || negb (bool_decide (vclass_status classification = ResumeCandidate))
                then mret None
                else
                  active_document ← store_read (active_search_document projection);
                  match active_document with
                  | None => raise store_invariant
                  | Some active_document =>
                      match changed_projected_document active_document file now with
                      | None =>
                          mret (Some (ExactUnchangedSearchable (revision_id revision) (ver_id version)))
                      | Some projected_document =>
                          mentions ← store_read (entity_mentions_for_version (ver_id version));
                          match index_document_from_resume_version projected_document version with
                          | None => raise store_invariant
                          | Some index_document =>
                              mret (Some (ExactMetadataChangedSearchable
                                {| ps_document := projected_document;
                                   ps_source_revision := revision;
                                   ps_classification := classification;
                                   ps_version := version;
                                   ps_mentions := mentions;
                                   ps_email_hash := None;
                                   ps_phone_hash := None;
                                   ps_index_document := index_document;
                                   ps_publication_kind := MetadataChangedKind;
                                   ps_commit_route := Uncommitted;
                                   ps_source_revalidation := None |}))
                          end
                      end
                  end
            end
      end
  end.

Definition exact_ocr_required (file : DiscoveredFile) (document : Document)
    (revision : SourceRevision) (triage_epoch : str) (now : Z) : M W (option ExactRerunDecision) :=
  let document := existing_document_metadata document file now in
  triage ← store_read (source_revision_triage (revision_id revision) triage_epoch);
  match triage with
  | None => mret None
  | Some triage =>
      if negb (str_eqb (triage_triage_epoch triage) triage_epoch)
         || negb (bool_decide (triage_status triage = OcrBacklogStatus))
      then mret None
      else
        job ← store_read (ocr_job_for_source_triage (revision_id revision) triage_epoch);
        mret (match job with
              | Some job =>
                  if ocr_job_is_actionable job
                  then Some (ExactUnchangedOcrRequired document (revision_id revision)) else None
              | None => None
              end)
  end.

Definition exact_excluded (file : DiscoveredFile) (document : Document)
    (revision : SourceRevision) (now : Z) : M W (option ExactRerunDecision) :=
  versions ← store_read (resume_versions_for_document (doc_id document));
  match List.filter (λ version,
          bool_decide (ver_source_revision_id version = revision_id revision)
          && parse_version_is_current file version
          && str_eqb (ver_schema_version version) SCHEMA_VERSION) versions with
  | [] => mret None
  | _ :: _ :: _ => raise store_invariant
  | [version] =>
      classification ←
        store_read (resume_version_classification (ver_id version) classifier_epoch_of_promotion);
      match classification with
      | None => mret None
      | Some classification =>
          if negb (classification_epoch_matches classifier_epoch_of_promotion
                     (vclass_classifier_epoch classification))
             || negb (match vclass_status classification with
                      | NonResume | NeedsReview => true | _ => false end)
          then mret None
          else mret (Some (ExactUnchangedExcluded (existing_document_metadata document file now)
                             (revision_id revision) (ver_id version)))
      end
  end.

Definition exact_rerun_decision (file : DiscoveredFile) (strong_content_hash : ContentDigest)
    (now : Z) : M W (option ExactRerunDecision) :=
  document ← store_read (document_by_id (file_document_id file));
  match document with
  | None => mret None
  | Some document =>
      if doc_is_deleted document
         || negb (bool_decide (doc_extension document = file_extension file))
         || negb (doc_byte_size document =? file_byte_size file)
         || negb (bool_decide (doc_content_hash document = Some (digest_str strong_content_hash)))
      then mret None
      else
        let revision :=
          source_revision_for_content (doc_id document) strong_content_hash (file_byte_size file) in
        triage_epoch ← of_result current_source_triage_epoch;
        match doc_status document with
        | Searchable | IndexedPartial => exact_searchable file document revision now
        | OcrRequired => exact_ocr_required file document revision triage_epoch now
        | Excluded => exact_excluded file document revision now
        | _ => mret None
        end
  end.

Definition processed_file_from_exact (decision : ExactRerunDecision) : ProcessedFile :=
  match decision with
  | ExactUnchangedSearchable rev ver => PUnchangedSearchable rev ver
  | ExactMetadataChangedSearchable pending => PSearchable pending
  | ExactUnchangedOcrRequired document rev => PUnchangedOcrRequired document rev
  | ExactUnchangedExcluded document rev ver => PUnchangedExcluded document rev ver
  end.

(** ** The metadata fast path (file_observation_fast_path.rs) *)

(** [observe_..(..).ok().flatten()]. *)
Definition observe_open_ok (handle : Handle) : M W (option FileObservation) :=
  o ← sys (observe_open_file handle); mret (mjoin o).
Definition observe_path_ok (path : str) : M W (option FileObservation) :=
  o ← sys (observe_path path); mret (mjoin o).

Definition persisted_matches (persisted : SourceFileObservation) (observed : FileObservation)
    : bool :=
  str_eqb (sfo_stable_file_id persisted) (obs_stable_file_id observed)
  && (sfo_byte_size persisted =? obs_byte_size observed)
  && (sfo_mtime_seconds persisted =? obs_seconds (obs_modified observed))
  && (sfo_mtime_nanoseconds persisted =? obs_nanoseconds (obs_modified observed))
  && (sfo_ctime_seconds persisted =? obs_seconds (obs_changed observed))
  && (sfo_ctime_nanoseconds persisted =? obs_nanoseconds (obs_changed observed)).

Inductive FastPathAttempt := Hit (processed : ProcessedFile) | Fallback.

Definition fallback (reason : ImportMetadataFallbackReason) : M W FastPathAttempt :=
  _ ← update_io (record_metadata_fallback reason); mret Fallback.

Definition attempt_metadata_fast_path (task_id : str) (file : DiscoveredFile) (now : Z)
    : M W FastPathAttempt :=
  match file_observation file with
  | None => fallback UnsupportedObservation
  | Some discovered =>
      persisted ←
        store_read (source_file_observation_for_import_task task_id (file_normalized_path file));
      match persisted with
      | None => fallback ObservationMissing
      | Some persisted =>
          if sfo_next_strong_verification_at persisted <=? now then fallback AuditDue
          else if negb (persisted_matches persisted discovered) then fallback MetadataMismatch
          else
            handle ← sys (file_open (file_normalized_path file));
            match handle with
            | None => fallback MetadataIo
            | Some handle =>
                _ ← update_io with_metadata_handle_open;
                opened ← observe_open_ok handle;
                if negb (bool_decide (opened = Some discovered)) then fallback MetadataMismatch
                else
                  decision ← exact_rerun_decision file (sfo_content_hash persisted) now;
                  match decision with
                  | None => fallback ProcessingContract
                  | Some decision =>
                      handle_now ← observe_open_ok handle;
                      path_now ← observe_path_ok (file_normalized_path file);
                      if negb (bool_decide (handle_now = Some discovered))
                         || negb (bool_decide (path_now = Some discovered))
                      then fallback ChangedDuringImport
                      else
                        _ ← update_io with_fast_path_hit;
                        mret (Hit (processed_file_from_exact decision))
                  end
            end
      end
  end.

Definition revalidate_discovered_observation (file : DiscoveredFile) : M W bool :=
  match file_observation file with
  | None => mret false
  | Some expected =>
      current ← observe_path_ok (file_normalized_path file);
      mret (bool_decide (current = Some expected))
  end.

(** [u32::from_str_radix(s, 16)]: an optional plus sign, then hexadecimal digits. *)
Definition hex_digit_value (c : char) : option Z :=
  if is_ascii_digit c then Some (c - 48)
  else if (65 <=? c) && (c <=? 70) then Some (c - 55)
  else if (97 <=? c) && (c <=? 102) then Some (c - 87)
  else None.

Fixpoint hex_digits (acc : Z) (s : str) : option Z :=
  match s with
  | [] => Some acc
  | c :: s =>
      d ← hex_digit_value c;
      let acc := acc * 16 + d in
      if u32_MAX <? acc then None else hex_digits acc s
  end.

Definition u32_from_str_radix_16 (s : str) : option Z :=
  match s with
  | [] => None
  | [43] => None
  | 43 :: s => hex_digits 0 s
  | s => hex_digits 0 s
  end.

Definition i64_saturating_add (x y : Z) : Z := Z.max i64_MIN (Z.min i64_MAX (x + y)).

(** [stable_file_id.get(len - 8..)] is [None] inside a character. *)
Definition last_eight_bytes (s : str) : option str :=
  byte_slice s (Z.max 0 (str_len s - 8)) (str_len s).

Definition next_strong_verification_at (now : Z) (stable_file_id : str) : Z :=
  let suffix := default 0 (s ← last_eight_bytes stable_file_id; u32_from_str_radix_16 s) in
  let jitter := Z.rem suffix AUDIT_JITTER_SECONDS in
  i64_saturating_add (i64_saturating_add now MIN_AUDIT_INTERVAL_SECONDS) jitter.

Definition strong_store_observation (source_revision_id : StableId SourceRevisionId)
    (observed : FileObservation) (now : Z) : StrongSourceFileObservation :=
  {| sso_source_revision_id := source_revision_id;
     sso_stable_file_id := obs_stable_file_id observed;
     sso_byte_size := obs_byte_size observed;
     sso_mtime_seconds := obs_seconds (obs_modified observed);
     sso_mtime_nanoseconds := obs_nanoseconds (obs_modified observed);
     sso_ctime_seconds := obs_seconds (obs_changed observed);
     sso_ctime_nanoseconds := obs_nanoseconds (obs_changed observed);
     sso_strongly_verified_at := now;
     sso_next_strong_verification_at := next_strong_verification_at now (obs_stable_file_id observed) |}.

(** ** Verified reads (verified_content.rs, source_digest.rs) *)

Definition ensure_not_cancelled : M W unit := pipeline_call poll_not_cancelled.

(** [None] is the [io::Error] the callers discard. *)
Definition read_full_content (file : DiscoveredFile) : M W (option (list Z)) :=
  _ ← update_io with_full_content_open;
  handle ← sys (file_open (file_normalized_path file));
  match handle with
  | None => mret None
  | Some handle =>
      before ←
        match file_observation file with
        | None => mret true
        | Some expected =>
            o ← sys (observe_open_file handle);
            mret (bool_decide (o = Some (Some expected)))
        end;
      if negb before then mret None
      else
        bytes ← sys (read_to_end handle);
        match bytes with
        | None => mret None
        | Some bytes =>
            after ←
              match file_observation file with
              | None => mret true
              | Some expected =>
                  o ← sys (observe_open_file handle);
                  if negb (bool_decide (o = Some (Some expected))) then mret false
                  else
                    p ← sys (observe_path (file_normalized_path file));
                    mret (bool_decide (p = Some (Some expected)))
              end;
            if negb after then mret None
            else
              _ ← update_io (with_full_content_bytes (Z.of_nat (length bytes)));
              mret (Some bytes)
        end
  end.

(** The loop over the answers of [read]; the hasher state is the bytes so far. *)
Fixpoint digest_loop (hashed : list Z) (byte_size : Z) (reads : list (option (list Z)))
    : M W (option (ContentDigest * Z)) :=
  _ ← ensure_not_cancelled;
  match reads with
  | [] | Some [] :: _ =>
      match content_digest_from_str (SHA256_PREFIX ++ hex_bytes (sha256 hashed)) with
      | Some digest => mret (Some (digest, byte_size))
      | None => raise store_invariant
      end
  | None :: _ => mret None
  | Some chunk :: reads =>
      let byte_size := byte_size + Z.of_nat (length chunk) in
      if u64_MAX <? byte_size then raise store_invariant
      else digest_loop (hashed ++ chunk) byte_size reads
  end.

Definition stream_content_digest (path : str) : M W (option (ContentDigest * Z)) :=
  handle ← sys (file_open path);
  match handle with
  | None => mret None
  | Some handle =>
      reads ← sys (read_chunks handle);
      digest_loop [] 0 reads
  end.

(** ** Parsing (process.rs, prepare.rs)

    The two paths share the choice of the parser, its error mapping and the
    construction of the version; the source repeats the code in both. *)

(** The [match file.extension] of the parsers; [None] is the arm of unsupported
    extensions. *)
Definition run_parser (extension : FileExtension) (bytes : list Z)
    : option (result ParseOutput ParserError) :=
  let label := file_extension_label extension in
  match extension with
  | Docx => Some (docx_parse label bytes)
  | Doc => Some (doc_parse label bytes)
  | Pdf => Some (pdf_parse label bytes)
  | Txt => Some (txt_parse label bytes TXT_DEFAULT_MAX_BYTES)
  | _ => None
  end.

Definition parser_error_status (error : ParserError) : DocumentStatus :=
  if perr_retryable error then FailedRetryable
  else if bool_decide (perr_kind error = ParserOcrRequired) then OcrRequired
  else FailedPermanent.

(** [page_count().and_then(|n| u32::try_from(n).ok())]. *)
Definition page_count_u32 (output : ParseOutput) : option Z :=
  n ← out_page_count output; if n <=? u32_MAX then Some n else None.

Definition version_of_parse (file : DiscoveredFile) (document : Document)
    (revision : SourceRevision) (output : ParseOutput) (clean_text : str) : ResumeVersion :=
  resume_version document revision clean_text (primary_parse_version_for (file_extension file))
    SCHEMA_VERSION (classify_language_set clean_text) (page_count_u32 output) (Some QUALITY_SCORE).

Definition index_document_of_parse (file : DiscoveredFile) (document : Document)
    (version : ResumeVersion) (clean_text : str) (sections : list SectionChunk) : IndexDocument :=
  {| idoc_doc_id := id_str (doc_id document);
     idoc_resume_version_id := id_str (ver_id version);
     idoc_file_name := file_name file;
     idoc_clean_text := clean_text;
     idoc_sections := sections_to_index sections |}.

(** ** One thread: [process_file] (process.rs) *)

Definition failed_with_revision (kind : ImportFailureKind) (document : Document)
    (revision : SourceRevision) (now : Z) : M W ProcessedFile :=
  pending ← prepare_source_revision_failure document revision now;
  mret (PFailed kind (Some pending)).

(** The branch of text files over the size limit: only their digest is taken. *)
Definition oversized_text (file : DiscoveredFile) (document : Document) (now : Z)
    : M W ProcessedFile :=
  digest ← stream_content_digest (file_normalized_path file);
  match digest with
  | None => mret (PFailed ReadError None)
  | Some (content_hash, byte_size) =>
      _ ← update_content_bytes_read (λ n, u64_saturating_add n byte_size);
      _ ← update_io with_full_content_open;
      _ ← update_io (with_full_content_bytes byte_size);
      _ ← update_io with_strong_hash_attempted;
      let revision := source_revision_for_content (doc_id document) content_hash byte_size in
      let document := set_status FailedPermanent now (set_content revision document) in
      failed_with_revision TextTooLarge document revision now
  end.

Definition is_oversized_text (file : DiscoveredFile) : bool :=
  bool_decide (file_extension file = Txt) && (TXT_DEFAULT_MAX_BYTES <? file_byte_size file).

(** From the parse output to the end of [process_file_inner]. *)
Definition process_parsed_text (file : DiscoveredFile) (document : Document)
    (revision : SourceRevision) (output : ParseOutput) (now : Z) : M W ProcessedFile :=
  if bool_decide (out_status output = StatusOcrRequired) then
    _ ← ensure_not_cancelled;
    prepare_ocr_required document revision now
  else
    _ ← ensure_not_cancelled;
    let clean_text := normalize_text_only (out_text output) in
    if is_empty (trim clean_text) then
      if bool_decide (file_extension file = Txt) then
        failed_with_revision EmptyText (set_status FailedPermanent now document) revision now
      else
        _ ← ensure_not_cancelled;
        prepare_ocr_required document revision now
    else
      _ ← ensure_not_cancelled;
      let document := set_status TextCleaned (doc_updated_at document) document in
      let sections := sectionize_default clean_text in
      let decision := after_sectionization clean_text sections in
      let version := version_of_parse file document revision output clean_text in
      if negb (admits_search_index decision) then
        mret (prepare_non_searchable (set_status Excluded (doc_updated_at document) document)
                revision version decision now)
      else
        let mentions := entity_mentions_from_rules (ver_id version) clean_text in
        let index_document := index_document_of_parse file document version clean_text sections in
        _ ← ensure_not_cancelled;
        prepare_pending_searchable_document document revision decision version mentions
          index_document now.

(** The parse and everything after it in [process_file_inner]. *)
Definition process_parse (file : DiscoveredFile) (document : Document) (revision : SourceRevision)
    (bytes : list Z) (now : Z) : M W ProcessedFile :=
  match run_parser (file_extension file) bytes with
  | None =>
      failed_with_revision UnsupportedExtension (set_status FailedPermanent now document) revision now
  | Some parsed =>
      _ ← ensure_not_cancelled;
      match parsed with
      | Err error =>
          let document := set_status (parser_error_status error) (doc_updated_at document) document in
          if bool_decide (doc_status document = OcrRequired) then
            prepare_ocr_required document revision now
          else
            failed_with_revision (failure_from_parser_error (perr_kind error)) document revision now
      | Ok output => process_parsed_text file document revision output now
      end
  end.

Definition process_file_inner (file : DiscoveredFile) (now : Z)
    : M W (ProcessedFile * ContentVerification) :=
  _ ← ensure_not_cancelled;
  let document := document_from_discovered_file file now Discovered in
  _ ← ensure_not_cancelled;
  if is_oversized_text file then
    processed ← oversized_text file document now;
    mret (processed, Unavailable)
  else
    bytes ← read_full_content file;
    match bytes with
    | None => mret (PFailed ReadError None, Unavailable)
    | Some bytes =>
        _ ← update_content_bytes_read (λ n, (n + Z.of_nat (length bytes)) `mod` 2 ^ 64);
        _ ← ensure_not_cancelled;
        _ ← update_io with_strong_hash_attempted;
        let revision := source_revision_of document bytes in
        noop ← exact_rerun_decision file (revision_content_hash revision) now;
        match noop with
        | Some noop => mret (processed_file_from_exact noop, Strong)
        | None =>
            let document := set_content revision document in
            _ ← ensure_not_cancelled;
            _ ← ensure_not_cancelled;
            processed ← process_parse file document revision bytes now;
            mret (processed, Strong)
        end
    end.

Definition process_file (task_id : str) (file : DiscoveredFile) (now : Z)
    : M W (ProcessedFile * ContentVerification) :=
  attempt ← attempt_metadata_fast_path task_id file now;
  match attempt with
  | Hit processed => mret (processed, MetadataFastPath)
  | Fallback => process_file_inner file now
  end.

(** ** Three steps: prepare, parse, commit (prepare.rs, results.rs) *)

Definition prepare_file_for_parse (task_id : str) (index : Z) (file : DiscoveredFile) (now : Z)
    : M W PreparedFile :=
  _ ← ensure_not_cancelled;
  let document := document_from_discovered_file file now Discovered in
  _ ← ensure_not_cancelled;
  attempt ← attempt_metadata_fast_path task_id file now;
  match attempt with
  | Hit processed => mret (PreparedReady (MkProcessedImport file processed MetadataFastPath))
  | Fallback =>
      if is_oversized_text file then
        processed ← oversized_text file document now;
        mret (PreparedReady (MkProcessedImport file processed Unavailable))
      else
        bytes ← read_full_content file;
        match bytes with
        | None => mret (PreparedReady (MkProcessedImport file (PFailed ReadError None) Unavailable))
        | Some bytes =>
            _ ← update_content_bytes_read (λ n, (n + Z.of_nat (length bytes)) `mod` 2 ^ 64);
            _ ← ensure_not_cancelled;
            _ ← update_io with_strong_hash_attempted;
            let revision := source_revision_of document bytes in
            noop ← exact_rerun_decision file (revision_content_hash revision) now;
            match noop with
            | Some noop =>
                mret (PreparedReady (MkProcessedImport file (processed_file_from_exact noop) Strong))
            | None =>
                let document := set_content revision document in
                _ ← ensure_not_cancelled;
                mret (PreparedParse (MkWorkItem index file document revision bytes Strong))
            end
        end
  end.

Definition parse_work_item_inner (file : DiscoveredFile) (document : Document)
    (revision : SourceRevision) (bytes : list Z) : ParseWorkOutcome :=
  match run_parser (file_extension file) bytes with
  | None => WorkFailed FailedPermanent UnsupportedExtension
  | Some (Err error) =>
      let status := parser_error_status error in
      if bool_decide (status = OcrRequired) then WorkOcrRequired
      else WorkFailed status (failure_from_parser_error (perr_kind error))
  | Some (Ok output) =>
      if bool_decide (out_status output = StatusOcrRequired) then WorkOcrRequired
      else
        let clean_text := normalize_text_only (out_text output) in
        if is_empty (trim clean_text) then
          if bool_decide (file_extension file = Txt) then WorkFailed FailedPermanent EmptyText
          else WorkOcrRequired
        else
          let sections := sectionize_default clean_text in
          let decision := after_sectionization clean_text sections in
          let version := version_of_parse file document revision output clean_text in
          if admits_search_index decision then
            WorkSearchable decision version (entity_mentions_from_rules (ver_id version) clean_text)
              (index_document_of_parse file document version clean_text sections)
          else WorkExcluded decision version
  end.

Definition parse_work_item (work : ParseWorkItem) : ParseWorkResult :=
  {| wr_index := work_index work;
     wr_file := work_file work;
     wr_document := work_document work;
     wr_source_revision := work_source_revision work;
     wr_verification := work_verification work;
     wr_outcome :=
       parse_work_item_inner (work_file work) (work_document work) (work_source_revision work)
         (work_bytes work) |}.

Definition commit_parse_outcome (document : Document) (revision : SourceRevision)
    (outcome : ParseWorkOutcome) (now : Z) : M W ProcessedFile :=
  match outcome with
  | WorkSearchable decision version mentions index_document =>
      prepare_pending_searchable_document (set_status TextCleaned now document) revision decision
        version mentions index_document now
  | WorkExcluded decision version =>
      mret (prepare_non_searchable (set_status Excluded now document) revision version decision now)
  | WorkOcrRequired => prepare_ocr_required document revision now
  | WorkFailed status kind =>
      failed_with_revision kind (set_status status now document) revision now
  end.

Definition commit_parse_work_result (result : ParseWorkResult) (now : Z)
    : M W ProcessedImportFile :=
  processed ←
    commit_parse_outcome (wr_document result) (wr_source_revision result) (wr_outcome result) now;
  mret (MkProcessedImport (wr_file result) processed (wr_verification result)).
End import_file.

(** ** Laws of the monad and of quiet calls *)

Section run_laws.
Context {W : Type} `{ImportWorld W}.

(** Nobody cancels the task and no shutdown is requested: a poll says so and
    changes nothing. *)
Definition not_cancelled : Prop := ∀ w : W, poll_not_cancelled w = (w, Ok tt).

Lemma bind_run {A B} (m : M W A) (k : A → M W B) r :
  (m ≫= k) r = match m r with (r', Ok a) => k a r' | (r', Err e) => (r', Err e) end.
Proof. done. Qed.

Lemma bind_inv {A B} (m : M W A) (k : A → M W B) r r' b :
  (m ≫= k) r = (r', Ok b) → ∃ r1 a, m r = (r1, Ok a) ∧ k a r1 = (r', Ok b).
Proof. rewrite bind_run. destruct (m r) as [r1 [a|e]]; [eauto|done]. Qed.

Lemma set_world_same (r : Run W) : set_world (world r) r = r.
Proof. by destruct r. Qed.

Lemma ensure_quiet r : not_cancelled → ensure_not_cancelled r = (r, Ok tt).
Proof.
  intros Hq. unfold ensure_not_cancelled, pipeline_call. rewrite Hq. by rewrite set_world_same.
Qed.

Lemma bind_ensure {B} (k : unit → M W B) r :
  not_cancelled → (ensure_not_cancelled ≫= k) r = k tt r.
Proof. intros Hq. by rewrite bind_run, ensure_quiet. Qed.

Lemma bind_assoc_run {A B C} (m : M W A) (k : A → M W B) (l : B → M W C) r :
  ((m ≫= k) ≫= l) r = (m ≫= λ a, k a ≫= l) r.
Proof. rewrite !bind_run. by destruct (m r) as [r1 [a|e]]. Qed.

Lemma bind_ext {A B} (m : M W A) (k l : A → M W B) r :
  (∀ a r', k a r' = l a r') → (m ≫= k) r = (m ≫= l) r.
Proof. intros Hk. rewrite !bind_run. destruct (m r) as [r1 [a|e]]; auto. Qed.
End run_laws.

(** Follow a successful run through its steps, keeping the equation of each. *)
Ltac run_step H :=
  let r := fresh "r" in let a := fresh "a" in let E := fresh "E" in
  apply bind_inv in H as (r & a & E & H).

(** ** One thread and a worker agree *)

Section paths_agree.
Context {W : Type} `{ImportWorld W} `{ImportEngines} `{Sha256}.

Lemma set_status_content_updated status rev file now s :
  set_status status (doc_updated_at (set_content rev (document_from_discovered_file file now s)))
    (set_content rev (document_from_discovered_file file now s))
  = set_status status now (set_content rev (document_from_discovered_file file now s)).
Proof. done. Qed.

Lemma doc_status_set_status status t d : doc_status (set_status status t d) = status.
Proof. by destruct d. Qed.
Lemma doc_id_set_status status t d : doc_id (set_status status t d) = doc_id d.
Proof. by destruct d. Qed.
Lemma set_status_twice s1 t1 s2 t2 d : set_status s2 t2 (set_status s1 t1 d) = set_status s2 t2 d.
Proof. by destruct d. Qed.
Lemma doc_updated_at_set_status s t d : doc_updated_at (set_status s t d) = t.
Proof. by destruct d. Qed.

Lemma prepare_ocr_required_status s d rev now (r : Run W) :
  prepare_ocr_required (set_status s (doc_updated_at d) d) rev now r
  = prepare_ocr_required d rev now r.
Proof. unfold prepare_ocr_required. by rewrite set_status_twice. Qed.

Lemma resume_version_set_status s t d rev text pv sv ls pc q :
  resume_version (set_status s t d) rev text pv sv ls pc q = resume_version d rev text pv sv ls pc q.
Proof. by destruct d. Qed.

Lemma parse_paths_agree file document revision bytes now (r : Run W) :
  not_cancelled (W:=W) → doc_updated_at document = now →
  commit_parse_outcome document revision (parse_work_item_inner file document revision bytes) now r
  = process_parse file document revision bytes now r.
Proof.
  intros Hq Hnow. unfold process_parse, parse_work_item_inner, commit_parse_outcome.
  destruct (run_parser (file_extension file) bytes) as [[output|error]|]; [| |done];
    rewrite bind_ensure by done.
  - unfold process_parsed_text. case_bool_decide; [by rewrite bind_ensure|].
    rewrite bind_ensure by done.
    destruct (is_empty (trim (normalize_text_only (out_text output)))).
    { case_bool_decide; [done|]. by rewrite bind_ensure. }
    rewrite bind_ensure by done. rewrite Hnow. cbn zeta.
    set (text := normalize_text_only (out_text output)). clearbody text.
    unfold version_of_parse, index_document_of_parse.
    rewrite !resume_version_set_status, doc_id_set_status, doc_updated_at_set_status, set_status_twice.
    destruct (admits_search_index _); cbn [negb]; [|done]. by rewrite bind_ensure.
  - rewrite Hnow. cbn zeta. rewrite doc_status_set_status.
    destruct (bool_decide_reflect (parser_error_status error = OcrRequired)) as [He|He].
    + rewrite He. rewrite <- Hnow at 2. by rewrite prepare_ocr_required_status.
    + done.
Qed.
(** A file prepared by the coordinating thread, parsed by a worker and committed. *)
Definition process_by_worker (task_id : str) (index : Z) (file : DiscoveredFile) (now : Z)
    : M W ProcessedImportFile :=
  prepared ← prepare_file_for_parse task_id index file now;
  match prepared with
  | PreparedReady result => mret result
  | PreparedParse work => commit_parse_work_result (parse_work_item work) now
  end.

(** C10: Without cancellation the worker path computes for every file exactly the result of
    [process_file], with the same effects on the world and the same counters, whatever
    the file system and the store answer. *)
Theorem worker_path_matches_process_file task_id index file now (r : Run W) :
  not_cancelled (W:=W) →
  process_by_worker task_id index file now r
  = ('(processed, verification) ← process_file task_id file now;
     mret (MkProcessedImport file processed verification)) r.
Proof.
  intros Hq. unfold process_by_worker, process_file, prepare_file_for_parse.
  rewrite !bind_assoc_run. rewrite bind_ensure by done. rewrite bind_assoc_run, bind_ensure by done.
  rewrite bind_assoc_run. apply bind_ext. intros attempt r1.
  destruct attempt as [processed|]; [done|]. unfold process_file_inner.
  rewrite bind_assoc_run. rewrite bind_ensure by done. cbn zeta.
  rewrite bind_assoc_run. rewrite bind_ensure by done.
  destruct (is_oversized_text file).
  { rewrite !bind_assoc_run. by apply bind_ext. }
  rewrite !bind_assoc_run. apply bind_ext. intros [bytes|] r2; [|done].
  rewrite !bind_assoc_run. apply bind_ext. intros _ r3.
  rewrite !bind_assoc_run, !bind_ensure by done.
  rewrite !bind_assoc_run. apply bind_ext. intros _ r4.
  rewrite !bind_assoc_run. apply bind_ext. intros [noop|] r5; [done|]. cbn zeta.
  rewrite !bind_assoc_run, !bind_ensure by done. rewrite bind_assoc_run, bind_ensure by done.
  rewrite !bind_run. unfold commit_parse_work_result. cbn [parse_work_item wr_outcome wr_document
    wr_source_revision wr_verification wr_file work_file work_document work_source_revision work_bytes
    work_verification]. cbn [mret M_ret].
  rewrite bind_run, parse_paths_agree by done.
  by destruct (process_parse _ _ _ _ _ _) as [r6 [p|e]].
Qed.
End paths_agree.

(** ** What a rerun decision and a fast-path hit rely on *)

Section reruns.
Context {W : Type} `{ImportWorld W} `{ImportEngines} `{Sha256}.
Implicit Types r : Run W.

(** The current epoch of the classifier gave the version a verdict in [P]. *)
Definition classified (w : W) (ver : StableId ResumeVersionId) (P : ClassificationStatus → Prop)
    : Prop :=
  ∃ c, resume_version_classification ver classifier_epoch_of_promotion w = Ok (Some c) ∧
    vclass_classifier_epoch c = classifier_epoch_of_promotion ∧ P (vclass_status c).

(** The version was made from this revision by a parser and schema of this build. *)
Definition current_version (file : DiscoveredFile) (rev : SourceRevision) (v : ResumeVersion) : Prop :=
  ver_source_revision_id v = revision_id rev ∧ ver_schema_version v = SCHEMA_VERSION ∧
  (ver_parse_version v = primary_parse_version_for (file_extension file) ∨
   ver_parse_version v = OCR_PARSE_VERSION).

(** The active projection of the document is a current, admitted version of the revision. *)
Definition projected (w : W) (file : DiscoveredFile) (document : Document) (rev : SourceRevision)
    (v : ResumeVersion) (active : Document) : Prop :=
  ∃ p, active_search_projection_for_document (doc_id document) w = Ok (Some p) ∧
    resume_version_by_id (proj_resume_version_id p) w = Ok (Some v) ∧
    current_version file rev v ∧ classified w (ver_id v) (λ s, s = ResumeCandidate) ∧
    active_search_document p w = Ok (Some active).

(** When the code may skip reprocessing a file whose content has digest [hash]. *)
Definition rerun_justified (w : W) (file : DiscoveredFile) (hash : ContentDigest) (now : Z)
    (d : ExactRerunDecision) : Prop :=
  ∃ document, document_by_id (file_document_id file) w = Ok (Some document) ∧
    doc_is_deleted document = false ∧ doc_extension document = file_extension file ∧
    doc_byte_size document = file_byte_size file ∧
    doc_content_hash document = Some (digest_str hash) ∧
    let rev := source_revision_for_content (doc_id document) hash (file_byte_size file) in
    match d with
    | ExactUnchangedSearchable rid vid =>
        rid = revision_id rev ∧ ∃ v active, vid = ver_id v ∧ projected w file document rev v active ∧
          source_metadata_matches active file = true
    | ExactMetadataChangedSearchable pending =>
        ps_source_revision pending = rev ∧ ps_publication_kind pending = MetadataChangedKind ∧
        ∃ active, projected w file document rev (ps_version pending) active ∧
          source_metadata_matches active file = false ∧
          ps_document pending = with_source_metadata file now active ∧
          entity_mentions_for_version (ver_id (ps_version pending)) w = Ok (ps_mentions pending) ∧
          index_document_from_resume_version (ps_document pending) (ps_version pending)
          = Some (ps_index_document pending)
    | ExactUnchangedOcrRequired existing rid =>
        rid = revision_id rev ∧ existing = existing_document_metadata document file now ∧
        ∃ epoch t job, current_source_triage_epoch = Ok epoch ∧
          source_revision_triage rid epoch w = Ok (Some t) ∧ triage_triage_epoch t = epoch ∧
          triage_status t = OcrBacklogStatus ∧
          ocr_job_for_source_triage rid epoch w = Ok (Some job) ∧ ocr_job_is_actionable job = true
    | ExactUnchangedExcluded existing rid vid =>
        rid = revision_id rev ∧ existing = existing_document_metadata document file now ∧
        ∃ v vs, vid = ver_id v ∧ resume_versions_for_document (doc_id document) w = Ok vs ∧
          v ∈ vs ∧ current_version file rev v ∧
          classified w vid (λ s, s = NonResume ∨ s = NeedsReview)
    end.

Lemma store_read_inv {A} (f : W → result A MetaStoreErrorClass) r r' a :
  store_read f r = (r', Ok a) → r' = r ∧ f (world r) = Ok a.
Proof. unfold store_read. destruct (f (world r)); cbn; naive_solver. Qed.

Lemma of_result_inv {A} (x : result A ImportPipelineError) r r' a :
  of_result x r = (r', Ok a) → r' = r ∧ x = Ok a.
Proof. unfold of_result. naive_solver. Qed.

Lemma mret_inv {A} (a b : A) r r' : (mret a : M W A) r = (r', Ok b) → r' = r ∧ a = b.
Proof. cbv [mret M_ret]. naive_solver. Qed.

Lemma classification_epoch_matches_spec e a :
  classification_epoch_matches e a = true → a = e.
Proof.
  unfold classification_epoch_matches. destruct (classifier_epoch_parse a); [|done].
  apply bool_decide_eq_true.
Qed.

Lemma parse_version_is_current_spec file v :
  parse_version_is_current file v = true →
  ver_parse_version v = primary_parse_version_for (file_extension file) ∨
  ver_parse_version v = OCR_PARSE_VERSION.
Proof.
  unfold parse_version_is_current, str_eqb. intros [?|?]%orb_prop; bools; auto.
Qed.
End reruns.

(** One store read of a successful run: the state is the same, the answer is kept. *)
Ltac read_step H :=
  let E := fresh "E" in
  run_step H; match type of H with
  | _ => match goal with
         | E0 : store_read _ _ = _ |- _ => apply store_read_inv in E0 as [-> E]
         | E0 : of_result _ _ = _ |- _ => apply of_result_inv in E0 as [-> E]
         end
  end.
Ltac ret_inv H := apply mret_inv in H as [-> H]; first [discriminate H | injection H as H; subst | subst].

Section rerun_soundness.
Context {W : Type} `{ImportWorld W} `{ImportEngines} `{Sha256}.
Implicit Types r : Run W.

Lemma exact_searchable_sound file document rev now r r' d :
  exact_searchable file document rev now r = (r', Ok (Some d)) →
  r' = r ∧ ∃ v active, projected (world r) file document rev v active ∧
    match changed_projected_document active file now with
    | None => d = ExactUnchangedSearchable (revision_id rev) (ver_id v)
    | Some doc => ∃ pending, d = ExactMetadataChangedSearchable pending ∧
        ps_source_revision pending = rev ∧ ps_publication_kind pending = MetadataChangedKind ∧
        ps_version pending = v ∧ ps_document pending = doc ∧
        entity_mentions_for_version (ver_id v) (world r) = Ok (ps_mentions pending) ∧
        index_document_from_resume_version doc v = Some (ps_index_document pending)
    end.
Proof.
  unfold exact_searchable. intros E0. read_step E0. destruct a as [p|]; [|ret_inv E0].
  read_step E0. destruct a as [v|]; [|done].
  destruct (negb _ || negb _ || negb _) eqn:Hv; [ret_inv E0|]. bools.
  read_step E0. destruct a as [c|]; [|ret_inv E0].
  destruct (negb _ || negb _) eqn:Hc; [ret_inv E0|]. bools.
  read_step E0. destruct a as [active|]; [|done].
  assert (projected (world r) file document rev v active).
  { exists p. unfold str_eqb in *. bools. split_and!; [done|done| |exists c|done].
    - split_and!; [done|done|by apply parse_version_is_current_spec].
    - split_and!; [done|by apply classification_epoch_matches_spec|done]. }
  destruct (changed_projected_document active file now) as [doc|] eqn:Hd.
  - read_step E0. destruct (index_document_from_resume_version doc v) eqn:Hi; [|done].
    ret_inv E0. split; [done|]. exists v, active. rewrite Hd. naive_solver.
  - ret_inv E0. split; [done|]. exists v, active. by rewrite Hd.
Qed.

Lemma exact_ocr_required_sound file document rev epoch now r r' d :
  exact_ocr_required file document rev epoch now r = (r', Ok (Some d)) →
  r' = r ∧ d = ExactUnchangedOcrRequired (existing_document_metadata document file now) (revision_id rev) ∧
  ∃ t job, source_revision_triage (revision_id rev) epoch (world r) = Ok (Some t) ∧
    triage_triage_epoch t = epoch ∧ triage_status t = OcrBacklogStatus ∧
    ocr_job_for_source_triage (revision_id rev) epoch (world r) = Ok (Some job) ∧
    ocr_job_is_actionable job = true.
Proof.
  unfold exact_ocr_required. intros E0. read_step E0. destruct a as [t|]; [|ret_inv E0].
  destruct (negb _ || negb _) eqn:Ht; [ret_inv E0|]. unfold str_eqb in *. bools. read_step E0.
  destruct a as [job|]; [|ret_inv E0]. destruct (ocr_job_is_actionable job) eqn:Hj; ret_inv E0.
  naive_solver.
Qed.

Lemma exact_excluded_sound file document rev now r r' d :
  exact_excluded file document rev now r = (r', Ok (Some d)) →
  r' = r ∧ ∃ v vs,
    d = ExactUnchangedExcluded (existing_document_metadata document file now) (revision_id rev) (ver_id v) ∧
    resume_versions_for_document (doc_id document) (world r) = Ok vs ∧ v ∈ vs ∧
    current_version file rev v ∧
    classified (world r) (ver_id v) (λ s, s = NonResume ∨ s = NeedsReview).
Proof.
  unfold exact_excluded. intros E0. read_step E0.
  destruct (List.filter _ a) as [|v [|]] eqn:Hf; [ret_inv E0| |done].
  assert (v ∈ List.filter (λ version,
    bool_decide (ver_source_revision_id version = revision_id rev)
    && parse_version_is_current file version
    && str_eqb (ver_schema_version version) SCHEMA_VERSION) a) as Hin by (rewrite Hf; set_solver).
  apply list_elem_of_In, filter_In in Hin as [Hin Hok]. apply list_elem_of_In in Hin.
  unfold str_eqb in *. bools.
  read_step E0. destruct a0 as [c|]; [|ret_inv E0].
  destruct (negb _ || negb _) eqn:Hc; [ret_inv E0|]. bools. ret_inv E0.
  split; [done|]. exists v, a. split_and!; auto.
  - split_and!; auto. by apply parse_version_is_current_spec.
  - exists c. split_and!; [done|by apply classification_epoch_matches_spec|].
    destruct (vclass_status c); auto; discriminate.
Qed.

Lemma exact_searchable_justified file hash document now r r' d :
  document_by_id (file_document_id file) (world r) = Ok (Some document) →
  doc_is_deleted document = false → doc_extension document = file_extension file →
  doc_byte_size document = file_byte_size file →
  doc_content_hash document = Some (digest_str hash) →
  exact_searchable file document
    (source_revision_for_content (doc_id document) hash (file_byte_size file)) now r
  = (r', Ok (Some d)) →
  r' = r ∧ rerun_justified (world r) file hash now d.
Proof.
  intros Hdoc Hdel Hext Hsize Hhash (-> & v & active & Hp & Hm)%exact_searchable_sound.
  split; [done|]. exists document. do 5 (split; [done|]). unfold changed_projected_document in Hm.
  destruct (source_metadata_matches active file) eqn:Hs.
  - subst d. split; [done|]. by exists v, active.
  - destruct Hm as (pending & -> & Hr & Hk & <- & Hd & Hmen & Hi).
    do 2 (split; [done|]). exists active. rewrite Hd. by split_and!.
Qed.

Lemma exact_rerun_sound file hash now r r' d :
  exact_rerun_decision file hash now r = (r', Ok (Some d)) →
  r' = r ∧ rerun_justified (world r) file hash now d.
Proof.
  unfold exact_rerun_decision. intros E0. read_step E0. destruct a as [document|]; [|ret_inv E0].
  destruct (doc_is_deleted document || _ || _ || _) eqn:Hd; [ret_inv E0|]. bools.
  read_step E0.
  destruct (doc_status document); try (ret_inv E0; fail); try by eapply exact_searchable_justified.
  - apply exact_ocr_required_sound in E0 as (-> & -> & t & job & ?). split; [done|].
    exists document. do 5 (split; [done|]). naive_solver.
  - apply exact_excluded_sound in E0 as (-> & v & vs & -> & ?). split; [done|].
    exists document. do 5 (split; [done|]). naive_solver.
Qed.
Lemma sys_inv {A} (f : W → W * A) r r' a :
  sys f r = (r', Ok a) → r' = set_world (world r') r ∧ f (world r) = (world r', a).
Proof. unfold sys. destruct (f (world r)) as [w b]. intros [= <- <-]. done. Qed.

Lemma modify_inv f r r' : modify f r = (r', Ok tt) → r' = f r.
Proof. by intros [= <-]. Qed.

Lemma mjoin_inv (o : option (option FileObservation)) x : mjoin o = Some x → o = Some (Some x).
Proof. by destruct o as [[]|]; intros [=->]. Qed.

Lemma observe_open_ok_inv h r r' x :
  observe_open_ok h r = (r', Ok (Some x)) →
  r' = set_world (world r') r ∧ observe_open_file h (world r) = (world r', Some (Some x)).
Proof.
  intros E0. run_step E0. apply sys_inv in E as [Hr E]. apply mret_inv in E0 as [-> E0].
  apply mjoin_inv in E0 as ->. done.
Qed.

Lemma observe_path_ok_inv p r r' x :
  observe_path_ok p r = (r', Ok (Some x)) →
  r' = set_world (world r') r ∧ observe_path p (world r) = (world r', Some (Some x)).
Proof.
  intros E0. run_step E0. apply sys_inv in E as [Hr E]. apply mret_inv in E0 as [-> E0].
  apply mjoin_inv in E0 as ->. done.
Qed.

Lemma update_io_world f r r' :
  update_io f r = (r', Ok tt) →
  world r' = world r ∧ content_bytes_read (summary r') = content_bytes_read (summary r) ∧
  io_metrics (summary r') = f (io_metrics (summary r)).
Proof. intros ->%modify_inv. by destruct (summary r). Qed.

Lemma fallback_not_hit reason r r' p : fallback reason r ≠ (r', Ok (Hit p)).
Proof. intros E0. run_step E0. by apply mret_inv in E0 as [_ E0]. Qed.

(** C26: The metadata fast path skips reading a file only on evidence: the crawler observed
    it, the task recorded a strong observation with the same identity, size and times
    whose audit is not due, the opened handle showed the discovered observation before
    and after the rerun decision and so did the path at the end, and the decision,
    taken for the recorded content digest, is justified by the store.  No content is
    read, and the hit is counted. *)
Theorem fast_path_hit_sound task_id file now r r' p :
  attempt_metadata_fast_path task_id file now r = (r', Ok (Hit p)) →
  ∃ discovered persisted d h w1 w2 w3,
    file_observation file = Some discovered ∧
    source_file_observation_for_import_task task_id (file_normalized_path file) (world r)
      = Ok (Some persisted) ∧
    now < sfo_next_strong_verification_at persisted ∧
    persisted_matches persisted discovered = true ∧
    file_open (file_normalized_path file) (world r) = (w1, Some h) ∧
    observe_open_file h w1 = (w2, Some (Some discovered)) ∧
    rerun_justified w2 file (sfo_content_hash persisted) now d ∧
    p = processed_file_from_exact d ∧
    observe_open_file h w2 = (w3, Some (Some discovered)) ∧
    observe_path (file_normalized_path file) w3 = (world r', Some (Some discovered)) ∧
    content_bytes_read (summary r') = content_bytes_read (summary r) ∧
    metadata_fast_path_hits (io_metrics (summary r'))
      = u64_saturating_add (metadata_fast_path_hits (io_metrics (summary r))) 1.
Proof.
  unfold attempt_metadata_fast_path. intros E0.
  destruct (file_observation file) as [discovered|]; [|by apply fallback_not_hit in E0].
  read_step E0. destruct a as [persisted|]; [|by apply fallback_not_hit in E0].
  destruct (_ <=? now) eqn:Hdue; [by apply fallback_not_hit in E0|].
  destruct (negb (persisted_matches _ _)) eqn:Hm; [by apply fallback_not_hit in E0|]. bools.
  run_step E0. destruct a as [h|]; [|by apply fallback_not_hit in E0]. apply sys_inv in E1 as [Hr0 E1].
  run_step E0. destruct a. apply update_io_world in E2 as (Hw1 & Hc1 & Hi1).
  run_step E0. destruct (negb _) eqn:Ho; [by apply fallback_not_hit in E0|]. bools. subst a.
  apply observe_open_ok_inv in E2 as [Hr2 E2].
  run_step E0. destruct a as [d|]; [|by apply fallback_not_hit in E0].
  apply exact_rerun_sound in E3 as [-> Hd].
  run_step E0. run_step E0. destruct (negb _ || negb _) eqn:Hb; [by apply fallback_not_hit in E0|].
  bools. subst a a0. apply observe_open_ok_inv in E3 as [Hr3 E3].
  apply observe_path_ok_inv in E4 as [Hr4 E4].
  run_step E0. destruct a. apply update_io_world in E5 as (Hw5 & Hc5 & Hi5). ret_inv E0.
  rewrite Hw1 in E2. rewrite <- Hw5 in E4.
  exists discovered, persisted, d, h, (world r0), (world r2), (world r3). split_and!; try done.
  - rewrite Hc5, Hr4. cbn. rewrite Hr3. cbn. rewrite Hr2. cbn. rewrite Hc1, Hr0. done.
  - rewrite Hi5, Hr4. cbn. rewrite Hr3. cbn. rewrite Hr2. cbn. rewrite Hi1, Hr0. cbn.
    by destruct (io_metrics (summary r)).
Qed.
End rerun_soundness.

(** ** Deadlines and epochs *)

Section epochs.
Context `{Sha256}.

Lemma hex_digit_value_range c d : hex_digit_value c = Some d → 0 ≤ d < 16.
Proof.
  unfold hex_digit_value, is_ascii_digit. intros Hd.
  repeat case_match; simplify_eq; bools; lia.
Qed.

Lemma hex_digits_range acc s n : 0 ≤ acc ≤ u32_MAX → hex_digits acc s = Some n → 0 ≤ n ≤ u32_MAX.
Proof.
  revert acc; induction s as [|c s IH]; intros acc Hacc; cbn [hex_digits]; [by intros [= <-]|].
  destruct (hex_digit_value c) as [d|] eqn:Hd; cbn [mbind option_bind]; [|done].
  apply hex_digit_value_range in Hd. destruct (u32_MAX <? _) eqn:Hm; [done|]. bools.
  apply IH. lia.
Qed.

Lemma u32_from_str_radix_16_range s n : u32_from_str_radix_16 s = Some n → 0 ≤ n ≤ u32_MAX.
Proof.
  assert (0 ≤ 0 ≤ u32_MAX) by (unfold u32_MAX; lia). unfold u32_from_str_radix_16.
  intros Hn. repeat case_match; simplify_eq; eauto using hex_digits_range.
Qed.

(** The next strong verification of a file is scheduled at least six hours and less
    than a day ahead, whatever its stable identity is (an identity without a
    hexadecimal suffix has no jitter), as long as the clock is a day away from the
    end of [i64]. *)
Theorem next_strong_verification_window now id :
  i64_MIN ≤ now → now + 24 * 60 * 60 ≤ i64_MAX →
  now + 6 * 60 * 60 ≤ next_strong_verification_at now id < now + 24 * 60 * 60.
Proof.
  intros Hlo Hhi. unfold next_strong_verification_at.
  assert (0 ≤ default 0 (s ← last_eight_bytes id; u32_from_str_radix_16 s)) as Hj.
  { destruct (s ← last_eight_bytes id; u32_from_str_radix_16 s) as [n|] eqn:Hn; cbn; [|lia].
    apply bind_Some in Hn as (s & _ & Hn%u32_from_str_radix_16_range). lia. }
  revert Hj. generalize (default 0 (s ← last_eight_bytes id; u32_from_str_radix_16 s)). intros n Hn.
  unfold AUDIT_JITTER_SECONDS, MIN_AUDIT_INTERVAL_SECONDS, i64_saturating_add.
  pose proof (Z.rem_bound_pos n (18 * 60 * 60)). unfold i64_MIN, i64_MAX in *. lia.
Qed.

(** The sectionizer never panics, so [sectionize_default] drops nothing. *)
Lemma sectionize_default_some text :
  sectionize DEFAULT_MAX_CHARS text = Some (sectionize_default text).
Proof.
  unfold sectionize_default, sectionize. destruct (indexed_lines_spec text) as (lines & -> & HF & Hso).
  cbn [mbind option_bind]. destruct (heading_positions_spec [] lines) as (Hok & _ & Hinc).
  destruct (heading_positions_from 0 lines) as [|x ps] eqn:Hp.
  - destruct (fallback_chunks_spec DEFAULT_MAX_CHARS text) as (chunks & -> & _); [done|]. done.
  - destruct (heading_sections_spec text lines 0 (x :: ps)) as (chunks & -> & _);
      [done|done|by rewrite <- Hp|by rewrite <- Hp|done].
Qed.

(** Every build whose promotion names a valid classifier epoch has a source triage
    epoch: deriving it cannot panic, and the store's parser accepts it back. *)
Theorem current_source_triage_epoch_roundtrip `{!Sha256Laws} `{ImportEngines} :
  is_Some (classifier_epoch_parse classifier_epoch_of_promotion) →
  ∃ epoch, current_source_triage_epoch = Ok epoch ∧ source_triage_epoch_parse epoch = Ok epoch.
Proof.
  intros [src Hsrc]. unfold current_source_triage_epoch, import_processing_contract_for_promotion,
    contract_new. cbn [parts_classifier_epoch]. rewrite Hsrc.
  set (bs := contract_preimage _). clearbody bs. destruct (digest_hex_shape bs) as [Hlow Hlen].
  cbn [primary_parse_version ocr_parse_version derived_schema_version].
  do 3 (match goal with |- context [validate_contract_field ?x] =>
    replace (validate_contract_field x) with (@Ok unit MetaStoreError tt) by (by vm_compute) end;
    cbn [result_bind]).
  cbn [map_err result_bind]. unfold source_triage_epoch. cbn [contract_id].
  unfold content_digest_from_bytes, digest_of_preimage. cbn [digest_str].
  unfold strip_prefix, SHA256_PREFIX. rewrite starts_with_app, drop_app_length.
  cbn [mbind option_bind]. rewrite option_guard_True
    by (rewrite Hlen; unfold SOURCE_TRIAGE_CONTRACT_HEX_BYTES; lia).
  set (hex := hex_bytes (sha256 bs)) in *. clearbody hex.
  cbn [ok_or]. eexists. split; [done|].
  unfold source_triage_epoch_parse, strip_prefix. rewrite starts_with_app, drop_app_length.
  pose proof (forallb_take _ SOURCE_TRIAGE_CONTRACT_HEX_BYTES _ Hlow) as Htk.
  rewrite forallb_utf8_ascii by apply is_lower_hexdigit_ascii. rewrite Htk.
  rewrite ascii_str_len.
  2: { rewrite forallb_forall in Htk |- *. auto using lower_hex_hexdigit. }
  rewrite length_take, Hlen. done.
Qed.

(** So the triage epoch exists for every policy the application bundle can yield. *)
Lemma bundled_triage_epoch `{!Sha256Laws} `{ArtifactCodec} `{ImportEngines} bytes :
  linear_promotion = load_attested_bundled_bytes bytes →
  ∃ epoch, current_source_triage_epoch = Ok epoch ∧ source_triage_epoch_parse epoch = Ok epoch.
Proof.
  intros Hp. apply current_source_triage_epoch_roundtrip. unfold classifier_epoch_of_promotion.
  rewrite Hp. apply loaded_epoch_parses.
Qed.
End epochs.
