(* ===== verification/ImportRun.v ===== *)
(** * Finishing files of an import run (crates/import-pipeline)

    What happens to a [ProcessedFile]: its commit to the store (source_commit.rs), its
    source disposition (source_dispositions.rs), the flush of pending searchable
    documents (publication_coordinator.rs), the progress rows (orchestrator.rs), and
    the sequential runs over all files (import_run/scheduler.rs).  The run with
    parse workers is in [ImportSchedule]. *)

From Stdlib Require Import ZArith String Sorted.
From stdpp Require Import prelude.
From S2P Require Import Prelude Collections Float32 Text Identity WriterStore SearchMetadata ImportFile.

Local Open Scope Z_scope.

Definition IMPORT_SOURCE_DISPOSITION_BATCH_LIMIT : nat := 512.
Definition IMPORT_PROGRESS_UPDATE_EVERY_FILES : Z := 32.
Definition IMPORT_SEARCHABLE_FLUSH_BATCH : Z := 1024.
Definition IMPORT_SEARCHABLE_FLUSH_MILESTONES : list Z := [100; 1000].

Inductive DispositionStaging := StagingReady | SearchableFactsPending.
Inductive SearchableStagingState := StagingPending | StagingCompleted.

(** What stays fixed during one run. *)
Record RunParams := MkRunParams {
  run_task_id : str;
  run_purpose : ImportTaskPurpose;
  run_now : Z;
}.

(** ** Updates of the summary *)

Definition failure_kind_rank (k : ImportFailureKind) : Z :=
  match k with
  | TextTooLarge => 0 | ReadError => 1 | UnsupportedExtension => 2 | ParserUnsupported => 3
  | ParserCorrupted => 4 | ParserEncrypted => 5 | ParserTimeout => 6 | ParserResourceExhausted => 7
  | ParserIo => 8 | ParserCancelled => 9 | ParserInternal => 10 | EmptyText => 11
  end.
#[export] Instance ImportFailureKind_cmp : Cmp ImportFailureKind := λ x y,
  Z.compare (failure_kind_rank x) (failure_kind_rank y).

Definition failure_counts_increment (kind : ImportFailureKind) (m : list (ImportFailureKind * Z))
    : list (ImportFailureKind * Z) :=
  bmap_entry kind (λ n, default 0 n + 1) m.

Definition add_processed_document (s : ImportSummary) : ImportSummary :=
  let 'MkSummary a b c d e f g h i j k l m n o p := s in
  MkSummary a (usize_saturating_add b 1) c d e f g h i j k l m n o p.
Definition add_searchable_documents (x : Z) (s : ImportSummary) : ImportSummary :=
  let 'MkSummary a b c d e f g h i j k l m n o p := s in
  MkSummary a b c d e f g h (i + x) j k l m n o p.
Definition add_ocr_required (s : ImportSummary) : ImportSummary :=
  let 'MkSummary a b c d e f g h i j k l m n o p := s in
  MkSummary a b c d e f g h i (j + 1) k l m n o p.
Definition add_ocr_job_queued (s : ImportSummary) : ImportSummary :=
  let 'MkSummary a b c d e f g h i j k l m n o p := s in
  MkSummary a b c d e f g h i j (k + 1) l m n o p.
Definition add_failed (kind : ImportFailureKind) (s : ImportSummary) : ImportSummary :=
  let 'MkSummary a b c d e f g h i j k l m n o p := s in
  MkSummary a b c d e f g h i j k (l + 1) (failure_counts_increment kind m) n o p.
Definition update_worker_metrics (f : ImportWorkerMetrics → ImportWorkerMetrics) (s : ImportSummary)
    : ImportSummary :=
  let 'MkSummary a b c d e g h io i j k l m n o p := s in
  MkSummary a b c d e g h io i j k l m n o (f p).

Definition add_changed_projections (x : Z) (m : ImportWorkerMetrics) : ImportWorkerMetrics :=
  let 'MkWorkerMetrics a b c d := m in MkWorkerMetrics a b c (u64_saturating_add d x).
Definition record_parse_worker_count (x : Z) (m : ImportWorkerMetrics) : ImportWorkerMetrics :=
  let 'MkWorkerMetrics a b c d := m in MkWorkerMetrics (Z.max a x) b c d.
Definition add_parse_job (full_events : Z) (m : ImportWorkerMetrics) : ImportWorkerMetrics :=
  let 'MkWorkerMetrics a b c d := m in MkWorkerMetrics a (b + 1) (c + full_events) d.

Definition update_summary {W} (f : ImportSummary → ImportSummary) : M W unit :=
  modify (λ r, set_summary (f (summary r)) r).

(** [for x in l { body(x)?; }]. *)
Fixpoint for_each {W A} (body : A → M W unit) (l : list A) : M W unit :=
  match l with
  | [] => mret tt
  | x :: l => _ ← body x; for_each body l
  end.

(** ** Dispositions (source_dispositions.rs) *)

Definition disposition_staging (self : ProcessedFile) : DispositionStaging :=
  match self with
  | PSearchable _ => SearchableFactsPending
  | _ => StagingReady
  end.

Definition source_disposition (self : ProcessedFile) (source_ordinal : Z)
    (document_id : StableId DocumentId) : result ImportTaskSourceDisposition ImportPipelineError :=
  let? x :=
    match self with
    | PSearchable pending =>
        Ok (revision_id (ps_source_revision pending), Some (ver_id (ps_version pending)), DispSearchable)
    | PUnchangedSearchable rev ver => Ok (rev, Some ver, DispSearchable)
    | PUnchangedOcrRequired _ rev => Ok (rev, None, DispOcrBacklog)
    | PUnchangedExcluded _ rev ver => Ok (rev, Some ver, DispExcluded)
    | PExcluded pending =>
        Ok (revision_id (pc_source_revision pending), Some (ver_id (pc_version pending)), DispExcluded)
    | POcrRequired pending => Ok (revision_id (pt_source_revision pending), None, DispOcrBacklog)
    | PFailed _ (Some pending) => Ok (revision_id (pt_source_revision pending), None, DispFailed)
    | PFailed _ None => Err migration_scan_incomplete
    end in
  let '(rev, ver, kind) := x in
  Ok (MkDisposition source_ordinal document_id rev ver kind).

Definition staging_state {A} (pending : list A) : SearchableStagingState :=
  match pending with [] => StagingCompleted | _ => StagingPending end.

Definition batches_record (d : ImportTaskSourceDisposition) (staging : DispositionStaging)
    (b : ImportDispositionBatches) : ImportDispositionBatches :=
  let 'MkBatches task contract ready pending := b in
  match staging with
  | StagingReady => MkBatches task contract (ready ++ [d]) pending
  | SearchableFactsPending => MkBatches task contract ready (pending ++ [d])
  end.

(** [slice::chunks(n)]; [fuel] is the length of the slice. *)
Fixpoint chunks_fuel {A} (fuel n : nat) (l : list A) : list (list A) :=
  match fuel, l with
  | O, _ | _, [] => []
  | S fuel, _ => take n l :: chunks_fuel fuel n (drop n l)
  end.
Definition chunks {A} (n : nat) (l : list A) : list (list A) := chunks_fuel (length l) n l.

Definition disposition_cmp (x y : ImportTaskSourceDisposition) : comparison :=
  Z.compare (disp_source_ordinal x) (disp_source_ordinal y).

Section import_run.
Context {W : Type} `{ImportWorld W} `{ImportEngines} `{Sha256}.

Definition flush_ready : M W unit :=
  b ← gets disposition_batches;
  _ ← for_each (λ batch, store_write
        (stage_import_task_source_dispositions (batch_task_id b) (batch_contract_id b) batch))
        (chunks IMPORT_SOURCE_DISPOSITION_BATCH_LIMIT (batch_ready b));
  modify (set_batches (MkBatches (batch_task_id b) (batch_contract_id b) [] (batch_pending_searchable b))).

Definition flush_ready_if_full : M W unit :=
  b ← gets disposition_batches;
  if decide (IMPORT_SOURCE_DISPOSITION_BATCH_LIMIT ≤ length (batch_ready b))%nat then flush_ready
  else mret tt.

Definition searchable_staging_completed (state : SearchableStagingState) : M W unit :=
  b ← gets disposition_batches;
  match state, batch_pending_searchable b with
  | StagingPending, _ | _, [] => mret tt
  | StagingCompleted, pending =>
      _ ← modify (set_batches (MkBatches (batch_task_id b) (batch_contract_id b)
             (sort_by disposition_cmp (batch_ready b ++ pending)) []));
      flush_ready
  end.

Definition flush_all : M W unit :=
  b ← gets disposition_batches;
  match batch_pending_searchable b with
  | [] => flush_ready
  | _ => raise store_invariant
  end.

(** ** Commits (file_processing/source_commit.rs) *)

Definition existing_mutation (document : PendingExistingDocument)
    (rev : StableId SourceRevisionId) : SourceRootBoundImportMutation :=
  match document with
  | ExistingUnchanged document => MutExistingRevision (doc_id document) rev
  | ExistingMetadataChanged document => MutExistingRevisionMetadata document rev
  end.

Definition mutation (processed : ProcessedFile) (document_id : StableId DocumentId)
    : SourceRootBoundImportMutation :=
  match processed with
  | PSearchable pending =>
      match ps_publication_kind pending with
      | Replacement =>
          MutImmutable (StageClassifiedResume (ps_document pending) (ps_source_revision pending)
            (ps_version pending) (ps_classification pending) (ps_mentions pending)
            (ps_email_hash pending) (ps_phone_hash pending))
      | MetadataChangedKind =>
          MutExistingRevisionMetadata (ps_document pending) (revision_id (ps_source_revision pending))
      end
  | PUnchangedSearchable rev _ => MutExistingRevision document_id rev
  | PUnchangedOcrRequired document rev => existing_mutation document rev
  | PUnchangedExcluded document rev _ => existing_mutation document rev
  | PExcluded pending =>
      MutImmutable (StageClassifiedResume (pc_document pending) (pc_source_revision pending)
        (pc_version pending) (pc_classification pending) [] None None)
  | POcrRequired pending =>
      MutOcrRequired (StageSourceTriage (pt_document pending) (pt_source_revision pending)
        (pt_triage pending))
  | PFailed _ (Some pending) =>
      MutImmutable (StageSourceTriage (pt_document pending) (pt_source_revision pending)
        (pt_triage pending))
  | PFailed _ None => MutReadFailureWithoutRevision
  end.

Definition processed_source_revision_id (processed : ProcessedFile)
    : option (StableId SourceRevisionId) :=
  match processed with
  | PSearchable pending => Some (revision_id (ps_source_revision pending))
  | PUnchangedSearchable rev _ | PUnchangedOcrRequired _ rev | PUnchangedExcluded _ rev _ => Some rev
  | PExcluded pending => Some (revision_id (pc_source_revision pending))
  | POcrRequired pending | PFailed _ (Some pending) =>
      Some (revision_id (pt_source_revision pending))
  | PFailed _ None => None
  end.

Definition strong_observation (file : DiscoveredFile) (processed : ProcessedFile)
    (verification : ContentVerification) (now : Z)
    : result (option StrongSourceFileObservation) ImportPipelineError :=
  if negb (bool_decide (verification = Strong)) then Ok None
  else
    let? observation := ok_or (file_observation file) source_changed_during_import in
    let? rev := ok_or (processed_source_revision_id processed) store_invariant in
    Ok (Some (strong_store_observation rev observation now)).

Definition set_commit_route (route : PendingSearchableCommitRoute) (p : PendingSearchableDocument)
    : PendingSearchableDocument :=
  let 'MkPendingSearchable a b c d e f g h i _ k := p in MkPendingSearchable a b c d e f g h i route k.
Definition set_source_revalidation (v : option PendingSourceRevalidation)
    (p : PendingSearchableDocument) : PendingSearchableDocument :=
  let 'MkPendingSearchable a b c d e f g h i j _ := p in MkPendingSearchable a b c d e f g h i j v.

Definition route_processed (route : PendingSearchableCommitRoute) (processed : ProcessedFile)
    : ProcessedFile :=
  match processed with
  | PSearchable pending => PSearchable (set_commit_route route pending)
  | _ => processed
  end.

(** The answer is the mutated [processed] and whether an OCR job was scheduled. *)
Definition commit_configured_import (p : RunParams) (file : DiscoveredFile)
    (processed : ProcessedFile) (verification : ContentVerification) : M W (ProcessedFile * bool) :=
  strong ← of_result (strong_observation file processed verification (run_now p));
  scheduled ← store_write (commit_source_root_bound_import
    {| commit_task_id := run_task_id p;
       commit_normalized_path := file_normalized_path file;
       commit_observed_at := run_now p;
       commit_mutation := mutation processed (file_document_id file);
       commit_observation := match strong with Some o => ObsStrong o | None => ObsMetadataOnly end |});
  mret (route_processed RootBoundCommitted processed, scheduled).

(** The match of [commit_migration_rebuild] on the mutation; [None] is the early
    return of a read failure. *)
Definition apply_migration_mutation (p : RunParams) (m : SourceRootBoundImportMutation)
    : M W (option bool) :=
  match m with
  | MutImmutable stage => _ ← store_write (stage_immutable_ingest stage); mret (Some false)
  | MutOcrRequired stage =>
      match stage with
      | StageClassifiedResume _ _ _ _ _ _ _ => raise store_invariant
      | StageSourceTriage _ revision triage =>
          _ ← store_write (stage_immutable_ingest stage);
          epoch ← of_result (map_err error_store (source_triage_epoch_parse (triage_triage_epoch triage)));
          scheduled ←
            store_write (enqueue_ocr_job_for_source_triage (revision_id revision) epoch (run_now p));
          mret (Some scheduled)
      end
  | MutExistingRevision _ _ => mret (Some false)
  | MutExistingRevisionMetadata document _ =>
      _ ← store_write (upsert_document document); mret (Some false)
  | MutReadFailureWithoutRevision => mret None
  end.

Definition commit_migration_rebuild (p : RunParams) (file : DiscoveredFile)
    (processed : ProcessedFile) (verification : ContentVerification) : M W (ProcessedFile * bool) :=
  match processed with
  | PSearchable _ => mret (route_processed MigrationRebuildPrepared processed, false)
  | _ =>
      outcome ← apply_migration_mutation p (mutation processed (file_document_id file));
      match outcome with
      | None => mret (processed, false)
      | Some scheduled =>
          rev ← of_result (ok_or (processed_source_revision_id processed) store_invariant);
          _ ← store_write (observe_import_task_source_occurrence (run_task_id p)
                (file_normalized_path file) (file_document_id file) rev (run_now p));
          strong ← of_result (strong_observation file processed verification (run_now p));
          _ ← match strong with
              | Some o => store_write (record_strong_source_file_observation (run_task_id p)
                            (file_normalized_path file) o)
              | None => mret tt
              end;
          mret (processed, scheduled)
      end
  end.

Definition commit_import_file (p : RunParams) (file : DiscoveredFile) (processed : ProcessedFile)
    (verification : ContentVerification) : M W (ProcessedFile * bool) :=
  match run_purpose p with
  | ConfiguredCatchUp => commit_configured_import p file processed verification
  | MigrationRebuildFullCorpus => commit_migration_rebuild p file processed verification
  end.

(** ** Pending removals (publication_coordinator.rs) *)

(** [PendingProjectionRemovals::schedule] on the map of the run. *)
Definition schedule_removal (document_id : StableId DocumentId)
    (reason : SearchProjectionRemovalReason) (document_update : option Document)
    (m : list (str * ScheduledProjectionRemoval))
    : result (list (str * ScheduledProjectionRemoval)) ImportPipelineError :=
  match bmap_lookup (id_str document_id) m with
  | Some existing =>
      if negb (bool_decide (removal_reason existing = reason)) then Err store_invariant
      else
        match removal_document_update existing, document_update with
        | Some old, Some replacement =>
            if bool_decide (old = replacement) then Ok m else Err store_invariant
        | None, Some replacement =>
            Ok (bmap_entry (id_str document_id)
                  (λ _, MkRemoval (removal_reason existing) (Some replacement)) m)
        | _, None => Ok m
        end
  | None => Ok (bmap_entry (id_str document_id) (λ _, MkRemoval reason document_update) m)
  end.

Definition publication_documents (m : list (str * ScheduledProjectionRemoval)) : list Document :=
  omap (λ x : str * ScheduledProjectionRemoval, removal_document_update x.2) m.

Definition has_active_projection (document_id : StableId DocumentId) : M W bool :=
  projection ← store_read (active_search_projection_for_document document_id);
  mret (bool_decide (is_Some projection)).

(** [filter] with an effectful predicate. *)
Fixpoint filter_m {A} (keep : A → M W bool) (l : list A) : M W (list A) :=
  match l with
  | [] => mret []
  | x :: l =>
      k ← keep x;
      l ← filter_m keep l;
      mret (match k with true => x :: l | false => l end)
  end.

Definition retain_active_projections : M W unit :=
  m ← gets pending_excluded_doc_ids;
  _ ← modify (set_excluded []);
  m ← filter_m (λ x : str * ScheduledProjectionRemoval, has_active_projection (MkId x.1)) m;
  modify (set_excluded m).

Definition schedule_permanent_exclusion_if_projected (document_id : StableId DocumentId)
    (document : Document) : M W unit :=
  projected ← has_active_projection document_id;
  match projected with
  | true =>
      m ← gets pending_excluded_doc_ids;
      m ← of_result (schedule_removal document_id PermanentClassificationExclusion (Some document) m);
      modify (set_excluded m)
  | false => mret tt
  end.

(** ** Flushing searchable documents *)

(** One document of the staging loop at the head of the flush. *)
Definition stage_pending_document (pending : PendingSearchableDocument) : M W unit :=
  _ ← match ps_source_revalidation pending with
      | Some (MkRevalidation _ path _ (Some expected)) =>
          current ← observe_path_ok path;
          if negb (bool_decide (current = Some expected)) then raise source_changed_during_import
          else mret tt
      | _ => mret tt
      end;
  match ps_commit_route pending with
  | RootBoundCommitted => mret tt
  | Uncommitted => raise store_invariant
  | MigrationRebuildPrepared =>
      if negb (bool_decide (ps_publication_kind pending = Replacement)) then raise store_invariant
      else
        _ ← store_write (stage_immutable_ingest
              (StageClassifiedResume (ps_document pending) (ps_source_revision pending)
                 (ps_version pending) (ps_classification pending) (ps_mentions pending)
                 (ps_email_hash pending) (ps_phone_hash pending)));
        match ps_source_revalidation pending with
        | None => mret tt
        | Some source =>
            _ ← store_write (observe_import_task_source_occurrence (reval_task_id source)
                  (reval_normalized_path source) (doc_id (ps_document pending))
                  (revision_id (ps_source_revision pending)) (reval_observed_at source));
            match reval_strong_observation source with
            | None => mret tt
            | Some observed =>
                _ ← store_write (record_strong_source_file_observation (reval_task_id source)
                      (reval_normalized_path source)
                      (strong_store_observation (revision_id (ps_source_revision pending)) observed
                         (reval_observed_at source)));
                update_io with_strong_observation_persisted
            end
        end
  end.

Definition publication_classifier_epoch (pending : list PendingSearchableDocument) : M W str :=
  let pending_epochs := remove_dups (map (vclass_classifier_epoch ∘ ps_classification) pending) in
  match pending_epochs with
  | _ :: _ :: _ => raise store_invariant
  | _ =>
      let pending_epoch := hd_error pending_epochs in
      state ← store_read search_projection_state;
      let current_epoch := pub_classifier_epoch <$> ips_publication state in
      match pending_epoch, current_epoch with
      | Some p, Some c => if str_eqb p c then mret p else raise store_invariant
      | Some p, None => mret p
      | None, Some c => mret c
      | None, None => mret CLASSIFIER_EPOCH
      end
  end.

Definition searchable_replacement_changes_projection (pending : PendingSearchableDocument)
    : M W bool :=
  projection ←
    store_read (active_search_projection_for_document (doc_id (ps_document pending)));
  match projection with
  | None => mret true
  | Some projection =>
      if negb (bool_decide (proj_resume_version_id projection = ver_id (ps_version pending)))
      then mret true
      else
        active ← store_read (active_search_document projection);
        match active with
        | None => raise store_invariant
        | Some active =>
            let projected := set_status Searchable (doc_updated_at active) (ps_document pending) in
            mret (negb (bool_decide (projected = active)))
        end
  end.

Definition is_semantic_delta (pending : PendingSearchableDocument) : M W bool :=
  match ps_publication_kind pending with
  | MetadataChangedKind => mret true
  | Replacement => searchable_replacement_changes_projection pending
  end.

(** The answer is the number of unchanged documents. *)
Definition normalize_searchable_replacements : M W Z :=
  pending ← gets pending_index_documents;
  _ ← modify (set_pending []);
  retained ← filter_m is_semantic_delta pending;
  _ ← modify (set_pending retained);
  mret (Z.of_nat (length pending) - Z.of_nat (length retained)).

Definition is_migration_rebuild_staging (state : ImportProjectionState) : bool :=
  match ips_generation state, ips_service_state state, ips_repair_reason state with
  | None, ServiceRepairing, Some MigrationRebuild => true
  | _, _, _ => false
  end.

(** The publication of a delta, from the telemetry snapshot to the end. *)
Definition publish_delta (now : Z) (consume : bool) (classifier_epoch : str) (unchanged : Z)
    : M W bool :=
  removals ← gets pending_excluded_doc_ids;
  pending ← gets pending_index_documents;
  _ ← modify (set_pending []);
  let new_searchable_count := Z.of_nat (length pending) in
  _ ← update_summary (update_worker_metrics (add_changed_projections
        (usize_saturating_add new_searchable_count (Z.of_nat (length removals)))));
  s ← gets summary;
  outcome ← sys (publish_incremental_search_artifacts
    {| req_now := now;
       req_classifier_epoch := classifier_epoch;
       req_replacements := map ps_index_document pending;
       req_removed_document_ids := removals.*1;
       req_ocr_required_documents := ocr_required_documents s;
       req_deleted_documents := deleted_documents s;
       req_consume_cache := consume;
       req_documents :=
         map (λ p, set_status Searchable now (ps_document p)) pending
         ++ publication_documents removals |});
  let committed := match outcome_committed outcome with Ok true => true | _ => false end in
  _ ← if outcome_stage_attempted outcome
      then pipeline_call (generation_handoff_finish committed) else mret tt;
  applied ← of_result (outcome_committed outcome);
  if negb applied then raise (MkError Index true)
  else
    _ ← update_summary (add_searchable_documents (unchanged + new_searchable_count));
    _ ← modify (set_excluded []);
    mret true.

(** [flush_pending_searchable_documents_with_handoff]; the answer says whether a
    generation was published. *)
Definition flush_pending_searchable_documents (now : Z) (consume : bool) : M W bool :=
  pending ← gets pending_index_documents;
  _ ← match pending with
      | [] => mret tt
      | _ => _ ← ensure_not_cancelled; for_each stage_pending_document pending
      end;
  _ ← ensure_not_cancelled;
  _ ← store_write wait_for_search_publication_session;
  state ← store_read search_projection_state;
  classifier_epoch ← publication_classifier_epoch pending;
  if is_migration_rebuild_staging state then
    if existsb (λ p, negb (bool_decide (ps_publication_kind p = Replacement))) pending
    then raise store_invariant
    else
      removals ← gets pending_excluded_doc_ids;
      _ ← for_each (λ document, _ ← ensure_not_cancelled; store_write (upsert_document document))
            (publication_documents removals);
      _ ← update_summary (add_searchable_documents (Z.of_nat (length pending)));
      _ ← modify (set_pending []);
      _ ← modify (set_excluded []);
      mret false
  else
    unchanged ← normalize_searchable_replacements;
    _ ← retain_active_projections;
    pending ← gets pending_index_documents;
    removals ← gets pending_excluded_doc_ids;
    match pending, removals, ips_generation state with
    | [], [], Some _ => _ ← update_summary (add_searchable_documents unchanged); mret false
    | _, _, _ => publish_delta now consume classifier_epoch unchanged
    end.

(** ** Progress (import_run/orchestrator.rs) *)

Definition current_timestamp_or (fallback : Z) : M W Z :=
  seconds ← sys system_unix_seconds;
  mret (match seconds with
        | Some current => if fallback <=? current then current else fallback
        | None => fallback
        end).

Definition sealed_source_disposition_count (s : ImportSummary) : Z :=
  Z.max 0 (files_discovered s - deferred_pdf_documents s).

(** The counters in the order of the fields of the row. *)
Definition import_scan_scope_from_summary (task_id : str) (updated_at : Z)
    : M W (option ImportScanScope) :=
  s ← gets summary;
  scope ← store_read (import_scan_scope_by_task_id task_id);
  match scope with
  | None => mret None
  | Some scope =>
      now ← current_timestamp_or updated_at;
      mret (Some
        {| s_import_task_id := s_import_task_id scope;
           s_root_kind := s_root_kind scope;
           s_root_preset := s_root_preset scope;
           s_scan_profile := s_scan_profile scope;
           s_requested_root_path := s_requested_root_path scope;
           s_canonical_root_path := s_canonical_root_path scope;
           s_counters := [sealed_source_disposition_count s; ignored_entries s; scan_errors s;
             searchable_documents s; ocr_required_documents s; ocr_jobs_queued s; failed_documents s;
             deleted_documents s];
           s_scan_budget_kind := (λ _, BudgetFiles) <$> scan_budget s;
           s_scan_budget_limit := budget_limit <$> scan_budget s;
           s_scan_budget_observed := budget_observed <$> scan_budget s;
           s_scan_budget_exhausted :=
             match scan_budget s with Some b => budget_exhausted b | None => false end;
           s_updated_at := now |})
  end.

Definition publish_import_progress (task_id : str) (updated_at : Z) : M W unit :=
  scope ← import_scan_scope_from_summary task_id updated_at;
  match scope with
  | None => mret tt
  | Some scope =>
      s ← gets summary;
      _ ← store_write (upsert_import_scan_scope scope);
      store_write (update_source_scan_progress_for_import_task task_id
        {| prog_discovered := files_discovered s;
           prog_searchable := searchable_documents s;
           prog_ocr := ocr_required_documents s;
           prog_failed := failed_documents s;
           prog_ignored := ignored_entries s;
           prog_processed := processed_documents s;
           prog_errors := scan_errors s |} (s_updated_at scope))
  end.

(** ** Finishing one file (import_run/scheduler.rs) *)

Definition should_publish_import_progress (index total : Z) : bool :=
  let processed := index + 1 in
  (processed =? total) || (processed `mod` IMPORT_PROGRESS_UPDATE_EVERY_FILES =? 0).

Definition crosses_searchable_flush_milestone (pending searchable : Z) : bool :=
  let projected := usize_saturating_add searchable pending in
  existsb (λ milestone, (searchable <? milestone) && (milestone <=? projected))
    IMPORT_SEARCHABLE_FLUSH_MILESTONES.

Definition should_flush_searchable_documents (index total pending searchable : Z) : bool :=
  let processed := index + 1 in
  ((processed <? total) && (searchable =? 0) && (0 <? pending))
  || crosses_searchable_flush_milestone pending searchable
  || (IMPORT_SEARCHABLE_FLUSH_BATCH <=? pending).

Definition is_read_failure (processed : ProcessedFile) : bool :=
  match processed with PFailed ReadError _ => true | _ => false end.

Definition is_searchable_result (processed : ProcessedFile) : bool :=
  match processed with PSearchable _ => true | _ => false end.

(** The revalidation a searchable document carries to its flush. *)
Definition pending_revalidation (p : RunParams) (file : DiscoveredFile)
    (verification : ContentVerification)
    : result (option PendingSourceRevalidation) ImportPipelineError :=
  if bool_decide (run_purpose p = MigrationRebuildFullCorpus) || bool_decide (verification = Strong)
  then
    let? strong :=
      if bool_decide (verification = Strong)
      then let? o := ok_or (file_observation file) source_changed_during_import in Ok (Some o)
      else Ok None in
    Ok (Some (MkRevalidation (run_task_id p) (file_normalized_path file) (run_now p) strong))
  else Ok None.

(** The match on the committed result. *)
Definition record_processed (p : RunParams) (file : DiscoveredFile) (processed : ProcessedFile)
    (verification : ContentVerification) (ocr_job_scheduled : bool) : M W unit :=
  match processed with
  | PSearchable pending =>
      revalidation ← of_result (pending_revalidation p file verification);
      modify (λ r, set_pending
        (pending_index_documents r ++ [set_source_revalidation revalidation pending]) r)
  | POcrRequired _ =>
      _ ← update_summary add_ocr_required;
      if ocr_job_scheduled then update_summary add_ocr_job_queued else mret tt
  | PFailed kind _ => update_summary (add_failed kind)
  | PExcluded pending =>
      schedule_permanent_exclusion_if_projected (file_document_id file) (pc_document pending)
  | PUnchangedExcluded document _ _ =>
      schedule_permanent_exclusion_if_projected (file_document_id file) (existing_document document)
  | PUnchangedOcrRequired _ _ => mret tt
  | PUnchangedSearchable _ _ => update_summary (add_searchable_documents 1)
  end.

(** From the record of the disposition to the end of [finish_import_file]. *)
Definition stage_finished_file (p : RunParams) (index total : Z)
    (disposition : ImportTaskSourceDisposition) (staging : DispositionStaging) : M W unit :=
  _ ← modify (λ r, set_batches (batches_record disposition staging (disposition_batches r)) r);
  pending ← gets pending_index_documents;
  s ← gets summary;
  flushed ←
    if should_flush_searchable_documents index total (Z.of_nat (length pending))
         (searchable_documents s)
    then flush_pending_searchable_documents (run_now p) false
    else mret false;
  pending ← gets pending_index_documents;
  _ ← searchable_staging_completed (staging_state pending);
  _ ← flush_ready_if_full;
  match flushed || should_publish_import_progress index total with
  | true => publish_import_progress (run_task_id p) (run_now p)
  | false => mret tt
  end.

Definition finish_import_file (p : RunParams) (index total : Z) (file : DiscoveredFile)
    (processed : ProcessedFile) (verification : ContentVerification) : M W unit :=
  let source_read_failed := is_read_failure processed in
  let staging := disposition_staging processed in
  disposition ←
    (if source_read_failed then mret None
     else d ← of_result (source_disposition processed index (file_document_id file)); mret (Some d));
  changed ←
    (if negb source_read_failed && negb (bool_decide (verification = Unavailable))
     then ok ← revalidate_discovered_observation file; mret (negb ok)
     else mret false);
  match changed with
  | true =>
      _ ← update_io (record_metadata_fallback ChangedDuringImport);
      raise source_changed_during_import
  | false =>
      '(processed, ocr_job_scheduled) ← commit_import_file p file processed verification;
      _ ← update_summary add_processed_document;
      _ ← (if bool_decide (verification = Strong) && negb source_read_failed
              && (bool_decide (run_purpose p = ConfiguredCatchUp)
                  || negb (is_searchable_result processed))
           then update_io with_strong_observation_persisted else mret tt);
      _ ← record_processed p file processed verification ocr_job_scheduled;
      if source_read_failed then
        _ ← publish_import_progress (run_task_id p) (run_now p);
        raise migration_scan_incomplete
      else
        match disposition with
        | None => raise store_invariant
        | Some disposition => stage_finished_file p index total disposition staging
        end
  end.

(** ** Sequential runs *)

Fixpoint process_indexed_files_sequential (p : RunParams) (total : Z)
    (files : list (Z * DiscoveredFile)) : M W unit :=
  match files with
  | [] => mret tt
  | (index, file) :: files =>
      _ ← ensure_not_cancelled;
      '(processed, verification) ← process_file (run_task_id p) file (run_now p);
      _ ← finish_import_file p index total file processed verification;
      process_indexed_files_sequential p total files
  end.

(** [files.into_iter().enumerate()]. *)
Definition enumerate {A} (l : list A) : list (Z * A) := imap (λ i x, (Z.of_nat i, x)) l.

Definition process_files_sequential (p : RunParams) (files : list DiscoveredFile) : M W unit :=
  process_indexed_files_sequential p (Z.of_nat (length files)) (enumerate files).

(** ** The end of a run (import_run/scan.rs, orchestrator.rs) *)

Definition normalized_path_is_under_root (document_path root : str) : bool :=
  if str_eqb document_path root then true
  else if ends_with (lit "/") root then starts_with root document_path
  else
    match strip_prefix root document_path with
    | Some suffix => starts_with (lit "/") suffix
    | None => false
    end.

(** The characters before the last [/] ([rsplit_once('/')]). *)
Fixpoint parent_of (s : str) : option str :=
  match s with
  | [] => None
  | c :: s =>
      match parent_of s with
      | Some parent => Some (c :: parent)
      | None => if c =? 47 then Some [] else None
      end
  end.

Definition normalized_parent_path (path : str) : option str :=
  parent ← parent_of path; Some (if is_empty parent then lit "/" else parent).

Definition document_parent_is_scanned (document_path : str) (scanned : list str) : bool :=
  match normalized_parent_path document_path with
  | Some parent => existsb (str_eqb parent) scanned
  | None => false
  end.

(** What the crawl reported; [report_root] is [normalize_path(root)], [None] when it
    fails, and [report_explicit] says that the profile is [Explicit]. *)
Record ScanReport := MkScanReport {
  report_root : option str;
  report_explicit : bool;
  scanned_directories : list str;
  skipped_directories : list str;
  discovered_doc_ids : list str;
}.

Definition document_path_is_deletion_candidate (document_path : str) (report : ScanReport) : bool :=
  match report_root report with
  | None => false
  | Some root =>
      if negb (normalized_path_is_under_root document_path root) then false
      else if report_explicit report then true
      else document_parent_is_scanned document_path (scanned_directories report)
           && negb (existsb (normalized_path_is_under_root document_path) (skipped_directories report))
  end.

Definition set_deleted (now : Z) (d : Document) : Document :=
  let 'MkDocument a b c e f g h i j _ l _ _ := d in MkDocument a b c e f g h i j true l now Deleted.

Definition mark_missing_documents_deleted (report : ScanReport) (now : Z) : M W (list Document) :=
  documents ← store_read visible_documents;
  mret (map (set_deleted now)
    (List.filter (λ d,
       document_path_is_deletion_candidate (doc_normalized_path d) report
       && negb (existsb (str_eqb (id_str (doc_id d))) (discovered_doc_ids report))) documents)).

Definition set_deleted_documents (x : Z) (s : ImportSummary) : ImportSummary :=
  let 'MkSummary a b c d e f g h i j k l m n o p := s in MkSummary a b c d e f g h i j k l m x o p.

(** [run_import] after the files were processed. *)
Definition complete_run (p : RunParams) (report : ScanReport) : M W unit :=
  s ← gets summary;
  _ ← (if source_truth_complete s then
         _ ← ensure_not_cancelled;
         deleted ← mark_missing_documents_deleted report (run_now p);
         _ ← update_summary (set_deleted_documents (Z.of_nat (length deleted)));
         _ ← for_each (λ document,
               m ← gets pending_excluded_doc_ids;
               m ← of_result (schedule_removal (doc_id document) ConfirmedSourceDeletion
                                (Some document) m);
               modify (set_excluded m)) deleted;
         publish_import_progress (run_task_id p) (run_now p)
       else update_summary (set_deleted_documents 0));
  _ ← flush_pending_searchable_documents (run_now p) true;
  pending ← gets pending_index_documents;
  _ ← searchable_staging_completed (staging_state pending);
  _ ← flush_all;
  publish_import_progress (run_task_id p) (run_now p).
End import_run.

(** ** The instrumented world

    Any world paired with the list of dispositions whose staging call succeeded, in
    the order of the calls.  The code runs in it unchanged, so a theorem about the log
    is a theorem about the calls the code makes, for every world. *)

Section logged.
Context {W : Type} `{ImportWorld W}.

Definition Logged : Type := W * list ImportTaskSourceDisposition.

Definition lift_read {A} (f : W → A) : Logged → A := λ w, f w.1.
Definition lift_call {A} (f : W → W * A) : Logged → Logged * A := λ w,
  let '(w', a) := f w.1 in ((w', w.2), a).

Definition logged_stage (task contract : str) (batch : list ImportTaskSourceDisposition)
    : Logged → Logged * result unit MetaStoreErrorClass := λ w,
  let '(w', a) := stage_import_task_source_dispositions task contract batch w.1 in
  ((w', match a with Ok _ => w.2 ++ batch | Err _ => w.2 end), a).

#[export] Instance logged_world : ImportWorld Logged := {|
  Handle := Handle;
  file_open p := lift_call (file_open p);
  observe_open_file h := lift_call (observe_open_file h);
  observe_path p := lift_call (observe_path p);
  read_to_end h := lift_call (read_to_end h);
  read_chunks h := lift_call (read_chunks h);
  system_unix_seconds := lift_call system_unix_seconds;
  poll_not_cancelled := lift_call poll_not_cancelled;
  ContactHasher := ContactHasher;
  contact_hasher_load_or_create := lift_call contact_hasher_load_or_create;
  hash_contact := hash_contact;
  document_by_id d := lift_read (document_by_id d);
  active_search_projection_for_document d := lift_read (active_search_projection_for_document d);
  resume_version_by_id v := lift_read (resume_version_by_id v);
  resume_version_classification v e := lift_read (resume_version_classification v e);
  active_search_document p := lift_read (active_search_document p);
  entity_mentions_for_version v := lift_read (entity_mentions_for_version v);
  source_revision_triage s e := lift_read (source_revision_triage s e);
  ocr_job_for_source_triage s e := lift_read (ocr_job_for_source_triage s e);
  resume_versions_for_document d := lift_read (resume_versions_for_document d);
  source_file_observation_for_import_task t p :=
    lift_read (source_file_observation_for_import_task t p);
  search_projection_state := lift_read search_projection_state;
  visible_documents := lift_read visible_documents;
  import_scan_scope_by_task_id t := lift_read (import_scan_scope_by_task_id t);
  commit_source_root_bound_import c := lift_call (commit_source_root_bound_import c);
  stage_immutable_ingest s := lift_call (stage_immutable_ingest s);
  enqueue_ocr_job_for_source_triage s e t := lift_call (enqueue_ocr_job_for_source_triage s e t);
  upsert_document d := lift_call (upsert_document d);
  observe_import_task_source_occurrence t p d s n :=
    lift_call (observe_import_task_source_occurrence t p d s n);
  record_strong_source_file_observation t p o :=
    lift_call (record_strong_source_file_observation t p o);
  stage_import_task_source_dispositions := logged_stage;
  upsert_import_scan_scope s := lift_call (upsert_import_scan_scope s);
  update_source_scan_progress_for_import_task t p n :=
    lift_call (update_source_scan_progress_for_import_task t p n);
  wait_for_search_publication_session := lift_call wait_for_search_publication_session;
  publish_incremental_search_artifacts q := lift_call (publish_incremental_search_artifacts q);
  generation_handoff_finish b := lift_call (generation_handoff_finish b);
|}.
End logged.
Arguments Logged W : clear implicits.

Section frames.
Context {W : Type} `{ImportWorld W} `{ImportEngines} `{Sha256}.
Implicit Types r : Run (Logged W).

Definition staged r : list ImportTaskSourceDisposition := (world r).2.

(** [m] neither stages dispositions nor touches the batches or the pending documents. *)
Definition frames {A} (m : M (Logged W) A) : Prop :=
  ∀ r r' x, m r = (r', x) →
    staged r' = staged r ∧ disposition_batches r' = disposition_batches r ∧
    pending_index_documents r' = pending_index_documents r.

Lemma frames_mret {A} (a : A) : frames (mret a).
Proof. by intros r r' x [= <- <-]. Qed.
Lemma frames_raise {A} e : frames (raise (A:=A) e).
Proof. by intros r r' x [= <- <-]. Qed.
Lemma frames_of_result {A} (y : result A ImportPipelineError) : frames (of_result y).
Proof. by intros r r' x [= <- <-]. Qed.
Lemma frames_gets {A} (f : Run (Logged W) → A) : frames (gets f).
Proof. by intros r r' x [= <- <-]. Qed.
Lemma frames_store_read {A} (f : Logged W → result A MetaStoreErrorClass) : frames (store_read f).
Proof. by intros r r' x [= <- <-]. Qed.
Lemma frames_sys {A} (f : W → W * A) : frames (sys (lift_call f)).
Proof.
  intros r r' x. unfold sys, lift_call. destruct (f (world r).1) as [w a]. by intros [= <- <-].
Qed.
Lemma frames_store_write {A} (f : W → W * result A MetaStoreErrorClass) :
  frames (store_write (lift_call f)).
Proof.
  intros r r' x. unfold store_write, lift_call. destruct (f (world r).1) as [w a]. by intros [= <- <-].
Qed.
Lemma frames_pipeline_call {A} (f : W → W * result A ImportPipelineError) :
  frames (pipeline_call (lift_call f)).
Proof.
  intros r r' x. unfold pipeline_call, lift_call. destruct (f (world r).1) as [w a]. by intros [= <- <-].
Qed.
Lemma frames_update_summary f : frames (update_summary f).
Proof. by intros r r' x [= <- <-]. Qed.
Lemma frames_set_excluded m : frames (modify (set_excluded m)).
Proof. by intros r r' x [= <- <-]. Qed.
Lemma frames_update_io f : frames (update_io f).
Proof. intros r r' x [= <- <-]. by destruct (summary r). Qed.
Lemma frames_update_content_bytes_read f : frames (update_content_bytes_read f).
Proof. intros r r' x [= <- <-]. by destruct (summary r). Qed.
Lemma frames_bind {A B} (m : M (Logged W) A) (k : A → M (Logged W) B) :
  frames m → (∀ a, frames (k a)) → frames (m ≫= k).
Proof.
  intros Hm Hk r r' x. rewrite bind_run. destruct (m r) as [r1 [a|e]] eqn:E.
  - intros E'. destruct (Hm _ _ _ E) as (E1 & E2 & E3), (Hk _ _ _ _ E') as (E4 & E5 & E6).
    by rewrite E4, E5, E6.
  - intros [= <- <-]. by apply (Hm _ _ _ E).
Qed.
Lemma frames_for_each {A} (body : A → M (Logged W) unit) l :
  (∀ a, frames (body a)) → frames (for_each body l).
Proof.
  intros Hb. induction l as [|a l IH]; [apply frames_mret|]. by apply frames_bind.
Qed.
Lemma frames_filter_m {A} (keep : A → M (Logged W) bool) l :
  (∀ a, frames (keep a)) → frames (filter_m keep l).
Proof.
  intros Hb. induction l as [|a l IH]; [apply frames_mret|].
  apply frames_bind; [done|intros k]. apply frames_bind; [done|intros l']. apply frames_mret.
Qed.
End frames.

Create HintDb frames.
#[export] Hint Resolve frames_mret frames_raise frames_of_result frames_gets frames_store_read
  frames_update_summary frames_set_excluded
  frames_update_io frames_update_content_bytes_read : frames.

(** Frames of straight-line code: binds, loops and case analysis, then the lemmas of the
    calls. *)
Ltac solve_frames :=
  repeat first
    [ progress intros
    | solve [auto with frames nocore]
    | apply frames_sys | apply frames_store_write | apply frames_pipeline_call
    | apply frames_bind
    | apply frames_for_each
    | apply frames_filter_m
    | match goal with |- frames (match ?x with _ => _ end) => destruct x end
    | match goal with |- frames ((match ?x with _ => _ end) _) => destruct x end
    | progress cbn zeta ].

Section frame_lemmas.
Context {W : Type} `{ImportWorld W} `{ImportEngines} `{Sha256}.

Lemma frames_ensure : frames (W:=W) ensure_not_cancelled.
Proof. apply frames_pipeline_call. Qed.
Lemma frames_revalidate file : frames (W:=W) (revalidate_discovered_observation file).
Proof. unfold revalidate_discovered_observation, observe_path_ok. solve_frames. Qed.

Lemma frames_contact_hashes mentions : frames (W:=W) (contact_hashes_from_mentions mentions).
Proof.
  unfold contact_hashes_from_mentions, hash_contact_value. solve_frames.
Qed.
Lemma frames_exact_rerun file hash now : frames (W:=W) (exact_rerun_decision file hash now).
Proof.
  unfold exact_rerun_decision, exact_searchable, exact_ocr_required, exact_excluded. solve_frames.
Qed.
Lemma frames_failed_with_revision kind doc rev now :
  frames (W:=W) (failed_with_revision kind doc rev now).
Proof. unfold failed_with_revision, prepare_source_revision_failure. solve_frames. Qed.
Lemma frames_prepare_ocr doc rev now : frames (W:=W) (prepare_ocr_required doc rev now).
Proof. unfold prepare_ocr_required. solve_frames. Qed.
Lemma frames_fallback reason : frames (W:=W) (fallback reason).
Proof. unfold fallback. solve_frames. Qed.
Lemma frames_digest_loop hashed size reads : frames (W:=W) (digest_loop hashed size reads).
Proof.
  revert hashed size. induction reads as [|[[|c chunk]|] reads IH]; intros hashed size;
    cbn [digest_loop]; apply frames_bind; try apply frames_ensure; intros; solve_frames.
Qed.
End frame_lemmas.

#[export] Hint Resolve frames_ensure frames_revalidate frames_contact_hashes frames_exact_rerun
  frames_failed_with_revision frames_prepare_ocr frames_fallback frames_digest_loop : frames.

Section frame_calls.
Context {W : Type} `{ImportWorld W} `{ImportEngines} `{Sha256}.

Lemma frames_fast_path task file now : frames (W:=W) (attempt_metadata_fast_path task file now).
Proof.
  unfold attempt_metadata_fast_path, observe_open_ok, observe_path_ok. solve_frames.
Qed.
Lemma frames_read_full_content file : frames (W:=W) (read_full_content file).
Proof. unfold read_full_content. solve_frames. Qed.
Lemma frames_oversized_text file doc now : frames (W:=W) (oversized_text file doc now).
Proof. unfold oversized_text, stream_content_digest. solve_frames. Qed.
Lemma frames_prepare_pending doc rev dec ver men idoc now :
  frames (W:=W) (prepare_pending_searchable_document doc rev dec ver men idoc now).
Proof. unfold prepare_pending_searchable_document. solve_frames. Qed.
Lemma frames_process_parse file doc rev bytes now :
  frames (W:=W) (process_parse file doc rev bytes now).
Proof.
  unfold process_parse, process_parsed_text. pose proof frames_prepare_pending. solve_frames.
Qed.
Lemma frames_process_file task file now : frames (W:=W) (process_file task file now).
Proof.
  pose proof frames_fast_path. pose proof frames_read_full_content. pose proof frames_oversized_text.
  pose proof frames_process_parse. unfold process_file, process_file_inner. solve_frames.
Qed.
Lemma frames_prepare_file task index file now :
  frames (W:=W) (prepare_file_for_parse task index file now).
Proof.
  pose proof frames_fast_path. pose proof frames_read_full_content. pose proof frames_oversized_text.
  unfold prepare_file_for_parse. solve_frames.
Qed.
Lemma frames_commit_parse result now : frames (W:=W) (commit_parse_work_result result now).
Proof.
  pose proof frames_prepare_pending. unfold commit_parse_work_result, commit_parse_outcome. solve_frames.
Qed.
Lemma frames_commit_import p file processed verification :
  frames (W:=W) (commit_import_file p file processed verification).
Proof.
  unfold commit_import_file, commit_configured_import, commit_migration_rebuild,
    apply_migration_mutation. solve_frames.
Qed.
Lemma frames_progress task now : frames (W:=W) (publish_import_progress task now).
Proof.
  unfold publish_import_progress, import_scan_scope_from_summary, current_timestamp_or. solve_frames.
Qed.
Lemma frames_schedule_exclusion id doc :
  frames (W:=W) (schedule_permanent_exclusion_if_projected id doc).
Proof. unfold schedule_permanent_exclusion_if_projected, has_active_projection. solve_frames. Qed.
Lemma frames_stage_pending pending : frames (W:=W) (stage_pending_document pending).
Proof. unfold stage_pending_document, observe_path_ok. solve_frames. Qed.
Lemma frames_retain : frames (W:=W) retain_active_projections.
Proof. unfold retain_active_projections, has_active_projection. solve_frames. Qed.
Lemma frames_epoch pending : frames (W:=W) (publication_classifier_epoch pending).
Proof. unfold publication_classifier_epoch. solve_frames. Qed.
Lemma frames_delta pending : frames (W:=W) (is_semantic_delta pending).
Proof. unfold is_semantic_delta, searchable_replacement_changes_projection. solve_frames. Qed.
End frame_calls.

#[export] Hint Resolve frames_process_file frames_prepare_file frames_commit_parse
  frames_commit_import frames_progress frames_schedule_exclusion frames_stage_pending frames_retain
  frames_epoch frames_delta : frames.

Section flushes.
Context {W : Type} `{ImportWorld W} `{ImportEngines} `{Sha256}.
Implicit Types r : Run (Logged W).

Definition keeps_log {A} (m : M (Logged W) A) : Prop :=
  ∀ r r' x, m r = (r', x) → staged r' = staged r ∧ disposition_batches r' = disposition_batches r.

Lemma frames_keeps_log {A} (m : M (Logged W) A) : frames m → keeps_log m.
Proof. intros Hm r r' x E. apply Hm in E. tauto. Qed.
Lemma keeps_log_bind {A B} (m : M (Logged W) A) (k : A → M (Logged W) B) :
  keeps_log m → (∀ a, keeps_log (k a)) → keeps_log (m ≫= k).
Proof.
  intros Hm Hk r r' x. rewrite bind_run. destruct (m r) as [r1 [a|e]] eqn:E.
  - intros E'. destruct (Hm _ _ _ E) as (E1 & E2), (Hk _ _ _ _ E') as (E4 & E5).
    by rewrite E4, E5.
  - intros [= <- <-]. by apply (Hm _ _ _ E).
Qed.
Lemma keeps_log_set_pending p : keeps_log (modify (set_pending p)).
Proof. by intros r r' x [= <- <-]. Qed.

Ltac solve_log :=
  repeat first
    [ progress intros
    | assumption
    | apply keeps_log_set_pending
    | solve [apply frames_keeps_log; solve_frames]
    | apply keeps_log_bind
    | match goal with |- keeps_log (match ?x with _ => _ end) => destruct x end
    | match goal with |- keeps_log ((match ?x with _ => _ end) _) => destruct x end ].

Lemma publish_delta_log now consume epoch unchanged :
  keeps_log (publish_delta now consume epoch unchanged).
Proof. unfold publish_delta. solve_log. Qed.

Lemma flush_keeps_log now consume : keeps_log (flush_pending_searchable_documents now consume).
Proof.
  pose proof publish_delta_log as Hdelta.
  unfold flush_pending_searchable_documents, normalize_searchable_replacements.
  solve_log; apply Hdelta.
Qed.

(** A computation that ends with no pending document whenever it succeeds. *)
Definition empties {A} (m : M (Logged W) A) : Prop :=
  ∀ r r' a, m r = (r', Ok a) → pending_index_documents r' = [].

Lemma empties_bind {A B} (m : M (Logged W) A) (k : A → M (Logged W) B) :
  (∀ a, empties (k a)) → empties (m ≫= k).
Proof. intros Hk r r' b E. run_step E. by eapply Hk. Qed.

Lemma empties_set_pending {B} (k : unit → M (Logged W) B) :
  frames (k tt) → empties (modify (set_pending []) ≫= k).
Proof. intros Hk r r' b E. run_step E. injection E0 as <- <-. by apply Hk in E as (_ & _ & ->). Qed.

Lemma publish_delta_empties now consume epoch unchanged :
  empties (publish_delta now consume epoch unchanged).
Proof. unfold publish_delta. do 2 (apply empties_bind; intros ?). apply empties_set_pending. solve_frames. Qed.

Lemma flush_empties now consume : empties (flush_pending_searchable_documents now consume).
Proof.
  unfold flush_pending_searchable_documents. do 6 (apply empties_bind; intros ?).
  destruct (is_migration_rebuild_staging _).
  - destruct (existsb _ _); [by intros r r' b|]. do 3 (apply empties_bind; intros ?).
    apply empties_set_pending. solve_frames.
  - do 2 (apply empties_bind; intros ?). intros r r' b E. run_step E. injection E0 as <- <-.
    run_step E. injection E0 as <- <-.
    destruct (pending_index_documents r) as [|d l] eqn:Hp; [|by eapply publish_delta_empties].
    destruct (pending_excluded_doc_ids r); [|by eapply publish_delta_empties].
    destruct (ips_generation _); [|by eapply publish_delta_empties].
    run_step E. injection E0 as <- <-. ret_inv E. done.
Qed.
End flushes.

(** ** Accounting for dispositions *)

Lemma concat_chunks_fuel {A} n (l : list A) fuel :
  (0 < n)%nat → (length l ≤ fuel)%nat → concat (chunks_fuel fuel n l) = l.
Proof.
  intros Hn. revert l. induction fuel as [|fuel IH]; intros l Hl.
  - by destruct l; [|cbn in Hl; lia].
  - destruct l as [|x l]; [done|]. cbn [chunks_fuel concat]. rewrite IH; [by rewrite take_drop|].
    rewrite length_drop. cbn [length] in *. lia.
Qed.

Lemma chunks_fuel_bound {A} n (l : list A) fuel : Forall (λ c, length c ≤ n)%nat (chunks_fuel fuel n l).
Proof.
  revert l. induction fuel as [|fuel IH]; intros [|x l]; cbn [chunks_fuel]; constructor; auto.
  rewrite length_take. lia.
Qed.

Section dispositions.
Context {W : Type} `{ImportWorld W} `{ImportEngines} `{Sha256}.
Implicit Types r : Run (Logged W).

Lemma stage_chunks_spec task contract (batches : list (list ImportTaskSourceDisposition)) r r' :
  for_each (λ batch, store_write (stage_import_task_source_dispositions task contract batch))
    batches r = (r', Ok tt) →
  staged r' = staged r ++ concat batches ∧ disposition_batches r' = disposition_batches r ∧
  pending_index_documents r' = pending_index_documents r.
Proof.
  revert r. induction batches as [|b batches IH]; intros r E; cbn [for_each concat] in *.
  { ret_inv E. by rewrite app_nil_r. }
  run_step E. apply IH in E as (-> & -> & ->). revert E0. unfold store_write.
  cbn [stage_import_task_source_dispositions logged_world]. unfold logged_stage.
  destruct (stage_import_task_source_dispositions _ _ _ _) as [w [u|e]]; intros [= <- <-].
  cbn. by rewrite <- app_assoc.
Qed.

(** What a successful flush of the ready batch does. *)
Lemma flush_ready_spec r r' :
  flush_ready r = (r', Ok tt) →
  staged r' = staged r ++ batch_ready (disposition_batches r) ∧
  batch_ready (disposition_batches r') = [] ∧
  batch_pending_searchable (disposition_batches r') = batch_pending_searchable (disposition_batches r) ∧
  pending_index_documents r' = pending_index_documents r.
Proof.
  intros E. run_step E. injection E0 as <- <-. run_step E. destruct a.
  apply stage_chunks_spec in E0 as (Es & _ & Ep). injection E as <-.
  unfold chunks in Es. rewrite concat_chunks_fuel in Es
    by (unfold IMPORT_SOURCE_DISPOSITION_BATCH_LIMIT; lia).
  by split_and!.
Qed.

Lemma flush_ready_if_full_spec r r' :
  flush_ready_if_full r = (r', Ok tt) →
  staged r' ++ batch_ready (disposition_batches r') = staged r ++ batch_ready (disposition_batches r) ∧
  batch_pending_searchable (disposition_batches r') = batch_pending_searchable (disposition_batches r) ∧
  pending_index_documents r' = pending_index_documents r ∧
  (length (batch_ready (disposition_batches r')) < IMPORT_SOURCE_DISPOSITION_BATCH_LIMIT)%nat.
Proof.
  intros E. run_step E. injection E0 as <- <-. case_decide as Hfull.
  - apply flush_ready_spec in E as (-> & -> & -> & ->). rewrite app_nil_r. split_and!; auto.
    cbn. unfold IMPORT_SOURCE_DISPOSITION_BATCH_LIMIT. lia.
  - ret_inv E. split_and!; auto. lia.
Qed.

Lemma staging_completed_spec r r' :
  searchable_staging_completed (staging_state (pending_index_documents r)) r = (r', Ok tt) →
  let all x := staged x ++ batch_ready (disposition_batches x) ++
               batch_pending_searchable (disposition_batches x) in
  all r' ≡ₚ all r ∧ pending_index_documents r' = pending_index_documents r ∧
  batch_pending_searchable (disposition_batches r')
  = match pending_index_documents r with
    | [] => [] | _ => batch_pending_searchable (disposition_batches r) end.
Proof.
  intros E all. run_step E. injection E0 as <- <-. unfold staging_state in E.
  destruct (pending_index_documents r) as [|p ps] eqn:Hp; [|by ret_inv E; rewrite Hp].
  destruct (batch_pending_searchable (disposition_batches r)) as [|d ds] eqn:Hb.
  { ret_inv E. by rewrite Hp, Hb. }
  rewrite <- Hb in E. run_step E. injection E0 as <- <-.
  apply flush_ready_spec in E as (Es & Er & Eb & Ep). unfold all. rewrite Es, Er, Eb, Ep.
  cbn [set_batches disposition_batches batch_ready batch_pending_searchable app].
  split_and!; [|done|done]. rewrite app_nil_r. apply Permutation_app; [done|].
  by rewrite sort_by_perm.
Qed.

(** A document waits for its flush in step with its disposition. *)
Definition awaits (p : PendingSearchableDocument) (d : ImportTaskSourceDisposition) : Prop :=
  disp_kind d = DispSearchable ∧
  disp_source_revision_id d = revision_id (ps_source_revision p) ∧
  disp_resume_version_id d = Some (ver_id (ps_version p)).

(** The dispositions of the files finished so far: each is staged, ready or waiting,
    exactly once, and those that wait are those of the pending documents. *)
Record accounted (ds : list ImportTaskSourceDisposition) r : Prop := MkAccounted {
  acc_all : staged r ++ batch_ready (disposition_batches r) ++
            batch_pending_searchable (disposition_batches r) ≡ₚ ds;
  acc_waiting : Forall2 awaits (pending_index_documents r)
                  (batch_pending_searchable (disposition_batches r));
}.

Lemma accounted_frames {A} (m : M (Logged W) A) ds r r' x :
  frames m → m r = (r', x) → accounted ds r → accounted ds r'.
Proof. intros Hm (Es & Eb & Ep)%Hm [Ha Hw]. constructor; by rewrite ?Es, Eb, ?Ep. Qed.

Lemma flush_decision_accounted now (flush : bool) ds r r' b :
  (if flush then flush_pending_searchable_documents now false else mret false) r = (r', Ok b) →
  staged r ++ batch_ready (disposition_batches r) ++
    batch_pending_searchable (disposition_batches r) ≡ₚ ds →
  (flush = false → Forall2 awaits (pending_index_documents r)
                     (batch_pending_searchable (disposition_batches r))) →
  staged r' ++ batch_ready (disposition_batches r') ++
    batch_pending_searchable (disposition_batches r') ≡ₚ ds ∧
  (pending_index_documents r' = [] ∨
   Forall2 awaits (pending_index_documents r') (batch_pending_searchable (disposition_batches r'))).
Proof.
  intros E Ha Hw. destruct flush.
  - pose proof (flush_keeps_log _ _ _ _ _ E) as [Es Eb]. rewrite Es, Eb. split; [done|].
    left. by eapply flush_empties.
  - ret_inv E. auto.
Qed.

Lemma stage_finished_file_accounted p index total d staging ds r r' :
  stage_finished_file p index total d staging r = (r', Ok tt) →
  staged r ++ batch_ready (disposition_batches r) ++
    batch_pending_searchable (disposition_batches r) ≡ₚ ds →
  Forall2 awaits (pending_index_documents r)
    (batch_pending_searchable (batches_record d staging (disposition_batches r))) →
  accounted (ds ++ [d]) r' ∧
  (length (batch_ready (disposition_batches r')) < IMPORT_SOURCE_DISPOSITION_BATCH_LIMIT)%nat.
Proof.
  unfold stage_finished_file. intros E Ha Hw. run_step E. injection E0 as <- <-.
  run_step E. injection E0 as <- <-. run_step E. injection E0 as <- <-. run_step E.
  apply (flush_decision_accounted _ _ (ds ++ [d])) in E0 as [Ha1 Hw1].
  2: { rewrite <- Ha. cbn. destruct (disposition_batches r) as [t c rd pd], staging; cbn; solve_Permutation. }
  2: { intros _. cbn. by destruct (disposition_batches r). }
  run_step E. injection E0 as <- <-. run_step E. destruct a0.
  apply staging_completed_spec in E0 as (Ha2 & Ep2 & Eb2). run_step E. destruct a0.
  apply flush_ready_if_full_spec in E0 as (Ea3 & Eb3 & Ep3 & Hlen).
  assert (accounted (ds ++ [d]) r2) as Hacc.
  { constructor.
    - rewrite app_assoc, Ea3, <- app_assoc, Eb3. by rewrite Ha2.
    - rewrite Ep3, Eb3, Ep2, Eb2. destruct Hw1 as [->|Hw1]; [done|].
      destruct (pending_index_documents r0); [done|]. done. }
  destruct (a || should_publish_import_progress index total); [|by ret_inv E].
  pose proof (frames_progress _ _ _ _ _ E) as (_ & Eb & _). rewrite Eb.
  split; [|done]. eapply accounted_frames; [apply frames_progress|done|done].
Qed.

Lemma of_result_run {A} (x : result A ImportPipelineError) r : of_result x r = (r, x).
Proof. done. Qed.

Lemma commit_import_file_result p file processed verification r r' processed' b :
  commit_import_file p file processed verification r = (r', Ok (processed', b)) →
  processed' = processed ∨ ∃ route, processed' = route_processed route processed.
Proof.
  unfold commit_import_file, commit_configured_import, commit_migration_rebuild. intros E.
  destruct (run_purpose p).
  - run_step E. run_step E. ret_inv E. right. by eexists.
  - destruct processed as [pending|rev ver|doc rev|doc rev ver|pending|pending|kind pending];
      [ret_inv E; right; by eexists|..];
      (run_step E; destruct a as [sch|]; [do 4 run_step E|]; ret_inv E; by left).
Qed.

(** A searchable result becomes one pending document with the same revision and
    version; every other result leaves the pending documents alone. *)
Lemma record_processed_pending p file processed verification b r r' :
  record_processed p file processed verification b r = (r', Ok tt) →
  staged r' = staged r ∧ disposition_batches r' = disposition_batches r ∧
  match processed with
  | PSearchable pending => ∃ q, pending_index_documents r' = pending_index_documents r ++ [q] ∧
      ps_source_revision q = ps_source_revision pending ∧ ps_version q = ps_version pending
  | _ => pending_index_documents r' = pending_index_documents r
  end.
Proof.
  intros E. destruct processed as [pending|rev ver|doc rev|doc rev ver|pending|pending|kind pending].
  - unfold record_processed in E. run_step E. apply of_result_inv in E0 as [-> _]. injection E as <-.
    split_and!; [done|done|]. eexists. split; [done|]. by destruct pending.
  - refine ((_ : frames _) _ _ _ E). unfold record_processed. solve_frames.
  - refine ((_ : frames _) _ _ _ E). unfold record_processed. solve_frames.
  - refine ((_ : frames _) _ _ _ E). unfold record_processed. solve_frames.
  - refine ((_ : frames _) _ _ _ E). unfold record_processed. solve_frames.
  - refine ((_ : frames _) _ _ _ E). unfold record_processed. solve_frames.
  - refine ((_ : frames _) _ _ _ E). unfold record_processed. solve_frames.
Qed.

Lemma route_processed_same route processed :
  disposition_staging (route_processed route processed) = disposition_staging processed ∧
  ∀ i d, source_disposition (route_processed route processed) i d = source_disposition processed i d.
Proof. destruct processed as [[]| | | | | |]; done. Qed.

(** The new pending document awaits the disposition that is recorded with it. *)
Lemma recorded_awaits processed index id d docs docs' b :
  source_disposition processed index id = Ok d →
  Forall2 awaits docs (batch_pending_searchable b) →
  match processed with
  | PSearchable pending => ∃ q, docs' = docs ++ [q] ∧
      ps_source_revision q = ps_source_revision pending ∧ ps_version q = ps_version pending
  | _ => docs' = docs
  end →
  Forall2 awaits docs' (batch_pending_searchable (batches_record d (disposition_staging processed) b)).
Proof.
  intros Hd Hw Hdocs. destruct b as [t c rd pd].
  destruct processed as [pending| | | | | |]; cbn in *; subst; try done.
  destruct Hdocs as (q & -> & Hr & Hv). injection Hd as <-. apply Forall2_app; [done|].
  constructor; [|constructor]. unfold awaits. by rewrite Hr, Hv.
Qed.

(** A file finished without an error has a disposition, and the accounts grow by it. *)
Lemma finish_import_file_accounted p index total file processed verification ds r r' :
  finish_import_file p index total file processed verification r = (r', Ok tt) →
  accounted ds r →
  ∃ d, source_disposition processed index (file_document_id file) = Ok d ∧
    accounted (ds ++ [d]) r' ∧
    (length (batch_ready (disposition_batches r')) < IMPORT_SOURCE_DISPOSITION_BATCH_LIMIT)%nat.
Proof.
  unfold finish_import_file. intros E Hacc. run_step E. rename E0 into Edisp.
  eapply accounted_frames in Hacc; [|shelve|exact Edisp]. run_step E.
  eapply accounted_frames in Hacc; [|shelve|exact E0]. clear E0.
  destruct a0; [by run_step E|]. run_step E. destruct a0 as [processed' b].
  eapply accounted_frames in Hacc; [|apply frames_commit_import|exact E0].
  apply commit_import_file_result in E0.
  run_step E. eapply accounted_frames in Hacc; [|apply frames_update_summary|exact E1]. clear E1.
  run_step E. eapply accounted_frames in Hacc; [|shelve|exact E1]. clear E1.
  run_step E. destruct a2. apply record_processed_pending in E1 as (Es & Eb & Ep).
  destruct (is_read_failure processed); [by run_step E|].
  run_step Edisp. apply of_result_inv in E1 as [-> Hd]. ret_inv Edisp.
  exists a2. split; [done|].
  assert (disposition_staging processed' = disposition_staging processed ∧
    source_disposition processed' index (file_document_id file) = Ok a2) as [Hst Hd'].
  { destruct E0 as [->|[route ->]]; [done|]. destruct (route_processed_same route processed) as [-> ->].
    done. }
  destruct Hacc as [Ha Hw].
  apply (stage_finished_file_accounted _ _ _ _ _ ds) in E; [done|by rewrite Es, Eb|].
  rewrite <- Hst, Eb. by eapply recorded_awaits.
  Unshelve. all: solve_frames.
Qed.

(** The disposition of a file: its ordinal in the scan and its document. *)
Definition disposition_of (x : Z * DiscoveredFile) (d : ImportTaskSourceDisposition) : Prop :=
  disp_source_ordinal d = x.1 ∧ disp_document_id d = file_document_id x.2.

Lemma source_disposition_of processed index file d :
  source_disposition processed index (file_document_id file) = Ok d → disposition_of (index, file) d.
Proof.
  unfold source_disposition. intros Hd. invert_ok. by destruct a as [[rev ver] kind]; invert_ok.
Qed.

Lemma sequential_accounted p total files ds r r' :
  process_indexed_files_sequential p total files r = (r', Ok tt) → accounted ds r →
  ∃ ds', accounted (ds ++ ds') r' ∧ Forall2 disposition_of files ds'.
Proof.
  revert ds r. induction files as [|[index file] files IH]; intros ds r E Hacc;
    cbn [process_indexed_files_sequential] in E.
  { ret_inv E. exists []. by rewrite app_nil_r. }
  run_step E. eapply accounted_frames in Hacc; [|apply frames_ensure|exact E0]. run_step E.
  eapply accounted_frames in Hacc; [|apply frames_process_file|exact E1]. destruct a0 as [processed ver].
  run_step E. destruct a0. apply (finish_import_file_accounted _ _ _ _ _ _ ds) in E2 as (d & Hd & Hacc2 & _);
    [|done].
  apply (IH (ds ++ [d])) in E as (ds' & Hacc' & Hds); [|done].
  exists (d :: ds'). rewrite <- app_assoc in Hacc'. split; [done|]. constructor; [|done].
  by eapply source_disposition_of.
Qed.

Lemma complete_run_accounted p report ds r r' :
  complete_run p report r = (r', Ok tt) → accounted ds r →
  staged r' ≡ₚ ds ∧ pending_index_documents r' = [] ∧
  batch_ready (disposition_batches r') = [] ∧ batch_pending_searchable (disposition_batches r') = [].
Proof.
  unfold complete_run. intros E Hacc. run_step E. injection E0 as <- <-. run_step E.
  eapply accounted_frames in Hacc; [|shelve|exact E0]. run_step E.
  pose proof (flush_keeps_log _ _ _ _ _ E1) as [Es Eb].
  pose proof (flush_empties _ _ _ _ _ E1) as Ep.
  run_step E. injection E2 as <- <-. run_step E. destruct a1.
  apply staging_completed_spec in E2 as (Ha2 & Ep2 & Eb2). rewrite Ep in Eb2, Ep2.
  run_step E. destruct a1. run_step E2. injection E3 as <- <-. rewrite Eb2 in E2.
  apply flush_ready_spec in E2 as (Es3 & Er3 & Eb3 & Ep3).
  pose proof (frames_progress _ _ _ _ _ E) as (-> & -> & ->).
  rewrite Es3, Er3, Eb3, Ep3, Eb2, Ep2. split_and!; [|done..].
  destruct Hacc as [Ha _]. rewrite <- Ha, <- Es, <- Eb.
  rewrite Eb2, app_nil_r in Ha2. done.
  Unshelve. all: unfold mark_missing_documents_deleted; solve_frames.
Qed.
End dispositions.
