(* ===== verification/ImportSchedule.v ===== *)
(** * Import runs with parse workers (crates/import-pipeline, import_run/parallel.rs)

    The coordinating thread prepares files in order, hands parse work to workers over a
    bounded channel, takes results back over another one in whatever order they come,
    and commits them in file order.  Threads are explicit: a schedule says which workers
    take a step before each channel operation of the coordinator, and every theorem
    holds for every schedule.  [None] means that the schedule ended while the run was
    still going; [ImportTermination] says how long a fair schedule has to be.

    The abstract specification is [pipeline]: a queue of files that are prepared in
    order and committed in order, without channels, workers or buffers. *)

From Stdlib Require Import ZArith String Sorted.
From stdpp Require Import prelude gmap list_numbers.
From S2P Require Import Prelude Collections Text Identity SearchMetadata ImportFile ImportRun.

Local Open Scope Z_scope.

Definition MAX_IMPORT_PARSE_WORKERS : Z := 3.

(** [ImportParseWorkers::new]. *)
Definition import_parse_workers (count : Z) : Z := Z.max 1 (Z.min count MAX_IMPORT_PARSE_WORKERS).

(** ** Channels and workers *)

(** Where a worker is in [parse_worker_loop]: about to receive, parsing, about to send,
    or returned. *)
Inductive Worker :=
| Receiving
| Parsing (work : ParseWorkItem)
| Sending (result : ParseWorkResult)
| Exited.

(** Both channels are [sync_channel(worker_count)].  [work_closed]: the coordinator
    dropped its sender; [results_closed]: it dropped its receiver. *)
Record Channels := MkChannels {
  work_queue : list ParseWorkItem;
  results_queue : list ParseWorkResult;
  workers : list Worker;
  capacity : nat;
  work_closed : bool;
  results_closed : bool;
}.

Definition set_worker (i : nat) (w : Worker) (c : Channels) : Channels :=
  MkChannels (work_queue c) (results_queue c) (<[i := w]> (workers c)) (capacity c)
    (work_closed c) (results_closed c).
Definition set_work_queue (q : list ParseWorkItem) (c : Channels) : Channels :=
  MkChannels q (results_queue c) (workers c) (capacity c) (work_closed c) (results_closed c).
Definition set_results_queue (q : list ParseWorkResult) (c : Channels) : Channels :=
  MkChannels (work_queue c) q (workers c) (capacity c) (work_closed c) (results_closed c).
Definition drop_work_tx (c : Channels) : Channels :=
  MkChannels (work_queue c) (results_queue c) (workers c) (capacity c) true (results_closed c).
Definition drop_result_rx (c : Channels) : Channels :=
  MkChannels (work_queue c) (results_queue c) (workers c) (capacity c) (work_closed c) true.

Section schedule.
Context {W : Type} `{ImportWorld W} `{ImportEngines} `{Sha256}.

(** One step of worker [i] in [parse_worker_loop].  The lock around the receiver only
    makes taking an item atomic; a step that would block changes nothing. *)
Definition worker_step (c : Channels) (i : nat) : Channels :=
  match workers c !! i with
  | Some Receiving =>
      match work_queue c with
      | work :: queue => set_worker i (Parsing work) (set_work_queue queue c)
      | [] => if work_closed c then set_worker i Exited c else c
      end
  | Some (Parsing work) => set_worker i (Sending (parse_work_item work)) c
  | Some (Sending result) =>
      if results_closed c then set_worker i Exited c
      else if decide (length (results_queue c) < capacity c)%nat then
        set_worker i Receiving (set_results_queue (results_queue c ++ [result]) c)
      else c
  | Some Exited | None => c
  end.

Definition turn (c : Channels) (who : list nat) : Channels := fold_left worker_step who c.

(** The coordinator: the run, the channels, its two variables, and the schedule. *)
Record Par := MkPar {
  par_run : Run W;
  channels : Channels;
  pending_results : gmap Z ImportFileResult;
  next_commit_index : Z;
  turns : list (list nat);
}.

Definition set_run (r : Run W) (s : Par) : Par :=
  MkPar r (channels s) (pending_results s) (next_commit_index s) (turns s).
Definition set_channels (c : Channels) (s : Par) : Par :=
  MkPar (par_run s) c (pending_results s) (next_commit_index s) (turns s).
Definition set_pending_results (m : gmap Z ImportFileResult) (s : Par) : Par :=
  MkPar (par_run s) (channels s) m (next_commit_index s) (turns s).
Definition set_next_commit_index (i : Z) (s : Par) : Par :=
  MkPar (par_run s) (channels s) (pending_results s) i (turns s).

(** Coordinator code: [None] when the schedule has ended. *)
Definition P (A : Type) : Type := Par → option (Par * result A ImportPipelineError).

Definition p_ret {A} (a : A) : P A := λ s, Some (s, Ok a).
Definition p_err {A} (e : ImportPipelineError) : P A := λ s, Some (s, Err e).
Definition p_bind {A B} (m : P A) (k : A → P B) : P B := λ s,
  match m s with
  | Some (s, Ok a) => k a s
  | Some (s, Err e) => Some (s, Err e)
  | None => None
  end.
(** Code of the run itself, which uses no channel. *)
Definition in_run {A} (m : M W A) : P A := λ s,
  let '(r, x) := m (par_run s) in Some (set_run r s, x).

Local Notation "'do' x <- m ; k" := (p_bind m (λ x, k))
  (at level 200, x pattern, m at level 100, k at level 200).

(** The workers' steps before a channel operation. *)
Definition take_turn : P unit := λ s,
  match turns s with
  | [] => None
  | who :: rest =>
      Some (MkPar (par_run s) (turn (channels s) who) (pending_results s) (next_commit_index s) rest,
            Ok tt)
  end.

(** [try_send]: [true] when the item was queued, [false] when the channel is full.  It is
    never disconnected: the coordinator itself keeps the shared receiver alive. *)
Definition try_send (work : ParseWorkItem) : P bool :=
  do _ <- take_turn;
  λ s, let c := channels s in
       if decide (length (work_queue c) < capacity c)%nat
       then Some (set_channels (set_work_queue (work_queue c ++ [work]) c) s, Ok true)
       else Some (s, Ok false).

(** [try_recv]: [None] when there is no result, or none will ever come. *)
Definition try_recv : P (option ParseWorkResult) :=
  do _ <- take_turn;
  λ s, let c := channels s in
       match results_queue c with
       | result :: rest => Some (set_channels (set_results_queue rest c) s, Ok (Some result))
       | [] => Some (s, Ok None)
       end.

Inductive RecvTimeout := Received (result : ParseWorkResult) | Timeout | Disconnected.

Definition all_exited (c : Channels) : bool :=
  forallb (λ w, match w with Exited => true | _ => false end) (workers c).

Definition recv_timeout : P RecvTimeout :=
  do _ <- take_turn;
  λ s, let c := channels s in
       match results_queue c with
       | result :: rest => Some (set_channels (set_results_queue rest c) s, Ok (Received result))
       | [] => Some (s, Ok (if all_exited c then Disconnected else Timeout))
       end.

(** ** Results (file_processing/results.rs) *)

Definition insert_import_file_result (index : Z) (result : ImportFileResult) : P unit := λ s,
  let s' := set_pending_results (<[index := result]> (pending_results s)) s in
  match pending_results s !! index with
  | Some _ => Some (s', Err parallel_parse_error)
  | None => Some (s', Ok tt)
  end.

Definition insert_parse_result (result : ParseWorkResult) : P unit :=
  insert_import_file_result (wr_index result) (ResultParsed result).

(** The loops take fuel; each round takes a turn, so [S (length turns)] is enough. *)
Fixpoint recv_loop (fuel : nat) : P ParseWorkResult :=
  match fuel with
  | O => λ _, None
  | S fuel =>
      do event <- recv_timeout;
      match event with
      | Received result => p_ret result
      | Timeout => do _ <- in_run ensure_not_cancelled; recv_loop fuel
      | Disconnected => p_err parallel_parse_error
      end
  end.
Definition recv_parse_result_with_cancel_poll : P ParseWorkResult := λ s,
  recv_loop (S (length (turns s))) s.

Fixpoint drain_loop (fuel : nat) : P unit :=
  match fuel with
  | O => λ _, None
  | S fuel =>
      do result <- try_recv;
      match result with
      | Some result => do _ <- insert_parse_result result; drain_loop fuel
      | None => p_ret tt
      end
  end.
Definition drain_available_parse_results : P unit := λ s, drain_loop (S (length (turns s))) s.

Fixpoint send_loop (fuel : nat) (queue_full_events : Z) (work : ParseWorkItem) : P unit :=
  match fuel with
  | O => λ _, None
  | S fuel =>
      do sent <- try_send work;
      match sent with
      | true => in_run (update_summary (update_worker_metrics (add_parse_job queue_full_events)))
      | false =>
          do result <- recv_parse_result_with_cancel_poll;
          do _ <- insert_parse_result result;
          send_loop fuel (queue_full_events + 1) work
      end
  end.
Definition send_parse_work_with_backpressure (work : ParseWorkItem) : P unit := λ s,
  send_loop (S (length (turns s))) 0 work s.

(** ** Commits in order (import_run/scheduler.rs) *)

(** The body of the loop of [commit_ready_import_file_results]. *)
Definition commit_result (p : RunParams) (total index : Z) (result : ImportFileResult) : M W unit :=
  _ ← ensure_not_cancelled;
  result ←
    match result with
    | ResultProcessed result => mret result
    | ResultParsed result => commit_parse_work_result result (run_now p)
    end;
  finish_import_file p index total (pif_file result) (pif_processed result) (pif_verification result).

(** Each round removes one result. *)
Fixpoint commit_loop (p : RunParams) (total : Z) (fuel : nat) (committed : bool) : P bool := λ s,
  match fuel with
  | O => None
  | S fuel =>
      match pending_results s !! next_commit_index s with
      | None => Some (s, Ok committed)
      | Some result =>
          let index := next_commit_index s in
          let s := set_pending_results (delete index (pending_results s)) s in
          p_bind (in_run (commit_result p total index result))
            (λ _ s, commit_loop p total fuel true (set_next_commit_index (index + 1) s)) s
      end
  end.
Definition commit_ready_import_file_results (p : RunParams) (total : Z) : P bool := λ s,
  commit_loop p total (S (size (pending_results s))) false s.

(** ** The coordinator (import_run/parallel.rs) *)

(** The body of the loop over the remaining files. *)
Definition dispatch_file (p : RunParams) (total : Z) (x : Z * DiscoveredFile) : P unit :=
  do _ <- drain_available_parse_results;
  do _ <- commit_ready_import_file_results p total;
  do prepared <- in_run (prepare_file_for_parse (run_task_id p) x.1 x.2 (run_now p));
  do _ <- match prepared with
          | PreparedReady result => insert_import_file_result x.1 (ResultProcessed result)
          | PreparedParse work => send_parse_work_with_backpressure work
          end;
  do _ <- drain_available_parse_results;
  do _ <- commit_ready_import_file_results p total;
  p_ret tt.

Fixpoint dispatch_files (p : RunParams) (total : Z) (files : list (Z * DiscoveredFile)) : P unit :=
  match files with
  | [] => p_ret tt
  | x :: files => do _ <- dispatch_file p total x; dispatch_files p total files
  end.

(** The loop after [drop(work_tx)]: a round commits or takes a turn. *)
Fixpoint drain_remaining (p : RunParams) (total : Z) (fuel : nat) : P unit := λ s,
  match fuel with
  | O => None
  | S fuel =>
      if next_commit_index s <? total then
        p_bind (commit_ready_import_file_results p total) (λ committed,
          match committed with
          | true => drain_remaining p total fuel
          | false =>
              do result <- recv_parse_result_with_cancel_poll;
              do _ <- insert_parse_result result;
              drain_remaining p total fuel
          end) s
      else Some (s, Ok tt)
  end.

Definition coordinate (p : RunParams) (total : Z) (files : list (Z * DiscoveredFile)) : P unit :=
  do _ <- dispatch_files p total files;
  λ s, let s := set_channels (drop_work_tx (channels s)) s in
       drain_remaining p total (S (length (turns s) + Z.to_nat (total - next_commit_index s))) s.

(** The end of [thread::scope]: the closure's locals are gone, and the workers are joined. *)
Fixpoint join_workers (fuel : nat) : P unit := λ s,
  match fuel with
  | O => None
  | S fuel =>
      if all_exited (channels s) then Some (s, Ok tt)
      else p_bind take_turn (λ _, join_workers fuel) s
  end.

Definition scope (p : RunParams) (total : Z) (files : list (Z * DiscoveredFile)) (worker_count : nat)
    (schedule : list (list nat)) (r : Run W) : option (Run W * result unit ImportPipelineError) :=
  let c := MkChannels [] [] (replicate worker_count Receiving) worker_count false false in
  let next := match files with (index, _) :: _ => index | [] => total end in
  match coordinate p total files (MkPar r c ∅ next schedule) with
  | None => None
  | Some (s, x) =>
      let s := set_channels (drop_result_rx (drop_work_tx (channels s))) s in
      match join_workers (S (length (turns s))) s with
      | Some (s, _) => Some (par_run s, x)
      | None => None
      end
  end.

(** The files up to the first searchable document are processed inline; the answer is
    what remains. *)
Fixpoint first_files_sequential (p : RunParams) (total : Z) (files : list (Z * DiscoveredFile))
    : M W (list (Z * DiscoveredFile)) :=
  match files with
  | [] => mret []
  | (index, file) :: rest =>
      s ← gets summary;
      if 0 <? searchable_documents s then mret files
      else
        _ ← ensure_not_cancelled;
        '(processed, verification) ← process_file (run_task_id p) file (run_now p);
        _ ← finish_import_file p index total file processed verification;
        first_files_sequential p total rest
  end.

Definition process_files_with_parse_workers (p : RunParams) (files : list DiscoveredFile)
    (parse_workers : Z) (schedule : list (list nat)) (r : Run W)
    : option (Run W * result unit ImportPipelineError) :=
  let total := Z.of_nat (length files) in
  let worker_count := Z.min parse_workers total in
  let count n := update_summary (update_worker_metrics (record_parse_worker_count n)) in
  if worker_count <=? 1 then
    Some ((_ ← count worker_count; process_files_sequential p files) r)
  else
    match first_files_sequential p total (enumerate files) r with
    | (r, Err e) => Some (r, Err e)
    | (r, Ok []) => Some (count 1 r)
    | (r, Ok remaining) =>
        let worker_count := Z.min parse_workers (Z.of_nat (length remaining)) in
        let '(r, _) := count worker_count r in
        if worker_count <=? 1 then Some (process_indexed_files_sequential p total remaining r)
        else scope p total remaining (Z.to_nat worker_count) schedule r
    end.
End schedule.

(** ** The abstract pipeline *)

Section pipeline.
Context {W : Type} `{ImportWorld W} `{ImportEngines} `{Sha256}.

(** The run, the files not yet prepared, and the prepared ones that wait for their
    commit, both in file order. *)
Record Pipe := MkPipe {
  pipe_run : Run W;
  pipe_todo : list (Z * DiscoveredFile);
  pipe_waiting : list (Z * ImportFileResult);
}.

Definition prepared_result (prepared : PreparedFile) : ImportFileResult :=
  match prepared with
  | PreparedReady result => ResultProcessed result
  | PreparedParse work => ResultParsed (parse_work_item work)
  end.

(** Processing a file without a worker. *)
Definition inline_file (p : RunParams) (total : Z) (x : Z * DiscoveredFile) : M W unit :=
  _ ← ensure_not_cancelled;
  '(processed, verification) ← process_file (run_task_id p) x.2 (run_now p);
  finish_import_file p x.1 total x.2 processed verification.

(** A file is prepared when it is the first to do, committed when it is the first to
    wait; a poll and a change of the worker counters may happen at any time. *)
Inductive pipeline_step (p : RunParams) (total : Z) : Pipe → Pipe → Prop :=
| step_poll r r' todo waiting :
    ensure_not_cancelled r = (r', Ok tt) →
    pipeline_step p total (MkPipe r todo waiting) (MkPipe r' todo waiting)
| step_count r f todo waiting :
    pipeline_step p total (MkPipe r todo waiting)
      (MkPipe (set_summary (update_worker_metrics f (summary r)) r) todo waiting)
| step_inline r r' x todo :
    inline_file p total x r = (r', Ok tt) →
    pipeline_step p total (MkPipe r (x :: todo) []) (MkPipe r' todo [])
| step_prepare r r' x prepared todo waiting :
    prepare_file_for_parse (run_task_id p) x.1 x.2 (run_now p) r = (r', Ok prepared) →
    pipeline_step p total (MkPipe r (x :: todo) waiting)
      (MkPipe r' todo (waiting ++ [(x.1, prepared_result prepared)]))
| step_commit r r' index result todo waiting :
    commit_result p total index result r = (r', Ok tt) →
    pipeline_step p total (MkPipe r todo ((index, result) :: waiting)) (MkPipe r' todo waiting).

(** The failures of those steps. *)
Inductive pipeline_fails (p : RunParams) (total : Z) : Pipe → Run W → ImportPipelineError → Prop :=
| fail_poll r r' e todo waiting :
    ensure_not_cancelled r = (r', Err e) → pipeline_fails p total (MkPipe r todo waiting) r' e
| fail_inline r r' e x todo :
    inline_file p total x r = (r', Err e) → pipeline_fails p total (MkPipe r (x :: todo) []) r' e
| fail_prepare r r' e x todo waiting :
    prepare_file_for_parse (run_task_id p) x.1 x.2 (run_now p) r = (r', Err e) →
    pipeline_fails p total (MkPipe r (x :: todo) waiting) r' e
| fail_commit r r' e index result todo waiting :
    commit_result p total index result r = (r', Err e) →
    pipeline_fails p total (MkPipe r todo ((index, result) :: waiting)) r' e.

(** What a whole run may do: finish every file in order, or stop at a failing step. *)
Definition pipeline_outcome (p : RunParams) (total : Z) (q : Pipe) (r' : Run W)
    (x : result unit ImportPipelineError) : Prop :=
  match x with
  | Ok _ => rtc (pipeline_step p total) q (MkPipe r' [] [])
  | Err e => ∃ q', rtc (pipeline_step p total) q q' ∧ pipeline_fails p total q' r' e
  end.

(** ** The invariant between the coordinator and the pipeline *)

(** The results that workers will still deliver. *)
Definition worker_results (w : Worker) : list ParseWorkResult :=
  match w with
  | Parsing work => [parse_work_item work]
  | Sending result => [result]
  | Receiving | Exited => []
  end.
Definition outstanding (c : Channels) : list ParseWorkResult :=
  map parse_work_item (work_queue c) ++ concat (map worker_results (workers c)) ++ results_queue c.

Definition keyed (result : ParseWorkResult) : Z * ImportFileResult :=
  (wr_index result, ResultParsed result).

(** A worker returns only when the coordinator is done sending and nothing is queued. *)
Record channels_ok (closed : bool) (c : Channels) : Prop := MkChannelsOk {
  co_closed : work_closed c = closed;
  co_exited : Exited ∈ workers c → closed = true ∧ work_queue c = [];
  co_open : results_closed c = false;
  co_workers : (0 < length (workers c))%nat;
  co_capacity : (0 < capacity c)%nat;
}.

(** Every waiting file is in exactly one place: in the coordinator's [hand], with the
    workers and their channels, or among the pending results. *)
Record coordinates (total : Z) (closed : bool) (hand : list (Z * ImportFileResult)) (s : Par)
    (q : Pipe) : Prop := MkCoordinates {
  cs_run : pipe_run q = par_run s;
  cs_waiting : hand ++ map keyed (outstanding (channels s)) ++ map_to_list (pending_results s)
               ≡ₚ pipe_waiting q;
  cs_indices : (pipe_waiting q).*1 ++ (pipe_todo q).*1
               = seqZ (next_commit_index s) (total - next_commit_index s);
  cs_channels : channels_ok closed (channels s);
}.
End pipeline.

Section worker_lemmas.
Context `{ImportEngines} `{Sha256}.

Lemma concat_insert {A B} (f : A → list B) (l : list A) i a b :
  l !! i = Some a →
  ∃ l1 l2, concat (map f l) = l1 ++ f a ++ l2 ∧ concat (map f (<[i := b]> l)) = l1 ++ f b ++ l2.
Proof.
  intros Hi. exists (concat (map f (take i l))), (concat (map f (drop (S i) l))). split.
  - rewrite <- (take_drop_middle l i a) at 1 by done. by rewrite map_app, concat_app.
  - rewrite insert_take_drop by (by eapply lookup_lt_Some). by rewrite map_app, concat_app.
Qed.

(** A step of a worker moves a result along, and loses none. *)
Lemma worker_step_outstanding c i :
  results_closed c = false → outstanding (worker_step c i) ≡ₚ outstanding c.
Proof.
  intros Hopen. unfold worker_step. destruct (workers c !! i) as [w|] eqn:Hi; [|done].
  destruct w as [|work|result|]; [| | |done].
  - destruct (work_queue c) as [|work queue] eqn:Hq.
    + destruct (work_closed c); [|done]. unfold outstanding. cbn.
      destruct (concat_insert worker_results _ i _ Exited Hi) as (l1 & l2 & -> & ->). cbn. done.
    + unfold outstanding. cbn. rewrite Hq.
      destruct (concat_insert worker_results _ i _ (Parsing work) Hi) as (l1 & l2 & -> & ->).
      cbn. solve_Permutation.
  - unfold outstanding. cbn.
    destruct (concat_insert worker_results _ i _ (Sending (parse_work_item work)) Hi)
      as (l1 & l2 & -> & ->). cbn. done.
  - rewrite Hopen. case_decide; [|done]. unfold outstanding. cbn.
    destruct (concat_insert worker_results _ i _ Receiving Hi) as (l1 & l2 & -> & ->).
    cbn. solve_Permutation.
Qed.

Lemma worker_step_ok closed c i : channels_ok closed c → channels_ok closed (worker_step c i).
Proof.
  intros Hok. pose proof Hok as [Hk He Ho Hw Hc]. unfold worker_step.
  destruct (workers c !! i) as [w|] eqn:Hi; [|done].
  assert (∀ b, b ≠ Exited → Exited ∈ <[i := b]> (workers c) → Exited ∈ workers c) as Hins.
  { intros b Hb (j & Hj)%list_elem_of_lookup. destruct (decide (j = i)) as [->|Hne].
    - rewrite list_lookup_insert_eq in Hj by (by eapply lookup_lt_Some). congruence.
    - rewrite list_lookup_insert_ne in Hj by done. by eapply list_elem_of_lookup_2. }
  destruct w as [|work|result|]; [| | |done].
  - destruct (work_queue c) as [|work queue] eqn:Hq.
    + destruct (work_closed c) eqn:Hcl; [|done]. subst closed.
      constructor; cbn; rewrite ?length_insert; auto.
    + constructor; cbn; rewrite ?length_insert; auto. intros Hx.
      apply Hins in Hx; [|done]. apply He in Hx as [_ Hx]. congruence.
  - constructor; cbn; rewrite ?length_insert; auto. intros Hx. by apply Hins in Hx; [apply He|].
  - rewrite Ho. case_decide; [|done]. constructor; cbn; rewrite ?length_insert; auto.
    intros Hx. by apply Hins in Hx; [apply He|].
Qed.

Lemma turn_ok closed c who :
  channels_ok closed c → channels_ok closed (turn c who) ∧ outstanding (turn c who) ≡ₚ outstanding c.
Proof.
  unfold turn. revert c. induction who as [|i who IH]; intros c Hc; cbn [fold_left]; [done|].
  destruct (IH (worker_step c i)) as [Hok Hout]; [by apply worker_step_ok|]. split; [done|].
  rewrite Hout. apply worker_step_outstanding. apply Hc.
Qed.
End worker_lemmas.

(** ** The coordinator refines the pipeline *)

Section refinement.
Context {W : Type} `{ImportWorld W} `{ImportEngines} `{Sha256}.
Variables (p : RunParams) (total : Z).
Implicit Types (s : Par (W:=W)) (q : Pipe (W:=W)) (hand : list (Z * ImportFileResult)).

Local Abbreviation steps := (rtc (pipeline_step p total)).

(** Whatever [m] does from [s] the pipeline can do from [q], ending in [Q]. *)
Definition refines {A} (m : P A) s q (Q : A → Par → Pipe → Prop) : Prop :=
  ∀ s' x, m s = Some (s', x) →
    match x with
    | Ok a => ∃ q', steps q q' ∧ Q a s' q'
    | Err e => ∃ q', steps q q' ∧ pipeline_fails p total q' (par_run s') e
    end.

Lemma refines_ret {A} (a : A) s q Q : Q a s q → refines (p_ret a) s q Q.
Proof. intros HQ s' x [= <- <-]. exists q. by split. Qed.

Lemma refines_bind {A B} (m : P A) (k : A → P B) s q Q Q' :
  refines m s q Q → (∀ a s' q', Q a s' q' → refines (k a) s' q' Q') → refines (p_bind m k) s q Q'.
Proof.
  intros Hm Hk s' x. unfold p_bind. destruct (m s) as [[s1 [a|e]]|] eqn:E; [|..|done].
  - intros E'. destruct (Hm _ _ E) as (q1 & Hq1 & HQ). specialize (Hk _ _ _ HQ _ _ E').
    destruct x; destruct Hk as (q2 & Hq2 & Hk); exists q2; split; auto; by etrans.
  - intros [= <- <-]. by apply (Hm _ _ E).
Qed.

Lemma refines_mono {A} (m : P A) s q Q Q' :
  refines m s q Q → (∀ a s' q', Q a s' q' → Q' a s' q') → refines m s q Q'.
Proof. intros Hm HQ s' x E. specialize (Hm _ _ E). destruct x; naive_solver. Qed.

Lemma indices_nodup closed hand s q : coordinates total closed hand s q → NoDup (pipe_waiting q).*1.
Proof.
  intros [_ _ Hi _]. assert (NoDup ((pipe_waiting q).*1 ++ (pipe_todo q).*1)) as Hn.
  { rewrite Hi. apply NoDup_seqZ. }
  by apply NoDup_app in Hn as (? & _ & _).
Qed.

(** [q'] is [q] after polls only: the same files, another world. *)
Definition same_files q q' : Prop := pipe_todo q' = pipe_todo q ∧ pipe_waiting q' = pipe_waiting q.

Lemma take_turn_refines closed hand s q :
  coordinates total closed hand s q →
  refines take_turn s q (λ _ s' q', coordinates total closed hand s' q' ∧ q' = q ∧
    outstanding (channels s') ≡ₚ outstanding (channels s) ∧
    pending_results s' = pending_results s ∧ next_commit_index s' = next_commit_index s).
Proof.
  intros [Hr Hw Hi Hc] s' x. unfold take_turn. destruct (turns s) as [|who rest]; [done|].
  intros [= <- <-]. exists q. split; [done|].
  destruct (turn_ok closed (channels s) who Hc) as [Hc' Ho]. split_and!; [|done..].
  constructor; cbn; auto. by rewrite Ho.
Qed.

Lemma coordinates_received closed hand s q result rest :
  results_queue (channels s) = result :: rest → coordinates total closed hand s q →
  coordinates total closed (keyed result :: hand)
    (set_channels (set_results_queue rest (channels s)) s) q.
Proof.
  intros Hrq [Hr Hw Hi [Hk He Ho Hn Hcap]]. constructor; cbn; auto; [|by constructor].
  rewrite <- Hw. unfold outstanding. cbn. rewrite Hrq, !map_app. cbn. solve_Permutation.
Qed.

Lemma insert_refines closed hand index result s q :
  coordinates total closed ((index, result) :: hand) s q →
  refines (insert_import_file_result index result) s q (λ _ s' q', coordinates total closed hand s' q' ∧
    q' = q ∧ next_commit_index s' = next_commit_index s).
Proof.
  intros Hco s' x. unfold insert_import_file_result.
  assert (pending_results s !! index = None) as Hnone.
  { destruct (pending_results s !! index) as [old|] eqn:Hl; [|done]. exfalso.
    pose proof (indices_nodup _ _ _ _ Hco) as Hn. destruct Hco as [_ Hw _ _].
    apply elem_of_map_to_list in Hl. rewrite <- Hw in Hn. cbn in Hn.
    apply NoDup_cons in Hn as [Hn _]. apply Hn. rewrite !fmap_app. apply elem_of_app. right.
    apply elem_of_app. right. apply list_elem_of_fmap. by exists (index, old). }
  rewrite Hnone. intros [= <- <-]. exists q. split; [done|]. destruct Hco as [Hr Hw Hi Hc].
  split_and!; [|done..]. constructor; cbn; auto. rewrite <- Hw. rewrite map_to_list_insert by done.
  cbn. solve_Permutation.
Qed.

Lemma poll_refines closed hand s q :
  coordinates total closed hand s q →
  refines (in_run ensure_not_cancelled) s q (λ _ s' q', coordinates total closed hand s' q' ∧
    same_files q q' ∧ channels s' = channels s ∧ pending_results s' = pending_results s ∧
    next_commit_index s' = next_commit_index s).
Proof.
  intros [Hr Hw Hi Hc] s' x. unfold in_run.
  destruct (ensure_not_cancelled (par_run s)) as [r [u|e]] eqn:E; intros [= <- <-]; destruct q as [r0 td wt];
    cbn in Hr; subst r0.
  - destruct u. exists (MkPipe r td wt). split; [apply rtc_once; by constructor|]. split_and!; [|done..].
    by constructor.
  - exists (MkPipe (par_run s) td wt). split; [done|]. by constructor.
Qed.

Lemma recv_timeout_refines closed hand s q :
  coordinates total closed hand s q → outstanding (channels s) ≠ [] →
  refines recv_timeout s q (λ event s' q', q' = q ∧
    pending_results s' = pending_results s ∧ next_commit_index s' = next_commit_index s ∧
    match event with
    | Received result => coordinates total closed (keyed result :: hand) s' q'
    | Timeout => coordinates total closed hand s' q' ∧ outstanding (channels s') ≠ []
    | Disconnected => False
    end).
Proof.
  intros Hco Hout. unfold recv_timeout.
  eapply refines_bind; [by apply take_turn_refines|].
  intros [] s1 q1 (Hco1 & -> & Ho & Ep & En) s' x.
  assert (outstanding (channels s1) ≠ []) as Hout1.
  { intros Hz. rewrite Hz in Ho. by apply Permutation_nil in Ho. }
  destruct (results_queue (channels s1)) as [|result rest] eqn:Hrq; intros [= <- <-]; exists q.
  - split; [done|]. split_and!; [done..|].
    destruct (all_exited (channels s1)) eqn:Hex; [|done]. apply Hout1.
    destruct (cs_channels _ _ _ _ _ Hco1) as [_ He _ Hn _]. unfold all_exited in Hex.
    assert (∀ w, w ∈ workers (channels s1) → w = Exited) as Hall.
    { intros w Hw. rewrite forallb_forall in Hex. apply list_elem_of_In, Hex in Hw. by destruct w. }
    assert (work_queue (channels s1) = []) as Hq.
    { destruct (workers (channels s1)) as [|w ws]; [cbn in Hn; lia|].
      apply He. rewrite (Hall w) by set_solver. set_solver. }
    unfold outstanding. rewrite Hq, Hrq, app_nil_r. cbn. clear -Hall.
    induction (workers (channels s1)) as [|w ws IH]; [done|]. cbn.
    rewrite (Hall w) by set_solver. apply IH. intros w' Hw'. apply Hall. set_solver.
  - split; [done|]. split_and!; [done..|]. by apply coordinates_received.
Qed.

Lemma recv_loop_refines closed hand fuel s q :
  coordinates total closed hand s q → outstanding (channels s) ≠ [] →
  refines (recv_loop fuel) s q (λ result s' q', coordinates total closed (keyed result :: hand) s' q' ∧
    same_files q q' ∧ pending_results s' = pending_results s ∧
    next_commit_index s' = next_commit_index s).
Proof.
  revert s q. induction fuel as [|fuel IH]; intros s q Hco Hout; cbn [recv_loop]; [by intros ??|].
  eapply refines_bind; [by apply recv_timeout_refines|].
  intros event s1 q1 (-> & Ep & En & He). destruct event as [result| |]; [| |done].
  - apply refines_ret. by split_and!.
  - destruct He as [Hco1 Hout1]. eapply refines_bind; [by apply poll_refines|].
    intros [] s2 q2 (Hco2 & [Ht Hw] & Ec2 & Ep2 & En2).
    eapply refines_mono; [apply IH; [done|by rewrite Ec2]|].
    intros res s3 q3 (Hco3 & [Ht3 Hw3] & Ep3 & En3). split_and!; [done|split; congruence|congruence..].
Qed.

Lemma recv_refines closed hand s q :
  coordinates total closed hand s q → outstanding (channels s) ≠ [] →
  refines recv_parse_result_with_cancel_poll s q (λ result s' q',
    coordinates total closed (keyed result :: hand) s' q' ∧
    same_files q q' ∧ pending_results s' = pending_results s ∧
    next_commit_index s' = next_commit_index s).
Proof. intros. by apply recv_loop_refines. Qed.

Lemma drain_loop_refines closed hand fuel s q :
  coordinates total closed hand s q →
  refines (drain_loop fuel) s q (λ _ s' q', coordinates total closed hand s' q' ∧ q' = q ∧
    next_commit_index s' = next_commit_index s).
Proof.
  revert s q. induction fuel as [|fuel IH]; intros s q Hco; cbn [drain_loop]; [by intros ??|].
  eapply refines_bind with (Q := λ result s' q', q' = q ∧ next_commit_index s' = next_commit_index s ∧
    coordinates total closed (match result with Some r => keyed r :: hand | None => hand end) s' q').
  { unfold try_recv. eapply refines_bind; [by apply take_turn_refines|].
    intros [] s1 q1 (Hco1 & -> & _ & Ep & En) s' x.
    destruct (results_queue (channels s1)) as [|result rest] eqn:Hrq; intros [= <- <-]; exists q.
    - by split_and!.
    - split_and!; [done..|]. by apply coordinates_received. }
  intros result s1 q1 (-> & En & Hco1). destruct result as [result|].
  - eapply refines_bind; [by apply insert_refines|]. intros [] s2 q2 (Hco2 & -> & En2).
    eapply refines_mono; [by apply IH|]. intros [] s3 q3 (? & -> & En3). split_and!; [done..|congruence].
  - apply refines_ret. by split_and!.
Qed.

Lemma drain_refines closed hand s q :
  coordinates total closed hand s q →
  refines drain_available_parse_results s q (λ _ s' q', coordinates total closed hand s' q' ∧ q' = q ∧
    next_commit_index s' = next_commit_index s).
Proof. intros. by apply drain_loop_refines. Qed.

Lemma send_loop_refines hand fuel events work s q :
  coordinates total false (keyed (parse_work_item work) :: hand) s q →
  refines (send_loop fuel events work) s q (λ _ s' q', coordinates total false hand s' q' ∧ same_files q q' ∧
    next_commit_index s' = next_commit_index s).
Proof.
  revert events s q. induction fuel as [|fuel IH]; intros events s q Hco; cbn [send_loop]; [by intros ??|].
  eapply refines_bind with (Q := λ sent s' q', q' = q ∧ next_commit_index s' = next_commit_index s ∧
    match sent with
    | true => coordinates total false hand s' q'
    | false => coordinates total false (keyed (parse_work_item work) :: hand) s' q' ∧
               outstanding (channels s') ≠ []
    end).
  { unfold try_send. eapply refines_bind; [by apply take_turn_refines|].
    intros [] s1 q1 (Hco1 & -> & _ & Ep & En) s' x. case_decide as Hlen; intros [= <- <-]; exists q.
    - split_and!; [done..|]. destruct Hco1 as [Hr Hw Hi [Hk He Ho Hn Hcap]].
      constructor; cbn; auto; [|constructor; cbn; auto].
      + rewrite <- Hw. unfold outstanding. cbn. rewrite !map_app. cbn. solve_Permutation.
      + by intros [? _]%He.
    - split_and!; [done..|]. destruct (cs_channels _ _ _ _ _ Hco1) as [_ _ _ _ Hcap].
      unfold outstanding. destruct (work_queue (channels s1)); [cbn in Hlen; lia|done]. }
  intros sent s1 q1 (-> & En & Hs). destruct sent.
  - intros s' x [= <- <-]. destruct q as [r td wt], Hs as [Hr Hw Hi Hc]. cbn in Hr. subst r.
    eexists (MkPipe _ td wt). split; [apply rtc_once, step_count|]. split_and!; [|done..].
    by constructor.
  - destruct Hs as [Hco1 Hout]. eapply refines_bind; [by apply recv_refines|].
    intros result s2 q2 (Hco2 & [Ht Hw] & _ & En2). eapply refines_bind; [by apply insert_refines|].
    intros [] s3 q3 (Hco3 & -> & En3). eapply refines_mono; [by apply IH|].
    intros [] s4 q4 (Hco4 & [Ht4 Hw4] & En4). split_and!; [done|split; congruence|congruence].
Qed.

Lemma send_refines hand work s q :
  coordinates total false (keyed (parse_work_item work) :: hand) s q →
  refines (send_parse_work_with_backpressure work) s q (λ _ s' q',
    coordinates total false hand s' q' ∧ same_files q q' ∧
    next_commit_index s' = next_commit_index s).
Proof. intros. by apply send_loop_refines. Qed.

(** The result with the next index belongs to the first waiting file. *)
Lemma head_of_waiting closed s q result :
  coordinates total closed [] s q → pending_results s !! next_commit_index s = Some result →
  next_commit_index s < total ∧
  ∃ rest, pipe_waiting q = (next_commit_index s, result) :: rest.
Proof.
  intros Hco Hl. pose proof (indices_nodup _ _ _ _ Hco) as Hn. destruct Hco as [_ Hw Hi _].
  assert ((next_commit_index s, result) ∈ pipe_waiting q) as Hin.
  { rewrite <- Hw. cbn. apply elem_of_app. right. by apply elem_of_map_to_list. }
  destruct (pipe_waiting q) as [|[i res] rest]; [by apply not_elem_of_nil in Hin|].
  cbn in Hi. destruct (decide (0 < total - next_commit_index s)) as [Hpos|];
    [|by rewrite seqZ_nil in Hi by lia].
  rewrite seqZ_cons in Hi by lia. injection Hi as -> Hi. split; [lia|]. exists rest.
  apply elem_of_cons in Hin as [[= ->]|Hin]; [done|]. cbn in Hn. apply NoDup_cons in Hn as [Hn _].
  exfalso. apply Hn. apply list_elem_of_fmap. by exists (next_commit_index s, result).
Qed.

Lemma commit_one_refines closed s q result :
  coordinates total closed [] s q → pending_results s !! next_commit_index s = Some result →
  refines (in_run (commit_result p total (next_commit_index s) result))
    (set_pending_results (delete (next_commit_index s) (pending_results s)) s) q
    (λ _ s' q', coordinates total closed [] (set_next_commit_index (next_commit_index s + 1) s') q' ∧
      pipe_todo q' = pipe_todo q ∧ next_commit_index s' = next_commit_index s ∧
      pending_results s' = delete (next_commit_index s) (pending_results s)).
Proof.
  intros Hco Hl. destruct (head_of_waiting _ _ _ _ Hco Hl) as (Hlt & rest & Hrest).
  destruct Hco as [Hr Hw Hi Hc]. destruct q as [r td wt]. cbn in Hr, Hrest, Hw, Hi. subst r wt.
  intros s' x. unfold in_run. cbn [par_run set_pending_results].
  destruct (commit_result p total _ result (par_run s)) as [r [u|e]] eqn:E; intros [= <- <-].
  - destruct u. exists (MkPipe r td rest). split; [apply rtc_once; by constructor|].
    split_and!; [|done..]. constructor; cbn; auto.
    + rewrite <- map_to_list_delete in Hw by exact Hl. cbn in Hw.
      apply (Permutation_cons_inv (a:=(next_commit_index s, result))). rewrite <- Hw. solve_Permutation.
    + rewrite seqZ_cons in Hi by lia. injection Hi as Hi. etrans; [exact Hi|]. f_equal; lia.
  - exists (MkPipe (par_run s) td ((next_commit_index s, result) :: rest)). split; [done|].
    by constructor.
Qed.

(** What a round of commits establishes: nothing is left at the next index, and the
    answer says whether the index moved. *)
Definition commits_done (closed committed : bool) s q (c : bool) s' q' : Prop :=
  coordinates total closed [] s' q' ∧ pipe_todo q' = pipe_todo q ∧
  pending_results s' !! next_commit_index s' = None ∧
  next_commit_index s ≤ next_commit_index s' ∧
  (c = false → committed = false ∧ next_commit_index s' = next_commit_index s ∧
     pipe_waiting q' = pipe_waiting q) ∧
  (c = true → committed = true ∨ next_commit_index s < next_commit_index s').

Lemma commit_loop_refines closed fuel committed s q :
  coordinates total closed [] s q →
  refines (commit_loop p total fuel committed) s q (commits_done closed committed s q).
Proof.
  revert committed s q. induction fuel as [|fuel IH]; intros committed s q Hco; [by intros ??|].
  intros s' x. cbn [commit_loop]. destruct (pending_results s !! next_commit_index s) as [result|] eqn:Hl.
  - revert s' x. change (refines (p_bind (in_run (commit_result p total (next_commit_index s) result))
      (λ _ s1, commit_loop p total fuel true (set_next_commit_index (next_commit_index s + 1) s1)))
      (set_pending_results (delete (next_commit_index s) (pending_results s)) s) q
      (commits_done closed committed s q)).
    eapply refines_bind; [by eapply commit_one_refines|].
    intros [] s1 q1 (Hco1 & Ht & En & Ep) s2 x2 E2.
    specialize (IH true _ _ Hco1 s2 x2 E2). destruct x2 as [c|e]; [|done].
    destruct IH as (q2 & Hs2 & Hco2 & Ht2 & Hl2 & Hle & Hf & Htr). cbn in Hle. exists q2. split; [done|].
    split_and!; [done|congruence|done|lia|by intros [? _]%Hf|]. intros ->. right. lia.
  - intros [= <- <-]. exists q. split; [done|]. split_and!; auto. lia.
Qed.

Lemma commit_refines closed s q :
  coordinates total closed [] s q →
  refines (commit_ready_import_file_results p total) s q (commits_done closed false s q).
Proof. intros. by apply commit_loop_refines. Qed.

(** The work item of a prepared file has the file's index. *)
Lemma prepare_work_index task index file now (r r' : Run W) work :
  prepare_file_for_parse task index file now r = (r', Ok (PreparedParse work)) →
  work_index work = index.
Proof.
  unfold prepare_file_for_parse. intros E. do 3 run_step E. destruct a1; [by ret_inv E|].
  destruct (is_oversized_text file); [run_step E; by ret_inv E|].
  run_step E. destruct a1; [|by ret_inv E]. do 4 run_step E. destruct a4; [by ret_inv E|].
  run_step E. by ret_inv E.
Qed.

Lemma prepare_refines x todo s q :
  coordinates total false [] s q → pipe_todo q = x :: todo →
  refines (in_run (prepare_file_for_parse (run_task_id p) x.1 x.2 (run_now p))) s q
    (λ prepared s' q', coordinates total false [(x.1, prepared_result prepared)] s' q' ∧
      pipe_todo q' = todo ∧
      match prepared with PreparedParse work => work_index work = x.1 | PreparedReady _ => True end).
Proof.
  intros [Hr Hw Hi Hc] Ht s' y. destruct q as [r td wt]. cbn in *. subst r td. unfold in_run.
  destruct (prepare_file_for_parse _ _ _ _ _) as [r [prepared|e]] eqn:E; intros [= <- <-].
  - eexists (MkPipe r todo (wt ++ [(x.1, prepared_result prepared)])).
    split; [apply rtc_once; by constructor|]. split_and!; [|done|].
    + constructor; cbn; auto; [rewrite <- Hw; solve_Permutation|].
      rewrite fmap_app, <- app_assoc. exact Hi.
    + destruct prepared; [done|]. by eapply prepare_work_index.
  - exists (MkPipe (par_run s) (x :: todo) wt). split; [done|]. by constructor.
Qed.


Lemma dispatch_file_refines x todo s q :
  coordinates total false [] s q → pipe_todo q = x :: todo →
  refines (dispatch_file p total x) s q (λ _ s' q',
    coordinates total false [] s' q' ∧ pipe_todo q' = todo).
Proof.
  intros Hco Ht. unfold dispatch_file. eapply refines_bind; [by apply drain_refines|].
  intros [] s1 q1 (Hco1 & -> & _). eapply refines_bind; [by apply commit_refines|].
  intros c s2 q2 (Hco2 & Ht2 & _). eapply refines_bind; [apply prepare_refines; [done|by rewrite Ht2]|].
  intros prepared s3 q3 (Hco3 & Ht3 & Hx).
  eapply refines_bind with (Q := λ _ s' q', coordinates total false [] s' q' ∧ pipe_todo q' = todo).
  { destruct prepared as [result|work].
    - eapply refines_mono; [by apply insert_refines|]. by intros [] s4 q4 (? & -> & _).
    - eapply refines_mono; [apply send_refines|].
      + unfold keyed. cbn [parse_work_item wr_index]. rewrite Hx. exact Hco3.
      + intros [] s4 q4 (? & [-> _] & _). done. }
  intros [] s4 q4 (Hco4 & Ht4). eapply refines_bind; [by apply drain_refines|].
  intros [] s5 q5 (Hco5 & -> & _). eapply refines_bind; [by apply commit_refines|].
  intros c' s6 q6 (Hco6 & Ht6 & _). apply refines_ret. split; [done|congruence].
Qed.

Lemma dispatch_files_refines todo s q :
  coordinates total false [] s q → pipe_todo q = todo →
  refines (dispatch_files p total todo) s q (λ _ s' q',
    coordinates total false [] s' q' ∧ pipe_todo q' = []).
Proof.
  revert s q. induction todo as [|x todo IH]; intros s q Hco Ht; cbn [dispatch_files].
  - by apply refines_ret.
  - eapply refines_bind; [by apply dispatch_file_refines|]. intros [] s1 q1 (Hco1 & Ht1). by apply IH.
Qed.

(** While files are missing and none is ready, some worker still owes a result. *)
Lemma missing_is_outstanding closed s q :
  coordinates total closed [] s q → pipe_todo q = [] → next_commit_index s < total →
  pending_results s !! next_commit_index s = None → outstanding (channels s) ≠ [].
Proof.
  intros [_ Hw Hi _] Ht Hlt Hl Ho. rewrite Ho in Hw. cbn in Hw.
  rewrite Ht in Hi. cbn in Hi. rewrite app_nil_r, seqZ_cons in Hi by lia.
  destruct (pipe_waiting q) as [|[i res] rest]; [done|]. injection Hi as -> _.
  assert ((next_commit_index s, res) ∈ map_to_list (pending_results s)) as Hin
    by (rewrite Hw; set_solver).
  apply elem_of_map_to_list in Hin. congruence.
Qed.

Lemma drain_remaining_refines fuel s q :
  coordinates total true [] s q → pipe_todo q = [] →
  refines (drain_remaining p total fuel) s q (λ _ s' q', q' = MkPipe (par_run s') [] []).
Proof.
  revert s q. induction fuel as [|fuel IH]; intros s q Hco Ht; [by intros ??|].
  intros s' x. cbn [drain_remaining]. destruct (next_commit_index s <? total) eqn:Hlt; bools.
  - revert s' x. change (refines (p_bind (commit_ready_import_file_results p total) (λ committed,
      match committed with
      | true => drain_remaining p total fuel
      | false => p_bind recv_parse_result_with_cancel_poll (λ result,
                   p_bind (insert_parse_result result) (λ _, drain_remaining p total fuel))
      end)) s q (λ _ s' q', q' = MkPipe (par_run s') [] [])).
    eapply refines_bind; [by apply commit_refines|].
    intros c s1 q1 (Hco1 & Ht1 & Hl & _ & Hf & _). destruct c; [apply IH; [done|congruence]|].
    destruct Hf as (_ & En & _); [done|].
    eapply refines_bind; [apply recv_refines; [done|]|].
    { eapply missing_is_outstanding; [done|congruence|lia|done]. }
    intros result s2 q2 (Hco2 & [Ht2 _] & _). eapply refines_bind; [by apply insert_refines|].
    intros [] s3 q3 (Hco3 & -> & _). apply IH; [done|congruence].
  - intros [= <- <-]. exists q. split; [done|]. destruct Hco as [Hr _ Hi _]. rewrite Ht in Hi. cbn in Hi.
    rewrite app_nil_r, seqZ_nil in Hi by lia. apply fmap_nil_inv in Hi.
    destruct q as [r td wt]. cbn in *. by subst.
Qed.

Lemma closes_work hand s q :
  coordinates total false hand s q →
  coordinates total true hand (set_channels (drop_work_tx (channels s)) s) q.
Proof.
  intros [Hr Hw Hi [Hk He Ho Hn Hcap]]. constructor; cbn; auto. constructor; cbn; auto.
  intros [? _]%He. done.
Qed.

Lemma coordinate_refines todo s q :
  coordinates total false [] s q → pipe_todo q = todo →
  refines (coordinate p total todo) s q (λ _ s' q', q' = MkPipe (par_run s') [] []).
Proof.
  intros Hco Ht. unfold coordinate. eapply refines_bind; [by apply dispatch_files_refines|].
  intros [] s1 q1 (Hco1 & Ht1) s' x.
  apply (drain_remaining_refines _ (set_channels (drop_work_tx (channels s1)) s1) q1); [|done].
  by apply closes_work.
Qed.
End refinement.

(** ** Whole runs *)

Section whole_runs.
Context {W : Type} `{ImportWorld W} `{ImportEngines} `{Sha256}.
Variables (p : RunParams) (total : Z).
Implicit Types r : Run W.

Local Abbreviation steps := (rtc (pipeline_step p total)).

Lemma join_workers_run fuel (s s' : Par (W:=W)) x :
  join_workers fuel s = Some (s', x) → par_run s' = par_run s.
Proof.
  revert s. induction fuel as [|fuel IH]; intros s; cbn [join_workers]; [done|].
  destruct (all_exited (channels s)); [by intros [= <- _]|]. unfold p_bind, take_turn.
  destruct (turns s) as [|who rest]; [done|]. intros E%IH. done.
Qed.

Lemma outcome_steps q q' r x :
  steps q q' → pipeline_outcome p total q' r x → pipeline_outcome p total q r x.
Proof.
  intros Hs. destruct x; cbn; [by etrans|]. intros (q2 & Hq & Hf). exists q2. split; [by etrans|done].
Qed.

Lemma scope_start files n schedule r :
  (0 < n)%nat →
  files.*1 = seqZ (match files with (i, _) :: _ => i | [] => total end)
               (total - match files with (i, _) :: _ => i | [] => total end) →
  coordinates total false []
    (MkPar r (MkChannels [] [] (replicate n Receiving) n false false) ∅
      (match files with (i, _) :: _ => i | [] => total end) schedule) (MkPipe r files []).
Proof.
  intros Hn Hf. constructor; cbn; auto.
  - unfold outstanding. cbn. assert (concat (map worker_results (replicate n Receiving)) = []) as ->.
    { clear. by induction n. }
    done.
  - constructor; cbn; auto; [|by rewrite length_replicate].
    intros Hx. apply elem_of_replicate in Hx as [? _]. done.
Qed.

Lemma scope_outcome files n schedule r r' x :
  scope p total files n schedule r = Some (r', x) → (0 < n)%nat →
  files.*1 = seqZ (match files with (i, _) :: _ => i | [] => total end)
               (total - match files with (i, _) :: _ => i | [] => total end) →
  pipeline_outcome p total (MkPipe r files []) r' x.
Proof.
  unfold scope. intros E Hn Hf. destruct (coordinate _ _ _ _) as [[s y]|] eqn:Ec; [|done].
  destruct (join_workers _ _) as [[s2 z]|] eqn:Ej; [|done]. injection E as <- <-.
  apply join_workers_run in Ej. rewrite Ej. cbn [par_run set_channels].
  eapply (coordinate_refines p total files _ (MkPipe r files [])) in Ec; [|by apply scope_start|done].
  destruct y as [u|e]; [|done]. destruct Ec as (q' & Hs & ->). exact Hs.
Qed.

Lemma inline_step x todo r r' y :
  inline_file p total x r = (r', y) →
  match y with
  | Ok _ => pipeline_step p total (MkPipe r (x :: todo) []) (MkPipe r' todo [])
  | Err e => pipeline_fails p total (MkPipe r (x :: todo) []) r' e
  end.
Proof. destruct y as [[]|e]; by constructor. Qed.

Lemma inline_bind {B} x (k : M W B) r :
  (_ ← ensure_not_cancelled;
   '(processed, verification) ← process_file (run_task_id p) x.2 (run_now p);
   _ ← finish_import_file p x.1 total x.2 processed verification; k) r
  = (_ ← inline_file p total x; k) r.
Proof.
  unfold inline_file. rewrite !bind_assoc_run. apply bind_ext. intros _ r1.
  rewrite !bind_assoc_run. apply bind_ext. intros [processed ver] r2. done.
Qed.

Lemma sequential_outcome files r r' x :
  process_indexed_files_sequential p total files r = (r', x) →
  pipeline_outcome p total (MkPipe r files []) r' x.
Proof.
  revert r. induction files as [|[index file] files IH]; intros r E;
    cbn [process_indexed_files_sequential] in E; [injection E as <- <-; apply rtc_refl|].
  rewrite (inline_bind (index, file)) in E. rewrite bind_run in E.
  destruct (inline_file p total (index, file) r) as [r1 y] eqn:Ei.
  apply (inline_step _ files) in Ei. destruct y as [[]|e].
  - eapply outcome_steps; [by apply rtc_once|]. by apply IH.
  - injection E as <- <-. cbn. eexists. split; [done|done].
Qed.

Lemma first_files_outcome files r r' x :
  first_files_sequential p total files r = (r', x) →
  match x with
  | Ok rest => (∃ front, files = front ++ rest) ∧ steps (MkPipe r files []) (MkPipe r' rest [])
  | Err e => ∃ q', steps (MkPipe r files []) q' ∧ pipeline_fails p total q' r' e
  end.
Proof.
  revert r. induction files as [|[index file] files IH]; intros r E;
    cbn [first_files_sequential] in E. { injection E as <- <-. split; [by exists []|done]. }
  rewrite bind_run in E. cbn [gets] in E. destruct (0 <? _).
  { injection E as <- <-. split; [by exists []|done]. }
  rewrite (inline_bind (index, file)) in E. rewrite bind_run in E.
  destruct (inline_file p total (index, file) r) as [r1 y] eqn:Ei.
  apply (inline_step _ files) in Ei. destruct y as [[]|e].
  - apply IH in E. destruct x as [rest|e].
    + destruct E as [[front ->] Hs]. split; [by exists ((index, file) :: front)|]. by eapply rtc_l.
    + destruct E as (q' & Hs & Hf). exists q'. split; [by eapply rtc_l|done].
  - injection E as <- <-. eexists. by split.
Qed.

Lemma enumerate_indices {A} (l : list A) : (enumerate l).*1 = seqZ 0 (Z.of_nat (length l)).
Proof.
  unfold enumerate. apply list_eq. intros i. rewrite list_lookup_fmap, list_lookup_imap.
  destruct (l !! i) as [a|] eqn:Hi; cbn.
  - symmetry. apply lookup_seqZ. apply lookup_lt_Some in Hi. lia.
  - symmetry. apply lookup_seqZ_ge. apply lookup_ge_None in Hi. lia.
Qed.

Lemma suffix_indices {A} (l front rest : list (Z * A)) n :
  l = front ++ rest → l.*1 = seqZ 0 n →
  rest.*1 = seqZ (match rest with (i, _) :: _ => i | [] => n end)
              (n - match rest with (i, _) :: _ => i | [] => n end).
Proof.
  intros -> Hl. destruct rest as [|[i a] rest]; [by rewrite seqZ_nil by lia|].
  assert (Z.of_nat (length front) < n) as Hlt.
  { apply (f_equal length) in Hl. rewrite length_fmap, length_seqZ, length_app in Hl. cbn in Hl. lia. }
  rewrite fmap_app in Hl. replace n with (Z.of_nat (length front) + (n - Z.of_nat (length front))) in Hl by lia.
  rewrite seqZ_app in Hl by lia. apply app_inj_1 in Hl as [_ Hl].
  2: { rewrite length_fmap, length_seqZ. lia. }
  rewrite Z.add_0_l in Hl. rewrite Hl. rewrite seqZ_cons in Hl by lia. cbn in Hl. injection Hl as -> _.
  done.
Qed.

End whole_runs.

Section parallel_runs.
Context {W : Type} `{ImportWorld W} `{ImportEngines} `{Sha256}.

Lemma parallel_run_outcome p files workers schedule (r r' : Run W) x :
  process_files_with_parse_workers p files workers schedule r = Some (r', x) →
  pipeline_outcome p (Z.of_nat (length files)) (MkPipe r (enumerate files) []) r' x.
Proof.
  unfold process_files_with_parse_workers. set (total := Z.of_nat (length files)). intros E.
  destruct (Z.min workers total <=? 1) eqn:Hw.
  { injection E as E. rewrite bind_run in E. cbn [update_summary modify] in E.
    eapply outcome_steps; [|by apply sequential_outcome]. apply rtc_once, step_count. }
  destruct (first_files_sequential _ _ _ _) as [r1 [rest|e]] eqn:Ef; apply first_files_outcome in Ef.
  2: { by injection E as <- <-. }
  destruct Ef as [[front Hfront] Hs]. eapply outcome_steps; [exact Hs|]. clear Hs.
  pose proof (suffix_indices _ _ _ total Hfront (enumerate_indices files)) as Hi.
  destruct rest as [|y rest].
  { injection E as <- <-. cbn. apply rtc_once, step_count. }
  cbn [update_summary modify] in E.
  eapply outcome_steps; [apply rtc_once, (step_count _ _ _ (record_parse_worker_count
    (Z.min workers (Z.of_nat (length (y :: rest))))))|].
  destruct (Z.min workers (Z.of_nat (length (y :: rest))) <=? 1) eqn:Hw2.
  - apply (inj Some) in E. by apply sequential_outcome.
  - bools. eapply scope_outcome; [exact E|lia|exact Hi].
Qed.

(** C3: Whatever the workers do and whenever they do it, a run with parse workers only does
    what the pipeline allows: every file is prepared once and committed once, commits
    happen in file order with the file's own result, and if the run reports an error it
    is the error of a poll, a preparation, a commit or an inline file, never a lost or
    doubled result. *)
Theorem parallel_run_refines_pipeline p files workers schedule (r r' : Run W) x :
  process_files_with_parse_workers p files workers schedule r = Some (r', x) →
  pipeline_outcome p (Z.of_nat (length files)) (MkPipe r (enumerate files) []) r' x.
Proof. apply parallel_run_outcome. Qed.
End parallel_runs.

(** ** Dispositions of a whole run *)

Section run_dispositions.
Context {W : Type} `{ImportWorld W} `{ImportEngines} `{Sha256}.
Implicit Types r : Run (Logged W).

Definition result_file (result : ImportFileResult) : DiscoveredFile :=
  match result with
  | ResultProcessed result => pif_file result
  | ResultParsed result => wr_file result
  end.
Definition waiting_file (x : Z * ImportFileResult) : Z * DiscoveredFile := (x.1, result_file x.2).

Lemma prepare_keeps_file task index file now (r r' : Run (Logged W)) prepared :
  prepare_file_for_parse task index file now r = (r', Ok prepared) →
  result_file (prepared_result prepared) = file.
Proof.
  unfold prepare_file_for_parse. intros E. do 3 run_step E. destruct a1; [by ret_inv E|].
  destruct (is_oversized_text file); [run_step E; by ret_inv E|].
  run_step E. destruct a1; [|by ret_inv E]. do 4 run_step E. destruct a4; [by ret_inv E|].
  run_step E. by ret_inv E.
Qed.

Lemma commit_result_accounted p total index result ds r r' :
  commit_result p total index result r = (r', Ok tt) → accounted ds r →
  ∃ d, disposition_of (index, result_file result) d ∧ accounted (ds ++ [d]) r'.
Proof.
  unfold commit_result. intros E Hacc. run_step E.
  eapply accounted_frames in Hacc; [|apply frames_ensure|exact E0]. run_step E.
  assert (pif_file a0 = result_file result) as Hfile.
  { destruct result; [by ret_inv E1|]. run_step E1. by ret_inv E1. }
  eapply accounted_frames in Hacc; [|shelve|exact E1].
  apply (finish_import_file_accounted _ _ _ _ _ _ ds) in E as (d & Hd & Hacc' & _); [|done].
  exists d. split; [|done]. rewrite <- Hfile. by eapply source_disposition_of.
  Unshelve. destruct result; solve_frames.
Qed.

Lemma inline_file_accounted p total x ds r r' :
  inline_file p total x r = (r', Ok tt) → accounted ds r →
  ∃ d, disposition_of x d ∧ accounted (ds ++ [d]) r'.
Proof.
  unfold inline_file. intros E Hacc. run_step E.
  eapply accounted_frames in Hacc; [|apply frames_ensure|exact E0]. run_step E.
  eapply accounted_frames in Hacc; [|apply frames_process_file|exact E1]. destruct a0 as [processed ver].
  apply (finish_import_file_accounted _ _ _ _ _ _ ds) in E as (d & Hd & Hacc' & _); [|done].
  exists d. split; [|done]. destruct x. by eapply source_disposition_of.
Qed.

(** The files are those committed, those waiting and those to do, in this order, and the
    accounts of the run are the dispositions of the committed ones. *)
Record pipe_accounted (files : list (Z * DiscoveredFile)) (q : Pipe (W:=Logged W)) : Prop :=
  MkPipeAccounted {
  pa_parts : ∃ front ds, files = front ++ map waiting_file (pipe_waiting q) ++ pipe_todo q ∧
    Forall2 disposition_of front ds ∧ accounted ds (pipe_run q);
}.

Lemma pipeline_step_accounted p total files q q' :
  pipeline_step p total q q' → pipe_accounted files q → pipe_accounted files q'.
Proof.
  intros Hstep [(front & ds & -> & Hds & Hacc)]. constructor.
  destruct Hstep as [r r' todo waiting E|r f todo waiting|r r' x todo E
    |r r' x prepared todo waiting E|r r' index result todo waiting E]; cbn in *.
  - exists front, ds. split_and!; [done..|]. eapply accounted_frames; [apply frames_ensure|done|done].
  - exists front, ds. split_and!; [done..|]. by destruct Hacc; constructor.
  - apply (inline_file_accounted _ _ _ ds) in E as (d & Hd & Hacc'); [|done].
    exists (front ++ [x]), (ds ++ [d]). split_and!; [by rewrite <- app_assoc| |done].
    apply Forall2_app; auto.
  - exists front, ds. split_and!; [|done|].
    + apply prepare_keeps_file in E. rewrite map_app. cbn. unfold waiting_file at 3. cbn. rewrite E.
      rewrite <- app_assoc. by destruct x.
    + eapply accounted_frames; [apply frames_prepare_file|done|done].
  - apply (commit_result_accounted _ _ _ _ ds) in E as (d & Hd & Hacc'); [|done].
    exists (front ++ [(index, result_file result)]), (ds ++ [d]).
    split_and!; [by rewrite <- app_assoc| |done]. apply Forall2_app; auto.
Qed.

Lemma pipeline_accounted p total files q q' :
  rtc (pipeline_step p total) q q' → pipe_accounted files q → pipe_accounted files q'.
Proof. induction 1; eauto using pipeline_step_accounted. Qed.

Lemma start_accounted files r : accounted [] r → pipe_accounted files (MkPipe r files []).
Proof. intros Hr. constructor. by exists [], []. Qed.

(** C4: A run with any number of workers under any schedule that completes has staged, for
    every file of the scan, exactly one disposition, with the file's ordinal and
    document; nothing is left pending. *)
Theorem completed_run_stages_every_source p report files workers schedule r r1 r' :
  accounted [] r →
  process_files_with_parse_workers p files workers schedule r = Some (r1, Ok tt) →
  complete_run p report r1 = (r', Ok tt) →
  ∃ ds, staged r' ≡ₚ ds ∧ Forall2 disposition_of (enumerate files) ds ∧
    NoDup (disp_source_ordinal <$> staged r') ∧ pending_index_documents r' = [] ∧
    batch_ready (disposition_batches r') = [] ∧ batch_pending_searchable (disposition_batches r') = [].
Proof.
  intros Hr Hrun%parallel_run_outcome Hend.
  eapply pipeline_accounted in Hrun; [|by apply start_accounted].
  destruct Hrun as [(front & ds & Hf & Hds & Hacc)]. cbn in Hf. rewrite app_nil_r in Hf. subst front.
  pose proof (complete_run_accounted _ _ _ _ _ Hend Hacc) as (Hs & Hp & Hb & Hw).
  exists ds. split_and!; [done..| |done|done|done]. rewrite Hs.
  assert (disp_source_ordinal <$> ds = (enumerate files).*1) as ->.
  { clear -Hds. induction Hds as [|x d l ds [Hd _] _ IH]; cbn; [done|]. by rewrite Hd, IH. }
  rewrite enumerate_indices. apply NoDup_seqZ.
Qed.

(** The files whose processing is over: all but those waiting and those to do. *)
Definition finished_files (files : list DiscoveredFile) (q : Pipe (W:=Logged W)) : list (Z * DiscoveredFile) :=
  take (length files - (length (pipe_waiting q) + length (pipe_todo q))) (enumerate files).

(** The dispositions a run has produced: staged in the store, ready for a batch, and held
    back until their documents are flushed. *)
Definition recorded r : list ImportTaskSourceDisposition :=
  staged r ++ batch_ready (disposition_batches r) ++ batch_pending_searchable (disposition_batches r).

(** C25: At every moment of a run the files of the scan are the finished ones, those waiting
    for their commit and those to do; the dispositions recorded so far, staged, ready or
    held back, are exactly one per finished file, with its ordinal and document; the
    documents still to be flushed and the dispositions held back correspond one to one,
    in order, each disposition naming its document's revision and version; and none of
    these dispositions is staged or ready: a searchable disposition never reaches the
    store before its document. *)
Theorem searchable_dispositions_wait p files r q :
  accounted [] r →
  rtc (pipeline_step p (Z.of_nat (length files))) (MkPipe r (enumerate files) []) q →
  enumerate files = finished_files files q ++ map waiting_file (pipe_waiting q) ++ pipe_todo q
  ∧ (∃ ds, recorded (pipe_run q) ≡ₚ ds ∧ Forall2 disposition_of (finished_files files q) ds)
  ∧ NoDup (disp_source_ordinal <$> recorded (pipe_run q))
  ∧ Forall2 awaits (pending_index_documents (pipe_run q))
      (batch_pending_searchable (disposition_batches (pipe_run q)))
  ∧ ∀ d, d ∈ batch_pending_searchable (disposition_batches (pipe_run q)) →
      (d ∉ staged (pipe_run q)) ∧ (d ∉ batch_ready (disposition_batches (pipe_run q))).
Proof.
  intros Hr Hs. pose proof (pipeline_accounted _ _ _ _ _ Hs (start_accounted _ _ Hr)) as Hq.
  destruct Hq as [(front & ds & Hf & Hds & [Ha Hw])].
  assert (finished_files files q = front) as ->.
  { unfold finished_files. pose proof (f_equal length Hf) as Hl.
    rewrite !length_app, length_map in Hl. unfold enumerate in Hl at 1. rewrite length_imap in Hl.
    rewrite Hf, take_app_le by lia. apply take_ge. lia. }
  assert (NoDup (disp_source_ordinal <$> recorded (pipe_run q))) as Hn.
  { unfold recorded. rewrite Ha.
    assert (disp_source_ordinal <$> ds = front.*1) as ->.
    { clear -Hds. induction Hds as [|x d l ds [Hd _] _ IH]; cbn; [done|]. by rewrite Hd, IH. }
    apply (f_equal (fmap fst)) in Hf. rewrite enumerate_indices, fmap_app in Hf.
    pose proof (NoDup_seqZ 0 (Z.of_nat (length files))) as Hz. rewrite Hf in Hz.
    by apply NoDup_app in Hz as (? & _). }
  split_and!; [done|by exists ds|done|done|]. intros d Hd. apply (NoDup_fmap_1 disp_source_ordinal) in Hn.
  unfold recorded in Hn. apply NoDup_app in Hn as (_ & Hn1 & (_ & Hn2 & _)%NoDup_app). split.
  - intros Hin. apply (Hn1 d Hin), elem_of_app. by right.
  - intros Hin. by apply (Hn2 d Hin).
Qed.
End run_dispositions.
