(* ===== verification/ImportTermination.v ===== *)
(** * Import runs with parse workers end

    [ImportSchedule] leaves open how long a schedule has to be: [None] means that it ran
    out.  Here a run is charged for the turns it takes.  Every effective step of a worker
    and every result the coordinator takes lowers a credit that the channels hold; a turn
    that lowers no credit is paid by the file that is dispatched.  A fair schedule (every
    worker is scheduled in every turn) with eight turns a file and one a worker is
    therefore long enough, whatever the files, the errors and the cancellations. *)

From Stdlib Require Import ZArith String.
From stdpp Require Import prelude gmap list_numbers.
From S2P Require Import Prelude Collections Text Identity SearchMetadata ImportFile ImportRun ImportSchedule.

Local Open Scope Z_scope.

(** Every one of [n] workers gets to run in the turn. *)
Definition fair (n : nat) (who : list nat) : Prop := ∀ i, (i < n)%nat → i ∈ who.

(** ** The credit of the channels *)

(** What is still to be done about a worker's position, a queued item and a result. *)
Definition worker_credit (w : Worker) : nat :=
  match w with Receiving => 1 | Parsing _ => 5 | Sending _ => 4 | Exited => 0 end.
Definition credit (c : Channels) : nat :=
  (5 * length (work_queue c) + 2 * length (results_queue c) + sum_list (worker_credit <$> workers c))%nat.

Section credit_lemmas.
Context `{ImportEngines} `{Sha256}.

Lemma sum_list_insert (f : Worker → nat) (l : list Worker) i a b :
  l !! i = Some a →
  ∃ rest, sum_list (f <$> l) = (rest + f a)%nat ∧ sum_list (f <$> <[i := b]> l) = (rest + f b)%nat.
Proof.
  intros Hi. exists (sum_list (f <$> take i l) + sum_list (f <$> drop (S i) l))%nat. split.
  - rewrite <- (take_drop_middle l i a) at 1 by done. rewrite fmap_app, sum_list_with_app. cbn.
    unfold sum_list. lia.
  - rewrite insert_take_drop by (by eapply lookup_lt_Some). rewrite fmap_app, sum_list_with_app. cbn.
    unfold sum_list. lia.
Qed.

(** A worker's step does nothing or lowers the credit. *)
Lemma worker_step_credit c i : worker_step c i = c ∨ (credit (worker_step c i) < credit c)%nat.
Proof.
  unfold worker_step. destruct (workers c !! i) as [w|] eqn:Hi; [|by left].
  destruct w as [|work|result|]; [| | |by left].
  - destruct (work_queue c) as [|work queue] eqn:Hq.
    + destruct (work_closed c); [|by left]. right. unfold credit. cbn.
      destruct (sum_list_insert worker_credit _ i _ Exited Hi) as (k & -> & ->). cbn. lia.
    + right. unfold credit. cbn. rewrite Hq.
      destruct (sum_list_insert worker_credit _ i _ (Parsing work) Hi) as (k & -> & ->). cbn. lia.
  - right. unfold credit. cbn.
    destruct (sum_list_insert worker_credit _ i _ (Sending (parse_work_item work)) Hi) as (k & -> & ->).
    cbn. lia.
  - destruct (results_closed c).
    + right. unfold credit. cbn.
      destruct (sum_list_insert worker_credit _ i _ Exited Hi) as (k & -> & ->). cbn. lia.
    + case_decide; [|by left]. right. unfold credit. cbn. rewrite length_app.
      destruct (sum_list_insert worker_credit _ i _ Receiving Hi) as (k & -> & ->). cbn. lia.
Qed.

Lemma turn_credit c who : (credit (turn c who) ≤ credit c)%nat.
Proof.
  unfold turn. revert c. induction who as [|i who IH]; intros c; cbn [fold_left]; [done|].
  specialize (IH (worker_step c i)). destruct (worker_step_credit c i) as [E|]; [rewrite E in *|]; lia.
Qed.

(** A turn that schedules a worker which is not blocked makes progress. *)
Lemma turn_progress c who i :
  i ∈ who → worker_step c i ≠ c → (credit (turn c who) < credit c)%nat.
Proof.
  unfold turn. revert c. induction who as [|j who IH]; intros c Hi Hne;
    [by apply not_elem_of_nil in Hi|]. cbn [fold_left].
  destruct (worker_step_credit c j) as [E|Hlt].
  - rewrite E. apply elem_of_cons in Hi as [->|Hi]; [done|]. by apply IH.
  - pose proof (turn_credit (worker_step c j) who). unfold turn in *. lia.
Qed.

Lemma worker_step_results c i :
  (length (results_queue c) ≤ length (results_queue (worker_step c i)))%nat ∧
  length (workers (worker_step c i)) = length (workers c) ∧
  work_closed (worker_step c i) = work_closed c ∧ results_closed (worker_step c i) = results_closed c.
Proof.
  unfold worker_step. repeat case_match; cbn; rewrite ?length_insert, ?length_app; auto with lia.
Qed.

Lemma turn_results c who :
  (length (results_queue c) ≤ length (results_queue (turn c who)))%nat ∧
  length (workers (turn c who)) = length (workers c) ∧
  work_closed (turn c who) = work_closed c ∧ results_closed (turn c who) = results_closed c.
Proof.
  unfold turn. revert c. induction who as [|i who IH]; intros c; cbn [fold_left]; [done|].
  destruct (IH (worker_step c i)) as (? & ? & ? & ?), (worker_step_results c i) as (? & ? & ? & ?).
  split_and!; [lia|congruence..].
Qed.

Lemma set_worker_moves c c' i w w' :
  workers c !! i = Some w → w ≠ w' → workers c' = workers c → set_worker i w' c' ≠ c.
Proof.
  intros Hi Hne Hw E. apply (f_equal workers) in E. cbn in E. rewrite Hw in E.
  apply (f_equal (λ l, l !! i)) in E. rewrite Hi, list_lookup_insert_eq in E by (by eapply lookup_lt_Some).
  congruence.
Qed.

Lemma some_worker_busy c :
  channels_ok true c ∨ channels_ok false c → outstanding c ≠ [] → results_queue c = [] →
  ∃ i, (i < length (workers c))%nat ∧ worker_step c i ≠ c.
Proof.
  intros Hok Hout Hr.
  assert ((Exited ∈ workers c → work_queue c = []) ∧ results_closed c = false ∧
    (0 < length (workers c))%nat ∧ (0 < capacity c)%nat) as (He & Ho & Hn & Hcap).
  { destruct Hok as [[? ? ? ? ?]|[? ? ? ? ?]]; split_and!; naive_solver. }
  destruct (work_queue c) as [|work queue] eqn:Hq.
  - unfold outstanding in Hout. rewrite Hq, Hr, app_nil_r in Hout. cbn in Hout.
    assert (∃ i w, workers c !! i = Some w ∧ worker_results w ≠ []) as (i & w & Hi & Hw).
    { clear -Hout. induction (workers c) as [|w ws IH]; [done|]. cbn in Hout.
      destruct (worker_results w) eqn:E; [|exists 0%nat, w; rewrite E; done].
      destruct IH as (i & w' & ? & ?); [done|]. by exists (S i), w'. }
    exists i. split; [by eapply lookup_lt_Some|]. unfold worker_step. rewrite Hi.
    destruct w; try done; [by eapply set_worker_moves|].
    rewrite Ho, Hr. rewrite decide_True by (cbn; lia). by eapply set_worker_moves.
  - destruct (workers c) as [|w ws] eqn:Hws; [cbn in Hn; lia|].
    exists 0%nat. split; [done|]. unfold worker_step. rewrite Hws, Hq. cbn.
    destruct w; [by eapply set_worker_moves; [rewrite Hws| |]..| | ].
    + rewrite Ho, Hr. rewrite decide_True by (cbn; lia). by eapply set_worker_moves; [rewrite Hws| |].
    + discriminate He. set_solver.
Qed.

Lemma outstanding_credit c : outstanding c ≠ [] → (0 < credit c)%nat.
Proof.
  intros Hout. unfold credit. unfold outstanding in Hout.
  destruct (work_queue c); [|cbn; lia]. destruct (results_queue c); [|cbn; lia]. cbn in *.
  rewrite app_nil_r in Hout. induction (workers c) as [|w ws IH]; [done|]. destruct w; cbn in *; [lia..|auto].
Qed.

(** Once both channels are closed a worker that has not returned is not blocked. *)
Lemma closing_worker_moves c :
  work_closed c = true → results_closed c = true → all_exited c = false →
  (0 < credit c)%nat ∧ ∃ i, (i < length (workers c))%nat ∧ worker_step c i ≠ c.
Proof.
  intros Hw Hr Hex.
  assert (∃ i w, workers c !! i = Some w ∧ w ≠ Exited) as (i & w & Hi & Hne).
  { unfold all_exited in Hex. clear -Hex. induction (workers c) as [|w ws IH]; [done|]. cbn in Hex.
    destruct w; [by exists 0%nat; eexists..|]. destruct IH as (i & w' & ? & ?); [done|]. by exists (S i), w'. }
  assert (worker_step c i ≠ c) as Hm.
  { unfold worker_step. rewrite Hi, Hw, Hr. destruct w; [|by eapply set_worker_moves..|done].
    destruct (work_queue c); by eapply set_worker_moves. }
  split; [|exists i; split; [by eapply lookup_lt_Some|done]].
  destruct (worker_step_credit c i); [done|lia].
Qed.
End credit_lemmas.

(** ** Code that ends *)

Section ends.
Context {W : Type} `{ImportWorld W} `{ImportEngines} `{Sha256}.
Variables (p : RunParams) (total : Z) (n : nat).
Implicit Types s : Par (W:=W).

(** The turns left beyond those the credit may need. *)
Definition margin s : Z := Z.of_nat (length (turns s)) - Z.of_nat (credit (channels s)).

Record ready (closed : bool) s : Prop := MkReady {
  rd_channels : channels_ok closed (channels s);
  rd_workers : length (workers (channels s)) = n;
  rd_fair : Forall (fair n) (turns s);
}.

(** [m] returns from [s] and leaves a margin of at least [low]. *)
Definition ends {A} (closed : bool) (m : P A) s (low : Z) (Q : A → Par → Prop) : Prop :=
  ∃ s' x, m s = Some (s', x) ∧ ready closed s' ∧ low ≤ margin s' ∧
    match x with Ok a => Q a s' | Err _ => True end.

Lemma ends_bind {A B} closed (m : P A) (k : A → P B) s low low' Q Q' :
  ends closed m s low Q → low' ≤ low →
  (∀ a s', ready closed s' → low ≤ margin s' → Q a s' → ends closed (k a) s' low' Q') →
  ends closed (p_bind m k) s low' Q'.
Proof.
  intros (s1 & x & E & Hr & Hm & HQ) Hc Hk. unfold ends, p_bind. rewrite E. destruct x as [a|e].
  - by apply Hk.
  - exists s1, (Err e). split_and!; [done|done|lia|done].
Qed.

Lemma ends_ret {A} closed (a : A) s low (Q : A → Par → Prop) :
  ready closed s → low ≤ margin s → Q a s → ends closed (p_ret a) s low Q.
Proof. intros Hr Hm HQ. by exists s, (Ok a). Qed.

Lemma ends_mono {A} closed (m : P A) s low low' (Q Q' : A → Par → Prop) :
  ends closed m s low Q → low' ≤ low →
  (∀ a s', low ≤ margin s' → Q a s' → Q' a s') → ends closed m s low' Q'.
Proof.
  intros (s1 & x & E & Hr & Hm & HQ) Hc Hw. exists s1, x. split_and!; [done|done|lia|].
  destruct x; [|done]. by apply Hw.
Qed.

(** What the refinement says of the result may be used of code that ends. *)
Lemma ends_refines {A} closed (m : P A) s q low (Q : A → Par → Prop) R :
  ends closed m s low Q → refines p total m s q R →
  ends closed m s low (λ a s', Q a s' ∧ ∃ q', R a s' q').
Proof.
  intros (s1 & x & E & Hr & Hm & HQ) Href. exists s1, x. split_and!; [done..|].
  destruct x as [a|e]; [|done]. destruct (Href _ _ E) as (q' & _ & HR). eauto.
Qed.

(** Only the run, the pending results and the index change. *)
Definition same_channels s s' : Prop := channels s' = channels s ∧ turns s' = turns s.

Lemma same_channels_ready closed s s' : same_channels s s' → ready closed s → ready closed s'.
Proof. intros [Ec Et] [? ? ?]. constructor; congruence. Qed.

Lemma same_channels_margin s s' : same_channels s s' → margin s' = margin s.
Proof. intros [Ec Et]. unfold margin. by rewrite Ec, Et. Qed.

Lemma ends_here {A} closed (m : P A) s s' x :
  ready closed s → m s = Some (s', x) → same_channels s s' →
  ends closed m s (margin s) (λ a s2, s2 = s').
Proof.
  intros Hr E Hs. exists s', x. split_and!; [done|by eapply same_channels_ready| |by destruct x].
  by rewrite (same_channels_margin s s').
Qed.

Lemma ends_in_run {A} closed (m : M W A) s :
  ready closed s → ends closed (in_run m) s (margin s) (λ _ s', ∃ r, s' = set_run r s).
Proof.
  intros Hr. destruct (m (par_run s)) as [r x] eqn:E.
  eapply ends_mono; [eapply (ends_here _ _ _ (set_run r s) x Hr); [|done]|done|].
  - unfold in_run. by rewrite E.
  - intros a s' _ ->. by exists r.
Qed.

Lemma ends_insert closed index result s :
  ready closed s →
  ends closed (insert_import_file_result index result) s (margin s) (λ _ s',
    s' = set_pending_results (<[index := result]> (pending_results s)) s).
Proof.
  intros Hr. unfold insert_import_file_result.
  destruct (pending_results s !! index) as [old|] eqn:E; (eapply ends_here; [done|by rewrite E|done]).
Qed.

(** A turn lowers the margin by at most itself, and by nothing when some worker moves. *)
Lemma ends_take_turn closed s :
  ready closed s → turns s ≠ [] →
  ∃ s', take_turn s = Some (s', Ok tt) ∧ ready closed s' ∧ margin s - 1 ≤ margin s' ∧
    S (length (turns s')) = length (turns s) ∧
    outstanding (channels s') ≡ₚ outstanding (channels s) ∧
    pending_results s' = pending_results s ∧ next_commit_index s' = next_commit_index s ∧
    (outstanding (channels s) ≠ [] → results_queue (channels s') = [] → margin s ≤ margin s').
Proof.
  intros [Hc Hn Hf] Ht. unfold take_turn, margin. destruct (turns s) as [|who rest] eqn:E; [done|].
  apply Forall_cons in Hf as [Hwho Hf]. eexists. split; [done|].
  cbn [channels turns pending_results next_commit_index length].
  destruct (turn_ok closed (channels s) who Hc) as [Hok Ho].
  destruct (turn_results (channels s) who) as (Hr & Hl & _ & _).
  pose proof (turn_credit (channels s) who) as Hcr.
  split_and!; [constructor; cbn; auto; congruence|lia|done|done|done|done|].
  intros Hout Hr0. rewrite Hr0 in Hr. cbn in Hr.
  destruct (some_worker_busy (channels s)) as (i & Hi & Hstep); [by destruct closed; auto|done|
    by apply nil_length_inv; lia|].
  pose proof (turn_progress _ who i (Hwho i ltac:(lia)) Hstep). cbn in *. lia.
Qed.

Lemma ready_received closed s result rest :
  results_queue (channels s) = result :: rest → ready closed s →
  ready closed (set_channels (set_results_queue rest (channels s)) s) ∧
  margin (set_channels (set_results_queue rest (channels s)) s) = margin s + 2.
Proof.
  intros Hq [[? ? ? ? ?] Hn Hf]. split; [constructor; cbn; auto; by constructor|].
  unfold margin, credit. cbn. rewrite Hq. cbn. lia.
Qed.

Lemma margin_turns s : 1 ≤ margin s → turns s ≠ [].
Proof. unfold margin. intros Hm E. rewrite E in Hm. cbn [length] in Hm. lia. Qed.

Lemma some_turns s : 0 ≤ margin s → (0 < credit (channels s))%nat → turns s ≠ [].
Proof. unfold margin. intros Hm Hc E. rewrite E in Hm. cbn [length] in Hm. lia. Qed.

(** ** The coordinator's loops *)

Lemma ends_recv_timeout closed s :
  ready closed s → outstanding (channels s) ≠ [] → 0 ≤ margin s →
  ends closed recv_timeout s (margin s) (λ event s', (length (turns s') < length (turns s))%nat ∧
    match event with
    | Received _ => margin s + 1 ≤ margin s'
    | Timeout => outstanding (channels s') ≠ []
    | Disconnected => True
    end).
Proof.
  intros Hr Hout Hm. unfold ends, recv_timeout, p_bind.
  destruct (ends_take_turn closed s) as (s1 & -> & Hr1 & Hm1 & Ht & Ho & _ & _ & Hprog); [done| |].
  { by apply some_turns, outstanding_credit. }
  destruct (results_queue (channels s1)) as [|result rest] eqn:Hq.
  - eexists _, _. split; [done|]. split_and!; [done|specialize (Hprog Hout eq_refl); lia|lia|].
    destruct (all_exited (channels s1)); [done|].
    intros Hz. rewrite Hz in Ho. by apply Permutation_nil in Ho.
  - destruct (ready_received closed s1 result rest) as [Hr2 Hm2]; [done..|].
    eexists _, _. split; [done|]. split_and!; [done|lia|cbn; lia|lia].
Qed.

Lemma ends_recv_loop closed fuel s :
  ready closed s → outstanding (channels s) ≠ [] → 0 ≤ margin s → (length (turns s) < fuel)%nat →
  ends closed (recv_loop fuel) s (margin s) (λ _ s', (length (turns s') < length (turns s))%nat ∧
    margin s + 1 ≤ margin s').
Proof.
  revert s. induction fuel as [|fuel IH]; intros s Hr Hout Hm Hf; [lia|]. cbn [recv_loop].
  eapply ends_bind; [by apply ends_recv_timeout|lia|].
  intros event s1 Hr1 Hm1 [Ht He]. destruct event as [result| |].
  - by apply ends_ret.
  - eapply ends_bind; [by apply ends_in_run|lia|]. intros [] s2 Hr2 Hm2 [r ->].
    eapply ends_mono; [apply IH; cbn; [done|done|lia|lia]|lia|]. intros a s3 _ [? ?]. cbn in *.
    split; lia.
  - by exists s1, (Err parallel_parse_error).
Qed.

Lemma ends_recv closed s :
  ready closed s → outstanding (channels s) ≠ [] → 0 ≤ margin s →
  ends closed recv_parse_result_with_cancel_poll s (margin s) (λ _ s',
    (length (turns s') < length (turns s))%nat ∧ margin s + 1 ≤ margin s').
Proof. intros. by apply (ends_recv_loop _ (S _)); auto with lia. Qed.

Lemma ends_try_recv closed s :
  ready closed s → 1 ≤ margin s →
  ends closed try_recv s (margin s - 1) (λ result s', (length (turns s') < length (turns s))%nat ∧
    (is_Some result → margin s ≤ margin s')).
Proof.
  intros Hr Hm. destruct (ends_take_turn closed s) as (s1 & E & Hr1 & Hm1 & Ht & _); [done|by apply margin_turns|].
  unfold ends, try_recv, p_bind. rewrite E. destruct (results_queue (channels s1)) as [|result rest] eqn:Hq.
  - eexists _, _. split; [done|]. split_and!; [done|lia|lia|]. by intros [? ?].
  - destruct (ready_received closed s1 result rest) as [Hr2 Hm2]; [done..|].
    eexists _, _. split; [done|]. split_and!; [done|lia|cbn; lia|lia].
Qed.

Lemma ends_drain_loop closed fuel s :
  ready closed s → 1 ≤ margin s → (length (turns s) < fuel)%nat →
  ends closed (drain_loop fuel) s (margin s - 1) (λ _ _, True).
Proof.
  revert s. induction fuel as [|fuel IH]; intros s Hr Hm Hf; [lia|]. cbn [drain_loop].
  eapply ends_bind; [by apply ends_try_recv|lia|]. intros result s1 Hr1 Hm1 [Ht Hs].
  destruct result as [result|]; [|by apply ends_ret]. specialize (Hs ltac:(done)).
  eapply ends_bind; [by apply ends_insert|lia|]. intros [] s2 Hr2 Hm2 ->.
  eapply ends_mono; [apply IH; [done|lia|cbn; lia]|lia|done].
Qed.

Lemma ends_drain closed s :
  ready closed s → 1 ≤ margin s →
  ends closed drain_available_parse_results s (margin s - 1) (λ _ _, True).
Proof. intros. by apply (ends_drain_loop _ (S _)); auto with lia. Qed.

Lemma ends_try_send s work :
  ready false s → 6 ≤ margin s →
  ends false (try_send work) s (margin s - 6) (λ sent s', (length (turns s') < length (turns s))%nat ∧
    (sent = false → outstanding (channels s') ≠ [] ∧ margin s - 1 ≤ margin s')).
Proof.
  intros Hr Hm. destruct (ends_take_turn false s) as (s1 & E & Hr1 & Hm1 & Ht & _); [done| |].
  { apply margin_turns. lia. }
  unfold ends, try_send, p_bind. rewrite E. case_decide as Hlen.
  - eexists _, _. split; [done|]. destruct Hr1 as [[? Hex ? ? ?] Hn Hf]. split_and!.
    + constructor; cbn; auto. constructor; cbn; auto. by intros [? _]%Hex.
    + unfold margin, credit in *. cbn. rewrite length_app. cbn. lia.
    + cbn. lia.
    + done.
  - eexists _, _. split; [done|]. split_and!; [done|lia|lia|]. intros _. split; [|lia].
    destruct Hr1 as [[? ? ? ? Hcap] _ _]. unfold outstanding.
    destruct (work_queue (channels s1)); [cbn in Hlen; lia|done].
Qed.

Lemma ends_send_loop fuel events work s :
  ready false s → 6 ≤ margin s → (length (turns s) < fuel)%nat →
  ends false (send_loop fuel events work) s (margin s - 6) (λ _ _, True).
Proof.
  revert events s. induction fuel as [|fuel IH]; intros events s Hr Hm Hf; [lia|]. cbn [send_loop].
  eapply ends_bind; [by apply ends_try_send|lia|]. intros sent s1 Hr1 Hm1 [Ht Hs]. destruct sent.
  - eapply ends_mono; [by apply ends_in_run|lia|done].
  - destruct (Hs eq_refl) as [Hout Hm1']. eapply ends_bind; [apply ends_recv; [done|done|lia]|lia|].
    intros result s2 Hr2 Hm2 [Ht2 Hm2']. eapply ends_bind; [by apply ends_insert|lia|].
    intros [] s3 Hr3 Hm3 ->. eapply ends_mono; [apply IH; [done|lia|cbn; lia]|lia|done].
Qed.

Lemma ends_send work s :
  ready false s → 6 ≤ margin s →
  ends false (send_parse_work_with_backpressure work) s (margin s - 6) (λ _ _, True).
Proof. intros. by apply (ends_send_loop (S _)); auto with lia. Qed.

(** A round of commits needs no turn; it says whether the index moved. *)
Lemma ends_commit_loop closed fuel committed s :
  ready closed s → (size (pending_results s) < fuel)%nat →
  ends closed (commit_loop p total fuel committed) s (margin s) (λ c s',
    turns s' = turns s ∧ next_commit_index s ≤ next_commit_index s' ∧
    (c = true → committed = true ∨ next_commit_index s < next_commit_index s')).
Proof.
  revert committed s. induction fuel as [|fuel IH]; intros committed s Hr Hf; [lia|].
  destruct (pending_results s !! next_commit_index s) as [result|] eqn:Hl.
  - assert (ends closed (p_bind (in_run (commit_result p total (next_commit_index s) result))
      (λ _ s1, commit_loop p total fuel true (set_next_commit_index (next_commit_index s + 1) s1)))
      (set_pending_results (delete (next_commit_index s) (pending_results s)) s) (margin s) (λ c s',
      turns s' = turns s ∧ next_commit_index s ≤ next_commit_index s' ∧
      (c = true → committed = true ∨ next_commit_index s < next_commit_index s'))) as Hend.
    { eapply ends_bind; [by apply ends_in_run; eapply same_channels_ready; [|exact Hr]|done|].
      intros [] s1 Hr1 Hm1 [r ->].
      destruct (IH true (set_next_commit_index (next_commit_index s + 1) (set_run r
        (set_pending_results (delete (next_commit_index s) (pending_results s)) s)))) as (s3 & x & E & Hr3 & Hm3 & Hx); [by eapply same_channels_ready; [|exact Hr]| |].
      - cbn. rewrite map_size_delete_Some by eauto. pose proof (map_size_ne_0_lookup_2 _ _ (mk_is_Some _ _ Hl)).
        lia.
      - exists s3, x. split_and!; [done..|]. destruct x; [|done]. cbn in Hx. destruct Hx as (-> & Hle & _).
        split_and!; [done|lia|]. intros _. right. lia. }
    unfold ends in *. cbn [commit_loop]. by rewrite Hl.
  - exists s, (Ok committed). cbn [commit_loop]. rewrite Hl. split_and!; auto with lia.
Qed.

Lemma ends_commit closed s :
  ready closed s →
  ends closed (commit_ready_import_file_results p total) s (margin s) (λ c s',
    turns s' = turns s ∧ next_commit_index s ≤ next_commit_index s' ∧
    (c = true → next_commit_index s < next_commit_index s')).
Proof.
  intros Hr. eapply ends_mono; [apply (ends_commit_loop _ (S _) false); auto with lia|done|].
  intros c s' _ (? & ? & Hc). split_and!; auto. by intros [|]%Hc.
Qed.

(** A file costs at most eight turns: its work item and two looks at the results. *)
Lemma ends_dispatch_file x s :
  ready false s → 8 ≤ margin s → ends false (dispatch_file p total x) s (margin s - 8) (λ _ _, True).
Proof.
  intros Hr Hm. unfold dispatch_file. eapply ends_bind; [apply ends_drain; [done|lia]|lia|].
  intros [] s1 Hr1 Hm1 _. eapply ends_bind; [by apply ends_commit|lia|].
  intros c s2 Hr2 Hm2 _. eapply ends_bind; [by apply ends_in_run|lia|].
  intros prepared s3 Hr3 Hm3 _. eapply (ends_bind _ _ _ _ (margin s3 - 6) _ (λ _ _, True)); [|lia|].
  { destruct prepared as [result|work]; [|apply ends_send; [done|lia]].
    eapply ends_mono; [by apply ends_insert|lia|done]. }
  intros [] s4 Hr4 Hm4 _. eapply ends_bind; [apply ends_drain; [done|lia]|lia|].
  intros [] s5 Hr5 Hm5 _. eapply ends_bind; [by apply ends_commit|lia|].
  intros c' s6 Hr6 Hm6 _. apply ends_ret; [done|lia|done].
Qed.

Lemma ends_dispatch_files files s :
  ready false s → 8 * Z.of_nat (length files) ≤ margin s →
  ends false (dispatch_files p total files) s (margin s - 8 * Z.of_nat (length files)) (λ _ _, True).
Proof.
  revert s. induction files as [|x files IH]; intros s Hr Hm; cbn [dispatch_files].
  - apply ends_ret; [done|cbn; lia|done].
  - cbn [length] in *. eapply ends_bind; [apply ends_dispatch_file; [done|lia]|lia|].
    intros [] s1 Hr1 Hm1 _. eapply ends_mono; [apply IH; [done|lia]|lia|done].
Qed.

(** The rounds after the last file: each commits, or takes the result it waits for. *)
Lemma ends_drain_remaining fuel s q :
  ready true s → coordinates total true [] s q → pipe_todo q = [] → 0 ≤ margin s →
  (length (turns s) + Z.to_nat (total - next_commit_index s) < fuel)%nat →
  ends true (drain_remaining p total fuel) s (margin s) (λ _ _, True).
Proof.
  revert s q. induction fuel as [|fuel IH]; intros s q Hr Hco Ht Hm Hf; [lia|].
  destruct (next_commit_index s <? total) eqn:Hlt.
  2: { exists s, (Ok tt). cbn [drain_remaining]. by rewrite Hlt. }
  assert (ends true (p_bind (commit_ready_import_file_results p total) (λ committed,
      match committed with
      | true => drain_remaining p total fuel
      | false => p_bind recv_parse_result_with_cancel_poll (λ result,
                   p_bind (insert_parse_result result) (λ _, drain_remaining p total fuel))
      end)) s (margin s) (λ _ _, True)) as Hend.
  { bools. eapply ends_bind; [eapply ends_refines; [by apply ends_commit|by apply commit_refines]|lia|].
    intros c s1 Hr1 Hm1 [(Et & Hle & Hc) (q1 & Hco1 & Ht1 & Hl & _ & Hfl & _)]. destruct c.
    - specialize (Hc eq_refl). eapply ends_mono; [eapply IH; [done|done|congruence|lia|rewrite Et; lia]|lia|done].
    - destruct (Hfl eq_refl) as (_ & En & _).
      assert (outstanding (channels s1) ≠ []) as Hout.
      { eapply missing_is_outstanding; [done|congruence|lia|done]. }
      eapply ends_bind; [eapply ends_refines; [apply ends_recv; [done|done|lia]|by apply recv_refines]|lia|].
      intros result s2 Hr2 Hm2 [[Htn _] (q2 & Hco2 & [Ht2 _] & _ & En2)].
      eapply ends_bind; [eapply ends_refines; [by apply ends_insert|by apply insert_refines]|lia|].
      intros [] s3 Hr3 Hm3 [-> (q3 & Hco3 & -> & En3)].
      eapply ends_mono; [eapply IH; [done|done|congruence|lia|]|lia|done]. cbn [turns set_pending_results].
      rewrite En3, En2, En. rewrite Et in Htn. lia. }
  unfold ends in *. cbn [drain_remaining]. by rewrite Hlt.
Qed.

(** The coordinating closure returns, and leaves the turns that joining the workers takes. *)
Lemma coordinate_ends files s q :
  ready false s → coordinates total false [] s q → pipe_todo q = files →
  8 * Z.of_nat (length files) ≤ margin s →
  ∃ s' x, coordinate p total files s = Some (s', x) ∧ 0 ≤ margin s' ∧
    length (workers (channels s')) = n ∧ Forall (fair n) (turns s').
Proof.
  intros Hr Hco Ht Hm. unfold coordinate, p_bind.
  destruct (ends_refines _ _ _ q _ _ _ (ends_dispatch_files files s Hr Hm)
    (dispatch_files_refines p total files s q Hco Ht)) as (s1 & x & -> & Hr1 & Hm1 & Hx).
  destruct x as [[]|e]; [|exists s1, (Err e); destruct Hr1; split_and!; [done|lia|done|done]].
  destruct Hx as (_ & q1 & Hco1 & Ht1). set (s2 := set_channels (drop_work_tx (channels s1)) s1).
  destruct (ends_drain_remaining (S (length (turns s2) + Z.to_nat (total - next_commit_index s2))) s2 q1)
    as (s3 & x & E & Hr3 & Hm3 & _); [|by apply closes_work|done|unfold margin in *; cbn in *; lia|lia|].
  - destruct Hr1 as [[? ? ? ? ?] ? ?]. constructor; cbn; auto. constructor; cbn; auto. naive_solver.
  - exists s3, x. destruct Hr3. split_and!; [done| |done|done]. unfold margin in *. cbn in *. lia.
Qed.

(** With both channels closed every turn makes some worker return or come closer to it. *)
Lemma join_ends fuel s :
  work_closed (channels s) = true → results_closed (channels s) = true →
  length (workers (channels s)) = n → Forall (fair n) (turns s) → 0 ≤ margin s →
  (length (turns s) < fuel)%nat → ∃ s', join_workers fuel s = Some (s', Ok tt).
Proof.
  revert s. induction fuel as [|fuel IH]; intros s Hw Hc Hn Hf Hm Hfuel; [lia|]. cbn [join_workers].
  destruct (all_exited (channels s)) eqn:Hex; [eauto|].
  destruct (closing_worker_moves _ Hw Hc Hex) as (Hpos & i & Hi & Hstep).
  unfold p_bind, take_turn, margin in *. destruct (turns s) as [|who rest] eqn:Et; [cbn [length] in Hm; lia|].
  apply Forall_cons in Hf as [Hwho Hf].
  destruct (turn_results (channels s) who) as (_ & Hl & Hw' & Hc').
  pose proof (turn_progress _ who i (Hwho i ltac:(lia)) Hstep) as Hprog.
  cbn [length] in *. apply IH; cbn [channels turns]; [congruence..|done|lia|lia].
Qed.
End ends.

Section termination.
Context {W : Type} `{ImportWorld W} `{ImportEngines} `{Sha256}.

Lemma some_pair {A B} (x : A * B) : ∃ a b, Some x = Some (a, b).
Proof. destruct x. eauto. Qed.

Lemma scope_ends p total files n schedule (r : Run W) :
  (0 < n)%nat → Forall (fair n) schedule → (n + 8 * length files ≤ length schedule)%nat →
  files.*1 = seqZ (match files with (i, _) :: _ => i | [] => total end)
               (total - match files with (i, _) :: _ => i | [] => total end) →
  ∃ r' x, scope p total files n schedule r = Some (r', x).
Proof.
  intros Hn Hfair Hlen Hf. pose proof (scope_start total files n schedule r Hn Hf) as Hco.
  unfold scope. set (s := MkPar r _ ∅ _ schedule) in *.
  assert (margin s = Z.of_nat (length schedule) - Z.of_nat n) as Hm.
  { unfold margin, credit. cbn. assert (sum_list (worker_credit <$> replicate n Receiving) = n) as ->; [|done].
    clear. induction n as [|n IH]; [done|]. cbn in *. unfold sum_list in *. lia. }
  destruct (coordinate_ends p total n files s (MkPipe r files [])) as (s1 & x & -> & Hm1 & Hn1 & Hf1);
    [|done|done|lia|].
  { constructor; [apply Hco|apply length_replicate|done]. }
  destruct (join_ends n (S (length (turns s1))) (set_channels (drop_result_rx (drop_work_tx (channels s1))) s1))
    as (s2 & E); [done..|cbn; lia|]. cbn [turns set_channels]. rewrite E. eauto.
Qed.

(** C5: Every run with parse workers returns: a fair schedule with eight turns a file and one
    a worker is never exhausted, whatever the files are, whichever errors the store, the
    file system and the parsers give, and whenever the user cancels.  So as long
    as every worker moves in each turn, the coordinator and the workers never wait for
    each other for good. *)
Theorem parallel_run_terminates p files workers schedule (r : Run W) :
  Forall (fair (Z.to_nat workers)) schedule →
  (Z.to_nat workers + 8 * length files ≤ length schedule)%nat →
  ∃ r' x, process_files_with_parse_workers p files workers schedule r = Some (r', x).
Proof.
  intros Hfair Hlen. unfold process_files_with_parse_workers.
  destruct (_ <=? 1); [apply some_pair|].
  destruct (first_files_sequential _ _ _ _) as [r1 [rest|e]] eqn:Ef; [|eauto].
  apply first_files_outcome in Ef as [[front Hfront] _].
  pose proof (suffix_indices _ _ _ (Z.of_nat (length files)) Hfront (enumerate_indices files)) as Hi.
  destruct rest as [|y rest]; [apply some_pair|].
  cbn [update_summary modify]. set (count := Z.min _ _). destruct (count <=? 1) eqn:Hc;
    [apply some_pair|]. bools.
  assert (length (y :: rest) ≤ length files)%nat as Hle.
  { apply (f_equal length) in Hfront. unfold enumerate in Hfront.
    rewrite length_imap, length_app in Hfront. lia. }
  apply scope_ends; [lia| |lia|exact Hi]. eapply Forall_impl; [exact Hfair|].
  intros who Hw i Hlt. apply Hw. lia.
Qed.
End termination.
