(* ===== verification/ImportDemo.v ===== *)
(** * A small import, evaluated

    A world whose file system and store always answer, and three files: one that the store
    knows and the metadata fast path skips, one that has to be read and that its parser
    rejects, and a resume that becomes searchable.  The theorems on import runs are applied to it. *)

From Stdlib Require Import ZArith String.
From stdpp Require Import prelude gmap list_numbers.
From S2P Require Import Prelude Collections Text Identity SearchMetadata WriterStore Classifier ImportFile ImportRun ImportSchedule ImportTermination.

Local Open Scope Z_scope.

Module ImportDemo.
#[local] Existing Instance toy_sha256.

(** The text parser finds a resume, the others reject every input; no promotion model is
    loaded. *)
#[local] Instance engines : ImportEngines := {|
  docx_parse _ _ := Err (MkParserError ParserCorruptedInput false);
  doc_parse _ _ := Err (MkParserError ParserCorruptedInput false);
  pdf_parse _ _ := Err (MkParserError ParserCorruptedInput false);
  txt_parse _ _ _ := Ok (MkParseOutput StatusTextExtracted (lit "PROFILE
Engineer.
EXPERIENCE
Built tools.") None);
  engines_unicode := sample_unicode;
  engines_libm := {| f64_ln x := x; f64_exp x := x |};
  linear_promotion := None;
  extract_strong_fields _ := [];
|}.

Definition observation : FileObservation :=
  MkObservation (lit "id") 1 (MkObservationTime 5 0) (MkObservationTime 5 0).
Definition known_file : DiscoveredFile :=
  MkDiscovered (MkId (lit "k")) (lit "k") (lit "k") Docx 1 5 (Some observation).
Definition new_file : DiscoveredFile :=
  MkDiscovered (MkId (lit "n")) (lit "n") (lit "n") Docx 1 5 (Some observation).
Definition resume_file : DiscoveredFile :=
  MkDiscovered (MkId (lit "s")) (lit "s") (lit "s") Txt 1 5 (Some observation).
Definition known_hash : ContentDigest := MkDigest (lit "h").
Definition known_document : Document :=
  MkDocument (MkId (lit "k")) (lit "k") (lit "k") (lit "k") Docx 1 5 (Some (lit "h")) None false 0 0 OcrRequired.

(** The store knows one file: its observation, and an OCR job that is still queued. *)
#[local] Instance shelf : ImportWorld unit := {|
  Handle := unit;
  file_open _ w := (w, Some tt);
  observe_open_file _ w := (w, Some (Some observation));
  observe_path _ w := (w, Some (Some observation));
  read_to_end _ w := (w, Some [65]);
  read_chunks _ w := (w, [Some [65]; Some []]);
  system_unix_seconds w := (w, Some 7);
  poll_not_cancelled w := (w, Ok tt);
  ContactHasher := unit;
  contact_hasher_load_or_create w := (w, Some tt);
  hash_contact _ _ _ := None;
  document_by_id d _ := Ok (if str_eqb (id_str d) (lit "k") then Some known_document else None);
  active_search_projection_for_document _ _ := Ok None;
  resume_version_by_id _ _ := Ok None;
  resume_version_classification _ _ _ := Ok None;
  active_search_document _ _ := Ok None;
  entity_mentions_for_version _ _ := Ok [];
  source_revision_triage rev epoch _ := Ok (Some (MkTriage rev OcrBacklogStatus epoch [] 0));
  ocr_job_for_source_triage _ _ _ := Ok (Some (MkIngestJob JobQueued 0 3));
  resume_versions_for_document _ _ := Ok [];
  source_file_observation_for_import_task _ path _ := Ok
    (if str_eqb path (lit "k")
     then Some (MkSourceObservation (MkId (lit "r")) known_hash (lit "id") 1 5 0 5 0 0 100000) else None);
  search_projection_state _ := Ok (MkImportProjection ServiceRepairing None None None);
  visible_documents _ := Ok [];
  import_scan_scope_by_task_id _ _ := Ok None;
  commit_source_root_bound_import _ w := (w, Ok true);
  stage_immutable_ingest _ w := (w, Ok tt);
  enqueue_ocr_job_for_source_triage _ _ _ w := (w, Ok true);
  upsert_document _ w := (w, Ok tt);
  observe_import_task_source_occurrence _ _ _ _ _ w := (w, Ok tt);
  record_strong_source_file_observation _ _ _ w := (w, Ok tt);
  stage_import_task_source_dispositions _ _ _ w := (w, Ok tt);
  upsert_import_scan_scope _ w := (w, Ok tt);
  update_source_scan_progress_for_import_task _ _ _ w := (w, Ok tt);
  wait_for_search_publication_session w := (w, Ok tt);
  publish_incremental_search_artifacts _ w := (w, MkPublicationOutcome true (Ok true));
  generation_handoff_finish _ w := (w, Ok tt);
|}.

Definition start_summary : ImportSummary :=
  MkSummary 2 0 0 true 0 0 0 (MkIo 0 0 0 0 0 0 0 0 0 (MkFallbackCounts 0 0 0 0 0 0 0)) 1 0 0 0 [] 0 None
    (MkWorkerMetrics 0 0 0 0).
Definition start {W} (w : W) : Run W :=
  MkRun w start_summary [] [] (MkBatches (lit "t") (lit "c") [] []).

Definition params : RunParams := MkRunParams (lit "t") ConfiguredCatchUp 7.
Definition files : list DiscoveredFile := [known_file; new_file].
Definition schedule : list (list nat) := replicate 18 [1; 0]%nat.

Definition run_of {W A} (x : option (Run W * result A ImportPipelineError)) (r : Run W) : Run W :=
  match x with Some (r, _) => r | None => r end.

Definition finished : Run unit :=
  run_of (process_files_with_parse_workers params files 2 schedule (start tt)) (start tt).

(** The same run in the instrumented world, and its end. *)
Definition logged_start : Run (Logged unit) := start (tt, []).
Definition logged_finished : Run (Logged unit) :=
  run_of (process_files_with_parse_workers params files 2 schedule logged_start) logged_start.
Definition report : ScanReport := MkScanReport None false [] [] [].
Definition logged_completed : Run (Logged unit) := (complete_run params report logged_finished).1.

Lemma logged_start_accounted : accounted [] logged_start.
Proof. constructor; [done|constructor]. Qed.

Lemma parallel_run_refines_pipeline_witness :
  pipeline_outcome params 2 (MkPipe (start tt) (enumerate files) []) finished (Ok tt) ∧
  failed_documents (summary finished) = 1.
Proof.
  split; [|vm_compute; reflexivity].
  apply (parallel_run_refines_pipeline params files 2 schedule). vm_compute. reflexivity.
Defined.

Lemma completed_run_stages_every_source_witness :
  (∃ ds, staged logged_completed ≡ₚ ds ∧ Forall2 disposition_of (enumerate files) ds ∧
    NoDup (disp_source_ordinal <$> staged logged_completed) ∧
    pending_index_documents logged_completed = [] ∧
    batch_ready (disposition_batches logged_completed) = [] ∧
    batch_pending_searchable (disposition_batches logged_completed) = []) ∧
  length (staged logged_completed) = 2%nat.
Proof.
  split; [|vm_compute; reflexivity].
  apply (completed_run_stages_every_source params report files 2 schedule logged_start logged_finished);
    [exact logged_start_accounted|vm_compute; reflexivity|vm_compute; reflexivity].
Defined.

(** A run after the known file and the resume are finished and the third is prepared: the
    resume waits for its flush. *)
Definition scan : list DiscoveredFile := [known_file; resume_file; new_file].
Definition after_known : Run (Logged unit) := (inline_file params 3 (0, known_file) logged_start).1.
Definition after_resume : Run (Logged unit) := (inline_file params 3 (1, resume_file) after_known).1.
Definition preparation := prepare_file_for_parse (lit "t") 2 new_file 7 after_resume.
Definition halfway : Pipe :=
  match preparation with
  | (r, Ok prepared) => MkPipe r [] [(2, prepared_result prepared)]
  | (r, Err _) => MkPipe r [] []
  end.

Lemma halfway_reached : rtc (pipeline_step params 3) (MkPipe logged_start (enumerate scan) []) halfway.
Proof.
  eapply rtc_l; [|eapply rtc_l; [|apply rtc_once]].
  - apply (step_inline params 3 logged_start after_known (0, known_file)). vm_compute. reflexivity.
  - apply (step_inline params 3 after_known after_resume (1, resume_file)). vm_compute. reflexivity.
  - unfold halfway. destruct preparation as [r [prepared|e]] eqn:E.
    + exact (step_prepare params 3 after_resume r (2, new_file) prepared [] [] E).
    + apply (f_equal snd) in E. vm_compute in E. discriminate E.
Qed.

Lemma searchable_dispositions_wait_witness :
  (enumerate scan = finished_files scan halfway ++ map waiting_file (pipe_waiting halfway) ++ pipe_todo halfway
   ∧ (∃ ds, recorded (pipe_run halfway) ≡ₚ ds ∧ Forall2 disposition_of (finished_files scan halfway) ds)
   ∧ NoDup (disp_source_ordinal <$> recorded (pipe_run halfway))
   ∧ Forall2 awaits (pending_index_documents (pipe_run halfway))
       (batch_pending_searchable (disposition_batches (pipe_run halfway)))
   ∧ ∀ d, d ∈ batch_pending_searchable (disposition_batches (pipe_run halfway)) →
       (d ∉ staged (pipe_run halfway)) ∧ (d ∉ batch_ready (disposition_batches (pipe_run halfway))))
  ∧ (length (finished_files scan halfway), length (recorded (pipe_run halfway)),
     length (pending_index_documents (pipe_run halfway))) = (2, 2, 1)%nat.
Proof.
  split; [|vm_compute; reflexivity].
  apply (searchable_dispositions_wait params scan logged_start halfway);
    [exact logged_start_accounted|exact halfway_reached].
Defined.

Lemma parallel_run_terminates_witness :
  ∃ r' x, process_files_with_parse_workers params files 2 schedule (start tt) = Some (r', x).
Proof.
  apply (parallel_run_terminates params files 2 schedule); [|vm_compute; lia].
  apply Forall_replicate. intros i Hi. cbn in Hi. destruct i as [|[|i]]; [set_solver|set_solver|lia].
Defined.

Lemma worker_path_matches_process_file_witness :
  process_by_worker (lit "t") 0 new_file 7 (start tt)
  = ('(processed, verification) ← process_file (lit "t") new_file 7;
     mret (MkProcessedImport new_file processed verification)) (start tt).
Proof. apply (worker_path_matches_process_file (lit "t") 0 new_file 7 (start tt)). intros []. reflexivity. Defined.

Lemma fast_path_hit_sound_witness :
  ∃ d, rerun_justified tt known_file known_hash 7 d.
Proof.
  destruct (attempt_metadata_fast_path (lit "t") known_file 7 (start tt)) as [r' x] eqn:E.
  assert (∃ p, x = Ok (Hit p)) as [p ->].
  { apply (f_equal snd) in E. cbn [snd] in E. subst x. eexists. vm_compute. reflexivity. }
  destruct (fast_path_hit_sound (lit "t") known_file 7 (start tt) r' p E)
    as (discovered & persisted & d & h & w1 & w2 & w3 & _ & Hp & _ & _ & _ & _ & Hj & _).
  exists d. destruct w2. vm_compute in Hp. injection Hp as <-. exact Hj.
Defined.

Lemma next_strong_verification_window_witness :
  7 + 6 * 60 * 60 ≤ next_strong_verification_at 7 (lit "id") < 7 + 24 * 60 * 60.
Proof. apply (next_strong_verification_window 7 (lit "id")); vm_compute; discriminate. Defined.

Lemma current_source_triage_epoch_roundtrip_witness :
  ∃ epoch, current_source_triage_epoch = Ok epoch ∧ source_triage_epoch_parse epoch = Ok epoch.
Proof.
  pose proof toy_sha256_laws. apply current_source_triage_epoch_roundtrip. eexists. vm_compute. reflexivity.
Defined.
End ImportDemo.
